(* ===== verification/_CoqProject ===== *)
-Q . S2P
Prelude.v
CType.v
ByteSet.v
AsciiTable.v
Percent.v
Uri.v
UriParser.v
UriParserFacts.v
UriRoundTrip.v
UriMerge.v
Varint.v
Coding.v
StdString.v
HFile.v
HFileFacts.v
LruCache.v
SSTableWriter.v
SSTableWriterFacts.v
SSTableReader.v
SSTableReaderFacts.v
SSTable.v
Number.v
InMemory.v
Merged.v
StringPiece.v
StringAlgorithm.v
Composited.v
Bitmap.v
BitmapFacts.v
Shell.v
Divisor.v
Date.v
Random.v
SkipList.v
SkipListFacts.v
Hex.v
BlockHash.v
MD5.v
SHA1.v
Specification.v
Scan.v
Http.v
HttpFacts.v
Path.v
Murmur.v
MurmurFacts.v
Bloom.v
Checksum.v
BloomFacts.v
FingerprintShards.v
QueryParams.v
SeqFile.v
SeqFileFacts.v
IntrusiveList.v
Occurrences.v
ThreadPool.v
ThreadPoolFacts.v
BlockingQueue.v
BlockingQueueFacts.v
RecordIO.v
RecordIOFacts.v
Print.v
PrintFacts.v
Timer.v
TimerFacts.v
Socket.v
SocketFacts.v
HttpClient.v
HttpClientFacts.v
Int128.v
MemPool.v
