(* ===== verification/Prelude.v ===== *)
(** * A verification library for toft

    toft is a C++ foundation library: containers, encodings, strings, formats,
    URIs and HTTP messages, record files and a sorted-table storage format, and
    threads, queues and timers over a layer of operating-system wrappers.  This
    library models the part of it that computes, definition by definition, and
    proves what each component promises.

    ** How the program is put together, and where it is modelled

    Source paths are relative to the root of the repository's source tree.

    Foundations:
    - [Prelude] (this file): bytes, words, tactics, list and arithmetic lemmas.
    - [StdString], [CType]: what is used of the C++ and C standard libraries
      (the order of strings, ordered maps, stable sort, character classes).
    - [ByteSet] (base/string/byte_set.h): 256-bit sets of bytes.
    - [AsciiTable] (encoding/ascii): the classification table.
    - [StringPiece] (base/string/string_piece, compare, memory): searches and
      the word-at-a-time comparison of memory.
    - [StringAlgorithm] (base/string/algorithm): split, join, replace, trim.
    - [Number] (base/string/number): integers to and from text.
    - [Divisor] (base/uint32_divisor), [Random] (base/random), [Int128]
      (base/int128).
    - [IntrusiveList] (base/intrusive_list.h): linked lists through members of
      their elements, in a store that the lists share.
    - [Occurrences]: counting elements, for the invariants of the threads.

    Formats (base/string/format):
    - [Specification] parses the fields of a format; [Scan] is the typed
      scanf, [Print] with [PrintFacts] the typed printf, and what is printed
      is scanned back.

    Encodings and hashes:
    - [Varint] (encoding/varint), [Percent] (encoding/percent), [Hex]
      (encoding/hex), [Shell] (encoding/shell).
    - [BlockHash] is what [MD5] (crypto/hash/md5) and [SHA1]
      (crypto/hash/sha1) share.
    - [Murmur] with [MurmurFacts] (hash/murmur, hash/fingerprint),
      [Checksum] (the other functions of hash/).

    URIs (net/uri/uri.h, uri.cpp):
    - [Uri] holds the data of a reference and its printing, [UriParser] the
      recursive-descent parser with its cursor and the [Result] objects that
      put it back, [UriMerge] the resolution of references.
    - [UriParserFacts] and [UriRoundTrip] are the proofs.
    - [QueryParams] (net/uri/query_params) is what is behind the question mark.

    HTTP (net/http): [Http] with [HttpFacts] hold the headers, the start lines
    of requests and responses, their parsing and printing; [HttpClient] with
    [HttpClientFacts] (net/http/http_client) sends a request and receives its
    response over the sockets of [Socket] with [SocketFacts]
    (system/net/socket).

    Paths (storage/path): [Path] joins, normalises and compares them.

    Containers:
    - [LruCache] (container/lru_cache.h), [Bitmap] with [BitmapFacts]
      (container/bitmap), [SkipList] with [SkipListFacts]
      (container/skiplist.h), [Bloom] with [BloomFacts]
      (container/bloom_filter).

    Threads and what they share:
    - [ThreadPool] with [ThreadPoolFacts] (system/threading/thread_pool).
    - [BlockingQueue] with [BlockingQueueFacts] (container/blocking_queue).
    - [Timer] with [TimerFacts] (system/timer/timer_manager).
    Each is a system of steps; a step is what a thread does while it holds a
    mutex, or one atomic operation, and a run is any sequence of them.  The
    skip list is such a system too, with a step for each load and store.

    Sorted tables (storage/sstable), bottom up:
    - [Coding] (hfile/coding): integers and cursors over [c_str()].
    - [HFile] with [HFileFacts] (hfile/): the four kinds of block.
    - [SSTableWriter] with [SSTableWriterFacts] (writer/single and unsorted).
    - [SSTableReader] with [SSTableReaderFacts] (reader/hfile and on disk),
      which keeps its blocks in the cache of [LruCache]; [InMemory]
      (reader/in_memory).
    - [SSTable]: a writer's file read back by a reader.
    - [Merged] (reader/merged): many tables read as one; [Composited]
      (writer/composited, writer/sharding): batches sorted into temporary
      tables, merged by the merged reader, and spread over shards;
      [FingerprintShards] (sharding/fingerprint_sharding) chooses the shard.

    Other files: [SeqFile] with [SeqFileFacts] (storage/seqfile) are the
    sequence files, [RecordIO] with [RecordIOFacts] (storage/recordio) the
    record files, forward and in reverse.

    [Date] (system/time/date) and [MemPool] (system/memory/mempool) stand
    alone.

    ** Conventions

    A byte is a [Z] in [0, 256) and a string is a list of them.  A machine
    integer is a [Z] with its wrap-around written where the code performs it
    ([u8] ... [s64] below).  A method of an object is a function from the
    object's record to its result and the new record.  A result [None] of a
    definition is, as each file says, a null result of the code or its leaving
    the defined behaviour: a failed CHECK, an uncaught exception, a read
    outside an object, signed overflow; those are results to be proved absent,
    not excluded.  The target has 64-bit words with the least significant byte
    first, two's complement integers and the C locale.

    Loops whose recursion is not structural carry fuel.  The fuel is
    in each case computed from the input (the length of the buffer or of the
    list walked, the number of bits or of days), and a theorem says that it
    does not run out: the operations' theorems state that they return
    [Some] result, and what it is.  [UriRoundTrip.Parse_terminates] and
    [BitmapFacts.find_bits_in_order] say it by themselves.

    ** Interfaces

    A component that calls another is proved against a class of promises, and
    the other component discharges it: [Forward], [Restores], [Advances] and
    [Keeps] for the methods of the URI parser, [BlockSpec] for the blocks of a
    table, [BlockCache] for the cache the reader on disk keeps, [TableReader]
    with [TableSpec] for the readers the merged reader is built on, [StartLine]
    for requests and responses, [FormatPrintTarget] with [LawfulTarget] for
    what a format is printed to, [GoodStream] for the connection the client
    talks over.

    What is outside the source is a parameter.  Compression is a pair of
    functions with decompression their inverse where it is used; the clock, the
    sharding policy and the fingerprint are functions; the disk is a map from
    paths to bytes, and a writer's [File::Write] may be a short one except in
    the theorems that suppose a disk that takes everything.  [FloatLibrary] and
    [PrintLibrary] are what the formats call of the C library for
    floating-point numbers and pointers, [Libm] the logarithm and the power the
    Bloom filter is sized with, and the stream classes of [SeqFile] and
    [RecordIO] ([GoodSource] and the like say when they are sound) the files.
    [SocketSystem] are the system calls on a socket, [DomainResolver] the name
    server.

    ** What the theorems show

    - Tables: what is added to a writer is what every reader iterates over, in
      key order, stable for equal keys, whatever the block size; a seek finds
      the first entry at or after a key; a look-up finds the value; the meta
      data and the counts come back; merging readers merges the entries; the
      composited and sharding writers leave the tables of the sorted entries.
      The binary search of the index is exact.  A block that is cut short is
      read past its end, with the bytes that shows it
      ([HFileFacts.DataBlock_decode_overread]).  A value written to the shards
      of its fingerprint is found there.
    - Record and sequence files: what is written is read back, however many
      bytes each call of the file takes or gives; what readers do with a torn
      file ([RecordIOFacts.torn_record]).
    - URIs: printing after parsing is the identity; the parser terminates and
      accepts only characters of the grammar; reference resolution is the
      algorithm of RFC 3986 section 5.2, and the in-place removal of dot
      segments is that of its segments.  HTTP messages and query parameters
      that are printed are read back; every error of a start line or of the
      headers is told.  A normalised path reaches what the path reaches, and a
      relative path leads from one directory to the other.
    - Sockets: they transfer everything, in whatever pieces and however often
      they are interrupted; so the server reads back the request of an HTTP
      client, and the client its response.
    - Formats: a field prints what its specification means; a format prints its
      fields one after another, counts them, and scans what it prints.
    - Containers: the cache refines a list in order of use and keeps its
      bound; each bitmap operation is an operation on the number its bits
      denote; insertions into the skip list are set insertions; a search that
      runs between the stores of insertions answers as if at one moment of
      its run, follows no unset link, and ends; a Bloom filter has no false
      negative, and an intrusive list is the sequence of its elements.
    - Threads, for every run: the pool loses no task, runs none twice and joins
      without a deadlock, but strands tasks once a thread has left
      ([ThreadPoolFacts.thread_pool_strands]); the bounded queue loses no
      element and no wake-up; the timer manager loses no timer and no closure,
      and a timer removed does not run.
    - The memory pool gives no block out twice, keeps to its quotas and leaks
      nothing.
    - Numbers and encodings: round trips of the encoders; results of the
      parsers are in the range of their type, and the texts they accept are
      characterised; division by multiplication is division; the operators on
      two words are arithmetic modulo 2^128; MD5 and SHA-1
      over any cutting of the message into pieces are the standards' digests
      of the whole; the table-driven checksums are those of their polynomials.
    - Strings: memory comparison by words is lexicographic comparison; split,
      join and replace invert one another; the longest common substring is one.
    - Dates: valid dates stay valid and move by the number of days asked for.

    Where the code does something else than its comments say or means, the
    difference is a lemma or an example next to the definition (for instance
    [Date.set_month_13], [Date.sub_days_wraps]).

    ** What is not modelled, and why

    - Wrappers of the operating system and of other libraries: files,
      processes, POSIX threads and locks, atomics, clocks, JSON, compression
      libraries, charset conversion, wildcards; of the sockets their options,
      datagrams and listening, which are single system calls.  What the components above rely on of them is stated there.
    - Templates without computation: smart pointers, class registries, closures
      and concatenation by arity, compile-time helpers.
    - Conversions that are calls of the C library: floating-point numbers,
      [strftime] and [strptime].
    - The memory order of the processor: loads and stores, of the skip list and
      of the counters of the thread pool, are sequentially consistent.
    - Not reached: counters, addresses of the network, the pool of memory that
      a process shares. *)

From Stdlib Require Export ZArith Lia.
From Stdlib Require Ascii String.
Export Ascii.AsciiSyntax.
From stdpp Require Export base gmap numbers strings option list fin_maps.

#[global] Open Scope Z_scope.

(** ** Bytes, byte strings and machine words *)

(** A byte is a [Z] in [0, 256); a C++ [std::string], [StringPiece] or
    [char] buffer is a list of bytes.  A 64-bit [size_t] index into one is a
    [nat]. *)
Abbreviation bytes := (list Z).

(** Character and string literals of the source. *)
Definition chr (a : Ascii.ascii) : Z := Z.of_N (Ascii.N_of_ascii a).
Definition str (s : String.string) : bytes := chr <$> String.list_ascii_of_string s.
Arguments chr _%_char_scope.
Arguments str _%_string_scope.

Definition is_byte (b : Z) : Prop := 0 <= b < 256.
Definition bytes_ok (s : bytes) : Prop := Forall is_byte s.

(** Conversions to the unsigned types of the given width, and to the signed
    8-, 32- and 64-bit types (two's complement, as the target's ABI has it). *)
Definition u8 (x : Z) : Z := x mod 2 ^ 8.
Definition u16 (x : Z) : Z := x mod 2 ^ 16.
Definition u32 (x : Z) : Z := x mod 2 ^ 32.
Definition u64 (x : Z) : Z := x mod 2 ^ 64.
Definition s8 (x : Z) : Z := (x + 2 ^ 7) mod 2 ^ 8 - 2 ^ 7.
Definition s32 (x : Z) : Z := (x + 2 ^ 31) mod 2 ^ 32 - 2 ^ 31.
Definition s64 (x : Z) : Z := (x + 2 ^ 63) mod 2 ^ 64 - 2 ^ 63.

(** ** Tactics *)

(** [norm_chars] evaluates every closed [chr] literal. *)
Ltac norm_chars :=
  repeat match goal with
  | |- context [chr ?a] => let v := eval vm_compute in (chr a) in change (chr a) with v
  | H : context [chr ?a] |- _ => let v := eval vm_compute in (chr a) in change (chr a) with v in H
  end.

(** Boolean tests on [Z] and [nat] turned into propositions, then [lia]. *)
Ltac bool_to_prop :=
  repeat match goal with
  | H : (_ && _)%bool = true |- _ => apply andb_true_iff in H as [? ?]
  | H : (_ || _)%bool = false |- _ => apply orb_false_iff in H as [? ?]
  | H : negb _ = true |- _ => apply negb_true_iff in H
  | H : negb _ = false |- _ => apply negb_false_iff in H
  | H : (_ =? _) = true |- _ => apply Z.eqb_eq in H
  | H : (_ =? _) = false |- _ => apply Z.eqb_neq in H
  | H : (_ <? _) = true |- _ => apply Z.ltb_lt in H
  | H : (_ <? _) = false |- _ => apply Z.ltb_ge in H
  | H : (_ <=? _) = true |- _ => apply Z.leb_le in H
  | H : (_ <=? _) = false |- _ => apply Z.leb_gt in H
  | H : (_ =? _)%nat = true |- _ => apply Nat.eqb_eq in H
  | H : (_ =? _)%nat = false |- _ => apply Nat.eqb_neq in H
  | H : (_ <? _)%nat = true |- _ => apply Nat.ltb_lt in H
  | H : (_ <? _)%nat = false |- _ => apply Nat.ltb_ge in H
  | H : (_ <=? _)%nat = true |- _ => apply Nat.leb_le in H
  | H : (_ <=? _)%nat = false |- _ => apply Nat.leb_gt in H
  end.

(** Destructs the outermost integer test of the goal and simplifies. *)
Ltac case_ztest :=
  match goal with
  | |- context [?a =? ?b] => destruct (Z.eqb_spec a b)
  | |- context [?a <? ?b] => destruct (Z.ltb_spec a b)
  | |- context [?a <=? ?b] => destruct (Z.leb_spec a b)
  | |- context [(?a =? ?b)%nat] => destruct (Nat.eqb_spec a b)
  | |- context [(?a <? ?b)%nat] => destruct (Nat.ltb_spec a b)
  | |- context [(?a <=? ?b)%nat] => destruct (Nat.leb_spec a b)
  end.

(** Bit-level equality of two integers: reduces to an equality of bits. *)
Create Rewrite HintDb zbits.
#[export] Hint Rewrite Z.lor_spec Z.land_spec Z.lxor_spec : zbits.
#[export] Hint Rewrite Z.bits_0 Z.bits_m1 : zbits.
#[export] Hint Rewrite Z.lnot_spec Z.shiftl_spec Z.shiftr_spec Z.ones_spec_low using lia : zbits.

(** Right-nested concatenation without empty parts. *)
Ltac app_norm := repeat progress (cbn; rewrite ?app_nil_r, <- ?(assoc_L (++))).

Ltac bits_ext n Hn :=
  apply Z.bits_inj'; intros n Hn; autorewrite with zbits.

(** ** Facts on machine words *)

Lemma u8_small x : is_byte x → u8 x = x.
Proof. intros H. apply Z.mod_small. exact H. Qed.

Lemma u8_byte x : is_byte (u8 x).
Proof. apply Z.mod_pos_bound. lia. Qed.

Lemma u32_small x : 0 <= x < 2 ^ 32 → u32 x = x.
Proof. apply Z.mod_small. Qed.

Lemma u64_small x : 0 <= x < 2 ^ 64 → u64 x = x.
Proof. apply Z.mod_small. Qed.

Lemma s32_small x : - 2 ^ 31 <= x < 2 ^ 31 → s32 x = x.
Proof. intros H. unfold s32. rewrite Z.mod_small by lia. lia. Qed.

Lemma s64_small x : - 2 ^ 63 <= x < 2 ^ 63 → s64 x = x.
Proof. intros H. unfold s64. rewrite Z.mod_small by lia. lia. Qed.

Lemma s8_range x : - 128 <= s8 x < 128.
Proof. unfold s8. pose proof (Z.mod_pos_bound (x + 2 ^ 7) (2 ^ 8)). lia. Qed.

Lemma s8_small x : - 128 <= x < 128 → s8 x = x.
Proof. intros. unfold s8. rewrite Z.mod_small by lia. lia. Qed.

Lemma s8_byte c : is_byte c → s8 c = if c <? 128 then c else c - 256.
Proof.
  unfold is_byte, s8. intros Hc. destruct (Z.ltb_spec c 128).
  - rewrite Z.mod_small by lia. lia.
  - rewrite <- (Z.mod_add _ (-1)), Z.mod_small by lia. lia.
Qed.

Lemma s8_u8 x : - 128 <= x < 128 → s8 (u8 x) = x.
Proof. intros Hx. unfold s8, u8. rewrite Zplus_mod_idemp_l, Z.mod_small by lia. lia. Qed.

Lemma testbit_high x n : 0 <= x < 2 ^ n → ∀ m, n <= m → Z.testbit x m = false.
Proof.
  intros Hx m Hm. destruct (Z.eq_dec x 0) as [-> | Hne]; [apply Z.bits_0 |].
  apply Z.bits_above_log2; [lia |].
  apply Z.log2_lt_pow2; [lia |].
  apply Z.lt_le_trans with (2 ^ n); [lia |]. apply Z.pow_le_mono_r; lia.
Qed.

Lemma testbit_mod_pow2 x n m :
  0 <= n → 0 <= m → Z.testbit (x mod 2 ^ n) m = ((m <? n) && Z.testbit x m)%bool.
Proof.
  intros Hn Hm. destruct (Z.ltb_spec m n); simpl.
  - by apply Z.mod_pow2_bits_low.
  - by apply Z.mod_pow2_bits_high.
Qed.

Lemma testbit_u8 x m : 0 <= m → Z.testbit (u8 x) m = ((m <? 8) && Z.testbit x m)%bool.
Proof. intros Hm. by apply testbit_mod_pow2. Qed.

Lemma testbit_u64 x m : 0 <= m → Z.testbit (u64 x) m = ((m <? 64) && Z.testbit x m)%bool.
Proof. intros Hm. by apply testbit_mod_pow2. Qed.

#[export] Hint Rewrite testbit_u8 testbit_u64 using lia : zbits.

(** Bit [m] of [1 << n]. *)
Lemma testbit_shiftl_1 n m : 0 <= n → 0 <= m → Z.testbit (Z.shiftl 1 n) m = (n =? m).
Proof.
  intros Hn Hm. rewrite Z.shiftl_1_l, Z.pow2_bits_eqb by done. done.
Qed.

#[export] Hint Rewrite testbit_shiftl_1 using lia : zbits.

(** [(w >> k) & 1] is bit [k]. *)
Lemma shiftr_land_1 w k : 0 <= k → Z.land (Z.shiftr w k) 1 = Z.b2z (Z.testbit w k).
Proof.
  intros Hk. change 1 with (Z.ones 1). rewrite Z.land_ones by lia.
  rewrite Z.testbit_spec' by done. rewrite Z.shiftr_div_pow2 by done. done.
Qed.

(** A word whose bits at and above [n] are clear is below [2 ^ n]. *)
Lemma bound_of_bits x n :
  0 <= n → 0 <= x → (∀ m, n <= m → Z.testbit x m = false) → x < 2 ^ n.
Proof.
  intros Hn Hx Hb. destruct (Z.eq_dec x 0) as [-> | Hne]; [by apply Z.pow_pos_nonneg |].
  apply Z.log2_lt_pow2; [lia |].
  destruct (Z.lt_ge_cases (Z.log2 x) n) as [| Hge]; [done |].
  specialize (Hb _ Hge). rewrite Z.bit_log2 in Hb by lia. done.
Qed.

(** Joining a word to a lower part is addition. *)
Lemma lor_shiftl_add a b n : 0 <= n → 0 <= a < 2 ^ n → Z.lor a (Z.shiftl b n) = a + b * 2 ^ n.
Proof.
  intros Hn Ha. assert (Hl : Z.land a (Z.shiftl b n) = 0).
  { apply Z.bits_inj'. intros m Hm. rewrite Z.land_spec, Z.shiftl_spec, Z.bits_0 by done.
    destruct (Z.lt_ge_cases m n).
    - rewrite (Z.testbit_neg_r b) by lia. apply andb_false_r.
    - by rewrite (testbit_high a n). }
  rewrite <- Z.lxor_lor, <- Z.add_nocarry_lxor, Z.shiftl_mul_pow2 by done. done.
Qed.

Lemma lxor_shiftl_add a b n : 0 <= n → 0 <= a < 2 ^ n → Z.lxor a (Z.shiftl b n) = a + b * 2 ^ n.
Proof.
  intros Hn Ha. rewrite <- lor_shiftl_add by done. apply Z.bits_inj'. intros k Hk. rewrite Z.lxor_spec, Z.lor_spec, Z.shiftl_spec by done.
  destruct (Z.lt_ge_cases k n); [rewrite (Z.testbit_neg_r b) by lia; by destruct (Z.testbit a k)|].
  rewrite (testbit_high a n) by done. by destruct (Z.testbit b (k - n)).
Qed.

Lemma land_ones_mod a n : 0 <= n → Z.land a (2 ^ n - 1) = a mod 2 ^ n.
Proof.
  intros H. rewrite <- Z.land_ones by done. f_equal. rewrite Z.ones_equiv. lia.
Qed.

(** ** Finite checks *)

(** A property of every byte, decided by enumeration. *)
Lemma byte_forall (P : Z → bool) :
  forallb P (seqZ 0 256) = true → ∀ b, is_byte b → P b = true.
Proof.
  intros H b Hb. rewrite forallb_forall in H. apply H.
  apply list_elem_of_In, elem_of_seqZ. unfold is_byte in Hb. lia.
Qed.

(** ** Lists *)

Lemma filter_none {A} (P : A → Prop) `{∀ x, Decision (P x)} (k : list A) :
  Forall (λ x, ¬ P x) k → filter P k = [].
Proof. induction 1 as [|x k Hx Hk IH]; [done|]. by rewrite filter_cons, decide_False. Qed.

Lemma filter_every {A} (P : A → Prop) `{∀ x, Decision (P x)} (k : list A) :
  Forall P k → filter P k = k.
Proof. induction 1 as [|x k Hx Hk IH]; [done|]. by rewrite filter_cons, decide_True, IH. Qed.

(** ** Byte strings *)

Lemma bytes_ok_nil : bytes_ok [].
Proof. constructor. Qed.

Lemma bytes_ok_cons b s : bytes_ok (b :: s) ↔ is_byte b ∧ bytes_ok s.
Proof. apply Forall_cons_iff. Qed.

Lemma bytes_ok_app s t : bytes_ok (s ++ t) ↔ bytes_ok s ∧ bytes_ok t.
Proof. apply Forall_app. Qed.

Create HintDb toft.
#[export] Hint Resolve bytes_ok_nil u8_byte : toft.
