(* ===== verification/CType.v ===== *)
(** * The C library's character classification

    The predicates of [<ctype.h>] in the "C" locale, which the source passes
    to [ByteSet] (base/string/byte_set.h) and from which the table of
    [Ascii] (encoding/ascii.cpp) was generated.  They are part of the
    language's standard library: the ranges are those of ISO C 7.4 for the
    basic character set. *)

From S2P Require Import Prelude.

Definition in_range (lo hi c : Z) : bool := ((lo <=? c) && (c <=? hi))%bool.

Definition isupper (c : Z) : bool := in_range 65 90 c.
Definition islower (c : Z) : bool := in_range 97 122 c.
Definition isdigit (c : Z) : bool := in_range 48 57 c.
Definition isalpha (c : Z) : bool := (isupper c || islower c)%bool.
Definition isalnum (c : Z) : bool := (isalpha c || isdigit c)%bool.
Definition isxdigit (c : Z) : bool :=
  (isdigit c || in_range 65 70 c || in_range 97 102 c)%bool.
Definition isblank (c : Z) : bool := ((c =? 32) || (c =? 9))%bool.
Definition isspace (c : Z) : bool := ((c =? 32) || in_range 9 13 c)%bool.
Definition iscntrl (c : Z) : bool := (in_range 0 31 c || (c =? 127))%bool.
Definition isgraph (c : Z) : bool := in_range 33 126 c.
Definition isprint (c : Z) : bool := in_range 32 126 c.
Definition ispunct (c : Z) : bool := (isgraph c && negb (isalnum c))%bool.
Definition isascii (c : Z) : bool := in_range 0 127 c.
Definition tolower (c : Z) : Z := if isupper c then c + 32 else c.
Definition toupper (c : Z) : Z := if islower c then c - 32 else c.
