(* ===== verification/ByteSet.v ===== *)
(** * ByteSet: a set of bytes as a 256-bit bitmap

    Model of [class ByteSet] in base/string/byte_set.h.  The state is the
    array [m_bitmap] of [(UCHAR_MAX + 1) / CHAR_BIT = 32] bytes; membership of
    a byte [c] is bit [c % 8] of byte [c / 8].  The theorem [ops_refine]
    relates every operation to the set of bytes the bitmap denotes. *)

From S2P Require Import Prelude CType.

Definition CHAR_BIT : Z := 8.
Definition UCHAR_MAX : Z := 255.

Record ByteSet := mkByteSet { m_bitmap : bytes }.

(** [memset(m_bitmap, 0, sizeof(m_bitmap))] *)
Definition Clear : ByteSet := mkByteSet (replicate 32 0).

(** [m_bitmap[n/CHAR_BIT] |= (1U << (n%CHAR_BIT))] *)
Definition Insert (n : Z) (s : ByteSet) : ByteSet :=
  mkByteSet (alter (λ w, u8 (Z.lor w (Z.shiftl 1 (n mod CHAR_BIT))))
                   (Z.to_nat (n / CHAR_BIT)) (m_bitmap s)).

(** [m_bitmap[n/CHAR_BIT] &= ~(1U << (n%CHAR_BIT))] *)
Definition Remove (n : Z) (s : ByteSet) : ByteSet :=
  mkByteSet (alter (λ w, u8 (Z.land w (Z.lnot (Z.shiftl 1 (n mod CHAR_BIT)))))
                   (Z.to_nat (n / CHAR_BIT)) (m_bitmap s)).

(** [(m_bitmap[c/CHAR_BIT] >> (c%CHAR_BIT)) & 1] *)
Definition Find (s : ByteSet) (c : Z) : bool :=
  match m_bitmap s !! Z.to_nat (c / CHAR_BIT) with
  | Some w => negb (Z.land (Z.shiftr w (c mod CHAR_BIT)) 1 =? 0)
  | None => false
  end.

(** [for (int c = 0; c <= UCHAR_MAX; ++c) if (pred(c)) Insert(c);] *)
Definition InsertPred (pred : Z → bool) (s : ByteSet) : ByteSet :=
  foldl (λ acc c, if pred c then Insert c acc else acc) s (seqZ 0 (UCHAR_MAX + 1)).

Definition RemovePred (pred : Z → bool) (s : ByteSet) : ByteSet :=
  foldl (λ acc c, if pred c then Remove c acc else acc) s (seqZ 0 (UCHAR_MAX + 1)).

(** [while ( *str) { Insert( *str); ++str; }]: the list is what the pointer
    addresses, and the loop stops at its first NUL. *)
Fixpoint InsertString (cs : bytes) (s : ByteSet) : ByteSet :=
  match cs with
  | [] => s
  | c :: r => if c =? 0 then s else InsertString r (Insert c s)
  end.

(** [for (size_t i = 0; i < length; ++i) Insert(begin[i]);] *)
Fixpoint InsertBytes (cs : bytes) (s : ByteSet) : ByteSet :=
  match cs with
  | [] => s
  | c :: r => InsertBytes r (Insert c s)
  end.

Fixpoint RemoveString (cs : bytes) (s : ByteSet) : ByteSet :=
  match cs with
  | [] => s
  | c :: r => if c =? 0 then s else RemoveString r (Remove c s)
  end.

(** The constructors: clear, then fill. *)
Definition of_pred (pred : Z → bool) : ByteSet := InsertPred pred Clear.
Definition of_string (cs : bytes) : ByteSet := InsertString cs Clear.
Definition of_bytes (cs : bytes) : ByteSet := InsertBytes cs Clear.

(** [operator|=], [operator&=] byte by byte, and their string form. *)
Definition or_with (s rhs : ByteSet) : ByteSet :=
  mkByteSet (zip_with Z.lor (m_bitmap s) (m_bitmap rhs)).
Definition and_with (s rhs : ByteSet) : ByteSet :=
  mkByteSet (zip_with Z.land (m_bitmap s) (m_bitmap rhs)).
Definition or_string (s : ByteSet) (rhs : bytes) : ByteSet := InsertString rhs s.

(** The predefined singletons. *)
Definition SpaceSet : ByteSet := of_pred isspace.
Definition BlankSet : ByteSet := of_pred isblank.
Definition AlphaSet : ByteSet := of_pred isalpha.
Definition AlphaNumSet : ByteSet := of_pred isalnum.
Definition AsciiSet : ByteSet := of_pred isascii.
Definition HexSet : ByteSet := of_pred isxdigit.
Definition DigitSet : ByteSet := of_pred isdigit.
Definition UpperSet : ByteSet := of_pred isupper.
Definition LowerSet : ByteSet := of_pred islower.
Definition PrintSet : ByteSet := of_pred isprint.

(** ** Well-formedness and membership *)

Definition wf (s : ByteSet) : Prop := length (m_bitmap s) = 32%nat ∧ bytes_ok (m_bitmap s).

(** Membership as one bit of the bitmap. *)
Definition bit_at (s : ByteSet) (c : Z) : bool :=
  Z.testbit (nth (Z.to_nat (c / 8)) (m_bitmap s) 0) (c mod 8).

Lemma Find_bit s c : Find s c = bit_at s c.
Proof.
  unfold Find, bit_at, CHAR_BIT. rewrite nth_lookup.
  destruct (m_bitmap s !! _) as [w|] eqn:E; simpl; [|by rewrite Z.bits_0].
  rewrite shiftr_land_1 by (apply Z.mod_pos_bound; lia).
  by destruct (Z.testbit w (c mod 8)).
Qed.

Lemma byte_index c : is_byte c → (Z.to_nat (c / 8) < 32)%nat ∧ 0 <= c mod 8 < 8.
Proof.
  intros H. unfold is_byte in H. pose proof (Z.mod_pos_bound c 8 ltac:(lia)).
  split; [|lia]. pose proof (Z.div_lt_upper_bound c 8 32). pose proof (Z.div_pos c 8). lia.
Qed.

Lemma byte_index_eq c n :
  is_byte c → is_byte n →
  c = n ↔ Z.to_nat (c / 8) = Z.to_nat (n / 8) ∧ c mod 8 = n mod 8.
Proof.
  unfold is_byte. intros Hc Hn. split; [by intros ->|]. intros [Hd Hm].
  pose proof (Z.div_mod c 8). pose proof (Z.div_mod n 8).
  pose proof (Z.div_pos c 8). pose proof (Z.div_pos n 8). lia.
Qed.

(** How an update of one bitmap byte acts on every membership bit. *)
Lemma bit_at_alter f n s c :
  is_byte c → is_byte n → wf s →
  bit_at (mkByteSet (alter f (Z.to_nat (n / 8)) (m_bitmap s))) c =
  if decide (Z.to_nat (c / 8) = Z.to_nat (n / 8))
  then Z.testbit (f (nth (Z.to_nat (c / 8)) (m_bitmap s) 0)) (c mod 8)
  else bit_at s c.
Proof.
  intros Hc Hn [Hlen _]. unfold bit_at. simpl. rewrite !nth_lookup.
  case_decide as E.
  - rewrite E, list_lookup_alter_eq.
    destruct (m_bitmap s !! Z.to_nat (n / 8)) eqn:El; [done|].
    apply lookup_ge_None in El. pose proof (byte_index n Hn). lia.
  - by rewrite list_lookup_alter_ne by congruence.
Qed.

Lemma wf_alter f i s :
  wf s → (∀ w, is_byte (f w)) → wf (mkByteSet (alter f i (m_bitmap s))).
Proof.
  intros [Hl Hb] Hf. split; simpl; [by rewrite length_alter|].
  apply Forall_alter; [done|]. intros x _ _. apply Hf.
Qed.

Lemma wf_Clear : wf Clear.
Proof. split; [done|]. apply Forall_replicate. by unfold is_byte. Qed.

Lemma wf_Insert n s : wf s → wf (Insert n s).
Proof. intros H. apply wf_alter; auto with toft. Qed.

Lemma wf_Remove n s : wf s → wf (Remove n s).
Proof. intros H. apply wf_alter; auto with toft. Qed.

#[export] Hint Resolve wf_Clear wf_Insert wf_Remove : toft.

Lemma Find_Clear c : Find Clear c = false.
Proof.
  rewrite Find_bit. unfold bit_at, Clear. cbn [m_bitmap].
  assert (∀ k, nth k (replicate 32 0) 0 = 0) as ->; [|by rewrite Z.bits_0].
  intros k. rewrite nth_lookup. destruct (replicate 32 0 !! k) eqn:E; [|done].
  by apply lookup_replicate in E as [-> _].
Qed.

Lemma Find_Insert n s c :
  wf s → is_byte n → is_byte c → Find (Insert n s) c = ((c =? n) || Find s c)%bool.
Proof.
  intros Hs Hn Hc. rewrite !Find_bit. unfold Insert, CHAR_BIT.
  rewrite bit_at_alter by done. pose proof (byte_index c Hc) as [_ Hk].
  pose proof (byte_index n Hn) as [_ Hkn]. pose proof (byte_index_eq c n Hc Hn) as Heq.
  case_decide as E; cycle 1; [case_ztest; [subst; done|done]|].
  autorewrite with zbits. unfold bit_at.
  destruct (Z.ltb_spec (c mod 8) 8); [|lia]. simpl.
  rewrite orb_comm. f_equal.
  destruct (Z.eqb_spec (n mod 8) (c mod 8)); destruct (Z.eqb_spec c n); naive_solver.
Qed.

Lemma Find_Remove n s c :
  wf s → is_byte n → is_byte c → Find (Remove n s) c = (negb (c =? n) && Find s c)%bool.
Proof.
  intros Hs Hn Hc. rewrite !Find_bit. unfold Remove, CHAR_BIT.
  rewrite bit_at_alter by done. pose proof (byte_index c Hc) as [_ Hk].
  pose proof (byte_index n Hn) as [_ Hkn]. pose proof (byte_index_eq c n Hc Hn) as Heq.
  case_decide as E; cycle 1; [case_ztest; [subst; done|done]|].
  autorewrite with zbits. unfold bit_at.
  destruct (Z.ltb_spec (c mod 8) 8); [|lia]. simpl.
  rewrite andb_comm. f_equal. f_equal.
  destruct (Z.eqb_spec (n mod 8) (c mod 8)); destruct (Z.eqb_spec c n); naive_solver.
Qed.

(** Filling from a list of bytes, the shared core of the string and
    predicate fills. *)
Lemma InsertBytes_spec cs s :
  wf s → bytes_ok cs →
  wf (InsertBytes cs s) ∧
  ∀ c, is_byte c → Find (InsertBytes cs s) c = (bool_decide (c ∈ cs) || Find s c)%bool.
Proof.
  revert s. induction cs as [|b cs IH]; intros s Hs Hcs; cbn [InsertBytes].
  - split; [done|]. intros c Hc. by rewrite bool_decide_eq_false_2 by set_solver.
  - apply bytes_ok_cons in Hcs as [Hb Hcs].
    destruct (IH (Insert b s)) as [Hwf Hfind]; auto with toft. split; [done|].
    intros c Hc. rewrite Hfind, Find_Insert by done.
    destruct (Z.eqb_spec c b) as [->|Hne]; simpl.
    + rewrite orb_true_r. symmetry. rewrite bool_decide_eq_true_2 by set_solver. done.
    + f_equal. apply bool_decide_ext. set_solver.
Qed.

(** The characters a NUL-terminated buffer holds. *)
Fixpoint c_string (cs : bytes) : bytes :=
  match cs with
  | [] => []
  | c :: r => if c =? 0 then [] else c :: c_string r
  end.

Lemma InsertString_bytes cs s : InsertString cs s = InsertBytes (c_string cs) s.
Proof.
  revert s. induction cs as [|c cs IH]; intros s; simpl; [done|].
  case_ztest; simpl; [done|]. apply IH.
Qed.

Lemma c_string_ok cs : bytes_ok cs → bytes_ok (c_string cs).
Proof.
  induction cs as [|c cs IH]; intros H; simpl; [done|].
  apply bytes_ok_cons in H as [? ?]. case_ztest; [constructor|].
  apply bytes_ok_cons. auto.
Qed.

Lemma RemoveString_spec cs s :
  wf s → bytes_ok cs →
  wf (RemoveString cs s) ∧
  ∀ c, is_byte c →
    Find (RemoveString cs s) c = (negb (bool_decide (c ∈ c_string cs)) && Find s c)%bool.
Proof.
  revert s. induction cs as [|b cs IH]; intros s Hs Hcs; cbn [InsertBytes RemoveString c_string].
  - split; [done|]. intros c Hc. by rewrite bool_decide_eq_false_2 by set_solver.
  - apply bytes_ok_cons in Hcs as [Hb Hcs]. case_ztest.
    { split; [done|]. intros c Hc. by rewrite bool_decide_eq_false_2 by set_solver. }
    destruct (IH (Remove b s)) as [Hwf Hfind]; auto with toft. split; [done|].
    intros c Hc. rewrite Hfind, Find_Remove by done.
    destruct (Z.eqb_spec c b) as [->|Hne]; simpl.
    + rewrite andb_false_r. symmetry. rewrite bool_decide_eq_true_2 by set_solver. done.
    + f_equal. f_equal. apply bool_decide_ext. set_solver.
Qed.

(** The two loops over every byte value are folds over the list of them. *)
Lemma InsertPred_bytes pred s :
  InsertPred pred s = InsertBytes (filter (λ c, pred c = true) (seqZ 0 256)) s.
Proof.
  unfold InsertPred, UCHAR_MAX. change (255 + 1) with 256.
  generalize (seqZ 0 256) as l. intros l. revert s.
  induction l as [|c l IH]; intros s; simpl; [done|].
  rewrite IH. rewrite filter_cons. destruct (pred c) eqn:E; case_decide; done.
Qed.

Lemma elem_of_filter_bytes (pred : Z → bool) c :
  c ∈ filter (λ c, pred c = true) (seqZ 0 256) ↔ is_byte c ∧ pred c = true.
Proof. rewrite list_elem_of_filter, elem_of_seqZ. unfold is_byte. naive_solver lia. Qed.

Lemma filter_bytes_ok (pred : Z → bool) : bytes_ok (filter (λ c, pred c = true) (seqZ 0 256)).
Proof.
  apply Forall_forall. intros c Hc. apply elem_of_filter_bytes in Hc. tauto.
Qed.

Lemma InsertPred_spec pred s :
  wf s →
  wf (InsertPred pred s) ∧
  ∀ c, is_byte c → Find (InsertPred pred s) c = (pred c || Find s c)%bool.
Proof.
  intros Hs. rewrite InsertPred_bytes.
  destruct (InsertBytes_spec _ s Hs (filter_bytes_ok pred)) as [Hwf Hf].
  split; [done|]. intros c Hc. rewrite Hf by done. f_equal.
  apply eq_true_iff_eq. rewrite bool_decide_eq_true, elem_of_filter_bytes. tauto.
Qed.

Lemma RemovePred_spec pred s :
  wf s →
  wf (RemovePred pred s) ∧
  ∀ c, is_byte c → Find (RemovePred pred s) c = (negb (pred c) && Find s c)%bool.
Proof.
  intros Hs. unfold RemovePred, UCHAR_MAX. change (255 + 1) with 256.
  assert (Hall : ∀ l s, wf s → bytes_ok l →
    let s' := foldl (λ acc c, if pred c then Remove c acc else acc) s l in
    wf s' ∧ ∀ c, is_byte c →
      Find s' c = (negb (pred c && bool_decide (c ∈ l)) && Find s c)%bool).
  { clear s Hs. induction l as [|b l IH]; intros s Hs Hl; cbn [foldl].
    - split; [done|]. intros c Hc. by rewrite bool_decide_eq_false_2, andb_false_r by set_solver.
    - apply bytes_ok_cons in Hl as [Hb Hl].
      destruct (IH (if pred b then Remove b s else s)) as [Hwf Hf];
        [destruct (pred b); auto with toft|done|].
      split; [done|]. intros c Hc. rewrite Hf by done.
      rewrite (bool_decide_ext (c ∈ b :: l) (c = b ∨ c ∈ l)) by set_solver.
      rewrite bool_decide_or.
      destruct (decide (c = b)) as [->|Hne].
      + rewrite (bool_decide_eq_true_2 (b = b)) by done. simpl. rewrite andb_true_r.
        destruct (pred b) eqn:Ep; simpl; [|done].
        rewrite Find_Remove, Z.eqb_refl by done. simpl. by rewrite andb_false_r.
      + rewrite (bool_decide_eq_false_2 (c = b)) by done. simpl. f_equal.
        destruct (pred b); [|done]. rewrite Find_Remove by done.
        by case_ztest. }
  destruct (Hall (seqZ 0 256) s Hs) as [Hwf Hf].
  { apply Forall_forall. intros c Hc%elem_of_seqZ. unfold is_byte. lia. }
  split; [done|]. intros c Hc. rewrite Hf by done.
  rewrite (bool_decide_eq_true_2 (c ∈ _)), andb_true_r; [done|].
  apply elem_of_seqZ. unfold is_byte in Hc. lia.
Qed.

Lemma zip_with_bytes (f : Z → Z → Z) l k :
  (∀ x y, is_byte x → is_byte y → is_byte (f x y)) →
  bytes_ok l → bytes_ok k → bytes_ok (zip_with f l k).
Proof.
  intros Hf Hl. revert k. induction Hl as [|x l Hx Hl IH]; intros k Hk; simpl; [constructor|].
  destruct Hk as [|y k Hy Hk]; simpl; [constructor|]. apply bytes_ok_cons. auto.
Qed.

Lemma is_byte_bits x : 0 <= x → (∀ m, 8 <= m → Z.testbit x m = false) → is_byte x.
Proof. intros. split; [done|]. by apply (bound_of_bits x 8). Qed.

Lemma is_byte_lor x y : is_byte x → is_byte y → is_byte (Z.lor x y).
Proof.
  intros Hx Hy. unfold is_byte in *. apply is_byte_bits; [apply Z.lor_nonneg; lia|].
  intros m Hm. rewrite Z.lor_spec, !(testbit_high _ 8) by (done || lia). done.
Qed.

Lemma is_byte_land x y : is_byte x → is_byte y → is_byte (Z.land x y).
Proof.
  intros Hx Hy. unfold is_byte in *. apply is_byte_bits; [apply Z.land_nonneg; lia|].
  intros m Hm. rewrite Z.land_spec, !(testbit_high _ 8) by (done || lia). done.
Qed.

(** A bytewise combination of two bitmaps combines every membership bit. *)
Lemma zip_with_spec (f : Z → Z → Z) (g : bool → bool → bool) s t :
  (∀ x y m, Z.testbit (f x y) m = g (Z.testbit x m) (Z.testbit y m)) →
  (∀ x y, is_byte x → is_byte y → is_byte (f x y)) →
  wf s → wf t →
  let r := mkByteSet (zip_with f (m_bitmap s) (m_bitmap t)) in
  wf r ∧ ∀ c, is_byte c → Find r c = g (Find s c) (Find t c).
Proof.
  intros Hbit Hok [Hs Hsb] [Ht Htb] r. split.
  - split; simpl; [rewrite length_zip_with; lia|]. by apply zip_with_bytes.
  - intros c Hc. rewrite !Find_bit. unfold bit_at. simpl. rewrite !nth_lookup.
    rewrite lookup_zip_with. pose proof (byte_index c Hc) as [Hi _].
    destruct (lookup_lt_is_Some_2 (m_bitmap s) (Z.to_nat (c / 8))) as [x Hx]; [lia|].
    destruct (lookup_lt_is_Some_2 (m_bitmap t) (Z.to_nat (c / 8))) as [y Hy]; [lia|].
    rewrite Hx, Hy. simpl. apply Hbit.
Qed.

Lemma or_with_spec s t :
  wf s → wf t →
  wf (or_with s t) ∧ ∀ c, is_byte c → Find (or_with s t) c = (Find s c || Find t c)%bool.
Proof. apply (zip_with_spec Z.lor orb); auto using Z.lor_spec, is_byte_lor. Qed.

Lemma and_with_spec s t :
  wf s → wf t →
  wf (and_with s t) ∧ ∀ c, is_byte c → Find (and_with s t) c = (Find s c && Find t c)%bool.
Proof. apply (zip_with_spec Z.land andb); auto using Z.land_spec, is_byte_land. Qed.

Lemma of_pred_spec pred :
  wf (of_pred pred) ∧ ∀ c, is_byte c → Find (of_pred pred) c = pred c.
Proof.
  destruct (InsertPred_spec pred Clear wf_Clear) as [Hw Hf]. split; [done|].
  intros c Hc. unfold of_pred. by rewrite Hf, Find_Clear, orb_false_r.
Qed.

Lemma of_string_spec cs :
  bytes_ok cs →
  wf (of_string cs) ∧ ∀ c, is_byte c → Find (of_string cs) c = bool_decide (c ∈ c_string cs).
Proof.
  intros Hcs. unfold of_string. rewrite InsertString_bytes.
  destruct (InsertBytes_spec (c_string cs) Clear wf_Clear) as [Hw Hf]; [by apply c_string_ok|].
  split; [done|]. intros c Hc. by rewrite Hf, Find_Clear, orb_false_r.
Qed.

(** ** The set a bitmap denotes: the bytes of [0, 256) that [Find] finds *)

Definition bytes_where (pred : Z → bool) : gset Z :=
  list_to_set (filter (λ c, pred c = true) (seqZ 0 256)).

Lemma elem_of_bytes_where pred c : c ∈ bytes_where pred ↔ is_byte c ∧ pred c = true.
Proof. unfold bytes_where. rewrite elem_of_list_to_set. apply elem_of_filter_bytes. Qed.

Definition denote (s : ByteSet) : gset Z := bytes_where (Find s).

Lemma elem_of_denote s c : c ∈ denote s ↔ is_byte c ∧ Find s c = true.
Proof. apply elem_of_bytes_where. Qed.

#[global] Typeclasses Opaque denote bytes_where.
#[global] Opaque bytes_where InsertPred RemovePred.

#[export] Instance set_unfold_denote s c :
  SetUnfoldElemOf c (denote s) (is_byte c ∧ Find s c = true).
Proof. constructor. apply elem_of_denote. Qed.

#[export] Instance set_unfold_bytes_where pred c :
  SetUnfoldElemOf c (bytes_where pred) (is_byte c ∧ pred c = true).
Proof. constructor. apply elem_of_bytes_where. Qed.

(** Turns an equality of denotations into the pointwise equation of [Find],
    split on whether the candidate member is a byte. *)
Ltac denote_ext Hf :=
  apply set_eq; let c := fresh "c" in intros c; set_unfold;
  let Hc := fresh "Hc" in
  destruct (decide (0 <= c < 256)) as [Hc|Hc];
  [change (is_byte c) in Hc; rewrite ?Hf by assumption | unfold is_byte in *].

(** One step of each proof below: the sets are equal because their members
    agree, and membership is [Find], given by the operation's equation. *)
Ltac denote_solve Hf :=
  denote_ext Hf; rewrite ?andb_true_iff, ?orb_true_iff, ?negb_true_iff,
    ?bool_decide_eq_true, ?bool_decide_eq_false, ?Z.eqb_eq, ?Z.eqb_neq;
  naive_solver.

Lemma InsertBytes_denote cs s :
  wf s → bytes_ok cs → denote (InsertBytes cs s) = list_to_set cs ∪ denote s.
Proof.
  intros Hs Hcs. destruct (InsertBytes_spec cs s Hs Hcs) as [_ Hf].
  pose proof (proj1 (Forall_forall is_byte cs) Hcs) as Hall.
  denote_solve Hf.
Qed.

Lemma denote_Clear : denote Clear = ∅.
Proof. denote_solve Find_Clear. Qed.

(** The bitmap implements a finite set of bytes.  On well-formed bitmaps
    every operation of [ByteSet] acts on the denoted set as its name says
    (insertion and removal of a byte, of a predicate, of a C string up to its
    NUL, of a counted buffer, union and intersection), preserves
    well-formedness, and [Find] decides membership in the denoted set. *)
Theorem ops_refine (s t : ByteSet) :
  wf s → wf t →
  (denote Clear = ∅ ∧ wf Clear) ∧
  (∀ n, is_byte n →
    (denote (Insert n s) = {[n]} ∪ denote s ∧ wf (Insert n s)) ∧
    (denote (Remove n s) = denote s ∖ {[n]} ∧ wf (Remove n s))) ∧
  (∀ pred,
    (denote (InsertPred pred s) = bytes_where pred ∪ denote s ∧ wf (InsertPred pred s)) ∧
    (denote (RemovePred pred s) = denote s ∖ bytes_where pred ∧ wf (RemovePred pred s))) ∧
  (∀ cs, bytes_ok cs →
    (denote (InsertBytes cs s) = list_to_set cs ∪ denote s ∧ wf (InsertBytes cs s)) ∧
    (denote (InsertString cs s) = list_to_set (c_string cs) ∪ denote s ∧ wf (InsertString cs s)) ∧
    (denote (RemoveString cs s) = denote s ∖ list_to_set (c_string cs) ∧ wf (RemoveString cs s))) ∧
  (denote (or_with s t) = denote s ∪ denote t ∧ wf (or_with s t)) ∧
  (denote (and_with s t) = denote s ∩ denote t ∧ wf (and_with s t)) ∧
  (∀ c, is_byte c → Find s c = bool_decide (c ∈ denote s)).
Proof.
  intros Hs Ht.
  destruct (or_with_spec s t Hs Ht) as [Hwo Hfo].
  destruct (and_with_spec s t Hs Ht) as [Hwa Hfa].
  split; [exact (conj denote_Clear wf_Clear)|].
  repeat match goal with |- _ ∧ _ => split | |- ∀ _, _ => intros ? end;
    auto with toft; try (apply InsertPred_spec; done);
    try (apply RemovePred_spec; done);
    try (apply InsertBytes_spec; done);
    try (apply RemoveString_spec; done);
    try (rewrite InsertString_bytes; apply InsertBytes_spec; auto using c_string_ok; done).
  - denote_solve Find_Insert.
  - denote_solve Find_Remove.
  - destruct (InsertPred_spec pred s Hs) as [_ Hf]. denote_solve Hf.
  - destruct (RemovePred_spec pred s Hs) as [_ Hf].
    denote_ext Hf; try destruct (pred _); unfold is_byte in *; naive_solver.
  - by apply InsertBytes_denote.
  - rewrite InsertString_bytes. apply InsertBytes_denote; auto using c_string_ok.
  - destruct (RemoveString_spec cs s) as [_ Hf]; [done..|]. denote_solve Hf.
  - denote_solve Hfo.
  - denote_solve Hfa.
  - apply eq_true_iff_eq. rewrite bool_decide_eq_true, elem_of_denote. tauto.
Qed.

Lemma ops_refine_witness :
  denote (Insert 65 Clear) = {[65]} ∪ denote Clear ∧ wf (Insert 65 Clear).
Proof.
  destruct (ops_refine Clear Clear wf_Clear wf_Clear) as (_ & H & _).
  apply (H 65). split; [discriminate|reflexivity].
Defined.

(** The predefined sets hold exactly the bytes of their C predicate. *)
Lemma predefined_sets :
  Forall (λ '(s, pred), wf s ∧ ∀ c, is_byte c → Find s c = pred c)
    [(SpaceSet, isspace); (BlankSet, isblank); (AlphaSet, isalpha); (AlphaNumSet, isalnum);
     (AsciiSet, isascii); (HexSet, isxdigit); (DigitSet, isdigit); (UpperSet, isupper);
     (LowerSet, islower); (PrintSet, isprint)].
Proof. repeat (apply Forall_cons_2; [apply of_pred_spec|]). constructor. Qed.
