(* ===== verification/AsciiTable.v ===== *)
(** * Ascii: table-driven character classification

    Model of [struct Ascii] (encoding/ascii.h) and of its table
    (encoding/ascii.cpp).  A [char] argument is the byte it is cast to by
    [static_cast<unsigned char>(c)]. *)

From S2P Require Import Prelude CType.

(** [enum CharTypeMask] *)
Definition kUpper : Z := Z.shiftl 1 0.
Definition kLower : Z := Z.shiftl 1 1.
Definition kDigit : Z := Z.shiftl 1 2.
Definition kHexDigit : Z := Z.shiftl 1 3.
Definition kBlank : Z := Z.shiftl 1 4.
Definition kSpace : Z := Z.shiftl 1 5.
Definition kControl : Z := Z.shiftl 1 6.
Definition kPunct : Z := Z.shiftl 1 7.
Definition kPrint : Z := Z.shiftl 1 8.
Definition kGraph : Z := Z.shiftl 1 9.

#[local] Notation "a .| b" := (Z.lor a b) (at level 50, left associativity).

(** [const uint16_t Ascii::table[UCHAR_MAX + 1]]: 128 rows; the rest of the
    array is zero-initialised. *)
Definition table : list Z :=
  [
    (* 0x00 *) kControl .| 0;
    (* 0x01 *) kControl .| 0;
    (* 0x02 *) kControl .| 0;
    (* 0x03 *) kControl .| 0;
    (* 0x04 *) kControl .| 0;
    (* 0x05 *) kControl .| 0;
    (* 0x06 *) kControl .| 0;
    (* 0x07 *) kControl .| 0;
    (* 0x08 *) kControl .| 0;
    (* 0x09 *) kBlank .| kSpace .| kControl .| 0;
    (* 0x0a *) kSpace .| kControl .| 0;
    (* 0x0b *) kSpace .| kControl .| 0;
    (* 0x0c *) kSpace .| kControl .| 0;
    (* 0x0d *) kSpace .| kControl .| 0;
    (* 0x0e *) kControl .| 0;
    (* 0x0f *) kControl .| 0;
    (* 0x10 *) kControl .| 0;
    (* 0x11 *) kControl .| 0;
    (* 0x12 *) kControl .| 0;
    (* 0x13 *) kControl .| 0;
    (* 0x14 *) kControl .| 0;
    (* 0x15 *) kControl .| 0;
    (* 0x16 *) kControl .| 0;
    (* 0x17 *) kControl .| 0;
    (* 0x18 *) kControl .| 0;
    (* 0x19 *) kControl .| 0;
    (* 0x1a *) kControl .| 0;
    (* 0x1b *) kControl .| 0;
    (* 0x1c *) kControl .| 0;
    (* 0x1d *) kControl .| 0;
    (* 0x1e *) kControl .| 0;
    (* 0x1f *) kControl .| 0;
    (* 0x20 *) kBlank .| kSpace .| kPrint .| 0;
    (* 0x21 *) kPunct .| kGraph .| kPrint .| 0;
    (* 0x22 *) kPunct .| kGraph .| kPrint .| 0;
    (* 0x23 *) kPunct .| kGraph .| kPrint .| 0;
    (* 0x24 *) kPunct .| kGraph .| kPrint .| 0;
    (* 0x25 *) kPunct .| kGraph .| kPrint .| 0;
    (* 0x26 *) kPunct .| kGraph .| kPrint .| 0;
    (* 0x27 *) kPunct .| kGraph .| kPrint .| 0;
    (* 0x28 *) kPunct .| kGraph .| kPrint .| 0;
    (* 0x29 *) kPunct .| kGraph .| kPrint .| 0;
    (* 0x2a *) kPunct .| kGraph .| kPrint .| 0;
    (* 0x2b *) kPunct .| kGraph .| kPrint .| 0;
    (* 0x2c *) kPunct .| kGraph .| kPrint .| 0;
    (* 0x2d *) kPunct .| kGraph .| kPrint .| 0;
    (* 0x2e *) kPunct .| kGraph .| kPrint .| 0;
    (* 0x2f *) kPunct .| kGraph .| kPrint .| 0;
    (* 0x30 *) kDigit .| kHexDigit .| kGraph .| kPrint .| 0;
    (* 0x31 *) kDigit .| kHexDigit .| kGraph .| kPrint .| 0;
    (* 0x32 *) kDigit .| kHexDigit .| kGraph .| kPrint .| 0;
    (* 0x33 *) kDigit .| kHexDigit .| kGraph .| kPrint .| 0;
    (* 0x34 *) kDigit .| kHexDigit .| kGraph .| kPrint .| 0;
    (* 0x35 *) kDigit .| kHexDigit .| kGraph .| kPrint .| 0;
    (* 0x36 *) kDigit .| kHexDigit .| kGraph .| kPrint .| 0;
    (* 0x37 *) kDigit .| kHexDigit .| kGraph .| kPrint .| 0;
    (* 0x38 *) kDigit .| kHexDigit .| kGraph .| kPrint .| 0;
    (* 0x39 *) kDigit .| kHexDigit .| kGraph .| kPrint .| 0;
    (* 0x3a *) kPunct .| kGraph .| kPrint .| 0;
    (* 0x3b *) kPunct .| kGraph .| kPrint .| 0;
    (* 0x3c *) kPunct .| kGraph .| kPrint .| 0;
    (* 0x3d *) kPunct .| kGraph .| kPrint .| 0;
    (* 0x3e *) kPunct .| kGraph .| kPrint .| 0;
    (* 0x3f *) kPunct .| kGraph .| kPrint .| 0;
    (* 0x40 *) kPunct .| kGraph .| kPrint .| 0;
    (* 0x41 *) kUpper .| kHexDigit .| kGraph .| kPrint .| 0;
    (* 0x42 *) kUpper .| kHexDigit .| kGraph .| kPrint .| 0;
    (* 0x43 *) kUpper .| kHexDigit .| kGraph .| kPrint .| 0;
    (* 0x44 *) kUpper .| kHexDigit .| kGraph .| kPrint .| 0;
    (* 0x45 *) kUpper .| kHexDigit .| kGraph .| kPrint .| 0;
    (* 0x46 *) kUpper .| kHexDigit .| kGraph .| kPrint .| 0;
    (* 0x47 *) kUpper .| kGraph .| kPrint .| 0;
    (* 0x48 *) kUpper .| kGraph .| kPrint .| 0;
    (* 0x49 *) kUpper .| kGraph .| kPrint .| 0;
    (* 0x4a *) kUpper .| kGraph .| kPrint .| 0;
    (* 0x4b *) kUpper .| kGraph .| kPrint .| 0;
    (* 0x4c *) kUpper .| kGraph .| kPrint .| 0;
    (* 0x4d *) kUpper .| kGraph .| kPrint .| 0;
    (* 0x4e *) kUpper .| kGraph .| kPrint .| 0;
    (* 0x4f *) kUpper .| kGraph .| kPrint .| 0;
    (* 0x50 *) kUpper .| kGraph .| kPrint .| 0;
    (* 0x51 *) kUpper .| kGraph .| kPrint .| 0;
    (* 0x52 *) kUpper .| kGraph .| kPrint .| 0;
    (* 0x53 *) kUpper .| kGraph .| kPrint .| 0;
    (* 0x54 *) kUpper .| kGraph .| kPrint .| 0;
    (* 0x55 *) kUpper .| kGraph .| kPrint .| 0;
    (* 0x56 *) kUpper .| kGraph .| kPrint .| 0;
    (* 0x57 *) kUpper .| kGraph .| kPrint .| 0;
    (* 0x58 *) kUpper .| kGraph .| kPrint .| 0;
    (* 0x59 *) kUpper .| kGraph .| kPrint .| 0;
    (* 0x5a *) kUpper .| kGraph .| kPrint .| 0;
    (* 0x5b *) kPunct .| kGraph .| kPrint .| 0;
    (* 0x5c *) kPunct .| kGraph .| kPrint .| 0;
    (* 0x5d *) kPunct .| kGraph .| kPrint .| 0;
    (* 0x5e *) kPunct .| kGraph .| kPrint .| 0;
    (* 0x5f *) kPunct .| kGraph .| kPrint .| 0;
    (* 0x60 *) kPunct .| kGraph .| kPrint .| 0;
    (* 0x61 *) kLower .| kHexDigit .| kGraph .| kPrint .| 0;
    (* 0x62 *) kLower .| kHexDigit .| kGraph .| kPrint .| 0;
    (* 0x63 *) kLower .| kHexDigit .| kGraph .| kPrint .| 0;
    (* 0x64 *) kLower .| kHexDigit .| kGraph .| kPrint .| 0;
    (* 0x65 *) kLower .| kHexDigit .| kGraph .| kPrint .| 0;
    (* 0x66 *) kLower .| kHexDigit .| kGraph .| kPrint .| 0;
    (* 0x67 *) kLower .| kGraph .| kPrint .| 0;
    (* 0x68 *) kLower .| kGraph .| kPrint .| 0;
    (* 0x69 *) kLower .| kGraph .| kPrint .| 0;
    (* 0x6a *) kLower .| kGraph .| kPrint .| 0;
    (* 0x6b *) kLower .| kGraph .| kPrint .| 0;
    (* 0x6c *) kLower .| kGraph .| kPrint .| 0;
    (* 0x6d *) kLower .| kGraph .| kPrint .| 0;
    (* 0x6e *) kLower .| kGraph .| kPrint .| 0;
    (* 0x6f *) kLower .| kGraph .| kPrint .| 0;
    (* 0x70 *) kLower .| kGraph .| kPrint .| 0;
    (* 0x71 *) kLower .| kGraph .| kPrint .| 0;
    (* 0x72 *) kLower .| kGraph .| kPrint .| 0;
    (* 0x73 *) kLower .| kGraph .| kPrint .| 0;
    (* 0x74 *) kLower .| kGraph .| kPrint .| 0;
    (* 0x75 *) kLower .| kGraph .| kPrint .| 0;
    (* 0x76 *) kLower .| kGraph .| kPrint .| 0;
    (* 0x77 *) kLower .| kGraph .| kPrint .| 0;
    (* 0x78 *) kLower .| kGraph .| kPrint .| 0;
    (* 0x79 *) kLower .| kGraph .| kPrint .| 0;
    (* 0x7a *) kLower .| kGraph .| kPrint .| 0;
    (* 0x7b *) kPunct .| kGraph .| kPrint .| 0;
    (* 0x7c *) kPunct .| kGraph .| kPrint .| 0;
    (* 0x7d *) kPunct .| kGraph .| kPrint .| 0;
    (* 0x7e *) kPunct .| kGraph .| kPrint .| 0;
    (* 0x7f *) kControl .| 0
  ] ++ replicate 128 0.

Definition GetCharTypeMask (c : Z) : Z := nth (Z.to_nat c) table 0.

Definition CharIncludeAnyTypeMask (c mask : Z) : bool :=
  negb (Z.land (GetCharTypeMask c) mask =? 0).

Definition CharIncludeAallTypeMask (c mask : Z) : bool :=
  Z.land (GetCharTypeMask c) mask =? mask.

Definition IsValid (c : Z) : bool := Z.land c 128 =? 0.
Definition IsLower (c : Z) : bool := CharIncludeAnyTypeMask c kLower.
Definition IsUpper (c : Z) : bool := CharIncludeAnyTypeMask c kUpper.
Definition IsAlpha (c : Z) : bool := CharIncludeAnyTypeMask c (kUpper .| kLower).
Definition IsDigit (c : Z) : bool := CharIncludeAnyTypeMask c kDigit.
Definition IsAlphaNumber (c : Z) : bool :=
  CharIncludeAnyTypeMask c (kUpper .| kLower .| kDigit).
Definition IsBlank (c : Z) : bool := CharIncludeAnyTypeMask c kBlank.
Definition IsSpace (c : Z) : bool := CharIncludeAnyTypeMask c kSpace.
Definition IsControl (c : Z) : bool := CharIncludeAnyTypeMask c kControl.
Definition IsPunct (c : Z) : bool := CharIncludeAnyTypeMask c kPunct.
Definition IsHexDigit (c : Z) : bool := CharIncludeAnyTypeMask c kHexDigit.
Definition IsGraph (c : Z) : bool := CharIncludeAnyTypeMask c kGraph.
Definition IsPrint (c : Z) : bool := CharIncludeAnyTypeMask c kPrint.
Definition ToAscii (c : Z) : Z := Z.land c 127.
Definition ToLower (c : Z) : Z := if IsUpper c then c + (chr "a" - chr "A") else c.
Definition ToUpper (c : Z) : Z := if IsLower c then c - (chr "a" - chr "A") else c.

(** ** The table against the C library *)

(** One row of the comparison: every classifier of [Ascii] and the predicate
    of [<ctype.h>] it stands for, as booleans. *)
Definition row_agrees (c : Z) : bool :=
  forallb (λ '(f, g), eqb (f c) (g c))
    [(IsLower, islower); (IsUpper, isupper); (IsAlpha, isalpha); (IsDigit, isdigit);
     (IsAlphaNumber, isalnum); (IsBlank, isblank); (IsSpace, isspace); (IsControl, iscntrl);
     (IsPunct, ispunct); (IsHexDigit, isxdigit); (IsGraph, isgraph); (IsPrint, isprint);
     (IsValid, isascii)] &&
  ((ToLower c =? tolower c) && (ToUpper c =? toupper c)).

Lemma all_rows_agree : forallb row_agrees (seqZ 0 256) = true.
Proof. vm_compute. reflexivity. Qed.

(** For every byte the table-driven classifiers of [Ascii] return what
    the C library's predicates return in the "C" locale (ASCII for
    [IsValid]), and the case conversions agree with [tolower] and
    [toupper]. *)
Theorem table_is_ctype (c : Z) :
  is_byte c →
  IsLower c = islower c ∧ IsUpper c = isupper c ∧ IsAlpha c = isalpha c ∧
  IsDigit c = isdigit c ∧ IsAlphaNumber c = isalnum c ∧ IsBlank c = isblank c ∧
  IsSpace c = isspace c ∧ IsControl c = iscntrl c ∧ IsPunct c = ispunct c ∧
  IsHexDigit c = isxdigit c ∧ IsGraph c = isgraph c ∧ IsPrint c = isprint c ∧
  IsValid c = isascii c ∧ ToLower c = tolower c ∧ ToUpper c = toupper c.
Proof.
  intros Hc. pose proof (byte_forall row_agrees all_rows_agree c Hc) as H.
  unfold row_agrees in H. cbn [forallb] in H. rewrite !andb_true_iff in H.
  destruct_and!. repeat split; (by apply eqb_prop) || (by apply Z.eqb_eq).
Qed.

Lemma table_is_ctype_witness : IsHexDigit 97 = isxdigit 97 ∧ ToUpper 97 = 65.
Proof.
  split; [|vm_compute; reflexivity].
  apply (table_is_ctype 97). split; [discriminate|reflexivity].
Defined.
