(* ===== verification/Percent.v ===== *)
(** * Percent encoding

    Model of encoding/percent.cpp.  The encoders share [DoEncodeAppend],
    parameterised by the set of bytes left unchanged.  [DecodeAppend] reads a
    [StringPiece], [Decode] rewrites a [std::string] in place.

    The length test of both decoders ([i + 2 > size]) admits an escape with
    one digit only, whose second digit is then read at index [size].  The
    byte found there is the parameter [past]: whatever follows the buffer for
    a [StringPiece], the terminating NUL for a [std::string]. *)

From S2P Require Import Prelude CType ByteSet AsciiTable.

(** [return "0123456789ABCDEF"[x];] *)
Definition CharToHex (x : Z) : Z := nth (Z.to_nat x) (str "0123456789ABCDEF") 0.

Definition HexValue (x : Z) : Z :=
  let X := u8 (ToUpper x) in
  if IsDigit X then X - chr "0" else X - chr "A" + 10.

(** The three characters emitted for a byte that is escaped. *)
Definition escape (c : Z) : bytes :=
  [chr "%"; CharToHex (Z.shiftr c 4); CharToHex (c mod 16)].

Fixpoint DoEncodeAppend (input : bytes) (unchanged : ByteSet) (output : bytes) : bytes :=
  match input with
  | [] => output
  | c :: r =>
      if Find unchanged c
      then DoEncodeAppend r unchanged (output ++ [c])
      else DoEncodeAppend r unchanged (output ++ escape c)
  end.

(** The three sets of unchanged bytes. *)
Definition unchanged_escape : ByteSet :=
  of_string (str "ABCDEFGHIJKLMNOPQRSTUVWXYZabcdefghijklmnopqrstuvwxyz0123456789*+-./@_").
Definition unchanged_uri : ByteSet :=
  of_string
    (str "ABCDEFGHIJKLMNOPQRSTUVWXYZabcdefghijklmnopqrstuvwxyz0123456789!#$&'()*+,-./:;=?@_~").
Definition unchanged_component : ByteSet :=
  of_string (str "ABCDEFGHIJKLMNOPQRSTUVWXYZabcdefghijklmnopqrstuvwxyz0123456789!'()*-._~").

Definition EncodeAppend (input output : bytes) : bytes :=
  DoEncodeAppend input unchanged_escape output.
Definition EncodeTo (input : bytes) : bytes := EncodeAppend input [].
Definition Encode (input : bytes) : bytes := EncodeAppend input [].

Definition EncodeUriAppend (input output : bytes) : bytes :=
  DoEncodeAppend input unchanged_uri output.
Definition EncodeUriTo (input : bytes) : bytes := EncodeUriAppend input [].
Definition EncodeUri (input : bytes) : bytes := EncodeUriAppend input [].

Definition EncodeUriComponentAppend (input output : bytes) : bytes :=
  DoEncodeAppend input unchanged_component output.
Definition EncodeUriComponentTo (input : bytes) : bytes := EncodeUriComponentAppend input [].
Definition EncodeUriComponent (input : bytes) : bytes := EncodeUriComponentAppend input [].

(** The byte two hexadecimal digits stand for: [ch = HexValue(h1) << 4;
    ch |= HexValue(h2);] on a [uint8_t]. *)
Definition hex_pair (h1 h2 : Z) : Z :=
  u8 (Z.lor (u8 (Z.shiftl (HexValue h1) 4)) (HexValue h2)).

(** The loop of [DecodeAppend]; [rest] is [input[i..size)], so that
    [i + 2 > size] is [length rest < 2].  Returns the status and the output
    string, which a failure leaves with the bytes decoded so far. *)
Fixpoint DecodeAppend (past : Z) (rest output : bytes) : bool * bytes :=
  match rest with
  | [] => (true, output)
  | c :: r =>
      if c =? chr "%" then
        match r with
        | [] => (false, output)
        | h1 :: r1 =>
            match r1 with
            | [] =>
                (* input[i+2] is one past the end; the loop then ends *)
                if (negb (IsHexDigit h1) || negb (IsHexDigit past))%bool then (false, output)
                else (true, output ++ [hex_pair h1 past])
            | h2 :: r2 =>
                if (negb (IsHexDigit h1) || negb (IsHexDigit h2))%bool then (false, output)
                else DecodeAppend past r2 (output ++ [hex_pair h1 h2])
            end
        end
      else if c =? chr "+" then DecodeAppend past r (output ++ [chr " "])
      else DecodeAppend past r (output ++ [c])
  end.

Definition DecodeTo (past : Z) (input : bytes) : bool * bytes := DecodeAppend past input [].

(** [bool Decode(std::string* str)]: one pass over the string with a read
    index [i] and a write index.  [s] is the string as overwritten so far;
    [s[size]] is its NUL.  [fuel] bounds the number of iterations. *)
Definition char_at (s : bytes) (i : nat) : Z := nth i s 0.

Fixpoint Decode_loop (fuel : nat) (i write_pos : nat) (s : bytes) : bool * bytes :=
  match fuel with
  | O => (false, s)
  | S fuel =>
      if (i <? length s)%nat then
        if char_at s i =? chr "%" then
          if (length s <? i + 2)%nat then (false, s)
          else if (negb (IsHexDigit (char_at s (i + 1))) ||
                   negb (IsHexDigit (char_at s (i + 2))))%bool then (false, s)
          else Decode_loop fuel (i + 3) (write_pos + 1)
                 (<[write_pos := hex_pair (char_at s (i + 1)) (char_at s (i + 2))]> s)
        else if char_at s i =? chr "+" then
          Decode_loop fuel (i + 1) (write_pos + 1) (<[write_pos := chr " "]> s)
        else Decode_loop fuel (i + 1) (write_pos + 1) (<[write_pos := char_at s i]> s)
      else (true, take write_pos s)
  end.

Definition Decode (s : bytes) : bool * bytes := Decode_loop (S (length s)) 0 0 s.

(** ** Encoding, without its accumulator *)

Definition encode_byte (unchanged : ByteSet) (c : Z) : bytes :=
  if Find unchanged c then [c] else escape c.

Lemma DoEncodeAppend_flat unchanged input output :
  DoEncodeAppend input unchanged output = output ++ flat_map (encode_byte unchanged) input.
Proof.
  revert output. induction input as [|c r IH]; intros output; simpl.
  - by rewrite app_nil_r.
  - unfold encode_byte at 1. destruct (Find unchanged c); by rewrite IH, <- app_assoc.
Qed.

(** Induction on lists that may drop several elements at a time. *)
Lemma DecodeAppend_acc past rest output :
  DecodeAppend past rest output =
  ((DecodeAppend past rest []).1, output ++ (DecodeAppend past rest []).2).
Proof.
  revert output. induction rest as [rest IH] using (induction_ltof1 _ (@length Z)).
  unfold ltof in IH. intros output.
  destruct rest as [|c r]; simpl; [by rewrite app_nil_r|].
  destruct (c =? chr "%").
  - destruct r as [|h1 [|h2 r2]]; simpl; [by rewrite app_nil_r| |];
      destruct (negb (IsHexDigit h1) || _)%bool; simpl; rewrite ?app_nil_r; try done.
    rewrite (IH r2 ltac:(simpl; lia) (output ++ _)), (IH r2 ltac:(simpl; lia) [_]).
    simpl. by rewrite <- app_assoc.
  - destruct (c =? chr "+"); rewrite (IH r ltac:(simpl; lia) (output ++ _)),
      (IH r ltac:(simpl; lia) [_]); simpl; by rewrite <- app_assoc.
Qed.

(** ** Round trip *)

(** Each byte survives an escape: checked for all 256 of them. *)
Definition escape_ok (c : Z) : bool :=
  match escape c with
  | [p; h1; h2] => (p =? chr "%") && (IsHexDigit h1 && IsHexDigit h2) && (hex_pair h1 h2 =? c)
  | _ => false
  end.

Lemma escape_ok_all c : is_byte c → escape_ok c = true.
Proof. apply byte_forall. vm_compute. reflexivity. Qed.

Lemma escape_decode c : is_byte c →
  ∃ h1 h2, escape c = [chr "%"; h1; h2] ∧
    IsHexDigit h1 = true ∧ IsHexDigit h2 = true ∧ hex_pair h1 h2 = c.
Proof.
  intros Hc. pose proof (escape_ok_all c Hc) as H. unfold escape_ok in H.
  destruct (escape c) as [|p [|h1 [|h2 [|? ?]]]] eqn:E; try done.
  apply andb_true_iff in H as [[Hp [H1 H2]%andb_true_iff]%andb_true_iff Hv].
  apply Z.eqb_eq in Hp, Hv. subst p. by exists h1, h2.
Qed.

(** What decoding gives back for one encoded byte: the decoder reads a plus
    sign as a space, whether or not the encoder escapes it. *)
Definition decoded (unchanged : ByteSet) (c : Z) : Z :=
  if ((c =? chr "+") && Find unchanged c)%bool then chr " " else c.

Lemma decode_encoded_byte unchanged past c rest :
  is_byte c → Find unchanged (chr "%") = false →
  DecodeAppend past (encode_byte unchanged c ++ rest) [] =
  ((DecodeAppend past rest []).1, decoded unchanged c :: (DecodeAppend past rest []).2).
Proof.
  intros Hc Hpct. unfold encode_byte, decoded. destruct (Find unchanged c) eqn:Hf.
  - rewrite andb_true_r. cbn [app DecodeAppend].
    destruct (Z.eqb_spec c (chr "%")) as [->|_]; [congruence|].
    by destruct (c =? chr "+"); rewrite DecodeAppend_acc.
  - rewrite andb_false_r. destruct (escape_decode c Hc) as (h1 & h2 & -> & H1 & H2 & Hv).
    cbn [app DecodeAppend]. rewrite Z.eqb_refl, H1, H2. simpl.
    by rewrite DecodeAppend_acc, Hv.
Qed.

(** Percent-decoding undoes percent-encoding.  For every set of unchanged
    bytes that does not hold the percent sign, decoding an encoded byte string
    succeeds and returns the string, with each plus sign the encoder left
    unchanged turned into a space; no byte past the input is consulted.  In
    particular [EncodeUriComponent] is undone exactly, while [Encode] and
    [EncodeUri], which keep the plus sign, are undone exactly on the strings
    that hold none. *)
Theorem decode_encode (past : Z) (s : bytes) :
  bytes_ok s →
  (∀ unchanged, Find unchanged (chr "%") = false →
     DecodeTo past (DoEncodeAppend s unchanged []) = (true, decoded unchanged <$> s)) ∧
  DecodeTo past (EncodeUriComponent s) = (true, s) ∧
  (DecodeTo past (Encode s) = (true, s) ↔ chr "+" ∉ s) ∧
  (DecodeTo past (EncodeUri s) = (true, s) ↔ chr "+" ∉ s).
Proof.
  intros Hs.
  assert (Hgen : ∀ unchanged, Find unchanged (chr "%") = false →
     DecodeTo past (DoEncodeAppend s unchanged []) = (true, decoded unchanged <$> s)).
  { intros unchanged Hpct. unfold DecodeTo. rewrite DoEncodeAppend_flat. simpl.
    induction Hs as [|c s Hc Hs IH]; [done|]. simpl.
    rewrite decode_encoded_byte by done. by rewrite IH. }
  assert (Hplus : ∀ unchanged, Find unchanged (chr "+") = true →
     decoded unchanged <$> s = s ↔ chr "+" ∉ s).
  { intros unchanged Hf. clear Hgen Hs. induction s as [|c s IH]; [set_solver|].
    rewrite fmap_cons, not_elem_of_cons, <- IH. unfold decoded at 1.
    destruct (Z.eqb_spec c (chr "+")) as [->|Hne]; simpl.
    - rewrite Hf. split; [by intros [= ?]|naive_solver].
    - naive_solver congruence. }
  split; [exact Hgen|]. repeat split.
  - unfold EncodeUriComponent, EncodeUriComponentAppend.
    rewrite Hgen by (vm_compute; reflexivity). f_equal.
    rewrite <- (list_fmap_id s) at 2. apply list_fmap_ext. intros _ c _. unfold decoded.
    destruct (Z.eqb_spec c (chr "+")) as [->|]; [by vm_compute|done].
  - unfold Encode, EncodeAppend. rewrite Hgen by (vm_compute; reflexivity).
    intros [= H]. apply (Hplus unchanged_escape); [vm_compute; reflexivity|done].
  - intros H. unfold Encode, EncodeAppend. rewrite Hgen by (vm_compute; reflexivity).
    f_equal. apply Hplus; [vm_compute; reflexivity|done].
  - unfold EncodeUri, EncodeUriAppend. rewrite Hgen by (vm_compute; reflexivity).
    intros [= H]. apply (Hplus unchanged_uri); [vm_compute; reflexivity|done].
  - intros H. unfold EncodeUri, EncodeUriAppend. rewrite Hgen by (vm_compute; reflexivity).
    f_equal. apply Hplus; [vm_compute; reflexivity|done].
Qed.

Lemma decode_encode_witness :
  bytes_ok (str "a b%+") ∧
  DecodeTo 0 (EncodeUriComponent (str "a b%+")) = (true, str "a b%+").
Proof.
  assert (H : bytes_ok (str "a b%+")).
  { repeat (apply Forall_cons_2; [split; [discriminate|reflexivity]|]). constructor. }
  split; [exact H|]. apply (decode_encode 0 (str "a b%+") H).
Defined.

(** ** The byte past the end *)

(** The decoder consults [past] only at an escape cut after one digit at the
    very end of the input, and then [past] decides. *)
Lemma past_consulted (rest : bytes) :
  (∀ p q, DecodeAppend p rest [] = DecodeAppend q rest []) ∨
  (∃ s h, rest = s ++ [chr "%"; h] ∧ IsHexDigit h = true ∧
     ∃ o, ∀ p, DecodeAppend p rest [] =
       if IsHexDigit p then (true, o ++ [hex_pair h p]) else (false, o)).
Proof.
  induction rest as [rest IH] using (induction_ltof1 _ (@length Z)). unfold ltof in IH.
  assert (Hstep : ∀ x pre r, rest = pre ++ r → (length r < length rest)%nat →
    (∀ p, DecodeAppend p rest [] = DecodeAppend p r [x]) →
    (∀ p q, DecodeAppend p rest [] = DecodeAppend q rest []) ∨
    (∃ s h, rest = s ++ [chr "%"; h] ∧ IsHexDigit h = true ∧
       ∃ o, ∀ p, DecodeAppend p rest [] =
         if IsHexDigit p then (true, o ++ [hex_pair h p]) else (false, o))).
  { intros x pre r Hr Hlen Heq. destruct (IH r Hlen) as [Hsame|(s & h & -> & Hh & o & Ho)].
    - left. intros p q. rewrite !Heq, !(DecodeAppend_acc _ _ [x]), (Hsame p q). done.
    - right. exists (pre ++ s), h. split; [by rewrite Hr, app_assoc|]. split; [done|].
      exists (x :: o). intros p. rewrite Heq, DecodeAppend_acc, Ho. by destruct (IsHexDigit p). }
  destruct rest as [|c r]; [by left|].
  destruct (Z.eqb_spec c (chr "%")) as [->|Hc].
  - destruct r as [|h1 [|h2 r2]]; [by left| |].
    + destruct (IsHexDigit h1) eqn:Hh; [right|left; intros; simpl; by rewrite Hh].
      exists [], h1. split; [done|]. split; [done|]. exists []. intros p. simpl.
      rewrite Hh. simpl. by destruct (IsHexDigit p).
    + destruct (negb (IsHexDigit h1) || negb (IsHexDigit h2))%bool eqn:Hh;
        [left; intros; simpl; by rewrite Hh|].
      apply (Hstep (hex_pair h1 h2) [chr "%"; h1; h2] r2); [done|simpl; lia|].
      intros p. simpl. by rewrite Hh.
  - apply (Hstep (if c =? chr "+" then chr " " else c) [c] r); [done|simpl; lia|].
    intros p. simpl. destruct (Z.eqb_spec c (chr "%")); [done|]. by destruct (c =? chr "+").
Qed.

(** The decoder of a [StringPiece] depends on the byte past the piece
    exactly when the input ends in a percent sign and one hexadecimal digit
    that the scan reaches as an escape: then it succeeds if that byte happens
    to be a digit and fails otherwise; on every other input the result is
    independent of it.  With the NUL of a [std::string] the incomplete escape
    is rejected. *)
Theorem DecodeTo_overread (s : bytes) :
  (∀ p q, DecodeTo p s = DecodeTo q s) ∨
  (∃ pre h, s = pre ++ [chr "%"; h] ∧ IsHexDigit h = true ∧
     (∀ p, (DecodeTo p s).1 = IsHexDigit p) ∧ (DecodeTo 0 s).1 = false).
Proof.
  destruct (past_consulted s) as [H|(pre & h & -> & Hh & o & Ho)]; [by left|right].
  exists pre, h. unfold DecodeTo. repeat split; [done|intros p|]; rewrite Ho; [|done].
  by destruct (IsHexDigit p).
Qed.

(** ** In-place decoding *)

Lemma take_insert_snoc (s : bytes) w x :
  (w < length s)%nat → take (w + 1) (<[w := x]> s) = take w s ++ [x].
Proof.
  intros H. rewrite Nat.add_1_r. erewrite take_S_r by (by apply list_lookup_insert_eq).
  by rewrite take_insert_ge by lia.
Qed.

Lemma drop_head (s : bytes) i :
  (i < length s)%nat → drop i s = char_at s i :: drop (i + 1) s.
Proof.
  intros H. destruct (lookup_lt_is_Some_2 s i H) as [x Hx]. unfold char_at.
  rewrite (nth_lookup_Some _ _ _ _ Hx), Nat.add_1_r. by apply drop_S.
Qed.

(** The state of the loop: the bytes from [i] on are still the input's, those
    below [write_pos] are the output. *)
Lemma Decode_loop_spec fuel i w s :
  (w <= i <= length s)%nat → (length s - i < fuel)%nat →
  Decode_loop fuel i w s =
  let '(ok, o) := DecodeAppend 0 (drop i s) (take w s) in
  (ok, if ok then o else o ++ drop (length o) s).
Proof.
  revert i w s. induction fuel as [|fuel IH]; intros i w s Hw Hf; [lia|]. simpl.
  destruct (Nat.ltb_spec i (length s)) as [Hi|Hi].
  2:{ replace (drop i s) with (@nil Z) by (by rewrite drop_ge). done. }
  assert (Hfail : (false, s) = (false, take w s ++ drop (length (take w s)) s)).
  { rewrite length_take_le by lia. by rewrite take_drop. }
  assert (Hnext : ∀ k x, (0 < k)%nat → (i + k <= length s)%nat →
    Decode_loop fuel (i + k) (w + 1) (<[w := x]> s) =
    let '(ok, o) := DecodeAppend 0 (drop (i + k) s) (take w s ++ [x]) in
    (ok, if ok then o else o ++ drop (length o) s)).
  { intros k x Hk Hik. rewrite IH by (rewrite ?length_insert; lia).
    rewrite drop_insert_lt, take_insert_snoc by lia.
    rewrite DecodeAppend_acc.
    destruct (DecodeAppend 0 (drop (i + k) s) []) as [[] o]; simpl; [done|].
    do 2 f_equal. rewrite drop_insert_lt; [done|].
    rewrite !length_app, length_take. simpl. lia. }
  rewrite (drop_head s i Hi). cbn [DecodeAppend].
  destruct (char_at s i =? chr "%").
  - destruct (Nat.ltb_spec (length s) (i + 2)) as [Hlt|Hge].
    { rewrite (drop_ge s (i + 1)%nat) by lia. done. }
    rewrite (drop_head s (i + 1)%nat) by lia. replace (i + 1 + 1)%nat with (i + 2)%nat by lia.
    destruct (Nat.eq_dec (length s) (i + 2)%nat) as [Hend|Hend].
    + rewrite (drop_ge s (i + 2)%nat) by lia.
      assert (char_at s (i + 2)%nat = 0) as -> by (apply nth_overflow; lia).
      change (IsHexDigit 0) with false. rewrite orb_true_r. exact Hfail.
    + rewrite (drop_head s (i + 2)%nat) by lia. replace (i + 2 + 1)%nat with (i + 3)%nat by lia.
      destruct (_ || _)%bool; [done|]. apply Hnext; lia.
  - destruct (char_at s i =? chr "+"); apply Hnext; lia.
Qed.

(** Decoding a string in place is decoding it into a fresh string.  The
    single pass over the buffer, whose writes trail its reads, returns the
    status and (on success) the string that [DecodeTo] computes from the
    NUL-terminated input; on failure the buffer keeps its length and holds
    the bytes decoded so far followed by the untouched rest of the input. *)
Theorem Decode_in_place (s : bytes) :
  Decode s =
  let '(ok, o) := DecodeTo 0 s in
  (ok, if ok then o else o ++ drop (length o) s).
Proof. unfold Decode, DecodeTo. rewrite Decode_loop_spec by lia. done. Qed.
