(* ===== verification/Uri.v ===== *)
(** * URI: the data of a URI reference and its textual form

    Model of net/uri/uri.h and of the part of net/uri/uri.cpp that neither
    parses nor merges: the two classes, their accessors, [ToString],
    [Normalize], [Swap] and the percent-coding forwarders.  Parsing is in
    [UriParser], reference resolution in [UriMerge]. *)

From S2P Require Import Prelude CType Percent.

(** ** class UriAuthority *)

Record UriAuthority := mkAuthority {
  a_has_user_info : bool;
  a_has_port : bool;
  a_user_info : bytes;
  a_host : bytes;
  a_port : bytes
}.

#[export] Instance UriAuthority_eq_dec : EqDecision UriAuthority.
Proof. solve_decision. Defined.

Definition new_authority : UriAuthority := mkAuthority false false [] [] [].

Definition Authority_SetUserInfo (value : bytes) (a : UriAuthority) : UriAuthority :=
  mkAuthority true (a_has_port a) value (a_host a) (a_port a).
Definition Authority_ClearUserInfo (a : UriAuthority) : UriAuthority :=
  mkAuthority false (a_has_port a) [] (a_host a) (a_port a).
Definition Authority_SetHost (value : bytes) (a : UriAuthority) : UriAuthority :=
  mkAuthority (a_has_user_info a) (a_has_port a) (a_user_info a) value (a_port a).
Definition Authority_SetPort (value : bytes) (a : UriAuthority) : UriAuthority :=
  mkAuthority (a_has_user_info a) true (a_user_info a) (a_host a) value.
Definition Authority_ClearPort (a : UriAuthority) : UriAuthority :=
  mkAuthority (a_has_user_info a) false (a_user_info a) (a_host a) [].
Definition Authority_Clear (a : UriAuthority) : UriAuthority :=
  Authority_ClearPort (Authority_SetHost [] (Authority_ClearUserInfo a)).
Definition Authority_Swap (a b : UriAuthority) : UriAuthority * UriAuthority :=
  (mkAuthority (a_has_user_info b) (a_has_port b) (a_user_info b) (a_host b) (a_port b),
   mkAuthority (a_has_user_info a) (a_has_port a) (a_user_info a) (a_host a) (a_port a)).

(** ** class URI *)

Record URI := mkURI {
  m_has_authority : bool;
  m_has_query : bool;
  m_has_fragment : bool;
  m_scheme : bytes;
  m_authority : UriAuthority;
  m_path : bytes;
  m_query : bytes;
  m_fragment : bytes
}.

#[export] Instance URI_eq_dec : EqDecision URI.
Proof. solve_decision. Defined.

Definition new_URI : URI := mkURI false false false [] new_authority [] [] [].

Definition SetScheme (v : bytes) (u : URI) : URI :=
  mkURI (m_has_authority u) (m_has_query u) (m_has_fragment u) v
    (m_authority u) (m_path u) (m_query u) (m_fragment u).

(** [m_has_authority = true], with the authority replaced. *)
Definition SetAuthority (a : UriAuthority) (u : URI) : URI :=
  mkURI true (m_has_query u) (m_has_fragment u) (m_scheme u)
    a (m_path u) (m_query u) (m_fragment u).
Definition ClearAuthority (u : URI) : URI :=
  mkURI false (m_has_query u) (m_has_fragment u) (m_scheme u)
    (Authority_Clear (m_authority u)) (m_path u) (m_query u) (m_fragment u).

Definition SetUserInfo (v : bytes) (u : URI) : URI :=
  SetAuthority (Authority_SetUserInfo v (m_authority u)) u.
Definition SetHost (v : bytes) (u : URI) : URI :=
  SetAuthority (Authority_SetHost v (m_authority u)) u.
Definition SetPort (v : bytes) (u : URI) : URI :=
  SetAuthority (Authority_SetPort v (m_authority u)) u.
Definition HasUserInfo (u : URI) : bool := (m_has_authority u && a_has_user_info (m_authority u))%bool.
Definition HasPort (u : URI) : bool := (m_has_authority u && a_has_port (m_authority u))%bool.
Definition Host (u : URI) : bytes := a_host (m_authority u).
Definition UserInfo (u : URI) : bytes := a_user_info (m_authority u).
Definition Port (u : URI) : bytes := a_port (m_authority u).

Definition SetPath (v : bytes) (u : URI) : URI :=
  mkURI (m_has_authority u) (m_has_query u) (m_has_fragment u) (m_scheme u)
    (m_authority u) v (m_query u) (m_fragment u).
Definition SetQuery (v : bytes) (u : URI) : URI :=
  mkURI (m_has_authority u) true (m_has_fragment u) (m_scheme u)
    (m_authority u) (m_path u) v (m_fragment u).
Definition ClearQuery (u : URI) : URI :=
  mkURI (m_has_authority u) false (m_has_fragment u) (m_scheme u)
    (m_authority u) (m_path u) [] (m_fragment u).
Definition SetFragment (v : bytes) (u : URI) : URI :=
  mkURI (m_has_authority u) (m_has_query u) true (m_scheme u)
    (m_authority u) (m_path u) (m_query u) v.
Definition ClearFragment (u : URI) : URI :=
  mkURI (m_has_authority u) (m_has_query u) false (m_scheme u)
    (m_authority u) (m_path u) (m_query u) [].

Definition PathAndQuery (u : URI) : bytes :=
  if m_has_query u then m_path u ++ str "?" ++ m_query u else m_path u.

Definition Clear (u : URI) : URI :=
  ClearFragment (ClearQuery (SetPath [] (ClearAuthority (SetScheme [] u)))).

(** [Swap] exchanges every member. *)
Definition Swap (u v : URI) : URI * URI :=
  let '(a, b) := Authority_Swap (m_authority u) (m_authority v) in
  (mkURI (m_has_authority v) (m_has_query v) (m_has_fragment v) (m_scheme v) a
     (m_path v) (m_query v) (m_fragment v),
   mkURI (m_has_authority u) (m_has_query u) (m_has_fragment u) (m_scheme u) b
     (m_path u) (m_query u) (m_fragment u)).

(** [std::string& URI::ToString(std::string* result) const]: appends to a
    cleared string, component by component. *)
Definition ToString (u : URI) : bytes :=
  let result := [] in
  let result := match m_scheme u with
                | [] => result
                | _ => (result ++ m_scheme u) ++ str ":"
                end in
  let result :=
    if m_has_authority u then
      let result := result ++ str "//" in
      let result := if HasUserInfo u then (result ++ UserInfo u) ++ str "@" else result in
      let result := result ++ Host u in
      if HasPort u then (result ++ str ":") ++ Port u else result
    else result in
  let result := result ++ m_path u in
  let result := if m_has_query u then (result ++ str "?") ++ m_query u else result in
  if m_has_fragment u then (result ++ str "#") ++ m_fragment u else result.

(** [StringLower]: [tolower] on every character; [Normalize] applies it to
    the scheme and the host. *)
Definition StringLower (s : bytes) : bytes := tolower <$> s.

Definition Normalize (u : URI) : bool * URI :=
  let u := SetScheme (StringLower (m_scheme u)) u in
  (true, mkURI (m_has_authority u) (m_has_query u) (m_has_fragment u) (m_scheme u)
           (Authority_SetHost (StringLower (a_host (m_authority u))) (m_authority u))
           (m_path u) (m_query u) (m_fragment u)).

(** The static coding functions forward to [PercentEncoding]. *)
Definition URI_Encode (src : bytes) : bytes := EncodeUriTo src.
Definition URI_EncodeComponent (src : bytes) : bytes := EncodeUriComponentTo src.
Definition URI_Decode (past : Z) (src : bytes) : bool * bytes := DecodeTo past src.
