(* ===== verification/UriParser.v ===== *)
(** * The URI parser

    Model of [class UriParser] in net/uri/uri.cpp: a recursive-descent
    recogniser over a fixed buffer that moves a cursor [m_current] and writes
    the components it recognises into [m_result] as it goes.

    A [match_*] method is a function from the parser's state to its boolean
    result and the new state.  The helper class [Result] remembers the cursor
    when it is constructed and puts it back when it is destroyed without
    having been set to true; [with_Result] is that scope.  A failed match
    restores the cursor, never what was written into [m_result]. *)

From S2P Require Import Prelude CType ByteSet Percent Uri.

(** ** struct UriParserByteSets *)

Definition bs_alpha : ByteSet := AlphaSet.
Definition bs_digit : ByteSet := DigitSet.
Definition bs_alphanum : ByteSet := AlphaNumSet.
Definition bs_hex : ByteSet := HexSet.
Definition bs_gen_delims : ByteSet := of_string (str ":/?#[]@").
Definition bs_sub_delims : ByteSet := of_string (str "!$&'()*+,;=").
Definition bs_reserved : ByteSet := or_with bs_gen_delims bs_sub_delims.
Definition bs_mark : ByteSet := of_string (str "-_.!~*'()").
Definition bs_unreserved : ByteSet := or_string bs_alphanum (str "-._~").
Definition bs_userinfo : ByteSet := or_string bs_unreserved (str ",:&=+$,").
Definition bs_uric_no_slash : ByteSet := or_string bs_unreserved (str ",?:@&=+$,").
Definition bs_rel_segment : ByteSet := or_string bs_unreserved (str ",@&=+$,").
Definition bs_scheme : ByteSet := or_string AlphaNumSet (str "+-.").
Definition bs_reg_name : ByteSet := or_string bs_unreserved (str "$,,:@&=+").
Definition bs_pchar : ByteSet := or_string (or_with bs_unreserved bs_sub_delims) (str ":@").
Definition bs_query_or_fragment : ByteSet := or_string bs_pchar (str "/?").

(** ** The parser's state and its primitives *)

Record pstate := mkState { m_current : nat; m_result : URI }.

Definition parser := pstate → bool * pstate.

Definition set_current (i : nat) (st : pstate) : pstate := mkState i (m_result st).
Definition update (f : URI → URI) (st : pstate) : pstate :=
  mkState (m_current st) (f (m_result st)).

(** [a && b] and [a || b], which evaluate [b] only when it decides. *)
Definition and_then (p q : parser) : parser := λ st,
  let '(b, st1) := p st in if b then q st1 else (false, st1).
Definition or_else (p q : parser) : parser := λ st,
  let '(b, st1) := p st in if b then (true, st1) else q st1.
Infix "&&&" := and_then (at level 40, left associativity).
Infix "|||" := or_else (at level 50, left associativity).

(** [Result r(this); ...]: [body] gets [r.begin()] and returns the value of
    the function, the final [r.m_result], and the state at the end of the
    scope, where the destructor restores the cursor unless [r] is true. *)
Definition with_Result (body : nat → pstate → bool * bool * pstate) : parser := λ st,
  let '(ret, r, st1) := body (m_current st) st in
  (ret, if r then st1 else set_current (m_current st) st1).

(** [r = p();], where assigning false restores the cursor. *)
Definition assign (begin : nat) (p : parser) : parser := λ st,
  let '(b, st1) := p st in (b, if b then st1 else set_current begin st1).

(** [Result r(this); r = p(); return r;] *)
Definition attempt (p : parser) : parser :=
  with_Result (λ begin st, let '(b, st1) := assign begin p st in (b, b, st1)).

Section Parser.

(** The buffer [m_begin, m_end). *)
Context (input : bytes).

Definition slice (i n : nat) : bytes := take n (drop i input).

(** [while (p()) {}] and the same loop counting its iterations.  Each
    iteration of the loops below moves the cursor, so [loop_fuel] iterations
    are never exhausted ([while_fuel] below). *)
Definition loop_fuel : nat := S (length input).

Fixpoint while_ (fuel : nat) (p : parser) (st : pstate) : pstate :=
  match fuel with
  | O => st
  | S fuel => let '(b, st1) := p st in if b then while_ fuel p st1 else st1
  end.

Fixpoint while_count (fuel : nat) (p : parser) (count : nat) (st : pstate) : nat * pstate :=
  match fuel with
  | O => (count, st)
  | S fuel => let '(b, st1) := p st in
              if b then while_count fuel p (S count) st1 else (count, st1)
  end.

(** *** helpers *)

Definition match_literal (c : Z) : parser := λ st,
  match input !! m_current st with
  | Some x => if x =? c then (true, set_current (m_current st + 1) st) else (false, st)
  | None => (false, st)
  end.

(** [m_end - m_current >= w && memeql(m_current, l, w)] *)
Definition match_literal_str (l : bytes) : parser := λ st,
  if bool_decide (slice (m_current st) (length l) = l)
  then (true, set_current (m_current st + length l) st) else (false, st).

Definition match_byteset (cs : ByteSet) : parser := λ st,
  match input !! m_current st with
  | Some x => if Find cs x then (true, set_current (m_current st + 1) st) else (false, st)
  | None => (false, st)
  end.

Definition match_alphanum : parser := match_byteset bs_alphanum.
Definition match_alpha : parser := match_byteset bs_alpha.
Definition match_digit : parser := match_byteset bs_digit.
Definition match_unreserved : parser := match_byteset bs_unreserved.

(** [m_byte_sets.hex(m_current[k])] *)
Definition hex_at (i : nat) : bool :=
  match input !! i with Some x => Find bs_hex x | None => false end.
Definition char_is (i : nat) (c : Z) : bool :=
  match input !! i with Some x => x =? c | None => false end.

Definition match_pct_encoded : parser := λ st,
  let cur := m_current st in
  let left := (length input - cur)%nat in
  if ((2 <? left)%nat && char_is cur (chr "%"))%bool then
    if (hex_at (cur + 1) && hex_at (cur + 2))%bool then (true, set_current (cur + 3) st)
    else if ((5 <? left)%nat && char_is (cur + 1) (chr "u") &&
             hex_at (cur + 2) && hex_at (cur + 3) && hex_at (cur + 4) && hex_at (cur + 5))%bool
    then (true, set_current (cur + 6) st)
    else (false, st)
  else (false, st).

Definition match_pchar : parser := match_byteset bs_pchar ||| match_pct_encoded.

Definition match_segment : parser := λ st, (true, while_ loop_fuel match_pchar st).

Definition match_segment_nz : parser := λ st,
  let '(count, st1) := while_count loop_fuel match_pchar 0 st in ((0 <? count)%nat, st1).

Definition match_segment_nz_nc : parser := λ st,
  let '(count, st1) :=
    while_count loop_fuel
      (attempt (match_unreserved ||| match_pct_encoded |||
                match_byteset bs_sub_delims ||| match_literal (chr "@"))) 0 st in
  ((0 <? count)%nat, st1).

Definition match_query_or_fragment : parser := λ st,
  (true, while_ loop_fuel (match_byteset bs_query_or_fragment ||| match_pct_encoded) st).
Definition match_query : parser := match_query_or_fragment.
Definition match_fragment : parser := match_query_or_fragment.

(** *** host names *)

(** The [for (;;)] of both label matchers: any number of hyphens, then an
    alphanumeric; [r1] becomes true at the first one. *)
Fixpoint label_loop (fuel : nat) (r1 : bool) (st : pstate) : bool * pstate :=
  match fuel with
  | O => (r1, st)
  | S fuel =>
      let st1 := while_ loop_fuel (match_literal (chr "-")) st in
      let '(b, st2) := match_alphanum st1 in
      if b then label_loop fuel true st2 else (r1, st2)
  end.

(** [Result r1(this); for (;;) {...}] and its destructor. *)
Definition label_tail (st : pstate) : pstate :=
  let '(r1, st1) := label_loop loop_fuel false st in
  if r1 then st1 else set_current (m_current st) st1.

Definition label_body (first : parser) : parser :=
  with_Result (λ _ st,
    let '(b, st1) := first st in
    if b then (true, true, label_tail st1) else (false, false, st1)).

Definition match_domainlabel : parser := label_body match_alphanum.
Definition match_toplabel : parser := label_body match_alpha.

Definition match_hostname : parser :=
  with_Result (λ begin st,
    let st1 := while_ loop_fuel (attempt (match_domainlabel &&& match_literal (chr "."))) st in
    let '(b, st2) := assign begin match_toplabel st1 in
    if b then (true, true, (match_literal (chr ".") st2).2) else (false, false, st2)).

Definition match_reg_name : parser := match_hostname.

(** One round of the loop of [match_IPv4address]: digits and a dot, or
    nothing; [None] is [return false]. *)
Definition ipv4_field (st : pstate) : option pstate :=
  let '(b, st1) := match_digit st in
  if b then
    let '(d, st2) := match_literal (chr ".") (while_ loop_fuel match_digit st1) in
    if d then Some st2 else None
  else Some st1.

Definition match_IPv4address : parser :=
  with_Result (λ _ st,
    match (ipv4_field st ≫= ipv4_field) ≫= ipv4_field with
    | None => (false, false, st)
    | Some st3 =>
        let '(b, st4) := match_digit st3 in
        if b then (true, true, while_ loop_fuel match_digit st4) else (false, false, st4)
    end).

Definition match_IP_literal : parser := λ st, (false, st).

Definition match_host : parser := λ st,
  let '(b, st1) := (match_reg_name ||| match_IPv4address ||| match_IP_literal) st in
  if b then
    (true, update (SetHost (slice (m_current st) (m_current st1 - m_current st))) st1)
  else (false, st1).

Definition match_port : parser := λ st, (true, while_ loop_fuel match_digit st).

Definition match_userinfo : parser := λ st,
  (true, while_ loop_fuel (match_byteset bs_userinfo ||| match_pct_encoded) st).

(** [for (p = m_current; p < m_end; ++p)]: an at sign before any slash. *)
Fixpoint userinfo_scan (rest : bytes) : bool :=
  match rest with
  | [] => false
  | c :: r => if c =? chr "@" then true else if c =? chr "/" then false else userinfo_scan r
  end.
Definition maybe_contains_userinfo (st : pstate) : bool :=
  userinfo_scan (drop (m_current st) input).

(** [Result r(this); r = c && p; if (r) Set(r.begin() + 1, r.length() - 1);]
    for the optional query, fragment and port. *)
Definition optional_after (c : Z) (p : parser) (set : bytes → URI → URI) (st : pstate) : pstate :=
  let '(b, st1) := attempt (match_literal c &&& p) st in
  if b then
    update (set (slice (m_current st + 1) (m_current st1 - m_current st - 1))) st1
  else st1.

(** The first statement of [match_authority]. *)
Definition match_authority_user_info (st : pstate) : pstate :=
  if maybe_contains_userinfo st then
    let '(b, st1) := attempt (match_userinfo &&& match_literal (chr "@")) st in
    if b then
      update (SetUserInfo (slice (m_current st) (m_current st1 - m_current st - 1))) st1
    else st1
  else st.

Definition match_authority : parser := λ st,
  let '(h, st2) := match_host (match_authority_user_info st) in
  if h then (true, optional_after (chr ":") match_port SetPort st2) else (false, st2).

(** *** paths *)

(** [for (;;) { Result r(this); r = match_literal('/') && match_segment();
    if (!r) break; }] *)
Definition slash_segments (st : pstate) : pstate :=
  while_ loop_fuel (attempt (match_literal (chr "/") &&& match_segment)) st.

(** [m_result->SetPath(begin, m_current - begin); return true;] *)
Definition set_path_from (begin : nat) (st : pstate) : bool * pstate :=
  (true, update (SetPath (slice begin (m_current st - begin))) st).

Definition match_path_abempty : parser := λ st,
  set_path_from (m_current st) (slash_segments st).

Definition match_path_absolute : parser := λ st,
  let '(b, st1) := match_literal (chr "/") st in
  if b then
    let '(nz, st2) := match_segment_nz st1 in
    set_path_from (m_current st) (if nz then slash_segments st2 else st2)
  else (false, st1).

Definition match_path_noscheme : parser := λ st,
  let '(b, st1) := match_segment_nz_nc st in
  if b then set_path_from (m_current st) (slash_segments st1) else (false, st1).

Definition match_path_rootless : parser := λ st,
  let '(b, st1) := match_segment_nz st in
  if b then set_path_from (m_current st) (slash_segments st1) else (false, st1).

Definition match_path_empty : parser := λ st, (true, update (SetPath []) st).

(** *** the top of the grammar *)

Definition match_scheme_and_colon : parser :=
  with_Result (λ begin st,
    let '(b, st1) := assign begin match_alpha st in
    if b then
      let '(colon, st3) :=
        match_literal (chr ":") (while_ loop_fuel (match_byteset bs_scheme) st1) in
      if colon then
        (true, true, update (SetScheme (slice begin (m_current st3 - begin - 1))) st3)
      else (false, false, set_current begin st3)
    else (false, false, st1)).

(** The result object [r] stays false when one of the alternatives without
    an authority is taken, so its destructor moves the cursor back to where
    the hier-part began although the function returns true. *)
Definition match_hier_part : parser :=
  with_Result (λ begin st,
    let '(b, st1) :=
      assign begin (match_literal_str (str "//") &&& match_authority &&& match_path_abempty) st in
    if b then (true, true, st1)
    else
      let '(b2, st2) := (match_path_absolute ||| match_path_rootless ||| match_path_empty) st1 in
      (b2, false, st2)).

Definition match_URI : parser :=
  with_Result (λ begin st,
    let '(b, st1) := assign begin (match_scheme_and_colon &&& match_hier_part) st in
    if b then
      let st2 := optional_after (chr "?") match_query SetQuery st1 in
      let st3 := optional_after (chr "#") match_fragment SetFragment st2 in
      (true, true, st3)
    else (false, false, st1)).

Definition match_relative_part : parser :=
  with_Result (λ begin st,
    let '(b, st1) :=
      assign begin (match_literal_str (str "//") &&& match_authority &&& match_path_abempty) st in
    if b then (true, true, st1)
    else
      let '(b2, st2) :=
        assign begin (match_path_absolute ||| match_path_noscheme ||| match_path_empty) st1 in
      (b2, b2, st2)).

Definition match_relative_ref : parser :=
  with_Result (λ begin st,
    let '(b, st1) := assign begin match_relative_part st in
    if b then (true, true, optional_after (chr "?") match_query SetQuery st1)
    else (false, false, st1)).

Definition match_URI_reference : parser := match_URI ||| match_relative_ref.

(** *** productions of the grammar that no entry point uses *)

Definition match_absoluteURI : parser :=
  with_Result (λ begin st,
    let '(b, st1) := match_scheme_and_colon st in
    if b then
      let '(h, st2) := assign begin match_hier_part st1 in
      if h then (true, true, optional_after (chr "?") match_query SetQuery st2)
      else (false, false, st2)
    else (false, false, st1)).

Definition match_path : parser :=
  match_path_abempty ||| match_path_absolute ||| match_path_noscheme |||
  match_path_rootless ||| match_path_empty.

Definition match_reserved : parser := match_byteset bs_reserved.
Definition match_mark : parser := match_byteset bs_mark.
Definition match_hex : parser := match_byteset bs_hex.
Definition match_lowalpha : parser := match_byteset LowerSet.
Definition match_upalpha : parser := match_byteset UpperSet.

Definition match_percent_encoded : parser := λ st,
  let cur := m_current st in
  if ((2 <? length input - cur)%nat && char_is cur (chr "%") &&
      hex_at (cur + 1) && hex_at (cur + 2))%bool
  then (true, set_current (cur + 3) st) else (false, st).

End Parser.

Lemma loop_fuel_S input : loop_fuel input = S (length input).
Proof. done. Qed.

#[global] Opaque loop_fuel bs_alpha bs_digit bs_alphanum bs_hex bs_gen_delims bs_sub_delims
  bs_reserved bs_mark bs_unreserved bs_userinfo bs_uric_no_slash bs_rel_segment bs_scheme
  bs_reg_name bs_pchar bs_query_or_fragment.

(** ** Entry points *)

(** [UriParser p; Clear(); return p.Parse(uri, uri_length, this);]: the
    number of characters matched, and the object. *)
Definition ParseBuffer (input : bytes) (u : URI) : nat * URI :=
  let '(_, st) := match_URI_reference input (mkState 0 (Clear u)) in
  (m_current st, m_result st).

Definition Parse (input : bytes) (u : URI) : bool * URI :=
  let '(n, u') := ParseBuffer input u in ((n =? length input)%nat, u').
