(* ===== verification/UriParserFacts.v ===== *)
(** * Lemmas on the URI parser

    What each [match_*] method of [UriParser] guarantees, as type classes
    whose instances follow the combinators: the cursor stays inside the
    buffer and only moves forward ([Forward]), a failed match leaves the
    cursor where it was ([Restores]), a successful one consumes input
    ([Advances]), and a match writes no component ([Keeps]). *)

From S2P Require Import Prelude CType ByteSet Percent Uri UriParser.

Section Facts.

Context (input : bytes).
Local Abbreviation len := (length input).

Class Keeps (p : parser) : Prop := keeps st : m_result (p st).2 = m_result st.
Class Forward (p : parser) : Prop := forward st :
  (m_current st <= len)%nat → (m_current st <= m_current (p st).2 <= len)%nat.
Class Restores (p : parser) : Prop := restores st :
  (p st).1 = false → m_current (p st).2 = m_current st.
Class Advances (p : parser) : Prop := advances st :
  (m_current st <= len)%nat → (p st).1 = true → (m_current st < m_current (p st).2)%nat.

(** ** Primitives *)

#[export] Instance keeps_literal c : Keeps (match_literal input c).
Proof. intros st. unfold match_literal. by repeat case_match. Qed.

#[export] Instance forward_literal c : Forward (match_literal input c).
Proof.
  intros st H. unfold match_literal. destruct (input !! m_current st) eqn:E; [|simpl; lia].
  apply lookup_lt_Some in E. case_match; simpl; lia.
Qed.

#[export] Instance restores_literal c : Restores (match_literal input c).
Proof. intros st. unfold match_literal. by repeat case_match. Qed.

#[export] Instance advances_literal c : Advances (match_literal input c).
Proof. intros st. unfold match_literal. repeat case_match; simpl; (done || lia). Qed.

#[export] Instance keeps_byteset cs : Keeps (match_byteset input cs).
Proof. intros st. unfold match_byteset. by repeat case_match. Qed.

#[export] Instance forward_byteset cs : Forward (match_byteset input cs).
Proof.
  intros st H. unfold match_byteset. destruct (input !! m_current st) eqn:E; [|simpl; lia].
  apply lookup_lt_Some in E. case_match; simpl; lia.
Qed.

#[export] Instance restores_byteset cs : Restores (match_byteset input cs).
Proof. intros st. unfold match_byteset. by repeat case_match. Qed.

#[export] Instance advances_byteset cs : Advances (match_byteset input cs).
Proof. intros st. unfold match_byteset. repeat case_match; simpl; (done || lia). Qed.

#[export] Instance keeps_literal_str l : Keeps (match_literal_str input l).
Proof. intros st. unfold match_literal_str. by case_match. Qed.

Lemma slice_fits i l : slice input i (length l) = l → (length l + i <= len ∨ l = [])%nat.
Proof.
  intros H. destruct l as [|x l]; [by right|left].
  apply (f_equal length) in H. unfold slice in H. rewrite length_take, length_drop in H.
  cbn [length] in *. lia.
Qed.

#[export] Instance forward_literal_str l : Forward (match_literal_str input l).
Proof.
  intros st H. unfold match_literal_str. case_bool_decide as E; simpl; [|lia].
  apply slice_fits in E as [E| ->]; simpl; lia.
Qed.

#[export] Instance restores_literal_str l : Restores (match_literal_str input l).
Proof. intros st. unfold match_literal_str. by case_match. Qed.

#[export] Instance keeps_pct : Keeps (match_pct_encoded input).
Proof. intros st. unfold match_pct_encoded. by repeat case_match. Qed.

#[export] Instance forward_pct : Forward (match_pct_encoded input).
Proof.
  intros st H. unfold match_pct_encoded. repeat case_match; simpl; try lia;
    bool_to_prop; lia.
Qed.

#[export] Instance restores_pct : Restores (match_pct_encoded input).
Proof. intros st. unfold match_pct_encoded. by repeat case_match. Qed.

#[export] Instance advances_pct : Advances (match_pct_encoded input).
Proof. intros st. unfold match_pct_encoded. repeat case_match; simpl; (done || lia). Qed.

(** ** Combinators *)

(** Unfolds one application [p st], naming its boolean and its state. *)
Ltac step p st b st1 :=
  let E := fresh "E" in destruct (p st) as [b st1] eqn:E;
  assert (b = (p st).1) by (by rewrite E); assert (st1 = (p st).2) by (by rewrite E); clear E.

#[export] Instance keeps_and p q : Keeps p → Keeps q → Keeps (p &&& q).
Proof.
  intros Hp Hq st. unfold and_then. step p st b st1. destruct b; simpl; subst st1;
    rewrite ?Hq, ?Hp; done.
Qed.

#[export] Instance forward_and p q : Forward p → Forward q → Forward (p &&& q).
Proof.
  intros Hp Hq st H. unfold and_then. specialize (Hp st H). destruct (p st) as [b st1].
  simpl in Hp. destruct b; simpl; [|lia]. specialize (Hq st1). lia.
Qed.

#[export] Instance keeps_or p q : Keeps p → Keeps q → Keeps (p ||| q).
Proof.
  intros Hp Hq st. unfold or_else. step p st b st1. destruct b; simpl; subst st1;
    rewrite ?Hq, ?Hp; done.
Qed.

#[export] Instance forward_or p q : Forward p → Forward q → Forward (p ||| q).
Proof.
  intros Hp Hq st H. unfold or_else. specialize (Hp st H). destruct (p st) as [b st1].
  simpl in Hp. destruct b; simpl; [lia|]. specialize (Hq st1). lia.
Qed.

#[export] Instance restores_or p q : Restores p → Restores q → Restores (p ||| q).
Proof.
  intros Hp Hq st. unfold or_else. specialize (Hp st). destruct (p st) as [b st1].
  simpl in Hp. destruct b; simpl; [done|]. intros Hf. rewrite Hq by done. auto.
Qed.

#[export] Instance advances_or p q :
  Restores p → Advances p → Advances q → Advances (p ||| q).
Proof.
  intros Hr Hp Hq st H. unfold or_else. specialize (Hp st H). specialize (Hr st).
  destruct (p st) as [b st1]. simpl in Hp, Hr. destruct b; simpl; [auto|].
  intros Ht. specialize (Hq st1). rewrite Hr in Hq by done. auto.
Qed.

Lemma attempt_eq p st :
  attempt p st = if (p st).1 then p st else (false, set_current (m_current st) (p st).2).
Proof.
  unfold attempt, with_Result, assign. destruct (p st) as [[] st1]; done.
Qed.

#[export] Instance keeps_attempt p : Keeps p → Keeps (attempt p).
Proof. intros Hp st. rewrite attempt_eq. case_match; simpl; apply Hp. Qed.

#[export] Instance forward_attempt p : Forward p → Forward (attempt p).
Proof.
  intros Hp st H. rewrite attempt_eq. specialize (Hp st H). case_match; simpl; lia.
Qed.

#[export] Instance restores_attempt p : Restores (attempt p).
Proof. intros st. rewrite attempt_eq. case_match eqn:E; simpl; [congruence|done]. Qed.

#[export] Instance advances_attempt p : Advances p → Advances (attempt p).
Proof. intros Hp st H. rewrite attempt_eq. case_match; simpl; [|done]. by apply Hp. Qed.

(** A conjunction consumes input when its first part does. *)
#[export] Instance advances_and p q :
  Forward p → Advances p → Forward q → Advances (p &&& q).
Proof.
  intros Hfp Hp Hq st H. unfold and_then. specialize (Hp st H). specialize (Hfp st H).
  destruct (p st) as [b st1]. simpl in Hp, Hfp. destruct b; simpl; [|done].
  specialize (Hp eq_refl). specialize (Hq st1). intros _. lia.
Qed.

(** ** Loops *)

Class Keeps_st (f : pstate → pstate) : Prop := keeps_st st : m_result (f st) = m_result st.
Class Forward_st (f : pstate → pstate) : Prop := forward_st st :
  (m_current st <= len)%nat → (m_current st <= m_current (f st) <= len)%nat.

#[export] Instance keeps_while fuel p : Keeps p → Keeps_st (while_ fuel p).
Proof.
  intros Hp. induction fuel as [|fuel IH]; intros st; simpl; [done|].
  step p st b st1. destruct b; subst st1; rewrite ?IH; apply Hp.
Qed.

#[export] Instance forward_while fuel p : Forward p → Forward_st (while_ fuel p).
Proof.
  intros Hp. induction fuel as [|fuel IH]; intros st H; simpl; [lia|].
  specialize (Hp st H). destruct (p st) as [b st1]. simpl in Hp. destruct b; [|done].
  specialize (IH st1). lia.
Qed.

Lemma while_count_while fuel p n st :
  (while_count fuel p n st).2 = while_ fuel p st.
Proof.
  revert n st. induction fuel as [|fuel IH]; intros n st; simpl; [done|].
  destruct (p st) as [b st1]. by destruct b.
Qed.

Lemma while_count_state fuel p n st c st1 :
  while_count fuel p n st = (c, st1) → st1 = while_ fuel p st.
Proof. intros E. by rewrite <- (while_count_while fuel p n st), E. Qed.

Lemma while_count_ge fuel p n st c st1 :
  while_count fuel p n st = (c, st1) → (n <= c)%nat.
Proof.
  revert n st. induction fuel as [|fuel IH]; intros n st; simpl; [intros [= <- <-]; lia|].
  destruct (p st) as [[] st2]; [|intros [= <- <-]; lia]. intros E%IH. lia.
Qed.

(** The fuel of a loop whose iterations consume input is never exhausted. *)
Lemma while_fuel p fuel k st :
  Forward p → Advances p → (m_current st <= len)%nat → (len - m_current st < fuel)%nat →
  while_ (fuel + k) p st = while_ fuel p st.
Proof.
  intros Hf Ha. revert st. induction fuel as [|fuel IH]; intros st H Hfuel; [lia|]. simpl.
  specialize (Hf st H) as Hf1. specialize (Ha st H) as Ha1.
  destruct (p st) as [b st1]. simpl in *. destruct b; [|done].
  specialize (Ha1 eq_refl). apply IH; lia.
Qed.

Lemma while_count_fuel p fuel k n st :
  Forward p → Advances p → (m_current st <= len)%nat → (len - m_current st < fuel)%nat →
  while_count (fuel + k) p n st = while_count fuel p n st.
Proof.
  intros Hf Ha. revert n st. induction fuel as [|fuel IH]; intros n st H Hfuel; [lia|]. simpl.
  specialize (Hf st H) as Hf1. specialize (Ha st H) as Ha1.
  destruct (p st) as [b st1]. simpl in *. destruct b; [|done].
  specialize (Ha1 eq_refl). apply IH; lia.
Qed.

(** ** The cursor-only methods *)

Ltac by_parts := unfold match_pchar, match_alphanum, match_alpha, match_digit,
  match_unreserved, slash_segments; apply _.

#[export] Instance keeps_pchar : Keeps (match_pchar input).
Proof. by_parts. Qed.
#[export] Instance forward_pchar : Forward (match_pchar input).
Proof. by_parts. Qed.
#[export] Instance advances_pchar : Advances (match_pchar input).
Proof. by_parts. Qed.
#[export] Instance restores_pchar : Restores (match_pchar input).
Proof. by_parts. Qed.

(** A method that runs a loop and returns true. *)
Lemma keeps_true f : Keeps_st f → Keeps (λ st, (true, f st)).
Proof. intros Hf st. apply Hf. Qed.
Lemma forward_true f : Forward_st f → Forward (λ st, (true, f st)).
Proof. intros Hf st H. by apply Hf. Qed.
Lemma restores_true f : Restores (λ st, (true, f st)).
Proof. intros st. done. Qed.

#[export] Instance keeps_segment : Keeps (match_segment input).
Proof. apply keeps_true, _. Qed.
#[export] Instance forward_segment : Forward (match_segment input).
Proof. apply forward_true, _. Qed.
#[export] Instance keeps_query : Keeps (match_query_or_fragment input).
Proof. apply keeps_true, _. Qed.
#[export] Instance forward_query : Forward (match_query_or_fragment input).
Proof. apply forward_true, _. Qed.
#[export] Instance keeps_port : Keeps (match_port input).
Proof. unfold match_port. apply keeps_true. by_parts. Qed.
#[export] Instance forward_port : Forward (match_port input).
Proof. unfold match_port. apply forward_true. by_parts. Qed.
#[export] Instance keeps_userinfo : Keeps (match_userinfo input).
Proof. apply keeps_true, _. Qed.
#[export] Instance forward_userinfo : Forward (match_userinfo input).
Proof. apply forward_true, _. Qed.
#[export] Instance keeps_slash_segments : Keeps_st (slash_segments input).
Proof. apply keeps_while, _. Qed.
#[export] Instance forward_slash_segments : Forward_st (slash_segments input).
Proof. apply forward_while, _. Qed.

#[export] Instance keeps_segment_nz : Keeps (match_segment_nz input).
Proof.
  intros st. unfold match_segment_nz.
  destruct (while_count _ _ _ _) as [n st1] eqn:E. apply while_count_state in E as ->.
  cbn [snd]. apply keeps_while, _.
Qed.

#[export] Instance forward_segment_nz : Forward (match_segment_nz input).
Proof.
  intros st H. unfold match_segment_nz.
  destruct (while_count _ _ _ _) as [n st1] eqn:E. apply while_count_state in E as ->.
  cbn [snd]. by apply (forward_while _ _ _).
Qed.

#[export] Instance keeps_segment_nz_nc : Keeps (match_segment_nz_nc input).
Proof.
  intros st. unfold match_segment_nz_nc.
  destruct (while_count _ _ _ _) as [n st1] eqn:E. apply while_count_state in E as ->.
  cbn [snd]. apply keeps_while. by_parts.
Qed.

#[export] Instance forward_segment_nz_nc : Forward (match_segment_nz_nc input).
Proof.
  intros st H. unfold match_segment_nz_nc.
  destruct (while_count _ _ _ _) as [n st1] eqn:E. apply while_count_state in E as ->.
  cbn [snd]. simple refine (forward_while _ _ _ st H); by_parts.
Qed.

(** ** Host names *)

Lemma keeps_label_loop fuel r st : m_result (label_loop input fuel r st).2 = m_result st.
Proof.
  revert r st. induction fuel as [|fuel IH]; intros r st; simpl; [done|].
  pose proof (keeps_byteset bs_alphanum (while_ (loop_fuel input) (match_literal input (chr "-")) st))
    as Hk.
  unfold match_alphanum. destruct (match_byteset input bs_alphanum _) as [b st2]. simpl in Hk.
  assert (m_result st2 = m_result st) by (rewrite Hk; apply keeps_while, _).
  destruct b; simpl; [by rewrite IH|done].
Qed.

Lemma forward_label_loop fuel r st :
  (m_current st <= len)%nat →
  (m_current st <= m_current (label_loop input fuel r st).2 <= len)%nat.
Proof.
  revert r st. induction fuel as [|fuel IH]; intros r st H; simpl; [lia|].
  pose proof (forward_while (loop_fuel input) (match_literal input (chr "-")) _ st H) as Hw.
  unfold match_alphanum.
  pose proof (forward_byteset bs_alphanum
    (while_ (loop_fuel input) (match_literal input (chr "-")) st)) as Hk.
  destruct (match_byteset input bs_alphanum _) as [b st2]. simpl in Hk.
  destruct b; simpl; [specialize (IH true st2)|]; lia.
Qed.

Lemma label_loop_fuel fuel k r st :
  (m_current st <= len)%nat → (len - m_current st < fuel)%nat →
  label_loop input (fuel + k) r st = label_loop input fuel r st.
Proof.
  revert r st. induction fuel as [|fuel IH]; intros r st H Hfuel; [lia|]. cbn [Nat.add label_loop].
  pose proof (forward_while (loop_fuel input) (match_literal input (chr "-")) _ st H) as Hw.
  set (st1 := while_ _ _ st) in *. clearbody st1. unfold match_alphanum.
  pose proof (forward_byteset bs_alphanum st1) as Hf.
  pose proof (advances_byteset bs_alphanum st1) as Ha.
  destruct (match_byteset input bs_alphanum st1) as [[] st2]; cbn in *; [|done].
  specialize (Ha ltac:(lia) eq_refl). apply IH; lia.
Qed.

#[export] Instance keeps_label_tail : Keeps_st (label_tail input).
Proof.
  intros st. unfold label_tail. pose proof (keeps_label_loop (loop_fuel input) false st) as H.
  destruct (label_loop _ _ _ _) as [[] st1]; done.
Qed.

#[export] Instance forward_label_tail : Forward_st (label_tail input).
Proof.
  intros st Hst. unfold label_tail.
  pose proof (forward_label_loop (loop_fuel input) false st Hst) as H.
  destruct (label_loop _ _ _ _) as [[] st1]; simpl in *; lia.
Qed.

#[export] Instance keeps_label p : Keeps p → Keeps (label_body input p).
Proof.
  intros Hp st. unfold label_body, with_Result. specialize (Hp st).
  destruct (p st) as [[] st1]; simpl in *; [|done].
  rewrite <- Hp. apply keeps_label_tail.
Qed.

#[export] Instance forward_label p : Forward p → Forward (label_body input p).
Proof.
  intros Hp st H. unfold label_body, with_Result. specialize (Hp st H).
  destruct (p st) as [[] st1]; simpl in *; [|lia].
  pose proof (forward_label_tail st1). lia.
Qed.

#[export] Instance advances_label p : Forward p → Advances p → Advances (label_body input p).
Proof.
  intros Hf Hp st H. unfold label_body, with_Result. specialize (Hp st H). specialize (Hf st H).
  destruct (p st) as [[] st1]; simpl in *; [|done]. intros _. specialize (Hp eq_refl).
  pose proof (forward_label_tail st1). lia.
Qed.

#[export] Instance keeps_domainlabel : Keeps (match_domainlabel input).
Proof. unfold match_domainlabel. by_parts. Qed.
#[export] Instance forward_domainlabel : Forward (match_domainlabel input).
Proof. unfold match_domainlabel. by_parts. Qed.
#[export] Instance advances_domainlabel : Advances (match_domainlabel input).
Proof. unfold match_domainlabel. by_parts. Qed.
#[export] Instance keeps_toplabel : Keeps (match_toplabel input).
Proof. unfold match_toplabel. by_parts. Qed.
#[export] Instance forward_toplabel : Forward (match_toplabel input).
Proof. unfold match_toplabel. by_parts. Qed.

#[export] Instance keeps_hostname : Keeps (match_hostname input).
Proof.
  intros st. unfold match_hostname, with_Result, assign.
  set (st1 := while_ _ _ _).
  assert (H1 : m_result st1 = m_result st).
  { apply keeps_while, _. }
  pose proof (keeps (p := match_toplabel input) st1) as H2.
  destruct (match_toplabel input st1) as [[] st2]; simpl in *; [|congruence].
  rewrite keeps_literal. congruence.
Qed.

#[export] Instance forward_hostname : Forward (match_hostname input).
Proof.
  intros st H. unfold match_hostname, with_Result, assign.
  set (st1 := while_ _ _ _).
  assert (H1 : (m_current st <= m_current st1 <= len)%nat).
  { by apply (forward_while _ _ _). }
  assert (H2 : (m_current st1 <= m_current (match_toplabel input st1).2 <= len)%nat).
  { apply (forward_toplabel st1). lia. }
  destruct (match_toplabel input st1) as [[] st2]; simpl in *; [|lia].
  pose proof (forward_literal (chr ".") st2). lia.
Qed.

#[export] Instance restores_hostname : Restores (match_hostname input).
Proof.
  intros st. unfold match_hostname, with_Result. by destruct (assign _ _ _) as [[] ?].
Qed.

Lemma ipv4_field_facts st st1 :
  (m_current st <= len)%nat → ipv4_field input st = Some st1 →
  m_result st1 = m_result st ∧ (m_current st <= m_current st1 <= len)%nat.
Proof.
  intros H. unfold ipv4_field, match_digit.
  pose proof (keeps_byteset bs_digit st) as Hk.
  pose proof (forward_byteset bs_digit st H) as Hf.
  destruct (match_byteset input bs_digit st) as [[] st2]; simpl in *; [|intros [= <-]; done].
  set (st3 := while_ _ _ st2).
  assert (Hk3 : m_result st3 = m_result st2) by (apply keeps_while, _).
  assert (Hf3 : (m_current st2 <= m_current st3 <= len)%nat) by (apply (forward_while _ _ _); lia).
  pose proof (keeps_literal (chr ".") st3) as Hk4.
  pose proof (forward_literal (chr ".") st3 ltac:(lia)) as Hf4.
  destruct (match_literal input (chr ".") st3) as [[] st4]; simpl in *; [|done].
  intros [= <-]. split; [congruence|lia].
Qed.

Lemma ipv4_fields_facts st st3 :
  (m_current st <= len)%nat →
  (ipv4_field input st ≫= ipv4_field input) ≫= ipv4_field input = Some st3 →
  m_result st3 = m_result st ∧ (m_current st <= m_current st3 <= len)%nat.
Proof.
  intros H E. apply bind_Some in E as (st2 & E2 & E3). apply bind_Some in E2 as (st1 & E1 & E2).
  apply ipv4_field_facts in E1 as [? ?]; [|done]. apply ipv4_field_facts in E2 as [? ?]; [|lia].
  apply ipv4_field_facts in E3 as [? ?]; [|lia]. split; [congruence|lia].
Qed.

Lemma ipv4_facts st :
  (m_current st <= len)%nat →
  m_result (match_IPv4address input st).2 = m_result st ∧
  (m_current st <= m_current (match_IPv4address input st).2 <= len)%nat.
Proof.
  intros H. unfold match_IPv4address, with_Result, match_digit.
  destruct (_ ≫= _) as [st3|] eqn:E; [|simpl; split; [done|lia]].
  apply ipv4_fields_facts in E as [Hk Hf]; [|done].
  pose proof (keeps_byteset bs_digit st3) as Hk3.
  pose proof (forward_byteset bs_digit st3 ltac:(lia)) as Hf3.
  destruct (match_byteset input bs_digit st3) as [[] st4]; simpl in *;
    [|split; [congruence|lia]].
  pose proof (keeps_while (loop_fuel input) (match_byteset input bs_digit) _ st4).
  pose proof (forward_while (loop_fuel input) (match_byteset input bs_digit) _ st4).
  split; [congruence|lia].
Qed.

(** [match_host] writes exactly the host it consumed. *)
Lemma match_host_spec st :
  (m_current st <= len)%nat →
  let '(b, st1) := match_host input st in
  (m_current st <= m_current st1 <= len)%nat ∧
  (b = true →
   m_result st1 = SetHost (slice input (m_current st) (m_current st1 - m_current st)) (m_result st)).
Proof.
  intros H. unfold match_host, or_else, match_reg_name, match_IP_literal.
  pose proof (keeps_hostname st) as Hk. pose proof (forward_hostname st H) as Hf.
  destruct (match_hostname input st) as [[] st1]; simpl in *; [split; [lia|congruence]|].
  pose proof (restores_hostname st) as Hr.
  destruct (ipv4_facts st1) as [Hk2 Hf2]; [lia|].
  destruct (match_IPv4address input st1) as [[] st2]; simpl in *; [split; [lia|]|split; [lia|done]].
  intros _. congruence.
Qed.

End Facts.
