(* ===== verification/UriRoundTrip.v ===== *)
(** * What the URI parser accepts

    [ToString] is a left inverse of a successful [Parse]: every component is
    written exactly once, from exactly the characters that the cursor moved
    over.  The method specifications below say, for each [match_*] method
    that writes, which part of the buffer it consumed and what it stored. *)

From S2P Require Import Prelude CType ByteSet Percent Uri UriParser UriParserFacts.

(** ** [ToString] by components *)

Definition scheme_string (u : URI) : bytes :=
  match m_scheme u with [] => [] | s => s ++ str ":" end.
Definition authority_string (a : UriAuthority) : bytes :=
  (if a_has_user_info a then a_user_info a ++ str "@" else []) ++ a_host a ++
  (if a_has_port a then str ":" ++ a_port a else []).
Definition opt_string (b : bool) (prefix s : bytes) : bytes := if b then prefix ++ s else [].

Lemma ToString_parts u :
  ToString u =
  scheme_string u ++
  opt_string (m_has_authority u) (str "//") (authority_string (m_authority u)) ++
  m_path u ++
  opt_string (m_has_query u) (str "?") (m_query u) ++
  opt_string (m_has_fragment u) (str "#") (m_fragment u).
Proof.
  unfold ToString, scheme_string, authority_string, opt_string, HasUserInfo, HasPort,
    UserInfo, Port, Host.
  destruct u as [ha hq hf [|c s] [hu hp us h p] pa q f]; cbn;
    destruct ha, hq, hf, hu, hp; cbn; rewrite ?app_nil_r;
    by rewrite ?(assoc_L (++)), <- ?(assoc_L (++)); cbn; rewrite <- ?(assoc_L (++)).
Qed.

Lemma Clear_new u : Clear u = new_URI.
Proof. done. Qed.

Section Spec.

Context (input : bytes).
Local Abbreviation len := (length input).

(** The part of the buffer between two cursors. *)
Definition span (i j : nat) : bytes := slice input i (j - i).
Arguments span : simpl never.
Arguments slice : simpl never.

Lemma span_app i j k : (i <= j <= k)%nat → span i j ++ span j k = span i k.
Proof.
  intros H. unfold span, slice. replace (k - i)%nat with ((j - i) + (k - j))%nat by lia.
  rewrite <- take_take_drop, drop_drop. by replace (i + (j - i))%nat with j by lia.
Qed.

Lemma span_nil i : span i i = [].
Proof. unfold span, slice. by rewrite Nat.sub_diag. Qed.

Lemma span_all : span 0 len = input.
Proof. unfold span, slice. by rewrite drop_0, Nat.sub_0_r, take_ge. Qed.

Lemma span_length i j : (i <= j <= len)%nat → length (span i j) = (j - i)%nat.
Proof. intros. unfold span, slice. rewrite length_take, length_drop. lia. Qed.

Lemma span_one i c : input !! i = Some c → span i (i + 1) = [c].
Proof.
  intros E. unfold span, slice. rewrite (drop_S _ _ _ E).
  by replace (i + 1 - i)%nat with 1%nat by lia.
Qed.

(** ** Specifications of the writing methods *)

Lemma literal_true c st st1 :
  match_literal input c st = (true, st1) →
  input !! m_current st = Some c ∧ st1 = set_current (m_current st + 1) st ∧
  span (m_current st) (m_current st1) = [c].
Proof.
  unfold match_literal. destruct (input !! m_current st) as [x|] eqn:E; [|done].
  case_match; [|done]. bool_to_prop. subst x. intros [= <-]. split_and!; [done..|]. by apply span_one.
Qed.

Lemma literal_str_true l st st1 :
  match_literal_str input l st = (true, st1) →
  st1 = set_current (m_current st + length l) st ∧ span (m_current st) (m_current st1) = l.
Proof.
  unfold match_literal_str. case_bool_decide as E; [|done]. intros [= <-]. split; [done|].
  cbn. unfold span. by replace (m_current st + length l - m_current st)%nat with (length l) by lia.
Qed.

(** An optional component: nothing, or its introducing character followed by
    what is stored. *)
Lemma optional_after_spec c p set st :
  Keeps p → Forward input p → (m_current st <= len)%nat →
  let st1 := optional_after input c p set st in
  (m_current st <= m_current st1 <= len)%nat ∧
  (m_result st1 = m_result st ∧ m_current st1 = m_current st ∨
   ∃ v, m_result st1 = set v (m_result st) ∧ span (m_current st) (m_current st1) = c :: v).
Proof.
  intros Hk Hf H. unfold optional_after. rewrite attempt_eq. unfold and_then.
  destruct (match_literal input c st) as [[] st1] eqn:E1.
  2: { simpl. pose proof (keeps_literal input c st) as Hk1. rewrite E1 in Hk1. auto with lia. }
  apply literal_true in E1 as (E1 & -> & Hs). cbn in *.
  specialize (Hk (set_current (m_current st + 1) st)).
  specialize (Hf (set_current (m_current st + 1) st)). cbn in *.
  apply lookup_lt_Some in E1. specialize (Hf ltac:(lia)).
  destruct (p _) as [[] st2]; cbn in *; [|auto with lia].
  split; [lia|right]. eexists. rewrite Hk. split; [done|].
  rewrite <- (span_app _ (m_current st + 1)) by lia. rewrite Hs. cbn. f_equal. unfold span. f_equal. lia.
Qed.

Lemma optional_set st c p set :
  Keeps p → Forward input p → (m_current st <= len)%nat →
  ∃ o, let st1 := optional_after input c p set st in
    (m_current st <= m_current st1 <= len)%nat ∧
    m_result st1 = from_option set id o (m_result st) ∧
    span (m_current st) (m_current st1) = from_option (cons c) [] o.
Proof.
  intros Hk Hf H. destruct (optional_after_spec c p set st Hk Hf H) as [Hc [[Hr He]|(v & Hr & He)]].
  - exists None. split; [done|]. split; [done|]. rewrite He. apply span_nil.
  - by exists (Some v).
Qed.

(** The user information, when there is some, and the at sign after it. *)
Lemma user_info_set st :
  (m_current st <= len)%nat →
  ∃ o, let st1 := match_authority_user_info input st in
    (m_current st <= m_current st1 <= len)%nat ∧
    m_result st1 = from_option SetUserInfo id o (m_result st) ∧
    span (m_current st) (m_current st1) = from_option (λ v, v ++ str "@") [] o.
Proof.
  intros H. unfold match_authority_user_info.
  assert (Hnone : (m_current st <= m_current st <= len)%nat ∧
    m_result st = m_result st ∧ span (m_current st) (m_current st) = []) by (rewrite span_nil; auto).
  case_match; [|by exists None]. rewrite attempt_eq. unfold and_then.
  pose proof (keeps_userinfo input st) as Hk. pose proof (forward_userinfo input st H) as Hf.
  destruct (match_userinfo input st) as [[] st1]; cbn in *; [|by exists None; cbn; rewrite Hk].
  destruct (match_literal input _ st1) as [[] st2] eqn:E; cbn in *.
  2: { pose proof (keeps_literal input (chr "@") st1) as Hk2. rewrite E in Hk2. cbn in Hk2.
       exists None. cbn. rewrite Hk2, Hk. done. }
  apply literal_true in E as (E & -> & Hs). cbn in *. apply lookup_lt_Some in E.
  eexists (Some _). cbn. rewrite Hk. split; [lia|]. split; [done|].
  rewrite <- (span_app _ (m_current st1)), Hs by lia. f_equal. unfold span. f_equal. lia.
Qed.

(** [match_authority] stores the authority it consumed. *)
Lemma match_authority_true st st1 :
  (m_current st <= len)%nat → m_authority (m_result st) = new_authority →
  match_authority input st = (true, st1) →
  (m_current st <= m_current st1 <= len)%nat ∧
  ∃ a, m_result st1 = SetAuthority a (m_result st) ∧
       span (m_current st) (m_current st1) = authority_string a.
Proof.
  intros H Hnew. unfold match_authority.
  destruct (user_info_set st H) as (o1 & Hc1 & Hr1 & Hs1). set (st2 := match_authority_user_info _ _) in *.
  pose proof (match_host_spec input st2 ltac:(lia)) as Hh.
  destruct (match_host input st2) as [[] st3]; [|done]. destruct Hh as [Hc2 Hr2].
  specialize (Hr2 eq_refl). intros [= <-].
  destruct (optional_set st3 (chr ":") (match_port input) SetPort _ _ ltac:(lia)) as (o3 & Hc3 & Hr3 & Hs3).
  split; [lia|].
  exists (mkAuthority (bool_decide (is_Some o1)) (bool_decide (is_Some o3)) (default [] o1)
            (span (m_current st2) (m_current st3)) (default [] o3)).
  split.
  - rewrite Hr3, Hr2, Hr1. destruct (m_result st) as [ha hq hf s a p q f]; cbn in Hnew; subst a.
    by destruct o1, o3.
  - rewrite <- (span_app _ (m_current st2)), <- (span_app (m_current st2) (m_current st3)), Hs1, Hs3 by lia.
    by destruct o1, o3.
Qed.

(** ** Paths *)

(** A character that starts neither a query nor a fragment. *)
Definition in_path (x : Z) : Prop := x ≠ chr "?" ∧ x ≠ chr "#".

(** A match of [p] begins with such a character. *)
Class Starts (p : parser) : Prop := starts st st1 :
  p st = (true, st1) → ∃ x, input !! m_current st = Some x ∧ in_path x.

Lemma starts_literal c : in_path c → Starts (match_literal input c).
Proof. intros H st st1 E. apply literal_true in E as (E & _). eauto. Qed.

Lemma starts_byteset cs :
  Find cs (chr "?") = false → Find cs (chr "#") = false → Starts (match_byteset input cs).
Proof.
  intros H1 H2 st st1. unfold match_byteset. destruct (input !! m_current st) as [x|]; [|done].
  case_match; [|done]. intros _. exists x. split; [done|]. split; congruence.
Qed.

#[export] Instance starts_pct : Starts (match_pct_encoded input).
Proof.
  intros st st1. unfold match_pct_encoded, char_is at 1.
  destruct (input !! m_current st) as [x|]; [|by rewrite andb_false_r].
  destruct (2 <? _)%nat; [|done]. destruct (x =? chr "%") eqn:E; [|done].
  bool_to_prop. subst x. intros _. eexists. by split.
Qed.

#[export] Instance starts_or p q : Starts p → Restores q → Restores p → Starts q → Starts (p ||| q).
Proof.
  intros Hp Hrq Hrp Hq st st1. unfold or_else. destruct (p st) as [[] st2] eqn:E.
  - intros [= ->]. eauto.
  - intros E2. specialize (Hrp st). rewrite E in Hrp. specialize (Hrp eq_refl). cbn in Hrp.
    rewrite <- Hrp. eauto.
Qed.

#[export] Instance starts_attempt p : Starts p → Starts (attempt p).
Proof.
  intros Hp st st1. rewrite attempt_eq. destruct (p st) as [[] st2] eqn:E; cbn; [|done].
  intros [= ->]. eauto.
Qed.

(** A counted loop that did not iterate left the cursor where it was; one
    that did began with a character of its body. *)
Lemma while_count_first p st n st1 :
  Starts p → Restores p →
  while_count (loop_fuel input) p 0 st = (n, st1) →
  match n with
  | O => m_current st1 = m_current st
  | S _ => ∃ x, input !! m_current st = Some x ∧ in_path x
  end.
Proof.
  intros Hs Hr. rewrite loop_fuel_S. cbn [while_count].
  destruct (p st) as [[] st2] eqn:E.
  - intros E2%while_count_ge. destruct n; [lia|eauto].
  - intros [= <- <-]. specialize (Hr st). rewrite E in Hr. auto.
Qed.

(** A path method stores the path it consumed; unless that is empty, it
    starts with a path character. *)
Class PathMethod (p : parser) : Prop := path_method st : (m_current st <= len)%nat →
  let '(b, st1) := p st in
  (m_current st <= m_current st1 <= len)%nat ∧
  if b then
    m_result st1 = SetPath (span (m_current st) (m_current st1)) (m_result st) ∧
    (span (m_current st) (m_current st1) = [] ∨
     ∃ x, input !! m_current st = Some x ∧ in_path x)
  else m_result st1 = m_result st ∧ m_current st1 = m_current st.

(** The common shape of the methods for a path with a first segment. *)
Lemma path_of_segments p (f : pstate → pstate) :
  Keeps p → Forward input p → Keeps_st f → Forward_st input f →
  (∀ st, if (p st).1 then ∃ x, input !! m_current st = Some x ∧ in_path x
         else m_current (p st).2 = m_current st) →
  PathMethod (λ st, let '(b, st1) := p st in
    if b then set_path_from input (m_current st) (f st1) else (false, st1)).
Proof.
  intros Hk Hf Hks Hfs Hst st H. specialize (Hst st). specialize (Hk st). specialize (Hf st H).
  destruct (p st) as [[] st1]; cbn in *; [|split; [lia|done]].
  specialize (Hks st1). specialize (Hfs st1). cbn. split; [lia|]. rewrite Hks, Hk. auto.
Qed.

Ltac first_segment :=
  let st := fresh "st" in intros st;
  match goal with |- context [while_count ?f ?p ?n st] =>
    let m := fresh "m" in let st1 := fresh "st" in let E := fresh "E" in
    destruct (while_count f p n st) as [m st1] eqn:E;
    apply while_count_first in E; [|apply _..]; destruct m; cbn; auto
  end.

#[export] Instance path_rootless : PathMethod (match_path_rootless input).
Proof.
  apply (path_of_segments (match_segment_nz input) (slash_segments input)); try apply _.
  assert (Starts (match_byteset input bs_pchar)) by (apply starts_byteset; by vm_compute).
  unfold match_segment_nz, match_pchar. first_segment.
Qed.

#[export] Instance path_noscheme : PathMethod (match_path_noscheme input).
Proof.
  apply (path_of_segments (match_segment_nz_nc input) (slash_segments input)); try apply _.
  assert (Starts (match_byteset input bs_unreserved)) by (apply starts_byteset; by vm_compute).
  assert (Starts (match_byteset input bs_sub_delims)) by (apply starts_byteset; by vm_compute).
  assert (Starts (match_literal input (chr "@"))) by (by apply starts_literal).
  unfold match_segment_nz_nc, match_unreserved. first_segment.
Qed.

#[export] Instance path_empty : PathMethod match_path_empty.
Proof. intros st H. cbn. rewrite span_nil. auto with lia. Qed.

#[export] Instance path_absolute : PathMethod (match_path_absolute input).
Proof.
  assert (Hs : Starts (match_literal input (chr "/"))) by (by apply starts_literal).
  intros st H. unfold match_path_absolute.
  pose proof (keeps_literal input (chr "/") st) as Hk.
  pose proof (forward_literal input (chr "/") st H) as Hf.
  pose proof (restores_literal input (chr "/") st) as Hr.
  destruct (match_literal input (chr "/") st) as [[] st1] eqn:E; cbn in *; [|auto with lia].
  apply Hs in E. pose proof (keeps_segment_nz input st1) as Hk2.
  pose proof (forward_segment_nz input st1 ltac:(lia)) as Hf2.
  destruct (match_segment_nz input st1) as [[] st2]; cbn in *.
  - pose proof (keeps_slash_segments input st2) as Hk3.
    pose proof (forward_slash_segments input st2). split; [lia|]. rewrite Hk3, Hk2, Hk. auto.
  - split; [lia|]. rewrite Hk2, Hk. auto.
Qed.

#[export] Instance path_or p q : PathMethod p → PathMethod q → PathMethod (p ||| q).
Proof.
  intros Hp Hq st H. unfold or_else. specialize (Hp st H). destruct (p st) as [[] st1]; [done|].
  destruct Hp as (_ & Hr & Hc). specialize (Hq st1 ltac:(lia)).
  by rewrite Hr, Hc in Hq.
Qed.

(** ** The top of the grammar *)

Lemma path_abempty_spec st : (m_current st <= len)%nat →
  let st1 := (match_path_abempty input st).2 in
  (m_current st <= m_current st1 <= len)%nat ∧
  m_result st1 = SetPath (span (m_current st) (m_current st1)) (m_result st).
Proof.
  intros H. cbn. rewrite keeps_slash_segments. split; [|done].
  by apply forward_slash_segments.
Qed.

(** [match_literal_str("//") && match_authority() && match_path_abempty()] *)
Lemma hier_true st st1 :
  (m_current st <= len)%nat → m_authority (m_result st) = new_authority →
  (match_literal_str input (str "//") &&& match_authority input &&& match_path_abempty input) st
    = (true, st1) →
  (m_current st <= m_current st1 <= len)%nat ∧
  ∃ a p, m_result st1 = SetPath p (SetAuthority a (m_result st)) ∧
    span (m_current st) (m_current st1) = str "//" ++ authority_string a ++ p.
Proof.
  intros H Hnew. unfold and_then.
  pose proof (forward_literal_str input (str "//") st H) as Hf.
  destruct (match_literal_str input _ st) as [[] st2] eqn:E1; [|done].
  apply literal_str_true in E1 as [-> Hs]. cbn in Hf.
  destruct (match_authority input _) as [[] st3] eqn:E2; [|done].
  apply match_authority_true in E2 as (Hc & a & Ha & Hsa); [|cbn; lia|done].
  pose proof (path_abempty_spec st3 ltac:(lia)) as [Hc3 Hp].
  intros E3. rewrite E3 in Hc3, Hp. cbn in *. split; [lia|].
  eexists a, _. rewrite Hp, Ha. split; [done|].
  rewrite <- (span_app _ (m_current st + 2)), Hs by lia.
  by rewrite <- (span_app _ (m_current st3)), Hsa by lia.
Qed.

Lemma pchar_slash st :
  input !! m_current st = Some (chr "/") → match_pchar input st = (false, st).
Proof.
  intros E. unfold match_pchar, or_else, match_byteset, match_pct_encoded, char_is at 1. rewrite E.
  replace (Find bs_pchar (chr "/")) with false by (by vm_compute). rewrite E.
  by destruct (2 <? _)%nat.
Qed.

Lemma double_slash st st1 :
  match_literal_str input (str "//") st = (true, st1) →
  input !! m_current st = Some (chr "/") ∧ input !! S (m_current st) = Some (chr "/").
Proof.
  unfold match_literal_str. case_bool_decide as E; [|done]. intros _.
  assert (Hl : ∀ k, (k < 2)%nat → input !! (m_current st + k)%nat = str "//" !! k).
  { intros k Hk. by rewrite <- E, <- lookup_drop, <- (lookup_take_lt _ 2 k) by done. }
  split; [rewrite <- (Nat.add_0_r (m_current st)) | rewrite <- Nat.add_1_r]; rewrite Hl by lia; done.
Qed.

(** On two slashes [match_path_absolute] takes the first one only. *)
Lemma path_absolute_double_slash st :
  input !! m_current st = Some (chr "/") → input !! S (m_current st) = Some (chr "/") →
  ∃ st1, match_path_absolute input st = (true, st1) ∧ m_current st1 = S (m_current st).
Proof.
  intros E1 E2. unfold match_path_absolute, match_literal. rewrite E1, Z.eqb_refl.
  unfold match_segment_nz. rewrite loop_fuel_S. cbn [while_count].
  rewrite pchar_slash by (cbn; by rewrite Nat.add_1_r). eexists. split; [done|]. cbn. lia.
Qed.

Definition authority_and_path : parser :=
  match_literal_str input (str "//") &&& match_authority input &&& match_path_abempty input.

(** Without an authority, either the buffer has no double slash and the path
    is what was consumed, or the cursor is left between two slashes. *)
Lemma no_authority_spec q st b0 st0 b1 st1 : PathMethod q →
  (m_current st <= len)%nat →
  assign (m_current st) authority_and_path st = (b0, st0) → b0 = false →
  (match_path_absolute input ||| q ||| match_path_empty) st0 = (b1, st1) →
  b1 = true ∧
  ((m_current st <= m_current st1 <= len)%nat ∧
   m_result st1 = SetPath (span (m_current st) (m_current st1)) (m_result st) ∧
   (span (m_current st) (m_current st1) = [] ∨ ∃ x, input !! m_current st = Some x ∧ in_path x) ∨
   input !! m_current st = Some (chr "/") ∧ m_current st1 = S (m_current st) ∧
   input !! m_current st1 = Some (chr "/")).
Proof.
  intros Hq H E0 -> E1.
  assert (Hb : b1 = true).
  { unfold or_else, match_path_empty in E1. destruct (match_path_absolute _ _) as [[] ?];
      [congruence|]. destruct (q _) as [[] ?]; congruence. }
  split; [done|]. subst b1. unfold assign, authority_and_path, and_then in E0.
  destruct (match_literal_str input (str "//") st) as [[] st2] eqn:E2.
  - right. apply double_slash in E2 as [Ha Hb].
    assert (m_current st0 = m_current st) as Hc.
    { destruct (match_authority input st2) as [[] st3]; [|by injection E0 as <-]. cbn in E0. congruence. }
    destruct (path_absolute_double_slash st0) as (st4 & E4 & Hc4); [by rewrite Hc..|].
    unfold or_else in E1. rewrite E4 in E1. injection E1 as <-. by rewrite Hc4, Hc.
  - left. assert (E : st2 = st).
    { unfold match_literal_str in E2. case_match; congruence. }
    subst st2. injection E0 as <-. 
    pose proof (path_method (p := match_path_absolute input ||| q ||| match_path_empty)
      (set_current (m_current st) st) H) as Hp.
    rewrite E1 in Hp. exact Hp.
Qed.

Lemma scheme_and_colon_spec st : (m_current st <= len)%nat →
  let '(b, st1) := match_scheme_and_colon input st in
  if b then
    (m_current st <= m_current st1 <= len)%nat ∧
    ∃ s, s ≠ [] ∧ m_result st1 = SetScheme s (m_result st) ∧
         span (m_current st) (m_current st1) = s ++ str ":"
  else m_current st1 = m_current st ∧ m_result st1 = m_result st.
Proof.
  intros H. unfold match_scheme_and_colon, with_Result, assign, match_alpha.
  pose proof (keeps_byteset input bs_alpha st) as Hk.
  pose proof (forward_byteset input bs_alpha st H) as Hf.
  pose proof (advances_byteset input bs_alpha st H) as Ha.
  destruct (match_byteset input bs_alpha st) as [[] st1]; cbn in *; [|done].
  specialize (Ha eq_refl). set (st2 := while_ _ _ _).
  assert (Hk2 : m_result st2 = m_result st1) by (apply keeps_while, _).
  pose proof (forward_while input (loop_fuel input) (match_byteset input bs_scheme) _ st1) as Hf2.
  fold st2 in Hf2. clearbody st2. specialize (Hf2 ltac:(lia)).
  pose proof (keeps_literal input (chr ":") st2) as Hk3.
  destruct (match_literal input (chr ":") st2) as [[] st3] eqn:E; cbn in *; [|split; congruence].
  apply literal_true in E as (E & -> & Hs). apply lookup_lt_Some in E. cbn in *.
  split; [lia|]. exists (span (m_current st) (m_current st2)). split_and!.
  - intros E2. apply (f_equal length) in E2. rewrite span_length in E2 by lia. cbn in E2. lia.
  - rewrite Hk2, Hk. unfold span. do 2 f_equal. lia.
  - rewrite <- (span_app _ (m_current st2)), Hs by lia. done.
Qed.

(** What is stored by a hierarchical part or a relative part whose end is
    not followed by a slash: the authority and path that were consumed, or
    just a path. *)
Definition stored_part (i j : nat) (u u' : URI) : Prop :=
  (∃ a p, u' = SetPath p (SetAuthority a u) ∧ span i j = str "//" ++ authority_string a ++ p) ∨
  u' = SetPath (span i j) u.

Lemma hier_part_spec st b st1 :
  (m_current st <= len)%nat → m_authority (m_result st) = new_authority →
  match_hier_part input st = (b, st1) →
  b = true ∧
  ((m_current st <= m_current st1 <= len)%nat ∧
   (∃ a p, m_result st1 = SetPath p (SetAuthority a (m_result st)) ∧
      span (m_current st) (m_current st1) = str "//" ++ authority_string a ++ p) ∨
   m_current st1 = m_current st ∧
   (m_result st1 = SetPath [] (m_result st) ∨
    ∃ x, input !! m_current st = Some x ∧ in_path x)).
Proof.
  intros H Hnew. unfold match_hier_part, with_Result. fold authority_and_path.
  destruct (assign _ authority_and_path st) as [b0 st2] eqn:E0. destruct b0.
  - intros [= <- <-]. split; [done|left]. unfold assign in E0.
    destruct (authority_and_path st) as [[] st3] eqn:E; [|done]. injection E0 as ->.
    by apply hier_true.
  - destruct ((match_path_absolute input ||| match_path_rootless input ||| match_path_empty) st2)
      as [b3 st3] eqn:E3.
    eapply (no_authority_spec (match_path_rootless input)) in E3 as [-> Hc]; [|apply _|done..].
    intros [= <- <-]. split; [done|right]. split; [done|]. cbn.
    destruct Hc as [(? & -> & [->|?])|(Hx & _)]; auto. right. exists (chr "/"). by split.
Qed.

Lemma relative_part_spec st b st1 :
  (m_current st <= len)%nat → m_authority (m_result st) = new_authority →
  match_relative_part input st = (b, st1) →
  b = true ∧
  ((m_current st <= m_current st1 <= len)%nat ∧
   stored_part (m_current st) (m_current st1) (m_result st) (m_result st1) ∨
   (m_current st <= m_current st1)%nat ∧ input !! m_current st1 = Some (chr "/")).
Proof.
  intros H Hnew. unfold match_relative_part, with_Result. fold authority_and_path.
  destruct (assign _ authority_and_path st) as [b0 st2] eqn:E0. destruct b0.
  - intros [= <- <-]. split; [done|left]. unfold assign in E0.
    destruct (authority_and_path st) as [[] st3] eqn:E; [|done]. injection E0 as ->.
    apply hier_true in E as [? ?]; [|done..]. split; [done|]. by left.
  - unfold assign at 1. destruct ((match_path_absolute input ||| match_path_noscheme input ||| match_path_empty) st2)
      as [b3 st3] eqn:E3.
    eapply (no_authority_spec (match_path_noscheme input)) in E3 as [-> Hc]; [|apply _|done..].
    intros [= <- <-]. split; [done|]. destruct Hc as [(? & Hr & _)|(_ & Hs & Hx)].
    + left. split; [done|]. by right.
    + right. split; [lia|done].
Qed.

Lemma span_head i j c v : span i j = c :: v → input !! i = Some c.
Proof.
  unfold span, slice. destruct (drop i input) as [|x l] eqn:E; [by rewrite take_nil|].
  destruct (j - i)%nat; [done|]. intros [= -> _].
  rewrite <- (Nat.add_0_r i), <- lookup_drop, E. done.
Qed.

(** An optional component stays away from a character that does not
    introduce it. *)
Lemma optional_stays c p set st x : Keeps p → Forward input p →
  input !! m_current st = Some x → x ≠ c → m_current (optional_after input c p set st) = m_current st.
Proof.
  intros Hk Hf E Hx. destruct (optional_after_spec c p set st Hk Hf) as [_ [[_ ?]|(v & _ & Hs)]];
    [apply lookup_lt_Some in E; lia|done|].
  apply span_head in Hs. congruence.
Qed.

End Spec.

Lemma ToString_optional oq ofr r :
  m_has_query r = false → m_has_fragment r = false →
  ToString (from_option SetFragment id ofr (from_option SetQuery id oq r)) =
  ToString r ++ from_option (cons (chr "?")) [] oq ++ from_option (cons (chr "#")) [] ofr.
Proof.
  intros H1 H2. rewrite !ToString_parts. destruct r; cbn in *; subst.
  destruct oq, ofr; cbn; rewrite ?app_nil_r, <- ?(assoc_L (++)); done.
Qed.

Lemma ToString_query oq r :
  m_has_query r = false → m_has_fragment r = false →
  ToString (from_option SetQuery id oq r) = ToString r ++ from_option (cons (chr "?")) [] oq.
Proof.
  intros H1 H2. pose proof (ToString_optional oq None r H1 H2) as H. by rewrite app_nil_r in H.
Qed.

(** ** Whole parses *)

Section Whole.

Context (input : bytes).
Local Abbreviation len := (length input).
Local Abbreviation start := (mkState 0 new_URI).

(** What a match that used up the buffer has produced. *)
Lemma match_URI_whole b st1 :
  match_URI input start = (b, st1) →
  if b then m_current st1 = len →
    ToString (m_result st1) = input ∧ m_scheme (m_result st1) ≠ [] ∧
    (m_has_authority (m_result st1) = false → m_path (m_result st1) = [])
  else st1 = start.
Proof.
  unfold match_URI, with_Result, assign, and_then.
  pose proof (scheme_and_colon_spec input start ltac:(cbn; lia)) as Hs.
  destruct (match_scheme_and_colon input start) as [[] st2].
  2: { destruct st2 as [c r]. cbn in Hs. destruct Hs as [-> ->]. by intros [= <- <-]. }
  destruct Hs as (Hc2 & sch & Hne & Hr2 & Hs2).
  destruct (match_hier_part input st2) as [bh st3] eqn:Eh.
  apply hier_part_spec in Eh as [-> Hh]; [|lia|by rewrite Hr2]. intros [= <- <-] Hend.
  assert (Hc3 : (m_current st2 <= m_current st3 <= len)%nat)
    by (destruct Hh as [[? _]|[? _]]; lia).
  destruct (optional_set input st3 (chr "?") (match_query input) SetQuery _ _ ltac:(lia))
    as (oq & Hcq & Hrq & Hsq).
  set (st4 := optional_after input (chr "?") _ _ st3) in *.
  destruct (optional_set input st4 (chr "#") (match_fragment input) SetFragment _ _ ltac:(lia))
    as (ofr & Hcf & Hrf & Hsf).
  assert (Hall : span input 0 len = sch ++ str ":" ++ span input (m_current st2) (m_current st3) ++
    from_option (cons (chr "?")) [] oq ++ from_option (cons (chr "#")) [] ofr).
  { rewrite <- Hsq, <- Hsf, Hend, !span_app by lia. cbn [m_current] in Hs2.
    rewrite (assoc_L (++)), <- Hs2. by rewrite span_app by (cbn in *; lia). }
  rewrite span_all in Hall. rewrite Hrf, Hrq, Hall.
  destruct Hh as [(_ & a & p & Hr3 & Hs3)|(Hc & [Hr3|(x & Ex & Hx1 & Hx2)])].
  - rewrite Hr3, Hr2. split_and!; [|by destruct oq, ofr|by destruct oq, ofr].
    rewrite ToString_optional by done. rewrite ToString_parts, Hs3. cbn.
    destruct sch; [done|]. app_norm. done.
  - rewrite Hr3, Hr2. split_and!; [|by destruct oq, ofr|by destruct oq, ofr].
    rewrite ToString_optional by done. rewrite ToString_parts, Hc, span_nil. cbn.
    destruct sch; [done|]. app_norm. done.
  - exfalso. rewrite <- Hc in Ex. 
    assert (E4 : m_current st4 = m_current st3) by (by apply (optional_stays _ _ _ _ _ x _ _)).
    rewrite (optional_stays _ _ _ _ _ x _ _) in Hend; [|by rewrite E4|done].
    apply lookup_lt_Some in Ex. lia.
Qed.

Lemma match_relative_ref_whole b st1 :
  match_relative_ref input start = (b, st1) → m_current st1 = len →
  ToString (m_result st1) = input ∧
  m_scheme (m_result st1) = [] ∧ m_has_fragment (m_result st1) = false.
Proof.
  unfold match_relative_ref, with_Result, assign.
  destruct (match_relative_part input start) as [bp st2] eqn:Ep.
  apply relative_part_spec in Ep as [-> Hp]; [|cbn; lia|done]. intros [= <- <-] Hend.
  destruct Hp as [[Hc2 Hp]|[Hle Hx]].
  - destruct (optional_set input st2 (chr "?") (match_query input) SetQuery _ _ ltac:(lia))
      as (oq & Hcq & Hrq & Hsq).
    assert (Hall : span input 0 len = span input 0 (m_current st2) ++ from_option (cons (chr "?")) [] oq).
    { rewrite <- Hsq, Hend. symmetry. apply span_app. lia. }
    rewrite span_all in Hall. rewrite Hrq, Hall.
    destruct Hp as [(a & p & Hr & Hs)|Hr]; rewrite Hr; cbn [m_current m_result] in *.
    + split_and!; [|by destruct oq..]. rewrite ToString_query, ToString_parts, Hs by done.
      app_norm. done.
    + split_and!; [|by destruct oq..]. rewrite ToString_query, ToString_parts by done.
      app_norm. done.
  - exfalso. rewrite (optional_stays _ _ _ _ _ _ _ _ Hx) in Hend by done.
    apply lookup_lt_Some in Hx. lia.
Qed.

(** ** Bounds of the cursor *)

Lemma forward_with_Result body :
  (∀ st, (m_current st <= len)%nat →
     (m_current st <= m_current (body (m_current st) st).2 <= len)%nat) →
  Forward input (with_Result body).
Proof.
  intros Hb st H. unfold with_Result. specialize (Hb st H).
  destruct (body _ st) as [[ret []] st1]; cbn in *; lia.
Qed.

Lemma forward_assign p st : Forward input p → (m_current st <= len)%nat →
  (m_current st <= m_current (assign (m_current st) p st).2 <= len)%nat.
Proof.
  intros Hp H. unfold assign. specialize (Hp st H). destruct (p st) as [[] st1]; cbn in *; lia.
Qed.

#[export] Instance forward_path p : PathMethod input p → Forward input p.
Proof. intros Hp st H. specialize (Hp st H). by destruct (p st) as [[] st1], Hp. Qed.

#[export] Instance forward_path_abempty : Forward input (match_path_abempty input).
Proof. intros st H. by apply path_abempty_spec. Qed.

#[export] Instance forward_authority : Forward input (match_authority input).
Proof.
  intros st H. unfold match_authority.
  destruct (user_info_set input st H) as (_ & Hc & _).
  pose proof (match_host_spec input (match_authority_user_info input st) ltac:(lia)) as Hh.
  destruct (match_host input _) as [[] st3]; cbn; [|lia]. destruct Hh as [Hh _].
  destruct (optional_set input st3 (chr ":") (match_port input) SetPort _ _ ltac:(lia)) as (_ & ? & _).
  lia.
Qed.

#[export] Instance forward_scheme : Forward input (match_scheme_and_colon input).
Proof.
  intros st H. pose proof (scheme_and_colon_spec input st H) as Hs.
  destruct (match_scheme_and_colon input st) as [[] st1]; cbn; [apply Hs|lia].
Qed.

Lemma forward_part q : PathMethod input q → ∀ st, (m_current st <= len)%nat →
  (m_current st <= m_current (let '(b, st1) := assign (m_current st) (authority_and_path input) st in
     if b then st1 else ((match_path_absolute input ||| q ||| match_path_empty) st1).2) <= len)%nat.
Proof.
  intros Hq st H. pose proof (forward_assign (authority_and_path input) st _ H) as Ha.
  destruct (assign _ _ _) as [[] st1]; cbn in Ha; [lia|].
  pose proof (forward_path (match_path_absolute input ||| q ||| match_path_empty) _ st1). lia.
Qed.

#[export] Instance forward_hier_part : Forward input (match_hier_part input).
Proof.
  apply forward_with_Result. intros st H.
  pose proof (forward_part (match_path_rootless input) _ st H) as Hp.
  fold (authority_and_path input). destruct (assign _ _ _) as [[] st1]; [done|].
  by destruct ((match_path_absolute input ||| match_path_rootless input ||| match_path_empty) st1).
Qed.

#[export] Instance forward_relative_part : Forward input (match_relative_part input).
Proof.
  apply forward_with_Result. intros st H.
  pose proof (forward_part (match_path_noscheme input) _ st H) as Hp.
  fold (authority_and_path input). destruct (assign _ _ _) as [[] st1]; [done|].
  unfold assign.
  destruct ((match_path_absolute input ||| match_path_noscheme input ||| match_path_empty) st1)
    as [[] st2]; cbn in *; lia.
Qed.

Lemma forward_optional c p set st :
  Keeps p → Forward input p → (m_current st <= len)%nat →
  (m_current st <= m_current (optional_after input c p set st) <= len)%nat.
Proof. intros Hk Hf H. by apply optional_after_spec. Qed.

#[export] Instance forward_URI : Forward input (match_URI input).
Proof.
  apply forward_with_Result. intros st H.
  pose proof (forward_assign (match_scheme_and_colon input &&& match_hier_part input) st _ H) as Ha.
  destruct (assign _ _ _) as [[] st1]; cbn in *; [|done].
  pose proof (forward_optional (chr "?") (match_query input) SetQuery st1 _ _ ltac:(lia)) as H2.
  pose proof (forward_optional (chr "#") (match_fragment input) SetFragment
    (optional_after input (chr "?") (match_query input) SetQuery st1) _ _ ltac:(lia)). lia.
Qed.

#[export] Instance forward_relative_ref : Forward input (match_relative_ref input).
Proof.
  apply forward_with_Result. intros st H.
  pose proof (forward_assign (match_relative_part input) st _ H) as Ha.
  destruct (assign _ _ _) as [[] st1]; cbn in *; [|done].
  pose proof (forward_optional (chr "?") (match_query input) SetQuery st1 _ _ ltac:(lia)). lia.
Qed.

End Whole.

(** The bodies of the parser's loops. *)
Definition loop_bodies (input : bytes) : list parser := [
  match_pchar input;
  attempt (match_unreserved input ||| match_pct_encoded input |||
           match_byteset input bs_sub_delims ||| match_literal input (chr "@"));
  match_byteset input bs_query_or_fragment ||| match_pct_encoded input;
  match_literal input (chr "-");
  attempt (match_domainlabel input &&& match_literal input (chr "."));
  match_digit input;
  match_byteset input bs_userinfo ||| match_pct_encoded input;
  attempt (match_literal input (chr "/") &&& match_segment input);
  match_byteset input bs_scheme ].

Lemma loop_bodies_progress input : Forall (λ p, Forward input p ∧ Advances input p) (loop_bodies input).
Proof. unfold loop_bodies. rewrite !Forall_cons, Forall_nil.
  unfold match_unreserved, match_digit. split_and!; done || apply _.
Qed.


Lemma Parse_whole s u0 u : Parse s u0 = (true, u) →
  ToString u = s ∧
  (m_scheme u ≠ [] ∧ (m_has_authority u = false → m_path u = []) ∨
   m_scheme u = [] ∧ m_has_fragment u = false).
Proof.
  unfold Parse, ParseBuffer, match_URI_reference, or_else. rewrite Clear_new.
  destruct (match_URI s _) as [[] st1] eqn:E; apply match_URI_whole in E.
  - intros [= Hn <-]. bool_to_prop. destruct (E Hn) as (? & ? & ?). auto.
  - subst st1. destruct (match_relative_ref s _) as [b st1] eqn:E; intros [= Hn <-]. bool_to_prop.
    destruct (match_relative_ref_whole s b st1 E Hn) as (? & ? & ?). auto.
Qed.



(** The references [Parse] refuses although the grammar in its comments has
    them.  The cursor is moved back over the path of a URI that has no
    authority, so an accepted URI with a scheme has an authority or an empty
    path ("mailto:user" and "file:///x" are refused); and the fragment of a
    relative reference is never looked at, so an accepted reference without a
    scheme has none. *)
Theorem Parse_accepts_only (s : bytes) (u0 u : URI) : Parse s u0 = (true, u) →
  (m_scheme u ≠ [] → m_has_authority u = true ∨ m_path u = []) ∧
  (m_scheme u = [] → m_has_fragment u = false).
Proof.
  intros H. apply Parse_whole in H as [_ [[Hs Hp]|[Hs Hf]]]; (split; [|done]); intros; [|done].
  destruct (m_has_authority u); auto.
Qed.

Example Parse_accepts_only_witness :
  let s := str "urn:?a=b" in
  ∃ u, Parse s new_URI = (true, u) ∧ m_scheme u = str "urn" ∧
       (Parse (str "urn:x") new_URI).1 = false ∧ (Parse (str "x#y") new_URI).1 = false ∧
       (m_has_authority u = true ∨ m_path u = []).
Proof.
  eexists. split; [vm_compute; reflexivity|]. split; [reflexivity|].
  split; [vm_compute; reflexivity|]. split; [vm_compute; reflexivity|].
  apply (Parse_accepts_only (str "urn:?a=b") new_URI); [vm_compute; reflexivity|done].
Defined.
