(* ===== verification/UriMerge.v ===== *)
(** * Reference resolution

    Model of the second half of net/uri/uri.cpp: removing dot segments,
    merging paths and [URI::Merge], after RFC 3986 section 5.2.  The code
    works with prefixes of a mutable buffer and flags in the object; the
    specifications below work with lists of segments and optional components. *)

From S2P Require Import Prelude Percent Uri.

(** ** The code *)

(** [std::string::find_last_of(char)] *)
Fixpoint find_last_of (c : Z) (s : bytes) : option nat :=
  match s with
  | [] => None
  | x :: s' => match find_last_of c s' with
               | Some i => Some (S i)
               | None => if x =? c then Some 0%nat else None
               end
  end.

(** [memchr] over the whole of [s]: the index of the first [c]. *)
Fixpoint memchr (c : Z) (s : bytes) : option nat :=
  match s with
  | [] => None
  | x :: s' => if x =? c then Some 0%nat else S <$> memchr c s'
  end.

Definition remove_last_segment_and_preceding_slash (path : bytes) : bytes :=
  match find_last_of (chr "/") path with Some pos => take pos path | None => path end.

(** [input_length >= n && memeql(input_buffer, p, n)] *)
Definition has_prefix (p input : bytes) : bool := bool_decide (take (length p) input = p).

(** [*input_buffer = c] *)
Definition set_head (c : Z) (input : bytes) : bytes :=
  match input with [] => [] | _ :: r => c :: r end.

(** One round of the loop: [input] is the rest of the copied buffer. *)
Definition remove_dot_step (input result : bytes) : bytes * bytes :=
  if has_prefix (str "../") input then (drop 3 input, result)
  else if has_prefix (str "./") input then (drop 2 input, result)
  else if has_prefix (str "/./") input then (set_head (chr "/") (drop 2 input), result)
  else if bool_decide (input = str "/.") then (set_head (chr "/") (drop 1 input), result)
  else if has_prefix (str "/../") input then
    (set_head (chr "/") (drop 3 input), remove_last_segment_and_preceding_slash result)
  else if bool_decide (input = str "/..") then
    (set_head (chr "/") (drop 2 input), remove_last_segment_and_preceding_slash result)
  else if bool_decide (input = str ".") then (drop 1 input, result)
  else if bool_decide (input = str "..") then (drop 2 input, result)
  else match memchr (chr "/") (drop 1 input) with
       | Some i => (drop (S i) input, result ++ take (S i) input)
       | None => ([], result ++ input)
       end.

(** The loop; every round shortens the input, so [length path] rounds are
    enough ([remove_dot_loop_fuel]). *)
Fixpoint remove_dot_loop (fuel : nat) (input result : bytes) : bytes :=
  match fuel, input with
  | O, _ | _, [] => result
  | S fuel, _ => let '(input, result) := remove_dot_step input result in
                 remove_dot_loop fuel input result
  end.

(** The string overload that returns the result. *)
Definition remove_dot_segments (path : bytes) : bytes := remove_dot_loop (length path) path [].

Definition merge_path (base_has_authority : bool) (base_path path : bytes) : bytes :=
  if (base_has_authority && bool_decide (base_path = []))%bool then str "/" ++ path
  else match find_last_of (chr "/") base_path with
       | Some pos => take (pos + 1) base_path ++ path
       | None => path
       end.

(** [if (from.HasX()) result.SetX(from.X());] *)
Definition copy_authority (from result : URI) : URI :=
  if m_has_authority from then SetAuthority (m_authority from) result else result.
Definition copy_query (from result : URI) : URI :=
  if m_has_query from then SetQuery (m_query from) result else result.
Definition copy_fragment (from result : URI) : URI :=
  if m_has_fragment from then SetFragment (m_fragment from) result else result.

(** [bool URI::Merge(const URI& base, bool strict)]: the new [*this]. *)
Definition Merge (base : URI) (strict : bool) (this : URI) : bool * URI :=
  let scheme_undefined := (negb strict && bool_decide (m_scheme this = m_scheme base))%bool in
  let result :=
    if (negb scheme_undefined && negb (bool_decide (m_scheme this = [])))%bool then
      let result := SetScheme (m_scheme this) new_URI in
      let result := copy_authority this result in
      let result := SetPath (remove_dot_segments (m_path this)) result in
      copy_query this result
    else
      let result :=
        if m_has_authority this then
          let result := copy_authority this new_URI in
          let result := SetPath (remove_dot_segments (m_path this)) result in
          copy_query this result
        else
          let result :=
            if bool_decide (m_path this = []) then
              let result := SetPath (m_path base) new_URI in
              if m_has_query this then SetQuery (m_query this) result
              else copy_query base result
            else
              let path :=
                if has_prefix (str "/") (m_path this) then remove_dot_segments (m_path this)
                else remove_dot_segments
                       (merge_path (m_has_authority base) (m_path base) (m_path this)) in
              copy_query this (SetPath path new_URI) in
          copy_authority base result in
      SetScheme (m_scheme base) result in
  let result := copy_fragment this result in
  (true, (Swap this result).1).

(** The default argument of [strict] is false. *)
Definition ToAbsolute (base this : URI) : bool * URI := Merge base false this.

(** ** Segments *)

(** The path between slashes: n slashes make n + 1 segments. *)
Fixpoint segments (path : bytes) : list bytes :=
  match path with
  | [] => [[]]
  | c :: r => if c =? chr "/" then [] :: segments r
              else match segments r with [] => [[c]] | s :: l => (c :: s) :: l end
  end.

Definition absolute (segs : list bytes) : bytes := segs ≫= cons (chr "/").

Definition join (segs : list bytes) : bytes :=
  match segs with [] => [] | s :: l => s ++ absolute l end.

Definition no_slash (s : bytes) : Prop := chr "/" ∉ s.
Definition is_dot (s : bytes) : Prop := s = str ".".
Definition is_dotdot (s : bytes) : Prop := s = str "..".

(** RFC 3986 section 5.2.4 over segments, with [out] the segments kept so
    far: a final dot segment leaves an empty segment behind. *)
Fixpoint resolve (out segs : list bytes) : list bytes :=
  match segs with
  | [] => out
  | s :: rest =>
      if decide (is_dot s) then
        match rest with [] => out ++ [[]] | _ => resolve out rest end
      else if decide (is_dotdot s) then
        match rest with [] => removelast out ++ [[]] | _ => resolve (removelast out) rest end
      else resolve (out ++ [s]) rest
  end.

(** Leading dot segments are dropped.  The first other segment has no slash
    before it and is never removed: a ".." after it finds no slash in the
    output, where the RFC empties the output. *)
Fixpoint resolve_path (segs : list bytes) : list bytes :=
  match segs with
  | [] => []
  | s :: rest => if decide (is_dot s ∨ is_dotdot s) then resolve_path rest
                 else s :: resolve [] rest
  end.

(** ** Lemmas on segments *)

Lemma absolute_cons s l : absolute (s :: l) = chr "/" :: s ++ absolute l.
Proof. done. Qed.

Lemma absolute_nil : absolute [] = [].
Proof. done. Qed.

Arguments absolute : simpl never.

Lemma segments_nonempty path : segments path ≠ [].
Proof. destruct path; cbn; [done|]. repeat case_match; done. Qed.

Lemma segments_join_path path : join (segments path) = path.
Proof.
  induction path as [|c r IH]; [done|]. cbn. pose proof (segments_nonempty r).
  destruct (segments r) as [|s l]; [done|]. cbn in IH. case_ztest; cbn; rewrite ?absolute_cons; congruence.
Qed.

Lemma no_slash_cons c s : no_slash (c :: s) ↔ c ≠ chr "/" ∧ no_slash s.
Proof. unfold no_slash. set_solver. Qed.

Lemma segments_no_slash path : Forall no_slash (segments path).
Proof.
  unfold no_slash. induction path as [|c r IH]; [repeat constructor; set_solver|]. cbn. case_ztest.
  - constructor; [set_solver|done].
  - destruct (segments r); repeat constructor; decompose_Forall_hyps; set_solver.
Qed.

Lemma segments_absolute s l : no_slash s → Forall no_slash l → segments (s ++ absolute l) = s :: l.
Proof.
  intros Hs Hl. revert s Hs. induction l as [|t l IH]; intros s Hs.
  - rewrite absolute_nil, app_nil_r. induction s as [|c s IHs]; [done|].
    apply no_slash_cons in Hs as [Hc Hs]. cbn. case_ztest; [done|]. by rewrite IHs.
  - decompose_Forall_hyps. induction s as [|c s IHs].
    + rewrite absolute_cons. cbn. rewrite Z.eqb_refl. f_equal. auto.
    + apply no_slash_cons in Hs as [Hc Hs]. cbn. case_ztest; [done|]. by rewrite IHs.
Qed.

Lemma absolute_app l k : absolute (l ++ k) = absolute l ++ absolute k.
Proof. apply bind_app. Qed.

Lemma absolute_snoc l s : absolute (l ++ [s]) = absolute l ++ chr "/" :: s.
Proof. by rewrite absolute_app, absolute_cons, absolute_nil, app_nil_r. Qed.

(** ** Searching for slashes *)

Lemma find_last_of_none c s : c ∉ s → find_last_of c s = None.
Proof.
  induction s as [|x s IH]; [done|]. intros H. cbn. rewrite IH by set_solver.
  case_ztest; set_solver.
Qed.

Lemma find_last_of_app c l s : c ∉ s → find_last_of c (l ++ c :: s) = Some (length l).
Proof.
  intros H. induction l as [|x l IH]; cbn; [|by rewrite IH].
  by rewrite find_last_of_none, Z.eqb_refl.
Qed.

Lemma memchr_none c s : c ∉ s → memchr c s = None.
Proof.
  induction s as [|x s IH]; [done|]. intros H. cbn. rewrite IH by set_solver.
  case_ztest; set_solver.
Qed.

Lemma memchr_app c s l : c ∉ s → memchr c (s ++ c :: l) = Some (length s).
Proof.
  intros H. induction s as [|x s IH]; cbn; [by rewrite Z.eqb_refl|].
  rewrite IH by set_solver. case_ztest; [set_solver|done].
Qed.

Lemma remove_last_absolute a out : no_slash a → Forall no_slash out →
  remove_last_segment_and_preceding_slash (a ++ absolute out) = a ++ absolute (removelast out).
Proof.
  intros Ha Ho. unfold remove_last_segment_and_preceding_slash.
  destruct out as [|s out _] using rev_ind.
  - cbn. rewrite absolute_nil, app_nil_r. by rewrite find_last_of_none.
  - apply Forall_app in Ho as [_ Hs]. decompose_Forall_hyps.
    rewrite removelast_last, absolute_snoc, (assoc_L (++)), find_last_of_app by done.
    by rewrite take_app_length.
Qed.

(** ** The loop over segments *)

Lemma has_prefix_inv p input : has_prefix p input = true → ∃ r, input = p ++ r.
Proof.
  unfold has_prefix. intros H%bool_decide_eq_true. exists (drop (length p) input).
  by rewrite <- H at 1; rewrite take_drop.
Qed.

Lemma absolute_segments r : absolute (segments r) = chr "/" :: r.
Proof.
  pose proof (segments_join_path r). pose proof (segments_nonempty r).
  destruct (segments r); [done|]. rewrite absolute_cons. cbn in *. congruence.
Qed.

(** The first segment is determined by what follows it. *)
Lemma first_segment_slash s rest d r :
  no_slash s → Forall no_slash rest → no_slash d →
  s ++ absolute rest = d ++ chr "/" :: r → s = d.
Proof.
  intros Hs Hr Hd E. rewrite <- absolute_segments in E. apply (f_equal segments) in E.
  rewrite !segments_absolute in E by (done || apply segments_no_slash). congruence.
Qed.

Lemma first_segment_end s rest d :
  no_slash s → Forall no_slash rest → no_slash d → s ++ absolute rest = d → s = d ∧ rest = [].
Proof.
  intros Hs Hr Hd E. rewrite <- (app_nil_r d), <- absolute_nil in E.
  apply (f_equal segments) in E. rewrite !segments_absolute in E by (done || constructor).
  split; congruence.
Qed.

Lemma prefix_segment s rest d :
  no_slash s → Forall no_slash rest → no_slash d → s ≠ d →
  has_prefix (d ++ str "/") (s ++ absolute rest) = false ∧
  bool_decide (s ++ absolute rest = d) = false.
Proof.
  intros Hs Hr Hd Hne. split.
  - apply not_true_iff_false. intros [r E]%has_prefix_inv. apply Hne.
    rewrite <- (assoc_L (++)) in E. by apply (first_segment_slash s rest d r).
  - apply bool_decide_eq_false. intros E. apply Hne. by apply (first_segment_end s rest d).
Qed.

Lemma no_slash_dot : no_slash (str ".").
Proof. unfold no_slash. apply (bool_decide_unpack _). by vm_compute. Qed.
Lemma no_slash_dotdot : no_slash (str "..").
Proof. unfold no_slash. apply (bool_decide_unpack _). by vm_compute. Qed.
Lemma no_slash_nil : no_slash [].
Proof. unfold no_slash. set_solver. Qed.
#[local] Hint Resolve no_slash_dot no_slash_dotdot no_slash_nil : core.

Lemma has_prefix_cons c p q : has_prefix (c :: p) (c :: q) = has_prefix p q.
Proof. unfold has_prefix. cbn. apply bool_decide_ext. split; [by intros [= ->]|congruence]. Qed.

Lemma bool_decide_cons (c : Z) p q : bool_decide (c :: p = c :: q) = bool_decide (p = q).
Proof. apply bool_decide_ext. split; [by intros [= ->]|congruence]. Qed.

Lemma has_prefix_head c d p q : c ≠ d → has_prefix (c :: p) (d :: q) = false.
Proof. intros H. apply bool_decide_eq_false. cbn. congruence. Qed.

Lemma bool_decide_head (c d : Z) p q : c ≠ d → bool_decide (c :: p = d :: q) = false.
Proof. intros H. apply bool_decide_eq_false. congruence. Qed.

(** Rule E moves one segment to the output. *)
Lemma rule_E c s rest result : no_slash s →
  match memchr (chr "/") (drop 1 (c :: s ++ absolute rest)) with
  | Some i => (drop (S i) (c :: s ++ absolute rest), result ++ take (S i) (c :: s ++ absolute rest))
  | None => ([], result ++ c :: s ++ absolute rest)
  end = (absolute rest, result ++ c :: s).
Proof.
  intros Hs. change (drop 1 (c :: s ++ absolute rest)) with (s ++ absolute rest). destruct rest as [|r rest].
  - by rewrite absolute_nil, app_nil_r, memchr_none.
  - rewrite absolute_cons. rewrite memchr_app by done. cbn. by rewrite drop_app_length, take_app_length.
Qed.

(** A segment that is not a dot segment meets none of rules A to D, with or
    without its leading slash. *)
Lemma step_segment s rest result :
  no_slash s → Forall no_slash rest → ¬ is_dot s → ¬ is_dotdot s →
  remove_dot_step (chr "/" :: s ++ absolute rest) result =
  (absolute rest, result ++ chr "/" :: s).
Proof.
  intros Hs Hr Hd Hdd. unfold remove_dot_step.
  destruct (prefix_segment s rest (str ".")) as [P1 E1]; [done..|].
  destruct (prefix_segment s rest (str "..")) as [P2 E2]; [done..|].
  change (str "/./") with (chr "/" :: str "." ++ str "/").
  change (str "/../") with (chr "/" :: str ".." ++ str "/").
  change (str "/..") with (chr "/" :: str "..").
  change (str "/.") with (chr "/" :: str ".").
  rewrite !has_prefix_cons, !bool_decide_cons, P1, E1, P2, E2, rule_E by done. done.
Qed.

Lemma step_first c s rest result :
  no_slash (c :: s) → Forall no_slash rest → ¬ is_dot (c :: s) → ¬ is_dotdot (c :: s) →
  remove_dot_step (c :: s ++ absolute rest) result = (absolute rest, result ++ c :: s).
Proof.
  intros Hs Hr Hd Hdd. unfold remove_dot_step.
  destruct (prefix_segment (c :: s) rest (str ".")) as [P1 E1]; [done..|].
  destruct (prefix_segment (c :: s) rest (str "..")) as [P2 E2]; [done..|].
  change (str "../") with (str ".." ++ str "/"). change (str "./") with (str "." ++ str "/").
  change (c :: s ++ absolute rest) with ((c :: s) ++ absolute rest).
  apply no_slash_cons in Hs as [Hc Hs]. rewrite P1, E1, P2, E2.
  change ((c :: s) ++ absolute rest) with (c :: s ++ absolute rest).
  change (str "/./") with (chr "/" :: str "./"). change (str "/../") with (chr "/" :: str "../").
  change (str "/..") with (chr "/" :: str ".."). change (str "/.") with (chr "/" :: str ".").
  rewrite !has_prefix_head by done. rewrite !(bool_decide_head c) by done. by apply rule_E.
Qed.

Lemma step_dot r rest result :
  remove_dot_step (absolute (str "." :: r :: rest)) result = (absolute (r :: rest), result).
Proof. done. Qed.

Lemma step_dotdot r rest result :
  remove_dot_step (absolute (str ".." :: r :: rest)) result =
  (absolute (r :: rest), remove_last_segment_and_preceding_slash result).
Proof. done. Qed.

Lemma loop_nil fuel result : remove_dot_loop fuel [] result = result.
Proof. by destruct fuel. Qed.

Lemma loop_step fuel c input result :
  remove_dot_loop (S fuel) (c :: input) result =
  let '(input, result) := remove_dot_step (c :: input) result in remove_dot_loop fuel input result.
Proof. done. Qed.

Lemma loop_slash fuel result : (0 < fuel)%nat →
  remove_dot_loop fuel (str "/") result = result ++ str "/".
Proof. destruct fuel; [lia|]. intros _. cbn. apply loop_nil. Qed.

Lemma loop_absolute segs out a fuel :
  no_slash a → Forall no_slash out → Forall no_slash segs →
  (length (absolute segs) <= fuel)%nat →
  remove_dot_loop fuel (absolute segs) (a ++ absolute out) = a ++ absolute (resolve out segs).
Proof.
  intros Ha. revert out fuel. induction segs as [|s rest IH]; intros out fuel Ho Hs Hf.
  { rewrite absolute_nil. apply loop_nil. }
  apply Forall_cons in Hs as [Hs Hrest].
  rewrite absolute_cons in Hf. cbn [length] in Hf. rewrite length_app in Hf.
  destruct fuel as [|fuel]; [lia|]. cbn [resolve].
  assert (Hlen : (length (absolute rest) <= fuel)%nat) by lia.
  assert (Hrl : Forall no_slash (removelast out)).
  { destruct out as [|x out _] using rev_ind; [done|]. rewrite removelast_last.
    by apply Forall_app in Ho as [? _]. }
  rewrite absolute_cons, loop_step, <- absolute_cons.
  destruct (decide (is_dot s)) as [->|Hd]; [|destruct (decide (is_dotdot s)) as [->|Hdd]].
  - destruct rest as [|r rest].
    + change (remove_dot_loop fuel (str "/") (a ++ absolute out) = a ++ absolute (out ++ [[]])).
      rewrite loop_slash, absolute_snoc, (assoc_L (++)); [done|]. cbn in Hf. lia.
    + rewrite step_dot. auto.
  - destruct rest as [|r rest].
    + change (remove_dot_loop fuel (str "/") (remove_last_segment_and_preceding_slash (a ++ absolute out))
        = a ++ absolute (removelast out ++ [[]])).
      rewrite loop_slash, remove_last_absolute, absolute_snoc, (assoc_L (++)); [done..|]. cbn in Hf. lia.
    + rewrite step_dotdot, remove_last_absolute by done. auto.
  - rewrite absolute_cons, step_segment by done. rewrite <- (assoc_L (++)), <- absolute_snoc.
    apply IH; [|done..]. by apply Forall_app; repeat constructor.
Qed.

Lemma loop_path segs fuel : Forall no_slash segs → (length (join segs) <= fuel)%nat →
  remove_dot_loop fuel (join segs) [] = join (resolve_path segs).
Proof.
  revert fuel. induction segs as [|s rest IH]; intros fuel Hs Hf; [apply loop_nil|].
  apply Forall_cons in Hs as [Hs Hrest]. cbn [resolve_path join] in *.
  case_decide as Hd; [destruct Hd as [-> | ->]|].
  - destruct rest as [|r rest]; destruct fuel; try (cbn in Hf; lia); [apply loop_nil|].
    apply (IH fuel); [done|]. cbn [join]. rewrite absolute_cons in Hf. cbn in Hf. lia.
  - destruct rest as [|r rest]; destruct fuel; try (cbn in Hf; lia); [apply loop_nil|].
    apply (IH fuel); [done|]. cbn [join]. rewrite absolute_cons in Hf. cbn in Hf. lia.
  - cbn [join]. destruct s as [|c s].
    + apply (loop_absolute rest [] [] fuel); (done || constructor).
    + destruct fuel as [|fuel]; [cbn in Hf; lia|].
      change ((c :: s) ++ absolute rest) with (c :: s ++ absolute rest).
      rewrite loop_step, step_first by tauto. cbn [app].
      rewrite <- (app_nil_r (c :: s)) at 1. rewrite <- absolute_nil.
      apply loop_absolute; [done|constructor|done|]. cbn in Hf. rewrite length_app in Hf. lia.
Qed.

(** ** Properties of the output *)

Definition clean (s : bytes) : Prop := ¬ is_dot s ∧ ¬ is_dotdot s.

Lemma clean_nil : clean [].
Proof. by split. Qed.

Lemma clean_removelast out : Forall clean out → Forall clean (removelast out).
Proof.
  destruct out as [|x out _] using rev_ind; [done|]. rewrite removelast_last.
  by intros [? _]%Forall_app.
Qed.

Lemma resolve_clean segs out : Forall clean out → Forall clean (resolve out segs).
Proof.
  revert out. induction segs as [|s rest IH]; intros out Ho; [done|]. cbn.
  assert (Hnil : ∀ o, Forall clean o → Forall clean (o ++ [[]])).
  { intros o H. apply Forall_app. repeat constructor; done. }
  repeat case_decide; [destruct rest; auto|destruct rest; auto using clean_removelast|].
  apply IH, Forall_app. by repeat constructor.
Qed.

Lemma resolve_no_slash segs out :
  Forall no_slash segs → Forall no_slash out → Forall no_slash (resolve out segs).
Proof.
  revert out. induction segs as [|s rest IH]; intros out Hs Ho; [done|]. cbn.
  apply Forall_cons in Hs as [Hs Hr].
  assert (Hnil : ∀ o, Forall no_slash o → Forall no_slash (o ++ [[]])).
  { intros o H. apply Forall_app. repeat constructor; done. }
  assert (Hrl : Forall no_slash (removelast out)).
  { destruct out as [|x out _] using rev_ind; [done|]. rewrite removelast_last.
    by apply Forall_app in Ho as [? _]. }
  repeat case_decide; [destruct rest; auto..|].
  apply IH; [done|]. apply Forall_app. by repeat constructor.
Qed.

Lemma resolve_id segs out : Forall clean segs → resolve out segs = out ++ segs.
Proof.
  revert out. induction segs as [|s rest IH]; intros out Hs; cbn; [by rewrite app_nil_r|].
  apply Forall_cons in Hs as [[? ?] Hr]. rewrite !decide_False, IH by done.
  by rewrite <- (assoc_L (++)).
Qed.

Lemma resolve_nonempty segs out : segs ≠ [] ∨ out ≠ [] → resolve out segs ≠ [].
Proof.
  revert out. induction segs as [|s rest IH]; intros out; cbn; [tauto|]. intros _.
  repeat case_decide; [destruct rest; [by destruct out|apply IH; by left]
                      |destruct rest; [by destruct (removelast out)|apply IH; by left]|].
  apply IH. right. by destruct out.
Qed.

Lemma resolve_path_id segs : Forall clean segs → resolve_path segs = segs.
Proof.
  destruct segs as [|s rest]; [done|]. intros [[? ?] Hr]%Forall_cons. cbn.
  rewrite decide_False by naive_solver. by rewrite resolve_id.
Qed.

Lemma resolve_path_cases segs :
  Forall no_slash segs → resolve_path segs = [] ∨
  ∃ s rest, resolve_path segs = s :: rest ∧ clean s ∧ Forall clean rest ∧
            no_slash s ∧ Forall no_slash rest.
Proof.
  induction segs as [|s rest IH]; [by left|]. intros [Hs Hr]%Forall_cons. cbn.
  case_decide as Hd; [auto|]. right. exists s, (resolve [] rest).
  split_and!; auto using resolve_clean, resolve_no_slash. split; tauto.
Qed.

Lemma remove_dot_segments_segments path :
  remove_dot_segments path = join (resolve_path (segments path)).
Proof.
  unfold remove_dot_segments. rewrite <- (segments_join_path path) at 2.
  apply loop_path; [apply segments_no_slash|]. by rewrite segments_join_path.
Qed.

Lemma remove_dot_segments_clean path : Forall clean (segments (remove_dot_segments path)).
Proof.
  rewrite remove_dot_segments_segments.
  destruct (resolve_path_cases (segments path)) as [->|(s & rest & -> & ? & ? & ? & ?)];
    [apply segments_no_slash|..].
  - cbn. auto using clean_nil.
  - cbn. rewrite segments_absolute by done. auto.
Qed.

Lemma remove_dot_segments_id path : Forall clean (segments path) → remove_dot_segments path = path.
Proof.
  intros H. by rewrite remove_dot_segments_segments, resolve_path_id, segments_join_path.
Qed.

(** C15: what the in-place loop of [remove_dot_segments] computes, for every
    path, in terms of its segments: leading dot segments are dropped, each
    later "." disappears, each ".." takes with it the last kept segment that
    has a slash before it, and a final one of either leaves a trailing slash;
    on a path that starts with a slash this is section 5.2.4 of RFC 3986.  The
    loop ends: more rounds than the length of the path give the same output. *)
Theorem remove_dot_segments_spec (path : bytes) :
  remove_dot_segments path = join (resolve_path (segments path)) ∧
  ∀ k, remove_dot_loop (length path + k) path [] = remove_dot_segments path.
Proof.
  split; [apply remove_dot_segments_segments|]. intros k. rewrite remove_dot_segments_segments.
  rewrite <- (segments_join_path path) at 2.
  apply loop_path; [apply segments_no_slash|]. rewrite segments_join_path. lia.
Qed.

(** The output of [remove_dot_segments] has no "." and no ".." segment,
    whatever the input; a path without dot segments is returned unchanged, so
    the function is idempotent; and an absolute path stays absolute, so a
    reference cannot climb above the root. *)
Theorem remove_dot_segments_normal (path : bytes) :
  Forall (λ s, s ≠ str "." ∧ s ≠ str "..") (segments (remove_dot_segments path)) ∧
  (Forall (λ s, s ≠ str "." ∧ s ≠ str "..") (segments path) → remove_dot_segments path = path) ∧
  remove_dot_segments (remove_dot_segments path) = remove_dot_segments path ∧
  (has_prefix (str "/") path = true → has_prefix (str "/") (remove_dot_segments path) = true).
Proof.
  split_and!.
  - apply remove_dot_segments_clean.
  - apply remove_dot_segments_id.
  - apply remove_dot_segments_id, remove_dot_segments_clean.
  - intros [r ->]%has_prefix_inv. rewrite remove_dot_segments_segments. cbn.
    pose proof (segments_nonempty r) as Hr. rewrite Z.eqb_refl. cbn.
    assert (Hne : resolve [] (segments r) ≠ []) by (apply resolve_nonempty; by left).
    by destruct (resolve [] _).
Qed.

(** ** Merge against RFC 3986 section 5.2.2 *)

(** The five optional components of a reference. *)
Record components := mkComponents {
  c_scheme : option bytes;
  c_authority : option UriAuthority;
  c_path : bytes;
  c_query : option bytes;
  c_fragment : option bytes
}.

Definition components_of (u : URI) : components := mkComponents
  (if decide (m_scheme u = []) then None else Some (m_scheme u))
  (if m_has_authority u then Some (m_authority u) else None)
  (m_path u)
  (if m_has_query u then Some (m_query u) else None)
  (if m_has_fragment u then Some (m_fragment u) else None).

Definition normal_path (path : bytes) : bytes := join (resolve_path (segments path)).

(** Section 5.2.3: a slash when the base has an authority and no path,
    otherwise all but the last segment of the base. *)
Definition rfc_merge (base_authority : option UriAuthority) (base_path path : bytes) : bytes :=
  if decide (is_Some base_authority ∧ base_path = []) then str "/" ++ path
  else join (removelast (segments base_path) ++ segments path).

Definition rfc_transform (strict : bool) (B R : components) : components :=
  let R_scheme := if (negb strict && bool_decide (c_scheme R = c_scheme B))%bool
                  then None else c_scheme R in
  match R_scheme, c_authority R with
  | Some s, _ =>
      mkComponents (Some s) (c_authority R) (normal_path (c_path R)) (c_query R) (c_fragment R)
  | None, Some a =>
      mkComponents (c_scheme B) (Some a) (normal_path (c_path R)) (c_query R) (c_fragment R)
  | None, None =>
      if decide (c_path R = []) then
        mkComponents (c_scheme B) (c_authority B) (c_path B)
          (match c_query R with Some q => Some q | None => c_query B end) (c_fragment R)
      else
        mkComponents (c_scheme B) (c_authority B)
          (normal_path (if has_prefix (str "/") (c_path R) then c_path R
                        else rfc_merge (c_authority B) (c_path B) (c_path R)))
          (c_query R) (c_fragment R)
  end.

Lemma last_slash segs : segs ≠ [] → Forall no_slash segs →
  match find_last_of (chr "/") (join segs) with
  | Some pos => take (pos + 1) (join segs)
  | None => []
  end = join (removelast segs ++ [[]]).
Proof.
  intros Hn Hs. destruct segs as [|s l]; [done|].
  apply Forall_cons in Hs as [Hs Hl]. cbn [join].
  destruct l as [|t l _] using rev_ind.
  - by rewrite absolute_nil, app_nil_r, find_last_of_none.
  - apply Forall_app in Hl as [_ Ht]. apply Forall_cons in Ht as [Ht _].
    rewrite absolute_snoc, (assoc_L (++)), find_last_of_app by done.
    rewrite app_comm_cons, removelast_last. cbn [join app].
    rewrite absolute_snoc, (cons_middle _ _ t), !(assoc_L (++)).
    apply take_app_length'. rewrite !length_app. cbn. lia.
Qed.

(** Appending to a joined path continues its last segment. *)
Lemma join_snoc_app l s path : join (l ++ [s]) ++ path = join (l ++ [s ++ path]).
Proof.
  destruct l as [|x l]; cbn [app join].
  - by rewrite !absolute_nil, !app_nil_r.
  - by rewrite !absolute_snoc, <- !(assoc_L (++)).
Qed.

Lemma join_app_segments l path : join (l ++ segments path) = join (l ++ [path]).
Proof.
  rewrite <- (segments_join_path path) at 2.
  destruct (segments path) as [|s k] eqn:E; [by destruct (segments_nonempty path)|].
  destruct l as [|x l]; cbn [app join].
  - by rewrite absolute_nil, app_nil_r.
  - by rewrite absolute_app, !absolute_snoc, absolute_cons.
Qed.

Lemma merge_path_rfc base path :
  merge_path (m_has_authority base) (m_path base) path =
  rfc_merge (c_authority (components_of base)) (m_path base) path.
Proof.
  unfold merge_path, rfc_merge, components_of. cbn [c_authority].
  assert (Hm : match find_last_of (chr "/") (m_path base) with
               | Some pos => take (pos + 1) (m_path base) ++ path
               | None => path
               end = join (removelast (segments (m_path base)) ++ segments path)).
  { rewrite join_app_segments, <- (app_nil_l path) at 1. 
    rewrite <- join_snoc_app, <- last_slash by (apply segments_nonempty || apply segments_no_slash).
    rewrite segments_join_path. by case_match. }
  case_bool_decide as Hp; destruct (m_has_authority base); cbn;
    [rewrite decide_True by (split; [by eexists|done]); done|..];
    rewrite Hm; case_decide as Hd; try done; naive_solver.
Qed.

Lemma components_of_set_scheme s u : s ≠ [] → components_of (SetScheme s u) =
  mkComponents (Some s) (c_authority (components_of u)) (c_path (components_of u))
    (c_query (components_of u)) (c_fragment (components_of u)).
Proof. intros H. unfold components_of. cbn. by rewrite decide_False. Qed.

Lemma Swap_fst u v : (Swap u v).1 = v.
Proof. by destruct u, v as [? ? ? ? []]. Qed.

Lemma scheme_eq u v :
  bool_decide (c_scheme (components_of u) = c_scheme (components_of v)) =
  bool_decide (m_scheme u = m_scheme v).
Proof.
  apply bool_decide_ext. unfold components_of. cbn.
  repeat case_decide; split; congruence.
Qed.


(** Resolving against an absolute base with a normalised path gives an
    absolute reference that resolves to itself: a second strict [Merge] with
    the same base changes no member of the object. *)
Theorem Merge_idempotent (base this : URI) :
  m_scheme base ≠ [] →
  Forall (λ s, s ≠ str "." ∧ s ≠ str "..") (segments (m_path base)) →
  m_scheme (Merge base true this).2 ≠ [] ∧
  Merge base true (Merge base true this).2 = Merge base true this.
Proof.
  intros Hs Hc. apply remove_dot_segments_id in Hc.
  assert (Hi : ∀ p, remove_dot_segments (remove_dot_segments p) = remove_dot_segments p)
    by (intros; apply remove_dot_segments_id, remove_dot_segments_clean).
  unfold Merge. cbn [snd]. rewrite !Swap_fst.
  unfold copy_fragment, copy_query, copy_authority.
  destruct this as [ha hq hf sc au pa qu fr], base as [bha bhq bhf bsc bau bpa bqu bfr].
  cbn [negb andb m_scheme m_path m_query m_fragment m_authority m_has_query m_has_fragment
    m_has_authority] in *.
  case_bool_decide as Hsc; cbn [negb]; [|by destruct ha, hq, hf; cbn -[remove_dot_segments];
    rewrite (bool_decide_eq_false_2 _ Hsc); cbn -[remove_dot_segments]; rewrite Hi].
  destruct ha; [by destruct hq, hf; cbn -[remove_dot_segments];
    rewrite (bool_decide_eq_false_2 _ Hs); cbn -[remove_dot_segments]; rewrite Hi|].
  case_bool_decide as Hp; [|destruct (has_prefix (str "/") pa)];
    destruct hq, hf, bha, bhq; cbn -[remove_dot_segments];
    rewrite (bool_decide_eq_false_2 _ Hs); cbn -[remove_dot_segments]; by rewrite ?Hi, ?Hc.
Qed.

(** A reference that is only a path and perhaps a query. *)
Definition path_reference (path : bytes) (query : option bytes) : URI :=
  from_option SetQuery id query (SetPath path new_URI).

(** The base URI of RFC 3986 section 5.4. *)
Definition rfc_base : URI :=
  SetQuery (str "q") (SetPath (str "/b/c/d;p") (SetHost (str "a") (SetScheme (str "http") new_URI))).

(** Where the code keeps a segment that the RFC removes: the RFC's output here
    is "/b". *)
Example first_segment_kept : remove_dot_segments (str "a/../b") = str "a/b".
Proof. by vm_compute. Qed.

(** Examples of section 5.4. *)
Example rfc_examples :
  (λ p, ToString (Merge rfc_base true (path_reference (str p) None)).2) <$>
    ["g"; "./g"; "g/"; "/g"; ""; "."; "./"; ".."; "../"; "../g"; "../.."; "../../g";
     "../../../g"; "/./g"; "/../g"; "g."; "g.."; "..g"; "./../g"; "./g/."; "g/./h"; "g/../h"]%string
  = str <$>
    ["http://a/b/c/g"; "http://a/b/c/g"; "http://a/b/c/g/"; "http://a/g"; "http://a/b/c/d;p?q";
     "http://a/b/c/"; "http://a/b/c/"; "http://a/b/"; "http://a/b/"; "http://a/b/g"; "http://a/";
     "http://a/g"; "http://a/g"; "http://a/g"; "http://a/g"; "http://a/b/c/g."; "http://a/b/c/g..";
     "http://a/b/c/..g"; "http://a/b/g"; "http://a/b/c/g/"; "http://a/b/c/g/h"; "http://a/b/c/h"]%string.
Proof. by vm_compute. Qed.

Example Merge_idempotent_witness :
  let r := path_reference (str "../x/./y") (Some (str "k")) in
  Merge rfc_base true (Merge rfc_base true r).2 = Merge rfc_base true r ∧
  ToString (Merge rfc_base true r).2 = str "http://a/b/x/y?k".
Proof.
  split; [|vm_compute; reflexivity].
  apply (Merge_idempotent rfc_base); [done|apply (bool_decide_unpack _); vm_compute; exact I].
Defined.
