(* ===== verification/Varint.v ===== *)
(** * Variable-length integers

    Model of encoding/varint.h and encoding/varint.cpp: little-endian groups
    of seven bits, the high bit of a byte set when more follow.  A pointer
    into a buffer is the list of bytes from it to the limit; NULL is [None]. *)

From S2P Require Import Prelude.

Definition kIncompleteMask : Z := 128.

(** ** Encoding *)

(** The unrolled encoder; a store through [ptr] keeps the low eight bits. *)
Definition UnsafeEncode32 (v : Z) : bytes :=
  if v <? Z.shiftl 1 7 then [u8 v]
  else if v <? Z.shiftl 1 14 then [u8 (Z.lor v kIncompleteMask); u8 (Z.shiftr v 7)]
  else if v <? Z.shiftl 1 21 then
    [u8 (Z.lor v kIncompleteMask); u8 (Z.lor (Z.shiftr v 7) kIncompleteMask);
     u8 (Z.shiftr v 14)]
  else if v <? Z.shiftl 1 28 then
    [u8 (Z.lor v kIncompleteMask); u8 (Z.lor (Z.shiftr v 7) kIncompleteMask);
     u8 (Z.lor (Z.shiftr v 14) kIncompleteMask); u8 (Z.shiftr v 21)]
  else
    [u8 (Z.lor v kIncompleteMask); u8 (Z.lor (Z.shiftr v 7) kIncompleteMask);
     u8 (Z.lor (Z.shiftr v 14) kIncompleteMask); u8 (Z.lor (Z.shiftr v 21) kIncompleteMask);
     u8 (Z.shiftr v 28)].

Definition Put32 (dst : bytes) (v : Z) : bytes := dst ++ UnsafeEncode32 v.

(** The loop of the 64-bit encoder.  Ten rounds are enough for 64 bits
    ([encode_loop_fuel]). *)
Fixpoint encode_loop (fuel : nat) (v : Z) : bytes :=
  match fuel with
  | O => []
  | S fuel =>
      if kIncompleteMask <=? v then
        Z.lor (Z.land v (kIncompleteMask - 1)) kIncompleteMask :: encode_loop fuel (Z.shiftr v 7)
      else [u8 v]
  end.

Definition UnsafeEncode64 (v : Z) : bytes := encode_loop 10 v.

Definition Put64 (dst : bytes) (v : Z) : bytes := dst ++ UnsafeEncode64 v.

Fixpoint length_loop (fuel : nat) (v len : Z) : Z :=
  match fuel with
  | O => len
  | S fuel => if kIncompleteMask <=? v then length_loop fuel (Z.shiftr v 7) (len + 1) else len
  end.

Definition EncodedLength (v : Z) : Z := length_loop 10 v 1.

(** [room] is [limit - p]; the bytes written at [p]. *)
Definition Encode32 (room v : Z) : option bytes :=
  if room <? EncodedLength v then None else Some (UnsafeEncode32 v).
Definition Encode64 (room v : Z) : option bytes :=
  if room <? EncodedLength v then None else Some (UnsafeEncode64 v).

Definition PutLengthPrefixedStringPiece (dst value : bytes) : bytes :=
  Put32 dst (u32 (Z.of_nat (length value))) ++ value.

(** ** Decoding *)

(** The loop of both decoders: [wrap] is the width of [result] and [last]
    the largest shift.  Returns the value and what follows it. *)
Fixpoint decode_loop (wrap : Z → Z) (last : Z) (p : bytes) (shift result : Z) : option (Z * bytes) :=
  if shift <=? last then
    match p with
    | [] => None
    | byte :: p =>
        if negb (Z.land byte kIncompleteMask =? 0) then
          decode_loop wrap last p (shift + 7)
            (Z.lor result (wrap (Z.shiftl (Z.land byte 127) shift)))
        else Some (Z.lor result (wrap (Z.shiftl byte shift)), p)
    end
  else None.

Definition Decode32Fallback (p : bytes) : option (Z * bytes) := decode_loop u32 28 p 0 0.

Definition Decode32 (p : bytes) : option (Z * bytes) :=
  match p with
  | result :: q => if Z.land result 128 =? 0 then Some (result, q) else Decode32Fallback p
  | [] => Decode32Fallback p
  end.

Definition Decode64 (p : bytes) : option (Z * bytes) := decode_loop u64 63 p 0 0.

(** [Get32] and [Get64] move the piece past the value when there is one. *)
Definition Get32 (input : bytes) : option Z * bytes :=
  match Decode32 input with None => (None, input) | Some (v, q) => (Some v, q) end.
Definition Get64 (input : bytes) : option Z * bytes :=
  match Decode64 input with None => (None, input) | Some (v, q) => (Some v, q) end.

(** The overload on pointers: the piece and the pointer after it. *)
Definition GetLengthPrefixedStringPiece_ptr (p : bytes) : option (bytes * bytes) :=
  match Decode32 p with
  | None => None
  | Some (len, p) =>
      if Z.of_nat (length p) <? len then None
      else Some (take (Z.to_nat len) p, drop (Z.to_nat len) p)
  end.

(** The overload on a [StringPiece*]: when the length is read but too large,
    the input stays moved past the length. *)
Definition GetLengthPrefixedStringPiece (input : bytes) : option bytes * bytes :=
  match Get32 input with
  | (Some len, input) =>
      if len <=? Z.of_nat (length input)
      then (Some (take (Z.to_nat len) input), drop (Z.to_nat len) input)
      else (None, input)
  | (None, input) => (None, input)
  end.

(** ** Lemmas *)

Lemma low_group v : Z.land v 127 = v mod 128.
Proof. apply (land_ones_mod v 7). lia. Qed.

Lemma high_bit b : is_byte b → Z.land b kIncompleteMask = if b <? 128 then 0 else 128.
Proof.
  intros Hb. apply Z.eqb_eq. revert b Hb. apply byte_forall. by vm_compute.
Qed.

(** A continuation byte. *)
Definition more (v : Z) : Z := 128 + v mod 128.

Lemma more_byte v : 128 <= more v < 256.
Proof. unfold more. pose proof (Z.mod_pos_bound v 128). lia. Qed.

Lemma lor_more v : Z.lor (v mod 128) 128 = more v.
Proof.
  change 128 with (Z.shiftl 1 7) at 2. rewrite lor_shiftl_add; unfold more; [lia..|].
  apply Z.mod_pos_bound. lia.
Qed.

Lemma u8_lor v : u8 (Z.lor v kIncompleteMask) = more v.
Proof.
  rewrite <- lor_more, <- low_group. change 128 with kIncompleteMask.
  change kIncompleteMask with (Z.shiftl 1 7). change 127 with (Z.ones 7). bits_ext n Hn.
  destruct (Z.lt_ge_cases n 7).
  - rewrite Z.ones_spec_low by lia. destruct (Z.ltb_spec n 8); [|lia]. by rewrite andb_true_r.
  - rewrite Z.ones_spec_high, andb_false_r, orb_false_l by lia.
    destruct (Z.eqb_spec 7 n) as [<-|]; [by rewrite orb_true_r|].
    destruct (Z.ltb_spec n 8); [lia|done].
Qed.

(** The reference encoder. *)
Fixpoint groups (fuel : nat) (v : Z) : bytes :=
  match fuel with
  | O => []
  | S fuel => if v <? 128 then [v] else more v :: groups fuel (v / 128)
  end.

Lemma encode_loop_groups fuel v : 0 <= v → encode_loop fuel v = groups fuel v.
Proof.
  revert v. induction fuel as [|fuel IH]; intros v Hv; [done|].
  cbn [encode_loop groups]. unfold kIncompleteMask.
  repeat case_ztest; try lia.
  - rewrite u8_small; [done|]. unfold is_byte. lia.
  - change (128 - 1) with 127.
    rewrite low_group, lor_more, Z.shiftr_div_pow2 by lia. rewrite IH; [done|]. apply Z.div_pos; lia.
Qed.

(** One more group: the rest is smaller by seven bits. *)
Lemma next_group fuel v : 128 <= v < 128 ^ Z.of_nat (S fuel) →
  0 <= v / 128 < 128 ^ Z.of_nat fuel ∧ (0 < fuel)%nat.
Proof.
  intros Hv. rewrite Nat2Z.inj_succ, Z.pow_succ_r in Hv by lia. split_and!.
  - apply Z.div_pos; lia.
  - apply Z.div_lt_upper_bound; lia.
  - destruct fuel; cbn in Hv; lia.
Qed.

Lemma groups_fuel fuel k v : (0 < fuel)%nat → 0 <= v < 128 ^ Z.of_nat fuel →
  groups (fuel + k) v = groups fuel v.
Proof.
  revert v. induction fuel as [|fuel IH]; intros v Hf Hv; [lia|].
  cbn [Nat.add groups]. case_ztest; [done|]. f_equal.
  destruct (next_group fuel v); [lia|]. by apply IH.
Qed.

Lemma groups_length_loop fuel v l : (0 < fuel)%nat → 0 <= v < 128 ^ Z.of_nat fuel →
  l + Z.of_nat (length (groups fuel v)) = length_loop fuel v (l + 1).
Proof.
  revert v l. induction fuel as [|fuel IH]; intros v l Hf Hv; [lia|].
  cbn [groups length_loop]. unfold kIncompleteMask. repeat case_ztest; try lia; [cbn; lia|].
  rewrite Z.shiftr_div_pow2 by lia. change (2 ^ 7) with 128.
  destruct (next_group fuel v) as [? ?]; [lia|]. rewrite <- IH by done. cbn [length]. lia.
Qed.

Lemma UnsafeEncode32_groups v : 0 <= v < 2 ^ 32 → UnsafeEncode32 v = groups 10 v.
Proof.
  intros Hv. rewrite (groups_fuel 5 5) by lia. unfold UnsafeEncode32. rewrite !u8_lor.
  change (Z.shiftl 1 7) with 128. change (Z.shiftl 1 14) with (128 * 128).
  change (Z.shiftl 1 21) with (128 * 128 * 128). change (Z.shiftl 1 28) with (128 * 128 * 128 * 128).
  rewrite !Z.shiftr_div_pow2 by lia.
  change (2 ^ 7) with 128. change (2 ^ 14) with (128 * 128).
  change (2 ^ 21) with (128 * 128 * 128). change (2 ^ 28) with (128 * 128 * 128 * 128).
  rewrite <- !Z.div_div by lia. cbn [groups].
  pose proof (Z.div_mod v 128). pose proof (Z.mod_pos_bound v 128). set (v1 := v / 128) in *.
  pose proof (Z.div_mod v1 128). pose proof (Z.mod_pos_bound v1 128). set (v2 := v1 / 128) in *.
  pose proof (Z.div_mod v2 128). pose proof (Z.mod_pos_bound v2 128). set (v3 := v2 / 128) in *.
  pose proof (Z.div_mod v3 128). pose proof (Z.mod_pos_bound v3 128). set (v4 := v3 / 128) in *.
  clearbody v4 v3 v2 v1.
  repeat case_ztest; try lia; rewrite u8_small by (unfold is_byte; lia); done.
Qed.

Lemma UnsafeEncode64_groups v : 0 <= v → UnsafeEncode64 v = groups 10 v.
Proof. apply encode_loop_groups. Qed.

(** The decoder reads back what the reference encoder wrote. *)
Lemma decode_groups w last fuel v shift result rest :
  (∀ s, s mod 7 = 0 → s < w → s <= last) →
  (0 < fuel)%nat → 0 <= v < 128 ^ Z.of_nat fuel →
  shift mod 7 = 0 → 0 <= shift < w → v < 2 ^ (w - shift) → 0 <= result < 2 ^ shift →
  decode_loop (λ x, x mod 2 ^ w) last (groups fuel v ++ rest) shift result =
  Some (result + v * 2 ^ shift, rest).
Proof.
  intros Hlast. revert v shift result. induction fuel as [|fuel IH];
    intros v shift result Hf Hv Hs Hsw Hvw Hr; [lia|]. cbn [groups].
  assert (Hsl : shift <= last) by (apply Hlast; lia).
  assert (Hwrap : ∀ x, 0 <= x <= v → Z.shiftl x shift mod 2 ^ w = Z.shiftl x shift).
  { intros x Hx. rewrite Z.shiftl_mul_pow2 by lia. apply Z.mod_small.
    replace (2 ^ w) with (2 ^ (w - shift) * 2 ^ shift) by (rewrite <- Z.pow_add_r by lia; f_equal; lia).
    split; [lia|]. apply Z.mul_lt_mono_pos_r; lia. }
  destruct (Z.ltb_spec v 128) as [Hsmall|Hbig]; cbn [app decode_loop];
    destruct (Z.leb_spec shift last); try lia; rewrite high_bit by (unfold is_byte; pose proof (more_byte v); lia).
  - destruct (Z.ltb_spec v 128); [|lia]. cbn [Z.eqb negb].
    rewrite Hwrap, lor_shiftl_add by lia. done.
  - pose proof (more_byte v). destruct (Z.ltb_spec (more v) 128); [lia|]. cbn [Z.eqb negb].
    rewrite low_group. replace (more v mod 128) with (v mod 128)
      by (unfold more; rewrite (Z.add_mod 128), Z_mod_same_full, Z.add_0_l, !Z.mod_mod by lia; done).
    pose proof (Z.mod_pos_bound v 128 ltac:(lia)). pose proof (Z.div_mod v 128 ltac:(lia)).
    rewrite Hwrap, lor_shiftl_add by lia.
    destruct (next_group fuel v) as [Hn Hf']; [lia|].
    assert (Hp : 2 ^ (shift + 7) = 128 * 2 ^ shift) by (rewrite Z.pow_add_r by lia; lia).
    assert (Hw7 : shift + 7 < w).
    { destruct (Z.lt_ge_cases (shift + 7) w); [done|].
      assert (2 ^ (w - shift) <= 2 ^ 7) by (apply Z.pow_le_mono_r; lia). lia. }
    rewrite IH; [do 2 f_equal; rewrite Hp; nia|lia|done|..|].
    + rewrite Z.add_mod, Hs by lia. done.
    + lia.
    + apply Z.div_lt_upper_bound; [lia|]. change 128 with (2 ^ 7). rewrite <- Z.pow_add_r by lia.
      replace (7 + (w - (shift + 7))) with (w - shift) by lia. done.
    + rewrite Hp. nia.
Qed.

Lemma Decode32_fast_path_head b q : is_byte b → Decode32 (b :: q) = Decode32Fallback (b :: q).
Proof.
  intros Hb. unfold Decode32. change 128 with kIncompleteMask.
  destruct (Z.land b kIncompleteMask =? 0) eqn:E; [|done]. unfold Decode32Fallback. cbn [decode_loop].
  rewrite E. cbn. rewrite Z.shiftl_0_r, u32_small; [done|]. unfold is_byte in Hb. lia.
Qed.

Lemma Decode32_fast_path p : bytes_ok p → Decode32 p = Decode32Fallback p.
Proof.
  destruct p as [|b q]; [done|]. intros [Hb _]%bytes_ok_cons. by apply Decode32_fast_path_head.
Qed.

Lemma groups_ok fuel x : 0 <= x → bytes_ok (groups fuel x).
Proof.
  revert x. induction fuel as [|fuel IH]; intros x Hx; cbn; [constructor|].
  case_ztest; apply bytes_ok_cons; split; auto with toft; [unfold is_byte; lia| |].
  - pose proof (more_byte x). unfold is_byte. lia.
  - apply IH, Z.div_pos; lia.
Qed.

Lemma Decode32_encode v rest : 0 <= v < 2 ^ 32 →
  Decode32 (UnsafeEncode32 v ++ rest) = Some (v, rest).
Proof.
  intros Hv. rewrite UnsafeEncode32_groups by done.
  replace (Decode32 (groups 10 v ++ rest)) with (Decode32Fallback (groups 10 v ++ rest)).
  2: { pose proof (groups_ok 10 v ltac:(lia)) as Hg. cbn [groups] in *.
       case_match; apply bytes_ok_cons in Hg as [Hb _]; symmetry; by apply Decode32_fast_path_head. }
  unfold Decode32Fallback, u32. rewrite (decode_groups 32 28);
    first [done | lia | do 2 f_equal; lia | intros s Hs; pose proof (Z.div_mod s 7); lia].
Qed.

Lemma UnsafeEncode32_ok v : 0 <= v < 2 ^ 32 → bytes_ok (UnsafeEncode32 v).
Proof. intros Hv. rewrite UnsafeEncode32_groups by done. apply groups_ok. lia. Qed.

Lemma Decode64_encode v rest : 0 <= v < 2 ^ 64 → Decode64 (UnsafeEncode64 v ++ rest) = Some (v, rest).
Proof.
  intros Hv. rewrite UnsafeEncode64_groups by lia.
  unfold Decode64, u64. rewrite (decode_groups 64 63);
    first [done | lia | do 2 f_equal; lia | intros s Hs; pose proof (Z.div_mod s 7); lia].
Qed.

(** What a successful decoding has consumed. *)
Lemma decode_loop_used w last p shift result v q :
  0 <= w → bytes_ok p → 0 <= shift → 0 <= result < 2 ^ w →
  decode_loop (λ x, x mod 2 ^ w) last p shift result = Some (v, q) →
  0 <= v < 2 ^ w ∧
  ∃ used, p = used ++ q ∧ (0 < length used)%nat ∧ 7 * Z.of_nat (length used) <= last - shift + 7.
Proof.
  intros Hw. revert shift result. induction p as [|b p IH]; intros shift result Hp Hs Hr; cbn [decode_loop];
    (destruct (Z.leb_spec shift last); [|done]); [done|].
  apply bytes_ok_cons in Hp as [Hb Hp].
  assert (Hlor : ∀ x, 0 <= Z.lor result (x mod 2 ^ w) < 2 ^ w).
  { intros x. pose proof (Z.mod_pos_bound x (2 ^ w) ltac:(lia)) as Hx.
    split; [apply Z.lor_nonneg; lia|]. apply bound_of_bits; [done|apply Z.lor_nonneg; lia|].
    intros m Hm. rewrite Z.lor_spec, !(testbit_high _ w) by lia. done. }
  destruct (negb _).
  - intros E. apply IH in E as (Hv & used & -> & Hl & Hu); [|done|lia|apply Hlor].
    split; [done|]. exists (b :: used). cbn [length app]. split_and!; [done|lia|lia].
  - intros [= <- <-]. split; [apply Hlor|]. exists [b]. cbn. split_and!; [done|lia|lia].
Qed.

(** A proper prefix of an encoding is not decoded. *)
Lemma decode_loop_prefix wrap last fuel v k shift result :
  (k < length (groups fuel v))%nat →
  decode_loop wrap last (take k (groups fuel v)) shift result = None.
Proof.
  revert v k shift result. induction fuel as [|fuel IH]; intros v k shift result Hk; [cbn in Hk; lia|].
  cbn [groups] in *. destruct k as [|k]; [rewrite take_0; cbn [decode_loop]; by destruct (shift <=? last)|].
  destruct (Z.ltb_spec v 128); [cbn in Hk; lia|]. rewrite firstn_cons. cbn [length decode_loop] in *.
  destruct (Z.leb_spec shift last); [|done]. pose proof (more_byte v). rewrite high_bit by (unfold is_byte; lia).
  destruct (Z.ltb_spec (more v) 128); [lia|]. cbn [Z.eqb negb]. apply IH. lia.
Qed.

Lemma length_prefixed value rest : Z.of_nat (length value) < 2 ^ 32 →
  Get32 (PutLengthPrefixedStringPiece [] value ++ rest) =
    (Some (Z.of_nat (length value)), value ++ rest).
Proof.
  intros Hl. unfold Get32, PutLengthPrefixedStringPiece, Put32. rewrite u32_small by lia.
  rewrite app_nil_l, <- (assoc_L (++)), Decode32_encode by (done || lia). done.
Qed.

(** C34: decoding inverts encoding: after any 32-bit value, 64-bit value or
    length-prefixed string has been appended by the matching Put, the matching
    Get returns it and leaves exactly the bytes that followed; and a stream
    that ends inside the encoding of a 64-bit value is rejected and left where
    it was. *)
Theorem Get_Put (v32 v64 : Z) (value rest : bytes) (k : nat) :
  0 <= v32 < 2 ^ 32 → 0 <= v64 < 2 ^ 64 → Z.of_nat (length value) < 2 ^ 32 →
  (k < length (Put64 [] v64))%nat →
  Get32 (Put32 [] v32 ++ rest) = (Some v32, rest) ∧
  Get64 (Put64 [] v64 ++ rest) = (Some v64, rest) ∧
  GetLengthPrefixedStringPiece (PutLengthPrefixedStringPiece [] value ++ rest) = (Some value, rest) ∧
  GetLengthPrefixedStringPiece_ptr (PutLengthPrefixedStringPiece [] value ++ rest) = Some (value, rest) ∧
  Get64 (take k (Put64 [] v64)) = (None, take k (Put64 [] v64)).
Proof.
  intros H32 H64 Hl Hk.
  split_and!.
  - unfold Get32, Put32. cbn [app]. by rewrite Decode32_encode.
  - unfold Get64, Put64. cbn [app]. by rewrite Decode64_encode.
  - unfold GetLengthPrefixedStringPiece. rewrite length_prefixed by done.
    rewrite length_app. case_ztest; [|lia]. rewrite Nat2Z.id.
    by rewrite take_app_length, drop_app_length.
  - pose proof (length_prefixed value rest Hl) as E. unfold Get32 in E.
    unfold GetLengthPrefixedStringPiece_ptr. destruct (Decode32 _) as [[len p]|]; [|done].
    injection E as -> ->. rewrite length_app. case_ztest; [lia|]. rewrite Nat2Z.id.
    by rewrite take_app_length, drop_app_length.
  - unfold Get64, Put64 in *. cbn [app] in *. rewrite UnsafeEncode64_groups in * by lia.
    unfold Decode64. by rewrite decode_loop_prefix.
Qed.

Example Get_Put_witness :
  let value := str "toft" in
  0 <= 300 < 2 ^ 32 ∧
  GetLengthPrefixedStringPiece (PutLengthPrefixedStringPiece [] value ++ [7]) = (Some value, [7]) ∧
  Put64 [] 300 = [172; 2] ∧ Get64 (take 1 (Put64 [] 300)) = (None, [172]).
Proof.
  split; [lia|].
  destruct (Get_Put 300 300 (str "toft") [7] 1) as (H1 & H2 & H3 & H4 & H5);
    [lia|lia|vm_compute; reflexivity|vm_compute; lia|].
  split; [exact H3|]. split; [vm_compute; reflexivity|exact H5].
Defined.

(** The unrolled 32-bit encoder, the looping 64-bit encoder and the length
    function agree: on 32-bit values the two encoders write the same bytes, the
    number written is what [EncodedLength] says, at most five and ten, so the
    local buffers of Put32 and Put64 suffice, the bounded encoders refuse
    exactly when the room is less than that, and ten rounds of the loops are
    enough. *)
Theorem encoders_agree (v : Z) (room : Z) (k : nat) : 0 <= v < 2 ^ 64 →
  (v < 2 ^ 32 → UnsafeEncode32 v = UnsafeEncode64 v ∧ EncodedLength v <= 5) ∧
  Z.of_nat (length (UnsafeEncode64 v)) = EncodedLength v ∧ 1 <= EncodedLength v <= 10 ∧
  (Encode64 room v = None ↔ room < EncodedLength v) ∧
  encode_loop (10 + k) v = UnsafeEncode64 v.
Proof.
  intros Hv.
  assert (Hlen : ∀ fuel x, (0 < fuel)%nat → 0 < Z.of_nat (length (groups fuel x)) <= Z.of_nat fuel).
  { clear. intros fuel. induction fuel as [|fuel IH]; intros x Hf; [lia|]. cbn.
    case_ztest; [cbn; lia|]. destruct fuel; [cbn; lia|].
    specialize (IH (x / 128) ltac:(lia)). cbn [length]. lia. }
  assert (Hel : Z.of_nat (length (groups 10 v)) = EncodedLength v).
  { unfold EncodedLength. change 1 with (0 + 1). rewrite <- groups_length_loop by lia. lia. }
  rewrite UnsafeEncode64_groups by lia. split_and!.
  - intros H32. split; [apply UnsafeEncode32_groups; lia|].
    rewrite <- Hel, (groups_fuel 5 5) by lia. pose proof (Hlen 5%nat v). lia.
  - exact Hel.
  - pose proof (Hlen 10%nat v). lia.
  - pose proof (Hlen 10%nat v). lia.
  - unfold Encode64. case_ztest; split; done || lia.
  - rewrite encode_loop_groups by lia. apply groups_fuel; lia.
Qed.

Example encoders_agree_witness :
  0 <= 2 ^ 28 < 2 ^ 64 ∧ UnsafeEncode32 (2 ^ 28) = UnsafeEncode64 (2 ^ 28) ∧ EncodedLength (2 ^ 28) = 5.
Proof.
  split; [lia|]. destruct (encoders_agree (2 ^ 28) 0 0) as [H _]; [lia|].
  split; [apply H; lia|vm_compute; reflexivity].
Defined.

(** C35: decoding is safe on arbitrary bytes: whatever the input, a value that
    is returned fits its type, was read from a non-empty prefix of at most five
    (ten) bytes inside the input, and the rest is returned untouched; the
    inlined fast path of Decode32 changes no result; and a length-prefixed piece
    that is returned is a part of the input, while a failure consumes nothing
    of it or only the length. *)
Theorem decode_safe (p : bytes) : bytes_ok p →
  Decode32 p = Decode32Fallback p ∧
  (∀ v q, Decode32 p = Some (v, q) →
    0 <= v < 2 ^ 32 ∧ ∃ used, p = used ++ q ∧ (1 <= length used <= 5)%nat) ∧
  (∀ v q, Decode64 p = Some (v, q) →
    0 <= v < 2 ^ 64 ∧ ∃ used, p = used ++ q ∧ (1 <= length used <= 10)%nat) ∧
  (∀ r q, GetLengthPrefixedStringPiece p = (r, q) →
    ∃ used, p = used ++ default [] r ++ q ∧ (length used <= 5)%nat).
Proof.
  intros Hp.
  assert (H32 : ∀ v q, Decode32 p = Some (v, q) →
    0 <= v < 2 ^ 32 ∧ ∃ used, p = used ++ q ∧ (1 <= length used <= 5)%nat).
  { intros v q E. rewrite Decode32_fast_path in E by done.
    apply (decode_loop_used 32) in E as (Hv & used & -> & Hu); [|done || lia..].
    split; [done|]. exists used. split; [done|lia]. }
  split_and!; [by apply Decode32_fast_path|done|..].
  - intros v q E. apply (decode_loop_used 64) in E as (Hv & used & -> & Hu); [|done || lia..].
    split; [done|]. exists used. split; [done|lia].
  - intros r q. unfold GetLengthPrefixedStringPiece, Get32.
    destruct (Decode32 p) as [[len p1]|] eqn:E; [|intros [= <- <-]; by exists []; split; [|cbn; lia]].
    destruct (H32 _ _ eq_refl) as (_ & used & -> & Hu). case_ztest; intros [= <- <-]; exists used;
      simpl; rewrite ?take_drop; split; done || lia.
Qed.

Example decode_safe_witness :
  bytes_ok [255; 255; 255; 255; 255; 1] ∧ Decode32 [255; 255; 255; 255; 255; 1] = None ∧
  Decode32Fallback [255; 255; 255; 255; 255; 1] = None.
Proof.
  assert (Hb : bytes_ok [255; 255; 255; 255; 255; 1]) by (apply (bool_decide_unpack _); vm_compute; exact I).
  split; [exact Hb|]. split; [vm_compute; reflexivity|].
  destruct (decode_safe _ Hb) as [H _]. rewrite <- H. vm_compute. reflexivity.
Defined.
