(* ===== verification/Coding.v ===== *)
(** * Fixed-width integers and cursors of the hfile format

    Model of storage/sstable/hfile/coding.h and coding.cpp.

    A [const char*] that reads a [std::string] through [c_str()] is the list
    of the bytes it may still read, the final NUL included; it has reached the
    end of the string when only the NUL is left.  [None] stands for leaving
    the defined behaviour of the program: reading past that NUL, a failed
    CHECK or LOG(FATAL), or an exception nobody catches. *)

From S2P Require Import Prelude Varint.

(** [ByteOrder::IsBigEndian()], a constant of the machine. *)
Class Machine := big_endian : bool.

(** ** Integers to bytes *)

(** [buf[i] = (value >> 8 * i) & 0xff] for the first [n] indices. *)
Definition little_bytes (n : nat) (value : Z) : bytes :=
  (λ i, Z.land (Z.shiftr value (8 * Z.of_nat i)) 255) <$> seq 0 n.

(** The object representation of an integer of [n] bytes on a big-endian
    machine, which [memcpy] copies. *)
Definition big_bytes (n : nat) (value : Z) : bytes := reverse (little_bytes n value).

Section Coding.
Context {M : Machine}.

Definition EncodeFixed32 (value : Z) : bytes :=
  if big_endian then big_bytes 4 value else little_bytes 4 value.
Definition EncodeFixed64 (value : Z) : bytes :=
  if big_endian then big_bytes 8 value else little_bytes 8 value.

(** The argument is converted to the unsigned parameter type. *)
Definition PutFixed32 (dst : bytes) (value : Z) : bytes := dst ++ EncodeFixed32 (u32 value).
Definition PutFixed64 (dst : bytes) (value : Z) : bytes := dst ++ EncodeFixed64 (u64 value).

(** ** Bytes to integers *)

(** The value of an object whose big-endian representation is [p]. *)
Definition big_value (p : bytes) : Z := fold_left (λ acc b, acc * 256 + b) p 0.

Definition DecodeFixed32 (p : bytes) : Z :=
  if big_endian then big_value (take 4 p)
  else Z.lor (Z.lor (Z.lor (nth 0 p 0) (Z.shiftl (nth 1 p 0) 8)) (Z.shiftl (nth 2 p 0) 16))
         (Z.shiftl (nth 3 p 0) 24).

Definition DecodeFixed64 (p : bytes) : Z :=
  if big_endian then big_value (take 8 p)
  else let lo := DecodeFixed32 p in
       let hi := DecodeFixed32 (drop 4 p) in
       Z.lor (u64 (Z.shiftl hi 32)) lo.

(** ** Cursors *)

Definition c_str (s : bytes) : bytes := s ++ [0].

(** [begin < end] and [begin > end], where [end] points at the NUL. *)
Definition at_end (p : bytes) : bool := (length p <=? 1)%nat.
Definition past_end (p : bytes) : bool := bool_decide (p = []).

(** [std::string(begin, n)], then [begin += n]; a negative [n] converts to a
    length that the constructor rejects with an exception. *)
Definition ReadBytes (n : Z) (p : bytes) : option (bytes * bytes) :=
  if ((0 <=? n) && (n <=? Z.of_nat (length p)))%bool
  then Some (take (Z.to_nat n) p, drop (Z.to_nat n) p) else None.

Definition ReadInt32 (p : bytes) : option (Z * bytes) :=
  if (4 <=? length p)%nat then Some (s32 (DecodeFixed32 p), drop 4 p) else None.

Definition ReadInt64 (p : bytes) : option (Z * bytes) :=
  if (8 <=? length p)%nat then Some (s64 (DecodeFixed64 p), drop 8 p) else None.

(** [Varint::Decode32] up to the NUL; an incomplete value is fatal. *)
Definition ReadVint (p : bytes) : option (Z * bytes) :=
  match Decode32 (take (length p - 1) p) with
  | Some (value, q) => Some (s32 value, drop (length p - 1 - length q) p)
  | None => None
  end.

End Coding.

(** ** Lemmas *)

Lemma little_bytes_S n v : little_bytes (S n) v = v mod 256 :: little_bytes n (v / 256).
Proof.
  unfold little_bytes. cbn [seq fmap list_fmap]. rewrite Z.shiftr_0_r.
  change 255 with (2 ^ 8 - 1). rewrite land_ones_mod by lia. f_equal.
  rewrite <- fmap_S_seq, <- list_fmap_compose. apply list_fmap_ext. intros i x Hx. cbn.
  change 256 with (2 ^ 8). rewrite <- Z.shiftr_div_pow2, Z.shiftr_shiftr by lia. do 2 f_equal. lia.
Qed.

Lemma little_bytes_0 v : little_bytes 0 v = [].
Proof. done. Qed.

Lemma little_bytes_length n v : length (little_bytes n v) = n.
Proof. unfold little_bytes. by rewrite length_fmap, length_seq. Qed.

Lemma little_bytes_ok n v : bytes_ok (little_bytes n v).
Proof.
  revert v. induction n as [|n IH]; intros v; [constructor|]. rewrite little_bytes_S.
  apply bytes_ok_cons. split; [|done]. unfold is_byte. apply Z.mod_pos_bound. lia.
Qed.

Lemma little_bytes_app n m v :
  little_bytes (n + m) v =
  little_bytes n (v mod 256 ^ Z.of_nat n) ++ little_bytes m (v / 256 ^ Z.of_nat n).
Proof.
  revert v. induction n as [|n IH]; intros v; [cbn; by rewrite Z.div_1_r|].
  rewrite Nat2Z.inj_succ, Z.pow_succ_r by lia. cbn [Nat.add]. rewrite !little_bytes_S, IH.
  assert (0 < 256 ^ Z.of_nat n) by (apply Z.pow_pos_nonneg; lia).
  rewrite (Z.rem_mul_r v) by lia. rewrite Z.div_div by lia. cbn [app]. f_equal; [|f_equal].
  - rewrite Z.mul_comm, Z_mod_plus_full, Z.mod_mod by lia. done.
  - f_equal. rewrite Z.mul_comm, Z.div_add by lia.
    rewrite (Z.div_small (v mod 256)) by (apply Z.mod_pos_bound; lia). lia.
Qed.

Lemma big_value_app p b : big_value (p ++ [b]) = big_value p * 256 + b.
Proof. unfold big_value. by rewrite fold_left_app. Qed.

Lemma big_value_bytes n v : 0 <= v < 256 ^ Z.of_nat n → big_value (big_bytes n v) = v.
Proof.
  unfold big_bytes. revert v. induction n as [|n IH]; intros v Hv; [cbn in *; lia|].
  rewrite little_bytes_S, reverse_cons, big_value_app.
  rewrite Nat2Z.inj_succ, Z.pow_succ_r in Hv by lia.
  rewrite IH by (split; [apply Z.div_pos; lia|apply Z.div_lt_upper_bound; lia]).
  pose proof (Z.div_mod v 256). lia.
Qed.

Lemma take_app_exact {A} n (l k : list A) : length l = n → take n (l ++ k) = l.
Proof. intros <-. apply take_app_length. Qed.

Lemma drop_app_exact {A} n (l k : list A) : length l = n → drop n (l ++ k) = k.
Proof. intros <-. apply drop_app_length. Qed.

Section Facts.
Context {M : Machine}.

Lemma EncodeFixed32_length v : length (EncodeFixed32 v) = 4%nat.
Proof.
  unfold EncodeFixed32, big_bytes. case_match; rewrite ?length_reverse; apply little_bytes_length.
Qed.

Lemma EncodeFixed64_length v : length (EncodeFixed64 v) = 8%nat.
Proof.
  unfold EncodeFixed64, big_bytes. case_match; rewrite ?length_reverse; apply little_bytes_length.
Qed.

Lemma EncodeFixed32_ok v : bytes_ok (EncodeFixed32 v).
Proof.
  unfold EncodeFixed32, big_bytes. case_match; [apply Forall_reverse|]; apply little_bytes_ok.
Qed.

Lemma EncodeFixed64_ok v : bytes_ok (EncodeFixed64 v).
Proof.
  unfold EncodeFixed64, big_bytes. case_match; [apply Forall_reverse|]; apply little_bytes_ok.
Qed.

(** Four bytes joined by shifts and ors. *)
Lemma join4 a b c d : is_byte a → is_byte b → is_byte c →
  Z.lor (Z.lor (Z.lor a (Z.shiftl b 8)) (Z.shiftl c 16)) (Z.shiftl d 24) =
  a + b * 2 ^ 8 + c * 2 ^ 16 + d * 2 ^ 24.
Proof. unfold is_byte. intros. rewrite (lor_shiftl_add a), (lor_shiftl_add _ c), (lor_shiftl_add _ d) by lia. lia. Qed.

Lemma DecodeFixed32_encode v rest : 0 <= v < 2 ^ 32 → DecodeFixed32 (EncodeFixed32 v ++ rest) = v.
Proof.
  intros Hv. unfold DecodeFixed32. rewrite (take_app_exact 4) by apply EncodeFixed32_length.
  unfold EncodeFixed32. case_match; [apply big_value_bytes; cbn; lia|].
  rewrite !little_bytes_S, little_bytes_0. cbn [nth app].
  rewrite join4 by (unfold is_byte; apply Z.mod_pos_bound; lia).
  pose proof (Z.div_mod v 256). pose proof (Z.div_mod (v / 256) 256).
  pose proof (Z.div_mod (v / 256 / 256) 256). pose proof (Z.div_mod (v / 256 / 256 / 256) 256).
  rewrite (Z.mod_small (v / 256 / 256 / 256)); [lia|].
  rewrite !Z.div_div by lia. split; [apply Z.div_pos; lia|apply Z.div_lt_upper_bound; lia].
Qed.

Lemma DecodeFixed64_encode v rest : 0 <= v < 2 ^ 64 → DecodeFixed64 (EncodeFixed64 v ++ rest) = v.
Proof.
  intros Hv. unfold DecodeFixed64. rewrite (take_app_exact 8) by apply EncodeFixed64_length.
  destruct (big_endian) eqn:E.
  { unfold EncodeFixed64. rewrite E. apply big_value_bytes. cbn. lia. }
  assert (Hs : EncodeFixed64 v = EncodeFixed32 (v mod 2 ^ 32) ++ EncodeFixed32 (v / 2 ^ 32)).
  { unfold EncodeFixed64, EncodeFixed32. rewrite E.
    by apply (little_bytes_app 4 4). }
  rewrite Hs, <- (assoc_L (++)), DecodeFixed32_encode by (apply Z.mod_pos_bound; lia).
  rewrite (drop_app_exact 4) by apply EncodeFixed32_length.
  assert (Hhi : 0 <= v / 2 ^ 32 < 2 ^ 32) by (split; [apply Z.div_pos; lia|apply Z.div_lt_upper_bound; lia]).
  rewrite DecodeFixed32_encode, Z.shiftl_mul_pow2 by lia.
  rewrite u64_small by lia. rewrite Z.lor_comm, <- Z.shiftl_mul_pow2, lor_shiftl_add
    by (try apply Z.mod_pos_bound; lia).
  pose proof (Z.div_mod v (2 ^ 32)). lia.
Qed.

Lemma s32_u32 v : s32 (u32 v) = s32 v.
Proof. unfold s32, u32. rewrite Zplus_mod_idemp_l. done. Qed.

Lemma s64_u64 v : s64 (u64 v) = s64 v.
Proof. unfold s64, u64. rewrite Zplus_mod_idemp_l. done. Qed.

(** ** What the cursor reads back *)

Lemma ReadInt32_put v rest : - 2 ^ 31 <= v < 2 ^ 31 →
  ReadInt32 (EncodeFixed32 (u32 v) ++ rest) = Some (v, rest).
Proof.
  intros Hv. unfold ReadInt32. rewrite length_app, EncodeFixed32_length. cbn [Nat.add Nat.leb].
  rewrite (drop_app_exact 4) by apply EncodeFixed32_length.
  rewrite DecodeFixed32_encode by (apply Z.mod_pos_bound; lia).
  by rewrite s32_u32, s32_small.
Qed.

Lemma ReadInt64_put v rest : - 2 ^ 63 <= v < 2 ^ 63 →
  ReadInt64 (EncodeFixed64 (u64 v) ++ rest) = Some (v, rest).
Proof.
  intros Hv. unfold ReadInt64. rewrite length_app, EncodeFixed64_length. cbn [Nat.add Nat.leb].
  rewrite (drop_app_exact 8) by apply EncodeFixed64_length.
  rewrite DecodeFixed64_encode by (apply Z.mod_pos_bound; lia).
  by rewrite s64_u64, s64_small.
Qed.

Lemma ReadVint_put v rest c : 0 <= v < 2 ^ 31 →
  ReadVint (UnsafeEncode32 v ++ rest ++ [c]) = Some (v, rest ++ [c]).
Proof.
  intros Hv. unfold ReadVint. set (p := UnsafeEncode32 v ++ rest ++ [c]).
  assert (Hp : p = (UnsafeEncode32 v ++ rest) ++ [c]) by (unfold p; by rewrite <- (assoc_L (++))).
  assert (Hl : (length p - 1)%nat = length (UnsafeEncode32 v ++ rest)).
  { rewrite Hp, length_app. cbn. lia. }
  rewrite Hl, Hp, take_app_length, Decode32_encode by lia. rewrite s32_small by lia.
  do 2 f_equal. rewrite <- (assoc_L (++)). apply drop_app_exact. rewrite length_app. lia.
Qed.

Lemma ReadBytes_put s rest : ReadBytes (Z.of_nat (length s)) (s ++ rest) = Some (s, rest).
Proof.
  unfold ReadBytes. rewrite length_app, Nat2Z.inj_add.
  destruct (Z.leb_spec 0 (Z.of_nat (length s))), (Z.leb_spec (Z.of_nat (length s))
    (Z.of_nat (length s) + Z.of_nat (length rest))); try lia. cbn [andb].
  rewrite Nat2Z.id. by rewrite take_app_length, drop_app_length.
Qed.

(** Fixed-width integers survive the file: every value of the C++ type
    written by PutFixed32 or PutFixed64, on a little- or big-endian machine, is
    four or eight bytes, is read back by ReadInt32 or ReadInt64 on a machine of
    the same byte order with the cursor just past it, and DecodeFixed32 and
    DecodeFixed64 return its unsigned pattern. *)
Theorem fixed_roundtrip (v32 v64 : Z) (rest : bytes) :
  - 2 ^ 31 <= v32 < 2 ^ 31 → - 2 ^ 63 <= v64 < 2 ^ 63 →
  ReadInt32 (PutFixed32 [] v32 ++ rest) = Some (v32, rest) ∧
  ReadInt64 (PutFixed64 [] v64 ++ rest) = Some (v64, rest) ∧
  DecodeFixed32 (PutFixed32 [] v32 ++ rest) = u32 v32 ∧
  DecodeFixed64 (PutFixed64 [] v64 ++ rest) = u64 v64 ∧
  length (PutFixed32 [] v32) = 4%nat ∧ length (PutFixed64 [] v64) = 8%nat ∧
  bytes_ok (PutFixed32 [] v32) ∧ bytes_ok (PutFixed64 [] v64).
Proof.
  intros H32 H64. unfold PutFixed32, PutFixed64. cbn [app]. split_and!.
  - by apply ReadInt32_put.
  - by apply ReadInt64_put.
  - apply DecodeFixed32_encode, Z.mod_pos_bound. lia.
  - apply DecodeFixed64_encode, Z.mod_pos_bound. lia.
  - apply EncodeFixed32_length.
  - apply EncodeFixed64_length.
  - apply EncodeFixed32_ok.
  - apply EncodeFixed64_ok.
Qed.

End Facts.

Example fixed_roundtrip_witness :
  @PutFixed32 false [] (-2) = [254; 255; 255; 255] ∧ @PutFixed32 true [] (-2) = [255; 255; 255; 254] ∧
  @ReadInt32 true (@PutFixed32 true [] (-2) ++ [9]) = Some (-2, [9]).
Proof.
  split; [vm_compute; reflexivity|]. split; [vm_compute; reflexivity|].
  apply (@fixed_roundtrip true (-2) 0 [9]); lia.
Defined.
