(* ===== verification/StdString.v ===== *)
(** * Strings, ordered maps and stable sorting of the C++ library

    What the modelled code uses of the standard library: the order of
    [std::string], [std::map] with string keys as a list in key order, and
    [std::stable_sort]. *)

From Stdlib Require Import Sorting.Sorted.
From S2P Require Import Prelude.

(** ** The order of std::string: lexicographic on unsigned bytes *)

Fixpoint str_lt (a b : bytes) : bool :=
  match a, b with
  | _, [] => false
  | [], _ :: _ => true
  | x :: a, y :: b => ((x <? y) || ((x =? y) && str_lt a b))%bool
  end.

(** [a <= b], that is [!(b < a)]. *)
Definition str_le (a b : bytes) : Prop := str_lt b a = false.

Lemma str_lt_irrefl a : str_lt a a = false.
Proof. induction a as [|x a IH]; [done|]. cbn. by rewrite Z.ltb_irrefl, Z.eqb_refl. Qed.

Lemma str_lt_trans a b c : str_lt a b = true → str_lt b c = true → str_lt a c = true.
Proof.
  revert b c. induction a as [|x a IH]; intros [|y b] [|z c]; cbn; try done.
  intros H1%orb_true_iff H2%orb_true_iff. apply orb_true_iff.
  destruct H1 as [H1|H1], H2 as [H2|H2]; bool_to_prop; [left; apply Z.ltb_lt; lia..|right].
  subst. rewrite Z.eqb_refl. cbn. eauto.
Qed.

Lemma str_lt_total a b : str_lt a b = false → str_lt b a = false → a = b.
Proof.
  revert b. induction a as [|x a IH]; intros [|y b]; cbn; try done.
  intros [H1 H2]%orb_false_iff [H3 H4]%orb_false_iff. bool_to_prop.
  assert (x = y) as -> by lia. rewrite Z.eqb_refl in *. f_equal. auto.
Qed.

Lemma str_lt_asym a b : str_lt a b = true → str_lt b a = false.
Proof.
  intros H. apply not_true_iff_false. intros H2.
  pose proof (str_lt_trans _ _ _ H H2) as H3. by rewrite str_lt_irrefl in H3.
Qed.

#[export] Instance str_le_refl : Reflexive str_le.
Proof. intros a. apply str_lt_irrefl. Qed.

#[export] Instance str_le_trans : Transitive str_le.
Proof.
  intros a b c Hab Hbc. unfold str_le in *. apply not_true_iff_false. intros Hca.
  destruct (str_lt b a) eqn:E; [done|]. destruct (str_lt a b) eqn:E2.
  - rewrite (str_lt_trans c a b) in Hbc; done.
  - rewrite (str_lt_total a b) in Hca by done. congruence.
Qed.

Lemma str_lt_le_trans a b c : str_lt a b = true → str_le b c → str_lt a c = true.
Proof.
  intros H1 H2. destruct (str_lt a c) eqn:E; [done|].
  assert (str_le c a) as H3 by done. assert (str_le b a) as H4 by (by transitivity c).
  unfold str_le in H4. congruence.
Qed.

Lemma str_le_lt_trans a b c : str_le a b → str_lt b c = true → str_lt a c = true.
Proof.
  intros H1 H2. destruct (str_lt a c) eqn:E; [done|].
  assert (str_le c b) as H3 by (by transitivity a). unfold str_le in H3. congruence.
Qed.

Lemma str_lt_le a b : str_lt a b = true → str_le a b.
Proof. apply str_lt_asym. Qed.

Lemma str_le_antisym a b : str_le a b → str_le b a → a = b.
Proof. intros. by apply str_lt_total. Qed.

Lemma str_le_nil a : str_le [] a.
Proof. by destruct a. Qed.

(** ** std::map<std::string, V>: pairs in key order *)

Section Map.
Context {V : Type}.

(** [insert]: an existing key keeps its value. *)
Fixpoint map_insert (k : bytes) (v : V) (m : list (bytes * V)) : list (bytes * V) :=
  match m with
  | [] => [(k, v)]
  | (k', v') :: m' =>
      if str_lt k k' then (k, v) :: m
      else if str_lt k' k then (k', v') :: map_insert k v m'
      else m
  end.

Fixpoint map_find (k : bytes) (m : list (bytes * V)) : option V :=
  match m with
  | [] => None
  | (k', v') :: m' => if decide (k = k') then Some v' else map_find k m'
  end.

Definition map_key_lt (x y : bytes * V) : Prop := str_lt x.1 y.1 = true.

Lemma map_find_above k m : Forall (λ e, str_lt k e.1 = true) m → map_find k m = None.
Proof.
  induction 1 as [|[k' v'] m He Hm IH]; [done|]. cbn [map_find]. rewrite decide_False; [done|].
  intros ->. cbn in He. by rewrite str_lt_irrefl in He.
Qed.

Lemma map_find_insert k v m key : StronglySorted map_key_lt m →
  map_find key (map_insert k v m) =
  match map_find key m with Some x => Some x | None => if decide (key = k) then Some v else None end.
Proof.
  induction 1 as [|[k' v'] m Hm IH Hk]; [done|].
  cbn [map_insert]. destruct (str_lt k k') eqn:E1; [|destruct (str_lt k' k) eqn:E2].
  - cbn [map_find]. destruct (decide (key = k)) as [->|]; [|by repeat case_match].
    rewrite (decide_False (P := k = k')) by (intros ->; by rewrite str_lt_irrefl in E1).
    rewrite map_find_above; [done|]. eapply Forall_impl; [exact Hk|]. intros e He. by apply (str_lt_trans _ k').
  - cbn [map_find]. rewrite IH. by destruct (decide (key = k')).
  - assert (k = k') as -> by (by apply str_lt_total). cbn [map_find].
    destruct (decide (key = k')); [done|]. by destruct (map_find key m).
Qed.

Lemma map_insert_cases k v m : map_insert k v m ≡ₚ (k, v) :: m ∨ map_insert k v m = m.
Proof.
  induction m as [|[k' v'] m IH]; [by left|]. cbn [map_insert].
  destruct (str_lt k k'); [by left|]. destruct (str_lt k' k); [|by right].
  destruct IH as [E|E]; [left; rewrite E; apply Permutation_swap|right; by rewrite E].
Qed.

Lemma map_insert_sorted k v m : StronglySorted map_key_lt m → StronglySorted map_key_lt (map_insert k v m).
Proof.
  induction 1 as [|[k' v'] m Hm IH Hk]; cbn [map_insert]; [repeat constructor|].
  destruct (str_lt k k') eqn:E1; [|destruct (str_lt k' k) eqn:E2].
  - constructor; [by constructor|]. constructor; [done|]. eapply Forall_impl; [exact Hk|].
    intros e He. by apply (str_lt_trans _ k').
  - constructor; [done|]. destruct (map_insert_cases k v m) as [E|E]; rewrite E; [by constructor|done].
  - by constructor.
Qed.
End Map.

(** ** std::stable_sort by the first component *)

Section Sort.
Context {V : Type}.
Implicit Types l : list (bytes * V).

(** An element goes before the ones already placed unless one is smaller. *)
Fixpoint sort_insert (x : bytes * V) l : list (bytes * V) :=
  match l with
  | [] => [x]
  | y :: l' => if str_lt y.1 x.1 then y :: sort_insert x l' else x :: l
  end.

Definition stable_sort l : list (bytes * V) := foldr sort_insert [] l.

Definition key_le (x y : bytes * V) : Prop := str_le x.1 y.1.

Lemma sort_insert_perm x l : sort_insert x l ≡ₚ x :: l.
Proof.
  induction l as [|y l IH]; [done|]. cbn. case_match; [|done]. rewrite IH. apply Permutation_swap.
Qed.

Lemma stable_sort_perm l : stable_sort l ≡ₚ l.
Proof. induction l as [|x l IH]; [done|]. cbn. by rewrite sort_insert_perm, IH. Qed.

Lemma sort_insert_sorted x l : StronglySorted key_le l → StronglySorted key_le (sort_insert x l).
Proof.
  induction 1 as [|y l Hl IH Hy]; cbn; [repeat constructor|].
  destruct (str_lt y.1 x.1) eqn:E.
  - constructor; [done|]. rewrite sort_insert_perm. constructor; [|done]. by apply str_lt_le.
  - constructor; [by constructor|]. constructor; [done|].
    eapply Forall_impl; [done|]. intros z Hz. unfold key_le in *. by transitivity y.1.
Qed.

Lemma stable_sort_sorted l : StronglySorted key_le (stable_sort l).
Proof. induction l as [|x l IH]; cbn; [constructor|]. by apply sort_insert_sorted. Qed.

(** Elements with the same key keep their order. *)
Lemma stable_sort_stable k l :
  filter (λ x, x.1 = k) (stable_sort l) = filter (λ x, x.1 = k) l.
Proof.
  assert (Hi : ∀ x l, filter (λ y, y.1 = k) (sort_insert x l) = filter (λ y, y.1 = k) (x :: l)).
  { clear. intros x l. induction l as [|y l IH]; [done|]. cbn [sort_insert].
    destruct (str_lt y.1 x.1) eqn:E; [|done]. rewrite !filter_cons, IH, filter_cons.
    repeat case_decide; try done. subst k.
    replace (x.1) with (y.1) in E by congruence. by rewrite str_lt_irrefl in E. }
  induction l as [|x l IH]; [done|].
  change (stable_sort (x :: l)) with (sort_insert x (stable_sort l)).
  by rewrite Hi, !filter_cons, IH.
Qed.
End Sort.
