(* ===== verification/HFile.v ===== *)
(** * The blocks of an hfile

    Model of storage/sstable/hfile: data blocks, the data index, the file
    information and the trailer, each a [Block] that is encoded to a string
    and decoded from one. *)

From S2P Require Import Prelude Varint Coding StdString.

(** [StringStartsWith] of base/string/algorithm.h. *)
Definition StringStartsWith (s prefix : bytes) : bool :=
  bool_decide (take (length prefix) s = prefix).

(** ** class Block *)

(** Encoding may update mutable members; decoding returns the function's
    result and the object, or leaves the defined behaviour (see [Coding]). *)
Class Block (B : Type) := {
  EncodeToString : B → bytes * B;
  DecodeFromString : B → bytes → option (bool * B)
}.

(** ** Compression *)

(** enum CompressType, stored as an int. *)
Definition CompressType_kLzo : Z := 0.
Definition CompressType_kZlib : Z := 1.
Definition CompressType_kUnCompress : Z := 2.
Definition CompressType_kSnappy : Z := 3.

(** The interface of compress/block; its implementations call libraries. *)
Record BlockCompression := {
  Compress : bytes → option bytes;
  Uncompress : bytes → option bytes
}.

(** ** class DataBlock *)

Definition kDataBlockMagic : bytes := str "DATABLK" ++ [34].

Record DataBlock := mkDataBlock {
  compression : option BlockCompression;
  data_items : list (bytes * bytes);
  buffer : bytes;
  compressed_size : Z
}.

(** [snappy] is what [TOFT_CREATE_BLOCK_COMPRESSION("snappy")] returns, NULL
    when no such class is registered. *)
Definition new_DataBlock (snappy : option BlockCompression) (codec : Z) : option DataBlock :=
  if (codec =? CompressType_kSnappy) || (codec =? CompressType_kLzo) then
    Some (mkDataBlock snappy [] [] 0)
  else if codec =? CompressType_kUnCompress then Some (mkDataBlock None [] [] 0)
  else None.

Section HFile.
Context {M : Machine}.

Definition DataBlock_EncodeToString (b : DataBlock) : bytes * DataBlock :=
  match compression b with
  | Some c =>
      match Compress c (buffer b) with
      | None => ([], b)
      | Some compressed =>
          (compressed, mkDataBlock (compression b) (data_items b) (buffer b)
                         (Z.of_nat (length compressed)))
      end
  | None =>
      (buffer b, mkDataBlock (compression b) (data_items b) (buffer b)
                   (Z.of_nat (length (buffer b))))
  end.

(** The loop of [DecodeInternal]; a round reads at least eight bytes, so the
    length of the string is fuel enough ([decode_items_fuel]). *)
Fixpoint decode_items (fuel : nat) (p : bytes) (items : list (bytes * bytes)) :
    option (bytes * list (bytes * bytes)) :=
  if at_end p then Some (p, items)
  else match fuel with
  | O => None
  | S fuel =>
      '(key_length, p) ← ReadInt32 p;
      '(value_length, p) ← ReadInt32 p;
      '(key, p) ← ReadBytes key_length p;
      '(value, p) ← ReadBytes value_length p;
      decode_items fuel p (items ++ [(key, value)])
  end.

Definition DecodeInternal (b : DataBlock) (s : bytes) : option (bool * DataBlock) :=
  if StringStartsWith s kDataBlockMagic then
    '(p, items) ← decode_items (length s) (drop (length kDataBlockMagic) (c_str s)) [];
    Some (negb (past_end p), mkDataBlock (compression b) items (buffer b) (compressed_size b))
  else Some (false, b).

Definition DataBlock_DecodeFromString (b : DataBlock) (s : bytes) : option (bool * DataBlock) :=
  match compression b with
  | Some c => match Uncompress c s with
              | None => Some (false, b)
              | Some uncompressed => DecodeInternal b uncompressed
              end
  | None => DecodeInternal b s
  end.

#[export] Instance DataBlock_block : Block DataBlock := {
  EncodeToString := DataBlock_EncodeToString;
  DecodeFromString := DataBlock_DecodeFromString
}.

Definition DataBlock_AddItem (key value : bytes) (b : DataBlock) : DataBlock :=
  if (bool_decide (key = []) && bool_decide (value = []))%bool then b
  else
    let buf := if bool_decide (buffer b = []) then kDataBlockMagic else buffer b in
    let buf := PutFixed32 buf (Z.of_nat (length key)) in
    let buf := PutFixed32 buf (Z.of_nat (length value)) in
    mkDataBlock (compression b) (data_items b) ((buf ++ key) ++ value) (compressed_size b).

Definition ClearItems (b : DataBlock) : DataBlock :=
  mkDataBlock (compression b) (data_items b) [] 0.

Definition GetUncompressedBufferSize (b : DataBlock) : Z := Z.of_nat (length (buffer b)).
Definition GetCompressedBufferSize (b : DataBlock) : Z := compressed_size b.
Definition GetDataItemSize (b : DataBlock) : Z := Z.of_nat (length (data_items b)).

(** The getters CHECK the index. *)
Definition DataBlock_GetKey (b : DataBlock) (index : nat) : option bytes := fst <$> data_items b !! index.
Definition DataBlock_GetValue (b : DataBlock) (index : nat) : option bytes := snd <$> data_items b !! index.

(** ** class DataIndex *)

Definition kIndexBlockMagic : bytes := str "IDXBLK!#".

Record DataBlockInfo := mkInfo { offset : Z; data_size : Z; info_key : bytes }.

Record DataIndex := mkIndex {
  block_info : list DataBlockInfo;
  index_buffer : bytes;
  last_offset : Z
}.

Definition new_DataIndex : DataIndex := mkIndex [] [] 0.

Fixpoint decode_infos (fuel : nat) (p : bytes) (infos : list DataBlockInfo) :
    option (bytes * list DataBlockInfo) :=
  if at_end p then Some (p, infos)
  else match fuel with
  | O => None
  | S fuel =>
      '(off, p) ← ReadInt64 p;
      '(size, p) ← ReadInt32 p;
      '(key_len, p) ← ReadVint p;
      '(key, p) ← ReadBytes key_len p;
      decode_infos fuel p (infos ++ [mkInfo off size key])
  end.

Definition DataIndex_DecodeFromString (x : DataIndex) (s : bytes) : option (bool * DataIndex) :=
  if StringStartsWith s kIndexBlockMagic then
    '(p, infos) ← decode_infos (length s) (drop (length kIndexBlockMagic) (c_str s)) [];
    Some (negb (past_end p), mkIndex infos (index_buffer x) (last_offset x))
  else Some (false, x).

#[export] Instance DataIndex_block : Block DataIndex := {
  EncodeToString x := (index_buffer x, x);
  DecodeFromString := DataIndex_DecodeFromString
}.

(** The sizes are [int] parameters; [last_offset_] is an [int64_t]. *)
Definition AddDataBlockInfo (compress_data_size uncompress_data_size : Z) (first_key : bytes)
    (x : DataIndex) : DataIndex :=
  let buf := if bool_decide (index_buffer x = []) then kIndexBlockMagic else index_buffer x in
  let buf := PutFixed64 buf (last_offset x) in
  let buf := PutFixed32 buf (s32 uncompress_data_size) in
  let buf := Put32 buf (u32 (Z.of_nat (length first_key))) in
  mkIndex (block_info x) (buf ++ first_key) (s64 (last_offset x + s32 compress_data_size)).

Definition DataIndex_GetBlockSize (x : DataIndex) : Z := Z.of_nat (length (block_info x)).
Definition GetOffset (x : DataIndex) (index : nat) : option Z := offset <$> block_info x !! index.
Definition GetDataSize (x : DataIndex) (index : nat) : option Z := data_size <$> block_info x !! index.
Definition DataIndex_GetKey (x : DataIndex) (index : nat) : option bytes :=
  info_key <$> block_info x !! index.

(** [block_info_[mid].key]: an index out of range is undefined behaviour. *)
Definition key_at (x : DataIndex) (i : Z) : option bytes :=
  if i <? 0 then None else info_key <$> block_info x !! Z.to_nat i.

(** The binary search; the interval shrinks, so the number of blocks plus one
    is fuel enough. *)
Fixpoint find_loop (fuel : nat) (x : DataIndex) (key : bytes) (lo hi mid : Z) : option Z :=
  match fuel with
  | O => None
  | S fuel =>
      if lo <=? hi then
        let mid := (lo + hi) ÷ 2 in
        cur_key ← key_at x mid;
        if str_lt cur_key key then find_loop fuel x key (mid + 1) hi mid
        else find_loop fuel x key lo (mid - 1) mid
      else Some mid
  end.

Definition FindMinimalBlock (x : DataIndex) (key : bytes) : option Z :=
  mid ← find_loop (S (length (block_info x))) x key 0 (DataIndex_GetBlockSize x - 1) 0;
  cur_key ← key_at x mid;
  if str_lt cur_key key then Some mid
  else Some (if 0 <? mid then mid - 1 else mid).

(** ** class FileInfo *)

Definition RESERVED_PREFIX : bytes := str "hfile.".
Definition AVG_KEY_LEN : bytes := RESERVED_PREFIX ++ str "AVG_KEY_LEN".
Definition AVG_VALUE_LEN : bytes := RESERVED_PREFIX ++ str "AVG_VALUE_LEN".
Definition COMPARATOR : bytes := RESERVED_PREFIX ++ str "COMPARATOR".
Definition LASTKEY : bytes := RESERVED_PREFIX ++ str "LASTKEY".

Record FileInfo := mkFileInfo {
  meta_items : list (bytes * bytes);
  item_num : Z;
  last_key : bytes;
  avg_key_len : Z;
  avg_value_len : Z;
  comparator : bytes;
  fi_buffer : bytes
}.

Definition new_FileInfo : FileInfo :=
  mkFileInfo [] 4 [] 0 0 (str "org.apache.hadoop.hbase.util.Bytes$ByteArrayComparator") [].

(** The setters take [int32_t] parameters. *)
Definition set_last_key (k : bytes) (x : FileInfo) : FileInfo :=
  mkFileInfo (meta_items x) (item_num x) k (avg_key_len x) (avg_value_len x) (comparator x) (fi_buffer x).
Definition set_avg_key_len (n : Z) (x : FileInfo) : FileInfo :=
  mkFileInfo (meta_items x) (item_num x) (last_key x) (s32 n) (avg_value_len x) (comparator x) (fi_buffer x).
Definition set_avg_value_len (n : Z) (x : FileInfo) : FileInfo :=
  mkFileInfo (meta_items x) (item_num x) (last_key x) (avg_key_len x) (s32 n) (comparator x) (fi_buffer x).
Definition set_comparator (c : bytes) (x : FileInfo) : FileInfo :=
  mkFileInfo (meta_items x) (item_num x) (last_key x) (avg_key_len x) (avg_value_len x) c (fi_buffer x).
Definition set_item_num (n : Z) (x : FileInfo) : FileInfo :=
  mkFileInfo (meta_items x) (s32 n) (last_key x) (avg_key_len x) (avg_value_len x) (comparator x) (fi_buffer x).
Definition set_meta_items (m : list (bytes * bytes)) (x : FileInfo) : FileInfo :=
  mkFileInfo m (item_num x) (last_key x) (avg_key_len x) (avg_value_len x) (comparator x) (fi_buffer x).

(** [Varint::Put32(&result, s.length())] with its conversion. *)
Definition PutLength (dst s : bytes) : bytes := Put32 dst (u32 (Z.of_nat (length s))).

Definition FileInfo_EncodeToString (x : FileInfo) : bytes :=
  let r := PutFixed32 [] (item_num x) in
  let r := (PutLength r AVG_KEY_LEN ++ AVG_KEY_LEN) ++ [1] in
  let r := PutFixed32 (Put32 r 4) (avg_key_len x) in
  let r := (PutLength r AVG_VALUE_LEN ++ AVG_VALUE_LEN) ++ [1] in
  let r := PutFixed32 (Put32 r 4) (avg_value_len x) in
  let r := (PutLength r COMPARATOR ++ COMPARATOR) ++ [1] in
  let r := PutLength r (comparator x) ++ comparator x in
  let r := (PutLength r LASTKEY ++ LASTKEY) ++ [1] in
  let r := PutLength r (last_key x) ++ last_key x in
  r ++ fi_buffer x.

(** One round of the loop of [DecodeFromString]. *)
Definition decode_meta (p : bytes) (x : FileInfo) : option (bytes * FileInfo) :=
  '(key_length, p) ← ReadVint p;
  '(key, p) ← ReadBytes key_length p;
  p ← match p with [] => None | _ :: p => Some p end;
  '(value_length, p) ← ReadVint p;
  if bool_decide (key = AVG_KEY_LEN) then
    '(n, p) ← ReadInt32 p; Some (p, set_avg_key_len n x)
  else if bool_decide (key = AVG_VALUE_LEN) then
    '(n, p) ← ReadInt32 p; Some (p, set_avg_value_len n x)
  else if bool_decide (key = COMPARATOR) then
    '(c, p) ← ReadBytes value_length p; Some (p, set_comparator c x)
  else if bool_decide (key = LASTKEY) then
    '(k, p) ← ReadBytes value_length p; Some (p, set_last_key k x)
  else
    '(value, p) ← ReadBytes value_length p;
    Some (p, set_meta_items (meta_items x ++ [(key, value)]) x).

Fixpoint decode_metas (fuel : nat) (p : bytes) (x : FileInfo) : option (bytes * FileInfo) :=
  if at_end p then Some (p, x)
  else match fuel with
  | O => None
  | S fuel => '(p, x) ← decode_meta p x; decode_metas fuel p x
  end.

Definition FileInfo_DecodeFromString (x : FileInfo) (s : bytes) : option (bool * FileInfo) :=
  '(n, p) ← ReadInt32 (c_str s);
  '(_, x) ← decode_metas (length s) p (set_item_num n x);
  Some (true, x).

#[export] Instance FileInfo_block : Block FileInfo := {
  EncodeToString x := (FileInfo_EncodeToString x, x);
  DecodeFromString := FileInfo_DecodeFromString
}.

Definition FileInfo_AddItem (key value : bytes) (x : FileInfo) : FileInfo :=
  let buf := (PutLength (fi_buffer x) key ++ key) ++ [1] in
  let buf := PutLength buf value ++ value in
  mkFileInfo (meta_items x) (s32 (item_num x + 1)) (last_key x) (avg_key_len x) (avg_value_len x)
    (comparator x) buf.

(** ** class FileTrailer *)

Definition kTrailerBlockMagic : bytes := str "TRABLK" ++ [28; 30].

Record FileTrailer := mkTrailer {
  file_info_offset : Z;
  data_index_offset : Z;
  data_index_count : Z;
  meta_index_offset : Z;
  meta_index_count : Z;
  total_uncompressed_bytes : Z;
  entry_count : Z;
  compress_type : Z;
  version : Z
}.

Definition kCurrentVersion : Z := 1.
Definition new_FileTrailer : FileTrailer :=
  mkTrailer (-1) (-1) 0 0 0 0 0 CompressType_kUnCompress kCurrentVersion.

Definition TrailerSize : Z := 4 * 5 + 8 * 4 + Z.of_nat (length kTrailerBlockMagic).

Definition FileTrailer_EncodeToString (t : FileTrailer) : bytes :=
  let r := kTrailerBlockMagic in
  let r := PutFixed64 r (file_info_offset t) in
  let r := PutFixed64 r (data_index_offset t) in
  let r := PutFixed32 r (data_index_count t) in
  let r := PutFixed64 r (meta_index_offset t) in
  let r := PutFixed32 r (meta_index_count t) in
  let r := PutFixed64 r (total_uncompressed_bytes t) in
  let r := PutFixed32 r (entry_count t) in
  let r := PutFixed32 r (compress_type t) in
  PutFixed32 r (version t).

Definition FileTrailer_DecodeFromString (t : FileTrailer) (s : bytes) : option (bool * FileTrailer) :=
  if negb (Z.of_nat (length s) =? TrailerSize) then Some (false, t)
  else if negb (StringStartsWith s kTrailerBlockMagic) then Some (false, t)
  else
    let p := drop (length kTrailerBlockMagic) (c_str s) in
    '(fio, p) ← ReadInt64 p;
    '(dio, p) ← ReadInt64 p;
    '(dic, p) ← ReadInt32 p;
    '(mio, p) ← ReadInt64 p;
    '(mic, p) ← ReadInt32 p;
    '(tub, p) ← ReadInt64 p;
    '(ec, p) ← ReadInt32 p;
    '(ct, p) ← ReadInt32 p;
    '(ver, _) ← ReadInt32 p;
    Some (true, mkTrailer fio dio dic mio mic tub ec ct ver).

#[export] Instance FileTrailer_block : Block FileTrailer := {
  EncodeToString t := (FileTrailer_EncodeToString t, t);
  DecodeFromString := FileTrailer_DecodeFromString
}.

End HFile.
