(* ===== verification/HFileFacts.v ===== *)
(** * The blocks of an hfile read back what was written

    [BlockSpec] is what a block class promises to the table writer and
    reader: decoding what a block encodes to gives an object with the content
    the block represents.  The four block classes are its instances.  The
    binary search of the data index is proved against its specification. *)

From Stdlib Require Import Sorting.Sorted.
From S2P Require Import Prelude Varint Coding StdString HFile.

(** ** The interface *)

(** [represents b v]: [b] was built up to hold [v]; [readable b r]: [r] is an
    object ready to decode what [b] encodes to; [contents r]: what the getters
    of [r] show. *)
Class BlockSpec (B V : Type) `{Block B} := {
  represents : B → V → Prop;
  readable : B → B → Prop;
  contents : B → V;
  block_roundtrip b v r : represents b v → readable b r →
    ∃ r', DecodeFromString r (EncodeToString b).1 = Some (true, r') ∧ contents r' = v
}.

Lemma StringStartsWith_app p s : StringStartsWith (p ++ s) p = true.
Proof. unfold StringStartsWith. rewrite take_app_length. by apply bool_decide_eq_true. Qed.

Lemma at_end_app s c : s ≠ [] → at_end (s ++ [c]) = false.
Proof. intros Hs. unfold at_end. rewrite length_app. destruct s; [done|]. cbn. by destruct s. Qed.

Section Facts.
Context {M : Machine}.

(** Appending is all the Put functions do. *)
Lemma PutFixed32_app dst v : PutFixed32 dst v = dst ++ PutFixed32 [] v.
Proof. done. Qed.
Lemma PutFixed64_app dst v : PutFixed64 dst v = dst ++ PutFixed64 [] v.
Proof. done. Qed.
Lemma Put32_app dst v : Put32 dst v = dst ++ Put32 [] v.
Proof. done. Qed.

(** ** Data blocks *)

Definition encode_item (e : bytes * bytes) : bytes :=
  PutFixed32 [] (Z.of_nat (length e.1)) ++ PutFixed32 [] (Z.of_nat (length e.2)) ++ e.1 ++ e.2.

(** Strings whose length an [int32_t] holds. *)
Definition short (s : bytes) : Prop := Z.of_nat (length s) < 2 ^ 31.
Definition short_item (e : bytes * bytes) : Prop := short e.1 ∧ short e.2.

Definition block_bytes (items : list (bytes * bytes)) : bytes :=
  match items with [] => [] | _ => kDataBlockMagic ++ (items ≫= encode_item) end.

Lemma encode_item_length e :
  length (encode_item e) = (8 + length e.1 + length e.2)%nat.
Proof.
  unfold encode_item, PutFixed32. cbn [app]. rewrite !length_app, !EncodeFixed32_length. lia.
Qed.

Lemma decode_items_encode items fuel acc :
  Forall short_item items → (length (items ≫= encode_item) <= fuel)%nat →
  decode_items fuel ((items ≫= encode_item) ++ [0]) acc = Some ([0], acc ++ items).
Proof.
  revert fuel acc. induction items as [|[k v] items IH]; intros fuel acc Hs Hf.
  { rewrite app_nil_r. by destruct fuel. }
  apply Forall_cons in Hs as [[Hk Hv] Hs]. cbn [mbind list_bind] in *.
  assert (Hl := encode_item_length (k, v)). rewrite length_app in Hf.
  destruct fuel as [|fuel]; [lia|]. cbn [decode_items].
  rewrite at_end_app by (intros E; apply (f_equal length) in E; rewrite length_app, Hl in E; discriminate E).
  unfold encode_item at 1, PutFixed32. cbn [app fst snd]. rewrite <- !(assoc_L (++)).
  unfold short in *. cbn in Hk, Hv.
  rewrite ReadInt32_put by lia. cbn. rewrite ReadInt32_put by lia. cbn.
  rewrite ReadBytes_put. cbn. rewrite ReadBytes_put. cbn.
  rewrite IH by (done || lia). by rewrite <- (assoc_L (++)).
Qed.

(** More fuel than the length of the string changes nothing. *)
Lemma ReadInt32_length p n q : ReadInt32 p = Some (n, q) → length p = (4 + length q)%nat.
Proof.
  unfold ReadInt32. destruct (Nat.leb_spec 4 (length p)); [|done]. intros [= _ <-].
  rewrite length_drop. lia.
Qed.

Lemma ReadBytes_length n p s q : ReadBytes n p = Some (s, q) → (length q <= length p)%nat.
Proof.
  unfold ReadBytes. case_match; [|done]. intros [= _ <-]. rewrite length_drop. lia.
Qed.

Lemma decode_items_fuel fuel k p acc :
  (length p <= S fuel)%nat → decode_items (fuel + k) p acc = decode_items fuel p acc.
Proof.
  revert p acc. induction fuel as [|fuel IH]; intros p acc Hp.
  { assert (E : at_end p = true) by (unfold at_end; apply Nat.leb_le; lia).
    destruct k; cbn; by rewrite E. }
  cbn. destruct (at_end p); [done|].
  destruct (ReadInt32 p) as [[kl p1]|] eqn:E1; [|done]. cbn.
  destruct (ReadInt32 p1) as [[vl p2]|] eqn:E2; [|done]. cbn.
  destruct (ReadBytes kl p2) as [[key p3]|] eqn:E3; [|done]. cbn.
  destruct (ReadBytes vl p3) as [[value p4]|] eqn:E4; [|done]. cbn.
  apply ReadInt32_length in E1, E2. apply ReadBytes_length in E3, E4. apply IH. lia.
Qed.

Lemma DecodeInternal_encode b items : items ≠ [] → Forall short_item items →
  DecodeInternal b (block_bytes items) =
  Some (true, mkDataBlock (compression b) items (buffer b) (compressed_size b)).
Proof.
  intros Hne Hs. unfold DecodeInternal, block_bytes. destruct items as [|e items]; [done|].
  set (l := e :: items) in *. rewrite StringStartsWith_app. unfold c_str.
  rewrite <- (assoc_L (++)), (drop_app_exact (length kDataBlockMagic)) by done.
  rewrite decode_items_encode by (done || (rewrite length_app; lia)). done.
Qed.

(** A compression that gives back what it was given; none at all does. *)
Definition lossless (c : option BlockCompression) : Prop :=
  match c with
  | None => True
  | Some c => ∀ s, ∃ z, Compress c s = Some z ∧ Uncompress c z = Some s
  end.

#[export] Program Instance DataBlock_spec : BlockSpec DataBlock (list (bytes * bytes)) := {
  represents b items := lossless (compression b) ∧ buffer b = block_bytes items ∧
                        items ≠ [] ∧ Forall short_item items;
  readable b r := compression r = compression b;
  contents := data_items
}.
Next Obligation.
  intros b items r (Hc & Hb & Hne & Hs) Hr. cbn in *.
  unfold DataBlock_DecodeFromString, DataBlock_EncodeToString. rewrite Hr, Hb.
  destruct (compression b) as [c|]; cbn.
  - destruct (Hc (block_bytes items)) as (z & -> & Hz). cbn. rewrite Hz.
    rewrite DecodeInternal_encode by done. eauto.
  - rewrite DecodeInternal_encode by done. eauto.
Qed.

(** Decoding keeps the codec of the block. *)
Lemma DecodeFromString_compression b s ok b' :
  DecodeFromString b s = Some (ok, b') → compression b' = compression b.
Proof.
  assert (Hi : ∀ t, DecodeInternal b t = Some (ok, b') → compression b' = compression b).
  { intros t. unfold DecodeInternal. case_match; [|by intros [= _ <-]].
    destruct (decode_items _ _ _) as [[p l]|]; [|done]. by intros [= _ <-]. }
  cbn. unfold DataBlock_DecodeFromString. repeat case_match; eauto. by intros [= _ <-].
Qed.

Lemma AddItem_buffer k v b items : (k, v) ≠ ([], []) → buffer b = block_bytes items →
  buffer (DataBlock_AddItem k v b) = block_bytes (items ++ [(k, v)]).
Proof.
  intros Hne Hb. unfold DataBlock_AddItem.
  destruct (bool_decide (k = []) && bool_decide (v = [])) eqn:E.
  { bool_to_prop. by do 2 case_bool_decide; subst. }
  cbn [buffer]. rewrite Hb. unfold PutFixed32.
  assert (Hif : (if bool_decide (block_bytes items = []) then kDataBlockMagic else block_bytes items) =
    kDataBlockMagic ++ (items ≫= encode_item)).
  { destruct items as [|e items]; [by rewrite app_nil_r|]. done. }
  rewrite Hif. unfold block_bytes. destruct (items ++ [(k, v)]) eqn:E2; [by destruct items|].
  rewrite <- E2, bind_app. cbn [mbind list_bind]. unfold encode_item at 2, PutFixed32. cbn [app fst snd].
  by rewrite app_nil_r, <- !(assoc_L (++)).
Qed.

Lemma AddItem_compression k v b : compression (DataBlock_AddItem k v b) = compression b.
Proof. unfold DataBlock_AddItem. by case_match. Qed.

(** ** The data index *)

Definition encode_info (i : DataBlockInfo) : bytes :=
  PutFixed64 [] (offset i) ++ PutFixed32 [] (data_size i) ++
  UnsafeEncode32 (Z.of_nat (length (info_key i))) ++ info_key i.

Definition info_ok (i : DataBlockInfo) : Prop :=
  - 2 ^ 63 <= offset i < 2 ^ 63 ∧ - 2 ^ 31 <= data_size i < 2 ^ 31 ∧ short (info_key i).

Definition index_bytes (infos : list DataBlockInfo) : bytes :=
  match infos with [] => [] | _ => kIndexBlockMagic ++ (infos ≫= encode_info) end.

Lemma encode_info_length i : (8 < length (encode_info i))%nat.
Proof.
  unfold encode_info, PutFixed64, PutFixed32. cbn [app].
  rewrite !length_app, EncodeFixed64_length, EncodeFixed32_length. lia.
Qed.

Lemma decode_infos_encode infos fuel acc :
  Forall info_ok infos → (length (infos ≫= encode_info) <= fuel)%nat →
  decode_infos fuel ((infos ≫= encode_info) ++ [0]) acc = Some ([0], acc ++ infos).
Proof.
  revert fuel acc. induction infos as [|[off size key] infos IH]; intros fuel acc Hs Hf.
  { rewrite app_nil_r. by destruct fuel. }
  apply Forall_cons in Hs as [(Ho & Hd & Hk) Hs]. cbn [mbind list_bind] in *.
  assert (Hl := encode_info_length (mkInfo off size key)). rewrite length_app in Hf.
  destruct fuel as [|fuel]; [lia|]. cbn [decode_infos].
  rewrite at_end_app by (intros E; apply (f_equal length) in E; rewrite length_app in E; cbn [length] in E; lia).
  unfold encode_info at 1, PutFixed64, PutFixed32. cbn [app offset data_size info_key] in *.
  rewrite <- !(assoc_L (++)). unfold short in Hk.
  rewrite ReadInt64_put by lia. cbn. rewrite ReadInt32_put by lia. cbn.
  rewrite (assoc_L (++) key). rewrite ReadVint_put by lia. cbn. rewrite <- (assoc_L (++) key).
  rewrite ReadBytes_put. cbn. rewrite IH by (done || lia). by rewrite <- (assoc_L (++)).
Qed.

#[export] Program Instance DataIndex_spec : BlockSpec DataIndex (list DataBlockInfo) := {
  represents x infos := index_buffer x = index_bytes infos ∧ infos ≠ [] ∧ Forall info_ok infos;
  readable x r := True;
  contents := block_info
}.
Next Obligation.
  intros x infos r (Hx & Hne & Hs) _. cbn in *. rewrite Hx. unfold DataIndex_DecodeFromString.
  destruct infos as [|i infos]; [done|]. unfold index_bytes. set (l := i :: infos) in *.
  rewrite StringStartsWith_app. unfold c_str.
  rewrite <- (assoc_L (++)), (drop_app_exact (length kIndexBlockMagic)) by done.
  rewrite decode_infos_encode by (done || (rewrite length_app; lia)). cbn. eauto.
Qed.

Lemma AddDataBlockInfo_buffer c u k x infos : short k →
  index_buffer x = index_bytes infos →
  index_buffer (AddDataBlockInfo c u k x) = index_bytes (infos ++ [mkInfo (last_offset x) (s32 u) k]).
Proof.
  intros Hk Hx. unfold AddDataBlockInfo. cbn [index_buffer]. rewrite Hx.
  assert (Hif : (if bool_decide (index_bytes infos = []) then kIndexBlockMagic else index_bytes infos) =
    kIndexBlockMagic ++ (infos ≫= encode_info)).
  { destruct infos as [|e infos]; [by rewrite app_nil_r|]. done. }
  rewrite Hif. unfold index_bytes. destruct (infos ++ [_]) eqn:E2; [by destruct infos|].
  rewrite <- E2, bind_app. cbn [mbind list_bind]. unfold short in Hk.
  assert (He : encode_info (mkInfo (last_offset x) (s32 u) k) =
    EncodeFixed64 (u64 (last_offset x)) ++ EncodeFixed32 (u32 (s32 u)) ++
    UnsafeEncode32 (Z.of_nat (length k)) ++ k) by done.
  rewrite He. unfold PutFixed64, PutFixed32, Put32. rewrite (u32_small (Z.of_nat _)) by lia.
  by rewrite app_nil_r, <- !(assoc_L (++)).
Qed.

(** ** The file information *)

Definition encode_meta (e : bytes * bytes) : bytes :=
  UnsafeEncode32 (Z.of_nat (length e.1)) ++ e.1 ++ [1] ++
  UnsafeEncode32 (Z.of_nat (length e.2)) ++ e.2.

Definition reserved_keys : list bytes := [AVG_KEY_LEN; AVG_VALUE_LEN; COMPARATOR; LASTKEY].

(** The members of a FileInfo but for its buffer. *)
Definition info_content (x : FileInfo) : FileInfo :=
  mkFileInfo (meta_items x) (item_num x) (last_key x) (avg_key_len x) (avg_value_len x)
    (comparator x) [].

Definition info_small (x : FileInfo) : Prop :=
  - 2 ^ 31 <= item_num x < 2 ^ 31 ∧ - 2 ^ 31 <= avg_key_len x < 2 ^ 31 ∧
  - 2 ^ 31 <= avg_value_len x < 2 ^ 31 ∧ short (comparator x) ∧ short (last_key x).

Lemma PutLength_short dst s : short s → PutLength dst s = dst ++ UnsafeEncode32 (Z.of_nat (length s)).
Proof. intros Hs. unfold PutLength, Put32. unfold short in Hs. by rewrite u32_small by lia. Qed.

Lemma UnsafeEncode32_nonempty v : UnsafeEncode32 v ≠ [].
Proof. unfold UnsafeEncode32. by repeat case_match. Qed.

(** The head of every item: its key, the byte 1 and the length of its value. *)
Lemma decode_meta_head {A} key n rest (k : bytes → Z → bytes → option A) :
  short key → 0 <= n < 2 ^ 31 →
  ('(key_length, p) ← ReadVint (UnsafeEncode32 (Z.of_nat (length key)) ++ key ++ [1] ++
                                 UnsafeEncode32 n ++ rest ++ [0]);
   '(key, p) ← ReadBytes key_length p;
   p ← match p with [] => None | _ :: p => Some p end;
   '(value_length, p) ← ReadVint p;
   k key value_length p) = k key n (rest ++ [0]).
Proof.
  intros Hk Hn. unfold short in Hk.
  rewrite (assoc_L (++) (UnsafeEncode32 n)), (assoc_L (++) [1]), (assoc_L (++) key).
  rewrite ReadVint_put by lia. cbn [mbind option_bind]. rewrite <- (assoc_L (++)), ReadBytes_put.
  cbn [mbind option_bind app]. rewrite <- (assoc_L (++)), ReadVint_put by lia. done.
Qed.

Lemma decode_meta_item key value x rest :
  short key → short value → key ∉ reserved_keys →
  decode_meta (encode_meta (key, value) ++ rest ++ [0]) x =
  Some (rest ++ [0], set_meta_items (meta_items x ++ [(key, value)]) x).
Proof.
  intros Hk Hv Hr. unfold decode_meta, encode_meta. cbn [fst snd]. rewrite <- !(assoc_L (++)).
  rewrite (assoc_L (++) value), decode_meta_head by (done || unfold short in *; lia).
  unfold reserved_keys in Hr. rewrite !bool_decide_eq_false_2 by set_solver.
  rewrite <- (assoc_L (++)), ReadBytes_put. done.
Qed.

(** An item that holds a four-byte integer. *)
Definition encode_avg (key : bytes) (n : Z) : bytes :=
  UnsafeEncode32 (Z.of_nat (length key)) ++ key ++ [1] ++ UnsafeEncode32 4 ++ PutFixed32 [] n.

Lemma decode_meta_avg_key n x rest : - 2 ^ 31 <= n < 2 ^ 31 →
  decode_meta (encode_avg AVG_KEY_LEN n ++ rest ++ [0]) x = Some (rest ++ [0], set_avg_key_len n x).
Proof.
  intros Hn. unfold decode_meta, encode_avg. rewrite <- !(assoc_L (++)).
  rewrite (assoc_L (++) (PutFixed32 [] n)), decode_meta_head by (done || lia).
  rewrite bool_decide_eq_true_2, <- (assoc_L (++)) by done. unfold PutFixed32. cbn [app].
  by rewrite ReadInt32_put.
Qed.

Lemma decode_meta_avg_value n x rest : - 2 ^ 31 <= n < 2 ^ 31 →
  decode_meta (encode_avg AVG_VALUE_LEN n ++ rest ++ [0]) x = Some (rest ++ [0], set_avg_value_len n x).
Proof.
  intros Hn. unfold decode_meta, encode_avg. rewrite <- !(assoc_L (++)).
  rewrite (assoc_L (++) (PutFixed32 [] n)), decode_meta_head by (done || lia).
  rewrite bool_decide_eq_false_2, bool_decide_eq_true_2, <- (assoc_L (++)) by done.
  unfold PutFixed32. cbn [app]. by rewrite ReadInt32_put.
Qed.

Lemma decode_meta_comparator c x rest : short c →
  decode_meta (encode_meta (COMPARATOR, c) ++ rest ++ [0]) x = Some (rest ++ [0], set_comparator c x).
Proof.
  intros Hc. unfold decode_meta, encode_meta. cbn [fst snd]. rewrite <- !(assoc_L (++)).
  rewrite (assoc_L (++) c), decode_meta_head by (done || unfold short in *; lia).
  rewrite !bool_decide_eq_false_2, bool_decide_eq_true_2, <- (assoc_L (++)) by done.
  by rewrite ReadBytes_put.
Qed.

Lemma decode_meta_last_key k x rest : short k →
  decode_meta (encode_meta (LASTKEY, k) ++ rest ++ [0]) x = Some (rest ++ [0], set_last_key k x).
Proof.
  intros Hc. unfold decode_meta, encode_meta. cbn [fst snd]. rewrite <- !(assoc_L (++)).
  rewrite (assoc_L (++) k), decode_meta_head by (done || unfold short in *; lia).
  rewrite !bool_decide_eq_false_2, bool_decide_eq_true_2, <- (assoc_L (++)) by done.
  by rewrite ReadBytes_put.
Qed.

(** What remains to be read ends with the NUL. *)
Class Ended (p : bytes) : Prop := ended : ∃ s, p = s ++ [0].

#[export] Instance ended_nul : Ended [0].
Proof. by exists []. Qed.

#[export] Instance ended_app s p : Ended p → Ended (s ++ p).
Proof. intros [t ->]. exists (s ++ t). by rewrite (assoc_L (++)). Qed.

Lemma decode_metas_step fuel head tail x x' : head ≠ [] → Ended tail →
  (∀ rest, decode_meta (head ++ rest ++ [0]) x = Some (rest ++ [0], x')) →
  decode_metas (S fuel) (head ++ tail) x = decode_metas fuel tail x'.
Proof.
  intros Hh [rest ->] E. cbn [decode_metas]. rewrite E, (assoc_L (++)), at_end_app; [done|].
  by destruct head.
Qed.

Lemma encode_avg_nonempty k n : encode_avg k n ≠ [].
Proof.
  unfold encode_avg. intros H. apply app_nil in H as [H _]. by apply UnsafeEncode32_nonempty in H.
Qed.

Lemma encode_meta_nonempty e : encode_meta e ≠ [].
Proof.
  unfold encode_meta. intros H. apply app_nil in H as [H _]. by apply UnsafeEncode32_nonempty in H.
Qed.

Lemma set_meta_items_twice m1 m2 x : set_meta_items m2 (set_meta_items m1 x) = set_meta_items m2 x.
Proof. done. Qed.

Lemma decode_metas_items items fuel x :
  Forall short_item items → Forall (λ e, e.1 ∉ reserved_keys) items → (length items <= fuel)%nat →
  decode_metas fuel ((items ≫= encode_meta) ++ [0]) x =
  Some ([0], set_meta_items (meta_items x ++ items) x).
Proof.
  revert fuel x. induction items as [|[k v] items IH]; intros fuel x Hs Hr Hf.
  { rewrite app_nil_r. destruct x. by destruct fuel. }
  apply Forall_cons in Hs as [[Hk Hv] Hs]. apply Forall_cons in Hr as [Hk2 Hr].
  destruct fuel as [|fuel]; [cbn in Hf; lia|]. cbn [mbind list_bind]. rewrite <- (assoc_L (++)).
  erewrite decode_metas_step;
    [|apply encode_meta_nonempty|apply _|intros; by apply decode_meta_item].
  rewrite IH by (done || (cbn in Hf; lia)). rewrite set_meta_items_twice. cbn [meta_items set_meta_items].
  by rewrite <- (assoc_L (++)).
Qed.

Lemma FileInfo_Encode_eq x : short (comparator x) → short (last_key x) →
  FileInfo_EncodeToString x =
  PutFixed32 [] (item_num x) ++
  encode_avg AVG_KEY_LEN (avg_key_len x) ++ encode_avg AVG_VALUE_LEN (avg_value_len x) ++
  encode_meta (COMPARATOR, comparator x) ++ encode_meta (LASTKEY, last_key x) ++ fi_buffer x.
Proof.
  intros Hc Hl. unfold FileInfo_EncodeToString, encode_meta, encode_avg. cbn [fst snd].
  rewrite (PutLength_short _ (comparator x)), (PutLength_short _ (last_key x)) by done.
  rewrite !PutLength_short by done. unfold PutFixed32, Put32. rewrite !app_nil_l.
  by rewrite <- !(assoc_L (++)).
Qed.

Lemma FileInfo_decode_encode x r items :
  info_small x → fi_buffer x = items ≫= encode_meta → Forall short_item items →
  Forall (λ e, e.1 ∉ reserved_keys) items → meta_items r = [] →
  FileInfo_DecodeFromString r (FileInfo_EncodeToString x) =
  Some (true, mkFileInfo items (item_num x) (last_key x) (avg_key_len x) (avg_value_len x)
                (comparator x) (fi_buffer r)).
Proof.
  intros (Hn & Hk & Hv & Hc & Hl) Hb Hs Hr Hm. rewrite FileInfo_Encode_eq by done. rewrite Hb.
  set (s := PutFixed32 [] (item_num x) ++ _).
  assert (Hfuel : ∃ k, length s = (4 + (length items + k))%nat).
  { assert (Hi : (length items <= length (items ≫= encode_meta))%nat).
    { clear. induction items as [|e items IH]; [done|]. cbn. rewrite length_app.
      pose proof (encode_meta_nonempty e). destruct (encode_meta e); [done|]. cbn. lia. }
    assert (4 + length items <= length s)%nat.
    { unfold s, PutFixed32. rewrite !length_app, EncodeFixed32_length. lia. }
    exists (length s - 4 - length items)%nat. lia. }
  destruct Hfuel as [k Hfuel]. unfold FileInfo_DecodeFromString. rewrite Hfuel. unfold s, c_str.
  clear s Hfuel. rewrite <- (assoc_L (++)). unfold PutFixed32 at 1. cbn [app].
  rewrite ReadInt32_put by done. cbn [mbind option_bind]. rewrite <- !(assoc_L (++)).
  cbn [Nat.add].
  erewrite decode_metas_step; [|apply encode_avg_nonempty|apply _|intros; by apply decode_meta_avg_key].
  erewrite decode_metas_step; [|apply encode_avg_nonempty|apply _|intros; by apply decode_meta_avg_value].
  erewrite decode_metas_step; [|apply encode_meta_nonempty|apply _|intros; by apply decode_meta_comparator].
  erewrite decode_metas_step; [|apply encode_meta_nonempty|apply _|intros; by apply decode_meta_last_key].
  rewrite decode_metas_items by (done || lia). cbn. rewrite Hm.
  unfold set_meta_items, set_last_key, set_comparator, set_avg_value_len, set_avg_key_len, set_item_num.
  cbn. by rewrite !s32_small.
Qed.

#[export] Program Instance FileInfo_spec : BlockSpec FileInfo FileInfo := {
  represents x v := info_small x ∧ fi_buffer x = meta_items v ≫= encode_meta ∧
    v = set_meta_items (meta_items v) (info_content x) ∧
    Forall short_item (meta_items v) ∧ Forall (λ e, e.1 ∉ reserved_keys) (meta_items v);
  readable x r := meta_items r = [];
  contents := info_content
}.
Next Obligation.
  intros x v r (Hsm & Hb & Hv & Hs & Hr) Hm.
  change (∃ r', FileInfo_DecodeFromString r (FileInfo_EncodeToString x) = Some (true, r') ∧
                info_content r' = v).
  rewrite (FileInfo_decode_encode x r (meta_items v)) by done. eexists. split; [done|].
  rewrite Hv. by destruct x.
Qed.

Lemma FileInfo_AddItem_buffer k v x items : short k → short v →
  fi_buffer x = items ≫= encode_meta →
  fi_buffer (FileInfo_AddItem k v x) = (items ++ [(k, v)]) ≫= encode_meta.
Proof.
  intros Hk Hv Hx. unfold FileInfo_AddItem. cbn [fi_buffer].
  rewrite !PutLength_short by done. rewrite Hx, bind_app. cbn [mbind list_bind].
  unfold encode_meta. cbn [fst snd]. by rewrite app_nil_r, <- !(assoc_L (++)).
Qed.

(** ** The trailer *)

Definition trailer_small (t : FileTrailer) : Prop :=
  - 2 ^ 63 <= file_info_offset t < 2 ^ 63 ∧ - 2 ^ 63 <= data_index_offset t < 2 ^ 63 ∧
  - 2 ^ 31 <= data_index_count t < 2 ^ 31 ∧ - 2 ^ 63 <= meta_index_offset t < 2 ^ 63 ∧
  - 2 ^ 31 <= meta_index_count t < 2 ^ 31 ∧ - 2 ^ 63 <= total_uncompressed_bytes t < 2 ^ 63 ∧
  - 2 ^ 31 <= entry_count t < 2 ^ 31 ∧ - 2 ^ 31 <= compress_type t < 2 ^ 31 ∧
  - 2 ^ 31 <= version t < 2 ^ 31.

Lemma FileTrailer_length t : Z.of_nat (length (FileTrailer_EncodeToString t)) = TrailerSize.
Proof.
  unfold FileTrailer_EncodeToString, PutFixed64, PutFixed32.
  rewrite !length_app, !EncodeFixed64_length, !EncodeFixed32_length. done.
Qed.

#[export] Program Instance FileTrailer_spec : BlockSpec FileTrailer FileTrailer := {
  represents t v := trailer_small t ∧ v = t;
  readable t r := True;
  contents := id
}.
Next Obligation.
  intros t v r (Hsm & ->) _.
  change (∃ r', FileTrailer_DecodeFromString r (FileTrailer_EncodeToString t) = Some (true, r') ∧ r' = t).
  unfold FileTrailer_DecodeFromString.
  rewrite FileTrailer_length, Z.eqb_refl. cbn [negb].
  destruct Hsm as (H1 & H2 & H3 & H4 & H5 & H6 & H7 & H8 & H9).
  unfold FileTrailer_EncodeToString, PutFixed64, PutFixed32. rewrite <- !(assoc_L (++)).
  rewrite StringStartsWith_app. cbn [negb]. unfold c_str.
  rewrite <- (assoc_L (++)), (drop_app_exact (length kTrailerBlockMagic)) by done.
  rewrite <- !(assoc_L (++)).
  repeat (first [rewrite ReadInt64_put by done|rewrite ReadInt32_put by done]; cbn [mbind option_bind]).
  eexists. split; [done|]. by destruct t.
Qed.

End Facts.

(** ** Round trips of whole blocks *)

Section RoundTrips.
Context {M : Machine}.

Definition real_item (e : bytes * bytes) : Prop := e ≠ ([], []).
#[local] Instance real_item_dec e : Decision (real_item e) := _.

Lemma AddItem_empty b : DataBlock_AddItem [] [] b = b.
Proof. done. Qed.

Lemma AddItems_buffer items b done_items : buffer b = block_bytes done_items →
  let b' := fold_left (λ b e, DataBlock_AddItem e.1 e.2 b) items b in
  buffer b' = block_bytes (done_items ++ filter real_item items) ∧ compression b' = compression b.
Proof.
  revert b done_items. induction items as [|[k v] items IH]; intros b d Hb; cbn [fold_left fst snd].
  { by rewrite app_nil_r. }
  rewrite filter_cons. case_decide as He.
  - destruct (IH (DataBlock_AddItem k v b) (d ++ [(k, v)])) as [H1 H2]; [by apply AddItem_buffer|].
    rewrite <- (assoc_L (++)) in H1. split; [done|]. by rewrite H2, AddItem_compression.
  - apply dec_stable in He. injection He as -> ->. by apply IH.
Qed.

(** A data block reads back the items it was given.  Items added to a new
    block with any supported codec, encoded and decoded by a block of the
    same codec, come back in order and unchanged, except that an item with an
    empty key and an empty value is dropped; a block without any item encodes
    to nothing, and decoding nothing fails. *)
Theorem DataBlock_roundtrip snappy codec b items :
  lossless snappy → new_DataBlock snappy codec = Some b → Forall short_item items →
  let b' := fold_left (λ b e, DataBlock_AddItem e.1 e.2 b) items b in
  let kept := filter real_item items in
  if bool_decide (kept = []) then
    buffer b' = [] ∧ (compression b = None → DataBlock_DecodeFromString b (DataBlock_EncodeToString b').1 = Some (false, b))
  else ∃ r, DataBlock_DecodeFromString b (DataBlock_EncodeToString b').1 = Some (true, r) ∧ data_items r = kept.
Proof.
  intros Hl Hb Hs b' kept.
  assert (Hnew : lossless (compression b) ∧ buffer b = block_bytes []).
  { unfold new_DataBlock in Hb. repeat case_match; try discriminate Hb; injection Hb as <-; done. }
  destruct Hnew as [Hlc Hbuf]. destruct (AddItems_buffer items b [] Hbuf) as [Hb' Hc'].
  fold b' in Hb', Hc'. fold kept in Hb'. rewrite app_nil_l in Hb'. case_bool_decide as Hk.
  - rewrite Hk in Hb'. split; [done|]. intros Hn. unfold DataBlock_EncodeToString, DataBlock_DecodeFromString.
    by rewrite Hc', Hn, Hb'.
  - apply (block_roundtrip (BlockSpec := DataBlock_spec) b' kept b); [|done].
    split_and!; [by rewrite Hc'|done|done|]. apply Forall_forall. intros e [_ He]%list_elem_of_filter.
    rewrite Forall_forall in Hs. auto.
Qed.

(** The trailer is a fixed-size record that reads back.  A trailer whose
    fields fit their types is encoded in exactly TrailerSize bytes and decoded
    to itself, whatever the object decoded into held; a string of any other
    size, or without the magic, is refused. *)
Theorem FileTrailer_roundtrip t r : trailer_small t →
  Z.of_nat (length (FileTrailer_EncodeToString t)) = TrailerSize ∧
  FileTrailer_DecodeFromString r (FileTrailer_EncodeToString t) = Some (true, t) ∧
  ∀ s, Z.of_nat (length s) ≠ TrailerSize ∨ take 8 s ≠ kTrailerBlockMagic →
    FileTrailer_DecodeFromString r s = Some (false, r).
Proof.
  intros Ht. split; [apply FileTrailer_length|]. split.
  - destruct (block_roundtrip (BlockSpec := FileTrailer_spec) t t r) as (r' & E & Er); [done|done|].
    cbn in E, Er. unfold id in Er. by subst r'.
  - intros s Hs. unfold FileTrailer_DecodeFromString. destruct (Z.eqb_spec (Z.of_nat (length s)) TrailerSize); [|done].
    destruct Hs as [|Hm]; [done|]. unfold StringStartsWith. by rewrite bool_decide_eq_false_2.
Qed.

(** The lengths in a data block are trusted.  A block without compression
    whose first item claims a key of more bytes than the string and its NUL
    have left makes DecodeFromString read outside the string: the test that
    would report a damaged block comes after the read. *)
Theorem DataBlock_decode_overread b n : compression b = None → 1 < n < 2 ^ 31 →
  DataBlock_DecodeFromString b (kDataBlockMagic ++ PutFixed32 (PutFixed32 [] n) 0) = None.
Proof.
  intros Hb Hn. unfold DataBlock_DecodeFromString, DecodeInternal. rewrite Hb, StringStartsWith_app.
  unfold c_str. rewrite <- (assoc_L (++)), (drop_app_exact (length kDataBlockMagic)) by done.
  unfold PutFixed32. rewrite app_nil_l, <- (assoc_L (++)).
  rewrite length_app. change (length kDataBlockMagic) with 8%nat. cbn [Nat.add decode_items].
  rewrite (assoc_L (++)), at_end_app by (intros E%(f_equal length); rewrite length_app, !EncodeFixed32_length in E; discriminate E).
  rewrite <- (assoc_L (++)), ReadInt32_put by lia. cbn [mbind option_bind].
  rewrite ReadInt32_put by lia. cbn [mbind option_bind]. unfold ReadBytes.
  destruct (Z.leb_spec n 1); [lia|]. cbn. repeat case_match; try done; bool_to_prop; lia.
Qed.

End RoundTrips.

#[local] Instance little_endian : Machine := { big_endian := false }.

Example DataBlock_roundtrip_witness :
  let items := [(str "k", str "v"); ([], []); (str "k", [])] in
  ∃ b r, new_DataBlock None CompressType_kUnCompress = Some b ∧
    DataBlock_DecodeFromString b
      (DataBlock_EncodeToString (fold_left (λ b e, DataBlock_AddItem e.1 e.2 b) items b)).1 = Some (true, r) ∧
    data_items r = [(str "k", str "v"); (str "k", [])].
Proof.
  intros items. exists (mkDataBlock None [] [] 0).
  destruct (DataBlock_roundtrip None CompressType_kUnCompress (mkDataBlock None [] [] 0) items I eq_refl)
    as (r & E & Er); [by repeat constructor|].
  exists r. split; [reflexivity|]. split; [exact E|exact Er].
Defined.

Example FileTrailer_roundtrip_witness :
  let t := mkTrailer 100 200 3 0 0 77 5 2 1 in
  FileTrailer_DecodeFromString new_FileTrailer (FileTrailer_EncodeToString t) = Some (true, t).
Proof.
  intros t. apply (FileTrailer_roundtrip t new_FileTrailer). unfold trailer_small. cbn. lia.
Defined.

Example DataBlock_decode_overread_witness :
  DataBlock_DecodeFromString (mkDataBlock None [] [] 0)
    (kDataBlockMagic ++ PutFixed32 (PutFixed32 [] 5) 0) = None.
Proof. apply (DataBlock_decode_overread (mkDataBlock None [] [] 0) 5); [reflexivity|lia]. Defined.

(** ** The binary search of the data index *)

Section Find.

Context (x : DataIndex) (key : bytes).
Local Abbreviation keys := (info_key <$> block_info x).
Local Abbreviation n := (Z.of_nat (length (block_info x))).

(** Every block from [i] to [j] exclusive starts before [key]; none does. *)
Definition all_before (i j : Z) : Prop :=
  ∀ k c, i <= k < j → key_at x k = Some c → str_lt c key = true.
Definition none_before (i j : Z) : Prop :=
  ∀ k c, i <= k < j → key_at x k = Some c → str_lt c key = false.

Lemma key_at_some i : 0 <= i < n → ∃ c, key_at x i = Some c.
Proof.
  intros Hi. unfold key_at. destruct (Z.ltb_spec i 0); [lia|].
  destruct (lookup_lt_is_Some_2 (block_info x) (Z.to_nat i)) as [b ->]; [lia|]. eauto.
Qed.

Lemma key_at_sorted i j ci cj : StronglySorted str_le keys → 0 <= i <= j →
  key_at x i = Some ci → key_at x j = Some cj → str_le ci cj.
Proof.
  intros Hs Hij. unfold key_at. do 2 (case_ztest; [lia|]). rewrite <- !list_lookup_fmap.
  destruct (decide (i = j)) as [->|Hne]; [intros -> [= ->]; reflexivity|].
  assert (Hlt : (Z.to_nat i < Z.to_nat j)%nat) by lia. revert Hlt.
  generalize (Z.to_nat i) (Z.to_nat j). clear - Hs. intros a b. revert a b.
  induction Hs as [|k l Hl IH Hk]; intros a b Hab Ha Hb; [done|].
  destruct b as [|b]; [lia|]. destruct a as [|a]; cbn in *.
  - injection Ha as ->. rewrite Forall_forall in Hk. apply Hk. by apply list_elem_of_lookup_2 in Hb.
  - apply (IH a b); [lia|done..].
Qed.

(** Blocks that start before the key come first. *)
Definition monotone : Prop := ∀ i j ci cj, 0 <= i <= j →
  key_at x i = Some ci → key_at x j = Some cj → str_lt cj key = true → str_lt ci key = true.

Lemma sorted_monotone : StronglySorted str_le keys → monotone.
Proof.
  intros Hs i j ci cj Hij Hi Hj. apply str_le_lt_trans. by apply (key_at_sorted i j).
Qed.

Lemma find_loop_spec fuel lo hi mid : monotone →
  0 <= lo <= hi + 1 → hi + 1 <= n → (hi - lo + 1 < Z.of_nat fuel) → 0 <= mid < n →
  all_before 0 lo → none_before (hi + 1) n → (lo <= hi ∨ mid = lo - 1 ∨ mid = lo) →
  ∃ m c, find_loop fuel x key lo hi mid = Some m ∧ 0 <= m < n ∧ 0 <= c <= n ∧
    all_before 0 c ∧ none_before c n ∧ (m = c - 1 ∨ m = c).
Proof.
  intros Hsort. revert lo hi mid. induction fuel as [|fuel IH]; intros lo hi mid Hlo Hhi Hf Hmid Ha Hn He; [lia|].
  cbn [find_loop]. destruct (Z.leb_spec lo hi) as [Hle|Hgt].
  2: { exists mid, lo. replace (hi + 1) with lo in Hn by lia. split_and!; try done || lia. }
  assert (Hm : lo <= (lo + hi) ÷ 2 <= hi).
  { rewrite Z.quot_div_nonneg by lia. pose proof (Z.div_mod (lo + hi) 2). pose proof (Z.mod_pos_bound (lo + hi) 2). lia. }
  destruct (key_at_some ((lo + hi) ÷ 2)) as [cur Hcur]; [lia|]. rewrite Hcur. cbn [mbind option_bind].
  set (m := (lo + hi) ÷ 2) in *.
  destruct (str_lt cur key) eqn:Ec; (apply IH; [lia..| | |lia]); try done.
  - intros k c Hk Hc. apply (Hsort k m c cur); done || lia.
  - intros k c Hk Hc. replace (m - 1 + 1) with m in Hk by lia.
    destruct (str_lt c key) eqn:E; [|done]. rewrite (Hsort m k cur c) in Ec; done || lia.
Qed.

Lemma FindMinimalBlock_monotone : monotone → block_info x ≠ [] →
  ∃ r, FindMinimalBlock x key = Some r ∧ 0 <= r < n ∧
    all_before 0 r ∧ none_before (r + 1) n ∧ (r = 0 ∨ all_before r (r + 1)).
Proof.
  intros Hsort Hne. assert (0 < n) by (destruct (block_info x); [done|cbn; lia]).
  destruct (find_loop_spec (S (length (block_info x))) 0 (n - 1) 0) as (m & c & E & Hm & Hc & Ha & Hn & He);
    [done|lia..| | |lia|].
  { intros k ? Hk. lia. }
  { intros k ? Hk. lia. }
  unfold FindMinimalBlock, DataIndex_GetBlockSize. rewrite E. cbn [mbind option_bind].
  destruct (key_at_some m Hm) as [cur Hcur]. rewrite Hcur. cbn [mbind option_bind].
  assert (Hsub : ∀ r, r <= c → all_before 0 r) by (intros r Hr k d Hk; apply Ha; lia).
  destruct He as [->| ->].
  - rewrite (Ha (c - 1) cur) by (done || lia). exists (c - 1). split_and!; [done|lia..| | |].
    + apply Hsub. lia.
    + by replace (c - 1 + 1) with c by lia.
    + right. intros k d Hk. apply Ha. lia.
  - rewrite (Hn c cur) by (done || lia). destruct (Z.ltb_spec 0 c).
    + exists (c - 1). split_and!; [done|lia..| | |].
      * apply Hsub. lia.
      * by replace (c - 1 + 1) with c by lia.
      * right. intros k d Hk. apply Ha. lia.
    + assert (c = 0) as -> by lia. exists 0. split_and!; [done|lia..| | |by left].
      * done.
      * intros k d Hk. apply Hn. lia.
Qed.


End Find.

