(* ===== verification/LruCache.v ===== *)
(** * The least-recently-used cache

    Model of container/lru_cache.h.  [std::list] nodes live in a store under
    an address; [value_list_] is the sequence of node addresses and the map
    [index_] holds, for a key, the address of its node (the iterator).  The
    operations keep the two structures consistent and implement a cache kept
    as a list of pairs in order of use.  The mutex makes each operation
    atomic and is left out. *)

From S2P Require Import Prelude.

(** [operator==] of the value type. *)
Class ValueEq (V : Type) := value_eq : V → V → bool.

Section LruCache.
Context {K V : Type} `{Countable K} `{ValueEq V}.

Record LruCache := mkCache {
  nodes : gmap nat (K * V);      (* the store of list nodes *)
  next_node : nat;               (* the address of the next node *)
  value_list : list nat;         (* value_list_, front first *)
  index : gmap K nat;            (* index_ *)
  capacity : nat                 (* capacity_ *)
}.

Definition new_LruCache (cap : nat) : LruCache := mkCache ∅ 0 [] ∅ cap.

(** ** Operations *)

Definition erase_node (n : nat) (l : list nat) : list nat := filter (λ m, m ≠ n) l.

(** [InternalRemove] *)
Definition InternalRemove (key : K) (c : LruCache) : bool * LruCache :=
  match index c !! key with
  | None => (false, c)
  | Some n =>
      (true, mkCache (delete n (nodes c)) (next_node c) (erase_node n (value_list c))
               (delete key (index c)) (capacity c))
  end.

Definition Remove := InternalRemove.

(** [splice] moves the node to the front; the iterator in the index is
    assigned the new front, which is the same node. *)
Definition Get (key : K) (c : LruCache) : option V * LruCache :=
  match index c !! key with
  | None => (None, c)
  | Some n =>
      let l := n :: erase_node n (value_list c) in
      (snd <$> nodes c !! n,
       mkCache (nodes c) (next_node c) l
         (match l with front :: _ => <[key := front]> (index c) | [] => index c end) (capacity c))
  end.

Definition GetOrDefault (key : K) (default_value : V) (c : LruCache) : V * LruCache :=
  match Get key c with
  | (Some value, c) => (value, c)
  | (None, c) => (default_value, c)
  end.

(** [push_front] of a new node and the index entry for it. *)
Definition push_front (key : K) (value : V) (c : LruCache) : LruCache :=
  let n := next_node c in
  mkCache (<[n := (key, value)]> (nodes c)) (S n) (n :: value_list c)
    (<[key := n]> (index c)) (capacity c).

(** [--end()] and removal of that node's key. *)
Definition evict (c : LruCache) : LruCache :=
  match last (value_list c) ≫= λ n, nodes c !! n with
  | Some (key, _) => (InternalRemove key c).2
  | None => c
  end.

Definition Put (key : K) (value : V) (c : LruCache) : LruCache :=
  let insert c :=
    let c := push_front key value c in
    if (capacity c <? size (index c))%nat then evict c else c in
  match index c !! key with
  | Some n =>
      if from_option (λ x, value_eq x.2 value) false (nodes c !! n) then c
      else insert (InternalRemove key c).2
  | None => insert c
  end.

Definition HasKey (key : K) (c : LruCache) : bool := bool_decide (is_Some (index c !! key)).
Definition Clear (c : LruCache) : LruCache := mkCache ∅ (next_node c) [] ∅ (capacity c).
Definition Size (c : LruCache) : nat := length (value_list c).
Definition Capacity (c : LruCache) : nat := capacity c.
Definition IsEmpty (c : LruCache) : bool := bool_decide (value_list c = []).
Definition IsFull (c : LruCache) : bool := (size (index c) =? capacity c)%nat.

(** ** The abstract cache: pairs, the most recently used first *)

Local Abbreviation content := (list (K * V)).

Definition lookup_key (key : K) (l : content) : option V :=
  snd <$> head (filter (λ x, x.1 = key) l).
Definition remove_key (key : K) (l : content) : content := filter (λ x, x.1 ≠ key) l.

Definition get_spec (key : K) (l : content) : option V * content :=
  match lookup_key key l with
  | Some v => (Some v, (key, v) :: remove_key key l)
  | None => (None, l)
  end.

Definition put_spec (cap : nat) (key : K) (value : V) (l : content) : content :=
  if from_option (λ v, value_eq v value) false (lookup_key key l) then l
  else let l := (key, value) :: remove_key key l in
       if (cap <? length l)%nat then removelast l else l.

(** ** The invariant and the abstraction *)

Record wf (c : LruCache) : Prop := {
  wf_nodup : NoDup (value_list c);
  wf_nodes n : n ∈ value_list c ↔ is_Some (nodes c !! n);
  wf_index k n : index c !! k = Some n ↔ ∃ v, nodes c !! n = Some (k, v);
  wf_next n : is_Some (nodes c !! n) → (n < next_node c)%nat
}.

Definition view (c : LruCache) : content := omap (λ n, nodes c !! n) (value_list c).

(** ** Lists of pairs with distinct keys *)

Lemma omap_elem_ext {A B} (f g : A → option B) (l : list A) :
  (∀ x, x ∈ l → f x = g x) → omap f l = omap g l.
Proof.
  induction l as [|x l IH]; intros Hl; [done|]. cbn. rewrite Hl by set_solver.
  rewrite IH by set_solver. done.
Qed.

Lemma lookup_key_cons k x (l : content) :
  lookup_key k (x :: l) = if decide (x.1 = k) then Some x.2 else lookup_key k l.
Proof. unfold lookup_key. rewrite filter_cons. by case_decide. Qed.

Lemma remove_key_cons k x (l : content) :
  remove_key k (x :: l) = if decide (x.1 ≠ k) then x :: remove_key k l else remove_key k l.
Proof. unfold remove_key. by rewrite filter_cons. Qed.

Lemma lookup_key_elem k v (l : content) : NoDup l.*1 → (k, v) ∈ l → lookup_key k l = Some v.
Proof.
  induction l as [|[k' v'] l IH]; [set_solver|]. rewrite fmap_cons, lookup_key_cons. cbn.
  intros [Hn Hd]%NoDup_cons [[= <- <-]|Hi]%elem_of_cons; [by rewrite decide_True|].
  rewrite decide_False; [auto|]. intros <-. apply Hn, list_elem_of_fmap. by exists (k', v).
Qed.

Lemma lookup_key_None k (l : content) : lookup_key k l = None ↔ k ∉ l.*1.
Proof.
  induction l as [|[k' v'] l IH]; [set_solver|]. rewrite lookup_key_cons, fmap_cons. cbn.
  case_decide; [subst; set_solver|]. rewrite IH. set_solver.
Qed.

Lemma remove_key_notin k (l : content) : k ∉ l.*1 → remove_key k l = l.
Proof.
  induction l as [|[k' v'] l IH]; [done|]. rewrite remove_key_cons, fmap_cons. cbn. intros Hk.
  rewrite decide_True by set_solver. f_equal. apply IH. set_solver.
Qed.

(** ** Lemmas on the invariant *)

Lemma new_wf cap : wf (new_LruCache cap).
Proof.
  split; cbn; [constructor|..]; intros; rewrite ?lookup_empty.
  - split; [set_solver|by intros []].
  - split; [done|by intros []].
  - by destruct 0 as [? ?].
Qed.

Lemma wf_key_unique c n m k v w : wf c →
  nodes c !! n = Some (k, v) → nodes c !! m = Some (k, w) → n = m.
Proof.
  intros Hc Hn Hm. assert (index c !! k = Some n) by (apply wf_index; eauto).
  assert (index c !! k = Some m) by (apply wf_index; eauto). congruence.
Qed.

Lemma view_elem c k v : wf c → (k, v) ∈ view c ↔ ∃ n, nodes c !! n = Some (k, v).
Proof.
  intros Hc. unfold view. rewrite list_elem_of_omap. split; [naive_solver|].
  intros [n Hn]. exists n. split; [apply wf_nodes; eauto|done].
Qed.

Lemma view_nodup c : wf c → NoDup (view c).*1.
Proof.
  intros Hc. unfold view. pose proof (wf_nodup c Hc) as Hd.
  induction Hd as [|n l Hn Hd IH]; cbn; [constructor|].
  destruct (nodes c !! n) as [[k v]|] eqn:E; cbn; [|done]. constructor; [|done].
  rewrite list_elem_of_fmap. intros ([k' w] & [= <-] & Hw). apply list_elem_of_omap in Hw as (m & Hm & Em).
  assert (n = m) as <- by eauto using wf_key_unique. done.
Qed.

Lemma view_index c k n v : wf c → index c !! k = Some n → nodes c !! n = Some (k, v) →
  lookup_key k (view c) = Some v.
Proof.
  intros Hc _ Hn. apply lookup_key_elem; [by apply view_nodup|]. apply view_elem; eauto.
Qed.

Lemma view_no_index c k : wf c → index c !! k = None → k ∉ (view c).*1.
Proof.
  intros Hc Hk. rewrite list_elem_of_fmap. intros ([k' v] & -> & Hv).
  apply view_elem in Hv as [n Hn]; [|done]. cbn in *.
  assert (index c !! k' = Some n) by (apply wf_index; eauto). congruence.
Qed.

Lemma view_erase c n k v : wf c → nodes c !! n = Some (k, v) →
  omap (λ m, nodes c !! m) (erase_node n (value_list c)) = remove_key k (view c).
Proof.
  intros Hc Hn. unfold view, erase_node.
  induction (value_list c) as [|m l IH]; [done|]. rewrite filter_cons. cbn [omap list_omap].
  case_decide as Hm.
  - cbn [omap list_omap]. rewrite IH. destruct (nodes c !! m) as [[k' w]|] eqn:E; [|done].
    rewrite remove_key_cons, decide_True; [done|]. cbn. intros ->. eauto using wf_key_unique.
  - subst m. rewrite Hn, remove_key_cons, decide_False by (cbn; tauto). done.
Qed.

Lemma view_length c : wf c → length (view c) = length (value_list c).
Proof.
  intros Hc. unfold view. assert (Hn : ∀ n, n ∈ value_list c → is_Some (nodes c !! n))
    by (intros n; apply wf_nodes; done).
  induction (value_list c) as [|m l IH]; cbn; [done|].
  destruct (Hn m) as [x E]; [set_solver|]. rewrite E. cbn. f_equal. apply IH. set_solver.
Qed.

Lemma remove_wf key c : wf c → wf (InternalRemove key c).2.
Proof.
  intros Hc. unfold InternalRemove. destruct (index c !! key) as [n|] eqn:E; [|done]. cbn.
  pose proof E as (v & Hv)%(wf_index c Hc). split; cbn.
  - apply NoDup_filter, Hc.
  - intros m. unfold erase_node. rewrite list_elem_of_filter, lookup_delete_is_Some, (wf_nodes c Hc).
    naive_solver.
  - intros k m. rewrite lookup_delete_Some, (wf_index c Hc). split.
    + intros [Hk [w Hw]]. exists w. rewrite lookup_delete_Some. split; [|done]. intros ->. congruence.
    + intros [w [Hm Hw]%lookup_delete_Some]. split; [|eauto]. intros ->. eauto using wf_key_unique.
  - intros m Hm. apply (wf_next c Hc). apply lookup_delete_is_Some in Hm. tauto.
Qed.

Lemma remove_view key c : wf c → view (InternalRemove key c).2 = remove_key key (view c).
Proof.
  intros Hc. unfold InternalRemove. destruct (index c !! key) as [n|] eqn:E; cbn.
  - pose proof E as (v & Hv)%(wf_index c Hc). rewrite <- (view_erase c n key v) by done.
    unfold view. cbn. apply omap_elem_ext. intros m [Hm _]%list_elem_of_filter. by rewrite lookup_delete_ne.
  - symmetry. apply remove_key_notin. by apply view_no_index.
Qed.

Lemma remove_index key c : index (InternalRemove key c).2 !! key = None.
Proof.
  unfold InternalRemove. destruct (index c !! key) eqn:E; cbn; [|done]. by rewrite lookup_delete_eq.
Qed.

Lemma push_wf key value c : wf c → index c !! key = None → wf (push_front key value c).
Proof.
  intros Hc Hk. assert (Hf : nodes c !! next_node c = None).
  { apply eq_None_not_Some. intros Hs%(wf_next c Hc). lia. }
  split; cbn.
  - constructor; [|apply Hc]. rewrite (wf_nodes c Hc), Hf. by intros [].
  - intros n. rewrite elem_of_cons, lookup_insert_is_Some, (wf_nodes c Hc).
    destruct (decide (next_node c = n)); naive_solver.
  - intros k n. rewrite lookup_insert_Some. split.
    + intros [[<- <-]|[Hne Hi]]; [exists value; by rewrite lookup_insert_eq|].
      apply (wf_index c Hc) in Hi as [v Hv]. exists v. rewrite lookup_insert_ne; [done|]. congruence.
    + intros [v [[<- [= <- <-]]|[Hne Hv]]%lookup_insert_Some]; [by left|]. right.
      assert (Hi : index c !! k = Some n) by (apply (wf_index c Hc); eauto). split; [congruence|done].
  - intros n [<-|[Hne Hn%(wf_next c Hc)]]%lookup_insert_is_Some; lia.
Qed.

Lemma push_view key value c : wf c → view (push_front key value c) = (key, value) :: view c.
Proof.
  intros Hc. unfold view. cbn. rewrite lookup_insert_eq. cbn. f_equal. apply omap_elem_ext.
  intros m Hm. apply (wf_nodes c Hc), (wf_next c Hc) in Hm.
  rewrite lookup_insert_ne by lia. done.
Qed.

(** The two structures have the same size. *)
Lemma index_size c : wf c → size (index c) = length (view c).
Proof.
  intros Hc. rewrite <- (length_fmap fst), <- (size_list_to_set (C := gset K)) by (by apply view_nodup).
  rewrite <- size_dom. f_equal. apply set_eq. intros k.
  rewrite elem_of_dom, elem_of_list_to_set, list_elem_of_fmap. split.
  - intros [n Hn]. pose proof Hn as (v & Hv)%(wf_index c Hc). exists (k, v). split; [done|].
    apply view_elem; eauto.
  - intros ([k' v] & -> & Hv). apply view_elem in Hv as [n Hn]; [|done]. exists n.
    apply (wf_index c Hc). eauto.
Qed.

Lemma view_last c : wf c → last (view c) = last (value_list c) ≫= λ n, nodes c !! n.
Proof.
  intros Hc. unfold view. assert (Hn : ∀ n, n ∈ value_list c → is_Some (nodes c !! n))
    by (intros n; apply wf_nodes; done). revert Hn.
  induction (value_list c) as [|n l _] using rev_ind; [done|]. intros Hn.
  rewrite last_snoc, omap_app. cbn. destruct (Hn n) as [x E]; [set_solver|]. rewrite E. cbn.
  by rewrite last_snoc.
Qed.

(** With distinct keys, removing the last pair's key removes the last pair. *)
Lemma remove_last_key (l : content) k v : NoDup l.*1 → last l = Some (k, v) →
  remove_key k l = removelast l.
Proof.
  destruct l as [|x l _] using rev_ind; [done|]. rewrite last_snoc, fmap_app. intros Hd [= ->].
  apply NoDup_app in Hd as (_ & Hd & _). rewrite removelast_last. unfold remove_key.
  rewrite filter_app, filter_cons, decide_False by (cbn; tauto). rewrite filter_nil, app_nil_r.
  apply remove_key_notin. intros Hk. apply (Hd k Hk). cbn. set_solver.
Qed.

Lemma evict_spec c : wf c → wf (evict c) ∧ view (evict c) = removelast (view c).
Proof.
  intros Hc. unfold evict. pose proof (view_last c Hc) as Hl. rewrite <- Hl.
  destruct (last (view c)) as [[k v]|] eqn:E.
  - split; [by apply remove_wf|]. rewrite remove_view by done.
    apply (remove_last_key _ k v); [by apply view_nodup|done].
  - apply last_None in E. by rewrite E.
Qed.

Lemma lookup_index c k : wf c →
  lookup_key k (view c) = index c !! k ≫= λ n, snd <$> nodes c !! n.
Proof.
  intros Hc. destruct (index c !! k) as [n|] eqn:E; cbn.
  - pose proof E as (v & Hv)%(wf_index c Hc). rewrite Hv. by apply (view_index c k n v).
  - by apply lookup_key_None, view_no_index.
Qed.

Lemma Get_refines k c : wf c →
  wf (Get k c).2 ∧ ((Get k c).1, view (Get k c).2) = get_spec k (view c).
Proof.
  intros Hc. unfold Get, get_spec. rewrite lookup_index by done.
  destruct (index c !! k) as [n|] eqn:E; cbn; [|done].
  pose proof E as (v & Hv)%(wf_index c Hc). rewrite Hv. cbn. split.
  - split; cbn.
    + constructor; [unfold erase_node; rewrite list_elem_of_filter; tauto|apply NoDup_filter, Hc].
    + intros m. unfold erase_node. rewrite elem_of_cons, list_elem_of_filter, (wf_nodes c Hc).
      destruct (decide (m = n)) as [->|]; [|naive_solver]. split; [by eauto|by left].
    + intros k' m. rewrite insert_id by done. apply Hc.
    + apply Hc.
  - apply f_equal2; [done|]. f_equal. by apply (view_erase c n k v).
Qed.

Lemma Put_refines k v c : wf c →
  wf (Put k v c) ∧ view (Put k v c) = put_spec (capacity c) k v (view c) ∧
  capacity (Put k v c) = capacity c.
Proof.
  intros Hc.
  assert (Hins : ∀ d, wf d → index d !! k = None → capacity d = capacity c →
    let d' := push_front k v d in
    let d'' := if (capacity d' <? size (index d'))%nat then evict d' else d' in
    wf d'' ∧ view d'' = (let l := (k, v) :: view d in
                         if (capacity c <? length l)%nat then removelast l else l) ∧
    capacity d'' = capacity c).
  { intros d Hd Hk Hcap d' d''. assert (Hd' : wf d') by (by apply push_wf).
    assert (Hv : view d' = (k, v) :: view d) by (by apply push_view).
    assert (Hcd : capacity d' = capacity c) by done.
    unfold d''. rewrite index_size, Hcd, Hv by done. case_match.
    - destruct (evict_spec d' Hd') as [He Hve]. rewrite Hve, Hv. split_and!; [done|done|].
      rewrite <- Hcd. unfold evict, InternalRemove. by repeat case_match.
    - done. }
  unfold Put, put_spec. rewrite lookup_index by done.
  destruct (index c !! k) as [n|] eqn:E; cbn.
  - assert (Heq : from_option (λ w, value_eq w v) false (snd <$> nodes c !! n) =
                  from_option (λ x, value_eq x.2 v) false (nodes c !! n)) by (by destruct (nodes c !! n)).
    rewrite Heq. case_match; [done|].
    destruct (Hins (InternalRemove k c).2) as (I1 & I2 & I3);
      [by apply remove_wf|apply remove_index|unfold InternalRemove; by case_match|].
    rewrite remove_view in I2 by done. auto.
  - rewrite remove_key_notin by (by apply view_no_index). by apply Hins.
Qed.

Lemma removelast_length {A} (l : list A) : length (removelast l) = (length l - 1)%nat.
Proof. destruct l as [|x l _] using rev_ind; [done|]. rewrite removelast_last, length_app. cbn. lia. Qed.

Lemma remove_key_length k (l : content) : (length (remove_key k l) <= length l)%nat.
Proof. apply length_filter. Qed.

Lemma put_spec_bound cap k v (l : content) :
  (length l <= cap)%nat → (length (put_spec cap k v l) <= cap)%nat.
Proof.
  intros Hl. unfold put_spec. pose proof (remove_key_length k l). case_match; [done|].
  case_ztest; [rewrite removelast_length|]; cbn [length] in *; lia.
Qed.

(** Any sequence of operations, as a step relation. *)
Inductive step : LruCache → LruCache → Prop :=
  | step_get k c : step c (Get k c).2
  | step_put k v c : step c (Put k v c)
  | step_remove k c : step c (Remove k c).2
  | step_clear c : step c (Clear c).

Lemma step_wf c d : step c d → wf c → (Size c <= capacity c)%nat →
  wf d ∧ capacity d = capacity c ∧ (Size d <= capacity d)%nat.
Proof.
  unfold Size. intros Hs Hc. rewrite <- view_length by done. destruct Hs; intros Hb.
  - destruct (Get_refines k c Hc) as [Hw Hg]. rewrite <- view_length by done.
    assert (capacity (Get k c).2 = capacity c) as E by (unfold Get; by case_match).
    split_and!; [done|done|]. rewrite E. apply (f_equal snd) in Hg. cbn [snd] in Hg. rewrite Hg. unfold get_spec.
    destruct (lookup_key k (view c)) as [w|] eqn:El; [|done]. cbn [snd length].
    assert (Hlt : (length (remove_key k (view c)) < length (view c))%nat); [|lia].
    assert (k ∈ (view c).*1) as Hin.
    { destruct (decide (k ∈ (view c).*1)) as [|Hn]; [done|]. apply lookup_key_None in Hn. congruence. }
    apply list_elem_of_fmap in Hin as (x & Hx & Hin). unfold remove_key.
    apply (length_filter_lt _ _ x Hin). cbn. subst k. tauto.
  - destruct (Put_refines k v c Hc) as (Hw & Hv & Hcap). rewrite <- view_length by done.
    split_and!; [done|done|]. rewrite Hcap, Hv. by apply put_spec_bound.
  - unfold Remove. assert (Hw : wf (InternalRemove k c).2) by (by apply remove_wf).
    assert (capacity (InternalRemove k c).2 = capacity c) as E by (unfold InternalRemove; by case_match).
    rewrite <- view_length by done. split_and!; [done|done|]. rewrite E, remove_view by done.
    pose proof (remove_key_length k (view c)). lia.
  - cbn. split_and!; [|done|lia]. destruct (new_wf (capacity c)) as [H1 H2 H3 H4]. split; cbn in *; auto.
    intros n. rewrite lookup_empty. by intros [].
Qed.


(** No sequence of operations on a new cache breaks it or lets it grow
    beyond its capacity. *)
Theorem reachable_bounded (cap : nat) (c : LruCache) : rtc step (new_LruCache cap) c →
  wf c ∧ capacity c = cap ∧ (Size c <= cap)%nat.
Proof.
  intros Hr. assert (Hnew : wf (new_LruCache cap) ∧ capacity (new_LruCache cap) = cap ∧
    (Size (new_LruCache cap) <= cap)%nat).
  { split_and!; [apply new_wf|done|cbn; lia]. }
  revert Hnew. induction Hr as [|c d e Hs _ IH]; [done|]. intros (Hw & Hcap & Hb). apply IH.
  destruct (step_wf c d Hs Hw) as (? & ? & ?); [lia|]. split_and!; [done|lia..].
Qed.

End LruCache.

Arguments LruCache K V {_ _}.

#[local] Instance Z_value_eq : ValueEq Z := Z.eqb.


Example reachable_bounded_witness :
  let c := Put 2 20 (Put 1 10 (new_LruCache 1)) in
  rtc step (new_LruCache 1) c ∧ view c = [(2, 20)] ∧ (Size c <= 1)%nat.
Proof.
  intros c. assert (H : rtc step (new_LruCache 1) c)
    by (eapply rtc_l; [apply step_put|]; eapply rtc_l; [apply step_put|]; apply rtc_refl).
  split; [exact H|]. split; [vm_compute; reflexivity|].
  apply (reachable_bounded 1 c H).
Defined.
