(* ===== verification/SSTableWriter.v ===== *)
(** * The table writers

    Model of storage/sstable/writer: [SingleSSTableWriter], which sorts its
    entries when it is flushed, and [UnsortedSSTableWriter], which writes
    blocks as entries are added.  Both cut the entries into data blocks,
    remember each block in the data index, and end the file with the file
    information, the index and the trailer.

    The counters of the writers are unbounded here; the places where the code
    converts them to a narrower parameter say so.  A failed CHECK is [None]. *)

From S2P Require Import Prelude Varint Coding StdString HFile.

(** ** The file under construction *)

(** What the writers use of a file: how many of the bytes given to [fwrite]
    reach a file that holds [f] (all of them, unless there is an error), and
    whether opening and renaming succeed. *)
Class Disk := {
  fwrite_count : bytes → bytes → nat;
  open_ok : bool;
  rename_ok : bool
}.

(** [LocalFile::Write] at the end of the file: the number of bytes written,
    or -1 after an error. *)
Definition File_Write `{Disk} (s f : bytes) : Z * bytes :=
  let nwrite := Nat.min (fwrite_count f s) (length s) in
  (if (nwrite <? length s)%nat then -1 else Z.of_nat nwrite, f ++ take nwrite s).

(** [Block::WriteToFile]: a short write is logged, and true is returned. *)
Definition WriteToFile `{Disk} `{Block B} (b : B) (f : bytes) : bool * B * bytes :=
  let '(s, b) := EncodeToString b in
  if bool_decide (s = []) then (true, b, f)
  else
    let '(n, f) := File_Write s f in
    if negb (n =? Z.of_nat (length s)) then (* LOG(WARNING) *) (true, b, f) else (true, b, f).

(** ** What both writers keep *)

Record WriteOption := mkOption {
  block_size : Z;              (* size_t *)
  option_compress_type : Z     (* int *)
}.

Record TableState := mkTable {
  t_file : bytes;              (* file_base_ *)
  t_block : DataBlock;         (* block_ *)
  t_index : DataIndex;         (* index_ *)
  first_key : bytes;
  t_entry_count : Z;
  total_bytes : Z;
  index_offset : Z;
  index_count : Z;
  key_length : Z;
  value_length : Z;
  t_last_key : bytes
}.

Definition new_table (block : DataBlock) : TableState :=
  mkTable [] block new_DataIndex [] 0 0 0 0 0 0 [].

Section Writer.
Context {M : Machine} {D : Disk}.

Definition set_first_key (k : bytes) (t : TableState) : TableState :=
  mkTable (t_file t) (t_block t) (t_index t) k (t_entry_count t) (total_bytes t)
    (index_offset t) (index_count t) (key_length t) (value_length t) (t_last_key t).
Definition set_table_last_key (k : bytes) (t : TableState) : TableState :=
  mkTable (t_file t) (t_block t) (t_index t) (first_key t) (t_entry_count t) (total_bytes t)
    (index_offset t) (index_count t) (key_length t) (value_length t) k.

(** [WriteBlockAndUpdateIndex] without [ClearItems]: writes the block and
    records it in the index under [first_key_]. *)
Definition write_block (t : TableState) : bool * TableState :=
  let '(result, block, file) := WriteToFile (t_block t) (t_file t) in
  (result,
   mkTable file block
     (AddDataBlockInfo (GetCompressedBufferSize block) (GetUncompressedBufferSize block)
        (first_key t) (t_index t))
     (first_key t) (t_entry_count t) (total_bytes t + GetUncompressedBufferSize block)
     (index_offset t + GetCompressedBufferSize block) (index_count t + 1)
     (key_length t) (value_length t) (t_last_key t)).

Definition clear_block (t : TableState) : TableState :=
  mkTable (t_file t) (ClearItems (t_block t)) (t_index t) (first_key t) (t_entry_count t)
    (total_bytes t) (index_offset t) (index_count t) (key_length t) (value_length t) (t_last_key t).

Definition WriteBlockAndUpdateIndex (t : TableState) : bool * TableState :=
  let '(result, t) := write_block t in (result, clear_block t).

(** An entry goes into the current block and the counters. *)
Definition add_to_block (key value : bytes) (t : TableState) : TableState :=
  mkTable (t_file t) (DataBlock_AddItem key value (t_block t)) (t_index t) (first_key t)
    (t_entry_count t + 1) (total_bytes t) (index_offset t) (index_count t)
    (key_length t + Z.of_nat (length key)) (value_length t + Z.of_nat (length value)) (t_last_key t).

(** ** The end of a file *)

(** The user's meta data in key order, then the summary. *)
Definition make_file_info (meta : list (bytes * bytes)) (t : TableState) : FileInfo :=
  let x := fold_left (λ x e, FileInfo_AddItem e.1 e.2 x) meta new_FileInfo in
  let x := set_last_key (t_last_key t) x in
  if t_entry_count t =? 0 then x
  else set_avg_value_len (value_length t ÷ t_entry_count t)
         (set_avg_key_len (key_length t ÷ t_entry_count t) x).

(** The setters of the trailer; three of them take an [int]. *)
Definition make_trailer (opt : WriteOption) (info_offset : Z) (t : TableState) : FileTrailer :=
  mkTrailer info_offset (index_offset t) (s32 (index_count t)) (meta_index_offset new_FileTrailer)
    (meta_index_count new_FileTrailer) (s32 (total_bytes t)) (s32 (t_entry_count t))
    (option_compress_type opt) (version new_FileTrailer).

(** From the file information to the rename: the function's value and the file
    under its real name, then whether the file is still open, and the state. *)
Definition finish (opt : WriteOption) (meta : list (bytes * bytes)) (t : TableState) :
    (bool * option bytes) * (bool * TableState) :=
  let fileInfo := make_file_info meta t in
  let file_info_offset := index_offset t in
  let with_file file :=
    mkTable file (t_block t) (t_index t) (first_key t) (t_entry_count t) (total_bytes t)
      (index_offset t + Z.of_nat (length (EncodeToString fileInfo).1)) (index_count t)
      (key_length t) (value_length t) (t_last_key t) in
  let '(ok1, _, file) := WriteToFile fileInfo (t_file t) in
  if negb ok1 then ((false, None), (true, with_file file))
  else
    let '(ok2, _, file) := WriteToFile (t_index t) file in
    if negb ok2 then ((false, None), (true, with_file file))
    else
      let t := with_file file in
      let '(ok3, _, file) := WriteToFile (make_trailer opt file_info_offset t) file in
      if negb ok3 then ((false, None), (true, with_file file))
      else (if rename_ok then (true, Some file) else (false, None), (false, with_file file)).

(** ** class SingleSSTableWriter *)

(** [Flush] works on a table of its own: the members it fills are not read
    again, since a second [Flush] is fatal. *)

Record SingleWriter := mkSingle {
  s_option : WriteOption;
  d_data : list (bytes * bytes);
  s_meta : list (bytes * bytes);      (* std::map, in key order *)
  s_block : DataBlock;
  flushed : bool
}.

Definition new_SingleWriter (snappy : option BlockCompression) (opt : WriteOption) :
    option SingleWriter :=
  block ← new_DataBlock snappy (option_compress_type opt);
  Some (mkSingle opt [] [] block false).

Definition Single_Add (key value : bytes) (w : SingleWriter) : bool * SingleWriter :=
  (true, mkSingle (s_option w) (d_data w ++ [(key, value)]) (s_meta w) (s_block w) (flushed w)).

Definition Single_AddMetaData (key value : bytes) (w : SingleWriter) : SingleWriter :=
  mkSingle (s_option w) (d_data w) (map_insert key value (s_meta w)) (s_block w) (flushed w).

(** One round of the loop over the sorted entries. *)
Definition Single_step (opt : WriteOption) (e : bytes * bytes) (t : TableState) :
    bool * TableState :=
  let '(ok, t) :=
    if block_size opt <=? GetUncompressedBufferSize (t_block t) then
      let '(ok, t) := write_block t in
      if ok then (true, clear_block (set_first_key e.1 t)) else (false, t)
    else (true, t) in
  if ok then (true, add_to_block e.1 e.2 t) else (false, t).

Fixpoint Single_loop (opt : WriteOption) (entries : list (bytes * bytes)) (t : TableState) :
    bool * TableState :=
  match entries with
  | [] => (true, t)
  | e :: entries =>
      let '(ok, t) := Single_step opt e t in
      if ok then Single_loop opt entries t else (false, t)
  end.

Definition Single_Flush (w : SingleWriter) : option ((bool * option bytes) * SingleWriter) :=
  if flushed w then None
  else
    let w := mkSingle (s_option w) (d_data w) (s_meta w) (s_block w) true in
    match stable_sort (d_data w) with
    | [] => Some ((false, None), w)
    | (e0 :: entries) as data_index =>
        if open_ok then
          let t := set_table_last_key (default e0 (last data_index)).1
                     (set_first_key e0.1 (new_table (s_block w))) in
          let '(ok, t) := Single_loop (s_option w) data_index t in
          if ok then
            let '(ok, t) := write_block t in
            if ok then Some ((finish (s_option w) (s_meta w) t).1, w)
            else Some ((false, None), w)
          else Some ((false, None), w)
        else None
    end.

(** ** class UnsortedSSTableWriter *)

Record UnsortedWriter := mkUnsorted {
  u_option : WriteOption;
  failed : bool;
  is_first_key : bool;
  u_meta : list (bytes * bytes);
  u_open : bool;                      (* file_base_ is not NULL *)
  u_table : TableState
}.

Definition new_UnsortedWriter (snappy : option BlockCompression) (opt : WriteOption) :
    option UnsortedWriter :=
  block ← new_DataBlock snappy (option_compress_type opt);
  if open_ok then Some (mkUnsorted opt false true [] true (new_table block)) else None.

Definition Unsorted_Add (key value : bytes) (w : UnsortedWriter) : bool * UnsortedWriter :=
  if failed w then (false, w)
  else
    let t := if is_first_key w then set_first_key key (u_table w) else u_table w in
    let '(ok, t) :=
      if s64 (block_size (u_option w)) <=? GetUncompressedBufferSize (t_block t) then
        let '(ok, t) := WriteBlockAndUpdateIndex t in
        if ok then (true, set_first_key key t) else (false, t)
      else (true, t) in
    if ok then
      (true, mkUnsorted (u_option w) false false (u_meta w) (u_open w)
               (set_table_last_key key (add_to_block key value t)))
    else (false, mkUnsorted (u_option w) true false (u_meta w) (u_open w) t).

Definition Unsorted_AddMetaData (key value : bytes) (w : UnsortedWriter) : UnsortedWriter :=
  mkUnsorted (u_option w) (failed w) (is_first_key w) (map_insert key value (u_meta w)) (u_open w)
    (u_table w).

Definition Unsorted_Flush (w : UnsortedWriter) : option ((bool * option bytes) * UnsortedWriter) :=
  if failed w then Some ((false, None), w)
  else if negb (u_open w) then None
  else
    let '(ok, t) := WriteBlockAndUpdateIndex (u_table w) in
    let w := mkUnsorted (u_option w) (failed w) (is_first_key w) (u_meta w) (u_open w) t in
    if ok then
      let '(result, (still_open, t)) := finish (u_option w) (u_meta w) t in
      Some (result,
            mkUnsorted (u_option w) (failed w) (is_first_key w) (u_meta w) still_open t)
    else Some ((false, None), w).

End Writer.
