(* ===== verification/SSTableWriterFacts.v ===== *)
(** * What the table writers write

    On a disk that takes every byte, the file a writer leaves is the sequence
    of its blocks, the file information, the index over the blocks and the
    trailer, whatever the block size and the compression. *)

From S2P Require Import Prelude Varint Coding StdString HFile HFileFacts SSTableWriter.

(** A disk without errors. *)
Class ReliableDisk `{Disk} := {
  fwrite_all f s : (length s <= fwrite_count f s)%nat;
  opens : open_ok = true;
  renames : rename_ok = true
}.

Abbreviation entry := (bytes * bytes)%type.

(** ** Sizes *)

Section Sizes.
Context {M : Machine}.

(** The bytes that entries take in a block. *)
Definition weight (l : list entry) : Z := Z.of_nat (length (l ≫= encode_item)).

Lemma weight_app l k : weight (l ++ k) = weight l + weight k.
Proof. unfold weight. rewrite bind_app, length_app. lia. Qed.

Lemma weight_nonneg l : 0 <= weight l.
Proof. unfold weight. lia. Qed.

Lemma weight_cons e l : weight (e :: l) = 8 + Z.of_nat (length e.1) + Z.of_nat (length e.2) + weight l.
Proof. unfold weight. cbn [mbind list_bind]. rewrite length_app, encode_item_length. lia. Qed.

Lemma weight_nonempty l : l ≠ [] → 8 <= weight l.
Proof. destruct l as [|e l]; [done|]. intros _. rewrite weight_cons. pose proof (weight_nonneg l). lia. Qed.

Lemma weight_short l : weight l < 2 ^ 28 → Forall short_item l.
Proof.
  induction l as [|e l IH]; [constructor|]. rewrite weight_cons. intros Hw.
  pose proof (weight_nonneg l). constructor; [|apply IH; lia]. unfold short_item, short. lia.
Qed.

Lemma block_bytes_length l : l ≠ [] → Z.of_nat (length (block_bytes l)) = 8 + weight l.
Proof.
  intros Hl. unfold block_bytes. destruct l as [|e l]; [done|]. rewrite length_app. unfold weight.
  change (length kDataBlockMagic) with 8%nat. lia.
Qed.

(** A compression that gives back what it was given and does not blow it up
    (Snappy's output is at most 32 + n + n / 6 bytes). *)
Definition good_compression (c : option BlockCompression) : Prop :=
  lossless c ∧
  match c with
  | None => True
  | Some c => ∀ s z, Compress c s = Some z → (length z <= 2 * length s + 32)%nat
  end.

(** What a block of entries encodes to. *)
Definition enc (c : option BlockCompression) (chunk : list entry) : bytes :=
  match c with
  | None => block_bytes chunk
  | Some c => default [] (Compress c (block_bytes chunk))
  end.

Lemma enc_length c chunk : good_compression c → chunk ≠ [] →
  Z.of_nat (length (enc c chunk)) <= 8 * weight chunk.
Proof.
  intros [Hl Hs] Hne. pose proof (block_bytes_length chunk Hne). pose proof (weight_nonempty chunk Hne).
  destruct c as [c|]; unfold enc; cbn [lossless] in *; [|lia].
  destruct (Hl (block_bytes chunk)) as (z & Hz & _). specialize (Hs _ _ Hz). rewrite Hz. unfold default, from_option, id. lia.
Qed.

Definition file_offset (c : option BlockCompression) (chunks : list (list entry)) : Z :=
  Z.of_nat (length (chunks ≫= enc c)).

Lemma file_offset_snoc c chunks chunk :
  file_offset c (chunks ++ [chunk]) = file_offset c chunks + Z.of_nat (length (enc c chunk)).
Proof. unfold file_offset. rewrite bind_app, length_app. cbn. rewrite app_nil_r. lia. Qed.

Lemma file_offset_bound c chunks : good_compression c → Forall (.≠ []) chunks →
  0 <= file_offset c chunks <= 8 * weight (concat chunks).
Proof.
  intros Hc Hne. induction chunks as [|chunk chunks IH] using rev_ind; [unfold file_offset, weight; cbn [concat mbind list_bind length]; lia|].
  apply Forall_app in Hne as [Hne [Hch _]%Forall_cons]. specialize (IH Hne).
  rewrite file_offset_snoc, concat_app, weight_app. cbn. rewrite app_nil_r.
  pose proof (enc_length c chunk Hc Hch). lia.
Qed.

(** The index entries of consecutive blocks. *)
Fixpoint infos (c : option BlockCompression) (off : Z) (chunks : list (list entry)) :
    list DataBlockInfo :=
  match chunks with
  | [] => []
  | chunk :: chunks =>
      mkInfo off (Z.of_nat (length (block_bytes chunk))) (default ([], []) (head chunk)).1 ::
      infos c (off + Z.of_nat (length (enc c chunk))) chunks
  end.

Lemma infos_app c off chunks more :
  infos c off (chunks ++ more) = infos c off chunks ++ infos c (off + file_offset c chunks) more.
Proof.
  revert off. induction chunks as [|chunk chunks IH]; intros off; cbn.
  - unfold file_offset. cbn. by rewrite Z.add_0_r.
  - rewrite IH. do 3 f_equal. unfold file_offset. cbn. rewrite length_app. lia.
Qed.

Lemma infos_length c off chunks : length (infos c off chunks) = length chunks.
Proof. revert off. induction chunks as [|chunk chunks IH]; intros off; cbn; auto. Qed.

End Sizes.

(** ** The invariant of the writers *)

Section Writer.
Context {M : Machine} `{ReliableDisk}.

(** Writing to a reliable disk appends. *)
Lemma WriteToFile_reliable `{Block B} (b : B) f :
  WriteToFile b f = (true, (EncodeToString b).2, f ++ (EncodeToString b).1).
Proof.
  unfold WriteToFile, File_Write. destruct (EncodeToString b) as [s b']. cbn [fst snd].
  case_bool_decide as Hs; [by rewrite Hs, app_nil_r|].
  rewrite Nat.min_r by apply fwrite_all. rewrite firstn_all. by case_match.
Qed.

Context (c : option BlockCompression) (Hc : good_compression c).

(** The blocks of [chunks] are in the file and in the index. *)
Record written (t : TableState) (chunks : list (list entry)) : Prop := {
  w_file : t_file t = chunks ≫= enc c;
  w_index : index_buffer (t_index t) = index_bytes (infos c 0 chunks);
  w_last : last_offset (t_index t) = file_offset c chunks;
  w_offset : index_offset t = file_offset c chunks;
  w_count : index_count t = Z.of_nat (length chunks);
  w_nonempty : Forall (.≠ []) chunks
}.

(** The entries of [cur] are in the block under construction. *)
Record pending (t : TableState) (cur : list entry) : Prop := {
  p_compression : compression (t_block t) = c;
  p_buffer : buffer (t_block t) = block_bytes cur;
  p_first : cur ≠ [] → first_key t = (default ([], []) (head cur)).1
}.

Lemma EncodeToString_enc b cur : compression b = c → buffer b = block_bytes cur →
  EncodeToString b =
  (enc c cur, mkDataBlock c (data_items b) (buffer b) (Z.of_nat (length (enc c cur)))).
Proof.
  intros Hb Hbuf. cbn. unfold DataBlock_EncodeToString. rewrite Hb, Hbuf.
  destruct c as [c'|]; cbn; [|done]. destruct Hc as [Hl _].
  destruct (Hl (block_bytes cur)) as (z & -> & _). done.
Qed.

Lemma write_block_spec t chunks cur :
  written t chunks → pending t cur → cur ≠ [] → weight (concat chunks ++ cur) < 2 ^ 28 →
  ∃ t', write_block t = (true, t') ∧ written t' (chunks ++ [cur]) ∧
    compression (t_block t') = c ∧ first_key t' = first_key t ∧
    t_entry_count t' = t_entry_count t ∧ key_length t' = key_length t ∧
    value_length t' = value_length t ∧ t_last_key t' = t_last_key t.
Proof.
  intros Hw Hp Hne Hsz. unfold write_block.
  rewrite WriteToFile_reliable, (EncodeToString_enc _ cur) by apply Hp. cbn [fst snd].
  eexists. split; [done|]. split; [|done]. rewrite weight_app in Hsz.
  pose proof (weight_nonneg (concat chunks)). pose proof (weight_nonneg cur).
  pose proof (enc_length c cur Hc Hne). pose proof (block_bytes_length cur Hne).
  pose proof (file_offset_bound c chunks Hc (w_nonempty _ _ Hw)).
  split; cbn [t_file t_index index_offset index_count].
  - rewrite (w_file _ _ Hw), bind_app. cbn. by rewrite app_nil_r.
  - unfold GetCompressedBufferSize, GetUncompressedBufferSize. cbn [compressed_size buffer].
    rewrite (AddDataBlockInfo_buffer _ _ _ _ (infos c 0 chunks)).
    + rewrite infos_app, Z.add_0_l. cbn [infos]. do 4 f_equal.
      * apply Hw.
      * rewrite (p_buffer _ _ Hp), s32_small by lia. done.
      * by apply Hp.
    + rewrite (p_first _ _ Hp Hne). destruct cur as [|e cur]; [done|]. cbn. unfold short.
      rewrite weight_cons in Hsz. pose proof (weight_nonneg cur). lia.
    + apply Hw.
  - unfold AddDataBlockInfo, GetCompressedBufferSize. cbn [compressed_size last_offset].
    rewrite (w_last _ _ Hw), file_offset_snoc, s32_small, s64_small by lia. done.
  - unfold GetCompressedBufferSize. cbn [compressed_size].
    by rewrite (w_offset _ _ Hw), file_offset_snoc.
  - rewrite (w_count _ _ Hw), length_app. cbn. lia.
  - apply Forall_app. split; [apply Hw|by repeat constructor].
Qed.

Lemma clear_pending t k : compression (t_block t) = c → pending (clear_block (set_first_key k t)) [].
Proof. by split. Qed.

Lemma add_pending t cur e : e ≠ ([], []) → pending t cur → (cur = [] → first_key t = e.1) →
  pending (add_to_block e.1 e.2 t) (cur ++ [e]).
Proof.
  intros Hne Hp Hf. destruct e as [k v]. split; cbn [t_block add_to_block first_key].
  - rewrite AddItem_compression. apply Hp.
  - apply AddItem_buffer; [done|apply Hp].
  - intros _. destruct cur as [|x cur]; [by apply Hf|]. by apply Hp.
Qed.

Lemma add_written t chunks e : written t chunks → written (add_to_block e.1 e.2 t) chunks.
Proof. by intros []. Qed.

(** The counters of the entries added so far. *)
Definition key_total (l : list entry) : Z := Z.of_nat (length (l ≫= fst)).
Definition value_total (l : list entry) : Z := Z.of_nat (length (l ≫= snd)).

Record counted (t : TableState) (l : list entry) : Prop := {
  c_entries : t_entry_count t = Z.of_nat (length l);
  c_keys : key_length t = key_total l;
  c_values : value_length t = value_total l
}.

Lemma add_counted t l e : counted t l → counted (add_to_block e.1 e.2 t) (l ++ [e]).
Proof.
  intros [He Hk Hv]. split; cbn [t_entry_count key_length value_length add_to_block];
    unfold key_total, value_total in *; rewrite ?bind_app, !length_app; cbn; rewrite ?app_nil_r; lia.
Qed.

(** [t] is the state after the entries [l], cut into [chunks] and [cur]. *)
Record holds (t : TableState) (l : list entry) (chunks : list (list entry)) (cur : list entry) :
    Prop := {
  h_written : written t chunks;
  h_pending : pending t cur;
  h_entries : concat chunks ++ cur = l;
  h_counted : counted t l
}.

(** Entries a writer may be given. *)
Definition fits (l : list entry) : Prop := Forall (.≠ ([], [])) l ∧ weight l < 2 ^ 28.

Lemma fits_app l k : fits (l ++ k) → fits l ∧ fits k.
Proof.
  intros [Hn Hw]. apply Forall_app in Hn as [? ?]. rewrite weight_app in Hw.
  pose proof (weight_nonneg l). pose proof (weight_nonneg k). repeat split; done || lia.
Qed.

(** Cutting a block when it is full and adding an entry, as both writers do. *)
Lemma cut_and_add full t l chunks cur e :
  holds t l chunks cur → fits (l ++ [e]) → (cur = [] → first_key t = e.1) →
  (full = true → cur ≠ []) →
  ∃ t1 t2 chunks' cur',
    (if full then write_block t = (true, t1) ∧ t2 = clear_block (set_first_key e.1 t1)
     else t2 = t) ∧
    holds (add_to_block e.1 e.2 t2) (l ++ [e]) chunks' cur' ∧ cur' ≠ [] ∧
    t_last_key t2 = t_last_key t.
Proof.
  intros Hh [Hne Hw] Hf Hfull. apply Forall_app in Hne as [Hnl [He _]%Forall_cons].
  destruct Hh as [Hwr Hp Hl Hcnt]. destruct full.
  - rewrite weight_app in Hw. pose proof (weight_nonneg [e]).
    destruct (write_block_spec t chunks cur Hwr Hp (Hfull eq_refl)) as
      (t1 & E & Hw1 & Hc1 & Hf1 & Hn1 & Hk1 & Hv1 & Hlk); [rewrite Hl; lia|].
    exists t1, (clear_block (set_first_key e.1 t1)), (chunks ++ [cur]), [e].
    split; [done|]. split_and!; [|done|done]. split.
    + by destruct Hw1; split.
    + apply (add_pending _ []); [done|by apply clear_pending|done].
    + rewrite concat_app. cbn. by rewrite app_nil_r, Hl.
    + apply add_counted. destruct Hcnt as [? ? ?]. split; cbn; congruence.
  - exists t, t, chunks, (cur ++ [e]). split; [done|]. split_and!; [|by destruct cur|done]. split.
    + by apply add_written.
    + by apply add_pending.
    + by rewrite (assoc_L (++)), Hl.
    + by apply add_counted.
Qed.

Context (opt : WriteOption) (Hbs : 0 < block_size opt < 2 ^ 63).

(** A block is full only when it has entries. *)
Lemma full_nonempty t cur : pending t cur →
  (block_size opt <=? GetUncompressedBufferSize (t_block t)) = true → cur ≠ [].
Proof.
  intros Hp Hb ->. bool_to_prop. unfold GetUncompressedBufferSize in Hb.
  rewrite (p_buffer _ _ Hp) in Hb. cbn in Hb. lia.
Qed.

Lemma Single_step_spec t l chunks cur e :
  holds t l chunks cur → fits (l ++ [e]) → (cur = [] → first_key t = e.1) →
  ∃ t' chunks' cur', Single_step opt e t = (true, t') ∧ holds t' (l ++ [e]) chunks' cur' ∧
    cur' ≠ [] ∧ t_last_key t' = t_last_key t.
Proof.
  intros Hh Hfit Hf. unfold Single_step.
  destruct (cut_and_add (block_size opt <=? GetUncompressedBufferSize (t_block t)) t l chunks cur e)
    as (t1 & t2 & chunks' & cur' & E & Hh' & Hne & Hlk); [done..|apply full_nonempty, Hh|].
  exists (add_to_block e.1 e.2 t2), chunks', cur'. split; [|done].
  destruct (block_size opt <=? _); [destruct E as (-> & ->)|subst t2]; done.
Qed.

Lemma Single_loop_spec entries t l chunks cur :
  holds t l chunks cur → fits (l ++ entries) → (cur = [] → first_key t = (default ([], []) (head entries)).1) →
  ∃ t' chunks' cur', Single_loop opt entries t = (true, t') ∧ holds t' (l ++ entries) chunks' cur' ∧
    (cur ≠ [] ∨ entries ≠ [] → cur' ≠ []) ∧ t_last_key t' = t_last_key t.
Proof.
  revert t l chunks cur. induction entries as [|e entries IH]; intros t l chunks cur Hh Hfit Hf.
  { exists t, chunks, cur. rewrite app_nil_r. split_and!; try done. by intros [?|?]. }
  rewrite cons_middle, (assoc_L (++)) in Hfit |- *.
  destruct (Single_step_spec t l chunks cur e) as (t1 & ch1 & cur1 & E1 & Hh1 & Hne & Hlk);
    [done|by apply fits_app in Hfit as [? _]|done|].
  destruct (IH t1 (l ++ [e]) ch1 cur1) as (t2 & ch2 & cur2 & E2 & Hh2 & Hne2 & Hlk2); [done..|].
  exists t2, ch2, cur2. cbn [Single_loop]. rewrite E1. split_and!; [done|done| |congruence].
  intros _. apply Hne2. by left.
Qed.

End Writer.

(** ** The file format *)

Section Format.
Context {M : Machine}.

(** Meta data a writer may be given: the reserved names are taken by the
    summary, and lengths fit. *)
Definition meta_ok (meta : list entry) : Prop :=
  Forall short_item meta ∧ Forall (λ e, e.1 ∉ reserved_keys) meta ∧
  Z.of_nat (length (meta ≫= encode_meta)) < 2 ^ 28.

Lemma meta_length meta : (length meta <= length (meta ≫= encode_meta))%nat.
Proof.
  induction meta as [|e meta IH]; [done|]. cbn. rewrite length_app.
  pose proof (encode_meta_nonempty e). destruct (encode_meta e); [done|]. cbn. lia.
Qed.

(** What a table file is: the agreement between writers and readers.  [l] are
    its entries in file order, cut into [chunks]. *)
Record table_file (c : option BlockCompression) (ct : Z) (meta l : list entry)
    (chunks : list (list entry)) (fi : FileInfo) (tr : FileTrailer) (f : bytes) : Prop := {
  tf_bytes : f = (chunks ≫= enc c) ++ FileInfo_EncodeToString fi ++
                 index_bytes (infos c 0 chunks) ++ FileTrailer_EncodeToString tr;
  tf_entries : concat chunks = l;
  tf_chunks : Forall (.≠ []) chunks ∧ chunks ≠ [];
  tf_fits : fits l;
  tf_info : represents fi (set_meta_items meta (info_content fi));
  tf_trailer : trailer_small tr;
  tf_info_offset : file_info_offset tr = file_offset c chunks;
  tf_index_offset : data_index_offset tr =
    file_offset c chunks + Z.of_nat (length (FileInfo_EncodeToString fi));
  tf_meta_offset : meta_index_offset tr = 0;
  tf_count : data_index_count tr = Z.of_nat (length chunks);
  tf_entry_count : entry_count tr = Z.of_nat (length l);
  tf_compress : compress_type tr = ct
}.

Lemma s32_range x : - 2 ^ 31 <= s32 x < 2 ^ 31.
Proof. unfold s32. pose proof (Z.mod_pos_bound (x + 2 ^ 31) (2 ^ 32)). lia. Qed.

Lemma fold_AddItem meta x items :
  Forall short_item meta → fi_buffer x = items ≫= encode_meta →
  - 2 ^ 31 <= item_num x → item_num x + Z.of_nat (length meta) < 2 ^ 31 →
  let y := fold_left (λ x e, FileInfo_AddItem e.1 e.2 x) meta x in
  fi_buffer y = (items ++ meta) ≫= encode_meta ∧
  item_num y = item_num x + Z.of_nat (length meta) ∧
  meta_items y = meta_items x ∧ last_key y = last_key x ∧ comparator y = comparator x ∧
  avg_key_len y = avg_key_len x ∧ avg_value_len y = avg_value_len x.
Proof.
  revert x items. induction meta as [|[k v] meta IH]; intros x items Hs Hb Hlo Hn.
  { cbn. rewrite app_nil_r. split_and!; done || lia. }
  apply Forall_cons in Hs as [[Hk Hv] Hs]. cbn [fold_left fst snd length] in *.
  assert (Hin : item_num (FileInfo_AddItem k v x) = item_num x + 1).
  { unfold FileInfo_AddItem. cbn [item_num]. apply s32_small. lia. }
  destruct (IH (FileInfo_AddItem k v x) (items ++ [(k, v)])) as (H1 & H2 & H3 & H4 & H5 & H6 & H7);
    [done|by apply FileInfo_AddItem_buffer|lia|lia|].
  rewrite <- (assoc_L (++)) in H1. split_and!; [done|lia|done..].
Qed.

Lemma make_file_info_ok meta t : meta_ok meta → short (t_last_key t) →
  represents (make_file_info meta t) (set_meta_items meta (info_content (make_file_info meta t))).
Proof.
  intros (Hs & Hr & Hl) Hk. pose proof (meta_length meta).
  destruct (fold_AddItem meta new_FileInfo []) as (H1 & H2 & H3 & H4 & H5 & H6 & H7);
    [done|done|change (item_num new_FileInfo) with 4; lia..|].
  unfold make_file_info. set (y := fold_left _ meta new_FileInfo) in *. clearbody y.
  assert (Hc : short (comparator new_FileInfo)) by (unfold short; vm_compute; done).
  cbn. case_match; cbn; rewrite ?H5; (split; [|split_and!; done]); unfold info_small; cbn;
    rewrite ?H2, ?H5, ?H6, ?H7; change (item_num new_FileInfo) with 4;
    change (avg_key_len new_FileInfo) with 0; change (avg_value_len new_FileInfo) with 0;
    pose proof (s32_range (key_length t ÷ t_entry_count t));
    pose proof (s32_range (value_length t ÷ t_entry_count t));
    split_and!; done || lia.
Qed.

Lemma UnsafeEncode32_length v : (length (UnsafeEncode32 v) <= 5)%nat.
Proof. unfold UnsafeEncode32. repeat case_match; cbn; lia. Qed.

Lemma make_file_info_length meta t : meta_ok meta → short (t_last_key t) →
  Z.of_nat (length (FileInfo_EncodeToString (make_file_info meta t))) < 2 ^ 33.
Proof.
  intros Hm Hk. pose proof (make_file_info_ok meta t Hm Hk) as (Hsm & Hb & _).
  destruct Hm as (Hs & _ & Hl). destruct Hsm as (_ & _ & _ & Hcs & Hlk).
  rewrite FileInfo_Encode_eq by done. rewrite Hb. cbn [meta_items set_meta_items].
  set (buf := meta ≫= encode_meta) in *. clearbody buf.
  unfold encode_meta, encode_avg, PutFixed32, short in *. cbn [fst snd].
  rewrite !length_app, !EncodeFixed32_length.
  change (length AVG_KEY_LEN) with 17%nat. change (length AVG_VALUE_LEN) with 19%nat.
  change (length COMPARATOR) with 16%nat. change (length LASTKEY) with 13%nat. cbn [length].
  repeat match goal with
  | |- context [length (UnsafeEncode32 ?v)] =>
      lazymatch goal with
      | _ : (length (UnsafeEncode32 v) <= 5)%nat |- _ => fail
      | _ => pose proof (UnsafeEncode32_length v)
      end
  end.
  lia.
Qed.

End Format.

Section Flush.
Context {M : Machine} `{ReliableDisk}.
Context (c : option BlockCompression) (Hc : good_compression c).
Context (opt : WriteOption) (Hbs : 0 < block_size opt < 2 ^ 63).
Context (Hct : - 2 ^ 31 <= option_compress_type opt < 2 ^ 31).

Lemma fits_length (l : list entry) : fits l → 8 * Z.of_nat (length l) < 2 ^ 28.
Proof.
  intros [_ Hw]. assert (8 * Z.of_nat (length l) <= weight l); [|lia]. clear Hw.
  induction l as [|e l IH]; [done|]. rewrite weight_cons. cbn [length]. lia.
Qed.

Lemma finish_spec meta t chunks l :
  written c t chunks → chunks ≠ [] → concat chunks = l → counted t l → fits l →
  meta_ok meta → short (t_last_key t) →
  ∃ fi tr f, (finish opt meta t).1 = (true, Some f) ∧ (finish opt meta t).2.1 = false ∧
    table_file c (option_compress_type opt) meta l chunks fi tr f ∧ fi = make_file_info meta t.
Proof.
  intros Hw Hne Hl Hcnt Hfit Hm Hk. pose proof (make_file_info_length meta t Hm Hk) as Hfi. unfold finish. rewrite !WriteToFile_reliable.
  rewrite renames. cbn [negb fst snd]. eexists _, _, _. split; [done|]. split; [done|]. split; [|done].
  pose proof (file_offset_bound c chunks Hc (w_nonempty _ _ _ Hw)) as Hb.
  pose proof (fits_length l Hfit) as Hlen. destruct Hfit as [Hnn Hwt]. rewrite Hl in Hb.
  assert (Hch : (length chunks <= length l)%nat).
  { rewrite <- Hl. pose proof (w_nonempty _ _ _ Hw) as Hn. clear - Hn.
    induction Hn as [|x k Hx Hn IH]; [done|]. cbn. rewrite length_app. destruct x; [done|]. cbn. lia. }
  pose proof (w_offset _ _ _ Hw) as Hoff. pose proof (w_count _ _ _ Hw) as Hcount.
  pose proof (c_entries _ _ Hcnt) as Hent.
  split; cbn [file_info_offset data_index_offset data_index_count meta_index_offset entry_count
    compress_type make_trailer index_offset index_count total_bytes t_entry_count].
  - cbn [t_file EncodeToString fst snd FileInfo_block DataIndex_block FileTrailer_block t_index].
    rewrite (w_file _ _ _ Hw), (w_index _ _ _ Hw), <- !(assoc_L (++)). done.
  - done.
  - split; [apply Hw|done].
  - done.
  - by apply make_file_info_ok.
  - pose proof (s32_range (total_bytes t)). pose proof (s32_range (t_entry_count t)).
    pose proof (s32_range (index_count t)). unfold trailer_small, kCurrentVersion.
    cbn [file_info_offset data_index_offset data_index_count meta_index_offset meta_index_count
      total_uncompressed_bytes entry_count compress_type version make_trailer new_FileTrailer
      index_offset index_count total_bytes t_entry_count EncodeToString FileInfo_block fst].
    unfold kCurrentVersion. split_and!; lia.
  - done.
  - cbn. by rewrite Hoff.
  - done.
  - unfold make_trailer. cbn [data_index_count index_count]. rewrite Hcount, s32_small by lia. done.
  - unfold make_trailer. cbn [entry_count t_entry_count]. rewrite Hent, s32_small by lia. done.
  - done.
Qed.

(** ** Flushing *)

Lemma weight_perm l k : l ≡ₚ k → weight l = weight k.
Proof. unfold weight. induction 1; cbn; rewrite ?length_app in *; lia. Qed.

Lemma fits_perm l k : l ≡ₚ k → fits l → fits k.
Proof. intros Hp [Hn Hw]. split; [by rewrite <- Hp|]. by rewrite <- (weight_perm l k). Qed.

Lemma fits_short (l : list entry) e : fits l → e ∈ l → short_item e.
Proof.
  intros [_ Hw%weight_short] He. rewrite Forall_forall in Hw. auto.
Qed.

Lemma new_holds b : compression b = c → buffer b = [] → ∀ k1 k2,
  holds c (set_table_last_key k2 (set_first_key k1 (new_table b))) [] [] [].
Proof.
  intros Hb Hbuf k1 k2. split; [| |done|].
  - split; cbn; done || constructor.
  - by split.
  - by split.
Qed.

Lemma Single_Flush_spec w :
  flushed w = false → s_option w = opt → compression (s_block w) = c → buffer (s_block w) = [] →
  fits (d_data w) → d_data w ≠ [] → meta_ok (s_meta w) →
  ∃ w' chunks fi tr f, Single_Flush w = Some ((true, Some f), w') ∧
    table_file c (option_compress_type opt) (s_meta w) (stable_sort (d_data w)) chunks fi tr f ∧
    flushed w' = true.
Proof.
  intros Hfl Ho Hcb Hbb Hfit Hne Hm. unfold Single_Flush. rewrite Hfl. cbn [d_data s_option s_meta s_block].
  pose proof (stable_sort_perm (d_data w)) as Hp.
  assert (Hfs : fits (stable_sort (d_data w))) by (by apply (fits_perm (d_data w))).
  destruct (stable_sort (d_data w)) as [|e0 es] eqn:Es.
  { symmetry in Hp. by apply Permutation_nil_r in Hp. }
  rewrite <- Es in *. set (l := stable_sort (d_data w)) in *.
  rewrite opens, Ho.
  set (t0 := set_table_last_key _ _).
  destruct (Single_loop_spec c Hc opt Hbs l t0 [] [] []) as (t1 & chunks & cur & E1 & Hh & Hcne & Hlk).
  { by apply new_holds. }
  { done. }
  { intros _. by rewrite Es. }
  rewrite E1. rewrite app_nil_l in Hh.
  assert (Hcur : cur ≠ []) by (apply Hcne; right; by rewrite Es).
  destruct (write_block_spec c Hc t1 chunks cur) as (t2 & E2 & Hw2 & _ & _ & Hn2 & Hk2 & Hv2 & Hlk2);
    [apply Hh|apply Hh|done|rewrite (h_entries _ _ _ _ _ Hh); apply Hfs|].
  rewrite E2.
  destruct (finish_spec (s_meta w) t2 (chunks ++ [cur]) l) as (fi & tr & f & Ef & _ & Hf & _).
  - done.
  - by destruct chunks.
  - rewrite concat_app. cbn. rewrite app_nil_r. apply Hh.
  - destruct (h_counted _ _ _ _ _ Hh) as [? ? ?]. split; congruence.
  - done.
  - done.
  - rewrite Hlk2, Hlk. cbn [t_last_key t0 set_table_last_key].
    destruct (last l) as [e|] eqn:El; cbn [default]; [|apply last_None in El; by rewrite Es in El].
    apply (fits_short l); [done|]. by apply last_Some_elem_of.
  - rewrite Ef. eexists _, _, fi, tr, f. split; [done|]. by split.
Qed.

(** The unsorted writer after the entries [l]. *)
Record unsorted_ok (w : UnsortedWriter) (meta l : list entry) (chunks : list (list entry))
    (cur : list entry) : Prop := {
  uo_failed : failed w = false;
  uo_open : u_open w = true;
  uo_option : u_option w = opt;
  uo_meta : u_meta w = meta;
  uo_first : is_first_key w = bool_decide (l = []);
  uo_holds : holds c (u_table w) l chunks cur;
  uo_cur : cur = [] → l = [];
  uo_last : t_last_key (u_table w) = (default ([], []) (last l)).1
}.

Lemma holds_first_key k t l chunks : holds c t l chunks [] → holds c (set_first_key k t) l chunks [].
Proof.
  intros [[] [] ? []]. split; [by split| |done|by split]. by split.
Qed.

Lemma holds_last_key k t l chunks cur :
  holds c t l chunks cur → holds c (set_table_last_key k t) l chunks cur.
Proof. intros [[] [] ? []]. split; [by split|by split|done|by split]. Qed.

Lemma Unsorted_Add_spec w meta l chunks cur e :
  unsorted_ok w meta l chunks cur → fits (l ++ [e]) →
  ∃ w' chunks' cur', Unsorted_Add e.1 e.2 w = (true, w') ∧
    unsorted_ok w' meta (l ++ [e]) chunks' cur'.
Proof.
  intros [Hfa Hop Hopt Hme Hfi Hh Hcur Hla] Hfit. unfold Unsorted_Add. rewrite Hfa, Hopt, s64_small by lia.
  set (t := if is_first_key w then set_first_key e.1 (u_table w) else u_table w).
  assert (Ht : holds c t l chunks cur ∧ (cur = [] → first_key t = e.1)).
  { unfold t. rewrite Hfi. case_bool_decide as Hl; [|split; [done|by intros ?%Hcur]].
    assert (cur = []) as ->.
    { pose proof (h_entries _ _ _ _ _ Hh) as E. rewrite Hl in E. by apply app_nil in E as [_ ?]. }
    split; [by apply holds_first_key|done]. }
  destruct Ht as [Ht Hf].
  destruct (cut_and_add c Hc (block_size opt <=? GetUncompressedBufferSize (t_block t)) t l chunks cur e)
    as (t1 & t2 & chunks' & cur' & E & Hh' & Hne & Hlk); [done..| |].
  { intros Hb. by apply (full_nonempty c opt Hbs t); [apply Ht|]. }
  assert (Hadd : (if block_size opt <=? GetUncompressedBufferSize (t_block t) then
      let '(ok, t) := WriteBlockAndUpdateIndex t in
      if ok then (true, set_first_key e.1 t) else (false, t)
    else (true, t)) = (true, t2)).
  { destruct (_ <=? _); [|congruence]. destruct E as [E ->]. unfold WriteBlockAndUpdateIndex.
    by rewrite E. }
  rewrite Hadd. eexists _, chunks', cur'. split; [done|]. split; cbn [failed u_open u_option u_meta is_first_key u_table]; try done.
  - symmetry. apply bool_decide_eq_false. by destruct l.
  - by apply holds_last_key.
  - by rewrite last_snoc.
Qed.

Lemma Unsorted_Flush_spec w meta l chunks cur :
  unsorted_ok w meta l chunks cur → fits l → l ≠ [] → meta_ok meta →
  ∃ w' chunks' fi tr f, Unsorted_Flush w = Some ((true, Some f), w') ∧
    table_file c (option_compress_type opt) meta l chunks' fi tr f ∧ u_open w' = false.
Proof.
  intros [Hfa Hop Hopt Hme Hfi Hh Hcur Hla] Hfit Hne Hm. unfold Unsorted_Flush. rewrite Hfa, Hop. cbn [negb].
  assert (Hcne : cur ≠ []) by (intros ->; by apply Hne, Hcur).
  destruct (write_block_spec c Hc (u_table w) chunks cur) as (t2 & E2 & Hw2 & _ & _ & Hn2 & Hk2 & Hv2 & Hlk2);
    [apply Hh|apply Hh|done|rewrite (h_entries _ _ _ _ _ Hh); apply Hfit|].
  unfold WriteBlockAndUpdateIndex. rewrite E2. cbn [u_option u_meta failed is_first_key u_open].
  rewrite Hopt, Hme.
  destruct (finish_spec meta (clear_block t2) (chunks ++ [cur]) l) as (fi & tr & f & Ef & Eo & Hf & _).
  - by destruct Hw2; split.
  - by destruct chunks.
  - rewrite concat_app. cbn. rewrite app_nil_r. apply Hh.
  - destruct (h_counted _ _ _ _ _ Hh) as [? ? ?]. split; cbn; congruence.
  - done.
  - done.
  - cbn [t_last_key clear_block]. rewrite Hlk2, Hla.
    destruct (last l) as [e|] eqn:El; [|by apply last_None in El].
    apply (fits_short l); [done|]. by apply last_Some_elem_of.
  - destruct (finish opt meta (clear_block t2)) as [res [still t3]]. cbn [fst snd] in Ef, Eo. subst.
    eexists _, _, fi, tr, f. split; [done|]. by split.
Qed.

End Flush.
