(* ===== verification/SSTableReader.v ===== *)
(** * The table readers

    Model of storage/sstable/reader: loading the trailer, the file information
    and the index of a table, loading data blocks, and the reader that keeps
    the table on disk behind a cache of blocks, with its iterator.

    A file open for reading is its bytes and a position, as [fseeko], [ftello]
    and [fread] see it.  [None] is a failed CHECK, a read outside a string or
    an uncaught exception, as in [Coding]; resizing a buffer to a large size
    is taken to succeed. *)

From S2P Require Import Prelude Varint Coding StdString HFile LruCache.

(** ** Files *)

Record File := mkFile { f_data : bytes; f_pos : Z }.

Inductive whence := SEEK_SET | SEEK_END.

Definition f_size (f : File) : Z := Z.of_nat (length (f_data f)).

(** [LocalFile::Seek]: a position before the start of the file is refused. *)
Definition File_Seek (off : Z) (w : whence) (f : File) : bool * File :=
  let pos := match w with SEEK_SET => off | SEEK_END => f_size f + off end in
  if pos <? 0 then (false, f) else (true, mkFile (f_data f) pos).

Definition File_Tell (f : File) : Z := f_pos f.

(** [LocalFile::Read] of [n] bytes: those there are. *)
Definition File_Read (n : Z) (f : File) : Z * bytes * File :=
  let s := take (Z.to_nat n) (drop (Z.to_nat (f_pos f)) (f_data f)) in
  (Z.of_nat (length s), s, mkFile (f_data f) (f_pos f + Z.of_nat (length s))).

Section Reader.
Context {M : Machine}.

(** ** class SSTableReader::Impl *)

(** [LoadFileInfo]: the file information and the index are loaded when their
    pointers are not NULL. *)
Record Loaded := mkLoaded {
  l_file : File;
  l_index : option DataIndex;
  l_info : option FileInfo;
  l_trailer : FileTrailer
}.

Definition load_index (x : DataIndex) (ld : Loaded) : option (bool * Loaded) :=
  let tr := l_trailer ld in
  let '(index_length, file) :=
    if 0 <? meta_index_offset tr then (meta_index_offset tr - data_index_offset tr, l_file ld)
    else
      let '(_, file) := File_Seek 0 SEEK_END (l_file ld) in
      (File_Tell file - TrailerSize - data_index_offset tr, file) in
  let ld := mkLoaded file (l_index ld) (l_info ld) tr in
  if index_length <? 0 then Some (false, ld)
  else
    let '(s, file) := File_Seek (data_index_offset tr) SEEK_SET file in
    if negb s then Some (false, mkLoaded file (l_index ld) (l_info ld) tr)
    else
      let '(size, buffer, file) := File_Read index_length file in
      if negb (index_length =? size) then Some (false, mkLoaded file (l_index ld) (l_info ld) tr)
      else
        '(ok, x) ← DecodeFromString x buffer;
        Some (ok, mkLoaded file (Some x) (l_info ld) tr).

Definition load_info (x : FileInfo) (ld : Loaded) : option (bool * Loaded) :=
  let tr := l_trailer ld in
  let file_info_length := data_index_offset tr - file_info_offset tr in
  if file_info_length <? 0 then Some (false, ld)
  else
    let '(s, file) := File_Seek (file_info_offset tr) SEEK_SET (l_file ld) in
    if negb s then Some (false, mkLoaded file (l_index ld) (l_info ld) tr)
    else
      let '(size, buffer, file) := File_Read file_info_length file in
      if negb (size =? file_info_length)
      then Some (false, mkLoaded file (l_index ld) (l_info ld) tr)
      else
        '(ok, x) ← DecodeFromString x buffer;
        let ld := mkLoaded file (l_index ld) (Some x) tr in
        if negb ok then Some (false, ld)
        else match l_index ld with None => Some (true, ld) | Some i => load_index i ld end.

Definition LoadFileInfo (file : File) (data_index : option DataIndex) (file_info : option FileInfo)
    (file_trailer : FileTrailer) : option (bool * Loaded) :=
  let '(s, file) := File_Seek (- TrailerSize) SEEK_END file in
  let current_pos := File_Tell file in
  let '(_, file) := File_Seek 0 SEEK_END file in
  let '(_, file) := File_Seek current_pos SEEK_SET file in
  let ld := mkLoaded file data_index file_info file_trailer in
  if negb s then Some (false, ld)
  else
    let '(size, buffer, file) := File_Read TrailerSize file in
    let ld := mkLoaded file data_index file_info file_trailer in
    if negb (TrailerSize =? size) then Some (false, ld)
    else
      '(ok, tr) ← DecodeFromString file_trailer buffer;
      let ld := mkLoaded file data_index file_info tr in
      if negb ok then Some (false, ld)
      else match file_info with None => Some (true, ld) | Some x => load_info x ld end.

(** The first pair with the key, or the empty string. *)
Fixpoint FindValue (key : bytes) (vec : list (bytes * bytes)) : bytes :=
  match vec with
  | [] => []
  | (k, v) :: vec => if bool_decide (k = key) then v else FindValue key vec
  end.

Record Impl := mkImpl {
  data_index : DataIndex;
  file_trailer : FileTrailer;
  file_info : FileInfo;
  file_base : File
}.

(** [LoadFile], on a file that was opened. *)
Definition LoadFile (content : bytes) : option (option Impl) :=
  '(ok, ld) ← LoadFileInfo (mkFile content 0) (Some new_DataIndex) (Some new_FileInfo) new_FileTrailer;
  if (ok : bool) then
    Some (Some (mkImpl (default new_DataIndex (l_index ld)) (l_trailer ld)
                  (default new_FileInfo (l_info ld)) (l_file ld)))
  else Some None.

Definition Impl_GetMetaData (key : bytes) (r : Impl) : bytes := FindValue key (meta_items (file_info r)).
Definition EntryCount (r : Impl) : Z := entry_count (file_trailer r).

(** The length of a block is an [int]; a negative one is fatal in [resize]. *)
Definition LoadDataBlock (block_id : Z) (block : DataBlock) (r : Impl) :
    option ((bool * DataBlock) * Impl) :=
  let n := DataIndex_GetBlockSize (data_index r) in
  if negb ((0 <=? block_id) && (block_id <? n)) then None
  else
    next_offset ← (if block_id + 1 <? n then GetOffset (data_index r) (Z.to_nat (block_id + 1))
                   else Some (file_info_offset (file_trailer r)));
    cur_offset ← GetOffset (data_index r) (Z.to_nat block_id);
    let length := s32 (next_offset - cur_offset) in
    let '(s, file) := File_Seek cur_offset SEEK_SET (file_base r) in
    let r := mkImpl (data_index r) (file_trailer r) (file_info r) file in
    if negb s then Some ((false, block), r)
    else if length <? 0 then None
    else
      let '(size, buffer, file) := File_Read length file in
      let r := mkImpl (data_index r) (file_trailer r) (file_info r) file in
      if negb (size =? length) then Some ((false, block), r)
      else
        '(ok, block) ← DecodeFromString block buffer;
        Some ((ok, block), r).

(** ** Static functions *)

Definition Static_GetMetaData (content key : bytes) : option (bool * bytes) :=
  '(ok, ld) ← LoadFileInfo (mkFile content 0) None (Some new_FileInfo) new_FileTrailer;
  if (ok : bool) then
    let value := FindValue key (meta_items (default new_FileInfo (l_info ld))) in
    Some (negb (bool_decide (value = [])), value)
  else Some (false, []).

Definition GetEntryCount (content : bytes) : option (option Z) :=
  '(ok, ld) ← LoadFileInfo (mkFile content 0) None None new_FileTrailer;
  Some (if (ok : bool) then Some (entry_count (l_trailer ld)) else None).

(** ** The cache of blocks *)

(** What the reader relies on: a cache holds nothing but what was put in. *)
Class BlockCache (C : Type) := {
  cache_new : C;
  cache_get : Z → C → option DataBlock * C;
  cache_put : Z → DataBlock → C → C;
  cache_ok : C → Prop;
  cache_holds : C → Z → DataBlock → Prop;
  cache_new_ok : cache_ok cache_new;
  cache_new_holds i v : ¬ cache_holds cache_new i v;
  cache_get_ok k c : cache_ok c → cache_ok (cache_get k c).2;
  cache_get_holds k c v : cache_ok c → (cache_get k c).1 = Some v → cache_holds c k v;
  cache_get_keeps k c i v : cache_ok c → cache_holds (cache_get k c).2 i v → cache_holds c i v;
  cache_put_ok k v c : cache_ok c → cache_ok (cache_put k v c);
  cache_put_holds k v c i w : cache_ok c → cache_holds (cache_put k v c) i w →
    i = k ∧ w = v ∨ cache_holds c i w
}.

(** ** class OnDiskSSTableReader *)

Context `{BlockCache C}.

Record OnDisk := mkOnDisk { impl : Impl; block_cache : C; snappy : option BlockCompression }.

(** The block, or a null pointer when it cannot be loaded. *)
Definition OnDisk_LoadDataBlock (block_id : Z) (r : OnDisk) : option (option DataBlock * OnDisk) :=
  match cache_get block_id (block_cache r) with
  | (Some block, cache) => Some (Some block, mkOnDisk (impl r) cache (snappy r))
  | (None, cache) =>
      new_block ← new_DataBlock (snappy r) (compress_type (file_trailer (impl r)));
      '((ok, block), im) ← LoadDataBlock block_id new_block (impl r);
      if (ok : bool) then Some (Some block, mkOnDisk im (cache_put block_id block cache) (snappy r))
      else Some (None, mkOnDisk im cache (snappy r))
  end.

Definition OnDisk_GetBlockSize (r : OnDisk) : Z := DataIndex_GetBlockSize (data_index (impl r)).
Definition OnDisk_FindMinimalBlock (key : bytes) (r : OnDisk) : option Z :=
  FindMinimalBlock (data_index (impl r)) key.

(** ** class OnDiskIterator *)

Record Iterator := mkIter {
  it_key : bytes;
  it_value : bytes;
  it_valid : bool;
  cached_block : option DataBlock;
  block_idx : Z;
  data_idx : Z
}.

(** The state of the iterator and of the reader it points to. *)
Definition state : Type := Iterator * OnDisk.

Definition set_valid (b : bool) (it : Iterator) : Iterator :=
  mkIter (it_key it) (it_value it) b (cached_block it) (block_idx it) (data_idx it).
Definition set_key (k : bytes) (it : Iterator) : Iterator :=
  mkIter k (it_value it) (it_valid it) (cached_block it) (block_idx it) (data_idx it).
Definition set_value (v : bytes) (it : Iterator) : Iterator :=
  mkIter (it_key it) v (it_valid it) (cached_block it) (block_idx it) (data_idx it).
Definition set_place (block : option DataBlock) (b d : Z) (it : Iterator) : Iterator :=
  mkIter (it_key it) (it_value it) (it_valid it) block b d.

(** [cached_block_->GetKey(data_idx_)]: a null block or an index out of range
    aborts. *)
Definition item_key (it : Iterator) : option bytes :=
  b ← cached_block it; if data_idx it <? 0 then None else DataBlock_GetKey b (Z.to_nat (data_idx it)).
Definition item_value (it : Iterator) : option bytes :=
  b ← cached_block it; if data_idx it <? 0 then None else DataBlock_GetValue b (Z.to_nat (data_idx it)).

Definition NextItem (st : state) : option (bool * state) :=
  let '(it, r) := st in
  let it := set_valid false it in
  b ← cached_block it;
  if data_idx it =? GetDataItemSize b - 1 then
    if block_idx it =? OnDisk_GetBlockSize r - 1 then Some (false, (it, r))
    else
      '(block, r) ← OnDisk_LoadDataBlock (block_idx it + 1) r;
      let it := set_place block (block_idx it + 1) 0 it in
      match block with
      | None => Some (false, (it, r))
      | Some _ => Some (true, (set_valid true it, r))
      end
  else
    let it := set_place (cached_block it) (block_idx it) (data_idx it + 1) it in
    Some (true, (set_valid true it, r)).

Definition LoadItem (it : Iterator) : option Iterator :=
  k ← item_key it; v ← item_value it; Some (set_value v (set_key k it)).

(** [while (NextItem()) { key_ = ...; if (key_ >= key) break; }] *)
Fixpoint seek_loop (fuel : nat) (key : bytes) (st : state) : option state :=
  match fuel with
  | O => None
  | S fuel =>
      '(ok, (it, r)) ← NextItem st;
      if (ok : bool) then
        k ← item_key it;
        let it := set_key k it in
        if negb (str_lt k key) then Some (it, r) else seek_loop fuel key (it, r)
      else Some (it, r)
  end.

Definition SeekKey (fuel : nat) (key : bytes) (st : state) : option state :=
  let '(it, r) := st in
  let it := set_valid false it in
  if OnDisk_GetBlockSize r =? 0 then Some (it, r)
  else
    tmp_block_idx ← OnDisk_FindMinimalBlock key r;
    '(loaded, (it, r)) ←
      (if negb (block_idx it =? tmp_block_idx) then
         '(block, r) ← OnDisk_LoadDataBlock tmp_block_idx r;
         let it := set_place block tmp_block_idx (data_idx it) it in
         Some (bool_decide (is_Some block), (it, r))
       else Some (true, (it, r)));
    if negb loaded then Some (it, r)
    else
      let it := set_place (cached_block it) (block_idx it) 0 it in
      k ← item_key it;
      let it := set_key k it in
      '(it, r) ← (if str_lt k key then seek_loop fuel key (it, r) else Some (set_valid true it, r));
      if it_valid it then v ← item_value it; Some (set_value v it, r) else Some (it, r).

Definition new_Iterator : Iterator := mkIter [] [] false None (-1) (-1).

(** The constructor. *)
Definition Seek (fuel : nat) (key : bytes) (r : OnDisk) : option state :=
  '(it, r) ← SeekKey fuel key (new_Iterator, r);
  if it_valid it then it ← LoadItem it; Some (it, r) else Some (it, r).

Definition Next (st : state) : option state :=
  '(_, (it, r)) ← NextItem st;
  if it_valid it then it ← LoadItem it; Some (it, r) else Some (it, r).

(** [SSTableReader::Lookup], which does not ask whether the iterator is
    valid. *)
Definition Lookup (fuel : nat) (key : bytes) (r : OnDisk) : option (option bytes * OnDisk) :=
  '(it, r) ← Seek fuel key r;
  Some (if bool_decide (it_key it = key) then Some (it_value it) else None, r).

(** [SSTableReader::Open] in ON_DISK mode; a null pointer when the file
    cannot be loaded. *)
Definition Open (snap : option BlockCompression) (content : bytes) : option (option OnDisk) :=
  im ← LoadFile content;
  Some (match im with None => None | Some im => Some (mkOnDisk im cache_new snap) end).

(** A whole iteration: [for (; it->Valid(); it->Next())]. *)
Fixpoint collect (fuel : nat) (st : state) : option (list (bytes * bytes)) :=
  if it_valid st.1 then
    match fuel with
    | O => None
    | S fuel => st' ← Next st; l ← collect fuel st'; Some ((it_key st.1, it_value st.1) :: l)
    end
  else Some [].

End Reader.

(** ** The cache the reader uses: LruCache<int, shared_ptr<DataBlock> > *)

(** [operator==] of two shared pointers, of which one was just made. *)
#[export] Instance DataBlock_value_eq : ValueEq DataBlock := λ _ _, false.

Definition lru_holds (c : LruCache Z DataBlock) (i : Z) (b : DataBlock) : Prop := (i, b) ∈ view c.

Lemma lookup_key_in {K V} `{Countable K} (k : K) (v : V) l : lookup_key k l = Some v → (k, v) ∈ l.
Proof.
  induction l as [|[k' v'] l IH]; [done|]. rewrite lookup_key_cons. cbn.
  case_decide; [|set_solver]. intros [= ->]. subst. by left.
Qed.

Lemma removelast_in {A} (x : A) l : x ∈ removelast l → x ∈ l.
Proof.
  destruct l as [|y l _] using rev_ind; [done|]. rewrite removelast_last. set_solver.
Qed.

(** [FLAGS_on_disk_sstable_block_cache] is the capacity. *)
#[export] Program Instance lru_block_cache (cap : nat) : BlockCache (LruCache Z DataBlock) := {
  cache_new := new_LruCache cap;
  cache_get := Get;
  cache_put := Put;
  cache_ok := wf;
  cache_holds := lru_holds
}.
Next Obligation. intros. apply new_wf. Qed.
Next Obligation. intros cap i v. by intros Hv%elem_of_nil. Qed.
Next Obligation. intros cap k c Hc. by apply Get_refines. Qed.
Next Obligation.
  intros cap k c v Hc Hv. destruct (Get_refines k c Hc) as [_ E]. unfold get_spec in E.
  destruct (lookup_key k (view c)) as [w|] eqn:El; apply (f_equal fst) in E; cbn [fst] in E;
    rewrite Hv in E; [|done]. injection E as ->. by apply lookup_key_in.
Qed.
Next Obligation.
  intros cap k c i v Hc. unfold lru_holds. destruct (Get_refines k c Hc) as [_ E]. unfold get_spec in E.
  destruct (lookup_key k (view c)) as [w|] eqn:El; apply (f_equal snd) in E; cbn [snd] in E; rewrite E; [|done].
  intros [[= -> ->]|[_ Hi]%list_elem_of_filter]%elem_of_cons; [by apply lookup_key_in|done].
Qed.
Next Obligation. intros cap k v c Hc. by apply Put_refines. Qed.
Next Obligation.
  intros cap k v c i w Hc. unfold lru_holds. destruct (Put_refines k v c Hc) as (_ & -> & _).
  unfold put_spec. case_match; [by right|].
  assert (Hin : (i, w) ∈ (k, v) :: remove_key k (view c) → i = k ∧ w = v ∨ (i, w) ∈ view c).
  { intros [[= -> ->]|[_ Hi]%list_elem_of_filter]%elem_of_cons; [by left|by right]. }
  case_match; [|done]. intros Hi%removelast_in. auto.
Qed.
