(* ===== verification/SSTableReaderFacts.v ===== *)
(** * What the table readers read

    On a file with the layout of [table_file], the reader on disk shows the
    entries, the meta data and the counts the writer was given.  The cache is
    used through its interface [BlockCache]; the blocks through [BlockSpec]. *)

From Stdlib Require Import Sorting.Sorted.
From S2P Require Import Prelude Varint Coding StdString HFile HFileFacts LruCache SSTableWriter SSTableWriterFacts SSTableReader.

(** ** Reading a part of a file *)

Section Files.

Lemma File_Read_at (pre s post : bytes) :
  File_Read (Z.of_nat (length s)) (mkFile (pre ++ s ++ post) (Z.of_nat (length pre))) =
  (Z.of_nat (length s), s, mkFile (pre ++ s ++ post) (Z.of_nat (length pre) + Z.of_nat (length s))).
Proof.
  unfold File_Read. cbn [f_data f_pos]. rewrite !Nat2Z.id, drop_app_length, take_app_length. done.
Qed.

Lemma File_Seek_set off f : 0 <= off → File_Seek off SEEK_SET f = (true, mkFile (f_data f) off).
Proof. intros H. unfold File_Seek. destruct (Z.ltb_spec off 0); [lia|done]. Qed.

Lemma File_Seek_end off f : 0 <= f_size f + off →
  File_Seek off SEEK_END f = (true, mkFile (f_data f) (f_size f + off)).
Proof. intros H. unfold File_Seek. destruct (Z.ltb_spec (f_size f + off) 0); [lia|done]. Qed.

End Files.

(** ** Sorted entries *)

Section Sorted.
Implicit Types k a b : list entry.

Lemma sorted_app (a b : list entry) x y : StronglySorted key_le (a ++ b) → x ∈ a → y ∈ b → key_le x y.
Proof.
  induction a as [|z a IH]; [set_solver|]. cbn. intros [Hs Hz]%StronglySorted_inv Hx Hy.
  apply elem_of_cons in Hx as [->|Hx]; [|auto]. rewrite Forall_forall in Hz. apply Hz. set_solver.
Qed.

(** What is left of [k] from the first entry not less than the key. *)
Fixpoint from_key (key : bytes) (k : list entry) : list entry :=
  match k with
  | [] => []
  | e :: k' => if str_lt e.1 key then from_key key k' else k
  end.

Lemma from_key_app key a b : Forall (λ e, str_lt e.1 key = true) a → from_key key (a ++ b) = from_key key b.
Proof. induction 1 as [|e a He Ha IH]; [done|]. cbn. by rewrite He. Qed.

Lemma from_key_nil k : from_key [] k = k.
Proof. destruct k as [|e k]; [done|]. cbn. by destruct (e.1). Qed.

Lemma from_key_head key k : StronglySorted key_le k →
  match from_key key k with [] => None | e :: _ => if bool_decide (e.1 = key) then Some e.2 else None end =
  snd <$> head (filter (λ e, e.1 = key) k).
Proof.
  induction 1 as [|e k Hs IH He]; [done|]. cbn [from_key]. rewrite filter_cons.
  destruct (str_lt e.1 key) eqn:El.
  - rewrite IH. rewrite decide_False; [done|]. intros E. by rewrite E, str_lt_irrefl in El.
  - case_decide as E; [by rewrite bool_decide_eq_true_2|]. rewrite bool_decide_eq_false_2 by done.
    replace (filter (λ e, e.1 = key) k) with (@nil entry); [done|]. symmetry.
    apply filter_none. eapply Forall_impl; [exact He|]. intros y Hy Ey. unfold key_le, str_le in Hy.
    apply E, str_lt_total; congruence.
Qed.

Lemma from_key_filter key k : StronglySorted key_le k →
  from_key key k = filter (λ e, str_lt e.1 key = false) k.
Proof.
  induction 1 as [|e k Hs IH He]; [done|]. cbn [from_key]. rewrite filter_cons.
  destruct (str_lt e.1 key) eqn:El; [by rewrite decide_False|]. rewrite decide_True by done. f_equal.
  symmetry. apply filter_every. eapply Forall_impl; [exact He|]. intros y Hy.
  change (str_le key y.1). by transitivity e.1.
Qed.

End Sorted.

(** ** Opening a table *)

Section Reader.
Context {M : Machine}.
Context (c : option BlockCompression) (Hc : good_compression c).
Context (ct : Z) (meta l : list entry) (chunks : list (list entry)).
Context (fi : FileInfo) (tr : FileTrailer) (f : bytes).
Context (Hf : table_file c ct meta l chunks fi tr f).

Lemma chunks_weight : weight (concat chunks) < 2 ^ 28.
Proof. rewrite (tf_entries _ _ _ _ _ _ _ _ Hf). apply (tf_fits _ _ _ _ _ _ _ _ Hf). Qed.

Lemma chunk_weight chunk : chunk ∈ chunks → weight chunk < 2 ^ 28.
Proof.
  pose proof chunks_weight as Hw. intros (i & Hi)%list_elem_of_lookup.
  apply take_drop_middle in Hi. rewrite <- Hi, concat_app, weight_app in Hw. cbn in Hw.
  rewrite weight_app in Hw. pose proof (weight_nonneg (concat (take i chunks))).
  pose proof (weight_nonneg (concat (drop (S i) chunks))). lia.
Qed.

Lemma infos_ok : Forall info_ok (infos c 0 chunks).
Proof.
  assert (Hgen : ∀ off k, 0 <= off → off + 8 * weight (concat k) < 2 ^ 32 → Forall (.≠ []) k →
    Forall info_ok (infos c off k)).
  { intros off k. revert off. induction k as [|chunk k IH]; intros off H0 Hb Hk; [constructor|].
    apply Forall_cons in Hk as [Hk Hks]. cbn [concat] in Hb. rewrite weight_app in Hb.
    pose proof (weight_nonneg (concat k)). pose proof (enc_length c chunk Hc Hk).
    pose proof (block_bytes_length chunk Hk). pose proof (weight_nonneg chunk). cbn [infos].
    constructor; [|apply IH; done || lia]. unfold info_ok. cbn [offset data_size info_key].
    split_and!; [lia..|]. destruct chunk as [|e chunk]; [done|]. rewrite weight_cons in *.
    pose proof (weight_nonneg chunk). unfold short. cbn. lia. }
  apply Hgen; [done| |apply (tf_chunks _ _ _ _ _ _ _ _ Hf)]. pose proof chunks_weight. lia.
Qed.

Lemma index_represents : represents (mkIndex [] (index_bytes (infos c 0 chunks)) 0) (infos c 0 chunks).
Proof.
  split; [done|]. split; [|apply infos_ok].
  intros E. apply (f_equal length) in E. rewrite infos_length in E.
  apply (tf_chunks _ _ _ _ _ _ _ _ Hf). by apply nil_length_inv.
Qed.

(** The four parts of the file. *)
Local Abbreviation blocks := (chunks ≫= enc c).
Local Abbreviation info_bytes := (FileInfo_EncodeToString fi).
Local Abbreviation idx_bytes := (index_bytes (infos c 0 chunks)).
Local Abbreviation tr_bytes := (FileTrailer_EncodeToString tr).

Lemma file_size_eq : Z.of_nat (length f) =
  file_offset c chunks + Z.of_nat (length info_bytes) + Z.of_nat (length idx_bytes) + TrailerSize.
Proof.
  rewrite (tf_bytes _ _ _ _ _ _ _ _ Hf), !length_app, <- (FileTrailer_length tr).
  unfold file_offset. lia.
Qed.

(** The trailer is found at the end; the rest is loaded on request. *)
Lemma LoadFileInfo_trailer idx info :
  ∃ file, f_data file = f ∧
    LoadFileInfo (mkFile f 0) idx info new_FileTrailer =
    match info with
    | None => Some (true, mkLoaded file idx info tr)
    | Some x => load_info x (mkLoaded file idx info tr)
    end.
Proof.
  pose proof file_size_eq as Hsz. unfold LoadFileInfo.
  assert (HT : TrailerSize = Z.of_nat (length tr_bytes)) by (by rewrite FileTrailer_length).
  rewrite File_Seek_end by (unfold f_size, file_offset in *; cbn [f_data]; lia). cbn [File_Tell f_pos f_data].
  rewrite File_Seek_end by (unfold f_size in *; cbn [f_data]; lia). cbn [f_data].
  unfold f_size. cbn [f_data]. rewrite File_Seek_set by (unfold file_offset in *; lia). cbn [negb f_data].
  set (pre := blocks ++ info_bytes ++ idx_bytes).
  assert (Ef : f = pre ++ tr_bytes ++ []).
  { rewrite (tf_bytes _ _ _ _ _ _ _ _ Hf) at 1. unfold pre. by rewrite app_nil_r, <- !(assoc_L (++)). }
  assert (Ep : Z.of_nat (length f) + - TrailerSize = Z.of_nat (length pre)).
  { unfold pre. rewrite Hsz, !length_app. unfold file_offset. lia. }
  rewrite Ep, Ef, HT, File_Read_at, Z.eqb_refl. cbn [negb].
  destruct (block_roundtrip (BlockSpec := FileTrailer_spec) tr tr new_FileTrailer)
    as (tr' & E & Etr); [split; [apply (tf_trailer _ _ _ _ _ _ _ _ Hf)|done]|done|].
  cbn [EncodeToString FileTrailer_block fst] in E. rewrite E. cbn [mbind option_bind negb].
  cbn [contents FileTrailer_spec] in Etr. unfold id in Etr. subst tr'.
  eexists. split; [|done]. done.
Qed.

Lemma load_index_ok x info file : f_data file = f →
  ∃ x' file', load_index x (mkLoaded file (Some x) info tr) =
    Some (true, mkLoaded file' (Some x') info tr) ∧ f_data file' = f ∧ block_info x' = infos c 0 chunks.
Proof.
  intros Hd. pose proof file_size_eq as Hsz. unfold load_index. cbn [l_trailer l_file l_index l_info].
  rewrite (tf_meta_offset _ _ _ _ _ _ _ _ Hf), Z.ltb_irrefl. rewrite (tf_index_offset _ _ _ _ _ _ _ _ Hf).
  rewrite File_Seek_end by (unfold f_size in *; lia). cbn [File_Tell f_pos f_data]. unfold f_size. rewrite Hd.
  replace (Z.of_nat (length f) + 0 - TrailerSize - (file_offset c chunks + Z.of_nat (length info_bytes)))
    with (Z.of_nat (length idx_bytes)) by lia.
  destruct (Z.ltb_spec (Z.of_nat (length idx_bytes)) 0); [lia|].
  rewrite File_Seek_set by (unfold file_offset; lia). cbn [negb f_data].
  assert (Ef : f = (blocks ++ info_bytes) ++ idx_bytes ++ tr_bytes).
  { rewrite (tf_bytes _ _ _ _ _ _ _ _ Hf) at 1. by rewrite <- !(assoc_L (++)). }
  replace (file_offset c chunks + Z.of_nat (length info_bytes))
    with (Z.of_nat (length (blocks ++ info_bytes))) by (rewrite length_app; unfold file_offset; lia).
  rewrite Ef, File_Read_at, Z.eqb_refl. cbn [negb].
  destruct (block_roundtrip (BlockSpec := DataIndex_spec) _ _ x index_represents I) as (x' & E & Ex).
  cbn [EncodeToString DataIndex_block fst index_buffer] in E. rewrite E. cbn [mbind option_bind].
  eexists x', _. split; [done|]. done.
Qed.

Lemma load_info_ok x idx file : meta_items x = [] → f_data file = f →
  ∃ x' file', info_content x' = set_meta_items meta (info_content fi) ∧ f_data file' = f ∧
    load_info x (mkLoaded file idx (Some x) tr) =
    match idx with
    | None => Some (true, mkLoaded file' idx (Some x') tr)
    | Some i => load_index i (mkLoaded file' idx (Some x') tr)
    end.
Proof.
  intros Hx Hd. unfold load_info. cbn [l_trailer l_file l_index l_info].
  rewrite (tf_info_offset _ _ _ _ _ _ _ _ Hf), (tf_index_offset _ _ _ _ _ _ _ _ Hf), Z.add_simpl_l.
  destruct (Z.ltb_spec (Z.of_nat (length info_bytes)) 0); [lia|].
  rewrite File_Seek_set by (unfold file_offset; lia). cbn [negb]. rewrite Hd. unfold file_offset.
  rewrite (tf_bytes _ _ _ _ _ _ _ _ Hf), File_Read_at, Z.eqb_refl. cbn [negb].
  destruct (block_roundtrip (BlockSpec := FileInfo_spec) fi _ x (tf_info _ _ _ _ _ _ _ _ Hf) Hx) as (x' & E & Ex).
  cbn [EncodeToString FileInfo_block fst] in E. rewrite E. cbn [mbind option_bind negb].
  eexists x', _. split; [exact Ex|]. split; [|done]. done.
Qed.

(** What the reader knows after loading the file. *)
Record loaded (im : Impl) : Prop := {
  ld_index : block_info (data_index im) = infos c 0 chunks;
  ld_trailer : SSTableReader.file_trailer im = tr;
  ld_info : info_content (SSTableReader.file_info im) = set_meta_items meta (info_content fi);
  ld_file : f_data (file_base im) = f
}.

Lemma LoadFile_ok : ∃ im, LoadFile f = Some (Some im) ∧ loaded im.
Proof.
  unfold LoadFile.
  destruct (LoadFileInfo_trailer (Some new_DataIndex) (Some new_FileInfo)) as (file & Hd & ->).
  destruct (load_info_ok new_FileInfo (Some new_DataIndex) file eq_refl Hd) as (x & file2 & Hx & Hd2 & ->).
  destruct (load_index_ok new_DataIndex (Some x) file2 Hd2) as (i & file3 & -> & Hd3 & Hi).
  cbn [mbind option_bind l_index l_trailer l_info l_file default from_option id].
  eexists. split; [done|]. by split.
Qed.

Lemma metadata_ok im key : loaded im → Impl_GetMetaData key im = FindValue key meta.
Proof.
  intros [_ _ Hi _]. unfold Impl_GetMetaData. f_equal. by apply (f_equal meta_items) in Hi.
Qed.

Lemma Static_metadata_ok key :
  Static_GetMetaData f key =
  Some (negb (bool_decide (FindValue key meta = [])), FindValue key meta).
Proof.
  unfold Static_GetMetaData.
  destruct (LoadFileInfo_trailer None (Some new_FileInfo)) as (file & Hd & ->).
  destruct (load_info_ok new_FileInfo None file eq_refl Hd) as (x & file2 & Hx & Hd2 & ->).
  cbn [mbind option_bind l_info default from_option id].
  replace (meta_items x) with meta by (symmetry; by apply (f_equal meta_items) in Hx). done.
Qed.

Lemma GetEntryCount_ok : GetEntryCount f = Some (Some (Z.of_nat (length l))).
Proof.
  unfold GetEntryCount. destruct (LoadFileInfo_trailer None None) as (file & _ & ->).
  cbn [mbind option_bind l_trailer]. by rewrite (tf_entry_count _ _ _ _ _ _ _ _ Hf).
Qed.

(** ** Loading a block *)

Lemma info_at i : infos c 0 chunks !! i =
  (λ chunk, mkInfo (file_offset c (take i chunks)) (Z.of_nat (length (block_bytes chunk)))
              (default ([], []) (head chunk)).1) <$> chunks !! i.
Proof.
  change (file_offset c (take i chunks)) with (0 + file_offset c (take i chunks)).
  generalize 0. clear Hf. revert i. induction chunks as [|chunk k IH]; intros i off; [done|].
  destruct i as [|i].
  - unfold file_offset. cbn. by rewrite Z.add_0_r.
  - change (infos c off (chunk :: k) !! S i) with
      (infos c (off + Z.of_nat (length (enc c chunk))) k !! i).
    change ((chunk :: k) !! S i) with (k !! i). rewrite IH. destruct (k !! i); [|done]. cbn.
    do 2 f_equal. unfold file_offset. cbn. rewrite length_app. lia.
Qed.

Lemma GetOffset_ok im i chunk : loaded im → chunks !! i = Some chunk →
  GetOffset (data_index im) i = Some (file_offset c (take i chunks)).
Proof.
  intros Hl Hi. unfold GetOffset. rewrite (ld_index _ Hl).
  by rewrite info_at, Hi.
Qed.

Lemma next_offset_ok im i chunk : loaded im → chunks !! i = Some chunk →
  (if Z.of_nat i + 1 <? DataIndex_GetBlockSize (data_index im)
   then GetOffset (data_index im) (Z.to_nat (Z.of_nat i + 1))
   else Some (file_info_offset (SSTableReader.file_trailer im))) =
  Some (file_offset c (take i chunks) + Z.of_nat (length (enc c chunk))).
Proof.
  intros Hl Hi. unfold DataIndex_GetBlockSize. rewrite (ld_index _ Hl), infos_length.
  rewrite <- file_offset_snoc, <- (take_S_r chunks i chunk Hi).
  destruct (Z.ltb_spec (Z.of_nat i + 1) (Z.of_nat (length chunks))).
  - replace (Z.to_nat (Z.of_nat i + 1)) with (S i) by lia.
    destruct (lookup_lt_is_Some_2 chunks (S i)) as [next Hn]; [lia|]. by rewrite (GetOffset_ok im _ next).
  - pose proof (lookup_lt_Some _ _ _ Hi). rewrite take_ge by lia.
    by rewrite (ld_trailer _ Hl), (tf_info_offset _ _ _ _ _ _ _ _ Hf).
Qed.

Lemma chunk_ok i chunk : chunks !! i = Some chunk → chunk ≠ [] ∧ Forall short_item chunk.
Proof.
  intros Hi. apply list_elem_of_lookup_2 in Hi as Hin. split.
  - destruct (tf_chunks _ _ _ _ _ _ _ _ Hf) as [Hn _]. rewrite Forall_forall in Hn. auto.
  - apply weight_short. by apply chunk_weight.
Qed.

Lemma LoadDataBlock_ok im b0 i chunk : loaded im → compression b0 = c → chunks !! i = Some chunk →
  ∃ b im', LoadDataBlock (Z.of_nat i) b0 im = Some ((true, b), im') ∧
    data_items b = chunk ∧ compression b = c ∧ loaded im'.
Proof.
  intros Hl Hb0 Hi. destruct (chunk_ok i chunk Hi) as [Hne Hs]. unfold LoadDataBlock.
  rewrite (next_offset_ok im i chunk) by done.
  rewrite Nat2Z.id, (GetOffset_ok im i chunk) by done. cbn [mbind option_bind].
  assert (Hn : negb ((0 <=? Z.of_nat i) && (Z.of_nat i <? DataIndex_GetBlockSize (data_index im))) = false).
  { apply negb_false_iff, andb_true_iff. unfold DataIndex_GetBlockSize. rewrite (ld_index _ Hl), infos_length.
    pose proof (lookup_lt_Some _ _ _ Hi). split; [apply Z.leb_le|apply Z.ltb_lt]; lia. }
  rewrite Hn, Z.add_simpl_l.
  assert (Hlen : Z.of_nat (length (enc c chunk)) < 2 ^ 31).
  { pose proof (enc_length c chunk Hc Hne). pose proof (chunk_weight chunk) as Hw.
    specialize (Hw (list_elem_of_lookup_2 _ _ _ Hi)). lia. }
  rewrite s32_small by lia. rewrite File_Seek_set by (unfold file_offset; lia). cbn [negb].
  destruct (Z.ltb_spec (Z.of_nat (length (enc c chunk))) 0); [lia|].
  set (pre := take i chunks ≫= enc c).
  set (post := (drop (S i) chunks ≫= enc c) ++ info_bytes ++ idx_bytes ++ tr_bytes).
  assert (Ef : f = pre ++ enc c chunk ++ post).
  { rewrite (tf_bytes _ _ _ _ _ _ _ _ Hf). unfold pre, post.
    rewrite <- (take_drop_middle _ _ _ Hi) at 1. rewrite bind_app. cbn [mbind list_bind].
    by rewrite <- !(assoc_L (++)). }
  cbn [data_index file_trailer file_info file_base]. rewrite (ld_file _ Hl). unfold file_offset. fold pre.
  rewrite Ef, File_Read_at, Z.eqb_refl. cbn [negb].
  destruct (block_roundtrip (BlockSpec := DataBlock_spec) (mkDataBlock c [] (block_bytes chunk) 0) chunk
    b0) as (b & E & Eb); [split_and!; done || apply Hc|done|].
  rewrite (EncodeToString_enc c Hc _ chunk) in E by done. cbn [fst] in E. rewrite E. cbn [mbind option_bind].
  eexists b, _. split; [done|]. split; [done|]. split; [by rewrite (DecodeFromString_compression _ _ _ _ E)|].
  destruct Hl. split; cbn; congruence.
Qed.

(** ** The reader on disk *)

Context {C : Type} {BC : BlockCache C}.
Context (snap : option BlockCompression) (Hsnap : new_DataBlock snap ct = Some (mkDataBlock c [] [] 0)).

(** Whatever is in the cache under a number is that block of the file. *)
Record reader_ok (r : OnDisk) : Prop := {
  ro_impl : loaded (impl r);
  ro_snap : snappy r = snap;
  ro_cache : cache_ok (block_cache r);
  ro_blocks i b : cache_holds (block_cache r) i b → chunks !! Z.to_nat i = Some (data_items b)
}.

Lemma Open_ok : ∃ r, Open snap f = Some (Some r) ∧ reader_ok r.
Proof.
  destruct LoadFile_ok as (im & E & Hl). unfold Open. rewrite E. eexists. split; [done|].
  split; [done|done|apply cache_new_ok|]. intros i b Hb. by apply cache_new_holds in Hb.
Qed.

Lemma OnDisk_LoadDataBlock_ok r i chunk : reader_ok r → chunks !! i = Some chunk →
  ∃ b r', OnDisk_LoadDataBlock (Z.of_nat i) r = Some (Some b, r') ∧ data_items b = chunk ∧ reader_ok r'.
Proof.
  intros [Hl Hs Hok Hb] Hi. unfold OnDisk_LoadDataBlock.
  pose proof (cache_get_ok (Z.of_nat i) _ Hok) as Hok'.
  pose proof (λ j b, cache_get_keeps (Z.of_nat i) _ j b Hok) as Hkeep.
  pose proof (λ b, cache_get_holds (Z.of_nat i) _ b Hok) as Hget.
  destruct (cache_get (Z.of_nat i) (block_cache r)) as [[b|] cache]; cbn [fst snd] in *.
  - eexists b, _. split; [done|]. pose proof (Hb _ _ (Hget b eq_refl)) as Hd. rewrite Nat2Z.id, Hi in Hd.
    split; [congruence|]. split; cbn; eauto.
  - rewrite Hs, (ld_trailer _ Hl), (tf_compress _ _ _ _ _ _ _ _ Hf), Hsnap. cbn [mbind option_bind].
    destruct (LoadDataBlock_ok (impl r) (mkDataBlock c [] [] 0) i chunk Hl eq_refl Hi) as (b & im' & -> & Hd & _ & Hl'). cbn [mbind option_bind].
    eexists b, _. split; [done|]. split; [done|]. split; cbn; auto; [by apply cache_put_ok|].
    intros j d [[-> ->]|Hj]%cache_put_holds; [|eauto|done]. by rewrite Nat2Z.id, Hi, Hd.
Qed.

Lemma OnDisk_size r : reader_ok r → OnDisk_GetBlockSize r = Z.of_nat (length chunks).
Proof.
  intros [Hl _ _ _]. unfold OnDisk_GetBlockSize, DataIndex_GetBlockSize. by rewrite (ld_index _ Hl), infos_length.
Qed.

(** The iterator stands on the first of the entries [k] that are left. *)
Record stands (st : state) (k : list entry) : Prop := {
  st_reader : reader_ok st.2;
  st_place : ∃ i j b, cached_block st.1 = Some b ∧ block_idx st.1 = Z.of_nat i ∧
    data_idx st.1 = Z.of_nat j ∧ chunks !! i = Some (data_items b) ∧
    (j < length (data_items b))%nat ∧ k = drop j (data_items b) ++ concat (drop (S i) chunks)
}.

Lemma stands_keep it it' r k : stands (it, r) k → cached_block it' = cached_block it →
  block_idx it' = block_idx it → data_idx it' = data_idx it → stands (it', r) k.
Proof. intros [Hr (i & j & b & ?)] E1 E2 E3. split; [done|]. exists i, j, b. cbn in *. by rewrite E1, E2, E3. Qed.

Lemma stands_item st e k : stands st (e :: k) →
  item_key st.1 = Some e.1 ∧ item_value st.1 = Some e.2.
Proof.
  intros [_ (i & j & b & Eb & _ & Ej & _ & Hj & Hk)].
  destruct (lookup_lt_is_Some_2 _ _ Hj) as [x Hx].
  rewrite (drop_S _ _ _ Hx) in Hk. injection Hk as -> _.
  unfold item_key, item_value, DataBlock_GetKey, DataBlock_GetValue.
  rewrite Eb, Ej. cbn [mbind option_bind]. destruct (Z.ltb_spec (Z.of_nat j) 0); [lia|].
  by rewrite Nat2Z.id, Hx.
Qed.

Lemma concat_drop_nonempty i : concat (drop i chunks) = [] ↔ (length chunks <= i)%nat.
Proof.
  split; [|intros Hi; by rewrite drop_ge].
  intros H. apply Nat.nlt_ge. intros Hi. destruct (lookup_lt_is_Some_2 _ _ Hi) as [ch Hch].
  rewrite (drop_S _ _ _ Hch) in H. apply app_nil in H as [-> _].
  by destruct (chunk_ok _ _ Hch).
Qed.

(** [NextItem] moves to the next entry, over the end of a block if need be. *)
Lemma NextItem_ok it r e k : stands (it, r) (e :: k) →
  ∃ it' r', NextItem (it, r) = Some (negb (bool_decide (k = [])), (it', r')) ∧
    it_valid it' = negb (bool_decide (k = [])) ∧ it_key it' = it_key it ∧
    reader_ok r' ∧ (k ≠ [] → stands (it', r') k).
Proof.
  intros [Hr (i & j & b & Eb & Ei & Ej & Hi & Hj & Hk)]. cbn in *. unfold NextItem.
  cbn [cached_block data_idx block_idx set_valid]. rewrite Eb. cbn [mbind option_bind]. unfold GetDataItemSize.
  destruct (lookup_lt_is_Some_2 _ _ Hj) as [x Hx]. rewrite (drop_S _ _ _ Hx) in Hk. injection Hk as _ Hk.
  rewrite Ej, Ei, OnDisk_size by done. pose proof (lookup_lt_Some _ _ _ Hi) as Hlt.
  destruct (Z.eqb_spec (Z.of_nat j) (Z.of_nat (length (data_items b)) - 1)).
  - rewrite drop_ge in Hk by lia. cbn in Hk.
    destruct (Z.eqb_spec (Z.of_nat i) (Z.of_nat (length chunks) - 1)).
    + assert (k = []) as ->. { rewrite Hk. apply concat_drop_nonempty. lia. }
      eexists _, r. split; [done|]. cbn. done.
    + destruct (lookup_lt_is_Some_2 chunks (S i)) as [chunk Hch]; [lia|].
      replace (Z.of_nat i + 1) with (Z.of_nat (S i)) by lia.
      destruct (OnDisk_LoadDataBlock_ok r (S i) chunk Hr Hch) as (b' & r' & -> & Hb' & Hr').
      cbn [mbind option_bind]. assert (Hne : k ≠ []).
      { rewrite Hk, concat_drop_nonempty. lia. }
      rewrite bool_decide_eq_false_2 by done. eexists _, r'. split; [done|]. split_and!; [done..|].
      intros _. split; [done|]. exists (S i), 0%nat, b'. cbn. split_and!; [done..| | |].
      * by rewrite Hb'.
      * destruct (chunk_ok _ _ Hch). rewrite Hb'. destruct chunk; [done|cbn; lia].
      * rewrite Hk, Hb', (drop_S _ _ _ Hch). done.
  - assert (Hne : k ≠ []).
    { rewrite Hk. destruct (lookup_lt_is_Some_2 (data_items b) (S j)) as [y Hy]; [lia|].
      by rewrite (drop_S _ _ _ Hy). }
    rewrite bool_decide_eq_false_2 by done. eexists _, r. split; [done|]. split_and!; [done..|].
    intros _. split; [done|]. exists i, (S j), b. cbn. split_and!; done || lia.
Qed.

(** ** Iteration *)

(** The iterator shows the first of the entries [k]. *)
Record shows (st : state) (k : list entry) : Prop := {
  sh_reader : reader_ok st.2;
  sh_valid : it_valid st.1 = negb (bool_decide (k = []));
  sh_item : match k with
            | [] => True
            | e :: _ => stands st k ∧ it_key st.1 = e.1 ∧ it_value st.1 = e.2
            end
}.

Lemma LoadItem_ok it r k : reader_ok r → it_valid it = negb (bool_decide (k = [])) →
  (k ≠ [] → stands (it, r) k) →
  ∃ it', (if it_valid it then it ← LoadItem it; Some (it, r) else Some (it, r)) = Some (it', r) ∧
    shows (it', r) k ∧ (k = [] → it' = it).
Proof.
  intros Hr Hv Hs. rewrite Hv. destruct k as [|e k]; cbn [negb bool_decide decide_rel decide].
  - rewrite bool_decide_eq_true_2 by done. cbn. exists it. split_and!; [done|by split|done].
  - rewrite bool_decide_eq_false_2 by done. cbn [negb]. specialize (Hs ltac:(done)).
    destruct (stands_item _ _ _ Hs) as [Hk Hvl]. cbn [fst] in *. unfold LoadItem. rewrite Hk, Hvl. cbn.
    eexists. split; [done|]. split; [|done]. split; [done| |].
    + cbn. by rewrite Hv.
    + cbn. split; [|done]. by apply (stands_keep it).
Qed.

Lemma Next_ok st e k : shows st (e :: k) → ∃ st', Next st = Some st' ∧ shows st' k.
Proof.
  destruct st as [it r]. intros [Hr _ (Hs & _)].
  destruct (NextItem_ok it r e k Hs) as (it1 & r1 & E & Hv & _ & Hr1 & Hs1).
  unfold Next. rewrite E. cbn [mbind option_bind].
  destruct (LoadItem_ok it1 r1 k Hr1 Hv Hs1) as (it2 & E2 & Hsh & _). eauto.
Qed.

Lemma collect_ok k st fuel : shows st k → (length k <= fuel)%nat → collect fuel st = Some k.
Proof.
  revert st fuel. induction k as [|e k IH]; intros st fuel Hs Hfu.
  - pose proof (sh_valid _ _ Hs) as Hv. rewrite bool_decide_eq_true_2 in Hv by done.
    destruct fuel; cbn; by rewrite Hv.
  - pose proof (sh_valid _ _ Hs) as Hv. rewrite bool_decide_eq_false_2 in Hv by done.
    destruct fuel as [|fuel]; [cbn in Hfu; lia|]. cbn [collect]. rewrite Hv. cbn [negb].
    destruct (Next_ok st e k Hs) as (st' & -> & Hs'). cbn [mbind option_bind].
    rewrite (IH st') by (done || (cbn in Hfu; lia)). cbn. destruct (sh_item _ _ Hs) as (_ & -> & ->).
    by destruct e.
Qed.

(** ** Seeking *)

Lemma seek_loop_ok key k e it r fuel :
  stands (it, r) (e :: k) → (length k < fuel)%nat → str_lt (it_key it) key = true →
  ∃ it' r', seek_loop fuel key (it, r) = Some (it', r') ∧ reader_ok r' ∧
    it_valid it' = negb (bool_decide (from_key key k = [])) ∧
    (from_key key k ≠ [] → stands (it', r') (from_key key k)) ∧
    (from_key key k = [] → str_lt (it_key it') key = true).
Proof.
  revert it r e fuel. induction k as [|e' k IH]; intros it r e fuel Hs Hfu Hkey;
    (destruct fuel as [|fuel]; [cbn in Hfu; lia|]); cbn [seek_loop];
    destruct (NextItem_ok _ _ _ _ Hs) as (it1 & r1 & E & Hv & Hk & Hr1 & Hs1); rewrite E; cbn [mbind option_bind].
  - rewrite bool_decide_eq_true_2 in Hv |- * by done. cbn [negb] in *. exists it1, r1. cbn [from_key].
    rewrite bool_decide_eq_true_2, Hk by done. done.
  - rewrite bool_decide_eq_false_2 in Hv |- * by done. cbn [negb] in *. specialize (Hs1 ltac:(done)).
    destruct (stands_item _ _ _ Hs1) as [Hik _]. cbn [fst] in Hik. rewrite Hik. cbn [mbind option_bind from_key].
    set (it2 := set_key e'.1 it1).
    assert (Hs2 : stands (it2, r1) (e' :: k)) by (by apply (stands_keep it1)).
    destruct (str_lt e'.1 key) eqn:El; cbn [negb].
    + apply (IH it2 r1 e'); [done|cbn in Hfu; lia|done].
    + exists it2, r1. rewrite bool_decide_eq_false_2 by done. done.
Qed.

(** [Seek] from block [i]. *)
Lemma Seek_from r key i : reader_ok r → chunks ≠ [] →
  OnDisk_FindMinimalBlock key r = Some (Z.of_nat i) → (i < length chunks)%nat →
  let k := from_key key (concat (drop i chunks)) in
  ∀ fuel, (length l < fuel)%nat →
  ∃ it r', Seek fuel key r = Some (it, r') ∧ shows (it, r') k ∧ (k = [] → str_lt (it_key it) key = true).
Proof.
  intros Hr Hne Hfind Hi k fuel Hfu. unfold Seek, SeekKey. rewrite OnDisk_size by done.
  destruct (Z.eqb_spec (Z.of_nat (length chunks)) 0); [lia|]. rewrite Hfind. cbn [mbind option_bind].
  cbn [block_idx set_valid new_Iterator]. destruct (Z.eqb_spec (-1) (Z.of_nat i)); [lia|]. cbn [negb].
  destruct (lookup_lt_is_Some_2 _ _ Hi) as [chunk Hch].
  destruct (OnDisk_LoadDataBlock_ok r i chunk Hr Hch) as (b & r1 & -> & Hb & Hr1). cbn [mbind option_bind].
  rewrite bool_decide_eq_true_2 by eauto. cbn [negb cached_block set_place block_idx].
  destruct (chunk_ok _ _ Hch) as [Hchne _]. destruct chunk as [|e chunk]; [done|].
  assert (Hk : k = from_key key (e :: chunk ++ concat (drop (S i) chunks))).
  { unfold k. by rewrite (drop_S _ _ _ Hch). }
  set (it1 := set_place (Some b) (Z.of_nat i) 0 _).
  assert (Hs : stands (it1, r1) (e :: chunk ++ concat (drop (S i) chunks))).
  { split; [done|]. exists i, 0%nat, b. cbn. rewrite Hb. split_and!; try done. cbn. lia. }
  destruct (stands_item _ _ _ Hs) as [Hik Hiv]. cbn [fst] in Hik, Hiv. rewrite Hik. cbn [mbind option_bind].
  set (it2 := set_key e.1 it1).
  assert (Hs2 : stands (it2, r1) (e :: chunk ++ concat (drop (S i) chunks))) by (by apply (stands_keep it1)).
  cbn [from_key] in Hk. clearbody k.
  assert (Hlen : (length (chunk ++ concat (drop (S i) chunks)) < fuel)%nat).
  { assert (Hl : l = concat (take i chunks) ++ (e :: chunk) ++ concat (drop (S i) chunks)).
    { rewrite <- (tf_entries _ _ _ _ _ _ _ _ Hf). rewrite <- (take_drop_middle _ _ _ Hch) at 1.
      by rewrite concat_app. }
    apply (f_equal length) in Hl. rewrite !length_app in *. cbn [length] in Hl. lia. }
  destruct (str_lt e.1 key) eqn:El.
  - destruct (seek_loop_ok key _ e it2 r1 fuel Hs2 Hlen El) as (it3 & r3 & -> & Hr3 & Hv3 & Hs3 & Hk3).
    rewrite <- Hk in *. cbn [mbind option_bind]. destruct k as [|e3 k3].
    + rewrite bool_decide_eq_true_2 in Hv3 by done. cbn in Hv3. rewrite Hv3. cbn. rewrite Hv3.
      eexists _, _. split; [done|]. split; [|auto]. by split.
    + rewrite Hv3, bool_decide_eq_false_2 by done. cbn [negb].
      specialize (Hs3 ltac:(done)). destruct (stands_item _ _ _ Hs3) as [_ Hv]. cbn [fst] in Hv.
      rewrite Hv. cbn [mbind option_bind].
      destruct (LoadItem_ok (set_value e3.2 it3) r3 (e3 :: k3)) as (it4 & E4 & Hsh & _); [done|done| |].
      { intros _. by apply (stands_keep it3). }
      exists it4, r3. split_and!; done.
  - cbn [mbind option_bind]. cbn [it_valid set_valid].
    change (item_value (set_valid true it2)) with (item_value it1). rewrite Hiv. cbn [mbind option_bind].
    destruct (LoadItem_ok (set_value e.2 (set_valid true it2)) r1 k) as (it4 & E4 & Hsh & _); subst k; [done|done| |].
    { intros _. by apply (stands_keep it2). }
    eexists it4, r1. split_and!; done.
Qed.

(** ** Which block a key is sought in *)

Lemma concat_middle i chunk : chunks !! i = Some chunk →
  l = concat (take i chunks) ++ chunk ++ concat (drop (S i) chunks).
Proof.
  intros Hch. rewrite <- (tf_entries _ _ _ _ _ _ _ _ Hf). rewrite <- (take_drop_middle _ _ _ Hch) at 1.
  by rewrite concat_app.
Qed.

Lemma key_at_chunk x i e chunk : block_info x = infos c 0 chunks → chunks !! i = Some (e :: chunk) →
  key_at x (Z.of_nat i) = Some e.1.
Proof.
  intros Hx Hi. unfold key_at. destruct (Z.ltb_spec (Z.of_nat i) 0); [lia|].
  by rewrite Nat2Z.id, Hx, info_at, Hi.
Qed.

Lemma first_keys_sorted x : StronglySorted key_le l → block_info x = infos c 0 chunks →
  StronglySorted str_le (info_key <$> block_info x).
Proof.
  intros Hs Hx. rewrite Hx. destruct (tf_chunks _ _ _ _ _ _ _ _ Hf) as [Hn _].
  rewrite <- (tf_entries _ _ _ _ _ _ _ _ Hf) in Hs. generalize 0. clear Hx Hf. induction Hn as [|chunk k Hne Hn IH];
    intros off; cbn [infos fmap list_fmap]; [constructor|].
  destruct chunk as [|e chunk]; [done|]. cbn [concat] in Hs.
  assert (Hk : StronglySorted key_le (concat k)).
  { clear - Hs. induction (e :: chunk) as [|y ys IHy]; [done|]. apply IHy. by apply StronglySorted_inv in Hs as [? _]. }
  constructor; [by apply IH|]. cbn. apply Forall_forall. intros key (i & -> & Hi)%list_elem_of_fmap.
  assert (∃ y, y ∈ concat k ∧ y.1 = info_key i) as (y & Hy & <-).
  { clear - Hi Hn. revert Hi. generalize (off + Z.of_nat (length (enc c (e :: chunk)))). intros z Hi.
    revert z Hi. induction Hn as [|ch k Hch Hn IHk]; intros z Hi; [by apply elem_of_nil in Hi|]. cbn in Hi.
    apply elem_of_cons in Hi as [->|Hi].
    - destruct ch as [|y ch]; [done|]. exists y. split; [by left|done].
    - destruct (IHk _ Hi) as (y & ? & ?). exists y. cbn. rewrite elem_of_app. auto. }
  apply (sorted_app (e :: chunk) (concat k)); [done|by left|done].
Qed.

(** On a sorted table no entry before the block found is needed. *)
Lemma FindMinimalBlock_sorted r key : StronglySorted key_le l → reader_ok r →
  ∃ i, OnDisk_FindMinimalBlock key r = Some (Z.of_nat i) ∧ (i < length chunks)%nat ∧
    from_key key (concat (drop i chunks)) = from_key key l.
Proof.
  intros Hs Hr. pose proof (ld_index _ (ro_impl _ Hr)) as Hx. set (x := data_index (impl r)) in *.
  destruct (FindMinimalBlock_monotone x key) as (b & E & Hb & _ & _ & Hcase).
  { by apply sorted_monotone, first_keys_sorted. }
  { rewrite Hx. intros E. apply (f_equal length) in E. rewrite infos_length in E.
    apply (tf_chunks _ _ _ _ _ _ _ _ Hf). by apply nil_length_inv. }
  rewrite Hx, infos_length in Hb. exists (Z.to_nat b). rewrite Z2Nat.id by lia.
  split; [exact E|]. split; [lia|].
  destruct (lookup_lt_is_Some_2 chunks (Z.to_nat b)) as [chunk Hch]; [lia|].
  rewrite (drop_S _ _ _ Hch). cbn [concat].
  pose proof (concat_middle _ _ Hch) as Hl. symmetry. rewrite Hl at 1. apply from_key_app.
  destruct Hcase as [->|Hbefore]; [constructor|]. destruct (chunk_ok _ _ Hch) as [Hne _].
  destruct chunk as [|e chunk]; [done|]. apply Forall_forall. intros y Hy.
  apply (str_le_lt_trans _ e.1).
  - rewrite Hl in Hs. apply (sorted_app _ _ y e Hs Hy). by left.
  - apply (Hbefore b e.1); [lia|]. rewrite <- (Z2Nat.id b) by lia. by apply (key_at_chunk _ _ _ chunk).
Qed.

Lemma FindMinimalBlock_first r : reader_ok r →
  OnDisk_FindMinimalBlock [] r = Some (Z.of_nat 0) ∧ (0 < length chunks)%nat.
Proof.
  intros Hr. pose proof (ld_index _ (ro_impl _ Hr)) as Hx. set (x := data_index (impl r)) in *.
  assert (Hlt : ∀ k, str_lt k [] = false) by (by intros []).
  destruct (FindMinimalBlock_monotone x []) as (b & E & Hb & _ & _ & Hcase).
  { intros i j ci cj _ _ _. by rewrite Hlt. }
  { rewrite Hx. intros E. apply (f_equal length) in E. rewrite infos_length in E.
    apply (tf_chunks _ _ _ _ _ _ _ _ Hf). by apply nil_length_inv. }
  unfold OnDisk_FindMinimalBlock. fold x. rewrite E. rewrite Hx, infos_length in Hb.
  split; [|lia]. destruct Hcase as [->|Hbefore]; [done|].
  destruct (key_at_some x b) as [k Hk]; [rewrite Hx, infos_length; lia|].
  specialize (Hbefore b k). rewrite Hlt in Hbefore. discriminate Hbefore; [lia|done].
Qed.

(** ** The contracts of the reader *)

Lemma Seek_sorted r key fuel : StronglySorted key_le l → reader_ok r → (length l < fuel)%nat →
  ∃ it r', Seek fuel key r = Some (it, r') ∧ shows (it, r') (from_key key l) ∧
    (from_key key l = [] → str_lt (it_key it) key = true).
Proof.
  intros Hs Hr Hfu. destruct (FindMinimalBlock_sorted r key Hs Hr) as (i & E & Hi & <-).
  apply Seek_from; try done. apply (tf_chunks _ _ _ _ _ _ _ _ Hf).
Qed.

Lemma Seek_first r fuel : reader_ok r → (length l < fuel)%nat →
  ∃ it r', Seek fuel [] r = Some (it, r') ∧ shows (it, r') l.
Proof.
  intros Hr Hfu. destruct (FindMinimalBlock_first r Hr) as [E Hi].
  destruct (Seek_from r [] 0 Hr) with (fuel := fuel) as (it & r' & Es & Hsh & _); try done.
  - apply (tf_chunks _ _ _ _ _ _ _ _ Hf).
  - exists it, r'. split; [done|]. rewrite drop_0 in Hsh.
    by rewrite (tf_entries _ _ _ _ _ _ _ _ Hf), from_key_nil in Hsh.
Qed.

Lemma Lookup_sorted r key fuel : StronglySorted key_le l → reader_ok r → (length l < fuel)%nat →
  ∃ r', Lookup fuel key r = Some (snd <$> head (filter (λ e, e.1 = key) l), r') ∧ reader_ok r'.
Proof.
  intros Hs Hr Hfu. destruct (Seek_sorted r key fuel Hs Hr Hfu) as (it & r' & E & [Hr' _ Hitem] & Hnil).
  unfold Lookup. rewrite E. cbn [mbind option_bind]. exists r'. split; [|done]. do 2 f_equal.
  rewrite <- from_key_head by done. destruct (from_key key l) as [|e k].
  - rewrite bool_decide_eq_false_2; [done|]. intros Hk. specialize (Hnil eq_refl).
    by rewrite Hk, str_lt_irrefl in Hnil.
  - cbn [fst] in Hitem. by destruct Hitem as (_ & -> & ->).
Qed.

End Reader.

