(* ===== verification/SSTable.v ===== *)
(** * Tables from end to end

    Entries added to a writer and flushed to a reliable disk are what the
    reader on disk iterates over and looks up, with the meta data and counts.
    The writer files and the reader files meet here through [table_file]. *)

From Stdlib Require Import Sorting.Sorted.
From S2P Require Import Prelude Varint Coding StdString HFile HFileFacts LruCache SSTableWriter SSTableWriterFacts SSTableReader SSTableReaderFacts.

(** ** Using a writer *)

Section Use.
Context {M : Machine} {D : Disk}.

(** A table made from entries and meta data: the result of [Flush] and the
    file it leaves. *)
Definition Single_write (snap : option BlockCompression) (opt : WriteOption) (entries meta : list entry) :
    option (bool * option bytes) :=
  w ← new_SingleWriter snap opt;
  let w := fold_left (λ w e, (Single_Add e.1 e.2 w).2) entries w in
  let w := fold_left (λ w e, Single_AddMetaData e.1 e.2 w) meta w in
  fst <$> Single_Flush w.

Definition Unsorted_write (snap : option BlockCompression) (opt : WriteOption)
    (entries meta : list entry) : option (bool * option bytes) :=
  w ← new_UnsortedWriter snap opt;
  let w := fold_left (λ w e, (Unsorted_Add e.1 e.2 w).2) entries w in
  let w := fold_left (λ w e, Unsorted_AddMetaData e.1 e.2 w) meta w in
  fst <$> Unsorted_Flush w.

(** [Lookup] of one key after another on the same reader. *)
Fixpoint lookups `{BlockCache C} (fuel : nat) (keys : list bytes) (r : OnDisk) :
    option (list (option bytes) * OnDisk) :=
  match keys with
  | [] => Some ([], r)
  | key :: keys => '(v, r) ← Lookup fuel key r; '(vs, r) ← lookups fuel keys r; Some (v :: vs, r)
  end.

End Use.

(** The first of the pairs with a key. *)
Definition first_value (key : bytes) (l : list entry) : option bytes :=
  snd <$> head (filter (λ e, e.1 = key) l).

(** ** Meta data *)

Section Meta.

Definition meta_map (meta : list entry) : list entry :=
  fold_left (λ m e, map_insert e.1 e.2 m) meta [].

Lemma first_value_cons key e l :
  first_value key (e :: l) = if decide (e.1 = key) then Some e.2 else first_value key l.
Proof. unfold first_value. rewrite filter_cons. by case_decide. Qed.

Lemma FindValue_first key l : FindValue key l = default [] (first_value key l).
Proof.
  induction l as [|[k v] l IH]; [done|]. rewrite first_value_cons. cbn [FindValue fst snd].
  case_bool_decide as E; [by rewrite decide_True|]. by rewrite decide_False.
Qed.

Lemma first_value_find key l : first_value key l = map_find key l.
Proof.
  induction l as [|[k v] l IH]; [done|]. rewrite first_value_cons, IH. cbn [map_find fst snd].
  destruct (decide (k = key)) as [->|]; [by rewrite decide_True|]. by rewrite decide_False.
Qed.

Lemma meta_map_snoc meta e : meta_map (meta ++ [e]) = map_insert e.1 e.2 (meta_map meta).
Proof. unfold meta_map. by rewrite fold_left_app. Qed.

Lemma meta_map_sorted meta : StronglySorted map_key_lt (meta_map meta).
Proof.
  induction meta as [|e meta IH] using rev_ind; [constructor|]. rewrite meta_map_snoc.
  by apply map_insert_sorted.
Qed.

Lemma first_value_app key a b : first_value key (a ++ b) =
  match first_value key a with Some x => Some x | None => first_value key b end.
Proof.
  induction a as [|e a IH]; [done|]. cbn [app]. rewrite !first_value_cons, IH. by case_decide.
Qed.

(** The first value given for a key stays. *)
Lemma meta_map_first key meta : first_value key (meta_map meta) = first_value key meta.
Proof.
  induction meta as [|e meta IH] using rev_ind; [done|].
  rewrite meta_map_snoc, first_value_find, map_find_insert by apply meta_map_sorted.
  rewrite <- first_value_find, IH, first_value_app, first_value_cons.
  destruct (first_value key meta); [done|]. destruct (decide (key = e.1)) as [->|]; [by rewrite decide_True|].
  by rewrite decide_False.
Qed.

Lemma meta_map_ok `{Machine} meta : meta_ok meta → meta_ok (meta_map meta).
Proof.
  intros (Hs & Hr & Hl). assert (Hb : (length (meta_map meta ≫= encode_meta) <= length (meta ≫= encode_meta))%nat ∧
    meta_map meta ⊆ meta).
  { clear. induction meta as [|e meta [IH1 IH2]] using rev_ind; [done|]. rewrite meta_map_snoc, bind_app, length_app.
    destruct (map_insert_cases e.1 e.2 (meta_map meta)) as [E|E].
    - assert (Hlen : length (map_insert e.1 e.2 (meta_map meta) ≫= encode_meta) =
        (length (encode_meta e) + length (meta_map meta ≫= encode_meta))%nat).
      { replace (encode_meta e) with (encode_meta (e.1, e.2)) by (by destruct e).
        rewrite <- length_app. apply Permutation_length. by rewrite E. }
      cbn. rewrite app_nil_r. split; [lia|]. intros x. rewrite E. destruct e. set_solver.
    - rewrite E. split; [lia|]. set_solver. }
  destruct Hb as [Hb Hsub]. split_and!; [..|lia].
  - rewrite Forall_forall in *. auto.
  - rewrite Forall_forall in *. auto.
Qed.

End Meta.

(** ** The theorems *)

Section Table.
Context {M : Machine} `{ReliableDisk} {C : Type} {BC : BlockCache C}.
Context (snap : option BlockCompression) (Hsnap : good_compression snap).

(** The codecs a block can be made for. *)
Definition known_codec (ct : Z) : Prop :=
  ct = CompressType_kSnappy ∨ ct = CompressType_kLzo ∨ ct = CompressType_kUnCompress.

(** Options the writers accept and entries and meta data that the widths of
    the format hold. *)
Record acceptable (opt : WriteOption) (entries meta : list entry) : Prop := {
  ac_codec : known_codec (option_compress_type opt);
  ac_block_size : 0 < block_size opt < 2 ^ 63;
  ac_fits : fits entries;
  ac_entries : entries ≠ [];
  ac_meta : meta_ok meta
}.

Lemma codec_block ct : known_codec ct → ∃ c, new_DataBlock snap ct = Some (mkDataBlock c [] [] 0) ∧
  good_compression c ∧ - 2 ^ 31 <= ct < 2 ^ 31.
Proof.
  intros [->|[->| ->]]; [exists snap|exists snap|exists None]; split_and!; done.
Qed.

Lemma Single_adds entries w :
  fold_left (λ w e, (Single_Add e.1 e.2 w).2) entries w =
  mkSingle (s_option w) (d_data w ++ entries) (s_meta w) (s_block w) (flushed w).
Proof.
  revert w. induction entries as [|e entries IH]; intros w; cbn [fold_left].
  - rewrite app_nil_r. by destruct w.
  - rewrite IH. cbn. rewrite <- (assoc_L (++)). by destruct e.
Qed.

Lemma Single_metas meta w :
  fold_left (λ w e, Single_AddMetaData e.1 e.2 w) meta w =
  mkSingle (s_option w) (d_data w) (fold_left (λ m e, map_insert e.1 e.2 m) meta (s_meta w))
    (s_block w) (flushed w).
Proof.
  revert w. induction meta as [|e meta IH]; intros w; cbn [fold_left]; [by destruct w|]. by rewrite IH.
Qed.

Lemma Single_write_ok opt entries meta : acceptable opt entries meta →
  ∃ c chunks fi tr f, Single_write snap opt entries meta = Some (true, Some f) ∧ good_compression c ∧
    new_DataBlock snap (option_compress_type opt) = Some (mkDataBlock c [] [] 0) ∧
    table_file c (option_compress_type opt) (meta_map meta) (stable_sort entries) chunks fi tr f.
Proof.
  intros [Hct Hbs Hfit Hne Hm]. destruct (codec_block _ Hct) as (c & Eb & Hc & Hr).
  unfold Single_write, new_SingleWriter. rewrite Eb. cbn [mbind option_bind].
  rewrite Single_adds, Single_metas. cbn [s_option d_data s_meta s_block flushed app].
  destruct (Single_Flush_spec c Hc opt Hbs Hr
    (mkSingle opt entries (meta_map meta) (mkDataBlock c [] [] 0) false))
    as (w' & chunks & fi & tr & f & E & Hf & _); try done.
  { by apply meta_map_ok. }
  unfold meta_map in E. rewrite E. exists c, chunks, fi, tr, f. split_and!; done.
Qed.

Lemma Unsorted_adds c opt entries w l chunks cur : good_compression c → 0 < block_size opt < 2 ^ 63 →
  unsorted_ok c opt w [] l chunks cur → fits (l ++ entries) →
  ∃ chunks' cur', unsorted_ok c opt (fold_left (λ w e, (Unsorted_Add e.1 e.2 w).2) entries w) []
    (l ++ entries) chunks' cur'.
Proof.
  intros Hc Hbs. revert w l chunks cur. induction entries as [|e entries IH]; intros w l chunks cur Hw Hfit.
  { rewrite app_nil_r. eauto. }
  rewrite cons_middle, (assoc_L (++)) in Hfit |- *. cbn [fold_left].
  destruct (Unsorted_Add_spec c Hc opt Hbs w [] l chunks cur e Hw) as (w' & chunks' & cur' & E & Hw').
  { by apply fits_app in Hfit as [? _]. }
  rewrite E. by apply (IH w' (l ++ [e]) chunks' cur').
Qed.

Lemma Unsorted_metas c opt meta w m l chunks cur : unsorted_ok c opt w m l chunks cur →
  unsorted_ok c opt (fold_left (λ w e, Unsorted_AddMetaData e.1 e.2 w) meta w)
    (fold_left (λ m e, map_insert e.1 e.2 m) meta m) l chunks cur.
Proof.
  revert w m. induction meta as [|e meta IH]; intros w m Hw; [done|]. cbn [fold_left]. apply IH.
  destruct Hw as [H1 H2 H3 H4 H5 H6 H7 H8]. split; cbn; try done. by rewrite H4.
Qed.

Lemma Unsorted_write_ok opt entries meta : acceptable opt entries meta →
  ∃ c chunks fi tr f, Unsorted_write snap opt entries meta = Some (true, Some f) ∧ good_compression c ∧
    new_DataBlock snap (option_compress_type opt) = Some (mkDataBlock c [] [] 0) ∧
    table_file c (option_compress_type opt) (meta_map meta) entries chunks fi tr f.
Proof.
  intros [Hct Hbs Hfit Hne Hm]. destruct (codec_block _ Hct) as (c & Eb & Hc & Hr).
  unfold Unsorted_write, new_UnsortedWriter. rewrite Eb, opens. cbn [mbind option_bind].
  destruct (Unsorted_adds c opt entries
    (mkUnsorted opt false true [] true (new_table (mkDataBlock c [] [] 0))) [] [] [] Hc Hbs)
    as (chunks1 & cur1 & Hw); [|done|].
  { by split. }
  apply (Unsorted_metas c opt meta) in Hw.
  destruct (Unsorted_Flush_spec c Hc opt Hbs Hr _ _ _ _ _ Hw) as (w' & chunks & fi & tr & f & E & Hf & _);
    [done|done|by apply meta_map_ok|].
  rewrite E. exists c, chunks, fi, tr, f. split_and!; done.
Qed.

Lemma lookups_ok c ct meta l chunks fi tr f : good_compression c →
  table_file c ct meta l chunks fi tr f → new_DataBlock snap ct = Some (mkDataBlock c [] [] 0) →
  StronglySorted key_le l →
  ∀ fuel keys r, (length l < fuel)%nat → reader_ok c meta chunks fi tr f snap r →
  ∃ r', lookups fuel keys r = Some ((λ k, first_value k l) <$> keys, r') ∧
    reader_ok c meta chunks fi tr f snap r'.
Proof.
  intros Hc Hf Hs Hl fuel keys. induction keys as [|k keys IH]; intros r Hfu Hr; [eauto|].
  cbn [lookups]. destruct (Lookup_sorted c Hc ct meta l chunks fi tr f Hf snap Hs r k fuel Hl Hr Hfu)
    as (r1 & -> & Hr1). cbn [mbind option_bind].
  destruct (IH r1 Hfu Hr1) as (r2 & -> & Hr2). cbn. eauto.
Qed.

Lemma stable_sort_length (l : list entry) : length (stable_sort l) = length l.
Proof. apply Permutation_length, stable_sort_perm. Qed.

(** C1: the single table from end to end.  Any acceptable entries and meta
    data, added to a SingleSSTableWriter and flushed to a disk without errors,
    give a file that opens; and whatever was looked up before through the
    block cache, seeking any key and iterating to the end terminates without
    an abort and shows exactly the entries whose keys are not less than the
    sought key, in key order, equal keys in the order they were added. *)
Theorem write_seek_iterate opt entries meta : acceptable opt entries meta →
  ∃ f r, Single_write snap opt entries meta = Some (true, Some f) ∧ Open snap f = Some (Some r) ∧
  ∀ fuel keys key, (length entries < fuel)%nat →
  ∃ vs r' st, lookups fuel keys r = Some (vs, r') ∧ Seek fuel key r' = Some st ∧
    collect fuel st = Some (filter (λ e, str_lt e.1 key = false) (stable_sort entries)).
Proof.
  intros Ha. destruct (Single_write_ok opt entries meta Ha) as (c & chunks & fi & tr & f & E & Hc & Hb & Hf).
  destruct (Open_ok c Hc _ _ _ _ _ _ f Hf snap) as (r & Er & Hr). exists f, r. split; [done|]. split; [done|].
  intros fuel keys key Hfu. rewrite <- stable_sort_length in Hfu. pose proof (stable_sort_sorted entries) as Hs.
  destruct (lookups_ok c _ _ _ _ _ _ f Hc Hf Hb Hs fuel keys r Hfu Hr) as (r' & Ek & Hr').
  destruct (Seek_sorted c Hc _ _ _ _ _ _ f Hf snap Hb r' key fuel Hs Hr' Hfu) as (it & r2 & Es & Hsh & _).
  eexists _, r', (it, r2). split; [done|]. split; [done|]. rewrite <- from_key_filter by done.
  eapply collect_ok; [done..|]. rewrite from_key_filter by done.
  etrans; [apply length_filter|]. lia.
Qed.

(** C5: looking up keys in a table written by SingleSSTableWriter.  Every
    Lookup, in any sequence and whatever the block cache holds or drops,
    returns the value that was added first under the key, or fails when no
    entry has it. *)
Theorem write_lookup opt entries meta : acceptable opt entries meta →
  ∃ f r, Single_write snap opt entries meta = Some (true, Some f) ∧ Open snap f = Some (Some r) ∧
  ∀ fuel keys, (length entries < fuel)%nat →
  fst <$> lookups fuel keys r = Some ((λ key, first_value key entries) <$> keys).
Proof.
  intros Ha. destruct (Single_write_ok opt entries meta Ha) as (c & chunks & fi & tr & f & E & Hc & Hb & Hf).
  destruct (Open_ok c Hc _ _ _ _ _ _ f Hf snap) as (r & Er & Hr). exists f, r. split; [done|]. split; [done|].
  intros fuel keys Hfu. rewrite <- stable_sort_length in Hfu. pose proof (stable_sort_sorted entries) as Hs.
  destruct (lookups_ok c _ _ _ _ _ _ f Hc Hf Hb Hs fuel keys r Hfu Hr) as (r' & -> & _). cbn. f_equal.
  apply list_fmap_ext. intros i k _. unfold first_value. by rewrite stable_sort_stable.
Qed.

(** An unsorted table keeps the order of the entries.  Entries added to an
    UnsortedSSTableWriter in any order are what a new iterator of the reader
    shows, in the order they were added. *)
Theorem unsorted_write_iterate opt entries meta : acceptable opt entries meta →
  ∃ f r, Unsorted_write snap opt entries meta = Some (true, Some f) ∧ Open snap f = Some (Some r) ∧
  ∀ fuel, (length entries < fuel)%nat →
  ∃ st, Seek fuel [] r = Some st ∧ collect fuel st = Some entries.
Proof.
  intros Ha. destruct (Unsorted_write_ok opt entries meta Ha) as (c & chunks & fi & tr & f & E & Hc & Hb & Hf).
  destruct (Open_ok c Hc _ _ _ _ _ _ f Hf snap) as (r & Er & Hr). exists f, r. split; [done|]. split; [done|].
  intros fuel Hfu. destruct (Seek_first c Hc _ _ _ _ _ _ f Hf snap Hb r fuel Hr Hfu) as (it & r2 & Es & Hsh).
  exists (it, r2). split; [done|]. eapply collect_ok; [done..|lia].
Qed.

(** Meta data and the number of entries come back from the file of either
    writer.  GetMetaData, on an open reader or statically on the file, gives
    the value set first for the key (the empty string, or false, when there
    is none), and EntryCount and GetEntryCount give the number of entries. *)
Theorem metadata_read_back opt entries meta (sorted : bool) : acceptable opt entries meta →
  ∃ f r, (if sorted then Single_write snap opt entries meta else Unsorted_write snap opt entries meta) =
      Some (true, Some f) ∧ Open snap f = Some (Some r) ∧
    EntryCount (impl r) = Z.of_nat (length entries) ∧
    GetEntryCount f = Some (Some (Z.of_nat (length entries))) ∧
    ∀ key, let v := default [] (first_value key meta) in
      Impl_GetMetaData key (impl r) = v ∧ Static_GetMetaData f key = Some (negb (bool_decide (v = [])), v).
Proof.
  intros Ha. assert (∃ c l chunks fi tr f,
    (if sorted then Single_write snap opt entries meta else Unsorted_write snap opt entries meta) =
      Some (true, Some f) ∧ good_compression c ∧ length l = length entries ∧
    table_file c (option_compress_type opt) (meta_map meta) l chunks fi tr f)
    as (c & l & chunks & fi & tr & f & E & Hc & Hl & Hf).
  { destruct sorted.
    - destruct (Single_write_ok opt entries meta Ha) as (c & chunks & fi & tr & f & ? & ? & ? & ?).
      exists c, (stable_sort entries), chunks, fi, tr, f. split_and!; try done. apply stable_sort_length.
    - destruct (Unsorted_write_ok opt entries meta Ha) as (c & chunks & fi & tr & f & ? & ? & ? & ?).
      exists c, entries, chunks, fi, tr, f. by split_and!. }
  destruct (Open_ok c Hc _ _ _ _ _ _ f Hf snap) as (r & Er & Hr). exists f, r. rewrite <- Hl.
  split_and!; [done|done| | |].
  - unfold EntryCount. by rewrite (ld_trailer _ _ _ _ _ _ _ (ro_impl _ _ _ _ _ _ _ _ Hr)), (tf_entry_count _ _ _ _ _ _ _ _ Hf).
  - by eapply GetEntryCount_ok.
  - intros key. cbn zeta. rewrite <- meta_map_first, <- FindValue_first. split.
    + by eapply metadata_ok, ro_impl.
    + by eapply Static_metadata_ok.
Qed.

End Table.

(** ** A concrete table *)

#[local] Instance demo_machine : Machine := { big_endian := false }.
#[local] Instance good_disk : Disk :=
  { fwrite_count _ s := length s; open_ok := true; rename_ok := true }.
#[local] Instance good_disk_reliable : ReliableDisk.
Proof. by split. Qed.

(** A cache of one block, and blocks of about one entry. *)
#[local] Instance one_block : BlockCache (LruCache Z DataBlock) := lru_block_cache 1.

Definition demo_option : WriteOption := mkOption 16 CompressType_kSnappy.
Definition demo_entries : list entry :=
  [(str "d", str "4"); (str "b", str "2"); (str "b", str "x"); (str "a", []); (str "c", str "3")].
Definition demo_meta : list entry := [(str "owner", str "me"); (str "owner", str "you")].

(** Stored as it is, after a byte that says so. *)
Definition demo_snappy : option BlockCompression :=
  Some {| Compress s := Some (0 :: s); Uncompress z := Some (drop 1 z) |}.

Lemma demo_snappy_good : good_compression demo_snappy.
Proof.
  split; cbn.
  - intros s. eexists. split; [done|]. done.
  - intros s z [= <-]. cbn. lia.
Qed.

Lemma demo_acceptable : acceptable demo_option demo_entries demo_meta.
Proof.
  split; [by left|done| |done|].
  - split; [by repeat constructor|done].
  - split_and!; [by repeat constructor| |done].
    repeat constructor; apply (bool_decide_unpack _); vm_compute; exact I.
Qed.

Definition demo_file : bytes :=
  match Single_write demo_snappy demo_option demo_entries demo_meta with Some (_, Some f) => f | _ => [] end.

Definition demo_scan (key : bytes) : option (list entry) :=
  match Open demo_snappy demo_file with
  | Some (Some r) => st ← Seek 9 key r; collect 9 st
  | _ => None
  end.

Example write_seek_iterate_witness :
  demo_scan [] = Some (stable_sort demo_entries) ∧
  demo_scan (str "bb") = Some [(str "c", str "3"); (str "d", str "4")] ∧
  ∃ f r st, Single_write demo_snappy demo_option demo_entries demo_meta = Some (true, Some f) ∧
    Open demo_snappy f = Some (Some r) ∧ Seek 6 (str "bb") r = Some st ∧
    collect 6 st = Some [(str "c", str "3"); (str "d", str "4")].
Proof.
  split; [vm_compute; reflexivity|]. split; [vm_compute; reflexivity|].
  destruct (write_seek_iterate demo_snappy demo_snappy_good demo_option demo_entries demo_meta demo_acceptable)
    as (f & r & E & Er & H).
  destruct (H 6%nat [] (str "bb")) as (vs & r' & st & [= <- <-] & Es & Ec); [cbn; lia|].
  exists f, r, st. split; [exact E|]. split; [exact Er|]. split; [exact Es|exact Ec].
Defined.

Example write_lookup_witness :
  ∃ f r, Single_write demo_snappy demo_option demo_entries demo_meta = Some (true, Some f) ∧
    Open demo_snappy f = Some (Some r) ∧
    fst <$> lookups 6 [str "b"; str "e"; str "a"; str "b"] r = Some [Some (str "2"); None; Some []; Some (str "2")].
Proof.
  destruct (write_lookup demo_snappy demo_snappy_good demo_option demo_entries demo_meta demo_acceptable)
    as (f & r & E & Er & H).
  exists f, r. split; [exact E|]. split; [exact Er|]. apply (H 6%nat [str "b"; str "e"; str "a"; str "b"]). cbn. lia.
Defined.

Example unsorted_write_iterate_witness :
  ∃ f r st, Unsorted_write demo_snappy demo_option demo_entries demo_meta = Some (true, Some f) ∧
    Open demo_snappy f = Some (Some r) ∧ Seek 6 [] r = Some st ∧ collect 6 st = Some demo_entries.
Proof.
  destruct (unsorted_write_iterate demo_snappy demo_snappy_good demo_option demo_entries demo_meta demo_acceptable)
    as (f & r & E & Er & H).
  destruct (H 6%nat) as (st & Es & Ec); [cbn; lia|].
  exists f, r, st. split; [exact E|]. split; [exact Er|]. split; [exact Es|exact Ec].
Defined.

Example metadata_read_back_witness :
  ∃ f, Unsorted_write demo_snappy demo_option demo_entries demo_meta = Some (true, Some f) ∧
    GetEntryCount f = Some (Some 5) ∧ Static_GetMetaData f (str "owner") = Some (true, str "me").
Proof.
  destruct (metadata_read_back demo_snappy demo_snappy_good demo_option demo_entries demo_meta false demo_acceptable)
    as (f & r & E & _ & _ & Hn & H).
  exists f. split; [exact E|]. split; [exact Hn|]. apply (H (str "owner")).
Defined.
