(* ===== verification/Number.v ===== *)
(** * Numbers and strings

    Model of the integer part of base/string/number.h and number.cpp:
    parsing over the C library's [strtol] family, the hand-unrolled decimal
    writers and the hexadecimal ones.  An output iterator is the list of the
    characters written so far; a label of the writers is a definition that
    falls through to the next one.  The conversions of floating-point numbers
    are calls of the C library and are not modelled. *)

From S2P Require Import Prelude CType.

(** ** The C library: strtol and strtoul *)

Definition digit_value (c : Z) : option Z :=
  if isdigit c then Some (c - 48)
  else if islower c then Some (c - 87)
  else if isupper c then Some (c - 55)
  else None.

(** The digits of a base at the head of a string: their value and number. *)
Fixpoint scan_digits (base : Z) (s : bytes) (acc : Z) (n : nat) : Z * nat :=
  match s with
  | [] => (acc, n)
  | c :: s' =>
      match digit_value c with
      | Some d => if d <? base then scan_digits base s' (acc * base + d) (S n) else (acc, n)
      | None => (acc, n)
      end
  end.

Fixpoint skip_spaces (s : bytes) : nat :=
  match s with c :: s' => if isspace c then S (skip_spaces s') else 0 | [] => 0 end%nat.

(** "0x" counts as a prefix only before a hexadecimal digit. *)
Definition hex_prefix (s : bytes) : bool :=
  match s with
  | z :: x :: h :: _ => ((z =? 48) && ((x =? 120) || (x =? 88)) && isxdigit h)%bool
  | _ => false
  end.

(** Sign, magnitude and the number of characters used, 0 when there is no
    number.  [s] is a C string without its NUL. *)
Definition scan_number (s : bytes) (base : Z) : bool * Z * nat :=
  let ws := skip_spaces s in
  let s1 := drop ws s in
  let '(neg, sg) := match s1 with
                    | c :: _ => if c =? 45 then (true, 1%nat) else if c =? 43 then (false, 1%nat) else (false, 0%nat)
                    | [] => (false, 0%nat)
                    end in
  let s2 := drop sg s1 in
  let '(base, px) :=
    if ((base =? 0) || (base =? 16)) && hex_prefix s2 then (16, 2%nat)
    else if base =? 0 then (match s2 with c :: _ => if c =? 48 then 8 else 10 | [] => 10 end, 0%nat)
    else (base, 0%nat) in
  let '(v, n) := scan_digits base (drop px s2) 0 0 in
  if (n =? 0)%nat then (false, 0, 0%nat) else (neg, v, ws + sg + px + n)%nat.

(** The value, [*endptr - str] and whether errno was set to ERANGE, for the
    64-bit [long] and [unsigned long]. *)
Definition strtol (s : bytes) (base : Z) : Z * nat * bool :=
  let '(neg, v, n) := scan_number s base in
  let x := if neg then - v else v in
  if x <? - 2 ^ 63 then (- 2 ^ 63, n, true)
  else if 2 ^ 63 <=? x then (2 ^ 63 - 1, n, true) else (x, n, false).

Definition strtoul (s : bytes) (base : Z) : Z * nat * bool :=
  let '(neg, v, n) := scan_number s base in
  if 2 ^ 64 <=? v then (2 ^ 64 - 1, n, true) else (if neg then u64 (- v) else v, n, false).

(** ** Integer types *)

Record int_type := mkInt { signed : bool; bits : Z }.

Definition t_int := mkInt true 32.
Definition t_uint := mkInt false 32.
Definition t_long := mkInt true 64.
Definition t_ulong := mkInt false 64.

Definition min_value (t : int_type) : Z := if signed t then - 2 ^ (bits t - 1) else 0.
Definition max_value (t : int_type) : Z := if signed t then 2 ^ (bits t - 1) - 1 else 2 ^ bits t - 1.
Definition fits_in (t : int_type) (n : Z) : Prop := min_value t <= n <= max_value t.

(** ** Parsing *)

(** The characters of a [std::string] before its first NUL. *)
Fixpoint before_nul (s : bytes) : bytes :=
  match s with c :: s' => if c =? 0 then [] else c :: before_nul s' | [] => [] end.

(** The result, when it is true with the value stored, and [*endptr - str]. *)
Definition ParseNumberT (t : int_type) (s : bytes) (base : Z) : option Z * nat :=
  let '(number, n, err) := if signed t then strtol s base else strtoul s base in
  if (err : bool) then (None, n)
  else if ((bits t <? 64) && ((max_value t <? number) || (number <? min_value t)))%bool then (None, n)
  else if (n =? 0)%nat then (None, n)
  else (Some number, n).

(** [*endptr] is the NUL *)
Definition StringToNumber_base (t : int_type) (s : bytes) (base : Z) : option Z :=
  let p := before_nul s in
  let '(r, n) := ParseNumberT t p base in
  if (n =? length p)%nat then r else None.

(** The base is found from the prefix of the number. *)
Definition StringToNumber (t : int_type) (s : bytes) : option Z := StringToNumber_base t s 0.

(** ** Decimal output *)

Definition two_ASCII_digits : list bytes :=
  [str "00"; str "01"; str "02"; str "03"; str "04"; str "05"; str "06"; str "07"; str "08"; str "09";
   str "10"; str "11"; str "12"; str "13"; str "14"; str "15"; str "16"; str "17"; str "18"; str "19";
   str "20"; str "21"; str "22"; str "23"; str "24"; str "25"; str "26"; str "27"; str "28"; str "29";
   str "30"; str "31"; str "32"; str "33"; str "34"; str "35"; str "36"; str "37"; str "38"; str "39";
   str "40"; str "41"; str "42"; str "43"; str "44"; str "45"; str "46"; str "47"; str "48"; str "49";
   str "50"; str "51"; str "52"; str "53"; str "54"; str "55"; str "56"; str "57"; str "58"; str "59";
   str "60"; str "61"; str "62"; str "63"; str "64"; str "65"; str "66"; str "67"; str "68"; str "69";
   str "70"; str "71"; str "72"; str "73"; str "74"; str "75"; str "76"; str "77"; str "78"; str "79";
   str "80"; str "81"; str "82"; str "83"; str "84"; str "85"; str "86"; str "87"; str "88"; str "89";
   str "90"; str "91"; str "92"; str "93"; str "94"; str "95"; str "96"; str "97"; str "98"; str "99"].

(** [*output++ = ASCII_digits[0]; *output++ = ASCII_digits[1];] *)
Definition put_two (digits : Z) (output : bytes) : bytes :=
  output ++ default [] (two_ASCII_digits !! Z.to_nat digits).
Definition put_one (digits : Z) (output : bytes) : bytes := output ++ [48 + digits].

(** [u -= digits * k]: the product is an [int], the difference unsigned. *)
Definition minus (u digits k : Z) : Z := u32 (u - u32 (s32 (digits * k))).

Definition lt100 (u : Z) (output : bytes) : bytes := put_two u output.
Definition sublt100 (u digits : Z) (output : bytes) : bytes := lt100 (minus u digits 100) output.
Definition lt10_000 (u : Z) (output : bytes) : bytes :=
  let digits := u ÷ 100 in sublt100 u digits (put_two digits output).
Definition sublt10_000 (u digits : Z) (output : bytes) : bytes := lt10_000 (minus u digits 10000) output.
Definition lt1_000_000 (u : Z) (output : bytes) : bytes :=
  let digits := u ÷ 10000 in sublt10_000 u digits (put_two digits output).
Definition sublt1_000_000 (u digits : Z) (output : bytes) : bytes := lt1_000_000 (minus u digits 1000000) output.
Definition lt100_000_000 (u : Z) (output : bytes) : bytes :=
  let digits := u ÷ 1000000 in sublt1_000_000 u digits (put_two digits output).
Definition sublt100_000_000 (u digits : Z) (output : bytes) : bytes :=
  lt100_000_000 (minus u digits 100000000) output.

Definition OutputUInt32AsString (u : Z) (output : bytes) : bytes :=
  if 1000000000 <=? u then
    let digits := u ÷ 100000000 in sublt100_000_000 u digits (put_two digits output)
  else if u <? 100 then
    if 10 <=? u then lt100 u output else put_one u output
  else if u <? 10000 then
    if 1000 <=? u then lt10_000 u output
    else let digits := u ÷ 100 in sublt100 u digits (put_one digits output)
  else if u <? 1000000 then
    if 100000 <=? u then lt1_000_000 u output
    else let digits := u ÷ 10000 in sublt10_000 u digits (put_one digits output)
  else if u <? 100000000 then
    if 10000000 <=? u then lt100_000_000 u output
    else let digits := u ÷ 1000000 in sublt1_000_000 u digits (put_one digits output)
  else
    let digits := u ÷ 100000000 in sublt100_000_000 u digits (put_one digits output).

(** [u = -i] negates in the signed type, which wraps for the least value. *)
Definition OutputInt32AsString (i : Z) (output : bytes) : bytes :=
  if i <? 0 then OutputUInt32AsString (u32 (s32 (- i))) (output ++ [45])
  else OutputUInt32AsString (u32 i) output.

(** The nine digits below the recursive call. *)
Definition low_nine (u : Z) (output : bytes) : bytes :=
  let digits := u ÷ 10000000 in
  let output := put_two digits output in
  let u := minus u digits 10000000 in
  let digits := u ÷ 100000 in
  let output := put_two digits output in
  let u := minus u digits 100000 in
  let digits := u ÷ 1000 in
  let output := put_two digits output in
  let u := minus u digits 1000 in
  let digits := u ÷ 10 in
  let output := put_two digits output in
  let u := minus u digits 10 in
  put_one u output.

(** Each call divides by 10^9, so three are enough for 64 bits
    ([OutputUInt64AsString_fuel]). *)
Fixpoint output_uint64 (fuel : nat) (x : Z) (output : bytes) : bytes :=
  let u := u32 x in
  if u =? x then OutputUInt32AsString u output
  else match fuel with
  | O => output
  | S fuel =>
      let top_11_digits := x ÷ 1000000000 in
      let output := output_uint64 fuel top_11_digits output in
      low_nine (u32 (u64 (x - u64 (top_11_digits * 1000000000)))) output
  end.

Definition OutputUInt64AsString (x : Z) (output : bytes) : bytes := output_uint64 3 x output.

Definition OutputInt64AsString (i : Z) (output : bytes) : bytes :=
  if i <? 0 then OutputUInt64AsString (u64 (s64 (- i))) (output ++ [45])
  else OutputUInt64AsString (u64 i) output.

(** The overloads choose by the type; [long] has eight bytes. *)
Definition OutputIntegerAsString (t : int_type) (n : Z) (output : bytes) : bytes :=
  match signed t, bits t =? 32 with
  | true, true => OutputInt32AsString n output
  | false, true => OutputUInt32AsString n output
  | true, false => OutputInt64AsString n output
  | false, false => OutputUInt64AsString n output
  end.

(** The [Write] functions return the end of what they wrote; the others end
    the text with a NUL. *)
Definition WriteUInt32ToBuffer (n : Z) : bytes := OutputUInt32AsString n [].
Definition WriteInt32ToBuffer (n : Z) : bytes := OutputInt32AsString n [].
Definition WriteUInt64ToBuffer (n : Z) : bytes := OutputUInt64AsString n [].
Definition WriteInt64ToBuffer (n : Z) : bytes := OutputInt64AsString n [].
Definition WriteIntegerToBuffer (t : int_type) (n : Z) : bytes := OutputIntegerAsString t n [].
Definition UInt32ToString (u : Z) : bytes := OutputUInt32AsString u [] ++ [0].
Definition Int32ToString (i : Z) : bytes := OutputInt32AsString i [] ++ [0].
Definition UInt64ToString (u : Z) : bytes := OutputUInt64AsString u [] ++ [0].
Definition Int64ToString (i : Z) : bytes := OutputInt64AsString i [] ++ [0].

Definition AppendIntegerToString (t : int_type) (n : Z) (s : bytes) : bytes := OutputIntegerAsString t n s.
Definition IntegerStringLength (n : Z) : nat := length (OutputIntegerAsString t_int n []).
(** [IntegerToString] into a buffer, with the NUL. *)
Definition IntegerToString_buffer (t : int_type) (n : Z) : bytes := OutputIntegerAsString t n [] ++ [0].
Definition kMaxIntegerStringSize : nat := 32.
Definition IntegerToString (t : int_type) (n : Z) : bytes := OutputIntegerAsString t n [].
Definition NumberToString := IntegerToString.

(** ** Hexadecimal output *)

Definition hexdigits : bytes := str "0123456789abcdef".

(** The loop from the last digit to the first. *)
Fixpoint hex_loop (i : nat) (value : Z) (buffer : bytes) : bytes :=
  match i with
  | O => buffer
  | S i => hex_loop i (Z.shiftr value 4)
             (<[i := default 0 (hexdigits !! Z.to_nat (Z.land (u32 value) 15))]> buffer)
  end.

(** The digits of a value of [num_byte] bytes, written over a buffer. *)
Definition UIntToHexBufferInternal (value : Z) (num_byte : nat) : bytes :=
  hex_loop (2 * num_byte) value (replicate (2 * num_byte) 0).

Definition UInt16ToHexString (value : Z) : bytes := UIntToHexBufferInternal value 2.
Definition UInt32ToHexString (value : Z) : bytes := UIntToHexBufferInternal value 4.
Definition UInt64ToHexString (value : Z) : bytes := UIntToHexBufferInternal value 8.

(** ** The decimal reference *)

(** Twenty digits are enough for 64 bits. *)
Fixpoint decimal_loop (fuel : nat) (n : Z) : bytes :=
  match fuel with
  | O => []
  | S fuel => if n <? 10 then [48 + n] else decimal_loop fuel (n / 10) ++ [48 + n mod 10]
  end.
Definition decimal (n : Z) : bytes := decimal_loop 20 n.

Definition limit : Z := 10 ^ 20.

Lemma decimal_loop_S fuel n : decimal_loop (S fuel) n =
  if n <? 10 then [48 + n] else decimal_loop fuel (n / 10) ++ [48 + n mod 10].
Proof. done. Qed.

Lemma decimal_loop_more fuel n : 0 <= n < 10 ^ Z.of_nat (S fuel) →
  decimal_loop (S (S fuel)) n = decimal_loop (S fuel) n.
Proof.
  revert n. induction fuel as [|fuel IH]; intros n Hn.
  { cbn. destruct (Z.ltb_spec n 10); [done|]. change (10 ^ Z.of_nat 1) with 10 in Hn. lia. }
  rewrite (decimal_loop_S (S (S fuel))), (decimal_loop_S (S fuel) n).
  destruct (Z.ltb_spec n 10); [done|]. rewrite IH; [done|].
  assert (E : 10 ^ Z.of_nat (S (S fuel)) = 10 * 10 ^ Z.of_nat (S fuel)).
  { rewrite (Nat2Z.inj_succ (S fuel)), Z.pow_succ_r by lia. lia. }
  rewrite E in Hn. split; [apply Z.div_pos; lia|]. apply Z.div_lt_upper_bound; lia.
Qed.

Lemma decimal_small d : 0 <= d < 10 → decimal d = [48 + d].
Proof. intros Hd. unfold decimal. cbn [decimal_loop]. destruct (Z.ltb_spec d 10); [done|lia]. Qed.

Lemma decimal_one q d : 1 <= q → 0 <= d < 10 → q * 10 + d < limit →
  decimal (q * 10 + d) = decimal q ++ [48 + d].
Proof.
  intros Hq Hd Hl. unfold decimal, limit in *. change (decimal_loop 20 (q * 10 + d)) with
    (if q * 10 + d <? 10 then [48 + (q * 10 + d)] else decimal_loop 19 ((q * 10 + d) / 10) ++ [48 + (q * 10 + d) mod 10]).
  destruct (Z.ltb_spec (q * 10 + d) 10); [lia|].
  replace ((q * 10 + d) / 10) with q by (rewrite Z.div_add_l, Z.div_small by lia; lia).
  replace ((q * 10 + d) mod 10) with d by (rewrite Z.add_comm, Z.mod_add, Z.mod_small by lia; lia).
  by rewrite (decimal_loop_more 18) by (change (10 ^ Z.of_nat 19) with (10 ^ 19); lia).
Qed.

Lemma decimal_length n : (length (decimal n) <= 20)%nat.
Proof.
  unfold decimal. generalize 20%nat as k. intros k. revert n.
  induction k as [|k IH]; intros n; [done|]. rewrite decimal_loop_S. case_ztest; cbn; [lia|].
  rewrite length_app. cbn. specialize (IH (n / 10)). lia.
Qed.

(** ** The writers are the reference *)

Lemma two_digits r : 0 <= r < 100 →
  default [] (two_ASCII_digits !! Z.to_nat r) = [48 + r / 10; 48 + r mod 10].
Proof.
  intros Hr. assert (H : forallb (λ r, bool_decide (default [] (two_ASCII_digits !! Z.to_nat r) =
    [48 + r / 10; 48 + r mod 10])) (seqZ 0 100) = true) by (vm_compute; reflexivity).
  rewrite forallb_forall in H. specialize (H r). rewrite bool_decide_eq_true in H. apply H.
  apply list_elem_of_In, elem_of_seqZ. lia.
Qed.

Lemma put_one_top d out : 0 <= d < 10 → put_one d out = out ++ decimal d.
Proof. intros Hd. unfold put_one. by rewrite decimal_small. Qed.

Lemma put_one_spec q d out : 1 <= q → 0 <= d < 10 → q * 10 + d < limit →
  put_one d (out ++ decimal q) = out ++ decimal (q * 10 + d).
Proof. intros. unfold put_one. by rewrite decimal_one, (assoc_L (++)). Qed.

Lemma put_two_ones r out : 0 <= r < 100 → put_two r out = put_one (r mod 10) (put_one (r / 10) out).
Proof. intros Hr. unfold put_two, put_one. by rewrite two_digits, <- (assoc_L (++)). Qed.

Lemma put_two_top r out : 10 <= r < 100 → put_two r out = out ++ decimal r.
Proof.
  intros Hr. pose proof (Z.div_mod r 10). pose proof (Z.mod_pos_bound r 10). 
  rewrite put_two_ones, (put_one_top (r / 10)) by lia. rewrite put_one_spec by (unfold limit; lia). do 2 f_equal. lia.
Qed.

Lemma put_two_spec q r out : 1 <= q → 0 <= r < 100 → q * 100 + r < limit →
  put_two r (out ++ decimal q) = out ++ decimal (q * 100 + r).
Proof.
  intros Hq Hr Hl. pose proof (Z.div_mod r 10). pose proof (Z.mod_pos_bound r 10).
  rewrite put_two_ones by done. rewrite !put_one_spec by lia. do 2 f_equal. lia.
Qed.

Lemma u32_s32_eq x : u32 (s32 x) = u32 x.
Proof.
  unfold u32, s32. rewrite Zminus_mod_idemp_l. f_equal. lia.
Qed.

(** Subtracting the digits that were written leaves the remainder. *)
Lemma minus_mod u k : 0 <= u < 2 ^ 32 → 0 < k → minus u (u ÷ k) k = u mod k.
Proof.
  intros Hu Hk. unfold minus. rewrite u32_s32_eq, Z.quot_div_nonneg by lia.
  pose proof (Z.div_mod u k). pose proof (Z.mod_pos_bound u k). pose proof (Z.div_pos u k).
  rewrite (u32_small (u / k * k)) by nia. rewrite u32_small by lia. lia.
Qed.

(** A label that writes the digits of [r] below [k], after the digits of [q]. *)
Definition continues (k : Z) (f : Z → bytes → bytes) : Prop := ∀ q r out,
  1 <= q → 0 <= r < k → q * k + r < limit → f r (out ++ decimal q) = out ++ decimal (q * k + r).

Lemma continues_two k f g : 0 < k → 100 * k <= 2 ^ 32 → continues k f →
  (∀ u out, 0 <= u < 2 ^ 32 → g u out = f (u mod k) (put_two (u / k) out)) →
  continues (100 * k) g ∧
  ∀ u out, 10 * k <= u < 100 * k → g u out = out ++ decimal u.
Proof.
  intros Hk Hk32 Hf Hg.
  assert (Hl : 2 ^ 32 < limit) by (unfold limit; lia).
  split.
  - intros q r out Hq Hr Hlim. rewrite Hg by lia.
    pose proof (Z.div_mod r k). pose proof (Z.mod_pos_bound r k). pose proof (Z.div_pos r k).
    assert (r / k < 100) by (apply Z.div_lt_upper_bound; lia).
    rewrite put_two_spec by nia. rewrite Hf by nia. do 2 f_equal. nia.
  - intros u out Hu. rewrite Hg by lia. pose proof (Z.div_mod u k). pose proof (Z.mod_pos_bound u k).
    assert (10 <= u / k < 100).
    { split; [apply Z.div_le_lower_bound; lia|apply Z.div_lt_upper_bound; lia]. }
    rewrite put_two_top by lia. rewrite Hf by nia. do 2 f_equal. nia.
Qed.

Lemma lt100_continues : continues 100 lt100.
Proof. intros q r out. apply put_two_spec. Qed.

Ltac unfold_label := intros u out Hu; cbn zeta; rewrite minus_mod by lia; by rewrite Z.quot_div_nonneg by lia.

Lemma lt10_000_spec : continues 10000 lt10_000 ∧
  ∀ u out, 1000 <= u < 10000 → lt10_000 u out = out ++ decimal u.
Proof.
  apply (continues_two 100 lt100); [lia|lia|apply lt100_continues|]. unfold lt10_000, sublt100. unfold_label.
Qed.

Lemma lt1_000_000_spec : continues 1000000 lt1_000_000 ∧
  ∀ u out, 100000 <= u < 1000000 → lt1_000_000 u out = out ++ decimal u.
Proof.
  apply (continues_two 10000 lt10_000); [lia|lia|apply lt10_000_spec|]. unfold lt1_000_000, sublt10_000. unfold_label.
Qed.

Lemma lt100_000_000_spec : continues 100000000 lt100_000_000 ∧
  ∀ u out, 10000000 <= u < 100000000 → lt100_000_000 u out = out ++ decimal u.
Proof.
  apply (continues_two 1000000 lt1_000_000); [lia| |apply lt1_000_000_spec|].
  - lia.
  - unfold lt100_000_000, sublt1_000_000. unfold_label.
Qed.

(** Choosing a label by the size of the number, after one leading digit. *)
Lemma one_then k f u out : 0 < k → 10 * k <= 2 ^ 32 → continues k f →
  k <= u < 10 * k → f (u mod k) (put_one (u / k) out) = out ++ decimal u.
Proof.
  intros Hk Hk32 Hf Hu. assert (Hl : 2 ^ 32 < limit) by (unfold limit; lia).
  pose proof (Z.div_mod u k). pose proof (Z.mod_pos_bound u k).
  assert (1 <= u / k < 10).
  { split; [apply Z.div_le_lower_bound; lia|apply Z.div_lt_upper_bound; lia]. }
  rewrite put_one_top by lia. rewrite Hf by nia. do 2 f_equal. nia.
Qed.

Ltac one_label k f c :=
  rewrite minus_mod by lia; rewrite Z.quot_div_nonneg by lia; apply (one_then k f); [lia|lia|apply c|lia].

Lemma OutputUInt32AsString_eq u out : 0 <= u < 2 ^ 32 → OutputUInt32AsString u out = out ++ decimal u.
Proof.
  intros Hu. unfold OutputUInt32AsString.
  destruct (Z.leb_spec 1000000000 u).
  { unfold sublt100_000_000. rewrite minus_mod, Z.quot_div_nonneg by lia.
    pose proof (Z.div_mod u 100000000). pose proof (Z.mod_pos_bound u 100000000).
    assert (10 <= u / 100000000 < 100).
    { split; [apply Z.div_le_lower_bound; lia|apply Z.div_lt_upper_bound; lia]. }
    rewrite put_two_top by lia. destruct lt100_000_000_spec as [Hc _].
    rewrite Hc by (unfold limit; lia). do 2 f_equal. lia. }
  destruct (Z.ltb_spec u 100).
  { destruct (Z.leb_spec 10 u); [by apply put_two_top|apply put_one_top; lia]. }
  destruct (Z.ltb_spec u 10000).
  { destruct (Z.leb_spec 1000 u); [by apply lt10_000_spec|]. unfold sublt100. one_label 100 lt100 lt100_continues. }
  destruct (Z.ltb_spec u 1000000).
  { destruct (Z.leb_spec 100000 u); [by apply lt1_000_000_spec|]. unfold sublt10_000. one_label 10000 lt10_000 lt10_000_spec. }
  destruct (Z.ltb_spec u 100000000).
  { destruct (Z.leb_spec 10000000 u); [by apply lt100_000_000_spec|].
    unfold sublt1_000_000. one_label 1000000 lt1_000_000 lt1_000_000_spec. }
  unfold sublt100_000_000. one_label 100000000 lt100_000_000 lt100_000_000_spec.
Qed.

(** ** 64 bits *)

(** The nine digits below a number that is not zero. *)
Lemma low_nine_spec : continues 1000000000 low_nine.
Proof.
  intros q r out Hq Hr Hl. unfold low_nine, limit in *. cbn zeta.
  rewrite (minus_mod r) by lia. set (a := r mod 10000000).
  assert (0 <= a < 10000000) by (apply Z.mod_pos_bound; lia).
  rewrite (minus_mod a) by lia. set (b := a mod 100000).
  assert (0 <= b < 100000) by (apply Z.mod_pos_bound; lia).
  rewrite (minus_mod b) by lia. set (d := b mod 1000).
  assert (0 <= d < 1000) by (apply Z.mod_pos_bound; lia).
  rewrite (minus_mod d) by lia. set (e := d mod 10).
  assert (0 <= e < 10) by (apply Z.mod_pos_bound; lia).
  rewrite !Z.quot_div_nonneg by lia.
  assert (Hr' : r = 10000000 * (r / 10000000) + a) by (apply Z.div_mod; lia).
  assert (Ha' : a = 100000 * (a / 100000) + b) by (apply Z.div_mod; lia).
  assert (Hb' : b = 1000 * (b / 1000) + d) by (apply Z.div_mod; lia).
  assert (Hd' : d = 10 * (d / 10) + e) by (apply Z.div_mod; lia).
  clearbody a b d e. generalize dependent (r / 10000000). intros r1 Hr'.
  generalize dependent (a / 100000). intros a1 Ha'. generalize dependent (b / 1000). intros b1 Hb'.
  generalize dependent (d / 10). intros d1 Hd'.
  rewrite !put_two_spec, put_one_spec by (unfold limit; lia). do 2 f_equal. lia.
Qed.

Lemma output_uint64_eq fuel x out : 0 <= x < limit → x < 2 ^ 32 * 1000000000 ^ Z.of_nat fuel → x < 2 ^ 64 →
  output_uint64 fuel x out = out ++ decimal x.
Proof.
  revert x. induction fuel as [|fuel IH]; intros x Hx Hf H64; cbn [output_uint64];
    (destruct (Z.eqb_spec (u32 x) x) as [E|E];
     [rewrite OutputUInt32AsString_eq by (rewrite <- E; apply Z.mod_pos_bound; lia); by rewrite E|]).
  { exfalso. apply E, u32_small. rewrite Z.pow_0_r in Hf. lia. }
  assert (Hbig : 2 ^ 32 <= x).
  { destruct (Z.lt_ge_cases x (2 ^ 32)); [|done]. exfalso. apply E, u32_small. lia. }
  rewrite Nat2Z.inj_succ, Z.pow_succ_r in Hf by lia.
  rewrite Z.quot_div_nonneg by lia. set (q := x / 1000000000).
  assert (Hq : x = 1000000000 * q + x mod 1000000000) by (apply Z.div_mod; lia).
  pose proof (Z.mod_pos_bound x 1000000000) as Hm.
  assert (Hlow : u32 (u64 (x - u64 (q * 1000000000))) = x mod 1000000000).
  { rewrite (u64_small (q * _)), u64_small, u32_small by lia. lia. }
  rewrite Hlow, IH by (unfold limit in *; lia).
  rewrite low_nine_spec by (unfold limit in *; lia). do 2 f_equal. lia.
Qed.

Lemma OutputUInt64AsString_eq x out : 0 <= x < 2 ^ 64 → OutputUInt64AsString x out = out ++ decimal x.
Proof. intros Hx. apply output_uint64_eq; unfold limit; lia. Qed.

(** The recursion is never cut short. *)
Lemma OutputUInt64AsString_fuel x out k : 0 <= x < 2 ^ 64 → output_uint64 (3 + k) x out = OutputUInt64AsString x out.
Proof.
  intros Hx. rewrite OutputUInt64AsString_eq by done. apply output_uint64_eq; [unfold limit; lia| |lia].
  assert (1 <= 1000000000 ^ Z.of_nat k) by (apply Z.lt_pred_le, Z.pow_pos_nonneg; lia).
  rewrite Nat2Z.inj_add, Z.pow_add_r by lia. change (1000000000 ^ Z.of_nat 3) with (1000000000 ^ 3). nia.
Qed.

(** ** The integer types of the interface *)

(** The overloads for [int], [unsigned], [long] and [unsigned long]. *)
Definition overloaded (t : int_type) : Prop := bits t = 32 ∨ bits t = 64.

Definition signed_decimal (n : Z) : bytes := if n <? 0 then [45] ++ decimal (- n) else decimal n.

Lemma OutputIntegerAsString_eq t n out : overloaded t → fits_in t n →
  OutputIntegerAsString t n out = out ++ signed_decimal n.
Proof.
  intros Ht Hn. unfold OutputIntegerAsString, signed_decimal, overloaded, fits_in, min_value, max_value in *.
  destruct t as [sg b]. cbn [signed bits] in *. destruct Ht as [-> | ->], sg; cbn [Z.eqb Pos.eqb].
  - unfold OutputInt32AsString. destruct (Z.ltb_spec n 0).
    + assert (E : u32 (s32 (- n)) = - n) by (rewrite u32_s32_eq; apply u32_small; lia).
      rewrite E, OutputUInt32AsString_eq by lia. by rewrite <- (assoc_L (++)).
    + rewrite u32_small, OutputUInt32AsString_eq by lia. done.
  - destruct (Z.ltb_spec n 0); [lia|]. apply OutputUInt32AsString_eq. lia.
  - unfold OutputInt64AsString. destruct (Z.ltb_spec n 0).
    + assert (E : u64 (s64 (- n)) = - n).
      { unfold u64, s64. rewrite Zminus_mod_idemp_l. replace (- n + 2 ^ 63 - 2 ^ 63) with (- n) by lia.
        apply Z.mod_small. lia. }
      rewrite E, OutputUInt64AsString_eq by lia. by rewrite <- (assoc_L (++)).
    + rewrite u64_small, OutputUInt64AsString_eq by lia. done.
  - destruct (Z.ltb_spec n 0); [lia|]. apply OutputUInt64AsString_eq. lia.
Qed.

(** ** Digits read back *)

Definition digit_ok (base c : Z) : Prop := ∃ d, digit_value c = Some d ∧ d < base.

(** The value of digits in a base, most significant first. *)
Definition digits_value (base : Z) (s : bytes) : Z := fold_left (λ acc c, acc * base + default 0 (digit_value c)) s 0.

Lemma fold_digits_acc base s acc : fold_left (λ acc c, acc * base + default 0 (digit_value c)) s acc =
  acc * base ^ Z.of_nat (length s) + digits_value base s.
Proof.
  unfold digits_value. revert acc. induction s as [|c s IH]; intros acc; cbn [fold_left length]; [cbn; lia|].
  rewrite IH, (IH (0 * base + _)), Nat2Z.inj_succ, Z.pow_succ_r by lia. lia.
Qed.

Lemma digits_value_snoc base s c : digits_value base (s ++ [c]) = digits_value base s * base + default 0 (digit_value c).
Proof. unfold digits_value. by rewrite fold_left_app. Qed.

Lemma scan_digits_all base s acc n : Forall (digit_ok base) s →
  scan_digits base s acc n = (acc * base ^ Z.of_nat (length s) + digits_value base s, (n + length s)%nat).
Proof.
  revert acc n. induction s as [|c s IH]; intros acc n Hs; cbn [scan_digits length].
  { unfold digits_value. cbn. f_equal; lia. }
  apply Forall_cons in Hs as [(d & Hd & Hlt) Hs]. rewrite Hd. destruct (Z.ltb_spec d base); [|lia].
  rewrite IH by done. unfold digits_value at 2. cbn [fold_left]. rewrite Hd, (fold_digits_acc base s).
  rewrite Nat2Z.inj_succ, Z.pow_succ_r by lia. cbn [default from_option id]. f_equal; [ring|lia].
Qed.

Lemma decimal_facts n : 0 <= n < limit →
  Forall (digit_ok 10) (decimal n) ∧ digits_value 10 (decimal n) = n ∧ decimal n ≠ [] ∧
  Forall (λ c, 48 <= c <= 57) (decimal n) ∧ (1 <= n → ∃ c s, decimal n = c :: s ∧ 49 <= c <= 57).
Proof.
  intros Hn. assert (Hgen : ∀ fuel n, 0 <= n < 10 ^ Z.of_nat (S fuel) → let s := decimal_loop (S fuel) n in
    Forall (digit_ok 10) s ∧ digits_value 10 s = n ∧ s ≠ [] ∧ Forall (λ c, 48 <= c <= 57) s ∧
    (1 <= n → ∃ c s', s = c :: s' ∧ 49 <= c <= 57)).
  { assert (Hd : ∀ d, 0 <= d < 10 → digit_value (48 + d) = Some d).
    { intros d Hd. unfold digit_value, isdigit, in_range.
      destruct (Z.leb_spec 48 (48 + d)); [|lia]. destruct (Z.leb_spec (48 + d) 57); [|lia]. cbn. f_equal. lia. }
    clear n Hn. induction fuel as [|fuel IH]; intros n Hn s; unfold s; rewrite decimal_loop_S;
      (destruct (Z.ltb_spec n 10);
       [split_and!; [repeat constructor; exists n; split; [apply Hd; lia|lia]
                    |unfold digits_value; cbn [fold_left]; rewrite Hd by lia; cbn; lia|done
                    |repeat constructor; lia|intros; exists (48 + n), []; split; [done|lia]]|]).
    { change (10 ^ Z.of_nat 1) with 10 in Hn. lia. }
    pose proof (Z.mod_pos_bound n 10). pose proof (Z.div_mod n 10).
    destruct (IH (n / 10)) as (Hok & Hv & Hne & Hrng & Hlead).
    { rewrite (Nat2Z.inj_succ (S fuel)), Z.pow_succ_r in Hn by lia.
      split; [apply Z.div_pos; lia|apply Z.div_lt_upper_bound; lia]. }
    split_and!.
    - apply Forall_app. split; [done|]. repeat constructor. exists (n mod 10). split; [apply Hd; lia|lia].
    - rewrite digits_value_snoc, Hv, Hd by lia. cbn. lia.
    - by destruct (decimal_loop (S fuel) (n / 10)).
    - apply Forall_app. split; [done|]. repeat constructor; lia.
    - intros _. destruct Hlead as (c & s' & -> & Hc); [apply Z.div_le_lower_bound; lia|].
      exists c, (s' ++ [48 + n mod 10]). split; [done|lia]. }
  apply (Hgen 19%nat). exact Hn.
Qed.

(** ** Reading signed decimal text *)

Definition decimal_digit (c : Z) : Prop := 48 <= c <= 57.

Lemma decimal_digit_ok c : decimal_digit c → digit_ok 10 c ∧ digit_value c = Some (c - 48).
Proof.
  intros Hc. unfold digit_ok, digit_value, isdigit, in_range, decimal_digit in *.
  destruct (Z.leb_spec 48 c); [|lia]. destruct (Z.leb_spec c 57); [|lia]. cbn.
  split; [|done]. exists (c - 48). split; [done|lia].
Qed.

Lemma before_nul_id s : Forall (λ c, c ≠ 0) s → before_nul s = s.
Proof.
  induction 1 as [|c s Hc Hs IH]; cbn; [done|]. destruct (Z.eqb_spec c 0); [lia|]. by rewrite IH.
Qed.

(** What follows a number and is not part of it. *)
Definition stops (base : Z) (junk : bytes) : Prop :=
  match junk with c :: _ => ¬ digit_ok base c | [] => True end.

Lemma scan_digits_stop base s junk acc n : Forall (digit_ok base) s → stops base junk →
  scan_digits base (s ++ junk) acc n = scan_digits base s acc n.
Proof.
  intros Hs Hj. revert acc n. induction Hs as [|c s (d & Hd & Hlt) Hs IH]; intros acc n; cbn [scan_digits app].
  - destruct junk as [|c junk]; [done|]. cbn in *. destruct (digit_value c) as [d|] eqn:E; [|done].
    destruct (Z.ltb_spec d base); [|done]. destruct Hj. by exists d.
  - rewrite Hd. destruct (Z.ltb_spec d base); [|lia]. apply IH.
Qed.

Lemma skip_spaces_no c s : isspace c = false → skip_spaces (c :: s) = 0%nat.
Proof. intros Hc. cbn. by rewrite Hc. Qed.

Lemma graph_not_space c : 33 <= c → isspace c = false.
Proof. intros. unfold isspace, in_range. norm_chars. repeat case_ztest; try lia; done. Qed.

Definition minus_sign (neg : bool) : bytes := if neg then [45] else [].
Definition apply_sign (neg : bool) (v : Z) : Z := if neg then - v else v.

Definition base_of (base : Z) (s : bytes) : Z :=
  if base =? 0 then match s with c :: _ => if c =? 48 then 8 else 10 | [] => 10 end else base.

(** Decimal text with an optional minus: the digits up to the junk. *)
Lemma scan_number_digits base neg s junk : Forall (digit_ok (base_of base s)) s → s ≠ [] →
  Forall (λ c, 48 <= c) s → stops (base_of base s) junk →
  (((base =? 0) || (base =? 16)) && hex_prefix (s ++ junk))%bool = false →
  scan_number (minus_sign neg ++ s ++ junk) base =
    (neg, digits_value (base_of base s) s, length (minus_sign neg) + length s)%nat.
Proof.
  intros Hs Hne Hge Hj Hx. destruct s as [|c s]; [done|]. unfold scan_number.
  assert (Hc : 48 <= c) by (by apply Forall_cons in Hge as [? _]).
  assert (Hws : skip_spaces (minus_sign neg ++ (c :: s) ++ junk) = 0%nat).
  { destruct neg; [done|]. apply skip_spaces_no, graph_not_space. lia. }
  rewrite Hws, drop_0. cbn zeta.
  assert (Hsg : match minus_sign neg ++ (c :: s) ++ junk with
      | c :: _ => if c =? 45 then (true, 1%nat) else if c =? 43 then (false, 1%nat) else (false, 0%nat)
      | [] => (false, 0%nat) end = (neg, length (minus_sign neg))).
  { destruct neg; [done|]. cbn. destruct (Z.eqb_spec c 45); [lia|]. destruct (Z.eqb_spec c 43); [lia|done]. }
  rewrite Hsg, drop_app_length, Hx. fold (base_of base ((c :: s) ++ junk)).
  assert (Hb : (if base =? 0 then (match (c :: s) ++ junk with c :: _ => if c =? 48 then 8 else 10 | [] => 10 end, 0%nat)
    else (base, 0%nat)) = (base_of base (c :: s), 0%nat)).
  { unfold base_of. by destruct (base =? 0). }
  rewrite Hb, drop_0, scan_digits_stop, scan_digits_all by done. cbn [length Nat.add Nat.eqb].
  rewrite Z.mul_0_l, Z.add_0_l. by rewrite Nat.add_0_r.
Qed.

(** *** Ranges of the C library and of the types *)

Lemma strtol_range s base : let '(x, _, _) := strtol s base in - 2 ^ 63 <= x < 2 ^ 63.
Proof.
  unfold strtol. destruct (scan_number s base) as [[neg v] n]. repeat case_ztest; lia.
Qed.

Lemma digit_value_nonneg c d : digit_value c = Some d → 0 <= d.
Proof.
  unfold digit_value, isdigit, islower, isupper, in_range.
  destruct (Z.leb_spec 48 c); cbn; [|by repeat case_ztest; intros [=]; lia].
  repeat (case_ztest; cbn); intros [=]; lia.
Qed.

Lemma scan_digits_nonneg base s acc n v m :
  scan_digits base s acc n = (v, m) → 0 <= acc → 0 <= base → 0 <= v.
Proof.
  revert acc n. induction s as [|c s IH]; intros acc n E Ha Hb; cbn in E; [by simplify_eq|].
  destruct (digit_value c) as [d|] eqn:Ed; [|by simplify_eq]. apply digit_value_nonneg in Ed.
  destruct (d <? base); [|by simplify_eq]. apply (IH _ _ E); nia.
Qed.

Lemma scan_number_nonneg s base neg v n : scan_number s base = (neg, v, n) → 0 <= base → 0 <= v.
Proof.
  unfold scan_number. intros E Hb. repeat case_match; simplify_eq; try done;
    eapply scan_digits_nonneg; (done || lia).
Qed.

Lemma strtoul_range s base : 0 <= base → let '(x, _, _) := strtoul s base in 0 <= x < 2 ^ 64.
Proof.
  intros Hb. unfold strtoul. destruct (scan_number s base) as [[neg v] n] eqn:E.
  apply scan_number_nonneg in E; [|done].
  destruct (Z.leb_spec (2 ^ 64) v); [lia|]. destruct neg; [apply Z.mod_pos_bound; lia|lia].
Qed.

#[export] Instance fits_in_dec t n : Decision (fits_in t n).
Proof. unfold fits_in. apply _. Defined.

(** A signed number, or an unsigned one without a sign, converts when it is
    in range and nothing follows it. *)
Lemma ParseNumberT_text t base neg ds junk : overloaded t → (neg = true → signed t = true) →
  Forall (digit_ok (base_of base ds)) ds → ds ≠ [] → Forall (λ c, 48 <= c) ds →
  stops (base_of base ds) junk → (((base =? 0) || (base =? 16)) && hex_prefix (ds ++ junk))%bool = false →
  let v := digits_value (base_of base ds) ds in 0 <= v →
  ParseNumberT t (minus_sign neg ++ ds ++ junk) base =
    (if decide (fits_in t (apply_sign neg v)) then Some (apply_sign neg v) else None,
     length (minus_sign neg) + length ds)%nat.
Proof.
  intros Ht Hneg Hd Hne Hge Hst Hx v Hv. unfold ParseNumberT, strtol, strtoul.
  rewrite !scan_number_digits by done. fold v.
  assert (Hn : (length (minus_sign neg) + length ds)%nat ≠ 0%nat) by (destruct ds; [done|cbn; lia]).
  unfold fits_in, min_value, max_value, overloaded in *. destruct t as [sg b]; cbn [signed bits] in *.
  unfold apply_sign. set (n := (length (minus_sign neg) + length ds)%nat) in *. clearbody n v.
  destruct sg; [|destruct neg; [by specialize (Hneg eq_refl)|]].
  - destruct Ht as [-> | ->]; cbn [Z.ltb Z.compare Pos.compare Pos.compare_cont]; destruct (decide _);
      repeat case_ztest; cbn; try lia; done.
  - destruct Ht as [-> | ->]; cbn [Z.ltb Z.compare Pos.compare Pos.compare_cont]; destruct (decide _);
      repeat case_ztest; cbn; try lia; done.
Qed.

Lemma hex_prefix_digits s : Forall decimal_digit s → hex_prefix s = false.
Proof.
  intros Hs. destruct s as [|a [|b [|c s]]]; try done. cbn.
  apply Forall_cons in Hs as [_ Hs]. apply Forall_cons in Hs as [Hb _]. unfold decimal_digit in Hb.
  destruct (Z.eqb_spec b 120); [lia|]. destruct (Z.eqb_spec b 88); [lia|]. by rewrite andb_false_r.
Qed.

Lemma decimal_digits_graph s : Forall decimal_digit s → Forall (λ c, 48 <= c) s ∧ Forall (λ c, c ≠ 0) s ∧
  Forall (digit_ok 10) s.
Proof.
  intros Hs. split_and!; (eapply Forall_impl; [exact Hs|]); intros c Hc.
  - apply Hc.
  - unfold decimal_digit in Hc. lia.
  - by apply decimal_digit_ok.
Qed.

Lemma digits_value_nonneg base s : 0 <= base → 0 <= digits_value base s.
Proof.
  intros Hb. unfold digits_value.
  enough (H : ∀ acc, 0 <= acc → 0 <= fold_left (λ acc c, acc * base + default 0 (digit_value c)) s acc) by (by apply H).
  induction s as [|c s IH]; intros acc Ha; cbn; [done|]. apply IH.
  destruct (digit_value c) as [d|] eqn:E; cbn; [apply digit_value_nonneg in E|]; nia.
Qed.

Lemma sign_nonzero neg s : Forall (λ c, c ≠ 0) s → Forall (λ c, c ≠ 0) (minus_sign neg ++ s).
Proof. intros. by destruct neg; cbn; [constructor|]. Qed.

(** On decimal text, an optional minus and digits, [StringToNumber] in
    base 10 succeeds with the number's value exactly when the value fits in
    the type and the text ends after the digits; every other such text is
    refused, and nothing wraps. *)
Theorem StringToNumber_text t neg ds junk :
  overloaded t → (neg = true → signed t = true) → ds ≠ [] → Forall decimal_digit ds →
  Forall (λ c, c ≠ 0) junk → stops 10 junk →
  let v := apply_sign neg (digits_value 10 ds) in
  StringToNumber_base t (minus_sign neg ++ ds ++ junk) 10 =
    if decide (junk = [] ∧ fits_in t v) then Some v else None.
Proof.
  intros Ht Hneg Hne Hd Hz Hst v. destruct (decimal_digits_graph ds Hd) as (Hge & Hnz & Hok).
  unfold StringToNumber_base. rewrite before_nul_id by (apply sign_nonzero, Forall_app; done).
  rewrite ParseNumberT_text by (first [done | by apply digits_value_nonneg]).
  change (base_of 10 ds) with 10. fold v. rewrite !length_app.
  destruct junk as [|j junk]; cbn [length].
  - rewrite Nat.add_0_r, Nat.eqb_refl. destruct (decide (fits_in t v)); by repeat case_decide; naive_solver.
  - destruct (Nat.eqb_spec (length (minus_sign neg) + length ds)%nat
      (length (minus_sign neg) + (length ds + S (length junk)))%nat); [lia|]. by rewrite decide_False by naive_solver.
Qed.

Lemma StringToNumber_text_witness :
  StringToNumber_base t_int (str "-2147483648") 10 = Some (- 2147483648) ∧
  StringToNumber_base t_int (str "2147483648") 10 = None ∧
  StringToNumber_base t_ulong (str "12 ") 10 = None.
Proof.
  split; [|split].
  - etransitivity; [apply (StringToNumber_text t_int true (str "2147483648") [])|]; [by left|done|done| |done|done|].
    + repeat constructor; vm_compute; done.
    + vm_compute; reflexivity.
  - etransitivity; [apply (StringToNumber_text t_int false (str "2147483648") [])|]; [by left|done|done| |done|done|].
    + repeat constructor; vm_compute; done.
    + vm_compute; reflexivity.
  - etransitivity; [apply (StringToNumber_text t_ulong false (str "12") (str " "))|]; [by right|done|done| | | |].
    + repeat constructor; vm_compute; done.
    + repeat constructor; vm_compute; done.
    + cbn. intros (d & Hd & _). vm_compute in Hd. done.
    + vm_compute; reflexivity.
Defined.

(** ** The round trip *)

Lemma signed_decimal_sign n : signed_decimal n = minus_sign (n <? 0) ++ decimal (Z.abs n).
Proof.
  unfold signed_decimal. destruct (Z.ltb_spec n 0); cbn [minus_sign app].
  - by rewrite Z.abs_neq by lia.
  - by rewrite Z.abs_eq by lia.
Qed.

Lemma fits_in_limit t n : overloaded t → fits_in t n → Z.abs n < limit ∧ (n < 0 → signed t = true).
Proof.
  unfold overloaded, fits_in, min_value, max_value, limit. destruct t as [[] b]; cbn;
    intros [-> | ->]; cbn [Z.sub Z.add Z.opp Z.pos_sub Pos.pred_double]; intros; split; try done; lia.
Qed.

(** What was written is read back in base 10, found from the prefix. *)
Lemma StringToNumber_decimal t n : overloaded t → fits_in t n →
  ParseNumberT t (before_nul (signed_decimal n)) 0 = (Some n, length (signed_decimal n)) ∧
  StringToNumber t (signed_decimal n) = Some n.
Proof.
  intros Ht Hn. destruct (fits_in_limit t n Ht Hn) as [Hl Hsg].
  rewrite signed_decimal_sign.
  destruct (decimal_facts (Z.abs n)) as (Hok & Hv & Hne & Hr & Hlead); [lia|].
  destruct (decimal_digits_graph _ Hr) as (Hge & Hnz & _).
  assert (Hb : Forall (digit_ok (base_of 0 (decimal (Z.abs n)))) (decimal (Z.abs n)) ∧
    digits_value (base_of 0 (decimal (Z.abs n))) (decimal (Z.abs n)) = Z.abs n).
  { destruct (Z.eq_dec n 0) as [-> | H0].
    - split; [|by vm_compute]. repeat constructor. exists 0. by vm_compute.
    - destruct Hlead as (c & s & Es & Hc); [lia|]. unfold base_of. rewrite Es at 1 3. cbn [Z.eqb].
      destruct (Z.eqb_spec c 48); [lia|]. done. }
  destruct Hb as [Hb Hbv]. unfold StringToNumber, StringToNumber_base. rewrite before_nul_id by by apply sign_nonzero.
  pose proof (ParseNumberT_text t 0 (n <? 0) (decimal (Z.abs n)) [] Ht) as P. rewrite app_nil_r, Hbv in P.
  rewrite P; [|intros ?%Z.ltb_lt; auto|done|done|done|done|by rewrite hex_prefix_digits|lia].
  assert (Ha : apply_sign (n <? 0) (Z.abs n) = n) by (unfold apply_sign; destruct (Z.ltb_spec n 0); lia).
  rewrite Ha, decide_True by done. split; [by rewrite length_app|]. by rewrite length_app, Nat.eqb_refl.
Qed.

(** [NumberToString] writes the sign and the decimal digits without
    leading zeros, within the size the header promises, and
    [StringToNumber] reads every number of the type back. *)
Theorem NumberToString_roundtrip t n : overloaded t → fits_in t n →
  NumberToString t n = signed_decimal n ∧
  (length (IntegerToString_buffer t n) <= kMaxIntegerStringSize)%nat ∧
  StringToNumber t (NumberToString t n) = Some n.
Proof.
  intros Ht Hn. destruct (fits_in_limit t n Ht Hn) as [Hl Hsg].
  assert (E : NumberToString t n = signed_decimal n) by apply (OutputIntegerAsString_eq t n [] Ht Hn).
  split; [done|]. split.
  { unfold IntegerToString_buffer. rewrite OutputIntegerAsString_eq by done. cbn [app].
    rewrite signed_decimal_sign, !length_app. pose proof (decimal_length (Z.abs n)).
    unfold kMaxIntegerStringSize. destruct (n <? 0); cbn [minus_sign length]; lia. }
  rewrite E. by apply StringToNumber_decimal.
Qed.

Lemma NumberToString_roundtrip_witness :
  NumberToString t_long (- 9223372036854775808) = str "-9223372036854775808" ∧
  StringToNumber t_long (str "-9223372036854775808") = Some (- 9223372036854775808).
Proof.
  destruct (NumberToString_roundtrip t_long (- 9223372036854775808)) as (E & _ & R); [by right|by vm_compute|].
  split; [by rewrite E; vm_compute|]. etransitivity; [|exact R]. by rewrite E.
Defined.

(** ** Hexadecimal *)

(** The digits of the reference: [k] of them, most significant first. *)
Fixpoint hex_digits (k : nat) (v : Z) : bytes :=
  match k with
  | O => []
  | S k => hex_digits k (v / 16) ++ [default 0 (hexdigits !! Z.to_nat (v mod 16))]
  end.

Lemma hex_digits_length k v : length (hex_digits k v) = k.
Proof. revert v. induction k as [|k IH]; intros v; cbn; [done|]. rewrite length_app, IH. cbn. lia. Qed.

Lemma low_nibble v : 0 <= v → Z.land (u32 v) 15 = v mod 16.
Proof.
  intros Hv. change 15 with (Z.ones 4). rewrite Z.land_ones by lia. unfold u32.
  change (2 ^ 32) with (2 ^ 4 * 2 ^ 28). rewrite Z.rem_mul_r by lia.
  change (2 ^ 4) with 16. rewrite (Z.mul_comm 16 (_ mod _)), Z.mod_add by lia. by rewrite Z.mod_mod by lia.
Qed.

Lemma hex_loop_spec i v pre post : 0 <= v → length pre = i →
  hex_loop i v (pre ++ post) = hex_digits i v ++ post.
Proof.
  revert v pre post. induction i as [|i IH]; intros v pre post Hv Hl; cbn [hex_loop hex_digits].
  { by destruct pre. }
  destruct (exists_last (l := pre)) as (pre' & x & ->); [by destruct pre|].
  rewrite length_app in Hl. cbn in Hl. assert (Hi : i = length pre') by lia. subst i.
  rewrite <- (assoc_L (++)), insert_app_r_alt, Nat.sub_diag by lia. cbn [app insert list_insert].
  rewrite IH by (try done; apply Z.shiftr_nonneg; done).
  rewrite low_nibble by done. by rewrite Z.shiftr_div_pow2, <- (assoc_L (++)) by lia.
Qed.

Lemma UIntToHexBufferInternal_eq v k : 0 <= v → UIntToHexBufferInternal v k = hex_digits (2 * k) v.
Proof.
  intros Hv. unfold UIntToHexBufferInternal. pose proof (hex_loop_spec (2 * k) v (replicate (2 * k) 0) []) as E.
  rewrite !app_nil_r in E. apply E; [done|]. apply length_replicate.
Qed.

Lemma hexdigit_facts d : 0 <= d < 16 → let c := default 0 (hexdigits !! Z.to_nat d) in
  digit_value c = Some d ∧ 48 <= c ∧ c ≠ 120 ∧ c ≠ 88.
Proof.
  intros Hd c. assert (H : forallb (λ d, let c := default 0 (hexdigits !! Z.to_nat d) in
    bool_decide (digit_value c = Some d ∧ 48 <= c ∧ c ≠ 120 ∧ c ≠ 88)) (seqZ 0 16) = true) by (vm_compute; reflexivity).
  rewrite forallb_forall in H. specialize (H d). rewrite bool_decide_eq_true in H. apply H.
  apply list_elem_of_In, elem_of_seqZ. lia.
Qed.

Lemma hex_digits_facts k v : 0 <= v →
  Forall (digit_ok 16) (hex_digits k v) ∧ digits_value 16 (hex_digits k v) = v mod 16 ^ Z.of_nat k ∧
  Forall (λ c, 48 <= c ∧ c ≠ 120 ∧ c ≠ 88) (hex_digits k v).
Proof.
  revert v. induction k as [|k IH]; intros v Hv; cbn [hex_digits].
  { cbn [Z.of_nat]. rewrite Z.pow_0_r, Z.mod_1_r. split_and!; [constructor|done|constructor]. }
  pose proof (Z.mod_pos_bound v 16) as Hm.
  destruct (hexdigit_facts (v mod 16)) as (Hd & Hc); [lia|].
  destruct (IH (v / 16)) as (H1 & H2 & H3); [by apply Z.div_pos|]. split_and!.
  - apply Forall_app. split; [done|]. repeat constructor. exists (v mod 16). split; [done|lia].
  - rewrite digits_value_snoc, H2, Hd. cbn [default from_option id].
    rewrite Nat2Z.inj_succ, Z.pow_succ_r by lia. rewrite Z.rem_mul_r by lia. lia.
  - apply Forall_app. split; [done|]. by apply Forall_singleton.
Qed.

Lemma hex_reads_back k v : (0 < k <= 16)%nat → 0 <= v < 16 ^ Z.of_nat k →
  StringToNumber_base t_ulong (hex_digits k v) 16 = Some v.
Proof.
  intros Hk Hv. destruct (hex_digits_facts k v) as (Hok & Hval & Hr); [lia|]. rewrite Z.mod_small in Hval by done.
  pose proof (hex_digits_length k v) as Hlen. set (s := hex_digits k v) in *. clearbody s.
  assert (Hge : Forall (λ c, 48 <= c) s) by (eapply Forall_impl; [exact Hr|]; naive_solver).
  unfold StringToNumber_base. rewrite before_nul_id by (eapply Forall_impl; [exact Hge|]; intros; cbn in *; lia).
  assert (Hx : hex_prefix s = false).
  { destruct s as [|a [|b [|c s]]]; try done. cbn. apply Forall_cons in Hr as [_ Hr]. apply Forall_cons in Hr as [Hb _].
    destruct (Z.eqb_spec b 120); [lia|]. destruct (Z.eqb_spec b 88); [lia|]. by rewrite andb_false_r. }
  pose proof (ParseNumberT_text t_ulong 16 false s []) as P.
  cbn [minus_sign app length Nat.add] in P. rewrite app_nil_r in P. change (base_of 16 s) with 16 in P.
  rewrite Hval in P. rewrite P; [|by right|done|done|by destruct s; [cbn in Hlen; lia|]|done|done|done|lia].
  rewrite Nat.eqb_refl. cbn [apply_sign]. rewrite decide_True; [done|].
  assert (16 ^ Z.of_nat k <= 16 ^ 16) by (apply Z.pow_le_mono_r; lia).
  unfold fits_in, min_value, max_value. cbn. change (16 ^ 16) with (2 ^ 64) in *. lia.
Qed.

(** The hexadecimal writers give two digits for each byte of the type,
    leading zeros kept, and [StringToNumber] in base 16 reads the value
    back. *)
Theorem UIntToHexString_roundtrip v :
  (0 <= v < 2 ^ 16 → length (UInt16ToHexString v) = 4%nat ∧ StringToNumber_base t_ulong (UInt16ToHexString v) 16 = Some v) ∧
  (0 <= v < 2 ^ 32 → length (UInt32ToHexString v) = 8%nat ∧ StringToNumber_base t_ulong (UInt32ToHexString v) 16 = Some v) ∧
  (0 <= v < 2 ^ 64 → length (UInt64ToHexString v) = 16%nat ∧ StringToNumber_base t_ulong (UInt64ToHexString v) 16 = Some v).
Proof.
  unfold UInt16ToHexString, UInt32ToHexString, UInt64ToHexString.
  split_and!; intros Hv; rewrite UIntToHexBufferInternal_eq, hex_digits_length by lia;
    (split; [done|]; apply hex_reads_back; [lia|exact Hv]).
Qed.

Lemma UIntToHexString_roundtrip_witness :
  StringToNumber_base t_ulong (UInt32ToHexString 3735928559) 16 = Some 3735928559 ∧
  UInt16ToHexString 255 = str "00ff".
Proof.
  split; [|by vm_compute]. apply (UIntToHexString_roundtrip 3735928559). lia.
Defined.


