(* ===== verification/InMemory.v ===== *)
(** * The table reader in memory

    Model of storage/sstable/reader/in_memory_sstable_reader: [Init] reads
    every block into a vector of keys with their values, and the iterator
    walks that vector.  [None] is undefined behaviour, a failed CHECK or an
    exception, as in [SSTableReader]. *)

From Stdlib Require Import Sorting.Sorted.
From S2P Require Import Prelude Varint Coding StdString HFile HFileFacts LruCache SSTableWriter SSTableWriterFacts SSTableReader SSTableReaderFacts SSTable.

Abbreviation DataVector := (list (bytes * list bytes)).

Section InMemory.
Context {M : Machine}.

(** ** class InMemorySSTableReader *)

(** [index_] maps a key to an iterator of [data_], a position here. *)
Record InMemory := mkInMemory { im_impl : Impl; index_ : list (bytes * nat); data_ : DataVector }.

(** The locals of [Init]: [ori_key], [values] and [data_]. *)
Abbreviation init_state := (bytes * list bytes * DataVector)%type.

(** One item; [first] when it is item 0 of block 0. *)
Definition Init_item (first : bool) (e : bytes * bytes) (st : init_state) : init_state :=
  let '(ori_key, values, data) := st in
  let ori_key := if first then e.1 else ori_key in
  let '(ori_key, values, data) :=
    if negb (bool_decide (e.1 = ori_key)) then (e.1, [], data ++ [(ori_key, values)])
    else (ori_key, values, data) in
  (ori_key, values ++ [e.2], data).

Fixpoint Init_items (first : bool) (items : list (bytes * bytes)) (st : init_state) : init_state :=
  match items with
  | [] => st
  | e :: items => Init_items false items (Init_item first e st)
  end.

(** [n] blocks from [block_id] on.  The result of [LoadDataBlock] is ignored:
    the block then still holds what it held before. *)
Fixpoint Init_blocks (n : nat) (block_id : Z) (block : DataBlock) (im : Impl) (st : init_state) :
    option (init_state * Impl) :=
  match n with
  | O => Some (st, im)
  | S n =>
      '((_, block), im) ← LoadDataBlock block_id block im;
      Init_blocks n (block_id + 1) block im (Init_items (block_id =? 0) (data_items block) st)
  end.

Fixpoint make_index (pos : nat) (data : DataVector) (index : list (bytes * nat)) : list (bytes * nat) :=
  match data with
  | [] => index
  | x :: data => make_index (S pos) data (map_insert x.1 pos index)
  end.

Definition Init (snap : option BlockCompression) (im : Impl) : option InMemory :=
  block ← new_DataBlock snap (compress_type (file_trailer im));
  '((ori_key, values, data), im) ←
    Init_blocks (Z.to_nat (data_index_count (file_trailer im))) 0 block im ([], [], []);
  let data := data ++ [(ori_key, values)] in
  Some (mkInMemory im (make_index 0 data []) data).

(** [SSTableReader::Open] in IN_MEMORY mode. *)
Definition Open_in_memory (snap : option BlockCompression) (content : bytes) : option (option InMemory) :=
  im ← LoadFile content;
  match im with None => Some None | Some im => r ← Init snap im; Some (Some r) end.

(** ** class InMemoryIterator *)

(** [cur_it_], [pos_] and [size_] are not initialised before [SeekKey] finds
    something. *)
Record InMemoryIterator := mkMemIter {
  mi_key : bytes;
  mi_value : bytes;
  mi_valid : bool;
  mi_cur : option (nat * Z * Z)
}.

(** The binary search on [unsigned int] positions; the last position probed.
    Every probe halves the interval, so the number of keys plus one is fuel
    enough when the keys are sorted. *)
Fixpoint mem_search (fuel : nat) (data : DataVector) (key : bytes) (lo hi mid : Z) : option Z :=
  match fuel with
  | O => None
  | S fuel =>
      if lo <=? hi then
        let mid := u32 (lo + hi) ÷ 2 in
        midPair ← data !! Z.to_nat mid;
        if bool_decide (midPair.1 = key) then Some mid
        else if str_lt midPair.1 key then mem_search fuel data key (u32 (mid + 1)) hi mid
        else mem_search fuel data key lo (u32 (mid - 1)) mid
      else Some mid
  end.

Definition mem_SeekKey (key : bytes) (r : InMemory) (it : InMemoryIterator) : option InMemoryIterator :=
  first ← head (data_ r);
  back ← last (data_ r);
  let at_pos p :=
    x ← data_ r !! p;
    Some (mkMemIter (mi_key it) (mi_value it) true (Some (p, 0, Z.of_nat (length x.2)))) in
  match map_find key (index_ r) with
  | Some p => at_pos p
  | None =>
      if str_lt key first.1 then at_pos 0%nat
      else if str_lt back.1 key then Some (mkMemIter (mi_key it) (mi_value it) false (mi_cur it))
      else
        mid ← mem_search (S (length (data_ r))) (data_ r) key 0
                (u32 (u32 (Z.of_nat (length (data_ r))) - 1)) 0;
        at_pos (Z.to_nat mid)
  end.

(** [second.at(pos_)] throws when there is no such value. *)
Definition mem_LoadItem (r : InMemory) (it : InMemoryIterator) : option InMemoryIterator :=
  '(p, pos, size) ← mi_cur it;
  x ← data_ r !! p;
  v ← (if pos <? 0 then None else x.2 !! Z.to_nat pos);
  Some (mkMemIter x.1 v (mi_valid it) (mi_cur it)).

(** Incrementing an iterator at the end is undefined. *)
Definition mem_NextItem (r : InMemory) (it : InMemoryIterator) : option (bool * InMemoryIterator) :=
  '(p, pos, size) ← mi_cur it;
  if pos <? size - 1 then
    Some (true, mkMemIter (mi_key it) (mi_value it) true (Some (p, pos + 1, size)))
  else if (length (data_ r) <=? p)%nat then None
  else match data_ r !! S p with
       | Some x => Some (true, mkMemIter (mi_key it) (mi_value it) true
                                 (Some (S p, 0, Z.of_nat (length x.2))))
       | None => Some (false, mkMemIter (mi_key it) (mi_value it) false (Some (S p, pos, size)))
       end.

(** The constructor. *)
Definition mem_Seek (key : bytes) (r : InMemory) : option InMemoryIterator :=
  it ← mem_SeekKey key r (mkMemIter [] [] false None);
  if mi_valid it then mem_LoadItem r it else Some it.

Definition mem_Next (r : InMemory) (it : InMemoryIterator) : option InMemoryIterator :=
  '(_, it) ← mem_NextItem r it;
  if mi_valid it then mem_LoadItem r it else Some it.

Definition mem_Lookup (key : bytes) (r : InMemory) : option (option bytes) :=
  it ← mem_Seek key r;
  Some (if bool_decide (mi_key it = key) then Some (mi_value it) else None).

(** [for (; it->Valid(); it->Next())] *)
Fixpoint mem_collect (fuel : nat) (r : InMemory) (it : InMemoryIterator) : option (list (bytes * bytes)) :=
  if mi_valid it then
    match fuel with
    | O => None
    | S fuel => it' ← mem_Next r it; l ← mem_collect fuel r it'; Some ((mi_key it, mi_value it) :: l)
    end
  else Some [].

(** ** What Init reads *)

(** The entries a vector of keys with values stands for. *)
Definition expand (data : DataVector) : list entry := data ≫= λ x, (λ v, (x.1, v)) <$> x.2.

Lemma expand_app a b : expand (a ++ b) = expand a ++ expand b.
Proof. unfold expand. by rewrite bind_app. Qed.

Lemma expand_one k vs : expand [(k, vs)] = (λ v, (k, v)) <$> vs.
Proof. unfold expand. cbn. by rewrite app_nil_r. Qed.

(** The state of [Init] after the entries [l]: the groups of [data] and the
    one being collected. *)
Record grouped (st : init_state) (l : list entry) : Prop := {
  gr_entries : expand (st.2 ++ [(st.1.1, st.1.2)]) = l;
  gr_values : l ≠ [] → Forall (λ x, x.2 ≠ []) (st.2 ++ [(st.1.1, st.1.2)]);
  gr_keys : ∀ i x y, (st.2 ++ [(st.1.1, st.1.2)]) !! i = Some x →
    (st.2 ++ [(st.1.1, st.1.2)]) !! S i = Some y → x.1 ≠ y.1;
  gr_start : l = [] → st.2 = [] ∧ st.1.2 = []
}.

Lemma Init_item_grouped st l e : grouped st l →
  grouped (Init_item (bool_decide (l = [])) e st) (l ++ [e]).
Proof.
  destruct st as [[k vs] data]. intros [He Hv Hk Hs]. cbn [fst snd] in *. unfold Init_item.
  destruct (decide (l = [])) as [Hl|Hl];
    [rewrite (bool_decide_eq_true_2 (l = [])) by done|rewrite (bool_decide_eq_false_2 (l = [])) by done].
  - destruct (Hs Hl) as [-> ->]. subst l. rewrite bool_decide_eq_true_2 by done. cbn [negb app].
    split; cbn; [by destruct e|repeat constructor; done| |by intros].
    intros [|i] x y Hi Hj; [done|]. by destruct i.
  - specialize (Hv Hl). destruct (decide (e.1 = k)) as [Ek|Ek];
      [rewrite bool_decide_eq_true_2 by done|rewrite bool_decide_eq_false_2 by done]; cbn [negb].
    + subst k. split; cbn [fst snd].
      * rewrite <- He, !expand_app, !expand_one, fmap_app, (assoc_L (++)). by destruct e.
      * intros _. apply Forall_app in Hv as [Hv _]. apply Forall_app. split; [done|].
        repeat constructor. by destruct vs.
      * intros i x y Hi Hj.
        assert (Hsame : ∀ j z, (data ++ [(e.1, vs ++ [e.2])]) !! j = Some z →
          ∃ z', (data ++ [(e.1, vs)]) !! j = Some z' ∧ z'.1 = z.1).
        { intros j z [Hz|[Hge Hz]]%lookup_app_Some.
          - exists z. split; [by apply lookup_app_l_Some|done].
          - destruct (j - length data)%nat eqn:Ej; [|by destruct n]. injection Hz as <-. exists (e.1, vs). split; [|done].
            rewrite lookup_app_r by lia. by rewrite Ej. }
        destruct (Hsame _ _ Hi) as (x' & Hx' & <-). destruct (Hsame _ _ Hj) as (y' & Hy' & <-).
        by apply (Hk i).
      * intros E. by destruct l.
    + split; cbn [fst snd].
      * rewrite expand_app, He, expand_one. cbn. by destruct e.
      * intros _. apply Forall_app. split; [done|]. by repeat constructor.
      * intros i x y Hi Hj. set (d := data ++ [(k, vs)]) in *.
        apply lookup_app_Some in Hj as [Hj|[Hge Hj]].
        -- apply (Hk i); [|done]. apply lookup_app_Some in Hi as [Hi|[Hge _]]; [done|].
           apply lookup_lt_Some in Hj. lia.
        -- destruct (S i - length d)%nat eqn:Ej; [|by destruct n]. injection Hj as <-. cbn.
           assert (i = length data) as ->. { unfold d in *. rewrite length_app in *. cbn in *. lia. }
           rewrite lookup_app_l in Hi by (unfold d; rewrite length_app; cbn; lia).
           unfold d in Hi. rewrite list_lookup_middle in Hi by done. injection Hi as <-. cbn. congruence.
      * intros E. by destruct l.
Qed.

Lemma Init_items_grouped items st l : grouped st l →
  grouped (Init_items (bool_decide (l = [])) items st) (l ++ items).
Proof.
  revert st l. induction items as [|e items IH]; intros st l Hg; cbn [Init_items]; [by rewrite app_nil_r|].
  rewrite cons_middle, (assoc_L (++)). apply Init_item_grouped with (e := e) in Hg. apply IH in Hg.
  rewrite bool_decide_eq_false_2 in Hg by (by destruct l). done.
Qed.


(** ** Keys in order *)

Lemma expand_cons x data : expand (x :: data) = ((λ v, (x.1, v)) <$> x.2) ++ expand data.
Proof. done. Qed.

Lemma expand_key_in e data : e ∈ expand data → ∃ x, x ∈ data ∧ x.1 = e.1.
Proof.
  unfold expand. intros (x & He & Hx)%list_elem_of_bind. exists x. split; [done|].
  by apply list_elem_of_fmap in He as (v & -> & _).
Qed.

Lemma sorted_tail (a b : list entry) : StronglySorted key_le (a ++ b) → StronglySorted key_le b.
Proof. induction a as [|x a IH]; [done|]. intros [Hs _]%StronglySorted_inv. auto. Qed.

Lemma groups_sorted data : StronglySorted key_le (expand data) → Forall (λ x, x.2 ≠ []) data →
  (∀ i x y, data !! i = Some x → data !! S i = Some y → x.1 ≠ y.1) →
  StronglySorted map_key_lt data.
Proof.
  induction data as [|[k vs] data IH]; intros Hs Hv Hk; [constructor|].
  apply Forall_cons in Hv as [Hvs Hv]. rewrite expand_cons in Hs.
  assert (Hsort : StronglySorted map_key_lt data).
  { apply IH; [by apply sorted_tail in Hs|done|]. intros i x y. apply (Hk (S i)). }
  constructor; [done|]. destruct data as [|[k' vs'] data]; [constructor|].
  assert (Hkk : str_lt k k' = true).
  { destruct (str_lt k k') eqn:E; [done|]. exfalso. apply (Hk 0%nat (k, vs) (k', vs')); [done..|]. cbn.
    apply str_lt_total; [done|]. apply Forall_cons in Hv as [Hvs' _]. cbn in Hvs, Hvs'.
    destruct vs as [|v vs]; [done|]. destruct vs' as [|v' vs']; [done|].
    apply (sorted_app _ _ (k, v) (k', v') Hs); [by left|by left]. }
  constructor; [done|]. apply StronglySorted_inv in Hsort as [_ Hf].
  eapply Forall_impl; [exact Hf|]. intros y Hy. by apply (str_lt_trans _ k').
Qed.

Lemma map_key_lt_lookup (data : DataVector) i j x y : StronglySorted map_key_lt data → (i < j)%nat →
  data !! i = Some x → data !! j = Some y → str_lt x.1 y.1 = true.
Proof.
  intros Hs. revert i j. induction Hs as [|z data Hs IH Hz]; intros i j Hij Hi Hj; [done|].
  destruct j as [|j]; [lia|]. destruct i as [|i]; cbn in Hi, Hj.
  - injection Hi as ->. rewrite Forall_forall in Hz. apply Hz. by apply list_elem_of_lookup_2 in Hj.
  - apply (IH i j); [lia|done..].
Qed.

(** The groups below [c] are before the key, the others are not. *)
Definition cut_at (key : bytes) (c : nat) (data : DataVector) : Prop :=
  (∀ i x, (i < c)%nat → data !! i = Some x → str_lt x.1 key = true) ∧
  (∀ i x, (c <= i)%nat → data !! i = Some x → str_lt x.1 key = false).

Lemma cut_from_key key c data : cut_at key c data → from_key key (expand data) = expand (drop c data).
Proof.
  intros [Hb Ha]. rewrite <- (take_drop c data) at 1. rewrite expand_app, from_key_app.
  - destruct (expand (drop c data)) as [|e k] eqn:E; [done|]. cbn [from_key].
    destruct (expand_key_in e (drop c data)) as (x & Hx & <-); [rewrite E; by left|].
    apply list_elem_of_lookup in Hx as [i Hi]. rewrite lookup_drop in Hi. by rewrite (Ha (c + i)%nat x) by (done || lia).
  - apply Forall_forall. intros e He. apply expand_key_in in He as (x & Hx & <-).
    apply list_elem_of_lookup in Hx as [i [Hi Hlt]%lookup_take_Some]. by apply (Hb i).
Qed.

(** ** The index *)

Lemma make_index_find key pos data index : StronglySorted map_key_lt index →
  map_find key (make_index pos data index) =
  match map_find key index with
  | Some p => Some p
  | None => (λ y, (pos + y.1)%nat) <$> list_find (λ x, x.1 = key) data
  end.
Proof.
  revert pos index. induction data as [|x data IH]; intros pos index Hi; cbn [make_index].
  { by destruct (map_find key index). }
  rewrite IH, map_find_insert by (done || by apply map_insert_sorted). cbn [list_find].
  destruct (map_find key index); [done|]. destruct (decide (key = x.1)) as [->|].
  - rewrite decide_True by done. cbn. f_equal. lia.
  - rewrite decide_False by done. destruct (list_find _ data) as [[p y]|]; cbn; [|done]. f_equal. lia.
Qed.

Lemma StronglySorted_nil_map : StronglySorted map_key_lt (@nil (bytes * nat)).
Proof. constructor. Qed.

(** ** The binary search *)

Lemma mem_search_spec data key fuel lo hi mid : StronglySorted map_key_lt data →
  (∀ x, x ∈ data → x.1 ≠ key) → Z.of_nat (length data) < 2 ^ 31 →
  (∃ x, data !! 0%nat = Some x ∧ str_lt x.1 key = true) →
  0 <= lo <= hi + 1 → hi + 1 <= Z.of_nat (length data) → hi - lo + 1 < Z.of_nat fuel →
  (∀ i x, Z.of_nat i < lo → data !! i = Some x → str_lt x.1 key = true) →
  (∀ i x, hi < Z.of_nat i → data !! i = Some x → str_lt x.1 key = false) →
  (lo <= hi ∨ mid = lo - 1 ∨ mid = lo) →
  ∃ m c, mem_search fuel data key lo hi mid = Some m ∧ cut_at key c data ∧
    (m = Z.of_nat c - 1 ∨ m = Z.of_nat c).
Proof.
  intros Hs Hne Hlen H0. revert lo hi mid. induction fuel as [|fuel IH]; intros lo hi mid Hlo Hhi Hf Hb Ha He; [lia|].
  cbn [mem_search]. destruct (Z.leb_spec lo hi) as [Hle|Hgt].
  2: { exists mid, (Z.to_nat lo). split_and!; [done| |lia]. split; intros i x Hi; [apply Hb; lia|apply Ha; lia]. }
  rewrite u32_small by lia. set (m := (lo + hi) ÷ 2).
  assert (Hm : lo <= m <= hi).
  { unfold m. rewrite Z.quot_div_nonneg by lia. pose proof (Z.div_mod (lo + hi) 2). pose proof (Z.mod_pos_bound (lo + hi) 2). lia. }
  destruct (lookup_lt_is_Some_2 data (Z.to_nat m)) as [x Hx]; [lia|]. rewrite Hx. cbn [mbind option_bind].
  rewrite bool_decide_eq_false_2 by (apply Hne; by apply list_elem_of_lookup_2 in Hx).
  destruct (str_lt x.1 key) eqn:Ex.
  - rewrite u32_small by lia. apply IH; [lia..| |done|lia]. intros i y Hi Hy.
    destruct (decide (i = Z.to_nat m)) as [->|]; [congruence|].
    apply (str_lt_trans _ x.1); [|done]. apply (map_key_lt_lookup data i (Z.to_nat m)); done || lia.
  - assert (0 < m).
    { destruct H0 as (y & Hy & Ey). destruct (decide (m = 0)) as [E|]; [|lia]. rewrite E in Hx. change (Z.to_nat 0) with 0%nat in Hx. congruence. }
    rewrite u32_small by lia. apply IH; [lia..|done| |lia]. intros i y Hi Hy.
    destruct (decide (i = Z.to_nat m)) as [->|]; [congruence|].
    apply str_lt_asym. apply (str_le_lt_trans _ x.1); [done|]. apply (map_key_lt_lookup data (Z.to_nat m) i); done || lia.
Qed.


(** ** Iterating *)

Section Iterate.
Context (r : InMemory).
Local Abbreviation data := (data_ r).
Context (Hvals : Forall (λ x, x.2 ≠ []) data).

(** The iterator stands on the first of the entries [k] that are left. *)
Definition mem_stands (it : InMemoryIterator) (k : list entry) : Prop :=
  ∃ p j x, mi_cur it = Some (p, Z.of_nat j, Z.of_nat (length x.2)) ∧ data !! p = Some x ∧
    (j < length x.2)%nat ∧ k = ((λ v, (x.1, v)) <$> drop j x.2) ++ expand (drop (S p) data).

Lemma mem_LoadItem_ok it e k : mem_stands it (e :: k) →
  mem_LoadItem r it = Some (mkMemIter e.1 e.2 (mi_valid it) (mi_cur it)).
Proof.
  intros (p & j & x & Hc & Hx & Hj & Hk). unfold mem_LoadItem. rewrite Hc. cbn [mbind option_bind].
  rewrite Hx. cbn [mbind option_bind]. destruct (Z.ltb_spec (Z.of_nat j) 0); [lia|]. rewrite Nat2Z.id.
  destruct (lookup_lt_is_Some_2 _ _ Hj) as [v Hv]. rewrite Hv. cbn [mbind option_bind].
  rewrite (drop_S _ _ _ Hv) in Hk. injection Hk as -> _. done.
Qed.

Lemma expand_drop_nil p : expand (drop p data) = [] → drop p data = [].
Proof.
  destruct (drop p data) as [|x d] eqn:E; [done|]. rewrite expand_cons. intros [Hf _]%app_nil.
  apply fmap_nil_inv in Hf. assert (Hx : x ∈ data).
  { rewrite <- (take_drop p data), elem_of_app, E. right. by left. }
  rewrite Forall_forall in Hvals. by apply Hvals in Hx.
Qed.

Lemma mem_NextItem_ok it e k : mem_stands it (e :: k) →
  ∃ it', mem_NextItem r it = Some (negb (bool_decide (k = [])), it') ∧
    mi_valid it' = negb (bool_decide (k = [])) ∧ (k ≠ [] → mem_stands it' k).
Proof.
  intros (p & j & x & Hc & Hx & Hj & Hk). unfold mem_NextItem. rewrite Hc. cbn [mbind option_bind].
  destruct (lookup_lt_is_Some_2 _ _ Hj) as [v Hv]. rewrite (drop_S _ _ _ Hv) in Hk.
  cbn [fmap list_fmap app] in Hk. injection Hk as _ Hk.
  pose proof (lookup_lt_Some _ _ _ Hx) as Hp.
  destruct (Z.ltb_spec (Z.of_nat j) (Z.of_nat (length x.2) - 1)).
  - assert (Hne : k ≠ []).
    { rewrite Hk. destruct (lookup_lt_is_Some_2 x.2 (S j)) as [w Hw]; [lia|]. by rewrite (drop_S _ _ _ Hw). }
    rewrite bool_decide_eq_false_2 by done. eexists. split; [done|]. split; [done|]. intros _.
    exists p, (S j), x. cbn [mi_cur]. split_and!; [|done|lia|done]. do 3 f_equal. lia.
  - rewrite drop_ge in Hk by lia. cbn [fmap list_fmap app] in Hk.
    destruct (Nat.leb_spec (length data) p); [lia|].
    destruct (data !! S p) as [y|] eqn:Hy.
    + pose proof Hy as Hyv. apply list_elem_of_lookup_2 in Hyv. rewrite Forall_forall in Hvals.
      apply Hvals in Hyv. rewrite (drop_S _ _ _ Hy), expand_cons in Hk.
      assert (Hne : k ≠ []). { rewrite Hk. destruct y as [ky [|vy vs]]; done. }
      rewrite bool_decide_eq_false_2 by done. eexists. split; [done|]. split; [done|]. intros _.
      exists (S p), 0%nat, y. cbn [mi_cur]. split_and!; [done|done| |done].
      destruct y as [ky [|vy vs]]; [done|cbn; lia].
    + rewrite drop_ge in Hk by (by apply lookup_ge_None). cbn in Hk. subst k.
      rewrite bool_decide_eq_true_2 by done. eexists. split; [done|]. by split.
Qed.

(** The iterator shows the first of the entries [k]. *)
Definition mem_shows (it : InMemoryIterator) (k : list entry) : Prop :=
  mi_valid it = negb (bool_decide (k = [])) ∧
  match k with
  | [] => True
  | e :: _ => mem_stands it k ∧ mi_key it = e.1 ∧ mi_value it = e.2
  end.

Lemma mem_load_shows it k : mi_valid it = negb (bool_decide (k = [])) → (k ≠ [] → mem_stands it k) →
  ∃ it', (if mi_valid it then mem_LoadItem r it else Some it) = Some it' ∧ mem_shows it' k ∧
    (k = [] → it' = it).
Proof.
  intros Hv Hs. destruct k as [|e k].
  - rewrite bool_decide_eq_true_2 in Hv by done. rewrite Hv. exists it. by repeat split.
  - specialize (Hs ltac:(done)). rewrite bool_decide_eq_false_2 in Hv by done. rewrite Hv. cbn [negb].
    rewrite (mem_LoadItem_ok _ e k Hs). eexists. split; [done|]. split; [|done]. split; [done|].
    split; [|done]. destruct Hs as (p & j & x & ?). by exists p, j, x.
Qed.

Lemma mem_Next_ok it e k : mem_shows it (e :: k) → ∃ it', mem_Next r it = Some it' ∧ mem_shows it' k.
Proof.
  intros (_ & Hs & _). destruct (mem_NextItem_ok it e k Hs) as (it1 & E & Hv & Hs1).
  unfold mem_Next. rewrite E. cbn [mbind option_bind].
  destruct (mem_load_shows it1 k Hv Hs1) as (it2 & E2 & Hsh & _). eauto.
Qed.

Lemma mem_collect_ok k it fuel : mem_shows it k → (length k <= fuel)%nat → mem_collect fuel r it = Some k.
Proof.
  revert it fuel. induction k as [|e k IH]; intros it fuel [Hv Hs] Hfu.
  - rewrite bool_decide_eq_true_2 in Hv by done. destruct fuel; cbn [mem_collect]; by rewrite Hv.
  - rewrite bool_decide_eq_false_2 in Hv by done. destruct fuel as [|fuel]; [cbn in Hfu; lia|].
    cbn [mem_collect]. rewrite Hv. cbn [negb].
    destruct (mem_Next_ok it e k) as (it' & -> & Hs'); [split; [by rewrite Hv|done]|]. cbn [mbind option_bind].
    rewrite (IH it') by (done || (cbn in Hfu; lia)). cbn. destruct Hs as (_ & -> & ->). by destruct e.
Qed.

(** ** Seeking *)

Context (Hsort : StronglySorted map_key_lt data) (Hdata : data ≠ []).
Context (Hindex : index_ r = make_index 0 data []) (Hsmall : Z.of_nat (length data) < 2 ^ 31).

(** What follows a seek: the entries from the key on, or, when no entry has
    the key, from the key before it. *)
Definition near (key : bytes) (l k : list entry) : Prop :=
  k = from_key key l ∨
  key ∉ l.*1 ∧ ∃ prev, str_lt prev key = true ∧
    k = filter (λ e, e.1 = prev) l ++ from_key key l ∧ filter (λ e, e.1 = prev) l ≠ [] ∧
    Forall (λ e, str_lt e.1 key = true → str_le e.1 prev) l.

Lemma filter_key_group p x : data !! p = Some x →
  filter (λ e, e.1 = x.1) (expand data) = (λ v, (x.1, v)) <$> x.2.
Proof.
  intros Hx. rewrite <- (take_drop_middle _ _ _ Hx) at 1. rewrite expand_app, expand_cons, !filter_app.
  assert (Hnone : ∀ d, (∀ y, y ∈ d → y.1 ≠ x.1) → filter (λ e : entry, e.1 = x.1) (expand d) = []).
  { intros d Hd. apply filter_none, Forall_forall. intros e He. apply expand_key_in in He as (y & Hy & <-). auto. }
  rewrite !Hnone; [rewrite filter_every; [by rewrite app_nil_r|]| |].
  - apply Forall_fmap, Forall_forall. done.
  - intros y [i Hi]%list_elem_of_lookup E. rewrite lookup_drop in Hi.
    assert (Hlt : str_lt x.1 y.1 = true) by (apply (map_key_lt_lookup data p (S p + i)); done || lia).
    by rewrite E, str_lt_irrefl in Hlt.
  - intros y [i [Hi Hlt]%lookup_take_Some]%list_elem_of_lookup E.
    assert (Hlt' : str_lt y.1 x.1 = true) by (apply (map_key_lt_lookup data i p); done || lia).
    by rewrite E, str_lt_irrefl in Hlt'.
Qed.

Lemma at_pos_stands p x key0 value0 : data !! p = Some x →
  let it := mkMemIter key0 value0 true (Some (p, 0, Z.of_nat (length x.2))) in
  mem_stands it (expand (drop p data)).
Proof.
  intros Hx it. exists p, 0%nat, x. split_and!; [done|done| |].
  - rewrite Forall_forall in Hvals. pose proof (Hvals x) as Hv. apply list_elem_of_lookup_2 in Hx.
    specialize (Hv Hx). destruct (x.2); [done|cbn; lia].
  - by rewrite drop_0, (drop_S _ _ _ Hx), expand_cons.
Qed.

Lemma found_cut key p x : list_find (λ x, x.1 = key) data = Some (p, x) → cut_at key p data.
Proof.
  intros (Hx & Ek & _)%list_find_Some. split; intros i y Hi Hy.
  - rewrite <- Ek. apply (map_key_lt_lookup data i p); done || lia.
  - destruct (decide (i = p)) as [->|].
    + replace y with x by congruence. rewrite Ek. apply str_lt_irrefl.
    + apply str_lt_asym. rewrite <- Ek. apply (map_key_lt_lookup data p i); done || lia.
Qed.

Lemma mem_SeekKey_ok key : ∃ it k, mem_SeekKey key r (mkMemIter [] [] false None) = Some it ∧
  near key (expand data) k ∧ mi_valid it = negb (bool_decide (k = [])) ∧
  (k ≠ [] → mem_stands it k) ∧ (k = [] → mi_key it = [] ∧ key ≠ []).
Proof.
  assert (Hlen : (0 < length data)%nat) by (destruct (data_ r); [done|cbn; lia]).
  destruct (lookup_lt_is_Some_2 data 0 Hlen) as [x0 H0].
  destruct (last data) as [xl|] eqn:El; [|by apply last_None in El].
  unfold mem_SeekKey. rewrite El, head_lookup, H0. cbn [mbind option_bind].
  assert (Hpos : ∀ p x k, data !! p = Some x → k = expand (drop p data) → k ≠ []).
  { intros p x k Hx -> E. apply expand_drop_nil in E. by rewrite (drop_S _ _ _ Hx) in E. }
  rewrite Hindex, make_index_find by constructor. cbn [map_find].
  destruct (list_find (λ x, x.1 = key) data) as [[p x]|] eqn:Ef; cbn [fmap option_fmap option_map Nat.add fst].
  { pose proof Ef as (Hx & _)%list_find_Some. rewrite Hx. cbn [mbind option_bind].
    eexists _, (expand (drop p data)). split; [done|]. pose proof (Hpos p x _ Hx eq_refl) as Hne. split_and!.
    - left. symmetry. by apply cut_from_key, (found_cut key p x).
    - by rewrite bool_decide_eq_false_2.
    - intros _. by apply at_pos_stands.
    - done. }
  assert (Hno : ∀ x, x ∈ data → x.1 ≠ key).
  { intros x Hx Ex. apply list_find_None in Ef. rewrite Forall_forall in Ef. by apply (Ef x). }
  destruct (str_lt key x0.1) eqn:E0.
  { eexists _, (expand (drop 0 data)). split; [done|].
    pose proof (Hpos 0%nat x0 _ H0 eq_refl) as Hne. split_and!.
    - left. symmetry. apply cut_from_key. split; [lia|]. intros i y _ Hy. apply str_lt_asym.
      destruct (decide (i = 0%nat)) as [->|]; [by replace y with x0 by congruence|].
      apply (str_lt_trans _ x0.1); [done|]. apply (map_key_lt_lookup data 0 i); done || lia.
    - by rewrite bool_decide_eq_false_2.
    - intros _. by apply at_pos_stands.
    - done. }
  assert (Hlast : data !! (length data - 1)%nat = Some xl) by (rewrite last_lookup in El; by replace (pred (length data)) with (length data - 1)%nat in El by lia).
  destruct (str_lt xl.1 key) eqn:E1.
  { eexists _, []. split; [done|]. split_and!; [|done|done|].
    - left. rewrite (cut_from_key key (length data)); [by rewrite drop_ge|]. split; [|intros i x Hi Hx; apply lookup_lt_Some in Hx; lia].
      intros i x Hi Hx. destruct (decide (i = length data - 1)%nat) as [->|]; [by replace x with xl by congruence|].
      apply (str_lt_trans _ xl.1); [|done]. apply (map_key_lt_lookup data i (length data - 1)); done || lia.
    - intros _. split; [done|]. intros ->. by destruct (xl.1). }
  assert (Hx0 : str_lt x0.1 key = true).
  { destruct (str_lt x0.1 key) eqn:E; [done|]. exfalso. apply (Hno x0); [by apply list_elem_of_lookup_2 in H0|by apply str_lt_total]. }
  rewrite (u32_small (Z.of_nat _)), (u32_small (_ - 1)) by lia.
  destruct (mem_search_spec data key (S (length data)) 0 (Z.of_nat (length data) - 1) 0)
    as (m & c & -> & [Hb Ha] & Hm); [done|done|done|eauto|lia|lia|lia|lia| |lia|].
  { intros i x Hi Hx. apply lookup_lt_Some in Hx. lia. }
  cbn [mbind option_bind].
  assert (Hc : (0 < c < length data)%nat).
  { split.
    - destruct c; [|lia]. rewrite (Ha 0%nat x0) in Hx0; done || lia.
    - destruct (decide (c < length data)%nat); [done|]. rewrite (Hb (length data - 1)%nat xl) in E1; done || lia. }
  assert (Hkey : key ∉ (expand data).*1).
  { intros (e & Ee & He)%list_elem_of_fmap. apply expand_key_in in He as (x & Hx & Ex). apply (Hno x Hx). congruence. }
  destruct (lookup_lt_is_Some_2 data (Z.to_nat m)) as [x Hx]; [lia|]. rewrite Hx. cbn [mbind option_bind].
  eexists _, (expand (drop (Z.to_nat m) data)). split; [done|].
  pose proof (Hpos _ x _ Hx eq_refl) as Hne. split_and!; [|by rewrite bool_decide_eq_false_2|intros _; by apply at_pos_stands|done].
  pose proof (cut_from_key key c data (conj Hb Ha)) as Hcut. destruct Hm as [->| ->].
  2: { left. rewrite Nat2Z.id. done. }
  right. split; [done|]. exists x.1. replace (Z.to_nat (Z.of_nat c - 1)) with (c - 1)%nat in * by lia.
  split_and!.
  - apply (Hb (c - 1)%nat); [lia|done].
  - rewrite Hcut, (filter_key_group (c - 1)%nat) by done. rewrite (drop_S _ _ _ Hx), expand_cons.
    by replace (S (c - 1)) with c by lia.
  - rewrite (filter_key_group (c - 1)%nat) by done. intros E%fmap_nil_inv. rewrite Forall_forall in Hvals.
    by apply (Hvals x); [apply list_elem_of_lookup_2 in Hx|].
  - apply Forall_forall. intros e He Hlt. apply expand_key_in in He as (y & [i Hi]%list_elem_of_lookup & Ey).
    rewrite <- Ey in *. destruct (decide (i < c)%nat).
    + destruct (decide (i = c - 1)%nat) as [->|]; [replace y with x by congruence; reflexivity|].
      apply str_lt_le, (map_key_lt_lookup data i (c - 1)); done || lia.
    + rewrite (Ha i y) in Hlt; done || lia.
Qed.

End Iterate.

(** ** A reader after [Init] *)

Record mem_ready (r : InMemory) (l meta : list entry) : Prop := {
  mr_entries : expand (data_ r) = l;
  mr_values : Forall (λ x, x.2 ≠ []) (data_ r);
  mr_sorted : StronglySorted map_key_lt (data_ r);
  mr_index : index_ r = make_index 0 (data_ r) [];
  mr_data : data_ r ≠ [];
  mr_small : Z.of_nat (length (data_ r)) < 2 ^ 31;
  mr_count : EntryCount (im_impl r) = Z.of_nat (length l);
  mr_meta key : Impl_GetMetaData key (im_impl r) = FindValue key meta
}.

Lemma mem_Seek_ok r l meta key : mem_ready r l meta →
  ∃ it k, mem_Seek key r = Some it ∧ near key l k ∧ mem_shows r it k ∧ (k = [] → mi_key it = [] ∧ key ≠ []).
Proof.
  intros [<- Hv Hsd Hi Hd Hsm _ _].
  destruct (mem_SeekKey_ok r Hv Hsd Hd Hi Hsm key) as (it0 & k & Esk & Hn & Hva & Hst & Hnil).
  destruct (mem_load_shows r it0 k Hva Hst) as (it & El & Hsh & Hsame).
  exists it, k. unfold mem_Seek. rewrite Esk. split_and!; try done. intros Hk. rewrite (Hsame Hk). auto.
Qed.

Lemma mem_Lookup_ok r l meta key : mem_ready r l meta → StronglySorted key_le l →
  mem_Lookup key r = Some (first_value key l).
Proof.
  intros Hr Hs. destruct (mem_Seek_ok r l meta key Hr) as (it & k & E & Hn & (_ & Hsh) & Hnil).
  unfold mem_Lookup. rewrite E. cbn [mbind option_bind]. f_equal. unfold first_value. rewrite <- from_key_head by done.
  destruct Hn as [->|(Hkey & prev & Hp & -> & Hpne & _)].
  - destruct (from_key key l) as [|e k].
    + destruct (Hnil eq_refl) as [-> Hkn]. by rewrite bool_decide_eq_false_2.
    + destruct Hsh as (_ & -> & ->). done.
  - destruct (filter (λ e, e.1 = prev) l) as [|e g] eqn:Eg; [done|]. destruct Hsh as (_ & -> & _).
    assert (Ee : e.1 = prev).
    { assert (He' : e ∈ filter (λ e, e.1 = prev) l) by (rewrite Eg; by left).
      by apply list_elem_of_filter in He' as [? _]. }
    rewrite bool_decide_eq_false_2 by (intros E2; by rewrite Ee in E2; rewrite E2, str_lt_irrefl in Hp).
    destruct (from_key key l) as [|e' k'] eqn:Ef; [done|].
    rewrite bool_decide_eq_false_2; [done|]. intros E2. apply Hkey. rewrite <- E2.
    apply list_elem_of_fmap. exists e'. split; [done|]. rewrite from_key_filter in Ef by done.
    assert (Hin : e' ∈ filter (λ e, str_lt e.1 key = false) l) by (rewrite Ef; by left).
    by apply list_elem_of_filter in Hin as [_ ?].
Qed.

End InMemory.

(** ** Loading a table *)

Section Load.
Context {M : Machine}.
Context (c : option BlockCompression) (Hc : good_compression c).
Context (ct : Z) (meta l : list entry) (chunks : list (list entry)).
Context (fi : FileInfo) (tr : FileTrailer) (f : bytes).
Context (Hf : table_file c ct meta l chunks fi tr f).

Lemma Init_blocks_ok n i b im st : loaded c meta chunks fi tr f im → compression b = c →
  grouped st (concat (take i chunks)) → (i + n = length chunks)%nat →
  ∃ st' im', Init_blocks n (Z.of_nat i) b im st = Some (st', im') ∧ grouped st' (concat chunks) ∧
    loaded c meta chunks fi tr f im'.
Proof.
  revert i b im st. induction n as [|n IH]; intros i b im st Hl Hb Hg Hn; cbn [Init_blocks].
  { exists st, im. rewrite take_ge in Hg by lia. done. }
  destruct (lookup_lt_is_Some_2 chunks i) as [chunk Hch]; [lia|].
  destruct (LoadDataBlock_ok c Hc ct meta l chunks fi tr f Hf im b i chunk Hl Hb Hch)
    as (b' & im' & -> & Hd & Hb' & Hl'). cbn [mbind option_bind]. rewrite Hd.
  assert (Hfirst : (Z.of_nat i =? 0) = bool_decide (concat (take i chunks) = [])).
  { destruct (Z.eqb_spec (Z.of_nat i) 0) as [E|E].
    - replace i with 0%nat by lia. done.
    - symmetry. apply bool_decide_eq_false. destruct i as [|i]; [lia|].
      destruct (tf_chunks _ _ _ _ _ _ _ _ Hf) as [Hne _]. destruct chunks as [|x k]; [done|]. cbn.
      apply Forall_cons in Hne as [Hx _]. by destruct x. }
  rewrite Hfirst. apply (Init_items_grouped chunk) in Hg.
  replace (Z.of_nat i + 1) with (Z.of_nat (S i)) by lia. apply (IH (S i)); [done|done| |lia].
  rewrite (take_S_r _ _ _ Hch), concat_app. cbn. by rewrite app_nil_r.
Qed.

Lemma Init_ok snap im : new_DataBlock snap ct = Some (mkDataBlock c [] [] 0) →
  loaded c meta chunks fi tr f im →
  ∃ r, Init snap im = Some r ∧ expand (data_ r) = l ∧ Forall (λ x, x.2 ≠ []) (data_ r) ∧
    (∀ i x y, data_ r !! i = Some x → data_ r !! S i = Some y → x.1 ≠ y.1) ∧
    index_ r = make_index 0 (data_ r) [] ∧ data_ r ≠ [] ∧ loaded c meta chunks fi tr f (im_impl r).
Proof.
  intros Hs Hl. unfold Init. rewrite (ld_trailer _ _ _ _ _ _ _ Hl), (tf_compress _ _ _ _ _ _ _ _ Hf), Hs.
  rewrite (tf_count _ _ _ _ _ _ _ _ Hf), Nat2Z.id. cbn [mbind option_bind].
  destruct (Init_blocks_ok (length chunks) 0 (mkDataBlock c [] [] 0) im ([], [], []) Hl)
    as ([[k vs] data] & im' & E & [He Hv Hk _] & Hl'); [done| |done|].
  { split; done. }
  change (Z.of_nat 0) with 0 in E. rewrite E. cbn [mbind option_bind]. cbn [fst snd] in *.
  rewrite (tf_entries _ _ _ _ _ _ _ _ Hf) in *. eexists. split; [done|]. cbn [data_ index_]. split_and!.
  - done.
  - apply Hv. intros Hnil. destruct (tf_chunks _ _ _ _ _ _ _ _ Hf) as [Hne Hc0].
    pose proof (tf_entries _ _ _ _ _ _ _ _ Hf) as Hent. rewrite Hnil in Hent.
    destruct chunks as [|x ch]; [done|]. apply Forall_cons in Hne as [Hx _]. by destruct x.
  - done.
  - done.
  - by destruct data.
  - done.
Qed.

Lemma Open_in_memory_ok snap : new_DataBlock snap ct = Some (mkDataBlock c [] [] 0) →
  StronglySorted key_le l →
  ∃ r, Open_in_memory snap f = Some (Some r) ∧ mem_ready r l meta.
Proof.
  intros Hs Hsort. destruct (LoadFile_ok c Hc ct meta l chunks fi tr f Hf) as (im & E & Hl).
  destruct (Init_ok snap im Hs Hl) as (r & Er & He & Hv & Hk & Hi & Hd & Hl').
  unfold Open_in_memory. rewrite E. cbn [mbind option_bind]. rewrite Er. cbn [mbind option_bind].
  exists r. split; [done|]. split; try done.
  - apply groups_sorted; [by rewrite He|done..].
  - pose proof (fits_length l (tf_fits _ _ _ _ _ _ _ _ Hf)) as Hlen. rewrite <- He in Hlen.
    assert (length (data_ r) <= length (expand (data_ r)))%nat; [|lia]. clear - Hv.
    induction Hv as [|x d Hx Hd IH]; [done|]. rewrite expand_cons, length_app, length_fmap.
    destruct x as [k [|v vs]]; [done|]. cbn in *. lia.
  - unfold EntryCount. by rewrite (ld_trailer _ _ _ _ _ _ _ Hl'), (tf_entry_count _ _ _ _ _ _ _ _ Hf).
  - intros key. by apply (metadata_ok _ _ _ _ _ _ _ _ Hl').
Qed.

End Load.

(** ** The theorems *)

Section Table.
Context {M : Machine} `{ReliableDisk}.
Context (snap : option BlockCompression) (Hsnap : good_compression snap).

Lemma near_nil (l k : list entry) : near [] l k → k = l.
Proof. intros [->|(_ & prev & Hp & _)]; [apply from_key_nil|]. by destruct prev. Qed.

Lemma near_present key (l k : list entry) : near key l k → key ∈ l.*1 → k = from_key key l.
Proof. intros [->|[Hn _]]; [done|]. intros. by destruct Hn. Qed.

Lemma near_length key (l k : list entry) : near key l k → StronglySorted key_le l → (length k <= length l)%nat.
Proof.
  intros [->|(_ & prev & Hp & -> & _)] Hs; rewrite from_key_filter by done; [apply length_filter|].
  clear Hs. induction l as [|e l IH]; [done|]. rewrite length_app in *. rewrite !filter_cons.
  destruct (decide (e.1 = prev)) as [E|]; destruct (decide (str_lt e.1 key = false)) as [E2|]; cbn [length]; try lia.
  rewrite E, Hp in E2. discriminate E2.
Qed.

(** The reader in memory on a table written by SingleSSTableWriter.
    Seeking a key and iterating terminates without an abort and shows the
    entries from the key on in order; but when no entry has the key the
    iterator may start one key early, at the entries with the greatest key
    below the sought one.  NewIterator shows the whole table. *)
Theorem in_memory_iterate opt entries meta : acceptable opt entries meta →
  ∃ f r, Single_write snap opt entries meta = Some (true, Some f) ∧ Open_in_memory snap f = Some (Some r) ∧
  ∀ key fuel, (length entries <= fuel)%nat →
  ∃ it k, mem_Seek key r = Some it ∧ mem_collect fuel r it = Some k ∧
    near key (stable_sort entries) k ∧ (key ∈ entries.*1 → k = from_key key (stable_sort entries)) ∧
    (key = [] → k = stable_sort entries).
Proof.
  intros Ha. destruct (Single_write_ok snap Hsnap opt entries meta Ha) as (c & chunks & fi & tr & f & E & Hc & Hb & Hf).
  pose proof (stable_sort_sorted entries) as Hs.
  destruct (Open_in_memory_ok c Hc _ _ _ _ _ _ f Hf snap Hb Hs) as (r & Er & Hr).
  exists f, r. split; [done|]. split; [done|]. intros key fuel Hfu.
  destruct (mem_Seek_ok r _ _ key Hr) as (it & k & Es & Hn & Hsh & _). exists it, k. split; [done|].
  assert (Hlen : (length k <= fuel)%nat).
  { pose proof (near_length _ _ _ Hn Hs). rewrite stable_sort_length in *. lia. }
  split; [apply mem_collect_ok; [apply Hr|done|done]|]. split; [done|]. split.
  - intros Hk. apply (near_present key); [done|]. by rewrite stable_sort_perm.
  - intros ->. by apply near_nil in Hn.
Qed.

(** Lookup in memory.  On a table written by SingleSSTableWriter the
    reader in memory finds for every key the value that was added first under
    it, or fails when there is none, exactly as the reader on disk does. *)
Theorem in_memory_lookup opt entries meta : acceptable opt entries meta →
  ∃ f r, Single_write snap opt entries meta = Some (true, Some f) ∧ Open_in_memory snap f = Some (Some r) ∧
  ∀ key, mem_Lookup key r = Some (first_value key entries).
Proof.
  intros Ha. destruct (Single_write_ok snap Hsnap opt entries meta Ha) as (c & chunks & fi & tr & f & E & Hc & Hb & Hf).
  pose proof (stable_sort_sorted entries) as Hs.
  destruct (Open_in_memory_ok c Hc _ _ _ _ _ _ f Hf snap Hb Hs) as (r & Er & Hr).
  exists f, r. split; [done|]. split; [done|]. intros key. rewrite (mem_Lookup_ok r _ _ key Hr Hs).
  unfold first_value. by rewrite stable_sort_stable.
Qed.

End Table.

(** ** A concrete table *)

#[local] Instance memory_machine : Machine := { big_endian := false }.
#[local] Instance memory_disk : Disk :=
  { fwrite_count _ s := length s; open_ok := true; rename_ok := true }.
#[local] Instance memory_disk_reliable : ReliableDisk.
Proof. by split. Qed.

Definition demo_mem_scan (key : bytes) : option (list entry) :=
  match Open_in_memory demo_snappy demo_file with
  | Some (Some r) => it ← mem_Seek key r; mem_collect 9 r it
  | _ => None
  end.

(** Seeking "ab" starts at "a": the binary search ends below the key. *)
Example in_memory_iterate_witness :
  demo_mem_scan (str "ab") = Some (stable_sort demo_entries) ∧
  demo_mem_scan (str "bb") = Some [(str "c", str "3"); (str "d", str "4")] ∧
  ∃ f r it k, Single_write demo_snappy demo_option demo_entries demo_meta = Some (true, Some f) ∧
    Open_in_memory demo_snappy f = Some (Some r) ∧ mem_Seek (str "b") r = Some it ∧
    mem_collect 5 r it = Some k ∧ k = from_key (str "b") (stable_sort demo_entries).
Proof.
  split; [vm_compute; reflexivity|]. split; [vm_compute; reflexivity|].
  destruct (in_memory_iterate demo_snappy demo_snappy_good demo_option demo_entries demo_meta demo_acceptable)
    as (f & r & E & Er & H).
  destruct (H (str "b") 5%nat) as (it & k & Es & Ec & _ & Hk & _); [cbn; lia|].
  exists f, r, it, k. split; [exact E|]. split; [exact Er|]. split; [exact Es|]. split; [exact Ec|].
  apply Hk. apply (bool_decide_unpack _). vm_compute. exact I.
Defined.

Example in_memory_lookup_witness :
  ∃ f r, Single_write demo_snappy demo_option demo_entries demo_meta = Some (true, Some f) ∧
    Open_in_memory demo_snappy f = Some (Some r) ∧
    mem_Lookup (str "b") r = Some (Some (str "2")) ∧ mem_Lookup (str "bb") r = Some None.
Proof.
  destruct (in_memory_lookup demo_snappy demo_snappy_good demo_option demo_entries demo_meta demo_acceptable)
    as (f & r & E & Er & H).
  exists f, r. split; [exact E|]. split; [exact Er|]. split; [apply (H (str "b"))|apply (H (str "bb"))].
Defined.
