(* ===== verification/Merged.v ===== *)
(** * The merged reader

    Model of storage/sstable/merged_sstable_reader.h and
    reader/merged_sstable_reader.cpp: many tables read as one.  The abstract
    class [SSTableReader] with its [Iterator] is the class [TableReader]; its
    promises are [TableSpec], which the readers on disk and in memory
    discharge; the merged reader is written against the first and proved
    against the second.

    An iterator carries the reader it points to, which nothing else uses while
    the iterator lives.  A [std::multiset] is a sorted list in which an
    insertion goes after the equal elements; [LoadItem] moves an iterator
    while it is still in the set, but only removes it by its position and
    inserts it again afterwards, so that no comparison sees it out of order. *)

From Stdlib Require Import Sorting.Sorted.
From S2P Require Import Prelude Coding StdString Number HFile HFileFacts LruCache SSTableWriter SSTableWriterFacts SSTableReader SSTableReaderFacts SSTable InMemory.

(** ** class SSTableReader *)

Class TableReader (T It : Type) := {
  reader_seek : bytes → T → option It;
  reader_lookup : bytes → T → option (option bytes * T);
  reader_entry_count : T → Z;
  reader_metadata : bytes → T → bytes;
  iter_valid : It → bool;
  iter_key : It → bytes;
  iter_value : It → bytes;
  iter_next : It → option It
}.

(** What an iterator goes on to show. *)
Inductive iterates `{TableReader T It} : It → list entry → Prop :=
  | iterates_end i : iter_valid i = false → iterates i []
  | iterates_step i i' l : iter_valid i = true → iter_next i = Some i' → iterates i' l →
      iterates i ((iter_key i, iter_value i) :: l).

(** What a reader promises about the entries and the meta data it holds. *)
Class TableSpec (T It : Type) `{TableReader T It} := {
  holds : T → list entry → list entry → Prop;
  holds_sorted t l meta : holds t l meta → StronglySorted key_le l ∧ l ≠ [];
  holds_seek t l meta key : holds t l meta →
    ∃ i k, reader_seek key t = Some i ∧ near key l k ∧ iterates i k;
  holds_lookup t l meta key : holds t l meta →
    ∃ t', reader_lookup key t = Some (first_value key l, t') ∧ holds t' l meta;
  holds_count t l meta : holds t l meta → reader_entry_count t = Z.of_nat (length l);
  holds_metadata t l meta key : holds t l meta → reader_metadata key t = FindValue key meta
}.

(** *** The readers are SSTableReaders *)

Section OnDisk.
Context {M : Machine} {C : Type} {BC : BlockCache C}.
Context (fuel : nat) (snap : option BlockCompression).

#[export] Instance on_disk_table : TableReader OnDisk (@state C) := {
  reader_seek := Seek fuel;
  reader_lookup := Lookup fuel;
  reader_entry_count r := EntryCount (impl r);
  reader_metadata key r := Impl_GetMetaData key (impl r);
  iter_valid st := it_valid st.1;
  iter_key st := it_key st.1;
  iter_value st := it_value st.1;
  iter_next := Next
}.

Definition on_disk_holds (r : OnDisk) (l meta : list entry) : Prop :=
  ∃ c ct chunks fi tr f, good_compression c ∧ table_file c ct meta l chunks fi tr f ∧
    new_DataBlock snap ct = Some (mkDataBlock c [] [] 0) ∧ StronglySorted key_le l ∧ (length l < fuel)%nat ∧
    l ≠ [] ∧ reader_ok c meta chunks fi tr f snap r.

Lemma on_disk_iterates c ct meta l chunks fi tr f st k :
  good_compression c → table_file c ct meta l chunks fi tr f → new_DataBlock snap ct = Some (mkDataBlock c [] [] 0) →
  SSTableReaderFacts.shows c meta chunks fi tr f snap st k → iterates st k.
Proof.
  intros Hc Hf Hs. revert st. induction k as [|e k IH]; intros st Hst; pose proof (sh_valid _ _ _ _ _ _ _ _ _ Hst) as Hv.
  - constructor. cbn. by rewrite Hv, bool_decide_eq_true_2.
  - destruct (Next_ok c Hc ct meta l chunks fi tr f Hf snap Hs st e k Hst) as (st' & E & Hst').
    destruct (sh_item _ _ _ _ _ _ _ _ _ Hst) as (_ & Ek & Ev).
    replace e with (iter_key st, iter_value st) by (destruct e; cbn in *; congruence).
    apply (iterates_step st st'); [|done|by apply IH]. cbn. by rewrite Hv, bool_decide_eq_false_2.
Qed.

#[export] Program Instance on_disk_spec : TableSpec OnDisk (@state C) := { holds := on_disk_holds }.
Next Obligation. intros t l meta (c & ct & chunks & fi & tr & f & ?). tauto. Qed.
Next Obligation.
  intros t l meta key (c & ct & chunks & fi & tr & f & Hc & Hf & Hb & Hs & Hfu & Hne & Hr).
  destruct (Seek_sorted c Hc ct meta l chunks fi tr f Hf snap Hb t key fuel Hs Hr Hfu) as (it & r' & E & Hsh & _).
  exists (it, r'), (from_key key l). split; [done|]. split; [by left|]. by eapply on_disk_iterates.
Qed.
Next Obligation.
  intros t l meta key (c & ct & chunks & fi & tr & f & Hc & Hf & Hb & Hs & Hfu & Hne & Hr).
  destruct (Lookup_sorted c Hc ct meta l chunks fi tr f Hf snap Hb t key fuel Hs Hr Hfu) as (r' & E & Hr').
  exists r'. split; [done|]. by exists c, ct, chunks, fi, tr, f.
Qed.
Next Obligation.
  intros t l meta (c & ct & chunks & fi & tr & f & Hc & Hf & Hb & Hs & Hfu & Hne & Hr). cbn. unfold EntryCount.
  by rewrite (ld_trailer _ _ _ _ _ _ _ (ro_impl _ _ _ _ _ _ _ _ Hr)), (tf_entry_count _ _ _ _ _ _ _ _ Hf).
Qed.
Next Obligation.
  intros t l meta key (c & ct & chunks & fi & tr & f & Hc & Hf & Hb & Hs & Hfu & Hne & Hr).
  apply (metadata_ok _ _ _ _ _ _ _ _ (ro_impl _ _ _ _ _ _ _ _ Hr)).
Qed.

End OnDisk.

Section InMemoryTable.
Context {M : Machine}.

#[export] Instance in_memory_table : TableReader InMemory (InMemoryIterator * InMemory) := {
  reader_seek key r := it ← mem_Seek key r; Some (it, r);
  reader_lookup key r := v ← mem_Lookup key r; Some (v, r);
  reader_entry_count r := EntryCount (im_impl r);
  reader_metadata key r := Impl_GetMetaData key (im_impl r);
  iter_valid st := mi_valid st.1;
  iter_key st := mi_key st.1;
  iter_value st := mi_value st.1;
  iter_next st := it ← mem_Next st.2 st.1; Some (it, st.2)
}.

Lemma in_memory_iterates r it k : Forall (λ x, x.2 ≠ []) (data_ r) → mem_shows r it k → iterates (it, r) k.
Proof.
  intros Hv. revert it. induction k as [|e k IH]; intros it Hit; pose proof (proj1 Hit) as Hvalid.
  - constructor. cbn. by rewrite Hvalid, bool_decide_eq_true_2.
  - destruct (mem_Next_ok r Hv it e k Hit) as (it' & E & Hit'). destruct Hit as (_ & _ & Ek & Ev).
    replace e with (iter_key (it, r), iter_value (it, r)) by (destruct e; cbn in *; congruence).
    apply (iterates_step _ (it', r)); [|cbn; by rewrite E|by apply IH]. cbn. by rewrite Hvalid, bool_decide_eq_false_2.
Qed.

#[export] Program Instance in_memory_spec : TableSpec InMemory (InMemoryIterator * InMemory) :=
  { holds r l meta := mem_ready r l meta ∧ StronglySorted key_le l ∧ l ≠ [] }.
Next Obligation. naive_solver. Qed.
Next Obligation.
  intros r l meta key (Hr & _). destruct (mem_Seek_ok r l meta key Hr) as (it & k & E & Hn & Hsh & _).
  exists (it, r), k. cbn. rewrite E. split_and!; [done|done|]. apply in_memory_iterates; [apply Hr|done].
Qed.
Next Obligation.
  intros r l meta key (Hr & Hs & Hne). exists r. cbn. by rewrite (mem_Lookup_ok r l meta key Hr Hs).
Qed.
Next Obligation. intros r l meta (Hr & _). apply (mr_count _ _ _ Hr). Qed.
Next Obligation. intros r l meta key (Hr & _). apply (mr_meta _ _ _ Hr). Qed.

End InMemoryTable.

(** A sharding policy by its name, from the registry: the shard of a key for
    a number of shards. *)
Abbreviation Policies := (bytes → option (Z → bytes → Z)).

(** [std::map<int, SSTableReader*>]: a pointer is the reader's place in the
    vector of all tables. *)
Abbreviation ShardMap := (list (Z * nat)).

(** ** class MergedIterator *)

Section Merged.
Context {T It : Type} {TR : TableReader T It}.

(** [IteratorComp] *)
Definition iter_lt (iter1 iter2 : It) : bool :=
  if str_lt (iter_key iter1) (iter_key iter2) then true
  else if bool_decide (iter_key iter1 = iter_key iter2) then str_lt (iter_value iter1) (iter_value iter2)
  else false.

(** [std::multiset::insert] *)
Fixpoint queue_insert (it : It) (q : list It) : list It :=
  match q with
  | [] => [it]
  | x :: q' => if iter_lt it x then it :: q else x :: queue_insert it q'
  end.

Record MergedIterator := mkMerged {
  mg_key : bytes;
  mg_value : bytes;
  mg_valid : bool;
  iter_queue : list It
}.

(** The iterators with nothing to show are deleted. *)
Fixpoint merged_seek_loop (key : bytes) (tables : list T) (m : MergedIterator) : option MergedIterator :=
  match tables with
  | [] => Some m
  | t :: tables =>
      it ← reader_seek key t;
      merged_seek_loop key tables
        (if iter_valid it then mkMerged (mg_key m) (mg_value m) true (queue_insert it (iter_queue m)) else m)
  end.

Definition merged_SeekKey (key : bytes) (tables : list T) (m : MergedIterator) : option MergedIterator :=
  merged_seek_loop key tables (mkMerged (mg_key m) (mg_value m) false (iter_queue m)).

(** The first iterator of an empty queue is undefined. *)
Definition merged_LoadItem (m : MergedIterator) : option MergedIterator :=
  match iter_queue m with
  | [] => None
  | it :: q =>
      it' ← iter_next it;
      Some (mkMerged (iter_key it) (iter_value it) (mg_valid m) (if iter_valid it' then queue_insert it' q else q))
  end.

Definition merged_Next (m : MergedIterator) : option MergedIterator :=
  let m := mkMerged (mg_key m) (mg_value m) (negb (bool_decide (iter_queue m = []))) (iter_queue m) in
  if mg_valid m then merged_LoadItem m else Some m.

(** The constructor. *)
Definition merged_Seek (key : bytes) (tables : list T) : option MergedIterator :=
  m ← merged_SeekKey key tables (mkMerged [] [] false []);
  if mg_valid m then merged_LoadItem m else Some m.

(** ** class SSTableReaderSet *)

Fixpoint shard_set (index : Z) (p : nat) (m : ShardMap) : ShardMap :=
  match m with
  | [] => [(index, p)]
  | (i, q) :: m' => if index <? i then (index, p) :: m else if index =? i then (i, p) :: m' else (i, q) :: shard_set index p m'
  end.

Fixpoint shard_find (index : Z) (m : ShardMap) : option nat :=
  match m with
  | [] => None
  | (i, q) :: m' => if i =? index then Some q else shard_find index m'
  end.

Record SSTableReaderSet := mkSet {
  set_id : bytes;
  sharding_policy : bytes;
  num_shard : Z;
  set_tables : ShardMap;
  sharding_man : option (bytes → Z)
}.

(** A policy that is not registered fails a CHECK. *)
Definition new_SSTableReaderSet (policies : Policies) (id policy : bytes) (n : Z) : option SSTableReaderSet :=
  if bool_decide (policy = []) then Some (mkSet id policy n [] None)
  else shard ← policies policy; Some (mkSet id policy n [] (Some (shard n))).

(** A lookup through a pointer changes the reader it points to. *)
Definition lookup_at (p : nat) (key : bytes) (tables : list T) : option (option bytes * list T) :=
  t ← tables !! p;
  '(v, t) ← reader_lookup key t;
  Some (v, <[p := t]> tables).

(** The loop over all shards, with [*value] and [exist]. *)
Fixpoint lookup_shards (key : bytes) (m : ShardMap) (value : bytes) (exists_ : bool) (tables : list T) :
    option ((bytes * bool) * list T) :=
  match m with
  | [] => Some ((value, exists_), tables)
  | (_, p) :: m =>
      '(found, tables) ← lookup_at p key tables;
      match found with
      | Some tmp_value =>
          if (bool_decide (value = []) || str_lt tmp_value value)%bool
          then lookup_shards key m tmp_value true tables
          else lookup_shards key m value exists_ tables
      | None => lookup_shards key m value exists_ tables
      end
  end.

Definition set_Lookup (key : bytes) (s : SSTableReaderSet) (tables : list T) : option (option bytes * list T) :=
  match sharding_man s with
  | None =>
      '((value, exists_), tables) ← lookup_shards key (set_tables s) [] false tables;
      Some (if (exists_ : bool) then Some value else None, tables)
  | Some shard =>
      match shard_find (shard key) (set_tables s) with
      | None => Some (None, tables)
      | Some p => lookup_at p key tables
      end
  end.

(** The CHECK on the set's id; without an id the index is the number of
    tables of the set. *)
Definition AddSSTableReader (p : nat) (id policy : bytes) (n index : Z) (s : SSTableReaderSet) :
    option (bool * SSTableReaderSet) :=
  let add i := Some (true, mkSet (set_id s) (sharding_policy s) (num_shard s) (shard_set i p (set_tables s)) (sharding_man s)) in
  if negb (bool_decide (id = set_id s)) then None
  else if negb (bool_decide (id = [])) then
    if negb (bool_decide (policy = sharding_policy s)) then Some (false, s)
    else if negb (n =? num_shard s) then Some (false, s)
    else if bool_decide (is_Some (shard_find index (set_tables s))) then Some (false, s)
    else if ((index <? 0) || (n <=? index))%bool then Some (false, s)
    else add index
  else add (Z.of_nat (length (set_tables s))).

(** ** class MergedSSTableReader *)

Definition kShardID : bytes := str "shard_id".
Definition kShardTotalNum : bytes := str "shard_total_num".
Definition kShardPolicy : bytes := str "shard_policy".
Definition kSSTableSetID : bytes := str "shard_set_id".

(** [sets_] and [tables_] *)
Record MergedReader := mkMergedReader { sets : list (bytes * SSTableReaderSet); tables : list T }.

Definition merged_Reset : MergedReader := mkMergedReader [] [].

Fixpoint set_update (id : bytes) (s : SSTableReaderSet) (m : list (bytes * SSTableReaderSet)) :=
  match m with
  | [] => []
  | (i, s') :: m => if bool_decide (i = id) then (i, s) :: m else (i, s') :: set_update id s m
  end.

(** What [StringToNumber] leaves in an [int] that held [n]: the number is
    stored even when something follows it. *)
Definition stored_number (n : Z) (s : bytes) : Z := default n (ParseNumberT t_int (before_nul s) 0).1.

(** [FLAGS_ignore_sstable_setid]; [opened] is the result of
    [SSTableReader::Open]. *)
Definition LoadSSTableReader (policies : Policies) (ignore_sstable_setid : bool) (opened : option T) (r : MergedReader) :
    option (bool * MergedReader) :=
  match opened with
  | None => Some (false, r)
  | Some sstable =>
      if reader_entry_count sstable =? 0 then Some (false, r)
      else
        let id := reader_metadata kSSTableSetID sstable in
        let policy := reader_metadata kShardPolicy sstable in
        let str_num_shard := reader_metadata kShardTotalNum sstable in
        let str_shard_id := reader_metadata kShardID sstable in
        let parsed_num := StringToNumber t_int str_num_shard in
        if (bool_decide (parsed_num = None) && negb (bool_decide (id = [])))%bool then Some (false, r)
        else
          let n := stored_number 0 str_num_shard in
          let parsed_id := StringToNumber t_int str_shard_id in
          if (bool_decide (parsed_id = None) && negb (bool_decide (id = [])))%bool then Some (false, r)
          else
            let shard_id := stored_number (-1) str_shard_id in
            '(set, sets) ←
              match map_find id (sets r) with
              | Some s => Some (s, sets r)
              | None =>
                  s ← (if bool_decide (id = []) then
                         if ignore_sstable_setid then new_SSTableReaderSet policies [] policy n
                         else new_SSTableReaderSet policies [] [] 0
                       else new_SSTableReaderSet policies id policy n);
                  Some (s, map_insert id s (sets r))
              end;
            let tables := tables r ++ [sstable] in
            '(ok, set) ← AddSSTableReader (length tables - 1) id policy n shard_id set;
            Some (ok, mkMergedReader (set_update id set sets) tables)
  end.

Fixpoint merged_open_loop (policies : Policies) (ignore_setid ignore_bad_files : bool) (files : list (option T)) (r : MergedReader) :
    option (bool * MergedReader) :=
  match files with
  | [] => Some (negb (bool_decide (tables r = [])), r)
  | x :: files =>
      '(ok, r) ← LoadSSTableReader policies ignore_setid x r;
      if (negb ok && negb ignore_bad_files)%bool then Some (false, r)
      else merged_open_loop policies ignore_setid ignore_bad_files files r
  end.

(** What opening each of the paths gives is [files]. *)
Definition merged_Open (policies : Policies) (ignore_setid ignore_bad_files : bool) (files : list (option T)) :
    option (bool * MergedReader) :=
  merged_open_loop policies ignore_setid ignore_bad_files files merged_Reset.

(** An [int] sum. *)
Definition merged_EntryCount (r : MergedReader) : Z :=
  fold_left (λ count t, s32 (count + reader_entry_count t)) (tables r) 0.

Fixpoint merged_GetMetaData_loop (key : bytes) (ts : list T) : bytes :=
  match ts with
  | [] => []
  | t :: ts => if negb (bool_decide (reader_metadata key t = [])) then reader_metadata key t else merged_GetMetaData_loop key ts
  end.
Definition merged_GetMetaData (key : bytes) (r : MergedReader) : bytes := merged_GetMetaData_loop key (tables r).

Fixpoint merged_lookup_loop (key : bytes) (ss : list (bytes * SSTableReaderSet)) (ts : list T) : option (option bytes * list T) :=
  match ss with
  | [] => Some (None, ts)
  | (_, s) :: ss =>
      '(v, ts) ← set_Lookup key s ts;
      match v with Some v => Some (Some v, ts) | None => merged_lookup_loop key ss ts end
  end.

Definition merged_Lookup (key : bytes) (r : MergedReader) : option (option bytes * MergedReader) :=
  '(v, ts) ← merged_lookup_loop key (sets r) (tables r);
  Some (v, mkMergedReader (sets r) ts).

(** The merged reader is an SSTableReader too. *)
#[export] Instance merged_table : TableReader MergedReader MergedIterator := {
  reader_seek key r := merged_Seek key (tables r);
  reader_lookup := merged_Lookup;
  reader_entry_count := merged_EntryCount;
  reader_metadata := merged_GetMetaData;
  iter_valid := mg_valid;
  iter_key := mg_key;
  iter_value := mg_value;
  iter_next := merged_Next
}.

End Merged.
Arguments MergedIterator It : clear implicits.
Arguments MergedReader T : clear implicits.

(** ** What a merged iterator shows *)

Section Queue.
Context {T It : Type} {TR : TableReader T It}.
Implicit Types q : list It.
Implicit Types ks : list (list entry).

Definition queue_le (a b : It) : Prop := str_le (iter_key a) (iter_key b).

Lemma iter_lt_le a b : if iter_lt a b then queue_le a b else queue_le b a.
Proof.
  unfold iter_lt, queue_le, str_le. destruct (str_lt (iter_key a) (iter_key b)) eqn:E; [by apply str_lt_asym|].
  case_bool_decide as Ek; [|done]. rewrite Ek in *. by destruct (str_lt (iter_value a) (iter_value b)).
Qed.

Lemma queue_insert_sorted it q : StronglySorted queue_le q → StronglySorted queue_le (queue_insert it q).
Proof.
  induction 1 as [|x q Hs IH Hx]; cbn [queue_insert]; [by repeat constructor|].
  pose proof (iter_lt_le it x) as Hle. destruct (iter_lt it x).
  - constructor; [by constructor|]. constructor; [done|]. eapply Forall_impl; [exact Hx|].
    intros y Hy. unfold queue_le in *. by transitivity (iter_key x).
  - constructor; [done|]. assert (Hq : Forall (queue_le x) (it :: q)) by by constructor.
    assert (Hp : queue_insert it q ≡ₚ it :: q).
    { clear. induction q as [|y q IH]; cbn; [done|]. destruct (iter_lt it y); [done|]. rewrite IH. constructor. }
    by rewrite Hp.
Qed.

Lemma queue_insert_shows it k q ks : Forall2 iterates q ks → iterates it k →
  ∃ ks', Forall2 iterates (queue_insert it q) ks' ∧ ks' ≡ₚ k :: ks.
Proof.
  intros Hq Hk. induction Hq as [|x kx q ks Hx Hq (ks' & IH & Hp)]; cbn [queue_insert]; [exists [k]; by repeat constructor|].
  destruct (iter_lt it x).
  - exists (k :: kx :: ks). by repeat constructor.
  - exists (kx :: ks'). split; [by constructor|]. rewrite Hp. constructor.
Qed.

(** The iterators of the queue, in order, with what each still shows. *)
Record queue_ok q ks : Prop := {
  qu_shows : Forall2 iterates q ks;
  qu_lists : Forall (λ k, k ≠ [] ∧ StronglySorted key_le k) ks;
  qu_sorted : StronglySorted queue_le q
}.

Lemma queue_ok_insert it k q ks : queue_ok q ks → iterates it k → k ≠ [] → StronglySorted key_le k →
  ∃ ks', queue_ok (queue_insert it q) ks' ∧ ks' ≡ₚ k :: ks.
Proof.
  intros [Hs Hl Ho] Hk Hne Hsort. destruct (queue_insert_shows it k q ks Hs Hk) as (ks' & Hs' & Hp).
  exists ks'. split; [|done]. split; [done| |by apply queue_insert_sorted]. rewrite Hp. by constructor.
Qed.

Lemma iterates_head it e k : iterates it (e :: k) → e = (iter_key it, iter_value it).
Proof. by inversion 1. Qed.

(** The first iterator has the least key of all that is left. *)
Lemma queue_head_least it q k ks : queue_ok (it :: q) (k :: ks) →
  Forall (λ e, str_le (iter_key it) e.1) (concat (k :: ks)).
Proof.
  intros [Hs Hl Ho]. apply Forall_concat, Forall_forall. intros k' Hk'. apply list_elem_of_lookup in Hk' as [i Hi].
  destruct (Forall2_lookup_r _ _ _ _ _ Hs Hi) as (x & Hx & Hit).
  destruct (Forall_lookup_1 _ _ _ _ Hl Hi) as [Hne Hsort]. destruct k' as [|e k']; [done|].
  apply iterates_head in Hit as ->.
  assert (Hle : queue_le it x).
  { destruct i as [|i]; [by injection Hx as ->; unfold queue_le|]. apply StronglySorted_inv in Ho as [_ Ho].
    by apply (Forall_lookup_1 _ _ i _ Ho). }
  constructor; [done|]. apply StronglySorted_inv in Hsort as [_ Hall]. eapply Forall_impl; [exact Hall|].
  intros y Hy. unfold key_le in Hy. cbn in Hy. by transitivity (iter_key x).
Qed.

Lemma merged_load_shows n q ks m : (length (concat ks) <= n)%nat → queue_ok q ks → q ≠ [] → iter_queue m = q →
  mg_valid m = true →
  ∃ m' l, merged_LoadItem m = Some m' ∧ iterates m' l ∧ l ≡ₚ concat ks ∧ StronglySorted key_le l.
Proof.
  revert q ks m. induction n as [|n IH]; intros q ks m Hn Hq Hne Hm Hv;
    (destruct q as [|it q]; [done|]); pose proof (qu_shows _ _ Hq) as Hs; apply Forall2_cons_inv_l in Hs as (k & ks' & Hk & Hks & ->);
    pose proof (queue_head_least _ _ _ _ Hq) as Hleast; destruct Hq as [_ Hl Ho]; apply Forall_cons in Hl as [[Hkne Hksort] Hl];
    apply StronglySorted_inv in Ho as [Ho _]; (destruct k as [|e k]; [done|]).
  { cbn in Hn. lia. }
  pose proof (iterates_head _ _ _ Hk) as ->. inversion Hk as [|? it' ? _ Enext Hk']; subst.
  apply StronglySorted_inv in Hksort as [Hksort _].
  assert (Hq1 : ∃ ks1, queue_ok (if iter_valid it' then queue_insert it' q else q) ks1 ∧ concat ks1 ≡ₚ k ++ concat ks').
  { inversion Hk' as [? Hv'|? ? ? Hv' ? ?]; subst; rewrite Hv'; [by exists ks'|].
    destruct (queue_ok_insert it' _ q ks' ltac:(by split) Hk' ltac:(done) Hksort) as (ks1 & Hq1 & Hp).
    exists ks1. split; [done|]. by rewrite Hp. }
  destruct Hq1 as (ks1 & Hq1 & Hp1). unfold merged_LoadItem. rewrite Hm, Enext. cbn [mbind option_bind].
  set (q1 := if iter_valid it' then _ else _) in *. set (m1 := mkMerged _ _ _ q1).
  cbn [concat] in Hleast |- *. rewrite <- app_comm_cons in *. apply Forall_cons in Hleast as [_ Hleast].
  assert (Hstep : ∃ m2 l2, merged_Next m1 = Some m2 ∧ iterates m2 l2 ∧ l2 ≡ₚ concat ks1 ∧ StronglySorted key_le l2).
  { unfold merged_Next. cbn [m1 iter_queue mg_valid mg_key mg_value]. clear Hm m1. clearbody q1. destruct q1 as [|x q1].
    - destruct Hq1 as [Hq1 _ _]. apply Forall2_nil_inv_l in Hq1 as ->. rewrite bool_decide_eq_true_2 by done.
      cbn [negb]. eexists _, []. split; [done|]. split; [by constructor|]. by split; [|constructor].
    - rewrite bool_decide_eq_false_2 by done. cbn [negb]. apply (IH (x :: q1)); [|done|done|done|done].
      rewrite Hp1, length_app. cbn in Hn. rewrite length_app in Hn. lia. }
  destruct Hstep as (m2 & l2 & E2 & Hit2 & Hp2 & Hs2).
  exists m1, ((mg_key m1, mg_value m1) :: l2). split; [done|]. split; [exact (iterates_step m1 m2 l2 Hv E2 Hit2)|].
  split; [by rewrite Hp2, Hp1|]. constructor; [done|]. rewrite Hp2, Hp1. exact Hleast.
Qed.

(** *** Tables without a set *)

Section Plain.
Context {TS : TableSpec T It}.
Context (policies : Policies) (ignore_bad : bool).

Definition plain_meta (meta : list entry) : Prop :=
  FindValue kSSTableSetID meta = [] ∧ FindValue kShardTotalNum meta = [] ∧ FindValue kShardID meta = [].

(** The sets of a reader that was only given such tables. *)
Definition plain_sets (ss : list (bytes * SSTableReaderSet)) : Prop := ss = [] ∨ ∃ s, ss = [([], s)] ∧ set_id s = [].

Lemma LoadSSTableReader_plain t l meta r : holds t l meta → plain_meta meta → plain_sets (sets r) →
  ∃ r', LoadSSTableReader policies false (Some t) r = Some (true, r') ∧ tables r' = tables r ++ [t] ∧ plain_sets (sets r').
Proof.
  intros Hh (E1 & E2 & E3) Hs. destruct (holds_sorted _ _ _ Hh) as [_ Hne]. unfold LoadSSTableReader.
  rewrite (holds_count _ _ _ Hh), !(holds_metadata _ _ _ _ Hh), E1, E2, E3.
  destruct (Z.eqb_spec (Z.of_nat (length l)) 0); [destruct l; [done|cbn in *; lia]|].
  rewrite !(bool_decide_eq_true_2 (([] : bytes) = [])) by done. rewrite !andb_false_r.
  assert (Hset : ∃ s, set_id s = [] ∧ (match map_find [] (sets r) with
      | Some s => Some (s, sets r)
      | None => s ← new_SSTableReaderSet policies [] [] 0; Some (s, map_insert [] s (sets r))
      end) = Some (s, [([], s)])).
  { destruct Hs as [->|(s & -> & Hid)]; [eexists; split; [|reflexivity]; done|by exists s]. }
  destruct Hset as (s & Hid & E). setoid_rewrite E. cbn [mbind option_bind]. unfold AddSSTableReader. rewrite Hid.
  rewrite !bool_decide_eq_true_2 by done. cbn [negb mbind option_bind set_update]. rewrite bool_decide_eq_true_2 by done.
  eexists. split; [done|]. split; [done|]. right. eexists. split; [done|]. done.
Qed.

Lemma merged_open_plain ts : Forall (λ t, ∃ l meta, holds t l meta ∧ plain_meta meta) ts → ∀ r, plain_sets (sets r) →
  tables r ++ ts ≠ [] →
  ∃ r', merged_open_loop policies false ignore_bad (Some <$> ts) r = Some (true, r') ∧ tables r' = tables r ++ ts.
Proof.
  induction 1 as [|t ts (l & meta & Hh & Hm) Hts IH]; intros r Hs Hne; cbn [merged_open_loop fmap list_fmap].
  - rewrite app_nil_r in *. exists r. by rewrite bool_decide_eq_false_2.
  - destruct (LoadSSTableReader_plain t l meta r Hh Hm Hs) as (r1 & -> & Et & Hs1). cbn [mbind option_bind negb andb].
    destruct (IH r1 Hs1) as (r2 & E2 & Et2); [rewrite Et; by destruct (tables r)|]. exists r2. split; [done|].
    by rewrite Et2, Et, <- (assoc_L (++)).
Qed.

End Plain.

(** *** Seeking all the tables *)

Context {TS : TableSpec T It}.

Lemma near_sorted key (l k : list entry) : near key l k → StronglySorted key_le l → StronglySorted key_le k.
Proof.
  intros Hn Hs. assert (Hf : ∀ P (dec : ∀ x, Decision (P x)), StronglySorted key_le (filter P l)).
  { clear Hn. intros P dec. induction Hs as [|x l Hs IH Hx]; [constructor|]. rewrite filter_cons. case_decide; [|done].
    constructor; [done|]. rewrite Forall_forall in *. intros y [_ Hy]%list_elem_of_filter. auto. }
  destruct Hn as [->|(_ & prev & Hp & -> & _)]; rewrite from_key_filter by done; [apply Hf|].
  assert (Ha : Forall (λ e : entry, e.1 = prev) (filter (λ e, e.1 = prev) l)).
  { apply Forall_forall. intros e He. by apply list_elem_of_filter in He as [? _]. }
  assert (Hb : Forall (λ e : entry, str_lt e.1 key = false) (filter (λ e, str_lt e.1 key = false) l)).
  { apply Forall_forall. intros e He. by apply list_elem_of_filter in He as [? _]. }
  specialize (Hf (λ e, str_lt e.1 key = false) _). revert Ha Hb Hf.
  generalize (filter (λ e : entry, e.1 = prev) l) (filter (λ e : entry, str_lt e.1 key = false) l). clear - Hp.
  intros a b Ha Hb Hf. induction Ha as [|e a He Ha IH]; [done|]. cbn. constructor; [done|].
  apply Forall_app. split.
  - eapply Forall_impl; [exact Ha|]. cbn. intros y Hy. unfold key_le. rewrite He, Hy. reflexivity.
  - eapply Forall_impl; [exact Hb|]. cbn. intros y Hy. unfold key_le. rewrite He. apply str_lt_le.
    by apply (str_lt_le_trans _ key).
Qed.

Lemma merged_seek_loop_ok key ts ls : Forall2 (λ t l, ∃ meta, holds t l meta) ts ls →
  ∀ m ks, queue_ok (iter_queue m) ks → (mg_valid m = false → iter_queue m = []) →
  (mg_valid m = true → iter_queue m ≠ []) →
  ∃ m' ks' ns, merged_seek_loop key ts m = Some m' ∧ queue_ok (iter_queue m') ks' ∧
    Forall2 (near key) ls ns ∧ concat ks' ≡ₚ concat ks ++ concat ns ∧
    (mg_valid m' = false → iter_queue m' = []) ∧ (mg_valid m' = true → iter_queue m' ≠ []).
Proof.
  induction 1 as [|t l ts ls (meta & Ht) Hts IH]; intros m ks Hq Hf Hv; cbn [merged_seek_loop].
  { exists m, ks, []. by rewrite app_nil_r. }
  destruct (holds_seek t l meta key Ht) as (it & k & E & Hn & Hit). rewrite E. cbn [mbind option_bind].
  assert (Hk : StronglySorted key_le k) by (apply (near_sorted key l); [done|apply (holds_sorted t l meta Ht)]).
  inversion Hit as [? Hvi|? it' k' Hvi Enext Hk']; subst; rewrite Hvi.
  - destruct (IH m ks Hq Hf Hv) as (m' & ks' & ns & ? & ? & ? & ? & ?). exists m', ks', ([] :: ns).
    split_and!; [done|done| |done|tauto..]. by constructor.
  - destruct (queue_ok_insert it _ _ ks Hq Hit ltac:(done) Hk) as (ks1 & Hq1 & Hp1).
    edestruct (IH (mkMerged (mg_key m) (mg_value m) true (queue_insert it (iter_queue m))) ks1)
      as (m' & ks' & ns & E' & Hq' & Hns & Hp' & Hrest); [done|done| |].
    { intros _ Hnil. destruct Hq1 as [Hq1 _ _]. cbn in Hnil. rewrite Hnil in Hq1. apply Forall2_nil_inv_l in Hq1 as ->.
      by apply Permutation_nil_cons in Hp1. }
    exists m', ks', (((iter_key it, iter_value it) :: k') :: ns). split_and!; [done|done|by constructor| |tauto..].
    rewrite Hp', Hp1. cbn. by rewrite <- Permutation_middle, (Permutation_app_comm k'), <- (assoc_L (++)).
Qed.

End Queue.

(** ** A set of shards *)

Lemma shard_find_set k index p m :
  shard_find k (shard_set index p m) = if decide (index = k) then Some p else shard_find k m.
Proof.
  induction m as [|[i q] m IH]; cbn [shard_set shard_find].
  { destruct (Z.eqb_spec index k), (decide (index = k)); congruence. }
  destruct (Z.ltb_spec index i); [cbn [shard_find]; destruct (Z.eqb_spec index k), (decide (index = k)); congruence|].
  destruct (Z.eqb_spec index i) as [->|]; cbn [shard_find].
  - destruct (Z.eqb_spec i k), (decide (i = k)); congruence.
  - rewrite IH. destruct (Z.eqb_spec i k), (decide (index = k)); congruence.
Qed.

Lemma elem_of_concat {A} (x : A) ls : x ∈ concat ls ↔ ∃ l, x ∈ l ∧ l ∈ ls.
Proof.
  induction ls as [|l ls IH]; cbn; [set_solver|]. rewrite elem_of_app, IH. set_solver.
Qed.

Lemma first_value_none key (l : list entry) : (∀ e, e ∈ l → e.1 ≠ key) → first_value key l = None.
Proof.
  intros H. unfold first_value. rewrite filter_none; [done|]. by apply Forall_forall.
Qed.

(** [Lookup] of one key after another on the same merged reader. *)
Fixpoint merged_lookups `{TableReader T It} (keys : list bytes) (r : MergedReader T) :
    option (list (option bytes) * MergedReader T) :=
  match keys with
  | [] => Some ([], r)
  | key :: keys => '(v, r) ← merged_Lookup key r; '(vs, r) ← merged_lookups keys r; Some (v :: vs, r)
  end.

Section Shards.
Context {T It : Type} `{TS : TableSpec T It}.
Context (policies : Policies) (ignore_setid : bool).
Context (id policy : bytes) (n : Z) (shard : Z → bytes → Z).
Context (Hid : id ≠ []) (Hpolicy : policy ≠ []) (Hpol : policies policy = Some shard).
Context (Hn : fits_in t_int n).

(** The meta data of the table of shard [j]. *)
Definition shard_meta (j : Z) (meta : list entry) : Prop :=
  FindValue kSSTableSetID meta = id ∧ FindValue kShardPolicy meta = policy ∧
  FindValue kShardTotalNum meta = NumberToString t_int n ∧ FindValue kShardID meta = NumberToString t_int j.

(** A table of the set: its shard, and its entries, which the policy sends
    there. *)
Definition is_shard (t : T) (x : Z * list entry) : Prop :=
  (∃ meta, holds t x.2 meta ∧ shard_meta x.1 meta) ∧ 0 <= x.1 < n ∧ Forall (λ e, shard n e.1 = x.1) x.2.

(** The reader after shards [xs] were loaded. *)
Definition sharded (r : MergedReader T) (xs : list (Z * list entry)) : Prop :=
  Forall2 is_shard (tables r) xs ∧
  (xs = [] ∧ sets r = [] ∨
   ∃ m, sets r = [(id, mkSet id policy n m (Some (shard n)))] ∧
     ∀ k, shard_find k m = fst <$> list_find (λ x, x.1 = k) xs).

Lemma number_loads k : fits_in t_int k →
  StringToNumber t_int (NumberToString t_int k) = Some k ∧
  (∀ d, stored_number d (NumberToString t_int k) = k).
Proof.
  intros Hk. assert (E : NumberToString t_int k = signed_decimal k) by (apply (OutputIntegerAsString_eq t_int k []); [by left|done]).
  rewrite E. destruct (StringToNumber_decimal t_int k) as [P S]; [by left|done|]. split; [done|].
  intros d. unfold stored_number. by rewrite P.
Qed.

Lemma list_find_snoc_fst k (xs : list (Z * list entry)) x : Forall (λ y, y.1 ≠ x.1) xs →
  fst <$> list_find (λ x, x.1 = k) (xs ++ [x]) =
  if decide (x.1 = k) then Some (length xs) else fst <$> list_find (λ x, x.1 = k) xs.
Proof.
  intros Hx. destruct (decide (x.1 = k)) as [<-|Hne].
  - rewrite list_find_app_r by (by apply list_find_None). cbn. rewrite decide_True by done. done.
  - destruct (list_find (λ y, y.1 = k) xs) as [[i y]|] eqn:E; [by erewrite list_find_app_l|].
    rewrite list_find_app_r by done. cbn. by rewrite decide_False.
Qed.

Lemma LoadSSTableReader_shard t x r xs : sharded r xs → is_shard t x → Forall (λ y, y.1 ≠ x.1) xs →
  ∃ r', LoadSSTableReader policies ignore_setid (Some t) r = Some (true, r') ∧ sharded r' (xs ++ [x]).
Proof.
  intros [Hr Hset] Ht Hfresh. pose proof Ht as [(meta & Hh & E1 & E2 & E3 & E4) [Hj _]].
  destruct (holds_sorted _ _ _ Hh) as [_ Hne]. unfold LoadSSTableReader.
  rewrite (holds_count _ _ _ Hh), !(holds_metadata _ _ _ _ Hh), E1, E2, E3, E4.
  destruct (Z.eqb_spec (Z.of_nat (length x.2)) 0); [destruct (x.2); [done|cbn in *; lia]|].
  assert (Hjf : fits_in t_int x.1) by (unfold fits_in, min_value, max_value in *; cbn in *; lia).
  destruct (number_loads n Hn) as [-> Sn]. destruct (number_loads x.1 Hjf) as [-> Sj]. rewrite Sn, Sj.
  cbn [bool_decide decide_rel andb]. rewrite !(bool_decide_eq_false_2 (Some _ = None)) by done. cbn [andb].
  rewrite !(bool_decide_eq_false_2 (id = [])) by done. unfold new_SSTableReaderSet.
  rewrite (bool_decide_eq_false_2 (policy = [])), Hpol by done. cbn [mbind option_bind].
  assert (Hset' : ∃ m, (match map_find id (sets r) with
      | Some s => Some (s, sets r)
      | None => Some (mkSet id policy n [] (Some (shard n)), map_insert id (mkSet id policy n [] (Some (shard n))) (sets r))
      end) = Some (mkSet id policy n m (Some (shard n)), [(id, mkSet id policy n m (Some (shard n)))]) ∧
      ∀ k, shard_find k m = fst <$> list_find (λ x, x.1 = k) xs).
  { destruct Hset as [[-> ->]|(m & -> & Hm)]; [by exists []|]. exists m. cbn. by rewrite decide_True. }
  destruct Hset' as (m & E & Hm). setoid_rewrite E. cbn [mbind option_bind]. clear E Hset.
  rewrite length_app. cbn [length]. replace (length (tables r) + 1 - 1)%nat with (length (tables r)) by lia.
  unfold AddSSTableReader. cbn [set_id sharding_policy num_shard set_tables sharding_man].
  rewrite (bool_decide_eq_true_2 (id = id)), (bool_decide_eq_true_2 (policy = policy)), (bool_decide_eq_false_2 (id = [])), Z.eqb_refl by done.
  cbn [negb]. assert (Hnone : list_find (λ y, y.1 = x.1) xs = None) by by apply list_find_None.
  rewrite (bool_decide_eq_false_2 (is_Some _)) by (rewrite Hm, Hnone; by intros []).
  destruct (Z.ltb_spec x.1 0); [lia|]. destruct (Z.leb_spec n x.1); [lia|]. cbn [orb mbind option_bind].
  eexists. split; [done|]. split; cbn [tables sets].
  - apply Forall2_app; [done|]. by constructor.
  - right. eexists. cbn [set_update]. rewrite bool_decide_eq_true_2 by done. split; [done|]. intros k.
    rewrite shard_find_set, list_find_snoc_fst, Hm, (Forall2_length _ _ _ Hr) by done. done.
Qed.

Lemma merged_open_loop_shards ts xs' : Forall2 is_shard ts xs' → ∀ r xs ignore_bad, sharded r xs →
  NoDup (xs ++ xs').*1 → (xs ++ xs' ≠ []) →
  ∃ r', merged_open_loop policies ignore_setid ignore_bad (Some <$> ts) r = Some (true, r') ∧ sharded r' (xs ++ xs').
Proof.
  induction 1 as [|t x ts xs' Ht Hts IH]; intros r xs ignore_bad Hr Hnd Hne; cbn [merged_open_loop fmap list_fmap].
  - rewrite app_nil_r in *. exists r. rewrite bool_decide_eq_false_2; [done|]. intros Hnil. destruct Hr as [Hr _].
    rewrite Hnil in Hr. by apply Forall2_nil_inv_l in Hr.
  - assert (Hfresh : Forall (λ y, y.1 ≠ x.1) xs).
    { apply Forall_forall. intros y Hy E. rewrite fmap_app in Hnd. apply NoDup_app in Hnd as (_ & Hd & _).
      apply (Hd y.1); [by apply list_elem_of_fmap_2|]. rewrite E. by left. }
    destruct (LoadSSTableReader_shard t x r xs Hr Ht Hfresh) as (r1 & E & Hr1). rewrite E. cbn [mbind option_bind negb andb].
    rewrite cons_middle, (assoc_L (++)) in Hnd, Hne |- *. by apply IH.
Qed.

(** A lookup finds what the tables hold together, and the reader stays as it
    was. *)
Lemma sharded_Lookup r xs key : sharded r xs → xs ≠ [] → NoDup xs.*1 →
  ∃ r', merged_Lookup key r = Some (first_value key (concat xs.*2), r') ∧ sharded r' xs.
Proof.
  intros [Hr [[? _]|(m & Es & Hm)]] Hne Hnd; [done|]. unfold merged_Lookup. rewrite Es. cbn [merged_lookup_loop].
  unfold set_Lookup. cbn [sharding_man set_tables]. rewrite Hm.
  assert (Hone : ∀ i x, xs !! i = Some x → x.1 = shard n key → first_value key (concat xs.*2) = first_value key x.2).
  { intros i x Hi Hx. rewrite <- (take_drop_middle _ _ _ Hi), fmap_app, concat_app. cbn [fmap list_fmap concat].
    assert (Hother : ∀ ys, (∀ y, y ∈ ys → ∃ j, xs !! j = Some y ∧ j ≠ i) → first_value key (concat ys.*2) = None).
    { intros ys Hys. apply first_value_none. intros e (l & Hl & He)%elem_of_concat Ek.
      apply list_elem_of_fmap in He as (y & -> & Hy). destruct (Hys y Hy) as (j & Hj & Hji).
      destruct (Forall2_lookup_r _ _ _ _ _ Hr Hj) as (t & _ & _ & _ & Hall). rewrite Forall_forall in Hall.
      specialize (Hall e Hl). rewrite Ek in Hall. apply Hji.
      apply (NoDup_lookup xs.*1 _ _ x.1); [done|rewrite list_lookup_fmap, Hj; cbn; congruence|by rewrite list_lookup_fmap, Hi]. }
    rewrite !first_value_app, Hother, (Hother (drop (S i) xs)); [by destruct (first_value key x.2)| |].
    - intros y [j Hj]%list_elem_of_lookup. rewrite lookup_drop in Hj. exists (S i + j)%nat. split; [done|lia].
    - intros y [j [Hj Hlt]%lookup_take_Some]%list_elem_of_lookup. exists j. split; [done|lia]. }
  destruct (list_find (λ x, x.1 = shard n key) xs) as [[i x]|] eqn:Ef; cbn [fmap option_fmap option_map fst].
  - apply list_find_Some in Ef as (Hi & Hx & _). rewrite (Hone i x Hi Hx).
    destruct (Forall2_lookup_r _ _ _ _ _ Hr Hi) as (t & Ht & (meta & Hh & Hmeta) & Hrest). unfold lookup_at. rewrite Ht.
    cbn [mbind option_bind]. destruct (holds_lookup _ _ _ key Hh) as (t' & -> & Hh'). cbn [mbind option_bind].
    assert (Hr' : Forall2 is_shard (<[i := t']> (tables r)) xs).
    { rewrite <- (list_insert_id xs i x Hi). apply Forall2_insert; [done|]. split; [by exists meta|done]. }
    destruct (first_value key x.2); cbn [mbind option_bind]; (eexists; split; [done|]; split; [done|right; by exists m]).
  - cbn [mbind option_bind]. exists r. split; [|split; [done|right; by exists m]].
    rewrite first_value_none; [rewrite <- Es; by destruct r|].
    intros e (l & Hl & He)%elem_of_concat Ek. apply list_elem_of_fmap in He as (x & -> & Hx).
    apply list_find_None in Ef. rewrite Forall_forall in Ef. apply (Ef x Hx).
    apply list_elem_of_lookup in Hx as [i Hi]. destruct (Forall2_lookup_r _ _ _ _ _ Hr Hi) as (t & _ & _ & _ & Hall).
    rewrite Forall_forall in Hall. rewrite <- Ek. symmetry. by apply Hall.
Qed.

Lemma sharded_lookups r xs keys : sharded r xs → xs ≠ [] → NoDup xs.*1 →
  fst <$> merged_lookups keys r = Some ((λ key, first_value key (concat xs.*2)) <$> keys).
Proof.
  intros Hr Hne Hnd. revert r Hr. induction keys as [|key keys IH]; intros r Hr; [done|]. cbn [merged_lookups].
  destruct (sharded_Lookup r xs key Hr Hne Hnd) as (r' & -> & Hr'). cbn [mbind option_bind].
  specialize (IH r' Hr'). destruct (merged_lookups keys r') as [[vs r2]|]; [|done]. cbn in *. by injection IH as ->.
Qed.

End Shards.

(** ** The theorems *)

(** Seeking in a merged reader, through the interface of its tables.  The
    iterator shows, in key order, what iterators of the tables show from the
    key on, each entry once for every time a table has it: no entry from the
    key on is lost, repeated or made up, and from the empty key these are all
    the entries of all the tables. *)

Section MergedTheorems.
Context {T It : Type} `{TS : TableSpec T It}.

Lemma near_filter key (l k : list entry) : near key l k → StronglySorted key_le l →
  filter (λ e, str_lt e.1 key = false) k = filter (λ e, str_lt e.1 key = false) l.
Proof.
  intros Hn Hs.
  assert (Hid : filter (λ e : entry, str_lt e.1 key = false) (from_key key l) = filter (λ e, str_lt e.1 key = false) l).
  { rewrite from_key_filter by done. rewrite list_filter_filter. apply list_filter_iff. naive_solver. }
  destruct Hn as [->|(_ & prev & Hp & -> & _)]; [done|]. rewrite filter_app, Hid.
  rewrite (filter_none _ (filter (λ e : entry, e.1 = prev) l)); [done|].
  apply Forall_forall. intros e [-> _]%list_elem_of_filter E. congruence.
Qed.

Lemma merged_seek_shows ts ls key : Forall2 (λ t l, ∃ meta, holds t l meta) ts ls →
  ∃ m l, merged_Seek key ts = Some m ∧ iterates m l ∧ StronglySorted key_le l ∧
    filter (λ e, str_lt e.1 key = false) l ≡ₚ filter (λ e, str_lt e.1 key = false) (concat ls) ∧
    (key = [] → l ≡ₚ concat ls).
Proof.
  intros Hts. destruct (merged_seek_loop_ok key ts ls Hts (mkMerged [] [] false []) [])
    as (m & ks & ns & E & Hq & Hns & Hp & Hinv & Hval); [by repeat constructor|done|done|].
  assert (Hsorted : Forall (StronglySorted key_le) ls).
  { clear - Hts. induction Hts as [|t l ts ls (meta & Ht) Hts IH]; constructor; [apply (holds_sorted t l meta Ht)|done]. }
  assert (Hfilter : filter (λ e, str_lt e.1 key = false) (concat ns) = filter (λ e, str_lt e.1 key = false) (concat ls)).
  { clear - Hns Hsorted. induction Hns as [|l k ls ns Hn Hns IH]; [done|]. apply Forall_cons in Hsorted as [Hs Hss].
    cbn. rewrite !filter_app, IH by done. by rewrite (near_filter key l k). }
  assert (Hnil : key = [] → concat ns = concat ls).
  { intros ->. clear - Hns. induction Hns as [|l k ls ns Hn Hns IH]; [done|]. cbn. by rewrite IH, (near_nil l k). }
  unfold merged_Seek, merged_SeekKey. cbn [mg_key mg_value iter_queue]. rewrite E. cbn [mbind option_bind concat app] in *.
  destruct (mg_valid m) eqn:Hv.
  - destruct (merged_load_shows (length (concat ks)) (iter_queue m) ks m) as (m' & l & El & Hit & Hl & Hs); [done|done|auto|done|done|].
    exists m', l. split_and!; try done; [by rewrite Hl, Hp, Hfilter|]. intros Hk. by rewrite Hl, Hp, Hnil.
  - rewrite (Hinv eq_refl) in Hq. destruct Hq as [Hq _ _]. apply Forall2_nil_inv_l in Hq as ->.
    symmetry in Hp. apply Permutation_nil_r in Hp. exists m, []. split_and!; try done.
    + by constructor.
    + constructor.
    + by rewrite <- Hfilter, Hp.
    + intros Hk. by rewrite <- Hnil, Hp.
Qed.

(** C23: a merged reader iterates over the union of its tables. *)
Theorem merged_iterate ts ls key : Forall2 (λ t l, ∃ meta, holds t l meta) ts ls →
  ∃ m l, merged_Seek key ts = Some m ∧ iterates m l ∧ StronglySorted key_le l ∧
    filter (λ e, str_lt e.1 key = false) l ≡ₚ filter (λ e, str_lt e.1 key = false) (concat ls) ∧
    (key = [] → l ≡ₚ concat ls).
Proof. apply merged_seek_shows. Qed.

End MergedTheorems.

(** The meta data of shard [j], as ShardingSSTableWriter sets it. *)
Definition shard_metas (id policy : bytes) (n j : Z) : list entry :=
  [(kShardID, NumberToString t_int j); (kShardTotalNum, NumberToString t_int n); (kShardPolicy, policy); (kSSTableSetID, id)].

Lemma shard_metas_meta id policy n j : shard_meta id policy n j (meta_map (shard_metas id policy n j)).
Proof.
  unfold shard_meta. rewrite !FindValue_first, !meta_map_first. unfold shard_metas. rewrite !first_value_cons. cbn [fst snd].
  split_and!; repeat (rewrite decide_False by (by vm_compute)); by rewrite decide_True by done.
Qed.

Section Files.
Context {M : Machine} `{ReliableDisk} {C : Type} {BC : BlockCache C}.
Context (snap : option BlockCompression) (Hsnap : good_compression snap).
Context (fuel : nat).
#[local] Instance disk_table : TableReader OnDisk (@state C) := on_disk_table fuel.
#[local] Instance disk_spec : TableSpec OnDisk (@state C) := on_disk_spec fuel snap.

Lemma Single_write_holds opt entries meta : acceptable opt entries meta → (length entries < fuel)%nat →
  ∃ f r, Single_write snap opt entries meta = Some (true, Some f) ∧ Open snap f = Some (Some r) ∧
    on_disk_holds fuel snap r (stable_sort entries) (meta_map meta).
Proof.
  intros Ha Hfu. destruct (Single_write_ok snap Hsnap opt entries meta Ha) as (c & chunks & fi & tr & f & E & Hc & Hb & Hf).
  destruct (Open_ok c Hc _ _ _ _ _ _ f Hf snap) as (r & Er & Hr). exists f, r. split; [done|]. split; [done|].
  exists c, (option_compress_type opt), chunks, fi, tr, f. split_and!; try done.
  - apply stable_sort_sorted.
  - by rewrite stable_sort_length.
  - intros Hnil. apply (ac_entries _ _ _ Ha), nil_length_inv. by rewrite <- stable_sort_length, Hnil.
Qed.

Context (policies : Policies) (ignore_setid ignore_bad : bool).
Context (id policy : bytes) (n : Z) (shard : Z → bytes → Z).
Context (Hid : id ≠ []) (Hpolicy : policy ≠ []) (Hpol : policies policy = Some shard).
Context (Hn : fits_in t_int n).

(** Entries a sharding writer may be given for shard [x.1]. *)
Definition shard_entries (opt : WriteOption) (x : Z * list entry) : Prop :=
  acceptable opt x.2 (shard_metas id policy n x.1) ∧ (length x.2 < fuel)%nat ∧
  0 <= x.1 < n ∧ Forall (λ e, shard n e.1 = x.1) x.2.

Lemma shards_open opt xs : Forall (shard_entries opt) xs →
  ∃ fs ts, Forall2 (λ x f, Single_write snap opt x.2 (shard_metas id policy n x.1) = Some (true, Some f)) xs fs ∧
    Forall2 (λ f t, Open snap f = Some (Some t)) fs ts ∧
    Forall2 (is_shard id policy n shard) ts ((λ x, (x.1, stable_sort x.2)) <$> xs).
Proof.
  induction 1 as [|x xs (Ha & Hfu & Hj & Hall) Hxs (fs & ts & Hfs & Hts & Hsh)]; [by exists [], []|].
  destruct (Single_write_holds opt _ _ Ha Hfu) as (f & r & E & Er & Hh).
  exists (f :: fs), (r :: ts). split_and!; [by constructor..|]. cbn [fmap list_fmap]. constructor; [|done].
  split; [|split; [done|]].
  - exists (meta_map (shard_metas id policy n x.1)). split; [done|]. apply shard_metas_meta.
  - cbn [fst snd]. by rewrite stable_sort_perm.
Qed.

(** A sharded set of tables from end to end.  Entries are spread over
    shards by a policy, each shard is written by SingleSSTableWriter with the
    meta data of the set, and the files are opened, in any order and with
    shards missing, by a MergedSSTableReader: opening succeeds, and every
    Lookup, in any sequence, finds the value added first under the key, or
    fails when there is none. *)
Theorem sharded_write_lookup opt xs : Forall (shard_entries opt) xs → NoDup xs.*1 → xs ≠ [] →
  ∃ fs ts r, Forall2 (λ x f, Single_write snap opt x.2 (shard_metas id policy n x.1) = Some (true, Some f)) xs fs ∧
    Forall2 (λ f t, Open snap f = Some (Some t)) fs ts ∧
    merged_Open policies ignore_setid ignore_bad (Some <$> ts) = Some (true, r) ∧
    ∀ keys, fst <$> merged_lookups keys r = Some ((λ key, first_value key (concat xs.*2)) <$> keys).
Proof.
  intros Hxs Hnd Hne. destruct (shards_open opt xs Hxs) as (fs & ts & Hfs & Hts & Hsh).
  set (ys := (λ x, (x.1, stable_sort x.2)) <$> xs) in *.
  assert (Hys : ys.*1 = xs.*1) by (unfold ys; rewrite <- list_fmap_compose; by apply list_fmap_ext).
  assert (Hyne : ys ≠ []) by (unfold ys; by destruct xs).
  destruct (merged_open_loop_shards policies ignore_setid id policy n shard Hid Hpolicy Hpol Hn ts ys Hsh merged_Reset [] ignore_bad)
    as (r & E & Hr); [split; [exact (List.Forall2_nil _)|by left]|cbn [app]; by rewrite Hys|done|].
  exists fs, ts, r. split_and!; try done. intros keys. rewrite (sharded_lookups id policy n shard r ys keys Hr Hyne) by by rewrite Hys.
  f_equal. apply list_fmap_ext. intros _ key _. unfold ys. clear. induction xs as [|x xs IH]; [done|].
  cbn [fmap list_fmap concat]. cbn [snd]. rewrite !first_value_app, IH. unfold first_value. by rewrite stable_sort_stable.
Qed.

End Files.

(** ** Concrete tables *)

#[local] Existing Instance demo_machine.
#[local] Existing Instance good_disk.
#[local] Existing Instance good_disk_reliable.
#[local] Existing Instance one_block.
#[local] Instance demo_table : TableReader OnDisk (@state (LruCache Z DataBlock)) := on_disk_table 9.
#[local] Instance demo_spec : TableSpec OnDisk (@state (LruCache Z DataBlock)) := on_disk_spec 9 demo_snappy.

(** A policy that sends keys to shards by their first character. *)
Definition demo_policies : Policies :=
  λ name, if bool_decide (name = str "First") then Some (λ n key, default 0 (head key) mod n) else None.

Definition demo_shards : list (Z * list entry) :=
  [(1, [(str "c", str "3"); (str "a", str "1"); (str "a", str "2")]); (0, [(str "b", str "x")])].

Example merged_iterate_witness :
  ∃ r m l, Open demo_snappy demo_file = Some (Some r) ∧ merged_Seek [] [r; r] = Some m ∧ iterates m l ∧
    l ≡ₚ stable_sort demo_entries ++ stable_sort demo_entries.
Proof.
  destruct (Single_write_holds demo_snappy demo_snappy_good 9 demo_option demo_entries demo_meta demo_acceptable)
    as (f & r & E & Er & Hh); [cbn; lia|].
  destruct (merged_iterate [r; r] [stable_sort demo_entries; stable_sort demo_entries] []) as (m & l & Es & Hit & _ & _ & Hl).
  { repeat constructor; by eexists. }
  exists r, m, l. split; [|split; [done|split; [done|]]].
  - unfold demo_file. by rewrite E.
  - rewrite Hl by done. cbn [concat]. by rewrite app_nil_r.
Defined.

Example sharded_write_lookup_witness :
  ∃ ts r, merged_Open demo_policies false false (Some <$> ts) = Some (true, r) ∧
    fst <$> merged_lookups [str "a"; str "b"; str "d"] r = Some [Some (str "1"); Some (str "x"); None].
Proof.
  destruct (sharded_write_lookup demo_snappy demo_snappy_good 9 demo_policies false false (str "7") (str "First") 2
    (λ n key, default 0 (head key) mod n)) with (opt := demo_option) (xs := demo_shards)
    as (fs & ts & r & _ & _ & E & H); [done|done|done|by vm_compute| | |done|].
  - repeat constructor; try (by cbn; lia); try (by vm_compute);
      try (by left); try (apply (bool_decide_unpack _); vm_compute; exact I).
  - apply (bool_decide_unpack _). vm_compute. exact I.
  - exists ts, r. split; [exact E|]. rewrite H. vm_compute. reflexivity.
Defined.
