(* ===== verification/StringPiece.v ===== *)
(** * String pieces and memory comparison

    Model of base/string/string_piece.h, string_piece.cpp, compare.h and
    compare.cpp.  A [StringPiece] is the bytes it points to; a size is a
    [nat], the position [npos] as a result is [None], and as an argument the
    greatest size.  Memory is a list of bytes; an unaligned load of a word
    reads its bytes with the least significant first, as the x86 targets do
    on which the source uses word comparisons ([memcmp] elsewhere), and a load
    past the end of the memory is [None]. *)

From Stdlib Require Import Sorting.Sorted.
From S2P Require Import Prelude CType StdString.

(** ** Loads *)

Fixpoint le_value (s : bytes) : Z :=
  match s with [] => 0 | b :: s => b + 256 * le_value s end.

(** [GetUnaligned] of an unsigned type of [n] bytes. *)
Definition load (n : nat) (p : bytes) : option Z :=
  if (n <=? length p)%nat then Some (le_value (take n p)) else None.

(** Comparing the words, or the bytes, at an offset. *)
Definition words_eq (n off : nat) (p1 p2 : bytes) : option bool :=
  a ← load n (drop off p1); b ← load n (drop off p2); Some (a =? b).
Definition byte_eq (off : nat) (p1 p2 : bytes) : option bool :=
  a ← p1 !! off; b ← p2 !! off; Some (a =? b).

(** [a && b] *)
Definition and_then (a b : option bool) : option bool := x ← a; if (x : bool) then b else Some false.
Infix "&&&" := and_then (at level 40, left associativity).

(** ** compare.h: memory *)

Definition memeql_2 (p1 p2 : bytes) : option bool := words_eq 2 0 p1 p2.
Definition memeql_3 (p1 p2 : bytes) : option bool := words_eq 2 0 p1 p2 &&& byte_eq 2 p1 p2.
Definition memeql_4 (p1 p2 : bytes) : option bool := words_eq 4 0 p1 p2.
Definition memeql_5 (p1 p2 : bytes) : option bool := words_eq 4 0 p1 p2 &&& byte_eq 4 p1 p2.
Definition memeql_6 (p1 p2 : bytes) : option bool := words_eq 4 0 p1 p2 &&& words_eq 2 4 p1 p2.
Definition memeql_7 (p1 p2 : bytes) : option bool := words_eq 4 0 p1 p2 &&& words_eq 2 4 p1 p2 &&& byte_eq 6 p1 p2.
Definition memeql_8 (p1 p2 : bytes) : option bool := words_eq 8 0 p1 p2.
Definition memeql_9 (p1 p2 : bytes) : option bool := words_eq 8 0 p1 p2 &&& byte_eq 8 p1 p2.
Definition memeql_10 (p1 p2 : bytes) : option bool := words_eq 8 0 p1 p2 &&& words_eq 2 8 p1 p2.
Definition memeql_11 (p1 p2 : bytes) : option bool := words_eq 8 0 p1 p2 &&& words_eq 2 8 p1 p2 &&& byte_eq 10 p1 p2.
Definition memeql_12 (p1 p2 : bytes) : option bool := words_eq 8 0 p1 p2 &&& words_eq 4 8 p1 p2.
Definition memeql_13 (p1 p2 : bytes) : option bool := words_eq 8 0 p1 p2 &&& words_eq 4 8 p1 p2 &&& byte_eq 12 p1 p2.
Definition memeql_14 (p1 p2 : bytes) : option bool := words_eq 8 0 p1 p2 &&& words_eq 4 8 p1 p2 &&& words_eq 2 12 p1 p2.
Definition memeql_15 (p1 p2 : bytes) : option bool :=
  words_eq 8 0 p1 p2 &&& words_eq 4 8 p1 p2 &&& words_eq 2 12 p1 p2 &&& byte_eq 14 p1 p2.
Definition memeql_16 (p1 p2 : bytes) : option bool := words_eq 8 0 p1 p2 &&& words_eq 8 8 p1 p2.

(** What is left below a word. *)
Definition memeql_tail (p1 p2 : bytes) (size : nat) : option bool :=
  (if (4 <=? size)%nat then words_eq 4 0 p1 p2 else Some true) &&&
  let '(p1, p2, size) := if (4 <=? size)%nat then (drop 4 p1, drop 4 p2, size - 4)%nat else (p1, p2, size) in
  (if (2 <=? size)%nat then words_eq 2 0 p1 p2 else Some true) &&&
  let '(p1, p2, size) := if (2 <=? size)%nat then (drop 2 p1, drop 2 p2, size - 2)%nat else (p1, p2, size) in
  if (size =? 1)%nat then byte_eq 0 p1 p2 else Some true.

(** [while (size >= 8)]: no more turns than the size. *)
Fixpoint memeql_loop (fuel : nat) (p1 p2 : bytes) (size : nat) : option bool :=
  match fuel with
  | O => None
  | S fuel =>
      if (8 <=? size)%nat then words_eq 8 0 p1 p2 &&& memeql_loop fuel (drop 8 p1) (drop 8 p2) (size - 8)
      else memeql_tail p1 p2 size
  end.

Definition memeql (p1 p2 : bytes) (size : nat) : option bool :=
  match size with
  | 0 => Some true
  | 1 => byte_eq 0 p1 p2
  | 2 => memeql_2 p1 p2
  | 3 => memeql_3 p1 p2
  | 4 => memeql_4 p1 p2
  | 5 => memeql_5 p1 p2
  | 6 => memeql_6 p1 p2
  | 7 => memeql_7 p1 p2
  | 8 => memeql_8 p1 p2
  | 9 => memeql_9 p1 p2
  | 10 => memeql_10 p1 p2
  | 11 => memeql_11 p1 p2
  | 12 => memeql_12 p1 p2
  | 13 => memeql_13 p1 p2
  | 14 => memeql_14 p1 p2
  | 15 => memeql_15 p1 p2
  | 16 => memeql_16 p1 p2
  | _ => memeql_loop (S size) p1 p2 size
  end%nat.

Definition MemoryEqual := memeql.

(** [memcasecmp]: an [int] holds the difference of two characters. *)
Fixpoint memcasecmp (s1 s2 : bytes) (n : nat) : option Z :=
  match n with
  | O => Some 0
  | S n =>
      match s1, s2 with
      | u1 :: s1, u2 :: s2 =>
          let diff := toupper u1 - toupper u2 in
          if diff =? 0 then memcasecmp s1 s2 n else Some diff
      | _, _ => None
      end
  end.

(** [COMPARE_MEMORY_ONE_BYTE] up to [k] times: the difference and the
    position, or the position reached. *)
Fixpoint compare_bytes (k : nat) (a b : bytes) (pos : nat) : option (Z * nat + nat) :=
  match k with
  | O => Some (inr pos)
  | S k =>
      x ← a !! pos; y ← b !! pos;
      if x - y =? 0 then compare_bytes k a b (S pos) else Some (inl (x - y, pos))
  end.

(** [while (pos <= end_pos)]: a word that differs has a byte that differs. *)
Fixpoint compare_words (fuel : nat) (a b : bytes) (len pos : nat) : option (Z * nat) :=
  match fuel with
  | O => None
  | S fuel =>
      if (pos + 8 <=? len)%nat then
        same ← words_eq 8 pos a b;
        if (same : bool) then compare_words fuel a b len (pos + 8)
        else
          r ← compare_bytes 8 a b pos;
          match r with inl r => Some r | inr _ => None end
      else
        r ← compare_bytes (len - pos) a b pos;
        match r with inl r => Some r | inr _ => Some (0, len) end
  end.

(** The result and [*prefix_length]; [None] is the [assert] or a read out of
    bounds. *)
Definition CompareMemory (a b : bytes) (len : nat) : option (Z * nat) := compare_words (S len) a b len 0.

Definition GetCommonPrefixLength (lhs rhs : bytes) : option nat :=
  let common_length := if (length lhs <? length rhs)%nat then length lhs else length rhs in
  snd <$> CompareMemory lhs rhs common_length.

(** The two loops of [CompareByteString]. *)
Fixpoint skip_words (fuel : nat) (p1 p2 : bytes) (min_len pos : nat) : option nat :=
  match fuel with
  | O => None
  | S fuel =>
      if (pos + 8 <=? min_len)%nat then
        same ← words_eq 8 pos p1 p2;
        if (same : bool) then skip_words fuel p1 p2 min_len (pos + 8) else Some pos
      else Some pos
  end.

Fixpoint skip_bytes (fuel : nat) (p1 p2 : bytes) (min_len pos : nat) : option nat :=
  match fuel with
  | O => None
  | S fuel =>
      if (pos <? min_len)%nat then
        same ← byte_eq pos p1 p2;
        if (same : bool) then skip_bytes fuel p1 p2 min_len (S pos) else Some pos
      else Some pos
  end.

(** The result, [*inclusive] and [*common_prefix_len]. *)
Definition CompareByteString (lhs rhs : bytes) : option (Z * bool * nat) :=
  let lhs_len := length lhs in
  let rhs_len := length rhs in
  let min_len := if (lhs_len <=? rhs_len)%nat then lhs_len else rhs_len in
  pos ← skip_words (S min_len) lhs rhs min_len 0;
  pos ← skip_bytes (S min_len) lhs rhs min_len pos;
  if (pos =? min_len)%nat then
    Some (if (rhs_len <? lhs_len)%nat then 1 else if (lhs_len =? rhs_len)%nat then 0 else -1, true, pos)
  else
    x ← lhs !! pos; y ← rhs !! pos; Some (x - y, false, pos).

(** ** class StringPiece *)

(** [operator==] *)
Definition piece_eq (x y : bytes) : option bool :=
  if (length x =? length y)%nat then MemoryEqual x y (length x) else Some false.

(** [memcmp]: the sign is that of the first difference. *)
Fixpoint memcmp (a b : bytes) (n : nat) : Z :=
  match n, a, b with
  | S n, x :: a, y :: b => if x =? y then memcmp a b n else x - y
  | _, _, _ => 0
  end.

Definition compare (s x : bytes) : Z :=
  let r := memcmp s x (if (length s <? length x)%nat then length s else length x) in
  if negb (r =? 0) then r
  else if (length s <? length x)%nat then -1
  else if (length x <? length s)%nat then 1
  else 0.

Definition ignore_case_compare (s x : bytes) : option Z :=
  r ← memcasecmp s x (if (length s <? length x)%nat then length s else length x);
  Some (if negb (r =? 0) then r
        else if (length s <? length x)%nat then -1
        else if (length x <? length s)%nat then 1
        else 0).

Definition ignore_case_equal (s other : bytes) : option bool :=
  if (length s =? length other)%nat then r ← memcasecmp s other (length s); Some (r =? 0) else Some false.

Definition starts_with (s x : bytes) : option bool :=
  if (length x <=? length s)%nat then MemoryEqual s x (length x) else Some false.

Definition ends_with (s x : bytes) : option bool :=
  if (length x <=? length s)%nat then MemoryEqual (drop (length s - length x) s) x (length x) else Some false.

(** [substr]; without [n] the rest. *)
Definition substr (s : bytes) (pos : nat) (n : option nat) : bytes :=
  let pos := if (length s <? pos)%nat then length s else pos in
  match n with
  | Some n => take (if (length s - pos <? n)%nat then length s - pos else n)%nat (drop pos s)
  | None => drop pos s
  end.

Definition remove_prefix (n : nat) (s : bytes) : bytes := drop n s.
Definition remove_suffix (n : nat) (s : bytes) : bytes := take (length s - n) s.

(** [copy]: what is written to the buffer, and the count. *)
Definition copy (s : bytes) (n pos : nat) : bytes * nat :=
  let ret := Nat.min (length s - pos) n in (take ret (drop pos s), ret).

(** *** Searching *)

(** [std::search]: the place of the first occurrence, or the end. *)
Fixpoint std_search (s x : bytes) : nat :=
  if bool_decide (take (length x) s = x) then 0%nat
  else match s with [] => 0%nat | _ :: s => S (std_search s x) end.

(** [std::find_end] of a pattern that is not empty. *)
Fixpoint std_find_end (s x : bytes) : option nat :=
  match s with
  | [] => None
  | _ :: s' =>
      match std_find_end s' x with
      | Some i => Some (S i)
      | None => if bool_decide (take (length x) s = x) then Some 0%nat else None
      end
  end.

(** [std::find] *)
Fixpoint std_find (s : bytes) (c : Z) : nat :=
  match s with [] => 0%nat | x :: s => if x =? c then 0%nat else S (std_find s c) end.

(** [std::min(n, pos)] *)
Definition min_pos (n : nat) (pos : option nat) : nat := match pos with Some p => Nat.min n p | None => n end.

Definition find (s x : bytes) (pos : nat) : option nat :=
  if (length s <? pos)%nat then None
  else
    let xpos := (pos + std_search (drop pos s) x)%nat in
    if (xpos + length x <=? length s)%nat then Some xpos else None.

Definition find_char (s : bytes) (c : Z) (pos : nat) : option nat :=
  if (length s <=? pos)%nat then None
  else
    let result := (pos + std_find (drop pos s) c)%nat in
    if negb (result =? length s)%nat then Some result else None.

Definition rfind (s x : bytes) (pos : option nat) : option nat :=
  if (length s <? length x)%nat then None
  else if bool_decide (x = []) then Some (min_pos (length s) pos)
  else std_find_end (take (min_pos (length s - length x) pos + length x) s) x.

(** The loops over the positions [i], [i - 1], ..., 0. *)
Fixpoint search_back (P : Z → bool) (s : bytes) (i : nat) : option nat :=
  if P (default 0 (s !! i)) then Some i
  else match i with O => None | S i => search_back P s i end.

Definition rfind_char (s : bytes) (c : Z) (pos : option nat) : option nat :=
  if (length s =? 0)%nat then None else search_back (λ x, x =? c) s (min_pos (length s - 1) pos).

(** The loops over the positions [i], [i + 1], ... below the length. *)
Fixpoint search_on (P : Z → bool) (s : bytes) (i : nat) : option nat :=
  match s with [] => None | x :: s => if P x then Some i else search_on P s (S i) end.

Definition BuildLookupTable (characters_wanted : bytes) (table : list bool) : list bool :=
  fold_left (λ t c, <[Z.to_nat (u8 c) := true]> t) characters_wanted table.
Definition lookup_table (s : bytes) : list bool := BuildLookupTable s (replicate 256 false).
Definition in_table (t : list bool) (c : Z) : bool := default false (t !! Z.to_nat (u8 c)).

Definition find_first_of (s x : bytes) (pos : nat) : option nat :=
  if ((length s =? 0) || (length x =? 0))%nat%bool then None
  else if (length x =? 1)%nat then find_char s (default 0 (head x)) pos
  else search_on (in_table (lookup_table x)) (drop pos s) pos.

Definition find_first_not_of_char (s : bytes) (c : Z) (pos : nat) : option nat :=
  if (length s =? 0)%nat then None else search_on (λ x, negb (x =? c)) (drop pos s) pos.

Definition find_first_not_of (s x : bytes) (pos : nat) : option nat :=
  if (length s =? 0)%nat then None
  else if (length x =? 0)%nat then Some 0%nat
  else if (length x =? 1)%nat then find_first_not_of_char s (default 0 (head x)) pos
  else search_on (λ c, negb (in_table (lookup_table x) c)) (drop pos s) pos.

Definition find_last_of (s x : bytes) (pos : option nat) : option nat :=
  if ((length s =? 0) || (length x =? 0))%nat%bool then None
  else if (length x =? 1)%nat then rfind_char s (default 0 (head x)) pos
  else search_back (in_table (lookup_table x)) s (min_pos (length s - 1) pos).

Definition find_last_not_of_char (s : bytes) (c : Z) (pos : option nat) : option nat :=
  if (length s =? 0)%nat then None else search_back (λ x, negb (x =? c)) s (min_pos (length s - 1) pos).

Definition find_last_not_of (s x : bytes) (pos : option nat) : option nat :=
  if (length s =? 0)%nat then None
  else
    let i := min_pos (length s - 1) pos in
    if (length x =? 0)%nat then Some i
    else if (length x =? 1)%nat then find_last_not_of_char s (default 0 (head x)) pos
    else search_back (λ c, negb (in_table (lookup_table x) c)) s i.

(** ** Word comparisons are comparisons of bytes *)

Lemma le_value_inj a b : bytes_ok a → bytes_ok b → length a = length b → le_value a = le_value b → a = b.
Proof.
  intros Ha. revert b. induction Ha as [|x a Hx Ha IH]; intros [|y b] Hb Hl E; try done.
  apply Forall_cons in Hb as [Hy Hb]. cbn in *. unfold is_byte in *.
  assert (x = y ∧ le_value a = le_value b) as [-> E'] by lia. f_equal. apply IH; [done|lia|done].
Qed.

Section Memory.
Context (p1 p2 : bytes) (Hp1 : bytes_ok p1) (Hp2 : bytes_ok p2).

(** The first [k] bytes agree. *)
Definition agree (p1 p2 : bytes) (k : nat) : option bool := Some (bool_decide (take k p1 = take k p2)).

Lemma words_eq_spec n off : (off + n <= length p1)%nat → (off + n <= length p2)%nat →
  words_eq n off p1 p2 = agree (drop off p1) (drop off p2) n.
Proof.
  intros H1 H2. unfold words_eq, load, agree. rewrite !length_drop.
  destruct (Nat.leb_spec n (length p1 - off)); [|lia]. destruct (Nat.leb_spec n (length p2 - off)); [|lia].
  cbn [mbind option_bind]. f_equal. apply eq_true_iff_eq. rewrite Z.eqb_eq, bool_decide_eq_true.
  split; [|by intros ->]. apply le_value_inj; [by apply Forall_take, Forall_drop..|].
  rewrite !length_take, !length_drop. lia.
Qed.

Lemma byte_eq_spec off : (off < length p1)%nat → (off < length p2)%nat →
  byte_eq off p1 p2 = agree (drop off p1) (drop off p2) 1.
Proof.
  intros H1 H2. unfold byte_eq, agree. destruct (lookup_lt_is_Some_2 _ _ H1) as [x Hx].
  destruct (lookup_lt_is_Some_2 _ _ H2) as [y Hy]. rewrite (drop_S _ _ _ Hx), (drop_S _ _ _ Hy), Hx, Hy. cbn.
  rewrite !take_0. f_equal. apply eq_true_iff_eq. rewrite Z.eqb_eq, bool_decide_eq_true. split; [by intros ->|by intros [=]].
Qed.

End Memory.

Lemma agree_step p1 p2 a b : agree p1 p2 a &&& agree (drop a p1) (drop a p2) b = agree p1 p2 (a + b).
Proof.
  unfold agree, and_then. cbn. case_bool_decide as E; f_equal.
  - apply eq_true_iff_eq. rewrite !bool_decide_eq_true, <- !take_take_drop, E. split; [by intros ->|apply app_inv_head].
  - symmetry. apply bool_decide_eq_false. intros E'. apply E. apply (f_equal (take a)) in E'.
    by rewrite !take_take, Nat.min_l in E' by lia.
Qed.

Lemma word_step p1 p2 off n : bytes_ok p1 → bytes_ok p2 → (off + n <= length p1)%nat → (off + n <= length p2)%nat →
  agree p1 p2 off &&& words_eq n off p1 p2 = agree p1 p2 (off + n).
Proof. intros. by rewrite words_eq_spec, agree_step. Qed.

Lemma byte_step p1 p2 off : bytes_ok p1 → bytes_ok p2 → (off < length p1)%nat → (off < length p2)%nat →
  agree p1 p2 off &&& byte_eq off p1 p2 = agree p1 p2 (off + 1).
Proof. intros. by rewrite byte_eq_spec, agree_step. Qed.

Lemma memeql_tail_spec p1 p2 size : bytes_ok p1 → bytes_ok p2 → (size <= length p1)%nat → (size <= length p2)%nat →
  (size < 8)%nat → memeql_tail p1 p2 size = agree p1 p2 size.
Proof.
  intros B1 B2 H1 H2 Hs. unfold memeql_tail.
  assert (H1tail : ∀ q1 q2 k, bytes_ok q1 → bytes_ok q2 → (k <= length q1)%nat → (k <= length q2)%nat → (k < 2)%nat →
    (if (k =? 1)%nat then byte_eq 0 q1 q2 else Some true) = agree q1 q2 k).
  { intros q1 q2 k C1 C2 L1 L2 Hk. destruct (Nat.eqb_spec k 1) as [->|]; [by rewrite byte_eq_spec|].
    replace k with 0%nat by lia. unfold agree. by rewrite !take_0, bool_decide_eq_true_2. }
  assert (H2tail : ∀ q1 q2 k, bytes_ok q1 → bytes_ok q2 → (k <= length q1)%nat → (k <= length q2)%nat → (k < 4)%nat →
    (if (2 <=? k)%nat then words_eq 2 0 q1 q2 else Some true) &&&
    (let '(q1, q2, k) := if (2 <=? k)%nat then (drop 2 q1, drop 2 q2, k - 2)%nat else (q1, q2, k) in
     if (k =? 1)%nat then byte_eq 0 q1 q2 else Some true) = agree q1 q2 k).
  { intros q1 q2 k C1 C2 L1 L2 Hk. destruct (Nat.leb_spec 2 k); [|by apply H1tail].
    rewrite H1tail, words_eq_spec by (first [by apply Forall_drop | rewrite ?length_drop; done || lia]).
    rewrite !drop_0, agree_step. f_equal. lia. }
  destruct (Nat.leb_spec 4 size); [|by apply H2tail].
  rewrite H2tail, words_eq_spec by (first [by apply Forall_drop | rewrite ?length_drop; done || lia]).
  rewrite !drop_0, agree_step. f_equal. lia.
Qed.

Lemma memeql_loop_spec fuel p1 p2 size : bytes_ok p1 → bytes_ok p2 → (size <= length p1)%nat → (size <= length p2)%nat →
  (size < fuel)%nat → memeql_loop fuel p1 p2 size = agree p1 p2 size.
Proof.
  revert p1 p2 size. induction fuel as [|fuel IH]; intros p1 p2 size B1 B2 H1 H2 Hf; [lia|]. cbn [memeql_loop].
  destruct (Nat.leb_spec 8 size); [|by apply memeql_tail_spec].
  rewrite words_eq_spec, !drop_0, IH by (first [by apply Forall_drop | rewrite ?length_drop; done || lia]).
  rewrite agree_step. f_equal. lia.
Qed.

(** Every size, the special cases too. *)
Lemma memeql_agree p1 p2 size : bytes_ok p1 → bytes_ok p2 → (size <= length p1)%nat → (size <= length p2)%nat →
  memeql p1 p2 size = agree p1 p2 size.
Proof.
  intros B1 B2 H1 H2.
  assert (W0 : ∀ n, (n <= size)%nat → words_eq n 0 p1 p2 = agree p1 p2 n) by (intros; by rewrite words_eq_spec by (done || lia)).
  destruct size as [|[|[|[|[|[|[|[|[|[|[|[|[|[|[|[|[|size]]]]]]]]]]]]]]]]];
    cbn [memeql]; [..|by apply memeql_loop_spec; try done; lia].
  { unfold agree. by rewrite !take_0, bool_decide_eq_true_2. }
  { by apply (byte_eq_spec p1 p2 0). }
  all: unfold memeql_2, memeql_3, memeql_4, memeql_5, memeql_6, memeql_7, memeql_8, memeql_9, memeql_10, memeql_11, memeql_12,
    memeql_13, memeql_14, memeql_15, memeql_16; rewrite W0 by lia; rewrite ?word_step by (done || lia);
    rewrite ?byte_step by (done || lia); done.
Qed.

(** ** The order of byte strings *)

(** The reference: the length of the common prefix. *)
Fixpoint common_prefix (a b : bytes) : nat :=
  match a, b with
  | x :: a, y :: b => if x =? y then S (common_prefix a b) else 0%nat
  | _, _ => 0%nat
  end.

Lemma common_prefix_le a b : (common_prefix a b <= length a)%nat ∧ (common_prefix a b <= length b)%nat.
Proof.
  revert b. induction a as [|x a IH]; intros [|y b]; cbn; try lia. destruct (x =? y); [|lia].
  destruct (IH b). lia.
Qed.

Lemma common_prefix_before a b i : (i < common_prefix a b)%nat → ∃ x, a !! i = Some x ∧ b !! i = Some x.
Proof.
  revert b i. induction a as [|x a IH]; intros [|y b] i Hi; cbn in Hi; try lia.
  destruct (Z.eqb_spec x y) as [->|]; [|lia]. destruct i as [|i]; [by exists y|]. apply (IH b i). lia.
Qed.

Lemma common_prefix_at a b x y : a !! common_prefix a b = Some x → b !! common_prefix a b = Some y → x ≠ y.
Proof.
  revert b. induction a as [|u a IH]; intros [|v b]; cbn [common_prefix]; try done.
  destruct (Z.eqb_spec u v) as [->|]; [apply IH|]. intros [= <-] [= <-]. done.
Qed.

Section Compare.
Context (a b : bytes) (Ha : bytes_ok a) (Hb : bytes_ok b).
Let c := common_prefix a b.
Let diff : Z := default 0 (a !! c) - default 0 (b !! c).

Lemma diff_nonzero : (c < length a)%nat → (c < length b)%nat → diff ≠ 0.
Proof.
  intros H1 H2. unfold diff. destruct (lookup_lt_is_Some_2 _ _ H1) as [x Hx].
  destruct (lookup_lt_is_Some_2 _ _ H2) as [y Hy]. rewrite Hx, Hy. cbn.
  pose proof (common_prefix_at a b x y Hx Hy). lia.
Qed.

Lemma byte_at i : (i < length a)%nat → (i < length b)%nat → (i <= c)%nat →
  ∃ x y, a !! i = Some x ∧ b !! i = Some y ∧ (x = y ↔ (i < c)%nat) ∧ (i = c → x - y = diff).
Proof.
  intros H1 H2 Hi. destruct (decide (i < c)%nat) as [Hlt|].
  - destruct (common_prefix_before a b i Hlt) as (x & Hx & Hy). exists x, x. split_and!; [done|done|tauto|lia].
  - assert (i = c) as -> by lia. destruct (lookup_lt_is_Some_2 _ _ H1) as [x Hx].
    destruct (lookup_lt_is_Some_2 _ _ H2) as [y Hy]. exists x, y. split_and!; [done|done| |].
    + split; [|lia]. intros ->. by destruct (common_prefix_at a b y y Hx Hy).
    + intros _. unfold diff. by rewrite Hx, Hy.
Qed.

Lemma compare_bytes_spec k pos : (pos + k <= length a)%nat → (pos + k <= length b)%nat → (pos <= c)%nat →
  compare_bytes k a b pos = Some (if decide (c < pos + k)%nat then inl (diff, c) else inr (pos + k)%nat).
Proof.
  revert pos. induction k as [|k IH]; intros pos H1 H2 Hp; cbn [compare_bytes].
  { rewrite decide_False by lia. by rewrite Nat.add_0_r. }
  destruct (byte_at pos) as (x & y & -> & -> & Heq & Hd); [lia..|]. cbn [mbind option_bind].
  destruct (Z.eqb_spec (x - y) 0) as [E|E].
  - assert (x = y) as Exy by lia. apply Heq in Exy. rewrite IH by lia.
    rewrite Nat.add_succ_r, <- Nat.add_succ_l. done.
  - assert (pos = c) as <-. { destruct (decide (pos < c)%nat) as [Hlt|]; [|lia]. apply Heq in Hlt. lia. }
    rewrite decide_True by lia. by rewrite Hd.
Qed.

Lemma words_agree pos n : (pos + n <= length a)%nat → (pos + n <= length b)%nat → (pos <= c)%nat →
  words_eq n pos a b = Some (bool_decide (pos + n <= c)%nat).
Proof.
  intros H1 H2 Hp. rewrite words_eq_spec by done. unfold agree. f_equal. apply bool_decide_ext. split.
  - intros E. apply Nat.nlt_ge. intros Hlt. destruct (byte_at c) as (x & y & Hx & Hy & Heq & _); [lia..|].
    apply (f_equal (.!! (c - pos)%nat)) in E. rewrite !lookup_take, !lookup_drop in E by lia.
    replace (pos + (c - pos))%nat with c in E by lia. rewrite Hx, Hy in E.
    rewrite !decide_True in E by lia. injection E as E. apply Heq in E. lia.
  - intros Hc. apply list_eq. intros i. destruct (decide (i < n)%nat).
    + rewrite !lookup_take, !lookup_drop by done.
      destruct (common_prefix_before a b (pos + i)) as (x & Hx & Hy); [fold c; lia|]. by rewrite Hx, Hy.
    + rewrite !lookup_take_ge by lia. done.
Qed.

Lemma compare_words_spec fuel len pos : (len <= length a)%nat → (len <= length b)%nat → (pos <= len)%nat →
  (pos <= c)%nat → (len - pos < fuel)%nat →
  compare_words fuel a b len pos = Some (if decide (c < len)%nat then (diff, c) else (0, len)).
Proof.
  revert pos. induction fuel as [|fuel IH]; intros pos H1 H2 Hp Hc Hf; [lia|]. cbn [compare_words].
  destruct (Nat.leb_spec (pos + 8) len).
  - rewrite words_agree by lia. cbn [mbind option_bind]. case_bool_decide; [apply IH; lia|].
    rewrite compare_bytes_spec by lia. cbn [mbind option_bind]. by rewrite !decide_True by lia.
  - rewrite compare_bytes_spec by lia. cbn [mbind option_bind]. rewrite !Nat.add_sub_assoc, Nat.add_comm, Nat.add_sub by lia.
    by case_decide.
Qed.

Lemma skip_words_spec fuel n pos : (n <= length a)%nat → (n <= length b)%nat → (pos <= c)%nat →
  (n - pos < fuel)%nat → ∃ pos', skip_words fuel a b n pos = Some pos' ∧ (pos <= pos')%nat ∧ (pos' <= c)%nat.
Proof.
  revert pos. induction fuel as [|fuel IH]; intros pos H1 H2 Hc Hf; [lia|]. cbn [skip_words].
  destruct (Nat.leb_spec (pos + 8) n); [|by exists pos]. rewrite words_agree by lia. cbn [mbind option_bind].
  case_bool_decide; [|by exists pos]. destruct (IH (pos + 8)%nat) as (p & ? & ? & ?); [lia..|]. exists p. split_and!; [done|lia|done].
Qed.

Lemma skip_bytes_spec fuel n pos : (n <= length a)%nat → (n <= length b)%nat → (pos <= c)%nat → (c <= n)%nat →
  (n - pos < fuel)%nat → skip_bytes fuel a b n pos = Some c.
Proof.
  revert pos. induction fuel as [|fuel IH]; intros pos H1 H2 Hp Hc Hf; [lia|]. cbn [skip_bytes].
  destruct (Nat.ltb_spec pos n); [|f_equal; lia]. unfold byte_eq.
  destruct (byte_at pos) as (x & y & -> & -> & Heq & _); [lia..|]. cbn [mbind option_bind].
  destruct (Z.eqb_spec x y) as [E|E].
  - apply Heq in E. apply IH; lia.
  - f_equal. destruct (decide (pos < c)%nat) as [Hlt|]; [by apply Heq in Hlt|lia].
Qed.

End Compare.

Lemma compare_cons x a y b : compare (x :: a) (y :: b) = if x =? y then compare a b else x - y.
Proof.
  unfold compare. cbn [length].
  change (S (length a) <? S (length b))%nat with (length a <? length b)%nat.
  change (S (length b) <? S (length a))%nat with (length b <? length a)%nat.
  destruct (Z.eqb_spec x y) as [->|].
  - destruct (length a <? length b)%nat; cbn [memcmp]; by rewrite Z.eqb_refl.
  - assert (E : ∀ n : nat, memcmp (x :: a) (y :: b) (S n) = x - y) by (intros n0; cbn; by destruct (Z.eqb_spec x y)).
    destruct (length a <? length b)%nat; rewrite E; by destruct (Z.eqb_spec (x - y) 0); [lia|].
Qed.

Lemma compare_by_prefix a b : compare a b =
  if (common_prefix a b =? Nat.min (length a) (length b))%nat then
    if (length b <? length a)%nat then 1 else if (length a =? length b)%nat then 0 else -1
  else default 0 (a !! common_prefix a b) - default 0 (b !! common_prefix a b).
Proof.
  revert b. induction a as [|x a IH]; intros [|y b]; [done..|]. rewrite compare_cons. cbn [common_prefix length Nat.min].
  destruct (Z.eqb_spec x y) as [->|]; [|done]. rewrite IH. done.
Qed.

(** [compare] is the order of [std::string]. *)
Lemma compare_order a b : (compare a b < 0 ↔ str_lt a b = true) ∧ (compare a b = 0 ↔ a = b).
Proof.
  revert b. induction a as [|x a IH]; intros [|y b].
  - done.
  - split; cbn; split; try done; lia.
  - split; cbn; split; try done; lia.
  - rewrite compare_cons. cbn [str_lt]. destruct (Z.eqb_spec x y) as [->|Hne].
    + rewrite Z.ltb_irrefl. cbn [orb andb]. destruct (IH b) as [-> ->]. split; [done|]. split; [by intros ->|by intros [=]].
    + split; [|split; [lia|by intros [=]]]. cbn [andb]. rewrite orb_false_r, Z.ltb_lt. lia.
Qed.

(** ** Searches *)

(** An occurrence of [x] at a position. *)
Definition occurs (x s : bytes) (i : nat) : Prop := (i + length x <= length s)%nat ∧ take (length x) (drop i s) = x.
(** A character of a kind at a position. *)
Definition has (P : Z → Prop) (s : bytes) (i : nat) : Prop := ∃ c, s !! i = Some c ∧ P c.

(** The least position from [lo] on, and the greatest up to [hi]. *)
Definition first_at (Q : nat → Prop) (lo : nat) (r : option nat) : Prop :=
  match r with
  | Some i => (lo <= i)%nat ∧ Q i ∧ ∀ j, (lo <= j < i)%nat → ¬ Q j
  | None => ∀ j, (lo <= j)%nat → ¬ Q j
  end.
Definition up_to (hi : option nat) (i : nat) : Prop := match hi with Some h => (i <= h)%nat | None => True end.
Definition last_at (Q : nat → Prop) (hi : option nat) (r : option nat) : Prop :=
  match r with
  | Some i => up_to hi i ∧ Q i ∧ ∀ j, (i < j)%nat → up_to hi j → ¬ Q j
  | None => ∀ j, up_to hi j → ¬ Q j
  end.

Lemma occurs_drop x s k i : occurs x (drop k s) i ↔ occurs x s (k + i) ∨ (length s < k ∧ x = [] ∧ i = 0)%nat.
Proof.
  unfold occurs. rewrite length_drop, drop_drop. split.
  - intros [H E]. destruct (decide (length s < k)%nat); [right|left; split; [lia|done]].
    rewrite (drop_ge s) in E by lia. rewrite take_nil in E. subst x. cbn in H. split_and!; [lia|done|lia].
  - intros [[H E]|(H & -> & ->)]; [split; [lia|done]|cbn; rewrite take_0; split; [lia|done]].
Qed.

Lemma std_search_first s x : let n := std_search s x in
  (n <= length s)%nat ∧ (∀ j, (j < n)%nat → ¬ occurs x s j) ∧ ((n + length x <= length s)%nat → occurs x s n).
Proof.
  cbn zeta. induction s as [|c s (IH1 & IH2 & IH3)]; cbn [std_search].
  - case_bool_decide as E; (split; [cbn; lia|]; split; [lia|]); intros H; (split; [done|]).
    + exact E.
    + destruct x; [done|cbn in H; lia].
  - case_bool_decide as E.
    + split; [cbn; lia|]. split; [lia|]. intros H. by split; [|rewrite drop_0].
    + cbn [length]. split; [lia|]. split.
      * intros [|j] Hj [Ho1 Ho2]; [by rewrite drop_0 in Ho2|]. apply (IH2 j); [lia|]. split; [cbn in Ho1; lia|done].
      * intros H. destruct IH3 as [H1 H2]; [lia|]. split; [cbn; lia|done].
Qed.

Lemma find_spec s x pos : first_at (occurs x s) pos (find s x pos).
Proof.
  unfold find. destruct (Nat.ltb_spec (length s) pos).
  { intros j Hj [Ho _]. lia. }
  destruct (std_search_first (drop pos s) x) as (H1 & H2 & H3). rewrite length_drop in *.
  assert (Hnot : ∀ j, (pos <= j < pos + std_search (drop pos s) x)%nat → ¬ occurs x s j).
  { intros j Hj Ho. apply (H2 (j - pos)%nat); [lia|]. apply occurs_drop. left. by replace (pos + (j - pos))%nat with j by lia. }
  destruct (Nat.leb_spec (pos + std_search (drop pos s) x + length x) (length s)).
  - split; [lia|]. split; [|done]. destruct (proj1 (occurs_drop x s pos _) (H3 ltac:(lia))) as [?|?]; [done|lia].
  - intros j Hj Ho. destruct (decide (j < pos + std_search (drop pos s) x)%nat); [by apply (Hnot j)|].
    destruct Ho as [Ho _]. lia.
Qed.

Lemma std_find_spec s c : let n := std_find s c in
  (n <= length s)%nat ∧ (∀ j, (j < n)%nat → s !! j ≠ Some c) ∧ ((n < length s)%nat → s !! n = Some c).
Proof.
  cbn zeta. induction s as [|x s (IH1 & IH2 & IH3)]; cbn [std_find length]; [split_and!; [lia..|]; lia|].
  destruct (Z.eqb_spec x c) as [->|]; [split_and!; [lia..|done]|]. split_and!; [lia| |intros; apply IH3; lia].
  intros [|j] Hj; [by intros [=]|]. apply IH2. lia.
Qed.

Lemma find_char_spec s c pos : first_at (has (.= c) s) pos (find_char s c pos).
Proof.
  unfold find_char. destruct (Nat.leb_spec (length s) pos).
  { intros j Hj (x & Hx & _). apply lookup_lt_Some in Hx. lia. }
  destruct (std_find_spec (drop pos s) c) as (H1 & H2 & H3). rewrite length_drop in *.
  set (n := std_find (drop pos s) c) in *. clearbody n.
  assert (Hnot : ∀ j, (pos <= j < pos + n)%nat → ¬ has (.= c) s j).
  { intros j Hj (x & Hx & ->). apply (H2 (j - pos)%nat); [lia|]. rewrite lookup_drop. by replace (pos + (j - pos))%nat with j by lia. }
  destruct (Nat.eqb_spec (pos + n) (length s)); cbn [negb].
  - intros j Hj Hh. apply (Hnot j); [|done]. destruct Hh as (x & Hx & _). apply lookup_lt_Some in Hx. lia.
  - split; [lia|]. split; [|done]. exists c. split; [|done]. rewrite lookup_drop in H3. apply H3. lia.
Qed.

Lemma search_on_spec P s pos : (∀ j, first_at (has (λ c, P c = true) s) j (search_on P (drop j s) j)) ∧
  first_at (has (λ c, P c = true) s) pos (search_on P (drop pos s) pos).
Proof.
  assert (Hgen : ∀ k j, (length s - j <= k)%nat → first_at (has (λ c, P c = true) s) j (search_on P (drop j s) j)).
  { induction k as [|k IH]; intros j Hk.
    - rewrite drop_ge by lia. intros i Hi (c & Hc & _). apply lookup_lt_Some in Hc. lia.
    - destruct (s !! j) as [c|] eqn:Ec; [|apply lookup_ge_None in Ec; rewrite drop_ge by lia;
        intros i Hi (d & Hd & _); apply lookup_lt_Some in Hd; lia].
      rewrite (drop_S _ _ _ Ec). cbn [search_on]. destruct (P c) eqn:EP.
      + split; [lia|]. split; [by exists c|lia].
      + specialize (IH (S j)). pose proof (lookup_lt_Some _ _ _ Ec) as Hlt. specialize (IH ltac:(lia)).
        assert (Hj : ¬ has (λ c, P c = true) s j) by (intros (d & Hd & Hp); congruence).
        destruct (search_on P (drop (S j) s) (S j)) as [i|]; cbn in *.
        * destruct IH as (H1 & H2 & H3). split; [lia|]. split; [done|]. intros i' Hi'.
          destruct (decide (i' = j)) as [->|]; [done|]. apply H3. lia.
        * intros i Hi. destruct (decide (i = j)) as [->|]; [done|]. apply IH. lia. }
  split; intros; by eapply Hgen.
Qed.

Lemma search_back_spec P s i : (i < length s)%nat →
  last_at (has (λ c, P c = true) s) (Some i) (search_back P s i).
Proof.
  induction i as [|i IH]; intros Hi; (destruct (lookup_lt_is_Some_2 _ _ Hi) as [c Hc]); cbn [search_back]; rewrite Hc; cbn [default from_option id];
    destruct (P c) eqn:EP.
  1, 3: (split; [cbn; lia|]; split; [by exists c|cbn; lia]).
  - intros j Hj (d & Hd & Hp). cbn in Hj. assert (j = 0)%nat as -> by lia. congruence.
  - specialize (IH ltac:(lia)). assert (Hno : ¬ has (λ c, P c = true) s (S i)) by (intros (d & Hd & Hp); congruence).
    destruct (search_back P s i) as [k|]; cbn in *.
    + destruct IH as (H1 & H2 & H3). split; [lia|]. split; [done|]. intros j Hj Hj2.
      destruct (decide (j = S i)) as [->|]; [done|]. apply H3; lia.
    + intros j Hj. destruct (decide (j = S i)) as [->|]; [done|]. apply IH. lia.
Qed.

Lemma search_back_min P s pos : (0 < length s)%nat →
  last_at (has (λ c, P c = true) s) pos (search_back P s (min_pos (length s - 1) pos)).
Proof.
  intros Hs. pose proof (search_back_spec P s (min_pos (length s - 1) pos)) as H.
  assert (Hm : (min_pos (length s - 1) pos < length s)%nat) by (destruct pos; cbn; lia). specialize (H Hm).
  assert (Hup : ∀ j, has (λ c, P c = true) s j → up_to pos j → (j <= min_pos (length s - 1) pos)%nat).
  { intros j (c & Hc & _) Hj. apply lookup_lt_Some in Hc. destruct pos; cbn in *; lia. }
  destruct (search_back P s _) as [i|]; cbn in *.
  - destruct H as (H1 & H2 & H3). split; [destruct pos; cbn in *; [lia|done]|]. split; [done|].
    intros j Hj Hu Hh. apply (H3 j); [done| |done]. by apply Hup.
  - intros j Hu Hh. apply (H j); [by apply Hup|done].
Qed.

(** *** The lookup table *)

Lemma in_table_spec x c : bytes_ok x → is_byte c → in_table (lookup_table x) c = bool_decide (c ∈ x).
Proof.
  intros Hx Hc. unfold lookup_table, BuildLookupTable, in_table.
  assert (Hgen : ∀ t, length t = 256%nat →
    default false (fold_left (λ t c, <[Z.to_nat (u8 c) := true]> t) x t !! Z.to_nat (u8 c)) =
    (default false (t !! Z.to_nat (u8 c)) || bool_decide (c ∈ x))%bool).
  { induction Hx as [|d x Hd Hx IH]; intros t Ht; cbn [fold_left].
    - rewrite bool_decide_eq_false_2 by apply not_elem_of_nil. by rewrite orb_false_r.
    - rewrite IH by by rewrite length_insert. rewrite !u8_small by done. unfold is_byte in *.
      destruct (decide (d = c)) as [->|Hne].
      + rewrite list_lookup_insert_eq by (rewrite Ht; lia). cbn. by rewrite (bool_decide_eq_true_2 (c ∈ c :: x)), orb_true_r by left.
      + rewrite list_lookup_insert_ne by lia. f_equal. apply bool_decide_ext. rewrite elem_of_cons. naive_solver. }
  rewrite Hgen by done. rewrite lookup_replicate_2; [done|]. rewrite u8_small by done. unfold is_byte in Hc. lia.
Qed.

Lemma first_at_ext Q Q' lo r : (∀ i, Q i ↔ Q' i) → first_at Q lo r → first_at Q' lo r.
Proof. unfold first_at. destruct r; naive_solver. Qed.

Lemma last_at_ext Q Q' hi r : (∀ i, Q i ↔ Q' i) → last_at Q hi r → last_at Q' hi r.
Proof. unfold last_at. destruct r; naive_solver. Qed.

Lemma first_at_nil Q lo : (∀ i, ¬ Q i) → first_at Q lo None.
Proof. firstorder. Qed.

Lemma last_at_nil Q hi : (∀ i, ¬ Q i) → last_at Q hi None.
Proof. firstorder. Qed.

Lemma has_ext P P' s i : (∀ c, c ∈ s → P c ↔ P' c) → has P s i ↔ has P' s i.
Proof.
  intros H. split; intros (c & Hc & Hp); exists c; (split; [done|]); apply H; try done; by apply list_elem_of_lookup_2 in Hc.
Qed.

Lemma has_nil P i : ¬ has P [] i.
Proof. intros (c & Hc & _). done. Qed.

Lemma single_char (x : bytes) : length x = 1%nat → ∃ c, x = [c].
Proof. destruct x as [|c [|? ?]]; try done. by exists c. Qed.

Section Sets.
Context (s x : bytes) (Hs : bytes_ok s) (Hx : bytes_ok x).

Lemma table_at c : c ∈ s → in_table (lookup_table x) c = true ↔ c ∈ x.
Proof.
  intros Hc. unfold bytes_ok in Hs. rewrite Forall_forall in Hs. rewrite in_table_spec by (done || by apply Hs).
  apply bool_decide_eq_true.
Qed.

Lemma table_not_at c : c ∈ s → negb (in_table (lookup_table x) c) = true ↔ c ∉ x.
Proof. intros Hc. rewrite negb_true_iff, <- not_true_iff_false. by rewrite table_at. Qed.

Lemma find_first_of_spec pos : first_at (has (.∈ x) s) pos (find_first_of s x pos).
Proof.
  unfold find_first_of. destruct (Nat.eqb_spec (length s) 0) as [E|_]; cbn [orb].
  { apply nil_length_inv in E as ->. apply first_at_nil, has_nil. }
  destruct (Nat.eqb_spec (length x) 0) as [E|_].
  { apply nil_length_inv in E as ->. apply first_at_nil. intros i (c & _ & Hc). by apply not_elem_of_nil in Hc. }
  destruct (Nat.eqb_spec (length x) 1) as [E|_].
  { apply single_char in E as [c ->]. eapply first_at_ext; [|apply find_char_spec].
    intros i. apply has_ext. intros d _. by rewrite list_elem_of_singleton. }
  eapply first_at_ext; [|apply search_on_spec]. intros i. apply has_ext, table_at.
Qed.

(** An empty set finds position 0, whatever the start. *)
Lemma find_first_not_of_spec pos : x ≠ [] ∨ pos = 0%nat →
  first_at (has (.∉ x) s) pos (find_first_not_of s x pos).
Proof.
  intros Hpos. unfold find_first_not_of, find_first_not_of_char. destruct (Nat.eqb_spec (length s) 0) as [E|Hn].
  { apply nil_length_inv in E as ->. apply first_at_nil, has_nil. }
  destruct (Nat.eqb_spec (length x) 0) as [E|_].
  { apply nil_length_inv in E as ->. destruct Hpos as [| ->]; [done|]. split; [lia|]. split; [|lia].
    destruct s as [|c s']; [done|]. exists c. split; [done|]. apply not_elem_of_nil. }
  destruct (Nat.eqb_spec (length x) 1) as [E|_].
  { apply single_char in E as [c ->]. eapply first_at_ext; [|apply search_on_spec].
    intros i. apply has_ext. intros d _. cbn. rewrite negb_true_iff, Z.eqb_neq, list_elem_of_singleton. done. }
  eapply first_at_ext; [|apply search_on_spec]. intros i. apply has_ext, table_not_at.
Qed.

Lemma find_last_of_spec pos : last_at (has (.∈ x) s) pos (find_last_of s x pos).
Proof.
  unfold find_last_of, rfind_char. destruct (Nat.eqb_spec (length s) 0) as [E|Hn]; cbn [orb].
  { apply nil_length_inv in E as ->. apply last_at_nil, has_nil. }
  destruct (Nat.eqb_spec (length x) 0) as [E|_].
  { apply nil_length_inv in E as ->. apply last_at_nil. intros i (c & _ & Hc). by apply not_elem_of_nil in Hc. }
  destruct (Nat.eqb_spec (length x) 1) as [E|_].
  { apply single_char in E as [c ->]. eapply last_at_ext; [|apply search_back_min; lia].
    intros i. apply has_ext. intros d _. cbn. by rewrite Z.eqb_eq, list_elem_of_singleton. }
  eapply last_at_ext; [|apply search_back_min; lia]. intros i. apply has_ext, table_at.
Qed.

Lemma find_last_not_of_spec pos : last_at (has (.∉ x) s) pos (find_last_not_of s x pos).
Proof.
  unfold find_last_not_of, find_last_not_of_char. destruct (Nat.eqb_spec (length s) 0) as [E|Hn].
  { apply nil_length_inv in E as ->. apply last_at_nil, has_nil. }
  destruct (Nat.eqb_spec (length x) 0) as [E|_].
  { apply nil_length_inv in E as ->. split; [destruct pos; cbn; lia|]. split.
    - destruct (lookup_lt_is_Some_2 s (min_pos (length s - 1) pos)) as [c Hc]; [destruct pos; cbn; lia|].
      exists c. split; [done|]. apply not_elem_of_nil.
    - intros j Hj Hu (c & Hc & _). apply lookup_lt_Some in Hc. destruct pos; cbn in *; lia. }
  destruct (Nat.eqb_spec (length x) 1) as [E|_].
  { apply single_char in E as [c ->]. eapply last_at_ext; [|apply search_back_min; lia].
    intros i. apply has_ext. intros d _. cbn. rewrite negb_true_iff, Z.eqb_neq, list_elem_of_singleton. done. }
  eapply last_at_ext; [|apply search_back_min; lia]. intros i. apply has_ext, table_not_at.
Qed.

End Sets.

(** *** From the end *)

Lemma std_find_end_spec s x : x ≠ [] → last_at (occurs x s) None (std_find_end s x).
Proof.
  intros Hx. induction s as [|c s IH]; cbn [std_find_end].
  { intros j _ [Ho _]. destruct x; [done|cbn in Ho; lia]. }
  assert (Hnext : ∀ j, occurs x (c :: s) (S j) ↔ occurs x s j).
  { intros j. unfold occurs. cbn. split; intros [? ?]; split; try done; lia. }
  destruct (std_find_end s x) as [i|]; cbn [last_at up_to] in *.
  - destruct IH as (_ & H1 & H2). split; [done|]. split; [by apply Hnext|].
    intros [|j] Hj _; [lia|]. rewrite Hnext. apply H2; [lia|done].
  - case_bool_decide as E; cbn.
    + split; [done|]. split.
      * split; [|by rewrite drop_0]. apply (f_equal length) in E. rewrite length_take in E. cbn [length] in *. lia.
      * intros [|j] Hj _; [lia|]. rewrite Hnext. by apply IH.
    + intros [|j] _; [|rewrite Hnext; by apply IH]. intros [_ Ho]. by rewrite drop_0 in Ho.
Qed.

Lemma occurs_take x s n i : (i + length x <= n)%nat → occurs x (take n s) i ↔ occurs x s i.
Proof.
  intros Hi. unfold occurs. rewrite length_take. split; intros [H1 H2]; (split; [lia|]).
  - rewrite <- H2 at 2. rewrite skipn_firstn_comm, take_take. f_equal. lia.
  - rewrite <- H2 at 2. rewrite skipn_firstn_comm, take_take. f_equal. lia.
Qed.

Lemma rfind_spec s x pos : last_at (occurs x s) pos (rfind s x pos).
Proof.
  unfold rfind. destruct (Nat.ltb_spec (length s) (length x)) as [Hl|Hl].
  { apply last_at_nil. intros i [Ho _]. lia. }
  case_bool_decide as Ex.
  { subst x. split; [destruct pos; cbn; lia|]. split.
    - split; [destruct pos; cbn; lia|done].
    - intros j Hj Hu [Ho _]. cbn in Ho. destruct pos; cbn in *; lia. }
  set (m := min_pos (length s - length x) pos).
  assert (Hm : (m + length x <= length s)%nat) by (unfold m; destruct pos; cbn; lia).
  assert (Hup : ∀ j, occurs x s j → up_to pos j → (j <= m)%nat).
  { intros j [Ho _] Hj. unfold m. destruct pos; cbn in *; lia. }
  pose proof (std_find_end_spec (take (m + length x) s) x Ex) as H.
  assert (Hin : ∀ j, (j <= m)%nat → occurs x (take (m + length x) s) j ↔ occurs x s j) by (intros; apply occurs_take; lia).
  destruct (std_find_end (take (m + length x) s) x) as [i|]; cbn [last_at up_to] in *.
  - destruct H as (_ & Ho & Hafter).
    assert (Hi : (i <= m)%nat) by (destruct Ho as [Ho _]; rewrite length_take in Ho; lia).
    split; [unfold m in *; destruct pos; cbn in *; lia|]. split; [by apply Hin|].
    intros j Hj Hu Hoj. pose proof (Hup j Hoj Hu). apply (Hafter j Hj I). by apply Hin.
  - intros j Hu Hoj. pose proof (Hup j Hoj Hu). apply (H j I). by apply Hin.
Qed.

(** ** The theorems *)

Lemma starts_with_spec s x : bytes_ok s → bytes_ok x → starts_with s x = Some (bool_decide (take (length x) s = x)).
Proof.
  intros Hs Hx. unfold starts_with, MemoryEqual. destruct (Nat.leb_spec (length x) (length s)).
  - rewrite memeql_agree by (done || lia). unfold agree. by rewrite (take_ge x) by lia.
  - rewrite bool_decide_eq_false_2; [done|]. intros E. apply (f_equal length) in E. rewrite length_take in E. lia.
Qed.

Lemma ends_with_spec s x : bytes_ok s → bytes_ok x → ends_with s x = Some (bool_decide (x `suffix_of` s)).
Proof.
  intros Hs Hx. unfold ends_with, MemoryEqual. destruct (Nat.leb_spec (length x) (length s)).
  - rewrite memeql_agree by (first [by apply Forall_drop | rewrite ?length_drop; done || lia]). unfold agree. f_equal.
    rewrite !take_ge by (rewrite ?length_drop; lia). apply bool_decide_ext. split.
    + intros <-. exists (take (length s - length x) s). by rewrite take_drop.
    + intros [p ->]. by rewrite length_app, Nat.add_sub, drop_app_length.
  - rewrite bool_decide_eq_false_2; [done|]. intros [p ->]. rewrite length_app in *. lia.
Qed.

(** The memory comparisons, by words where they are faster, are the
    byte-wise ones.  They never read past the sizes they are given;
    [MemoryEqual] decides equality for every size, [CompareMemory] gives the
    first difference and the length of the common prefix, and
    [CompareByteString] is the lexicographic order, as [StringPiece]'s
    comparison is. *)
Theorem memory_compare a b len : bytes_ok a → bytes_ok b → (len <= length a)%nat → (len <= length b)%nat →
  let c := common_prefix a b in
  let diff := default 0 (a !! c) - default 0 (b !! c) in
  MemoryEqual a b len = Some (bool_decide (take len a = take len b)) ∧
  CompareMemory a b len = Some (if decide (c < len)%nat then (diff, c) else (0, len)) ∧
  GetCommonPrefixLength a b = Some c ∧
  CompareByteString a b = Some (compare a b, bool_decide (c = Nat.min (length a) (length b)), c) ∧
  (compare a b < 0 ↔ str_lt a b = true) ∧ (compare a b = 0 ↔ a = b).
Proof.
  intros Ha Hb H1 H2 c diff. destruct (common_prefix_le a b) as [L1 L2].
  assert (Hcm : ∀ n, (n <= length a)%nat → (n <= length b)%nat →
    CompareMemory a b n = Some (if decide (c < n)%nat then (diff, c) else (0, n))).
  { intros n N1 N2. apply compare_words_spec; done || lia. }
  split; [by apply memeql_agree|]. split; [by apply Hcm|]. split; [|split; [|apply compare_order]].
  - unfold GetCommonPrefixLength. destruct (Nat.ltb_spec (length a) (length b)); rewrite Hcm by lia;
      case_decide; cbn; f_equal; unfold c in *; lia.
  - unfold CompareByteString.
    assert (Emin : (if (length a <=? length b)%nat then length a else length b) = Nat.min (length a) (length b)).
    { destruct (Nat.leb_spec (length a) (length b)); lia. }
    rewrite Emin. set (m := Nat.min (length a) (length b)) in *.
    destruct (skip_words_spec a b Ha Hb (S m) m 0) as (pos & -> & _ & Hpos); [lia..|]. cbn [mbind option_bind].
    rewrite (skip_bytes_spec a b (S m) m pos) by (fold c; lia). cbn [mbind option_bind]. fold c.
    rewrite compare_by_prefix. fold c. fold diff. fold m.
    destruct (Nat.eqb_spec c m) as [E|E]; [by rewrite bool_decide_eq_true_2|]. rewrite bool_decide_eq_false_2 by done.
    unfold diff. destruct (lookup_lt_is_Some_2 a c) as [x ->]; [unfold c in *; lia|].
    destruct (lookup_lt_is_Some_2 b c) as [y ->]; [unfold c in *; lia|]. done.
Qed.

Example memory_compare_witness :
  MemoryEqual (str "0123456789abcdefgh") (str "0123456789abcdefgx") 17 = Some true ∧
  CompareMemory (str "0123456789abcdefgh") (str "0123456789abcdefgx") 18 = Some (-16, 17%nat).
Proof.
  destruct (memory_compare (str "0123456789abcdefgh") (str "0123456789abcdefgx") 17) as (E & _); [..|].
  1, 2: by repeat constructor; vm_compute.
  1, 2: vm_compute; lia.
  destruct (memory_compare (str "0123456789abcdefgh") (str "0123456789abcdefgx") 18) as (_ & E2 & _); [..|].
  1, 2: by repeat constructor; vm_compute.
  1, 2: vm_compute; lia.
  split; [rewrite E; vm_compute; reflexivity|rewrite E2; vm_compute; reflexivity].
Defined.

(** The searches of [StringPiece].  Each finds the first position from
    [pos] on, or the last up to [pos], with an occurrence of the string, or
    with a character in or out of the set; [npos] means there is none.
    ([find_first_not_of] keeps to this for a set that is not empty.) *)
Theorem piece_searches s x pos from : bytes_ok s → bytes_ok x →
  first_at (occurs x s) pos (find s x pos) ∧ last_at (occurs x s) from (rfind s x from) ∧
  first_at (has (.∈ x) s) pos (find_first_of s x pos) ∧ last_at (has (.∈ x) s) from (find_last_of s x from) ∧
  (x ≠ [] → first_at (has (.∉ x) s) pos (find_first_not_of s x pos)) ∧
  last_at (has (.∉ x) s) from (find_last_not_of s x from).
Proof.
  intros Hs Hx. split_and!; [apply find_spec|apply rfind_spec|by apply find_first_of_spec|by apply find_last_of_spec| |
    by apply find_last_not_of_spec]. intros Hne. apply find_first_not_of_spec; auto.
Qed.

Example piece_searches_witness :
  find (str "abcabc") (str "bc") 2 = Some 4%nat ∧ first_at (occurs (str "bc") (str "abcabc")) 2 (Some 4%nat) ∧
  last_at (has (.∉ str "bc") (str "abcabc")) None (Some 3%nat).
Proof.
  destruct (piece_searches (str "abcabc") (str "bc") 2 None) as (H1 & _ & _ & _ & _ & H2); [by repeat constructor; vm_compute..|].
  split; [reflexivity|]. split; [exact H1|exact H2].
Defined.
