(* ===== verification/StringAlgorithm.v ===== *)
(** * String algorithms

    Model of base/string/algorithm.h and algorithm.cpp: replacing, splitting,
    joining and trimming, over the searches of [StringPiece].  A function that
    writes through a [std::string*] returns the string; a [const char*] is the
    bytes before its NUL; the loops carry their index, as in the source, and
    fuel where they are not structural ([None] when it runs out). *)

From S2P Require Import Prelude CType StringPiece.

(** ** Prefixes, suffixes, characters *)

(** [while (isspace(str[i]) && i < len)]: the NUL is not a space. *)
Definition IsWhiteString (s : bytes) : bool := forallb isspace s.

Fixpoint IsCharInString (c : Z) (s : bytes) : bool :=
  match s with [] => false | x :: s => if x =? c then true else IsCharInString c s end.

Definition StringStartsWithIgnoreCase (s prefix : bytes) : option bool :=
  if (length prefix <=? length s)%nat then r ← memcasecmp s prefix (length prefix); Some (r =? 0) else Some false.

Definition StringRemovePrefix (s prefix : bytes) : option bytes :=
  b ← starts_with s prefix; Some (if (b : bool) then substr s (length prefix) None else s).
(** [erase] *)
Definition StringRemovePrefix_in (s prefix : bytes) : option (bool * bytes) :=
  b ← starts_with s prefix; Some (if (b : bool) then (true, drop (length prefix) s) else (false, s)).
Definition StringRemoveSuffix (s suffix : bytes) : option bytes :=
  b ← ends_with s suffix; Some (if (b : bool) then substr s 0 (Some (length s - length suffix)%nat) else s).
Definition StringRemoveSuffix_in (s suffix : bytes) : option (bool * bytes) :=
  b ← ends_with s suffix; Some (if (b : bool) then (true, take (length s - length suffix) s) else (false, s)).

Definition StringToUpper (s : bytes) : bytes := toupper <$> s.
Definition StringToLower (s : bytes) : bytes := tolower <$> s.
Definition UpperString (s : bytes) : bytes := StringToUpper s.
Definition LowerString (s : bytes) : bytes := StringToLower s.

(** ** Replacing *)

Definition ReplaceFirst (s oldsub newsub : bytes) : bytes :=
  if bool_decide (oldsub = []) then s
  else match find s oldsub 0 with
  | None => s
  | Some pos => take pos s ++ newsub ++ take (length s - pos - length oldsub) (drop (pos + length oldsub) s)
  end.

(** The [do] loop: at most one turn for each position. *)
Fixpoint replace_loop (fuel : nat) (s oldsub newsub : bytes) (start_pos : nat) (res : bytes) : option bytes :=
  match fuel with
  | O => None
  | S fuel =>
      match find s oldsub start_pos with
      | None => Some (res ++ take (length s - start_pos) (drop start_pos s))
      | Some pos =>
          replace_loop fuel s oldsub newsub (pos + length oldsub)
            (res ++ take (pos - start_pos) (drop start_pos s) ++ newsub)
      end
  end.

Definition ReplaceAll (s oldsub newsub : bytes) : option bytes :=
  if bool_decide (oldsub = []) then Some s else replace_loop (S (length s)) s oldsub newsub 0 [].

(** The loop of the version that replaces in place, over [std::string::find]
    and [std::string::replace]. *)
Fixpoint replace_in_loop (fuel : nat) (from to : bytes) (pos : nat) (s : bytes) : option bytes :=
  match fuel with
  | O => None
  | S fuel =>
      match find s from pos with
      | None => Some s
      | Some pos => replace_in_loop fuel from to (pos + length to) (take pos s ++ to ++ drop (pos + length from) s)
      end
  end.

Definition ReplaceAll_in (fuel : nat) (s from to : bytes) : option bytes := replace_in_loop fuel from to 0 s.

(** The loop over the characters, with the number replaced. *)
Fixpoint replace_chars (from : bytes) (to : Z) (s : bytes) (num_replaced : nat) : bytes * nat :=
  match s with
  | [] => ([], num_replaced)
  | c :: s =>
      if bool_decide (is_Some (find_char from c 0)) then
        let '(s, n) := replace_chars from to s (S num_replaced) in (to :: s, n)
      else let '(s, n) := replace_chars from to s num_replaced in (c :: s, n)
  end.
Definition ReplaceAllChars_in (s from : bytes) (to : Z) : bytes * nat := replace_chars from to s 0.
Definition ReplaceAllChars (s from : bytes) (to : Z) : bytes := (ReplaceAllChars_in s from to).1.

(** [strpbrk] over the characters before the first NUL; what it finds is
    overwritten. *)
Fixpoint StripString (s remove : bytes) (replacewith : Z) : bytes :=
  match s with
  | [] => []
  | c :: s' =>
      if c =? 0 then s
      else (if bool_decide (c ∈ remove) then replacewith else c) :: StripString s' remove replacewith
  end.

Definition RemoveFirst (s substr : bytes) (fill_blank : bool) : bytes :=
  if fill_blank then ReplaceFirst s substr (str " ") else ReplaceFirst s substr [].
Definition RemoveAll (s substr : bytes) (fill_blank : bool) : option bytes :=
  if fill_blank then ReplaceAll s substr (str " ") else ReplaceAll s substr [].

(** ** Joining *)

Fixpoint join_loop (first : bool) (components : list bytes) (delim result : bytes) : bytes :=
  match components with
  | [] => result
  | c :: components =>
      join_loop false components delim ((if first then result else result ++ delim) ++ c)
  end.

(** The version that writes to [*result] appends to it. *)
Definition JoinStrings_to (components : list bytes) (delim result : bytes) : bytes :=
  join_loop true components delim result.
Definition JoinStrings (components : list bytes) (delim : bytes) : bytes := JoinStrings_to components delim [].

(** ** Lines and blanks *)

Definition line_ending (c : Z) : bool := ((c =? 13) || (c =? 10))%bool.

(** [while (!line->empty())], from the last character. *)
Fixpoint remove_line_ending (length : nat) (line : bytes) : bytes :=
  match length with
  | O => take 0 line
  | S n => if line_ending (default 0 (line !! n)) then remove_line_ending n line else take (S n) line
  end.
Definition RemoveLineEnding (line : bytes) : bytes := remove_line_ending (length line) line.

(** [str->at(end_pos) = str->at(start_pos)], then [resize(end_pos)]. *)
Fixpoint blank_loop (n start_pos end_pos : nat) (first_blank : bool) (s : bytes) : bytes :=
  match n with
  | O => take end_pos s
  | S n =>
      let c := default 0 (s !! start_pos) in
      if negb (c =? 32) then blank_loop n (S start_pos) (S end_pos) true (<[end_pos := c]> s)
      else if first_blank then blank_loop n (S start_pos) (S end_pos) false (<[end_pos := c]> s)
      else blank_loop n (S start_pos) end_pos false s
  end.
Definition RemoveContinuousBlank (s : bytes) : bytes := blank_loop (length s) 0 0 true s.

(** ** Splitting *)

(** [while (++p != end && *p != c) {}]: the length of a component. *)
Fixpoint run_length (c : Z) (p : bytes) : nat :=
  match p with [] => 0%nat | x :: p => if x =? c then 0%nat else S (run_length c p) end.

Fixpoint split_char_loop (fuel : nat) (c : Z) (p : bytes) (result : list bytes) : option (list bytes) :=
  match fuel with
  | O => None
  | S fuel =>
      match p with
      | [] => Some result
      | x :: p' =>
          if x =? c then split_char_loop fuel c p' result
          else
            let n := S (run_length c p') in
            split_char_loop fuel c (drop n p) (result ++ [take n p])
      end
  end.

Fixpoint split_any_loop (fuel : nat) (full delim : bytes) (begin_index : option nat) (result : list bytes) :
    option (list bytes) :=
  match fuel with
  | O => None
  | S fuel =>
      match begin_index with
      | None => Some result
      | Some begin_index =>
          match find_first_of full delim begin_index with
          | None => Some (result ++ [substr full begin_index None])
          | Some end_index =>
              split_any_loop fuel full delim (find_first_not_of full delim end_index)
                (result ++ [substr full begin_index (Some (end_index - begin_index)%nat)])
          end
      end
  end.

Definition SplitStringToIteratorUsing (full delim : bytes) (result : list bytes) : option (list bytes) :=
  match delim with
  | [c] => split_char_loop (S (length full)) c full result
  | _ => split_any_loop (S (length full)) full delim (find_first_not_of full delim 0) result
  end.

Definition SplitStringByAnyOf (full delim : bytes) : option (list bytes) := SplitStringToIteratorUsing full delim [].

(** The [for] loop over [begin_index]. *)
Fixpoint split_string_loop (fuel : nat) (full delim : bytes) (begin_index : nat) (result : list bytes) :
    option (list bytes) :=
  match fuel with
  | O => None
  | S fuel =>
      if (begin_index <? length full)%nat then
        match find full delim begin_index with
        | None => Some (result ++ [substr full begin_index None])
        | Some end_index =>
            split_string_loop fuel full delim (end_index + length delim)
              (if (begin_index <? end_index)%nat
               then result ++ [substr full begin_index (Some (end_index - begin_index)%nat)] else result)
        end
      else Some result
  end.

Definition SplitUsingStringDelimiterToIterator (full delim : bytes) (result : list bytes) : option (list bytes) :=
  if bool_decide (full = []) then Some result
  else match delim with
  | [] => Some (result ++ [full])
  | [_] => SplitStringToIteratorUsing full delim result
  | _ => split_string_loop (S (length full)) full delim 0 result
  end.

Definition SplitString (full delim : bytes) : option (list bytes) := SplitUsingStringDelimiterToIterator full delim [].
Definition SplitStringByDelimiter (full delim : bytes) : option (list bytes) := SplitString full delim.
(** The components as a [std::set]. *)
Definition SplitStringToSet (full delim : bytes) : option (gset bytes) :=
  list_to_set <$> SplitUsingStringDelimiterToIterator full delim [].

Fixpoint keep_empty_char_loop (fuel : nat) (full : bytes) (delim : Z) (prev_pos : nat) (result : list bytes) :
    option (list bytes) :=
  match fuel with
  | O => None
  | S fuel =>
      match find_char full delim prev_pos with
      | Some pos => keep_empty_char_loop fuel full delim (pos + 1) (result ++ [take (pos - prev_pos) (drop prev_pos full)])
      | None => Some (result ++ [take (length full - prev_pos) (drop prev_pos full)])
      end
  end.

Definition SplitStringKeepEmpty_char (full : bytes) (delim : Z) : option (list bytes) :=
  if bool_decide (full = []) then Some [] else keep_empty_char_loop (S (length full)) full delim 0 [].

Fixpoint keep_empty_loop (fuel : nat) (full delim : bytes) (prev_pos : nat) (result : list bytes) :
    option (list bytes) :=
  match fuel with
  | O => None
  | S fuel =>
      match find full delim prev_pos with
      | Some pos => keep_empty_loop fuel full delim (pos + length delim) (result ++ [take (pos - prev_pos) (drop prev_pos full)])
      | None => Some (result ++ [take (length full - prev_pos) (drop prev_pos full)])
      end
  end.

Definition SplitStringKeepEmpty (full delim : bytes) : option (list bytes) :=
  match delim with
  | [c] => SplitStringKeepEmpty_char full c
  | _ =>
      if (bool_decide (full = []) || bool_decide (delim = []))%bool then Some []
      else keep_empty_loop (S (length full)) full delim 0 []
  end.

Fixpoint lines_loop (fuel : nat) (full : bytes) (keep_line_ending : bool) (prev_pos : nat) (result : list bytes) :
    option (list bytes) :=
  match fuel with
  | O => None
  | S fuel =>
      let add token := result ++ [if keep_line_ending then token else RemoveLineEnding token] in
      match find_char full 10 prev_pos with
      | Some pos => lines_loop fuel full keep_line_ending (pos + 1) (add (take (pos - prev_pos + 1) (drop prev_pos full)))
      | None =>
          Some (if (prev_pos <? length full)%nat then add (take (length full - prev_pos) (drop prev_pos full)) else result)
      end
  end.

Definition SplitLines (full : bytes) (keep_line_ending : bool) : option (list bytes) :=
  lines_loop (S (length full)) full keep_line_ending 0 [].

(** ** Trimming *)

(** [while (start_pos != end_pos && isspace(str->at(start_pos)))] *)
Fixpoint skip_left (n start_pos : nat) (s : bytes) : nat :=
  match n with
  | O => start_pos
  | S n => if isspace (default 0 (s !! start_pos)) then skip_left n (S start_pos) s else start_pos
  end.

Definition StringTrimLeft (s : bytes) : bytes := drop (skip_left (length s) 0 s) s.

(** [while (end_pos >= 0 && isspace(str->at(end_pos)))], with [end_pos] an
    [int]: the number of characters kept. *)
Fixpoint skip_right (n : nat) (s : bytes) : nat :=
  match n with O => 0%nat | S n => if isspace (default 0 (s !! n)) then skip_right n s else S n end.

(** A length of 2^31 or more is a negative [int], and all is kept. *)
Definition StringTrimRight (s : bytes) : bytes :=
  let end_pos := s32 (Z.of_nat (length s)) - 1 in
  if end_pos + 1 <? 0 then s else take (skip_right (Z.to_nat (end_pos + 1)) s) s.

Definition StringTrim (s : bytes) : bytes :=
  let start_pos := skip_left (length s) 0 s in
  if (start_pos =? length s)%nat then []
  else substr s start_pos (Some (skip_right (length s) s - start_pos)%nat).

Definition StringTrimLeft_of (s trim_value : bytes) : bytes :=
  match find_first_not_of s trim_value 0 with Some start_pos => substr s start_pos None | None => [] end.
Definition StringTrimRight_of (s trim_value : bytes) : bytes :=
  match find_last_not_of s trim_value None with Some end_pos => substr s 0 (Some (end_pos + 1)%nat) | None => [] end.
Definition StringTrim_of (s trim_value : bytes) : bytes :=
  match find_first_not_of s trim_value 0, find_last_not_of s trim_value None with
  | None, _ => []
  | Some start_pos, Some end_pos => substr s start_pos (Some (end_pos + 1 - start_pos)%nat)
  | Some start_pos, None => substr s start_pos None
  end.

(** ** The longest common substring *)

(** The longest run found and where it starts in the two strings. *)
Record Longest := mkLongest { longest : Z; common_pos1 : Z; common_pos2 : Z }.

(** The loop along one alignment, with the length of the run. *)
Fixpoint align_loop (str1 str2 : bytes) (m n len : Z) (st : Longest) : Longest :=
  match str1, str2 with
  | a :: str1, b :: str2 =>
      if negb (a =? b) then align_loop str1 str2 (m + 1) (n + 1) 0 st
      else
        let len := len + 1 in
        align_loop str1 str2 (m + 1) (n + 1) len
          (if longest st <? len then mkLongest len (m - len + 1) (n - len + 1) else st)
  | _, _ => st
  end.

(** The loop over the alignments: [index] 0 shifts the first string, 1 the
    second. *)
Fixpoint shift_loop (fuel : nat) (first : bool) (str1 str2 : bytes) (i : Z) (st : Longest) : Longest :=
  match fuel with
  | O => st
  | S fuel =>
      let size := Z.of_nat (length (if first then str1 else str2)) in
      if i <? size then
        let m := if first then i else 0 in
        let n := if first then 0 else i in
        if ((Z.of_nat (length str1) - m <=? longest st) || (Z.of_nat (length str2) - n <=? longest st))%bool then st
        else
          shift_loop fuel first str1 str2 (i + 1)
            (align_loop (drop (Z.to_nat m) str1) (drop (Z.to_nat n) str2) m n 0 st)
      else st
  end.

Definition LongestCommonSubstring (str1 str2 : bytes) : bytes :=
  if (bool_decide (str1 = []) || bool_decide (str2 = []))%bool then []
  else
    let st := shift_loop (S (length str1)) true str1 str2 0 (mkLongest 0 (-1) (-1)) in
    let st := shift_loop (S (length str2)) false str1 str2 1 st in
    if 0 =? longest st then []
    else substr str1 (Z.to_nat (common_pos1 st)) (Some (Z.to_nat (longest st))).

(** ** Cutting a string at a delimiter *)

Lemma first_at_unique Q lo r r' : first_at Q lo r → first_at Q lo r' → r = r'.
Proof.
  destruct r as [i|], r' as [j|]; cbn; try done.
  - intros (H1 & H2 & H3) (H4 & H5 & H6). f_equal. apply Nat.le_antisymm; apply Nat.nlt_ge; intros Hlt.
    + by apply (H3 j).
    + by apply (H6 i).
  - intros (H1 & H2 & _) H. by destruct (H i H1).
  - intros H (H1 & H2 & _). by destruct (H j H1).
Qed.

Lemma find_shift s d prev : (prev <= length s)%nat → find s d prev = (λ i, prev + i)%nat <$> find (drop prev s) d 0.
Proof.
  intros Hp. unfold find. rewrite length_drop, drop_drop, Nat.add_0_r. destruct (Nat.ltb_spec (length s) prev); [lia|].
  destruct (Nat.ltb_spec (length s - prev) 0); [lia|]. cbn [Nat.add].
  destruct (Nat.leb_spec (prev + std_search (drop prev s) d + length d) (length s)),
    (Nat.leb_spec (std_search (drop prev s) d + length d) (length s - prev)); try lia; done.
Qed.

Lemma find_cut s d i : find s d 0 = Some i → (i + length d <= length s)%nat ∧
  s = take i s ++ d ++ drop (i + length d) s.
Proof.
  intros E. pose proof (find_spec s d 0) as H. rewrite E in H. destruct H as (_ & [Hl Hd] & _). split; [done|].
  rewrite <- (take_drop i s) at 1. f_equal.
  rewrite <- (take_drop (length d) (drop i s)) at 1. by rewrite Hd, drop_drop.
Qed.

Lemma find_char_find s c pos : find_char s c pos = find s [c] pos.
Proof.
  eapply first_at_unique; [apply find_char_spec|]. eapply first_at_ext; [|apply find_spec].
  intros i. unfold occurs, has. cbn [length]. split.
  - intros [Hl Ht]. destruct (lookup_lt_is_Some_2 s i) as [x Hx]; [lia|]. exists x. split; [done|].
    rewrite (drop_S _ _ _ Hx) in Ht. by injection Ht as ->.
  - intros (x & Hx & ->). split; [apply lookup_lt_Some in Hx; lia|]. by rewrite (drop_S _ _ _ Hx).
Qed.

Lemma find_nil_none d : d ≠ [] → find [] d 0 = None.
Proof. destruct d; done. Qed.

(** The reference: the pieces between the occurrences of the delimiter, taken
    from the left. *)
Fixpoint cut_at (fuel : nat) (d s : bytes) : list bytes :=
  match fuel with
  | O => [s]
  | S fuel => match find s d 0 with None => [s] | Some i => take i s :: cut_at fuel d (drop (i + length d) s) end
  end.
Definition cut (d s : bytes) : list bytes := cut_at (length s) d s.

Lemma cut_at_fuel d s k k' : d ≠ [] → (length s <= k)%nat → (length s <= k')%nat → cut_at k d s = cut_at k' d s.
Proof.
  intros Hd. assert (Hpos : (0 < length d)%nat) by (destruct d; [done|cbn; lia]).
  revert s k'. induction k as [|k IH]; intros s k' Hk Hk'.
  - assert (s = []) as -> by (apply nil_length_inv; lia). destruct k'; cbn [cut_at]; [done|]. by rewrite find_nil_none.
  - destruct k' as [|k'].
    + assert (s = []) as -> by (apply nil_length_inv; lia). cbn [cut_at]. by rewrite find_nil_none.
    + cbn [cut_at]. destruct (find s d 0) as [i|] eqn:E; [|done]. apply find_cut in E as [Hl _]. f_equal.
      apply IH; rewrite length_drop; lia.
Qed.

Lemma cut_unfold d s : d ≠ [] →
  cut d s = match find s d 0 with None => [s] | Some i => take i s :: cut d (drop (i + length d) s) end.
Proof.
  intros Hd. unfold cut. rewrite (cut_at_fuel d s _ (S (length s))) by (done || lia). cbn [cut_at].
  destruct (find s d 0) as [i|] eqn:E; [|done]. apply find_cut in E as [Hl _]. f_equal.
  apply cut_at_fuel; [done|rewrite length_drop; lia|done].
Qed.

Lemma join_loop_eq comps d result : join_loop false comps d result = result ++ concat ((λ c, d ++ c) <$> comps).
Proof.
  revert result. induction comps as [|c comps IH]; intros result; cbn; [by rewrite app_nil_r|].
  rewrite IH. by rewrite <- !(assoc_L (++)).
Qed.

Lemma JoinStrings_cons c comps d : comps ≠ [] → JoinStrings (c :: comps) d = c ++ d ++ JoinStrings comps d.
Proof.
  intros Hne. unfold JoinStrings, JoinStrings_to. cbn [join_loop app]. rewrite join_loop_eq.
  destruct comps as [|c' comps]; [done|]. cbn. rewrite join_loop_eq, <- !(assoc_L (++)). done.
Qed.

Lemma cut_nonempty d s : cut d s ≠ [].
Proof. unfold cut. destruct (length s); cbn [cut_at]; [done|]. by destruct (find s d 0). Qed.

(** Joining the pieces again. *)
Lemma join_cut d s : d ≠ [] → JoinStrings (cut d s) d = s.
Proof.
  intros Hd. assert (Hpos : (0 < length d)%nat) by (destruct d; [done|cbn; lia]).
  remember (length s) as n eqn:En. revert s En.
  induction n as [n IH] using (well_founded_induction Nat.lt_wf_0). intros s ->.
  rewrite cut_unfold by done. destruct (find s d 0) as [i|] eqn:E; [|done].
  apply find_cut in E as [Hl Hs]. rewrite JoinStrings_cons by apply cut_nonempty.
  rewrite (IH (length (drop (i + length d) s))); [done|rewrite length_drop; lia|done].
Qed.

(** No piece holds the delimiter. *)
Lemma cut_pieces d s : d ≠ [] → Forall (λ p, ∀ j, ¬ occurs d p j) (cut d s).
Proof.
  intros Hd. assert (Hpos : (0 < length d)%nat) by (destruct d; [done|cbn; lia]).
  remember (length s) as n eqn:En. revert s En.
  induction n as [n IH] using (well_founded_induction Nat.lt_wf_0). intros s ->.
  rewrite cut_unfold by done. pose proof (find_spec s d 0) as Hf. destruct (find s d 0) as [i|] eqn:E.
  - destruct Hf as (_ & _ & Hbefore). apply find_cut in E as [Hl _]. constructor.
    + intros j Ho. destruct (decide (j < i)%nat); [apply (Hbefore j); [lia|]|].
      * apply (occurs_take d s i j); [|done]. destruct Ho as [Ho _]. rewrite length_take in Ho. lia.
      * destruct Ho as [Ho _]. rewrite length_take in Ho. lia.
    + apply (IH (length (drop (i + length d) s))); [rewrite length_drop; lia|done].
  - constructor; [|done]. intros j. apply Hf. lia.
Qed.

(** ** The loops cut *)

Lemma cut_tail (s : bytes) prev : take (length s - prev) (drop prev s) = drop prev s.
Proof. apply take_ge. rewrite length_drop. lia. Qed.

Section Loops.
Context (d : bytes) (Hd : d ≠ []).

Lemma delim_pos : (0 < length d)%nat.
Proof. destruct d; [done|cbn; lia]. Qed.

(** One turn of a loop at [prev]: the next piece, and the rest. *)
Lemma next_piece s prev : (prev <= length s)%nat →
  match find s d prev with
  | None => cut d (drop prev s) = [drop prev s]
  | Some pos => cut d (drop prev s) = take (pos - prev) (drop prev s) :: cut d (drop (pos + length d) s) ∧
      (prev <= pos)%nat ∧ (pos + length d <= length s)%nat
  end.
Proof.
  intros Hp. rewrite find_shift, cut_unfold by done. destruct (find (drop prev s) d 0) as [i|] eqn:E; cbn; [|done].
  apply find_cut in E as [Hl _]. rewrite length_drop in Hl. rewrite drop_drop.
  replace (prev + i - prev)%nat with i by lia. split_and!; [by rewrite Nat.add_assoc|lia|lia].
Qed.

Lemma keep_empty_loop_eq fuel s prev result : (prev <= length s)%nat → (length s - prev < fuel)%nat →
  keep_empty_loop fuel s d prev result = Some (result ++ cut d (drop prev s)).
Proof.
  pose proof delim_pos. revert prev result. induction fuel as [|fuel IH]; intros prev result Hp Hf; [lia|].
  cbn [keep_empty_loop]. pose proof (next_piece s prev Hp) as Hn. destruct (find s d prev) as [pos|].
  - destruct Hn as (-> & H1 & H2). rewrite IH by lia. by rewrite <- (assoc_L (++)).
  - by rewrite Hn, cut_tail.
Qed.

Lemma replace_loop_eq fuel s new start res : (start <= length s)%nat → (length s - start < fuel)%nat →
  replace_loop fuel s d new start res = Some (res ++ JoinStrings (cut d (drop start s)) new).
Proof.
  pose proof delim_pos. revert start res. induction fuel as [|fuel IH]; intros start res Hp Hf; [lia|].
  cbn [replace_loop]. pose proof (next_piece s start Hp) as Hn. destruct (find s d start) as [pos|].
  - destruct Hn as (-> & H1 & H2). rewrite IH, JoinStrings_cons by (lia || apply cut_nonempty).
    by rewrite <- !(assoc_L (++)).
  - by rewrite Hn, cut_tail.
Qed.

Lemma replace_in_loop_eq fuel new pre rest : (length rest < fuel)%nat →
  replace_in_loop fuel d new (length pre) (pre ++ rest) = Some (pre ++ JoinStrings (cut d rest) new).
Proof.
  pose proof delim_pos. revert pre rest. induction fuel as [|fuel IH]; intros pre rest Hf; [lia|].
  cbn [replace_in_loop]. rewrite find_shift, drop_app_length, cut_unfold by (rewrite ?length_app; done || lia).
  destruct (find rest d 0) as [i|] eqn:E; cbn [fmap option_fmap option_map]; [|done].
  apply find_cut in E as [Hl Hs]. rewrite JoinStrings_cons by apply cut_nonempty.
  rewrite take_app_add, <- (assoc_L (++)).
  replace (drop (length pre + i + length d) (pre ++ rest)) with (drop (i + length d) rest)
    by (by rewrite <- Nat.add_assoc, drop_app_add).
  replace (length pre + i + length new)%nat with (length (pre ++ take i rest ++ new))
    by (rewrite !length_app, length_take; lia).
  replace (pre ++ take i rest ++ new ++ drop (i + length d) rest) with
    ((pre ++ take i rest ++ new) ++ drop (i + length d) rest) by (by rewrite <- !(assoc_L (++))).
  rewrite IH by (rewrite length_drop; lia).
  by rewrite <- !(assoc_L (++)).
Qed.

Lemma split_string_loop_eq fuel s b result : (b <= length s)%nat → (length s - b < fuel)%nat →
  split_string_loop fuel s d b result = Some (result ++ filter (.≠ []) (cut d (drop b s))).
Proof.
  pose proof delim_pos. revert b result. induction fuel as [|fuel IH]; intros b result Hp Hf; [lia|].
  cbn [split_string_loop]. destruct (Nat.ltb_spec b (length s)).
  - pose proof (next_piece s b Hp) as Hn. unfold substr. destruct (Nat.ltb_spec (length s) b); [lia|].
    destruct (find s d b) as [pos|].
    + destruct Hn as (-> & Hbp & Hpl). rewrite IH by lia. destruct (Nat.ltb_spec (length s - b) (pos - b)); [lia|].
      destruct (Nat.ltb_spec b pos).
      * rewrite filter_cons_True by (intros E; apply (f_equal length) in E; rewrite length_take, length_drop in E; cbn in E; lia).
        by rewrite <- (assoc_L (++)).
      * replace (pos - b)%nat with 0%nat by lia. rewrite take_0. by rewrite filter_cons_False by (intros []; done).
    + rewrite Hn, filter_cons_True; [done|]. intros E. apply (f_equal length) in E. rewrite length_drop in E. cbn in E. lia.
  - rewrite drop_ge by lia. rewrite cut_unfold, find_nil_none by done. by rewrite filter_cons_False, app_nil_r by (intros []; done).
Qed.

End Loops.

(** A delimiter of one character, and the loops for it. *)
Lemma keep_empty_char_loop_eq fuel s c prev result :
  keep_empty_char_loop fuel s c prev result = keep_empty_loop fuel s [c] prev result.
Proof.
  revert prev result. induction fuel as [|fuel IH]; intros prev result; cbn [keep_empty_char_loop keep_empty_loop]; [done|].
  rewrite find_char_find. destruct (find s [c] prev); [apply IH|done].
Qed.

Lemma run_length_find c p : find p [c] 0 = if decide (run_length c p < length p)%nat then Some (run_length c p) else None.
Proof.
  rewrite <- find_char_find. unfold find_char.
  assert (E : ∀ p, std_find p c = run_length c p) by (induction p0 as [|x p0 IH]; [done|]; cbn; by rewrite IH).
  rewrite E. pose proof (std_find_spec p c) as (H & _). rewrite E in H.
  destruct (Nat.leb_spec (length p) 0); [by rewrite decide_False by lia|].
  rewrite drop_0. cbn [Nat.add]. destruct (Nat.eqb_spec (run_length c p) (length p)); cbn [negb].
  - by rewrite decide_False by lia.
  - by rewrite decide_True by lia.
Qed.

Lemma cut_char c p : filter (.≠ []) (cut [c] p) =
  match p with
  | [] => []
  | x :: p' =>
      if x =? c then filter (.≠ []) (cut [c] p')
      else take (S (run_length c p')) p :: filter (.≠ []) (cut [c] (drop (S (run_length c p')) p))
  end.
Proof.
  rewrite cut_unfold by done. rewrite run_length_find. destruct p as [|x p']; [done|]. cbn [run_length].
  destruct (Z.eqb_spec x c) as [->|Hx].
  - rewrite decide_True by (cbn; lia). cbn [length Nat.add take drop]. rewrite drop_0. by rewrite filter_cons_False by (intros []; done).
  - set (n := S (run_length c p')). destruct (decide (n < length (x :: p'))%nat) as [Hlt|Hge].
    + rewrite filter_cons_True by done. f_equal. rewrite (cut_unfold [c] (drop n (x :: p'))) by done.
      assert (Hc : (x :: p') !! n = Some c).
      { pose proof (find_spec (x :: p') [c] 0) as Hf. rewrite run_length_find in Hf. cbn [run_length] in Hf.
        destruct (Z.eqb_spec x c); [done|]. fold n in Hf. rewrite decide_True in Hf by done. destruct Hf as (_ & [_ Ht] & _).
        destruct (lookup_lt_is_Some_2 _ _ Hlt) as [y Hy]. rewrite (drop_S _ _ _ Hy) in Ht. cbn in Ht. rewrite take_0 in Ht. by injection Ht as ->. }
      rewrite (drop_S _ _ _ Hc), run_length_find. cbn [run_length]. rewrite Z.eqb_refl, decide_True by (cbn; lia).
      cbn [length Nat.add take drop]. rewrite filter_cons_False by (intros []; done). by rewrite Nat.add_comm, drop_0.
    + rewrite (take_ge (x :: p')), (drop_ge (x :: p')) by lia. by rewrite filter_cons_True.
Qed.

Lemma split_char_loop_eq fuel c p result : (length p < fuel)%nat →
  split_char_loop fuel c p result = Some (result ++ filter (.≠ []) (cut [c] p)).
Proof.
  revert p result. induction fuel as [|fuel IH]; intros p result Hf; [lia|]. cbn [split_char_loop].
  rewrite cut_char. destruct p as [|x p']; [by rewrite app_nil_r|]. cbn [length] in Hf. destruct (x =? c); [apply IH; lia|].
  rewrite IH by (rewrite length_drop; cbn [length]; lia). by rewrite <- (assoc_L (++)).
Qed.

(** *** Any of a set of characters *)

(** The reference: the maximal runs of characters outside the set. *)
Fixpoint fields (d cur s : bytes) : list bytes :=
  match s with
  | [] => if decide (cur = []) then [] else [cur]
  | c :: s =>
      if decide (c ∈ d) then (if decide (cur = []) then [] else [cur]) ++ fields d [] s
      else fields d (cur ++ [c]) s
  end.

Lemma fields_run d run cur rest : Forall (.∉ d) run → fields d cur (run ++ rest) = fields d (cur ++ run) rest.
Proof.
  intros Hr. revert cur. induction Hr as [|c run Hc Hr IH]; intros cur; cbn [app fields]; [by rewrite app_nil_r|].
  rewrite decide_False, IH by done. by rewrite <- (assoc_L (++)).
Qed.

Lemma fields_skip d skip rest : Forall (.∈ d) skip → fields d [] (skip ++ rest) = fields d [] rest.
Proof. induction 1 as [|c skip Hc Hs IH]; [done|]. cbn [app fields]. by rewrite decide_True, IH. Qed.

Lemma fields_stop d cur c rest : c ∈ d → cur ≠ [] → fields d cur (c :: rest) = cur :: fields d [] (c :: rest).
Proof. intros Hc Hne. cbn [fields]. destruct (decide (c ∈ d)); [|done]. by destruct (decide (cur = [])). Qed.

(** What lies between a position and the one found, or the end. *)
Lemma first_at_between P s lo r : first_at (has P s) lo r →
  Forall (λ c, ¬ P c) (take (match r with Some i => i | None => length s end - lo) (drop lo s)).
Proof.
  intros H. apply Forall_lookup. intros i c [Hc Hi]%lookup_take_Some Hp. rewrite lookup_drop in Hc.
  assert (Hh : has P s (lo + i)) by (by exists c). destruct r as [k|]; cbn in H.
  - destruct H as (_ & _ & H). apply (H (lo + i)%nat); [lia|done].
  - by apply (H (lo + i)%nat); [lia|].
Qed.

Lemma split_any_loop_eq fuel s d begin_index result : bytes_ok s → bytes_ok d → d ≠ [] →
  match begin_index with
  | None => True
  | Some b => has (.∉ d) s b ∧ (length s - b < fuel)%nat
  end → (0 < fuel)%nat →
  split_any_loop fuel s d begin_index result =
    Some (result ++ match begin_index with Some b => fields d [] (drop b s) | None => [] end).
Proof.
  intros Hs Hd Hne. revert begin_index result. induction fuel as [|fuel IH]; intros [b|] result Hb Hf; cbn [split_any_loop];
    [lia|lia| |by rewrite app_nil_r]. destruct Hb as [(c & Hc & Hcd) Hfu]. pose proof (lookup_lt_Some _ _ _ Hc) as Hlt.
  unfold substr. destruct (Nat.ltb_spec (length s) b); [lia|].
  pose proof (find_first_of_spec s d Hs Hd b) as He. pose proof (first_at_between _ _ _ _ He) as Hrun.
  destruct (find_first_of s d b) as [e|].
  - destruct He as (Hbe & (y & Hy & Hyd) & _). pose proof (lookup_lt_Some _ _ _ Hy) as Hle.
    assert (Hbe' : (b < e)%nat) by (destruct (decide (b = e)) as [<-|]; [replace y with c in Hyd by congruence; by destruct Hcd|lia]).
    destruct (Nat.ltb_spec (length s - b) (e - b)); [lia|].
    assert (Hfields : fields d [] (drop b s) = take (e - b) (drop b s) :: fields d [] (drop e s)).
    { rewrite <- (take_drop (e - b) (drop b s)) at 1. rewrite fields_run by done. cbn [app].
      rewrite drop_drop. replace (b + (e - b))%nat with e by lia. rewrite (drop_S _ _ _ Hy). apply fields_stop; [done|].
      intros E. apply (f_equal length) in E. rewrite length_take, length_drop in E. cbn in E. lia. }
    pose proof (find_first_not_of_spec s d Hs Hd e (or_introl Hne)) as Hb'. pose proof (first_at_between _ _ _ _ Hb') as Hskip.
    assert (Hskip' : Forall (.∈ d) (take (match find_first_not_of s d e with Some i => i | None => length s end - e) (drop e s))).
    { eapply Forall_impl; [exact Hskip|]. intros z Hz. by apply dec_stable. }
    rewrite IH; [|destruct (find_first_not_of s d e) as [b'|]; [|done]|lia].
    + rewrite Hfields, <- (assoc_L (++)). do 2 f_equal. cbn [app]. f_equal.
      destruct (find_first_not_of s d e) as [b'|].
      * rewrite <- (take_drop (b' - e) (drop e s)) at 1. rewrite fields_skip by done. rewrite drop_drop.
        destruct Hb' as (? & _). do 2 f_equal. lia.
      * rewrite take_ge in Hskip' by (rewrite length_drop; lia). rewrite <- (app_nil_r (drop e s)).
        by rewrite fields_skip.
    + destruct Hb' as (? & ? & _). split; [done|lia].
  - do 2 f_equal. rewrite take_ge in Hrun by (rewrite length_drop; lia). rewrite <- (app_nil_r (drop b s)) at 2.
    rewrite fields_run by done. cbn [fields app]. rewrite decide_False; [done|].
    intros E. apply (f_equal length) in E. rewrite length_drop in E. cbn in E. lia.
Qed.

Lemma split_any_eq s d : bytes_ok s → bytes_ok d → d ≠ [] →
  split_any_loop (S (length s)) s d (find_first_not_of s d 0) [] = Some (fields d [] s).
Proof.
  intros Hs Hd Hne. pose proof (find_first_not_of_spec s d Hs Hd 0 (or_introl Hne)) as Hb.
  pose proof (first_at_between _ _ _ _ Hb) as Hskip. rewrite drop_0, Nat.sub_0_r in Hskip.
  assert (Hskip' : Forall (.∈ d) (take (match find_first_not_of s d 0 with Some i => i | None => length s end) s)).
  { eapply Forall_impl; [exact Hskip|]. intros z Hz. by apply dec_stable. }
  rewrite split_any_loop_eq; [|done|done|done| |lia].
  2: { destruct (find_first_not_of s d 0) as [b|]; [|done]. destruct Hb as (_ & ? & _). split; [done|lia]. }
  cbn [app]. f_equal. destruct (find_first_not_of s d 0) as [b|].
  - by rewrite <- (take_drop b s) at 2; rewrite fields_skip.
  - rewrite take_ge in Hskip' by done. rewrite <- (app_nil_r s). by rewrite fields_skip.
Qed.

(** ** Trimming *)

(** The reference. *)
Fixpoint drop_while (P : Z → bool) (s : bytes) : bytes :=
  match s with c :: s' => if P c then drop_while P s' else s | [] => [] end.
Definition trim_right (P : Z → bool) (s : bytes) : bytes := reverse (drop_while P (reverse s)).

Lemma drop_while_app P a b : Forall (λ c, P c = true) a → drop_while P (a ++ b) = drop_while P b.
Proof. induction 1 as [|c a Hc Ha IH]; [done|]. cbn. by rewrite Hc. Qed.

Lemma drop_while_all P s : Forall (λ c, P c = true) s → drop_while P s = [].
Proof. intros H. rewrite <- (app_nil_r s). by rewrite drop_while_app. Qed.

Lemma trim_right_app P a b : Forall (λ c, P c = true) b → trim_right P (a ++ b) = trim_right P a.
Proof. intros H. unfold trim_right. rewrite reverse_app, drop_while_app; [done|]. by apply Forall_reverse. Qed.

Lemma trim_right_snoc P a c : P c = false → trim_right P (a ++ [c]) = a ++ [c].
Proof. intros H. unfold trim_right. rewrite reverse_snoc. cbn [drop_while]. by rewrite H, reverse_cons, reverse_involutive. Qed.

Definition kept (P : Z → bool) (c : Z) : Prop := P c = false.

Lemma not_kept P (s : bytes) : Forall (λ c, ¬ kept P c) s → Forall (λ c, P c = true) s.
Proof. intros H. eapply Forall_impl; [exact H|]. unfold kept. intros c Hc. by apply not_false_is_true in Hc. Qed.

Lemma drop_while_first P s r : first_at (has (kept P) s) 0 r →
  drop_while P s = match r with Some i => drop i s | None => [] end.
Proof.
  intros H. pose proof (not_kept _ _ (first_at_between _ _ _ _ H)) as Ha. rewrite drop_0, Nat.sub_0_r in Ha.
  destruct r as [i|].
  - rewrite <- (take_drop i s) at 1. rewrite drop_while_app by done. destruct H as (_ & (c & Hc & Hk) & _).
    rewrite (drop_S _ _ _ Hc). cbn. by rewrite Hk.
  - rewrite take_ge in Ha by done. by apply drop_while_all.
Qed.

Lemma trim_right_last P s r : last_at (has (kept P) s) None r →
  trim_right P s = match r with Some j => take (j + 1) s | None => [] end.
Proof.
  intros H.
  destruct r as [j|]; cbn in H.
  - destruct H as (_ & (c & Hc & Hk) & H). rewrite Nat.add_1_r, (take_S_r _ _ _ Hc).
    assert (Hs : s = (take j s ++ [c]) ++ drop (S j) s) by (rewrite <- (assoc_L (++)); cbn; by rewrite take_drop_middle).
    rewrite Hs at 1. rewrite trim_right_app, trim_right_snoc; [done|done|]. apply not_kept, Forall_lookup.
    intros i d Hd Hk'. rewrite lookup_drop in Hd. apply (H (S j + i)%nat); [lia|done|]. by exists d.
  - unfold trim_right. rewrite drop_while_all; [done|]. apply Forall_reverse, not_kept, Forall_lookup.
    intros i d Hd Hk'. apply (H i I). by exists d.
Qed.

Lemma trim_both P s i : first_at (has (kept P) s) 0 (Some i) → ∀ j, last_at (has (kept P) s) None (Some j) →
  trim_right P (drop_while P s) = take (j + 1 - i) (drop i s) ∧ (i <= j)%nat ∧ (j < length s)%nat.
Proof.
  intros Hi j Hj. rewrite (drop_while_first P s (Some i) Hi). destruct Hi as (_ & (c & Hc & Hk) & Hbefore).
  assert (Hij : (i <= j)%nat).
  { destruct Hj as (_ & _ & H). apply Nat.nlt_ge. intros Hlt. apply (H i Hlt I). by exists c. }
  split; [|split; [done|destruct Hj as (_ & (d & Hd & _) & _); by apply lookup_lt_Some in Hd]].
  rewrite (trim_right_last P (drop i s) (Some (j - i)%nat)); [f_equal; lia|]. destruct Hj as (_ & (d & Hd & Hkd) & H).
  split; [done|]. split.
  - exists d. split; [|done]. rewrite lookup_drop. by replace (i + (j - i))%nat with j by lia.
  - intros k Hk' _ (x & Hx & Hxk). rewrite lookup_drop in Hx. apply (H (i + k)%nat); [lia|done|]. by exists x.
Qed.

(** *** The loops over spaces *)

Lemma skip_left_first n i s : (n + i = length s)%nat →
  let k := skip_left n i s in (i <= k)%nat ∧ (k <= length s)%nat ∧
  first_at (has (kept isspace) s) i (if (k =? length s)%nat then None else Some k).
Proof.
  revert i. induction n as [|n IH]; intros i Hn; cbn [skip_left].
  - split_and!; [lia..|]. destruct (Nat.eqb_spec i (length s)); [|lia]. intros j Hj (c & Hc & _).
    apply lookup_lt_Some in Hc. lia.
  - destruct (lookup_lt_is_Some_2 s i) as [c Hc]; [lia|]. rewrite Hc. cbn [default from_option id].
    destruct (isspace c) eqn:Ec.
    + destruct (IH (S i)) as (H1 & H2 & H3); [lia|]. split_and!; [lia..|].
      assert (Hno : ¬ has (kept isspace) s i) by (intros (d & Hd & Hk); unfold kept in Hk; congruence).
      destruct (skip_left n (S i) s =? length s)%nat; cbn in *.
      * intros j Hj. destruct (decide (j = i)) as [->|]; [done|]. apply H3. lia.
      * destruct H3 as (H3 & H4 & H5). split; [lia|]. split; [done|]. intros j Hj.
        destruct (decide (j = i)) as [->|]; [done|]. apply H5. lia.
    + split_and!; [lia..|]. destruct (Nat.eqb_spec i (length s)); [lia|]. split; [lia|]. split; [by exists c|lia].
Qed.

Lemma skip_right_last n s : (n <= length s)%nat →
  (skip_right n s <= n)%nat ∧
  last_at (has (kept isspace) (take n s)) None (match skip_right n s with O => None | S j => Some j end).
Proof.
  induction n as [|n IH]; intros Hn; cbn [skip_right].
  - split; [done|]. intros j _ (c & Hc & _). done.
  - destruct (lookup_lt_is_Some_2 s n) as [c Hc]; [lia|]. rewrite Hc. cbn [default from_option id].
    assert (Hat : ∀ j, has (kept isspace) (take (S n) s) j ↔ has (kept isspace) (take n s) j ∨ j = n ∧ kept isspace c).
    { intros j. unfold has. rewrite (take_S_r _ _ _ Hc). split.
      - intros (d & Hd & Hk). apply lookup_snoc_Some in Hd as [[Hj Hd]|[Hj ->]]; [left; by exists d|right].
        rewrite length_take in Hj. split; [lia|done].
      - intros [(d & Hd & Hk)|[-> Hk]].
        + exists d. split; [|done]. by apply lookup_app_l_Some.
        + exists c. split; [|done]. rewrite lookup_app_r, length_take, Nat.min_l, Nat.sub_diag by (rewrite ?length_take; lia). done. }
    destruct (isspace c) eqn:Ec.
    + destruct (IH ltac:(lia)) as [H1 H2]. split; [lia|]. eapply last_at_ext; [|exact H2]. intros j. rewrite Hat.
      split; [by left|]. intros [?|[_ Hk]]; [done|]. unfold kept in Hk. congruence.
    + split; [done|]. split; [done|]. split; [apply Hat; by right|]. intros j Hj _ Hh. destruct Hh as (d & Hd & _).
      apply lookup_lt_Some in Hd. rewrite length_take in Hd. lia.
Qed.

Lemma set_kept t s : bytes_ok s → bytes_ok t → ∀ i, has (.∉ t) s i ↔ has (kept (λ c, bool_decide (c ∈ t))) s i.
Proof. intros Hs Ht i. apply has_ext. intros c _. unfold kept. by rewrite bool_decide_eq_false. Qed.

(** ** The theorems *)

Lemma ReplaceAll_in_empty fuel s to pos : (pos <= length s)%nat → replace_in_loop fuel [] to pos s = None.
Proof.
  revert s pos. induction fuel as [|fuel IH]; intros s pos Hp; cbn [replace_in_loop]; [done|].
  assert (E : find s [] pos = Some pos).
  { unfold find. destruct (Nat.ltb_spec (length s) pos); [lia|]. cbn [length].
    assert (H0 : std_search (drop pos s) [] = 0%nat) by (by destruct (drop pos s)). rewrite H0.
    destruct (Nat.leb_spec (pos + 0 + 0) (length s)); [|lia]. f_equal. lia. }
  rewrite E. apply IH. rewrite !length_app, length_take, length_drop. cbn [length]. lia.
Qed.

Lemma cut_join_char c comps : comps ≠ [] → Forall (λ p, ∀ j, ¬ occurs [c] p j) comps →
  cut [c] (JoinStrings comps [c]) = comps.
Proof.
  intros Hne H. induction H as [|p comps Hp Hc IH]; [done|]. destruct (decide (comps = [])) as [->|Hcs].
  - unfold JoinStrings, JoinStrings_to. cbn [join_loop app]. rewrite cut_unfold by done.
    pose proof (find_spec p [c] 0) as Hf. destruct (find p [c] 0) as [i|]; [|done]. destruct Hf as (_ & Ho & _). by destruct (Hp i).
  - rewrite JoinStrings_cons, cut_unfold by done.
    assert (E : find (p ++ [c] ++ JoinStrings comps [c]) [c] 0 = Some (length p)).
    { eapply first_at_unique; [apply find_spec|]. split; [lia|]. split.
      - split; [rewrite !length_app; cbn; lia|]. by rewrite drop_app_length.
      - intros j Hj Ho. apply (Hp j). rewrite <- (take_app_length p ([c] ++ JoinStrings comps [c])).
        apply occurs_take; [cbn; lia|done]. }
    rewrite E, take_app_length, drop_app_add. cbn [drop app length]. by rewrite drop_0, IH.
Qed.

Lemma ReplaceAll_eq s d new : d ≠ [] → ReplaceAll s d new = Some (JoinStrings (cut d s) new).
Proof.
  intros Hd. unfold ReplaceAll. rewrite bool_decide_eq_false_2 by done. by rewrite (replace_loop_eq d Hd) by lia.
Qed.

(** Splitting, joining and replacing fit together.  For a delimiter that
    is not empty, splitting with the empty pieces kept gives the pieces
    between the delimiter's occurrences from the left; joining them with the
    delimiter gives the string back, [SplitString] drops the empty ones, and
    both forms of [ReplaceAll] end and join the pieces with the new string
    instead.  For one character splitting also undoes joining. *)
Theorem split_join_replace s d new : d ≠ [] → ∃ ps,
  SplitStringKeepEmpty s d = Some ps ∧ JoinStrings ps d = s ∧ Forall (λ p, ∀ j, ¬ occurs d p j) ps ∧
  SplitString s d = Some (filter (.≠ []) ps) ∧
  ReplaceAll s d new = Some (JoinStrings ps new) ∧
  (∀ fuel, (length s < fuel)%nat → ReplaceAll_in fuel s d new = Some (JoinStrings ps new)) ∧
  (∀ comps, length d = 1%nat → JoinStrings comps d = s → s ≠ [] → Forall (λ p, ∀ j, ¬ occurs d p j) comps → ps = comps).
Proof.
  intros Hd. exists (if decide (s = []) then [] else cut d s).
  assert (Hr : JoinStrings (if decide (s = []) then [] else cut d s) new = JoinStrings (cut d s) new).
  { case_decide as E; [|done]. rewrite E, cut_unfold, find_nil_none by done. done. }
  assert (Hin : ∀ fuel, (length s < fuel)%nat → ReplaceAll_in fuel s d new = Some (JoinStrings (cut d s) new)).
  { intros fuel Hf. apply (replace_in_loop_eq d Hd fuel new [] s Hf). }
  pose proof (ReplaceAll_eq s d new Hd) as Hall.
  rewrite Hr. split_and!; [| | | |done|done|].
  - unfold SplitStringKeepEmpty, SplitStringKeepEmpty_char. rewrite (bool_decide_eq_false_2 (d = [])), orb_false_r by done.
    destruct d as [|c [|c2 d]]; [done| |]; case_bool_decide as E; (case_decide; try done).
    + by rewrite keep_empty_char_loop_eq, keep_empty_loop_eq by (done || lia).
    + by rewrite keep_empty_loop_eq by (done || lia).
  - case_decide as E; [by rewrite E|by apply join_cut].
  - case_decide; [constructor|by apply cut_pieces].
  - unfold SplitString, SplitUsingStringDelimiterToIterator, SplitStringToIteratorUsing.
    case_bool_decide as E; (case_decide; try done). destruct d as [|c [|c2 d]]; [done| |].
    + by rewrite split_char_loop_eq by lia.
    + by rewrite split_string_loop_eq by (done || lia).
  - intros comps Hl Hj Hne Hc. rewrite decide_False by done. destruct d as [|c [|? ?]]; try done. rewrite <- Hj.
    apply cut_join_char; [|done]. intros ->. by apply Hne.
Qed.

Example split_join_replace_witness :
  SplitStringKeepEmpty (str "a, b,, c") (str ", ") = Some [str "a"; str "b,"; str "c"] ∧
  ReplaceAll (str "a, b,, c") (str ", ") (str "/") = Some (str "a/b,/c") ∧
  SplitString (str "/usr//bin/") (str "/") = Some [str "usr"; str "bin"].
Proof.
  destruct (split_join_replace (str "a, b,, c") (str ", ") (str "/")) as (ps & E & _ & _ & _ & R & _); [done|].
  assert (ps = [str "a"; str "b,"; str "c"]) as -> by (vm_compute in E; by injection E as <-).
  split; [exact E|]. split; [etransitivity; [exact R|reflexivity]|].
  destruct (split_join_replace (str "/usr//bin/") (str "/") []) as (qs & E2 & _ & _ & S2 & _); [done|].
  rewrite S2. vm_compute in E2. injection E2 as <-. reflexivity.
Defined.

(** Trimming.  Each function removes exactly the characters of its
    kind, spaces or those of the set, from the left, the right or both ends;
    on the right with spaces for strings shorter than 2^31. *)
Theorem trims s t : bytes_ok s → bytes_ok t →
  let inset c := bool_decide (c ∈ t) in
  StringTrimLeft s = drop_while isspace s ∧
  (Z.of_nat (length s) < 2 ^ 31 → StringTrimRight s = trim_right isspace s) ∧
  StringTrim s = trim_right isspace (drop_while isspace s) ∧
  StringTrimLeft_of s t = drop_while inset s ∧
  StringTrimRight_of s t = trim_right inset s ∧
  StringTrim_of s t = trim_right inset (drop_while inset s).
Proof.
  intros Hs Ht inset.
  destruct (skip_left_first (length s) 0 s) as (_ & Hl1 & Hl2); [lia|].
  destruct (skip_right_last (length s) s ltac:(lia)) as [Hr1 Hr2]. rewrite take_ge in Hr2 by done.
  pose proof (first_at_ext _ _ _ _ (set_kept t s Hs Ht) (find_first_not_of_spec s t Hs Ht 0 (or_intror eq_refl))) as Hf.
  pose proof (last_at_ext _ _ _ _ (set_kept t s Hs Ht) (find_last_not_of_spec s t Hs Ht None)) as Hb. fold inset in Hf, Hb.
  assert (Hboth : ∀ P r r', first_at (has (kept P) s) 0 r → last_at (has (kept P) s) None r' →
    match r with None => True | Some i => ∃ j, r' = Some j ∧ (i <= j)%nat ∧ (j < length s)%nat end ∧
    trim_right P (drop_while P s) = match r, r' with Some i, Some j => take (j + 1 - i) (drop i s) | _, _ => [] end).
  { intros P [i|] [j|] H1 H2.
    - destruct (trim_both P s i H1 j H2) as (-> & ? & ?). split; [by exists j|done].
    - destruct H1 as (_ & Hh & _). by destruct (H2 i I).
    - split; [done|]. by rewrite (drop_while_first P s None H1).
    - split; [done|]. by rewrite (drop_while_first P s None H1). }
  split_and!.
  - unfold StringTrimLeft. rewrite (drop_while_first _ _ _ Hl2). destruct (Nat.eqb_spec (skip_left (length s) 0 s) (length s)); [|done].
    by rewrite drop_ge by lia.
  - intros Hlen. unfold StringTrimRight. rewrite s32_small by lia.
    destruct (Z.ltb_spec (Z.of_nat (length s) - 1 + 1) 0); [lia|]. rewrite (trim_right_last _ _ _ Hr2).
    replace (Z.to_nat (Z.of_nat (length s) - 1 + 1)) with (length s) by lia.
    destruct (skip_right (length s) s); [by rewrite take_0|]. by rewrite Nat.add_1_r.
  - unfold StringTrim. destruct (Hboth isspace _ _ Hl2 Hr2) as [Hm ->].
    destruct (Nat.eqb_spec (skip_left (length s) 0 s) (length s)); [done|]. destruct Hm as (j & Ej & Hij & Hj). rewrite Ej.
    destruct (skip_right (length s) s) as [|k]; [done|]. injection Ej as ->. unfold substr.
    destruct (Nat.ltb_spec (length s) (skip_left (length s) 0 s)); [lia|].
    destruct (Nat.ltb_spec (length s - skip_left (length s) 0 s) (S j - skip_left (length s) 0 s)); [lia|]. f_equal. lia.
  - unfold StringTrimLeft_of. rewrite (drop_while_first _ _ _ Hf). destruct (find_first_not_of s t 0) as [i|]; [|done].
    unfold substr. destruct (Nat.ltb_spec (length s) i); [|done]. by rewrite !drop_ge by lia.
  - unfold StringTrimRight_of. rewrite (trim_right_last _ _ _ Hb). destruct (find_last_not_of s t None) as [j|]; [|done].
    unfold substr. destruct (Nat.ltb_spec (length s) 0); [lia|]. rewrite drop_0, Nat.sub_0_r.
    destruct (Nat.ltb_spec (length s) (j + 1)); [|done]. by rewrite !take_ge by lia.
  - unfold StringTrim_of. destruct (Hboth inset _ _ Hf Hb) as [Hm ->]. destruct (find_first_not_of s t 0) as [i|]; [|done].
    destruct Hm as (j & -> & Hij & Hj). unfold substr. destruct (Nat.ltb_spec (length s) i); [lia|].
    destruct (Nat.ltb_spec (length s - i) (j + 1 - i)); [lia|done].
Qed.

Example trims_witness : StringTrim (str "  a b  ") = str "a b" ∧ StringTrim_of (str "xxaxbx") (str "x") = str "axb".
Proof.
  destruct (trims (str "  a b  ") []) as (_ & _ & E & _); [by repeat constructor; vm_compute..|].
  destruct (trims (str "xxaxbx") (str "x")) as (_ & _ & _ & _ & _ & E2); [by repeat constructor; vm_compute..|].
  split; [etransitivity; [exact E|reflexivity]|etransitivity; [exact E2|reflexivity]].
Defined.

(** ** One character as the delimiter *)

Lemma std_find_first a c rest : c ∉ a → std_find (a ++ c :: rest) c = length a.
Proof.
  induction a as [|x a IH]; intros Hc; cbn; [by rewrite Z.eqb_refl|].
  destruct (Z.eqb_spec x c) as [->|]; [set_solver|]. rewrite IH by set_solver. done.
Qed.

Lemma find_char_after pre a c rest : c ∉ a → find_char (pre ++ a ++ c :: rest) c (length pre) = Some (length pre + length a)%nat.
Proof.
  intros Hc. unfold find_char. rewrite drop_app_length, std_find_first by done. rewrite !length_app. cbn [length].
  destruct (Nat.leb_spec (length pre + (length a + S (length rest))) (length pre)); [lia|].
  destruct (Nat.eqb_spec (length pre + length a) (length pre + (length a + S (length rest)))); [lia|done].
Qed.

Lemma find_char_first a c rest : c ∉ a → find_char (a ++ c :: rest) c 0 = Some (length a).
Proof. exact (find_char_after [] a c rest). Qed.

Lemma SplitString_char s c : SplitString s [c] = Some (filter (.≠ []) (cut [c] s)).
Proof.
  unfold SplitString, SplitUsingStringDelimiterToIterator. case_bool_decide as Hs; [by subst|].
  unfold SplitStringToIteratorUsing. by rewrite split_char_loop_eq by lia.
Qed.

Lemma cut_no c w : c ∉ w → cut [c] w = [w].
Proof.
  intros Hw. rewrite cut_unfold by done. rewrite <- find_char_find. pose proof (find_char_spec w c 0) as H.
  destruct (find_char w c 0) as [i|]; [|done]. destruct H as (_ & (x & Hx & ->) & _). destruct Hw. by eapply list_elem_of_lookup_2.
Qed.

Lemma cut_first c w rest : c ∉ w → cut [c] (w ++ c :: rest) = w :: cut [c] rest.
Proof.
  intros Hw. rewrite cut_unfold by done. rewrite <- find_char_find, find_char_first by done.
  rewrite take_app_length, drop_app_ge by lia. replace (length w + length [c] - length w)%nat with 1%nat by (cbn; lia). done.
Qed.

(** Up to the first delimiter, if there is one. *)
Lemma split_at_first (c : Z) (s : bytes) : c ∉ s ∨ ∃ w rest, s = w ++ c :: rest ∧ c ∉ w.
Proof.
  induction s as [|x s IH]; [left; set_solver|]. destruct (decide (x = c)) as [->|Hx]; [right; exists [], s; split; [done|set_solver]|].
  destruct IH as [H|(w & rest & -> & Hw)]; [left; set_solver|]. right. exists (x :: w), rest. split; [done|set_solver].
Qed.

Lemma cut_app_sep c p q : cut [c] (p ++ c :: q) = cut [c] p ++ cut [c] q.
Proof.
  remember (length p) as n eqn:Hn. revert p Hn. induction (lt_wf n) as [n _ IH]. intros p ->.
  destruct (split_at_first c p) as [Hp|(w & rest & -> & Hw)]; [by rewrite cut_first, (cut_no c p) by done|].
  rewrite <- (assoc_L (++)). cbn [app]. rewrite (cut_first c w (rest ++ c :: q)), (cut_first c w rest) by done. cbn [app]. f_equal.
  apply (IH (length rest)); [rewrite length_app; cbn; lia|done].
Qed.

(** ** The longest common substring *)

Section Common.
Context (s1 s2 : bytes).

(** A common block of [k] characters at [p] and [q]. *)
Definition common (k p q : nat) : Prop :=
  (p + k <= length s1)%nat ∧ (q + k <= length s2)%nat ∧ ∀ i, (i < k)%nat → s1 !! (p + i)%nat = s2 !! (q + i)%nat.

(** What the record says is true. *)
Definition sound (st : Longest) : Prop :=
  0 <= longest st ∧
  (0 < longest st → 0 <= common_pos1 st ∧ 0 <= common_pos2 st ∧
    common (Z.to_nat (longest st)) (Z.to_nat (common_pos1 st)) (Z.to_nat (common_pos2 st))).

Lemma align_loop_spec a b m n len st : drop m s1 = a → drop n s2 = b → (m <= length s1)%nat → (n <= length s2)%nat →
  (len <= m)%nat → (len <= n)%nat → common len (m - len) (n - len) → Z.of_nat len <= longest st → sound st →
  let st' := align_loop a b (Z.of_nat m) (Z.of_nat n) (Z.of_nat len) st in
  sound st' ∧ longest st <= longest st' ∧
  ∀ k p q, common k p q → (p + n = q + m)%nat → (m <= p + len)%nat → Z.of_nat k <= longest st'.
Proof.
  revert b m n len st. induction a as [|x a IH]; intros b m n len st Ha Hb Hm Hn Hlm Hln Hc Hle Hst; cbn [align_loop].
  { split; [done|]. split; [lia|]. intros k p q (H1 & H2 & _) Hd Hp. apply (f_equal length) in Ha. rewrite length_drop in Ha. cbn in Ha. lia. }
  destruct b as [|y b].
  { split; [done|]. split; [lia|]. intros k p q (H1 & H2 & _) Hd Hp. apply (f_equal length) in Hb. rewrite length_drop in Hb. cbn in Hb. lia. }
  assert (Hx : s1 !! m = Some x) by (rewrite <- (Nat.add_0_r m), <- lookup_drop, Ha; done).
  assert (Hy : s2 !! n = Some y) by (rewrite <- (Nat.add_0_r n), <- lookup_drop, Hb; done).
  pose proof (lookup_lt_Some _ _ _ Hx). pose proof (lookup_lt_Some _ _ _ Hy).
  assert (Ha' : drop (S m) s1 = a) by (rewrite (drop_S _ _ _ Hx) in Ha; by injection Ha).
  assert (Hb' : drop (S n) s2 = b) by (rewrite (drop_S _ _ _ Hy) in Hb; by injection Hb).
  replace (Z.of_nat m + 1) with (Z.of_nat (S m)) by lia. replace (Z.of_nat n + 1) with (Z.of_nat (S n)) by lia.
  destruct (Z.eqb_spec x y) as [->|Hne]; cbn [negb].
  - replace (Z.of_nat len + 1) with (Z.of_nat (S len)) by lia.
    assert (Hc' : common (S len) (S m - S len) (S n - S len)).
    { destruct Hc as (H1 & H2 & H3). split_and!; [lia..|]. intros i Hi. cbn [Nat.sub].
      destruct (decide (i = len)) as [->|]; [|apply H3; lia]. replace (m - len + len)%nat with m by lia.
      replace (n - len + len)%nat with n by lia. congruence. }
    set (st1 := if longest st <? Z.of_nat (S len) then _ else st).
    assert (Hst1 : sound st1 ∧ longest st <= longest st1 ∧ Z.of_nat (S len) <= longest st1).
    { unfold st1. destruct (Z.ltb_spec (longest st) (Z.of_nat (S len))); cbn [longest]; [|split; [done|lia]].
      split; [|lia]. split; [cbn; lia|]. intros _. cbn [common_pos1 common_pos2 longest]. split; [lia|]. split; [lia|].
      rewrite Nat2Z.id. replace (Z.to_nat (Z.of_nat m - Z.of_nat (S len) + 1)) with (S m - S len)%nat by lia.
      replace (Z.to_nat (Z.of_nat n - Z.of_nat (S len) + 1)) with (S n - S len)%nat by lia. done. }
    destruct Hst1 as (S1 & S2 & S3).
    destruct (IH b (S m) (S n) (S len) st1 Ha' Hb') as (R1 & R2 & R3); [lia..|done|lia|done|].
    split; [done|]. split; [lia|]. intros k p q Hk Hd Hp. apply (R3 k p q Hk); lia.
  - destruct (IH b (S m) (S n) 0%nat st Ha' Hb') as (R1 & R2 & R3); [lia..| |lia|done|].
    { split_and!; [lia..|]. intros; lia. }
    change (Z.of_nat 0) with 0 in *. split; [done|]. split; [done|]. intros k p q Hk Hd Hp. destruct (decide (S m <= p)%nat); [apply (R3 k p q Hk); lia|].
    assert (Hpk : (p + k <= m)%nat); [|lia]. apply Nat.nlt_ge. intros Hlt. destruct Hk as (_ & _ & Hk).
    specialize (Hk (m - p)%nat ltac:(lia)). replace (p + (m - p))%nat with m in Hk by lia.
    replace (q + (m - p))%nat with n in Hk by lia. congruence.
Qed.

(** The alignments from the [i]th on, of the first string or of the second. *)
Definition beyond (first : bool) (i p q : nat) : Prop := if first then (q + i <= p)%nat else (p + i <= q)%nat.

Lemma shift_loop_spec fuel (first : bool) i st : sound st → (length (if first then s1 else s2) < i + fuel)%nat →
  let st' := shift_loop fuel first s1 s2 (Z.of_nat i) st in
  sound st' ∧ longest st <= longest st' ∧ ∀ k p q, common k p q → beyond first i p q → Z.of_nat k <= longest st'.
Proof.
  revert i st. induction fuel as [|fuel IH]; intros i st Hst Hf; cbn [shift_loop].
  { split; [done|]. split; [lia|]. intros k p q (H1 & H2 & _) Hb. destruct Hst as [H0 _]. destruct first; cbn in *; lia. }
  destruct (Z.ltb_spec (Z.of_nat i) (Z.of_nat (length (if first then s1 else s2)))) as [Hi|Hi].
  2: { split; [done|]. split; [lia|]. intros k p q (H1 & H2 & _) Hb. destruct Hst as [H0 _]. destruct first; cbn in *; lia. }
  destruct (_ || _)%bool eqn:Eb.
  { split; [done|]. split; [lia|]. intros k p q (H1 & H2 & _) Hb. apply orb_true_iff in Eb as [Eb|Eb]; apply Z.leb_le in Eb;
      destruct first; cbn in *; lia. }
  clear Eb. set (m := if first then i else 0%nat). set (n := if first then 0%nat else i).
  replace (if first then Z.of_nat i else 0) with (Z.of_nat m) by (by unfold m; destruct first).
  replace (if first then 0 else Z.of_nat i) with (Z.of_nat n) by (by unfold n; destruct first). rewrite !Nat2Z.id.
  destruct (align_loop_spec (drop m s1) (drop n s2) m n 0 st eq_refl eq_refl) as (A1 & A2 & A3);
    [unfold m; destruct first; cbn in *; lia|unfold n; destruct first; cbn in *; lia|lia|lia| |apply Hst|done|].
  { unfold m, n. destruct first; cbn in *; (split_and!; [lia..|]; intros; lia). }
  replace (Z.of_nat i + 1) with (Z.of_nat (S i)) by lia.
  destruct (IH (S i) (align_loop (drop m s1) (drop n s2) (Z.of_nat m) (Z.of_nat n) (Z.of_nat 0) st) A1) as (R1 & R2 & R3); [lia|].
  split; [exact R1|]. split; [etransitivity; [exact A2|exact R2]|]. intros k p q Hk Hb. 
  assert (Hdec : beyond first (S i) p q ∨ ¬ beyond first (S i) p q) by (unfold beyond; destruct first; lia).
  destruct Hdec as [Hn|Hn]; [by apply (R3 k p q)|].
  specialize (A3 k p q Hk). etransitivity; [apply A3|exact R2]; unfold m, n, beyond in *; destruct first; cbn in *; lia.
Qed.

Lemma common_take k p q : common k p q → take k (drop p s1) = take k (drop q s2).
Proof.
  intros (H1 & H2 & H). apply list_eq. intros i. destruct (decide (i < k)%nat).
  - rewrite !lookup_take, !lookup_drop by done. rewrite !decide_True by done. by apply H.
  - rewrite !lookup_take_ge by lia. done.
Qed.

End Common.

(** [LongestCommonSubstring] is right whatever its shortcuts skip: what
    it returns is a substring of both strings, and no common substring is
    longer. *)
Theorem LongestCommonSubstring_longest s1 s2 : let r := LongestCommonSubstring s1 s2 in
  (∃ p q, take (length r) (drop p s1) = r ∧ take (length r) (drop q s2) = r) ∧
  ∀ k p q, common s1 s2 k p q → (k <= length r)%nat.
Proof.
  assert (Hempty : (∃ p q, take 0 (drop p s1) = [] ∧ take 0 (drop q s2) = [])) by (exists 0%nat, 0%nat; by rewrite !take_0).
  intros r. unfold r, LongestCommonSubstring. case_match eqn:Ee.
  { split; [done|]. intros k p q (H1 & H2 & _). apply orb_true_iff in Ee as [E|E]; apply bool_decide_eq_true in E; subst; cbn in *; lia. }
  clear Ee. set (st0 := mkLongest 0 (-1) (-1)). assert (S0 : sound s1 s2 st0) by (split; cbn; lia).
  destruct (shift_loop_spec s1 s2 (S (length s1)) true 0 st0 S0) as (S1 & _ & B1); [lia|]. change (Z.of_nat 0) with 0 in *.
  set (st1 := shift_loop (S (length s1)) true s1 s2 0 st0) in *.
  destruct (shift_loop_spec s1 s2 (S (length s2)) false 1 st1 S1) as (S2 & M2 & B2); [lia|]. change (Z.of_nat 1) with 1 in *.
  set (st2 := shift_loop (S (length s2)) false s1 s2 1 st1) in *. clearbody st1 st2. clear S0 S1 st0.
  assert (Hall : ∀ k p q, common s1 s2 k p q → Z.of_nat k <= longest st2).
  { intros k p q Hk. destruct (decide (q <= p)%nat).
    - etransitivity; [apply (B1 k p q Hk); cbn; lia|done].
    - apply (B2 k p q Hk). cbn. lia. }
  destruct S2 as [Hpos Hc]. destruct (Z.eqb_spec 0 (longest st2)) as [E|E].
  { split; [done|]. intros k p q Hk. specialize (Hall k p q Hk). cbn. lia. }
  destruct Hc as (P1 & P2 & Hc); [lia|]. set (k := Z.to_nat (longest st2)) in *. set (p := Z.to_nat (common_pos1 st2)) in *.
  set (q := Z.to_nat (common_pos2 st2)) in *. pose proof Hc as (L1 & L2 & _). unfold substr.
  destruct (Nat.ltb_spec (length s1) p); [lia|]. destruct (Nat.ltb_spec (length s1 - p) k); [lia|].
  rewrite length_take, length_drop, Nat.min_l by lia. split.
  - exists p, q. split; [done|]. symmetry. by apply common_take.
  - intros k' p' q' Hk'. specialize (Hall k' p' q' Hk'). lia.
Qed.
