(* ===== verification/Composited.v ===== *)
(** * The writers that split their work

    Model of storage/sstable/writer/composited_sstable_writer, which sorts
    more entries than fit in memory by writing sorted batches to temporary
    tables and merging them, and of sharding_sstable_writer, which spreads
    entries over composited writers by a sharding policy.

    The world outside is the files, a map from paths to contents, and the
    number of times the real-time clock was read; [clock n] is what its [n]th
    reading in microseconds gives.  A table writer leaves its file at its path
    when it is flushed.  Opening a table reads the
    map; [None] is a failed CHECK or undefined behaviour, or a loop that is
    cut short by its fuel. *)

From Stdlib Require Import Sorting.Sorted.
From S2P Require Import Prelude Coding StdString StringAlgorithm Number HFile HFileFacts LruCache SSTableWriter SSTableWriterFacts SSTableReader SSTableReaderFacts SSTable InMemory Merged.

Record World := mkWorld { files : gmap bytes bytes; readings : nat }.

Definition set_file (p : bytes) (f : option bytes) (wd : World) : World :=
  match f with Some f => mkWorld (<[p := f]> (files wd)) (readings wd) | None => wd end.
Definition remove_file (wd : World) (p : bytes) : World := mkWorld (delete p (files wd)) (readings wd).

(** [map[key] = value] of a [std::map]. *)
Fixpoint map_assign {V} (k : bytes) (v : V) (m : list (bytes * V)) : list (bytes * V) :=
  match m with
  | [] => [(k, v)]
  | (k', v') :: m' =>
      if str_lt k k' then (k, v) :: m
      else if str_lt k' k then (k', v') :: map_assign k v m' else (k', v) :: m'
  end.

Section Composited.
Context {M : Machine} {D : Disk} {C : Type} {BC : BlockCache C}.
Context (snap : option BlockCompression).
(** [FLAGS_compress_type] and [FLAGS_tmp_dir_and_prefix] *)
Context (compress_type_flag tmp_dir_and_prefix : bytes).
Context (clock : nat → Z).
Context (fuel : nat).
#[local] Instance tmp_table : TableReader OnDisk (@state C) := on_disk_table fuel.

(** ** class CompositedSSTableWriter *)

Record CompositedWriter := mkComposited {
  cw_option : WriteOption;
  cw_path : bytes;
  total_byte : Z;
  curr_byte : Z;
  batch_write_size : Z;
  builder : SingleWriter;
  paths : list bytes;                  (* the last one is the builder's *)
  cw_meta : list (bytes * bytes)
}.

Definition tmp_compress_type : Z :=
  if bool_decide (compress_type_flag = str "snappy") then CompressType_kSnappy
  else if bool_decide (compress_type_flag = str "lzo") then CompressType_kLzo
  else if bool_decide (compress_type_flag = str "none") then CompressType_kUnCompress
  else CompressType_kUnCompress.

(** The options of a temporary table. *)
Definition tmp_option : WriteOption := mkOption (64 * 1024) tmp_compress_type.

Definition tmp_path (path : bytes) (reading : nat) : option bytes :=
  path_suffix ← ReplaceAll path (str "/") (str "_");
  Some (tmp_dir_and_prefix ++ path_suffix ++ NumberToString t_long (clock reading)).

(** [GetNewWriter]: the path and the builder. *)
Definition GetNewWriter (path : bytes) (wd : World) : option ((bytes * SingleWriter) * World) :=
  p ← tmp_path path (readings wd);
  b ← new_SingleWriter snap tmp_option;
  Some ((p, b), mkWorld (files wd) (S (readings wd))).

(** The constructor with the bytes of a batch; the other one has 512 MB. *)
Definition new_CompositedWriter (opt : WriteOption) (path : bytes) (total_in_memory : Z) (wd : World) :
    option (CompositedWriter * World) :=
  '((p, b), wd) ← GetNewWriter path wd;
  Some (mkComposited opt path 0 0 total_in_memory b [p] [], wd).
Definition default_batch : Z := 512 * 1024 * 1024.

Definition DeleteTmpFiles (paths : list bytes) (wd : World) : World := foldl remove_file wd paths.

(** Flushing the builder leaves its table at the last path. *)
Definition flush_builder (w : CompositedWriter) (wd : World) : option ((bool * SingleWriter) * World) :=
  '((ok, file), b) ← Single_Flush (builder w);
  p ← last (paths w);
  Some ((ok, b), set_file p file wd).

Definition Composited_Add (key value : bytes) (w : CompositedWriter) (wd : World) :
    option ((bool * CompositedWriter) * World) :=
  let n := Z.of_nat (length key + length value) in
  let '(ok, b) := Single_Add key value (builder w) in
  let w := mkComposited (cw_option w) (cw_path w) (total_byte w + n) (curr_byte w + n) (batch_write_size w) b
             (paths w) (cw_meta w) in
  if negb ok then Some ((false, w), DeleteTmpFiles (paths w) wd)
  else if batch_write_size w <=? curr_byte w then
    '((ok, b), wd) ← flush_builder w wd;
    if (ok : bool) then
      '((p, b), wd) ← GetNewWriter (cw_path w) wd;
      Some ((true, mkComposited (cw_option w) (cw_path w) (total_byte w) 0 (batch_write_size w) b
                     (paths w ++ [p]) (cw_meta w)), wd)
    else Some ((false, w), DeleteTmpFiles (paths w) wd)
  else Some ((true, w), wd).

Definition Composited_AddMetaData (key value : bytes) (w : CompositedWriter) : CompositedWriter :=
  mkComposited (cw_option w) (cw_path w) (total_byte w) (curr_byte w) (batch_write_size w) (builder w)
    (paths w) (map_assign key value (cw_meta w)).

(** [SSTableReader::Open]: a null pointer when there is no file. *)
Definition open_path (wd : World) (p : bytes) : option (option OnDisk) :=
  match files wd !! p with Some f => Open snap f | None => Some None end.

Fixpoint open_paths (wd : World) (ps : list bytes) : option (list (option OnDisk)) :=
  match ps with [] => Some [] | p :: ps => x ← open_path wd p; xs ← open_paths wd ps; Some (x :: xs) end.

(** [for (; iter->Valid(); iter->Next())], adding to the new table. *)
Fixpoint copy_loop (fuel : nat) (m : MergedIterator (@state C)) (u : UnsortedWriter) : option (bool * UnsortedWriter) :=
  if mg_valid m then
    match fuel with
    | O => None
    | S fuel =>
        let '(ok, u) := Unsorted_Add (mg_key m) (mg_value m) u in
        if ok then m ← merged_Next m; copy_loop fuel m u else Some (false, u)
    end
  else Some (true, u).

(** [curr_byte_ >= 0] always holds, since nothing is negative; the result of
    the last [builder.Flush()] is not looked at.  Policies and flags of the
    merged reader do not matter for tables without a set id. *)
Definition Composited_Flush (w : CompositedWriter) (wd : World) : option (bool * World) :=
  '(ok, wd) ← (if 0 <=? curr_byte w then '((ok, _), wd) ← flush_builder w wd; Some (ok, wd) else Some (true, wd));
  if negb ok then Some (false, DeleteTmpFiles (paths w) wd)
  else
    u ← new_UnsortedWriter snap (cw_option w);
    tables ← open_paths wd (paths w);
    '(opened, sstable) ← merged_Open (λ _, None) false true tables;
    if negb opened then Some (false, DeleteTmpFiles (paths w) wd)
    else
      iter ← merged_Seek [] (Merged.tables sstable);
      '(ok, u) ← copy_loop fuel iter u;
      if negb ok then Some (false, DeleteTmpFiles (paths w) wd)
      else
        let u := fold_left (λ u e, Unsorted_AddMetaData e.1 e.2 u) (cw_meta w) u in
        '((_, file), _) ← Unsorted_Flush u;
        Some (true, DeleteTmpFiles (paths w) (set_file (cw_path w) file wd)).

(** ** class ShardingSSTableWriter *)

Context (policies : Policies).

Record ShardingWriter := mkSharding {
  shard_num : Z;
  shard_id_text : bytes;               (* NumberToString(set_id_) *)
  shard_policy_name : bytes;
  shard_of : bytes → Z;
  builders : list CompositedWriter;
  sw_meta : list (bytes * bytes)
}.

(** [%05d] of a number that is not negative. *)
Definition pad5 (n : Z) : bytes := replicate (5 - length (decimal n)) 48 ++ decimal n.

(** [StringPrint("%s-%05d-of-%05d", path, shard_index, shard_num)] *)
Definition GetShardingPath (path : bytes) (shard_index num : Z) : bytes :=
  path ++ str "-" ++ pad5 shard_index ++ str "-of-" ++ pad5 num.

Fixpoint new_builders (n : nat) (i num : Z) (opt : WriteOption) (path : bytes) (wd : World) :
    option (list CompositedWriter * World) :=
  match n with
  | O => Some ([], wd)
  | S n =>
      '(b, wd) ← new_CompositedWriter opt (GetShardingPath path i num) default_batch wd;
      '(bs, wd) ← new_builders n (i + 1) num opt path wd;
      Some (b :: bs, wd)
  end.

(** An unknown policy fails a CHECK.  The text of the set id, a fingerprint of
    the path and the time, is given. *)
Definition new_ShardingWriter (num : Z) (opt : WriteOption) (policy path id : bytes) (wd : World) :
    option (ShardingWriter * World) :=
  shard ← policies policy;
  '(bs, wd) ← new_builders (Z.to_nat num) 0 num opt path wd;
  Some (mkSharding num id policy (shard num) bs [], wd).

Definition set_builder (i : nat) (b : CompositedWriter) (w : ShardingWriter) : ShardingWriter :=
  mkSharding (shard_num w) (shard_id_text w) (shard_policy_name w) (shard_of w) (<[i := b]> (builders w)) (sw_meta w).

(** [CHECK_GE(index, 0)]; an index too large is out of bounds. *)
Definition Sharding_Add (key value : bytes) (w : ShardingWriter) (wd : World) :
    option ((bool * ShardingWriter) * World) :=
  let index := shard_of w key in
  if index <? 0 then None
  else
    b ← builders w !! Z.to_nat index;
    '((ok, b), wd) ← Composited_Add key value b wd;
    Some ((ok, set_builder (Z.to_nat index) b w), wd).

Definition Sharding_AddMetaData (key value : bytes) (w : ShardingWriter) : ShardingWriter :=
  mkSharding (shard_num w) (shard_id_text w) (shard_policy_name w) (shard_of w) (builders w) (map_assign key value (sw_meta w)).

Definition add_metas (metas : list (bytes * bytes)) (b : CompositedWriter) : CompositedWriter :=
  fold_left (λ b e, Composited_AddMetaData e.1 e.2 b) metas b.

(** [SetMetaData] for builder [i]. *)
Definition SetMetaData (w : ShardingWriter) (i : nat) (b : CompositedWriter) : CompositedWriter :=
  add_metas (sw_meta w ++ shard_metas (shard_id_text w) (shard_policy_name w) (shard_num w) (Z.of_nat i)) b.

Fixpoint flush_builders (bs : list CompositedWriter) (result : bool) (wd : World) : option (bool * World) :=
  match bs with
  | [] => Some (result, wd)
  | b :: bs => '(ok, wd) ← Composited_Flush b wd; flush_builders bs (if (ok : bool) then result else false) wd
  end.

Definition Sharding_Flush (w : ShardingWriter) (wd : World) : option (bool * World) :=
  flush_builders (imap (SetMetaData w) (builders w)) true wd.

End Composited.

(** ** The meta data, with the last value kept *)

Lemma map_assign_sub {V} k (v : V) m : map_assign k v m ⊆+ (k, v) :: m.
Proof.
  induction m as [|[k' v'] m IH]; [done|]. cbn [map_assign]. destruct (str_lt k k') eqn:E1; [done|].
  destruct (str_lt k' k) eqn:E2.
  - etrans; [by apply submseteq_skip, IH|]. by rewrite Permutation_swap.
  - rewrite <- (str_lt_total k k' E1 E2). by apply submseteq_skip, submseteq_cons.
Qed.

Lemma map_assign_find {V} key k (v : V) m :
  map_find key (map_assign k v m) = if decide (key = k) then Some v else map_find key m.
Proof.
  induction m as [|[k' v'] m IH]; [done|]. cbn [map_assign]. destruct (str_lt k k') eqn:E1; [done|].
  destruct (str_lt k' k) eqn:E2; cbn [map_find].
  - rewrite IH. destruct (decide (key = k')) as [->|]; [|done]. destruct (decide (k' = k)) as [->|]; [|done].
    by rewrite str_lt_irrefl in E2.
  - rewrite <- (str_lt_total k k' E1 E2). by destruct (decide (key = k)).
Qed.

Definition assigned (meta : list entry) : list entry := fold_left (λ m e, map_assign e.1 e.2 m) meta [].

Lemma assigned_snoc meta e : assigned (meta ++ [e]) = map_assign e.1 e.2 (assigned meta).
Proof. unfold assigned. by rewrite fold_left_app. Qed.

Lemma assigned_sub meta : assigned meta ⊆+ meta.
Proof.
  induction meta as [|e meta IH] using rev_ind; [done|]. rewrite assigned_snoc.
  etrans; [apply map_assign_sub|]. rewrite <- surjective_pairing, Permutation_app_comm. by apply submseteq_skip.
Qed.

Lemma assigned_last key meta : first_value key (assigned meta) = first_value key (reverse meta).
Proof.
  induction meta as [|e meta IH] using rev_ind; [done|].
  rewrite assigned_snoc, reverse_app, first_value_find, map_assign_find, <- first_value_find, IH. cbn [reverse rev_append app].
  rewrite first_value_cons. destruct (decide (key = e.1)) as [->|]; [by rewrite decide_True|]. by rewrite decide_False.
Qed.

Lemma meta_ok_sub `{Machine} meta meta' : meta' ⊆+ meta → meta_ok meta → meta_ok meta'.
Proof.
  intros [rest Hp]%submseteq_Permutation. unfold meta_ok. rewrite !Hp, bind_app, length_app, !Forall_app.
  intros ([? _] & [? _] & ?). split_and!; [done|done|lia].
Qed.

(** ** The writer at work *)

Lemma number_read_back n : fits_in t_long n → StringToNumber t_long (NumberToString t_long n) = Some n.
Proof.
  intros Hn. assert (Ht : overloaded t_long) by by right. unfold NumberToString, IntegerToString.
  rewrite OutputIntegerAsString_eq by done. by apply StringToNumber_decimal.
Qed.

Definition byte_size (l : list entry) : Z := Z.of_nat (length (l ≫= fst)) + Z.of_nat (length (l ≫= snd)).

(** What is in the builder when the entries were added: a batch ends with the
    entry that takes it to the limit. *)
Fixpoint last_batch (limit : Z) (cur entries : list entry) : list entry :=
  match entries with
  | [] => cur
  | e :: entries =>
      let cur := cur ++ [e] in last_batch limit (if limit <=? byte_size cur then [] else cur) entries
  end.

Lemma byte_size_snoc l e : byte_size (l ++ [e]) = byte_size l + Z.of_nat (length e.1 + length e.2).
Proof. unfold byte_size. rewrite !bind_app, !length_app. cbn. rewrite !app_nil_r. lia. Qed.

Lemma byte_size_nonneg l : 0 <= byte_size l.
Proof. unfold byte_size. lia. Qed.

Section CompositedUse.
Context {M : Machine} {D : Disk} {C : Type} {BC : BlockCache C}.
Context (snap : option BlockCompression) (compress_type_flag tmp_dir_and_prefix : bytes).
Context (clock : nat → Z) (fuel : nat).

Fixpoint Composited_adds (entries : list entry) (w : CompositedWriter) (wd : World) :
    option ((bool * CompositedWriter) * World) :=
  match entries with
  | [] => Some ((true, w), wd)
  | e :: entries =>
      '((ok, w), wd) ← Composited_Add snap compress_type_flag tmp_dir_and_prefix clock e.1 e.2 w wd;
      if (ok : bool) then Composited_adds entries w wd else Some ((false, w), wd)
  end.

(** A writer is made, given entries and meta data and flushed. *)
Definition Composited_write (opt : WriteOption) (path : bytes) (total_in_memory : Z) (entries meta : list entry)
    (wd : World) : option (bool * World) :=
  '(w, wd) ← new_CompositedWriter snap compress_type_flag tmp_dir_and_prefix clock opt path total_in_memory wd;
  '((ok, w), wd) ← Composited_adds entries w wd;
  let w := add_metas meta w in
  if (ok : bool) then Composited_Flush (C := C) snap fuel w wd else Some (false, wd).

End CompositedUse.

Section CompositedFacts.
Context {M : Machine} `{ReliableDisk} {C : Type} {BC : BlockCache C}.
Context (snap : option BlockCompression) (Hsnap : good_compression snap).
Context (compress_type_flag tmp_dir_and_prefix : bytes) (clock : nat → Z) (fuel : nat).
#[local] Hint Extern 0 (TableReader OnDisk _) => exact (tmp_table fuel) : typeclass_instances.
#[local] Instance copy_spec : TableSpec OnDisk (@state C) := on_disk_spec fuel snap.
Context (opt : WriteOption) (path : bytes) (limit : Z) (last_reading : nat).

Definition temp (i : nat) : bytes :=
  tmp_dir_and_prefix ++ JoinStrings (cut (str "/") path) (str "_") ++ NumberToString t_long (clock i).

(** No two of the first [last_reading] readings of the clock are the same,
    and the path is not that of a temporary table. *)
Context (Hclock : ∀ i j, (i < last_reading)%nat → (j < last_reading)%nat → clock i = clock j → i = j).
Context (Hfits : ∀ i, (i < last_reading)%nat → fits_in t_long (clock i)).
Context (Hpath : ∀ i, (i < last_reading)%nat → temp i ≠ path).

Lemma tmp_path_temp i : tmp_path tmp_dir_and_prefix clock path i = Some (temp i).
Proof. unfold tmp_path. by rewrite ReplaceAll_eq. Qed.

Lemma temp_inj i j : (i < last_reading)%nat → (j < last_reading)%nat → temp i = temp j → i = j.
Proof.
  intros Hi Hj E. apply Hclock; [done..|]. unfold temp in E. apply (inj _), (inj _) in E.
  apply (f_equal (StringToNumber t_long)) in E. rewrite !number_read_back in E by auto. by injection E.
Qed.

(** The option of a temporary table is acceptable. *)
Lemma tmp_acceptable l : fits l → l ≠ [] → acceptable (tmp_option compress_type_flag) l [].
Proof.
  intros Hl Hne. split; [|by vm_compute|done|done|by repeat constructor].
  unfold tmp_option, tmp_compress_type, known_codec. cbn. repeat case_bool_decide; auto.
Qed.

Definition new_block (block : DataBlock) : Prop :=
  new_DataBlock snap (option_compress_type (tmp_option compress_type_flag)) = Some block.
Definition fresh_builder (block : DataBlock) (cur : list entry) : SingleWriter :=
  mkSingle (tmp_option compress_type_flag) cur [] block false.

Lemma tmp_codec : ∃ block, new_block block.
Proof.
  destruct (codec_block snap Hsnap (option_compress_type (tmp_option compress_type_flag))) as (c & E & _); [|by eexists].
  unfold tmp_option, tmp_compress_type, known_codec. cbn. repeat case_bool_decide; auto.
Qed.

Lemma fresh_flush block l : new_block block →
  fst <$> Single_Flush (fresh_builder block l) = Single_write snap (tmp_option compress_type_flag) l [].
Proof.
  intros E. unfold Single_write, new_SingleWriter. rewrite E. cbn [mbind option_bind]. by rewrite Single_adds.
Qed.

(** The file of a batch. *)
Definition batch_file (l : list entry) (f : bytes) : Prop :=
  Single_write snap (tmp_option compress_type_flag) l [] = Some (true, Some f).

Lemma flush_batch block l : new_block block → fits l → l ≠ [] →
  ∃ f b, Single_Flush (fresh_builder block l) = Some ((true, Some f), b) ∧ batch_file l f.
Proof.
  intros Hb Hl Hne. destruct (Single_write_ok snap Hsnap _ l [] (tmp_acceptable l Hl Hne)) as (c & chunks & fi & tr & f & E & _).
  pose proof (fresh_flush block l Hb) as Ef. rewrite E in Ef.
  destruct (Single_Flush _) as [[[ok file] b]|]; [|done]. injection Ef as -> ->. by exists f, b.
Qed.

(** The writer after the batches were written and [cur] was added since;
    [wd0] is the world before it was made. *)
Record composited_ok (wd0 : World) (meta : list entry) (w : CompositedWriter) (wd : World) (batches : list (list entry)) (cur : list entry) : Prop := {
  co_option : cw_option w = opt;
  co_path : cw_path w = path;
  co_limit : batch_write_size w = limit;
  co_meta : cw_meta w = meta;
  co_curr : curr_byte w = byte_size cur;
  co_builder : ∃ block, new_block block ∧ builder w = fresh_builder block cur;
  co_paths : paths w = temp <$> seq (readings wd0) (S (length batches));
  co_readings : readings wd = (readings wd0 + S (length batches))%nat;
  co_enough : (readings wd <= last_reading)%nat;
  co_batches : Forall (.≠ []) batches;
  co_files : ∀ i l, batches !! i = Some l → ∃ f, files wd !! temp (readings wd0 + i) = Some f ∧ batch_file l f;
  co_others : ∀ p, (∀ i, (i < last_reading)%nat → temp i ≠ p) → files wd !! p = files wd0 !! p
}.

Lemma temps_apart wd0 k i : (i < k)%nat → (readings wd0 + S k <= last_reading)%nat →
  temp (readings wd0 + i) ≠ temp (readings wd0 + k).
Proof. intros Hi Hk E. apply temp_inj in E; lia. Qed.

(** Adding keeps it so. *)
Lemma Composited_Add_ok wd0 meta w wd batches cur e : composited_ok wd0 meta w wd batches cur → fits (cur ++ [e]) →
  (readings wd < last_reading)%nat →
  ∃ w' wd' batches' cur', Composited_Add snap compress_type_flag tmp_dir_and_prefix clock e.1 e.2 w wd = Some ((true, w'), wd') ∧
    composited_ok wd0 meta w' wd' batches' cur' ∧ (readings wd' <= S (readings wd))%nat ∧
    concat batches' ++ cur' = concat batches ++ cur ++ [e] ∧
    cur' = (if limit <=? byte_size (cur ++ [e]) then [] else cur ++ [e]).
Proof.
  intros [Ho Hp Hl Hm Hc (block & Hblock & Hb) Hps Hr He Hbs Hf Hot] Hfit Hlt.
  unfold Composited_Add. cbn zeta. rewrite Hb. cbn [Single_Add fresh_builder s_option d_data s_meta s_block flushed negb].
  cbn [cw_option cw_path total_byte curr_byte batch_write_size builder paths cw_meta].
  rewrite Hc, Hl, Hm, Ho, Hp, <- byte_size_snoc. rewrite <- surjective_pairing. change (mkSingle _ (cur ++ [e]) _ _ _) with (fresh_builder block (cur ++ [e])).
  destruct (limit <=? byte_size (cur ++ [e])) eqn:Ecut.
  - unfold flush_builder. cbn [builder paths]. destruct (flush_batch block _ Hblock Hfit) as (f & b & -> & Hbf); [by destruct cur|].
    cbn [mbind option_bind]. rewrite Hps, seq_S, fmap_app, last_app. cbn [fmap list_fmap last mbind option_bind set_file files readings].
    unfold GetNewWriter. rewrite tmp_path_temp. unfold new_SingleWriter. cbn [mbind option_bind readings]. rewrite Hblock. cbn [mbind option_bind].
    eexists _, _, (batches ++ [cur ++ [e]]), []. split; [reflexivity|]. split; [|split; [done|]]; [|split; [|done]].
    + split; cbn [cw_option cw_path batch_write_size cw_meta curr_byte builder paths readings files]; try done.
      * by exists block.
      * rewrite length_app, seq_S, fmap_app. cbn [length]. rewrite Nat.add_1_r, Hr, seq_S, fmap_app. done.
      * rewrite length_app, Hr. cbn [length]. lia.
      * apply Forall_app. split; [done|]. constructor; [by destruct cur|done].
      * intros i l [Hi|[Hi Hli]]%lookup_app_Some.
        -- destruct (Hf i l Hi) as (f' & Hf' & ?). exists f'. split; [|done]. apply lookup_lt_Some in Hi.
           rewrite lookup_insert_ne; [done|]. apply not_eq_sym, temps_apart; lia.
        -- destruct (i - length batches)%nat eqn:Ei; [|done]. injection Hli as <-.
           replace i with (length batches) by lia. exists f. by rewrite lookup_insert_eq.
      * intros p Hpn. rewrite lookup_insert_ne; [by apply Hot|]. apply Hpn. lia.
    + by rewrite concat_app, app_nil_r; cbn; rewrite app_nil_r.
  - eexists _, _, batches, (cur ++ [e]). split; [reflexivity|]. split; [|split; [lia|done]].
    split; cbn [cw_option cw_path batch_write_size cw_meta curr_byte builder paths readings files]; try done. by exists block.
Qed.

Lemma Composited_adds_ok wd0 meta entries : ∀ w wd batches cur, composited_ok wd0 meta w wd batches cur →
  fits (concat batches ++ cur ++ entries) → (readings wd + length entries <= last_reading)%nat →
  ∃ w' wd' batches', Composited_adds snap compress_type_flag tmp_dir_and_prefix clock entries w wd = Some ((true, w'), wd') ∧
    composited_ok wd0 meta w' wd' batches' (last_batch limit cur entries) ∧
    concat batches' ++ last_batch limit cur entries = concat batches ++ cur ++ entries.
Proof.
  induction entries as [|e entries IH]; intros w wd batches cur Hw Hfit Hlt; cbn [Composited_adds last_batch].
  { exists w, wd, batches. rewrite app_nil_r in *. done. }
  rewrite cons_middle, !(assoc_L (++)) in Hfit. apply fits_app in Hfit as Hfit1.
  destruct Hfit1 as [Hfit1 _]. rewrite <- (assoc_L (++)) in Hfit1. apply fits_app in Hfit1 as [_ Hfit1]. cbn [length] in Hlt.
  destruct (Composited_Add_ok wd0 meta w wd batches cur e Hw Hfit1) as (w1 & wd1 & batches1 & cur1 & -> & Hw1 & Hr1 & Ec & Hcur); [lia|].
  cbn [mbind option_bind]. rewrite <- Hcur.
  assert (Eall : concat batches1 ++ cur1 ++ entries = concat batches ++ cur ++ e :: entries).
  { rewrite (assoc_L (++)), Ec, <- !(assoc_L (++)). done. }
  destruct (IH w1 wd1 batches1 cur1 Hw1) as (w2 & wd2 & batches2 & -> & Hw2 & E2); [|lia|].
  { rewrite Eall. by rewrite cons_middle, !(assoc_L (++)). }
  exists w2, wd2, batches2. split; [done|]. split; [done|]. by rewrite E2.
Qed.

Lemma DeleteTmpFiles_files ps wd p :
  files (DeleteTmpFiles ps wd) !! p = if decide (p ∈ ps) then None else files wd !! p.
Proof.
  unfold DeleteTmpFiles. revert wd. induction ps as [|q ps IH]; intros wd; cbn [foldl]; [done|].
  rewrite IH. cbn [remove_file files]. destruct (decide (p ∈ ps)); [by rewrite decide_True by (by right)|].
  destruct (decide (p = q)) as [->|].
  - by rewrite lookup_delete_eq, decide_True by left.
  - rewrite lookup_delete_ne, decide_False by (done || set_solver). done.
Qed.

Lemma DeleteTmpFiles_readings ps wd : readings (DeleteTmpFiles ps wd) = readings wd.
Proof. unfold DeleteTmpFiles. revert wd. induction ps as [|p ps IH]; intros wd; [done|]. cbn [foldl]. by rewrite IH. Qed.

Lemma add_metas_eq meta w : add_metas meta w =
  mkComposited (cw_option w) (cw_path w) (total_byte w) (curr_byte w) (batch_write_size w) (builder w) (paths w)
    (fold_left (λ m e, map_assign e.1 e.2 m) meta (cw_meta w)).
Proof.
  revert w. induction meta as [|e meta IH]; intros w; [by destruct w|]. unfold add_metas in *. cbn [fold_left]. by rewrite IH.
Qed.

(** Opening the temporary tables. *)
Lemma open_temps wd ls : ∀ r, (∀ i l, ls !! i = Some l → ∃ f, files wd !! temp (r + i) = Some f ∧ batch_file l f) →
  Forall (λ l, fits l ∧ l ≠ [] ∧ (length l < fuel)%nat) ls →
  ∃ ts, open_paths snap wd (temp <$> seq r (length ls)) = Some (Some <$> ts) ∧
    Forall2 (λ t l, holds t (stable_sort l) []) ts ls.
Proof.
  induction ls as [|l ls IH]; intros r Hf Hls; [by exists []; split; [done|constructor]|].
  apply Forall_cons in Hls as [(Hfit & Hne & Hfu) Hls]. cbn [seq length fmap list_fmap open_paths].
  destruct (Hf 0%nat l eq_refl) as (f & Ef & Hbf). rewrite Nat.add_0_r in Ef. unfold open_path. rewrite Ef.
  destruct (Single_write_holds snap Hsnap fuel _ l [] (tmp_acceptable l Hfit Hne) Hfu) as (f' & t & E & Et & Hh).
  unfold batch_file in Hbf. rewrite E in Hbf. injection Hbf as ->. rewrite Et. cbn [mbind option_bind].
  destruct (IH (S r)) as (ts & E1 & Hts); [|done|].
  { intros i l' Hi. destruct (Hf (S i) l' Hi) as (f2 & Ef2 & Hb2). exists f2. by rewrite Nat.add_succ_r in Ef2. }
  setoid_rewrite E1. exists (t :: ts). split; [done|]. by constructor.
Qed.

(** Copying what an iterator shows to the new table. *)
Lemma copy_loop_ok c meta l : good_compression c → 0 < block_size opt < 2 ^ 63 → ∀ m n u k chunks cur,
  iterates (T := MergedReader OnDisk) m l → (length l <= n)%nat → unsorted_ok c opt u meta k chunks cur → fits (k ++ l) →
  ∃ u' chunks' cur', copy_loop fuel n m u = Some (true, u') ∧ unsorted_ok c opt u' meta (k ++ l) chunks' cur'.
Proof.
  intros Hc Hbs m n u k chunks cur Hit. revert n u k chunks cur.
  induction Hit as [m Hv|m m' l Hv Enext Hit IH]; intros n u k chunks cur Hn Hu Hfit.
  { exists u, chunks, cur. rewrite app_nil_r. destruct n; cbn [copy_loop]; cbn in Hv; by rewrite Hv. }
  destruct n as [|n]; [cbn in Hn; lia|]. cbn [copy_loop]. cbn in Hv, Enext. rewrite Hv.
  rewrite cons_middle, (assoc_L (++)) in Hfit |- *. apply fits_app in Hfit as Hfit1. destruct Hfit1 as [Hfit1 _].
  destruct (Unsorted_Add_spec c Hc opt Hbs u meta k chunks cur (mg_key m, mg_value m) Hu Hfit1)
    as (u1 & chunks1 & cur1 & E & Hu1). cbn [fst snd] in E. rewrite E.
  rewrite Enext. cbn [mbind option_bind]. apply (IH n u1 _ chunks1 cur1); [cbn in Hn; lia|done|done].
Qed.

(** Merging the temporary tables into a new one. *)
Lemma merge_ok wd r ls meta :
  (∀ i l, ls !! i = Some l → ∃ f, files wd !! temp (r + i) = Some f ∧ batch_file l f) →
  Forall (.≠ []) ls → ls ≠ [] → fits (concat ls) → (length (concat ls) < fuel)%nat →
  known_codec (option_compress_type opt) → 0 < block_size opt < 2 ^ 63 → meta_ok (meta_map meta) →
  ∃ u ts sstable iter u' f u'' t l, new_UnsortedWriter snap opt = Some u ∧
    open_paths snap wd (temp <$> seq r (length ls)) = Some ts ∧
    merged_Open (λ _, None) false true ts = Some (true, sstable) ∧
    merged_Seek [] (Merged.tables sstable) = Some iter ∧ copy_loop fuel fuel iter u = Some (true, u') ∧
    Unsorted_Flush (fold_left (λ u e, Unsorted_AddMetaData e.1 e.2 u) meta u') = Some ((true, Some f), u'') ∧
    Open snap f = Some (Some t) ∧ l ≡ₚ concat ls ∧ holds t l (meta_map meta).
Proof.
  intros Hf Hne Hls Hfit Hfu Hct Hbsz Hmeta. destruct (codec_block snap Hsnap _ Hct) as (c & Eb & Hc & Hr).
  assert (Hall : Forall (λ l, fits l ∧ l ≠ [] ∧ (length l < fuel)%nat) ls).
  { clear - Hne Hfit Hfu. induction Hne as [|l ls Hl Hls IH]; [done|]. cbn in Hfit, Hfu. rewrite length_app in Hfu.
    apply fits_app in Hfit as [? ?]. constructor; [split_and!; [done|done|lia]|]. apply IH; [done|lia]. }
  destruct (open_temps wd ls r Hf Hall) as (ts & Eo & Hts).
  destruct (merged_open_plain (λ _, None) true ts) with (r := merged_Reset (T := OnDisk (C := C))) as (sstable & Em & Et); [|by left| |].
  { apply Forall_forall. intros t [i Hi]%list_elem_of_lookup. destruct (Forall2_lookup_l _ _ _ _ _ Hts Hi) as (l & _ & Hh).
    by exists (stable_sort l), []. }
  { intros Hnil. cbn in Hnil. rewrite Hnil in Hts. by apply Forall2_nil_inv_l in Hts. }
  cbn [merged_Reset Merged.tables app] in Et.
  destruct (merged_seek_shows ts (stable_sort <$> ls) []) as (iter & l & Es & Hit & Hsl & _ & Hl).
  { rewrite Forall2_fmap_r. eapply Forall2_impl; [exact Hts|]. by eexists. }
  specialize (Hl eq_refl). assert (Hp : l ≡ₚ concat ls).
  { rewrite Hl. clear. induction ls as [|l ls IH]; [done|]. cbn. by rewrite stable_sort_perm, IH. }
  apply (fits_perm _ l) in Hfit as Hfl; [|done]. rewrite <- Hp in Hfu.
  unfold new_UnsortedWriter. rewrite Eb, opens. cbn [mbind option_bind].
  destruct (copy_loop_ok c [] l Hc Hbsz iter fuel (mkUnsorted opt false true [] true (new_table (mkDataBlock c [] [] 0))) [] [] [])
    as (u1 & chunks1 & cur1 & Ec & Hu1); [done|lia| |done|].
  { by split. }
  apply (Unsorted_metas c opt meta) in Hu1.
  assert (Hlne : l ≠ []).
  { intros ->. apply Permutation_nil_l in Hp. destruct ls as [|l0 ls]; [done|]. apply Forall_cons in Hne as [? _]. by destruct l0. }
  destruct (Unsorted_Flush_spec c Hc opt Hbsz Hr _ _ _ _ _ Hu1) as (u2 & chunks & fi & tr & f & Ef & Htf & _); [done|done|exact Hmeta|].
  destruct (Open_ok c Hc _ _ _ _ _ _ f Htf snap) as (t & Eopen & Ht).
  eexists _, _, sstable, iter, u1, f, u2, t, l. split_and!; [done|exact Eo|exact Em|by rewrite Et|exact Ec|exact Ef|done|done|].
  exists c, (option_compress_type opt), chunks, fi, tr, f. by split_and!.
Qed.

(** Flushing a writer.  Without entries in the builder it fails; otherwise the
    table at the path has all the entries. *)
Lemma Composited_Flush_ok wd0 meta w wd batches cur : composited_ok wd0 meta w wd batches cur →
  known_codec (option_compress_type opt) → 0 < block_size opt < 2 ^ 63 → meta_ok (meta_map meta) →
  fits (concat batches ++ cur) → (length (concat batches ++ cur) < fuel)%nat →
  ∃ wd1, Composited_Flush (C := C) snap fuel w wd = Some (negb (bool_decide (cur = [])), DeleteTmpFiles (paths w) wd1) ∧
    (∀ p, p ≠ path → (∀ i, (i < last_reading)%nat → temp i ≠ p) → files wd1 !! p = files wd0 !! p) ∧
    readings wd1 = readings wd ∧
    if bool_decide (cur = []) then files wd1 !! path = files wd0 !! path
    else ∃ f r l, files wd1 !! path = Some f ∧ Open snap f = Some (Some r) ∧
      l ≡ₚ concat batches ++ cur ∧ holds r l (meta_map meta).
Proof.
  intros [Ho Hp' Hl Hm Hc (block & Hblock & Hb) Hps Hr He Hbs Hf Hot] Hct Hbsz Hmeta Hfit Hfu.
  unfold Composited_Flush. rewrite Hc. destruct (Z.leb_spec 0 (byte_size cur)); [|pose proof (byte_size_nonneg cur); lia].
  unfold flush_builder. rewrite Hb.
  assert (Elast : last (paths w) = Some (temp (readings wd0 + length batches))) by (rewrite Hps, seq_S, fmap_app, last_app; done).
  case_bool_decide as Ecur.
  - subst cur. cbn. rewrite Elast. cbn. exists wd. split_and!; try done; auto.
  - assert (Eall : concat (batches ++ [cur]) = concat batches ++ cur) by (rewrite concat_app; cbn; by rewrite app_nil_r).
    rewrite <- Eall in *. assert (Hfc : fits cur) by (rewrite Eall in Hfit; by apply fits_app in Hfit as [_ ?]).
    destruct (flush_batch block cur Hblock Hfc Ecur) as (f0 & b & -> & Hbf). cbn [mbind option_bind]. rewrite Elast.
    cbn [mbind option_bind set_file negb]. set (wd1 := mkWorld _ _).
    destruct (merge_ok wd1 (readings wd0) (batches ++ [cur]) meta)
      as (u & ts & sstable & iter & u' & f & u'' & t & l & Eu & Eo & Em & Es & Ec & Ef & Eopen & Hp & Hh); try done.
    { intros i l [Hi|[Hi Hli]]%lookup_app_Some.
      - destruct (Hf i l Hi) as (f' & Hf' & ?). exists f'. split; [|done]. apply lookup_lt_Some in Hi.
        cbn. rewrite lookup_insert_ne; [done|]. apply not_eq_sym, temps_apart; lia.
      - destruct (i - length batches)%nat eqn:Ei; [|done]. injection Hli as <-.
        replace i with (length batches) by lia. exists f0. split; [|done]. cbn. by rewrite lookup_insert_eq. }
    { apply Forall_app. by split; [|constructor]. }
    { by destruct batches. }
    rewrite length_app, Nat.add_1_r, <- Hps in Eo. rewrite Ho, Eu. cbn [mbind option_bind]. rewrite Eo. cbn [mbind option_bind].
    rewrite Em. cbn [mbind option_bind negb]. rewrite Es. cbn [mbind option_bind]. rewrite Ec. cbn [mbind option_bind negb].
    rewrite Hm, Ef, Hp'. cbn [mbind option_bind set_file wd1 files readings].
    eexists. split; [done|]. split_and!; [|done|].
    + intros p Hpp Hpt. cbn. rewrite !lookup_insert_ne; [by apply Hot|apply Hpt; lia|done].
    + exists f, t, l. cbn. by rewrite lookup_insert_eq.
Qed.

Lemma holds_scan r l meta : holds r l meta → ∃ st, Seek fuel [] r = Some st ∧ collect fuel st = Some l.
Proof.
  intros (c & ct & chunks & fi & tr & f & Hc & Hf & Hb & Hs & Hfu & Hne & Hr).
  destruct (Seek_sorted c Hc _ _ _ _ _ _ f Hf snap Hb r [] fuel Hs Hr Hfu) as (it & r2 & Es & Hsh & _).
  exists (it, r2). split; [done|]. rewrite from_key_nil in Hsh. eapply collect_ok; [done..|lia].
Qed.

Lemma new_CompositedWriter_ok wd : (readings wd < last_reading)%nat →
  ∃ w wd1, new_CompositedWriter snap compress_type_flag tmp_dir_and_prefix clock opt path limit wd = Some (w, wd1) ∧
    composited_ok wd [] w wd1 [] [] ∧ readings wd1 = S (readings wd).
Proof.
  intros Hlt. destruct tmp_codec as (block & Hb). unfold new_CompositedWriter, GetNewWriter. rewrite tmp_path_temp.
  cbn [mbind option_bind]. unfold new_SingleWriter. rewrite Hb. cbn [mbind option_bind].
  eexists _, _. split; [done|]. split; [|done].
  split; cbn; try done; try lia. by exists block.
Qed.

(** The composited writer from end to end.  Entries are written in
    batches to temporary tables, which are merged into the table at the path.
    Nothing aborts; Flush reports success exactly when the builder holds an
    entry, that is when the last entry did not complete a batch; the temporary
    files of this writer are gone, and no other file is touched.  On success
    the file at the path opens, and a scan shows all the entries added, in key
    order, with the meta data set last for each key; on failure it is as it
    was before. *)
Theorem composited_write entries meta wd : acceptable opt entries meta → (length entries < fuel)%nat →
  (readings wd + 1 + length entries <= last_reading)%nat →
  ∃ wd', Composited_write (C := C) snap compress_type_flag tmp_dir_and_prefix clock fuel opt path limit entries meta wd =
      Some (negb (bool_decide (last_batch limit [] entries = [])), wd') ∧
    (∀ i, (readings wd <= i < readings wd')%nat → files wd' !! temp i = None) ∧
    (∀ p, p ≠ path → (∀ i, (i < last_reading)%nat → temp i ≠ p) → files wd' !! p = files wd !! p) ∧
    if bool_decide (last_batch limit [] entries = []) then files wd' !! path = files wd !! path
    else ∃ f r l, files wd' !! path = Some f ∧ Open snap f = Some (Some r) ∧ l ≡ₚ entries ∧ StronglySorted key_le l ∧
      (∃ st, Seek fuel [] r = Some st ∧ collect fuel st = Some l) ∧
      ∀ key, Impl_GetMetaData key (impl r) = default [] (first_value key (reverse meta)).
Proof.
  intros Ha Hfu Hlt. destruct (new_CompositedWriter_ok wd) as (w & wd1 & E & Hw & Hr1); [lia|].
  destruct (Composited_adds_ok wd [] entries w wd1 [] [] Hw) as (w2 & wd2 & batches & E2 & Hw2 & Eb); [apply Ha|lia|].
  set (rest := last_batch limit [] entries) in *. cbn [concat app] in Eb.
  assert (Hw3 : composited_ok wd (assigned meta) (add_metas meta w2) wd2 batches rest).
  { rewrite add_metas_eq, (co_meta _ _ _ _ _ _ Hw2). by destruct Hw2. }
  destruct (Composited_Flush_ok wd (assigned meta) _ wd2 batches rest Hw3) as (wd3 & E3 & Hother & Hr3 & Hres).
  1-5: rewrite ?Eb; try apply Ha; try done.
  { apply meta_map_ok, (meta_ok_sub meta); [apply assigned_sub|apply Ha]. }
  unfold Composited_write. rewrite E. cbn [mbind option_bind]. rewrite E2. cbn [mbind option_bind]. rewrite E3.
  eexists. split; [done|]. rewrite (co_paths _ _ _ _ _ _ Hw3).
  pose proof (co_readings _ _ _ _ _ _ Hw3) as Hr. pose proof (co_enough _ _ _ _ _ _ Hw3) as He.
  assert (Hnot : ∀ p, (∀ i, (i < last_reading)%nat → temp i ≠ p) → p ∉ temp <$> seq (readings wd) (S (length batches))).
  { intros p Hp (i & -> & Hi%elem_of_seq)%list_elem_of_fmap. apply (Hp i); [lia|done]. }
  split_and!.
  - intros i Hi. rewrite DeleteTmpFiles_readings, Hr3 in Hi. rewrite DeleteTmpFiles_files, decide_True; [done|].
    apply list_elem_of_fmap_2, elem_of_seq. lia.
  - intros p Hp Ht. rewrite DeleteTmpFiles_files, decide_False by auto. by apply Hother.
  - rewrite DeleteTmpFiles_files, decide_False by auto. case_bool_decide; [done|].
    destruct Hres as (f & r & l & Ef & Eopen & Hl & Hh). exists f, r, l. rewrite Eb in Hl.
    split_and!; [done|done|done|by apply (holds_sorted r l _ Hh)|by eapply holds_scan|].
    intros key. etrans; [apply (holds_metadata r l _ key Hh)|]. by rewrite FindValue_first, meta_map_first, assigned_last.
Qed.

End CompositedFacts.

(** ** A concrete writer *)

#[local] Existing Instance demo_machine.
#[local] Existing Instance good_disk.
#[local] Existing Instance good_disk_reliable.
#[local] Existing Instance one_block.

Definition demo_world : World := mkWorld ∅ 0.
Definition demo_clock (n : nat) : Z := 1000 + Z.of_nat n.

(** Two batches, the second still in the builder; with a smaller limit the
    last entry completes a batch and the flush fails. *)
Example composited_write_witness :
  (∃ wd' f r st, Composited_write (C := LruCache Z DataBlock) demo_snappy (str "snappy") (str "/tmp/t") demo_clock 9
      demo_option (str "x") 5 demo_entries demo_meta demo_world = Some (true, wd') ∧
    files wd' !! str "x" = Some f ∧ Open demo_snappy f = Some (Some r) ∧ Seek 9 [] r = Some st ∧
    (∃ l, collect 9 st = Some l ∧ l ≡ₚ demo_entries) ∧ Impl_GetMetaData (str "owner") (impl r) = str "you") ∧
  ∃ wd', Composited_write (C := LruCache Z DataBlock) demo_snappy (str "snappy") (str "/tmp/t") demo_clock 9
      demo_option (str "x") 4 demo_entries demo_meta demo_world = Some (false, wd') ∧ files wd' !! str "x" = None.
Proof.
  assert (Hc : ∀ i j, (i < 20)%nat → (j < 20)%nat → demo_clock i = demo_clock j → i = j) by (unfold demo_clock; lia).
  assert (Hf : ∀ i, (i < 20)%nat → fits_in t_long (demo_clock i)).
  { unfold demo_clock, fits_in, min_value, max_value. cbn. lia. }
  assert (Hp : ∀ i, (i < 20)%nat → temp (str "/tmp/t") demo_clock (str "x") i ≠ str "x").
  { intros i _ E. apply (f_equal head) in E. discriminate E. }
  split.
  - destruct (composited_write (C := LruCache Z DataBlock) demo_snappy demo_snappy_good (str "snappy") (str "/tmp/t") demo_clock 9
      demo_option (str "x") 5 20 Hc Hf Hp demo_entries demo_meta demo_world demo_acceptable) as (wd' & E & _ & _ & Hres); [cbn; lia..|].
    assert (Eb : bool_decide (last_batch 5 [] demo_entries = []) = false) by reflexivity. rewrite Eb in E, Hres.
    destruct Hres as (f & r & l & Ef & Er & Hl & _ & (st & Es & Ec) & Hm). exists wd', f, r, st.
    split; [exact E|]. split; [exact Ef|]. split; [exact Er|]. split; [exact Es|]. split; [exists l; split; [exact Ec|exact Hl]|]. apply (Hm (str "owner")).
  - destruct (composited_write (C := LruCache Z DataBlock) demo_snappy demo_snappy_good (str "snappy") (str "/tmp/t") demo_clock 9
      demo_option (str "x") 4 20 Hc Hf Hp demo_entries demo_meta demo_world demo_acceptable) as (wd' & E & _ & _ & Hres); [cbn; lia..|].
    exists wd'. split; [exact E|]. apply Hres.
Defined.
