(* ===== verification/Bitmap.v ===== *)
(** * Bitmaps of 64-bit words

    Model of container/bitmap.h and bitmap.cpp: the shared implementation
    [BitmapBase] over an array of words, the interface [BasicBitmap] and the
    classes [BasicDynamicBitmap] and [FixedBitmap].  Words are 64 bits
    ([size_t]).  [None] is a failed assertion, an access outside the array, a
    shift by 64 or more, or an exception.

    The theorems read a bitmap as a number whose binary digits are its bits. *)

From S2P Require Import Prelude.

(** ** class BitmapBase *)

Abbreviation words := (list Z).

Definition kBitsPerWord : Z := 64.
Definition kAllSetMask : Z := 2 ^ 64 - 1.

Definition WordSizeOfBits (num_bits : Z) : Z := u64 (num_bits + kBitsPerWord - 1) / kBitsPerWord.
Definition WordIndexOfBit (index : Z) : Z := index / kBitsPerWord.
Definition ShiftOfBit (index : Z) : Z := index mod kBitsPerWord.
Definition MaskOfBit (index : Z) : Z := u64 (Z.shiftl 1 (ShiftOfBit index)).

(** [~w], [words[n]] and [words[n] = x] *)
Definition not64 (w : Z) : Z := u64 (Z.lnot w).
Definition load (n : Z) (ws : words) : option Z := ws !! Z.to_nat n.
Definition store (n x : Z) (ws : words) : option words :=
  if (Z.to_nat n <? length ws)%nat then Some (<[Z.to_nat n := x]> ws) else None.
Definition modify (n : Z) (f : Z → Z) (ws : words) : option words := w ← load n ws; store n (f w) ws.

Definition MaskOffTailBits (size : Z) (ws : words) : option words :=
  let tail_bits := size mod kBitsPerWord in
  if 0 <? tail_bits
  then modify (WordIndexOfBit size) (λ w, Z.land w (not64 (u64 (Z.shiftl kAllSetMask tail_bits)))) ws
  else Some ws.

Definition DoGetAt (index : Z) (ws : words) : option bool :=
  w ← load (WordIndexOfBit index) ws; Some (negb (Z.land w (MaskOfBit index) =? 0)).
Definition DoSetAt (index : Z) (ws : words) : option words :=
  modify (WordIndexOfBit index) (λ w, Z.lor w (MaskOfBit index)) ws.
Definition DoClearAt (index : Z) (ws : words) : option words :=
  modify (WordIndexOfBit index) (λ w, Z.land w (not64 (MaskOfBit index))) ws.
Definition DoSetAt_value (index : Z) (value : bool) (ws : words) : option words :=
  if value then DoSetAt index ws else DoClearAt index ws.

(** [memset] and [std::fill] of [n] words from [i] on. *)
Fixpoint fill (n : nat) (i x : Z) (ws : words) : option words :=
  match n with O => Some ws | S n => ws ← store i x ws; fill n (i + 1) x ws end.

Definition DoSetAll (size : Z) (ws : words) : option words :=
  ws ← fill (Z.to_nat (WordSizeOfBits size)) 0 kAllSetMask ws; MaskOffTailBits size ws.

(** The loops over [count] words that stop with false at the first one that
    fails the test; [None] is a word outside the array. *)
Fixpoint all_words (count : nat) (i : Z) (test : Z → option bool) : option bool :=
  match count with
  | O => Some true
  | S count => ok ← test i; if (ok : bool) then all_words count (i + 1) test else Some false
  end.

Definition DoAllAreSet (num_bits : Z) (ws : words) : option bool :=
  let last_word_index := num_bits / kBitsPerWord in
  let tail_bits := num_bits mod kBitsPerWord in
  ok ← all_words (Z.to_nat last_word_index) 0 (λ i, w ← load i ws; Some (w =? kAllSetMask));
  if negb ok then Some false
  else if 0 <? tail_bits then
    tail_word ← load last_word_index ws;
    let mask := Z.shiftl 1 tail_bits - 1 in
    Some (Z.land tail_word mask =? mask)
  else Some true.

Definition DoAllAreClear (num_bits : Z) (ws : words) : option bool :=
  let last_word_index := num_bits / kBitsPerWord in
  let tail_bits := num_bits mod kBitsPerWord in
  ok ← all_words (Z.to_nat last_word_index) 0 (λ i, w ← load i ws; Some (w =? 0));
  if negb ok then Some false
  else if 0 <? tail_bits then
    tail_word ← load last_word_index ws;
    Some (u64 (Z.shiftl (Z.shiftr tail_word tail_bits) tail_bits) =? tail_word)
  else Some true.

Definition DoIsSubsetOf (num_bits : Z) (ws fullset : words) : option bool :=
  let last_word_index := num_bits / kBitsPerWord in
  let tail_bits := num_bits mod kBitsPerWord in
  ok ← all_words (Z.to_nat last_word_index) 0 (λ i, w ← load i ws; f ← load i fullset; Some (Z.lor w f =? f));
  if negb ok then Some false
  else if 0 <? tail_bits then
    let mask := Z.shiftl 1 tail_bits - 1 in
    w ← load last_word_index ws;
    f ← load last_word_index fullset;
    Some (Z.lor (Z.land w mask) (Z.land f mask) =? Z.land f mask)
  else Some true.

(** In one word the bits before [start] and from [end] on are shifted out; a
    shift by 64 or more, when [end] is not after [start], is undefined. *)
Definition DoAllAreClearInRange (start end_ : Z) (ws : words) : option bool :=
  let start_word_index := start / kBitsPerWord in
  let start_tail_bits := start mod kBitsPerWord in
  let end_word_index := end_ / kBitsPerWord in
  let end_tail_bits := end_ mod kBitsPerWord in
  if negb (start_word_index =? end_word_index) then
    header ← (if 0 <? start_tail_bits
              then w ← load start_word_index ws; Some (Z.shiftr w start_tail_bits =? 0, start_word_index + 1)
              else Some (true, start_word_index));
    let '(ok, first) := (header : bool * Z) in
    if negb ok then Some false
    else
      ok ← all_words (Z.to_nat (end_word_index - first)) first (λ i, w ← load i ws; Some (w =? 0));
      if negb ok then Some false
      else if 0 <? end_tail_bits then
        w ← load end_word_index ws;
        let mask := not64 (Z.shiftl 1 end_tail_bits - 1) in
        Some (Z.lor w mask =? mask)
      else Some true
  else
    word ← load start_word_index ws;
    let shift := kBitsPerWord - end_tail_bits + start_tail_bits in
    if shift <? 64 then Some (u64 (Z.shiftl (Z.shiftr word start_tail_bits) shift) =? 0) else None.

(** [for (; n >= low; --n) body(n)], the loop that goes down; the fuel is one
    more than the words. *)
Fixpoint loop_down (fuel : nat) (n low : Z) (body : Z → words → option words) (ws : words) : option words :=
  if low <=? n then
    match fuel with O => None | S fuel => ws ← body n ws; loop_down fuel (u64 (n - 1)) low body ws end
  else Some ws.

(** [for (; n < limit; ++n) body(n)] *)
Fixpoint loop_up (fuel : nat) (n limit : Z) (body : Z → words → option words) (ws : words) : option words :=
  if n <? limit then
    match fuel with O => None | S fuel => ws ← body n ws; loop_up fuel (u64 (n + 1)) limit body ws end
  else Some ws.

Definition DoLeftShift (num_bits shift : Z) (ws : words) : option words :=
  let last_word_index := shift / kBitsPerWord in
  let tail_bits := shift mod kBitsPerWord in
  let word_size := WordSizeOfBits num_bits in
  ws ←
    (if tail_bits =? 0 then
       loop_down (S (length ws)) (u64 (word_size - 1)) last_word_index
         (λ n ws, w ← load (n - last_word_index) ws; store n w ws) ws
     else
       let sub_offset := kBitsPerWord - tail_bits in
       ws ← loop_down (S (length ws)) (u64 (word_size - 1)) (last_word_index + 1)
         (λ n ws, w ← load (n - last_word_index) ws; v ← load (n - last_word_index - 1) ws;
           store n (Z.lor (u64 (Z.shiftl w tail_bits)) (Z.shiftr v sub_offset)) ws) ws;
       w ← load 0 ws;
       store last_word_index (u64 (Z.shiftl w tail_bits)) ws);
  ws ← fill (Z.to_nat last_word_index) 0 0 ws;
  MaskOffTailBits num_bits ws.

Definition DoRightShift (word_size shift : Z) (ws : words) : option words :=
  let last_word_index := shift / kBitsPerWord in
  let tail_bits := shift mod kBitsPerWord in
  let limit := u64 (word_size - last_word_index - 1) in
  ws ←
    (if tail_bits =? 0 then
       loop_up (S (length ws)) 0 (limit + 1) (λ n ws, w ← load (n + last_word_index) ws; store n w ws) ws
     else
       let sub_offset := kBitsPerWord - tail_bits in
       ws ← loop_up (S (length ws)) 0 limit
         (λ n ws, w ← load (n + last_word_index) ws; v ← load (n + last_word_index + 1) ws;
           store n (Z.lor (Z.shiftr w tail_bits) (u64 (Z.shiftl v sub_offset))) ws) ws;
       w ← load (word_size - 1) ws;
       store limit (Z.shiftr w tail_bits) ws);
  fill (Z.to_nat (word_size - (limit + 1))) (limit + 1) 0 ws.

(** [words[i] op= words2[i]] for every word. *)
Definition DoOpWith (op : Z → Z → Z) (word_size : Z) (ws words2 : words) : option words :=
  loop_up (S (length ws)) 0 word_size (λ i ws, w ← load i ws; v ← load i words2; store i (op w v) ws) ws.
Definition DoAndWith := DoOpWith Z.land.
Definition DoOrWith := DoOpWith Z.lor.
Definition DoXorWith := DoOpWith Z.lxor.

(** [__builtin_ctzl] of a word that is not zero. *)
Fixpoint ctz_pos (p : positive) : Z := match p with xO p => 1 + ctz_pos p | _ => 0 end.
Definition ctz (w : Z) : Z := match w with Zpos p => ctz_pos p | _ => 0 end.

(** The loop over words [i] on. *)
Fixpoint find_word (fuel : nat) (i word_size : Z) (ws : words) : option (option Z) :=
  if i <? word_size then
    match fuel with
    | O => None
    | S fuel =>
        thisword ← load i ws;
        if negb (thisword =? 0) then Some (Some (i * kBitsPerWord + ctz thisword))
        else find_word fuel (i + 1) word_size ws
    end
  else Some None.

(** [None] inside is the result false. *)
Definition DoFindFirst (word_size : Z) (ws : words) : option (option Z) := find_word (S (length ws)) 0 word_size ws.

Definition DoFindNext (word_size prev : Z) (ws : words) : option (option Z) :=
  let prev := u64 (prev + 1) in
  if word_size * kBitsPerWord <=? prev then Some None
  else
    let i := WordIndexOfBit prev in
    thisword ← load i ws;
    let thisword := Z.land thisword (u64 (Z.shiftl kAllSetMask (ShiftOfBit prev))) in
    if negb (thisword =? 0) then Some (Some (i * kBitsPerWord + ctz thisword))
    else find_word (S (length ws)) (i + 1) word_size ws.

(** [for (i = num_bits; i > 0; --i)] *)
Fixpoint DoAppendToString (num_bits : nat) (ws : words) (out : bytes) : option bytes :=
  match num_bits with
  | O => Some out
  | S i => b ← DoGetAt (Z.of_nat i) ws; DoAppendToString i ws (out ++ [if (b : bool) then chr "1" else chr "0"])
  end.

(** ** class BasicBitmap *)

Record Bitmap := mkBitmap { m_words : words; m_size : Z }.

Definition WordSize (b : Bitmap) : Z := Z.of_nat (length (m_words b)).
Definition ByteSize (b : Bitmap) : Z := WordSize b * 8.
Definition with_words (b : Bitmap) (ws : option words) : option Bitmap := (λ ws, mkBitmap ws (m_size b)) <$> ws.
Definition checked {A} (b : Bitmap) (index : Z) (x : option A) : option A := if index <? m_size b then x else None.

Definition GetAt (index : Z) (b : Bitmap) : option bool := checked b index (DoGetAt index (m_words b)).
Definition SetAt (index : Z) (b : Bitmap) : option Bitmap := with_words b (checked b index (DoSetAt index (m_words b))).
Definition ClearAt (index : Z) (b : Bitmap) : option Bitmap := with_words b (checked b index (DoClearAt index (m_words b))).
Definition SetAt_value (index : Z) (value : bool) (b : Bitmap) : option Bitmap :=
  with_words b (checked b index (DoSetAt_value index value (m_words b))).
Definition SetAll (b : Bitmap) : option Bitmap := with_words b (DoSetAll (m_size b) (m_words b)).
Definition ClearAll (b : Bitmap) : option Bitmap := with_words b (fill (length (m_words b)) 0 0 (m_words b)).
Definition AllAreSet (b : Bitmap) : option bool := DoAllAreSet (m_size b) (m_words b).
Definition AllAreClear (b : Bitmap) : option bool := DoAllAreClear (m_size b) (m_words b).
Definition AllAreClearInRange (start end_ : Z) (b : Bitmap) : option bool :=
  if ((start <=? m_size b) && (end_ <=? m_size b))%bool then DoAllAreClearInRange start end_ (m_words b) else None.
Definition LeftShift (shift : Z) (b : Bitmap) : option Bitmap :=
  if negb (shift =? 0) then with_words b (DoLeftShift (m_size b) shift (m_words b)) else Some b.
Definition RightShift (shift : Z) (b : Bitmap) : option Bitmap :=
  if negb (shift =? 0) then with_words b (DoRightShift (WordSize b) shift (m_words b)) else Some b.
Definition op_with (op : Z → words → words → option words) (b rhs : Bitmap) : option Bitmap :=
  if m_size rhs =? m_size b then with_words b (op (WordSize b) (m_words b) (m_words rhs)) else None.
Definition AndWith := op_with DoAndWith.
Definition OrWith := op_with DoOrWith.
Definition XorWith := op_with DoXorWith.
Definition IsSubsetOf (b rhs : Bitmap) : option bool :=
  if negb (m_size rhs =? m_size b) then Some false else DoIsSubsetOf (m_size b) (m_words b) (m_words rhs).
Definition FindFirst (b : Bitmap) : option (option Z) := DoFindFirst (WordSize b) (m_words b).
Definition FindNext (prev : Z) (b : Bitmap) : option (option Z) := DoFindNext (WordSize b) prev (m_words b).
Definition AppendToString (b : Bitmap) (out : bytes) : option bytes :=
  DoAppendToString (Z.to_nat (m_size b)) (m_words b) out.
Definition ToString (b : Bitmap) : option bytes := AppendToString b [].

(** The loop over the characters, the first of them the highest bit; [rest]
    is what is left of them. *)
Fixpoint parse_loop (rest : bytes) (b : Bitmap) : option (bool * Bitmap) :=
  match rest with
  | [] => Some (true, b)
  | ch :: rest =>
      let index := Z.of_nat (length rest) in
      if ch =? chr "1" then b ← SetAt index b; parse_loop rest b
      else if ch =? chr "0" then b ← ClearAt index b; parse_loop rest b
      else Some (false, b)
  end.

Definition ParseFromString (initial_value : bytes) (b : Bitmap) : option (bool * Bitmap) :=
  if negb (Z.of_nat (length initial_value) =? m_size b) then Some (false, b) else parse_loop initial_value b.

(** ** class BasicDynamicBitmap *)

Definition new_words (size x : Z) : words := replicate (Z.to_nat (WordSizeOfBits size)) x.

Definition new_DynamicBitmap (size : Z) (initial_value : bool) : option Bitmap :=
  let ws := new_words size (if initial_value then kAllSetMask else 0) in
  ws ← (if initial_value then MaskOffTailBits size ws else Some ws);
  Some (mkBitmap ws size).

(** A string that is not one throws. *)
Definition parsed (r : option (bool * Bitmap)) : option Bitmap :=
  '(ok, b) ← r; if (ok : bool) then Some b else None.

(** [index_bits] is the width of [IndexType]. *)
Definition DynamicBitmap_of_string (index_bits : Z) (initial_value : bytes) : option Bitmap :=
  let size := Z.of_nat (length initial_value) in
  parsed (ParseFromString initial_value (mkBitmap (new_words size 0) (size mod 2 ^ index_bits))).

(** [std::vector::resize]: words that stay keep their bits. *)
Definition Resize (size : Z) (b : Bitmap) : Bitmap :=
  let n := Z.to_nat (WordSizeOfBits size) in
  mkBitmap (take n (m_words b) ++ replicate (n - length (m_words b)) 0) size.

(** ** class FixedBitmap *)

Definition StaticWordSizeOfBits (num_bits : Z) : Z := u64 (num_bits + kBitsPerWord - 1) / kBitsPerWord.
Definition fixed_words (size x : Z) : words := replicate (Z.to_nat (StaticWordSizeOfBits size)) x.

Definition new_FixedBitmap (size : Z) : Bitmap := mkBitmap (fixed_words size 0) size.

(** [garbage] is what the array holds before it is set. *)
Definition FixedBitmap_of_bool (size : Z) (initial_value : bool) (garbage : words) : option Bitmap :=
  if initial_value then
    ws ← DoSetAll size garbage;
    ws ← MaskOffTailBits size ws;
    Some (mkBitmap ws size)
  else Some (new_FixedBitmap size).

Definition InitializeWithString (initial_value : bytes) (size : Z) : option Bitmap :=
  parsed (ParseFromString initial_value (new_FixedBitmap size)).
