(* ===== verification/BitmapFacts.v ===== *)
(** * Bitmaps as numbers

    A bitmap is read as the number whose binary digits are its bits, bit 0
    first.  Every operation of Bitmap.v is an operation on numbers: setting
    and clearing a bit, shifting, the bitwise connectives, comparison with 0
    and with the number of all ones, and the least bit set from a place on. *)

From S2P Require Import Prelude Bitmap.

(** ** Words and bits *)

Definition word_ok (w : Z) : Prop := 0 <= w < 2 ^ 64.

(** Word [n], 0 outside the array. *)
Definition wd (ws : words) (n : Z) : Z := default 0 (ws !! Z.to_nat n).
Definition words_ok (ws : words) : Prop := ∀ n, 0 <= n → word_ok (wd ws n).
Definition len (ws : words) : Z := Z.of_nat (length ws).

Fixpoint bits_value (ws : words) : Z := match ws with [] => 0 | w :: ws => w + bits_value ws * 2 ^ 64 end.

Lemma word_ok_bits w : word_ok w → ∀ m, 64 <= m → Z.testbit w m = false.
Proof. intros. by apply (testbit_high w 64). Qed.

Lemma u64_ok x : word_ok (u64 x).
Proof. apply Z.mod_pos_bound. lia. Qed.

Lemma zero_ok : word_ok 0.
Proof. done. Qed.

Lemma word_of_bits x : 0 <= x → (∀ m, 64 <= m → Z.testbit x m = false) → word_ok x.
Proof. intros Hx H. split; [done|]. by apply bound_of_bits. Qed.

Lemma land_ok x y : word_ok x → word_ok (Z.land x y).
Proof.
  intros H. apply word_of_bits; [apply Z.land_nonneg; left; apply H|]. intros m Hm.
  by rewrite Z.land_spec, (word_ok_bits x).
Qed.

Lemma lor_ok x y : word_ok x → word_ok y → word_ok (Z.lor x y).
Proof.
  intros H1 H2. apply word_of_bits; [apply Z.lor_nonneg; split; [apply H1|apply H2]|]. intros m Hm.
  by rewrite Z.lor_spec, !word_ok_bits.
Qed.

Lemma lxor_ok x y : word_ok x → word_ok y → word_ok (Z.lxor x y).
Proof.
  intros H1 H2. apply word_of_bits; [apply Z.lxor_nonneg; unfold word_ok in *; lia|]. intros m Hm.
  by rewrite Z.lxor_spec, !word_ok_bits.
Qed.

Lemma shiftr_ok x n : word_ok x → 0 <= n → word_ok (Z.shiftr x n).
Proof.
  intros H Hn. apply word_of_bits; [apply Z.shiftr_nonneg, H|]. intros m Hm.
  rewrite Z.shiftr_spec by lia. apply (word_ok_bits x); [done|lia].
Qed.

Lemma wd_cons w ws n : 0 <= n → wd (w :: ws) n = if n =? 0 then w else wd ws (n - 1).
Proof.
  intros Hn. unfold wd. destruct (Z.eqb_spec n 0) as [->|]; [done|].
  replace (Z.to_nat n) with (S (Z.to_nat (n - 1))) by lia. done.
Qed.

Lemma words_ok_cons w ws : words_ok (w :: ws) ↔ word_ok w ∧ words_ok ws.
Proof.
  split.
  - intros H. split; [by apply (H 0)|]. intros n Hn. specialize (H (n + 1)). rewrite wd_cons in H by lia.
    destruct (Z.eqb_spec (n + 1) 0); [lia|]. rewrite Z.add_simpl_r in H. apply H. lia.
  - intros [Hw H] n Hn. rewrite wd_cons by done. case_ztest; [done|]. apply H. lia.
Qed.

Lemma bits_value_nonneg ws : words_ok ws → 0 <= bits_value ws.
Proof.
  induction ws as [|w ws IH]; [done|]. rewrite words_ok_cons. cbn [bits_value]. unfold word_ok. intros [? ?%IH]. nia.
Qed.

(** Bit [i] of the number is bit [i mod 64] of word [i / 64]. *)
Lemma testbit_value ws i : words_ok ws → 0 <= i →
  Z.testbit (bits_value ws) i = Z.testbit (wd ws (i / 64)) (i mod 64).
Proof.
  revert i. induction ws as [|w ws IH]; intros i Hok Hi; [by rewrite !Z.bits_0|].
  apply words_ok_cons in Hok as [Hw Hok]. cbn [bits_value]. rewrite wd_cons by (apply Z.div_pos; lia).
  rewrite <- (lor_shiftl_add w _ 64), Z.lor_spec by (done || lia).
  rewrite Z.shiftl_spec by done. destruct (Z.eqb_spec (i / 64) 0) as [E|E].
  - assert (i < 64) by (apply Z.div_small_iff in E; lia). rewrite Z.mod_small by lia.
    rewrite (Z.testbit_neg_r _ (i - 64)) by lia. apply orb_false_r.
  - assert (64 <= i) by (destruct (Z.lt_ge_cases i 64); [by rewrite Z.div_small in E by lia|done]).
    rewrite (word_ok_bits w) by (done || lia). rewrite IH by (done || lia). cbn [orb].
    replace i with (i - 64 + 1 * 64) at 3 4 by lia. rewrite Z.div_add, Z_mod_plus_full by lia. by rewrite Z.add_simpl_r.
Qed.

Lemma value_eq ws v : words_ok ws →
  (∀ i, 0 <= i → Z.testbit v i = Z.testbit (wd ws (i / 64)) (i mod 64)) → bits_value ws = v.
Proof. intros Hok H. apply Z.bits_inj'. intros i Hi. by rewrite testbit_value, H. Qed.

Lemma wd_outside ws n : len ws <= n → wd ws n = 0.
Proof. intros H. unfold wd. by rewrite lookup_ge_None_2 by (unfold len in H; lia). Qed.

Lemma load_wd ws n : 0 <= n < len ws → load n ws = Some (wd ws n).
Proof.
  intros H. unfold load, wd, len in *. destruct (lookup_lt_is_Some_2 ws (Z.to_nat n)) as [w ->]; [lia|done].
Qed.

(** Storing changes one word. *)
Record set_word (ws : words) (n x : Z) (ws' : words) : Prop := {
  sw_len : len ws' = len ws;
  sw_wd : ∀ j, 0 <= j → wd ws' j = if j =? n then x else wd ws j
}.

Lemma store_wd ws n x : 0 <= n < len ws → ∃ ws', store n x ws = Some ws' ∧ set_word ws n x ws'.
Proof.
  unfold store, len. intros Hn. destruct (Nat.ltb_spec (Z.to_nat n) (length ws)); [|lia]. eexists. split; [done|].
  split; [unfold len; by rewrite length_insert|]. intros j Hj. unfold wd. destruct (Z.eqb_spec j n) as [->|].
  - by rewrite list_lookup_insert_eq.
  - rewrite list_lookup_insert_ne; [done|lia].
Qed.

Lemma modify_wd ws n f : 0 <= n < len ws → ∃ ws', modify n f ws = Some ws' ∧ set_word ws n (f (wd ws n)) ws'.
Proof. intros Hn. unfold modify. rewrite load_wd by done. by apply store_wd. Qed.

Lemma set_word_ok ws n x ws' : words_ok ws → word_ok x → set_word ws n x ws' → words_ok ws'.
Proof. intros Hok Hx H j Hj. rewrite (sw_wd _ _ _ _ H) by done. case_ztest; auto. Qed.

(** *** Loops *)

(** What every word is after a loop that sets the words for which [P] holds
    to [h]. *)
Record set_words (ws : words) (P : Z → bool) (h : Z → Z) (ws' : words) : Prop := {
  sws_len : len ws' = len ws;
  sws_wd : ∀ j, 0 <= j → wd ws' j = if P j then h j else wd ws j
}.

Lemma set_words_ok ws P h ws' : words_ok ws → (∀ j, 0 <= j → P j = true → word_ok (h j)) → set_words ws P h ws' → words_ok ws'.
Proof.
  intros Hok Hh H j Hj. rewrite (sws_wd _ _ _ _ H) by done. destruct (P j) eqn:E; auto.
Qed.

Lemma fill_wd n i x ws : 0 <= i → i + Z.of_nat n <= len ws →
  ∃ ws', fill n i x ws = Some ws' ∧ set_words ws (λ j, (i <=? j) && (j <? i + Z.of_nat n))%bool (λ _, x) ws'.
Proof.
  revert i ws. induction n as [|n IH]; intros i ws Hi Hn; cbn [fill].
  { exists ws. split; [done|]. split; [done|]. intros j Hj. by repeat (case_ztest; try lia). }
  destruct (store_wd ws i x) as (ws1 & -> & H1); [lia|]. cbn [mbind option_bind].
  destruct (IH (i + 1) ws1) as (ws2 & -> & H2); [lia|rewrite (sw_len _ _ _ _ H1); lia|].
  exists ws2. split; [done|]. split; [by rewrite (sws_len _ _ _ _ H2), (sw_len _ _ _ _ H1)|].
  intros j Hj. rewrite (sws_wd _ _ _ _ H2), (sw_wd _ _ _ _ H1) by done. by repeat (case_ztest; try lia).
Qed.

Lemma loop_down_wd (h : Z → Z) low body ws0 n0 : 1 <= low → n0 < len ws0 →
  (∀ m ws, low <= m <= n0 → len ws = len ws0 → (∀ j, 0 <= j <= m → wd ws j = wd ws0 j) → body m ws = store m (h m) ws) →
  ∀ fuel n ws, low - 1 <= n <= n0 → n < 2 ^ 64 → n - low < Z.of_nat fuel → len ws = len ws0 →
  (∀ j, 0 <= j <= n → wd ws j = wd ws0 j) →
  ∃ ws', loop_down fuel n low body ws = Some ws' ∧ set_words ws (λ j, (low <=? j) && (j <=? n))%bool h ws'.
Proof.
  intros Hlow Hn0 Hbody. induction fuel as [|fuel IH]; intros n ws Hn Hmax Hf Hlen Hsame; cbn [loop_down];
    destruct (Z.leb_spec low n) as [Hle|Hlt]; try lia.
  1,3: exists ws; split; [done|]; split; [done|]; intros j Hj; repeat case_ztest; try lia; done.
  rewrite (Hbody n ws) by (done || lia). destruct (store_wd ws n (h n)) as (ws1 & -> & H1); [lia|]. cbn [mbind option_bind].
  rewrite u64_small by lia. destruct (IH (n - 1) ws1) as (ws2 & -> & H2); [lia..|rewrite (sw_len _ _ _ _ H1); lia| |].
  { intros j Hj. rewrite (sw_wd _ _ _ _ H1) by lia. destruct (Z.eqb_spec j n); [lia|]. apply Hsame. lia. }
  exists ws2. split; [done|]. split; [by rewrite (sws_len _ _ _ _ H2), (sw_len _ _ _ _ H1)|].
  intros j Hj. rewrite (sws_wd _ _ _ _ H2), (sw_wd _ _ _ _ H1) by done.
  destruct (Z.leb_spec low j), (Z.leb_spec j (n - 1)), (Z.leb_spec j n), (Z.eqb_spec j n); cbn; try lia; congruence.
Qed.

Lemma loop_up_wd (h : Z → Z) limit body ws0 : limit <= len ws0 → limit < 2 ^ 64 →
  (∀ m ws, 0 <= m < limit → len ws = len ws0 → (∀ j, m <= j → wd ws j = wd ws0 j) → body m ws = store m (h m) ws) →
  ∀ fuel n ws, 0 <= n → limit - n <= Z.of_nat fuel → len ws = len ws0 →
  (∀ j, n <= j → wd ws j = wd ws0 j) →
  ∃ ws', loop_up fuel n limit body ws = Some ws' ∧ set_words ws (λ j, (n <=? j) && (j <? limit))%bool h ws'.
Proof.
  intros Hlim Hmax Hbody. induction fuel as [|fuel IH]; intros n ws Hn Hf Hlen Hsame; cbn [loop_up];
    destruct (Z.ltb_spec n limit) as [Hlt|Hge]; try lia.
  1,3: exists ws; split; [done|]; split; [done|]; intros j Hj; repeat case_ztest; try lia; done.
  rewrite (Hbody n ws) by (done || lia). destruct (store_wd ws n (h n)) as (ws1 & -> & H1); [lia|]. cbn [mbind option_bind].
  rewrite u64_small by lia. destruct (IH (n + 1) ws1) as (ws2 & -> & H2); [lia..|rewrite (sw_len _ _ _ _ H1); lia| |].
  { intros j Hj. rewrite (sw_wd _ _ _ _ H1) by lia. destruct (Z.eqb_spec j n); [lia|]. apply Hsame. lia. }
  exists ws2. split; [done|]. split; [by rewrite (sws_len _ _ _ _ H2), (sw_len _ _ _ _ H1)|].
  intros j Hj. rewrite (sws_wd _ _ _ _ H2), (sw_wd _ _ _ _ H1) by done.
  destruct (Z.leb_spec (n + 1) j), (Z.ltb_spec j limit), (Z.leb_spec n j), (Z.eqb_spec j n); cbn; try lia; congruence.
Qed.

(** ** A bitmap's number *)

(** The invariant of the classes: the array has the words the size needs, and
    no bit from the size on is set. *)
Record bitmap_ok (b : Bitmap) : Prop := {
  bo_size : 0 <= m_size b < 2 ^ 63;
  bo_len : len (m_words b) = (m_size b + 63) / 64;
  bo_words : words_ok (m_words b);
  bo_tail : ∀ i, m_size b <= i → Z.testbit (bits_value (m_words b)) i = false
}.
Definition number (b : Bitmap) : Z := bits_value (m_words b).

(** Bit [i] of the words. *)
Definition wbit (ws : words) (i : Z) : bool := Z.testbit (wd ws (i / 64)) (i mod 64).

Lemma testbit_number b i : bitmap_ok b → 0 <= i → Z.testbit (number b) i = wbit (m_words b) i.
Proof. intros Hb Hi. apply testbit_value; [apply Hb|done]. Qed.

Lemma WordSize_small n : 0 <= n < 2 ^ 63 → WordSizeOfBits n = (n + 63) / 64.
Proof. intros Hn. unfold WordSizeOfBits, kBitsPerWord. rewrite u64_small by lia. f_equal. lia. Qed.

(** The new state of a bitmap, given the bits of its new words. *)
Lemma new_state b ws' v : bitmap_ok b → len ws' = len (m_words b) → words_ok ws' →
  (∀ i, 0 <= i → wbit ws' i = Z.testbit v i) → (∀ i, m_size b <= i → Z.testbit v i = false) →
  bitmap_ok (mkBitmap ws' (m_size b)) ∧ number (mkBitmap ws' (m_size b)) = v.
Proof.
  intros Hb Hlen Hok Hbits Htail. assert (E : number (mkBitmap ws' (m_size b)) = v).
  { apply value_eq; [done|]. intros i Hi. symmetry. by apply Hbits. }
  split; [|done]. destruct Hb as [Hs Hl Hw Ht]. split; cbn; [done|by rewrite Hlen|done|].
  intros i Hi. unfold number in E. cbn in E. rewrite E. by apply Htail.
Qed.

Lemma bit_index i : 0 <= i → 0 <= i / 64 ∧ 0 <= i mod 64 < 64 ∧ i = 64 * (i / 64) + i mod 64.
Proof. intros. pose proof (Z.mod_pos_bound i 64). pose proof (Z.div_mod i 64). pose proof (Z.div_pos i 64). lia. Qed.

Lemma testbit_mask i m : 0 <= i → 0 <= m → Z.testbit (MaskOfBit i) m = (i mod 64 =? m).
Proof.
  intros Hi Hm. destruct (bit_index i Hi) as (_ & Hr & _). unfold MaskOfBit, ShiftOfBit, kBitsPerWord.
  rewrite testbit_u64, testbit_shiftl_1 by lia.
  by repeat (case_ztest; try lia).
Qed.

Lemma testbit_not64 x m : 0 <= m → Z.testbit (not64 x) m = ((m <? 64) && negb (Z.testbit x m))%bool.
Proof. intros Hm. unfold not64. by autorewrite with zbits. Qed.

Lemma testbit_high_ones t m : 0 <= t < 64 → 0 <= m →
  Z.testbit (u64 (Z.shiftl kAllSetMask t)) m = ((m <? 64) && (t <=? m))%bool.
Proof.
  intros Ht Hm. autorewrite with zbits. unfold kAllSetMask. change (2 ^ 64 - 1) with (Z.ones 64).
  rewrite Z.testbit_ones by lia. by repeat (case_ztest; try lia).
Qed.

Lemma testbit_low_ones t m : 0 <= t → 0 <= m → Z.testbit (Z.shiftl 1 t - 1) m = (m <? t).
Proof.
  intros Ht Hm. rewrite Z.shiftl_1_l. replace (2 ^ t - 1) with (Z.ones t) by (rewrite Z.ones_equiv; lia).
  rewrite Z.testbit_ones by lia. by repeat (case_ztest; try lia).
Qed.

(** [q] and [r] are the word and the place of bit [i]. *)
Ltac dlia := Z.to_euclidean_division_equations; lia.
Ltac split_bit i := let H := fresh "Hsplit" in pose proof (bit_index i ltac:(lia)) as H; destruct H as (? & ? & ?).

Lemma MaskOffTailBits_ok size ws : 0 <= size < 2 ^ 63 → len ws = (size + 63) / 64 → words_ok ws →
  ∃ ws', MaskOffTailBits size ws = Some ws' ∧ len ws' = len ws ∧ words_ok ws' ∧
    ∀ i, 0 <= i → wbit ws' i = ((i <? size) && wbit ws i)%bool.
Proof.
  intros Hs Hlen Hok. split_bit size. unfold MaskOffTailBits, WordIndexOfBit, kBitsPerWord.
  destruct (Z.ltb_spec 0 (size mod 64)).
  - destruct (modify_wd ws (size / 64) (λ w, Z.land w (not64 (u64 (Z.shiftl kAllSetMask (size mod 64)))))) as (ws' & E & H');
      [dlia|]. rewrite E. exists ws'. split; [done|]. split; [by apply (sw_len _ _ _ _ H')|]. split.
    { apply (set_word_ok _ _ _ _ Hok) in H'; [done|]. apply land_ok, Hok. lia. }
    intros i Hi. split_bit i. unfold wbit. rewrite (sw_wd _ _ _ _ H') by lia.
    destruct (Z.eqb_spec (i / 64) (size / 64)) as [Eq|Nq].
    + rewrite Eq, Z.land_spec, testbit_not64, testbit_high_ones by lia. destruct (Z.ltb_spec (i mod 64) 64); [|lia].
      destruct (Z.ltb_spec i size), (Z.leb_spec (size mod 64) (i mod 64)); try lia; cbn;
        by rewrite ?andb_true_r, ?andb_false_r.
    + destruct (Z.ltb_spec i size); [done|]. cbn. rewrite wd_outside; [apply Z.bits_0|dlia].
  - exists ws. split_and!; try done. intros i Hi. split_bit i. destruct (Z.ltb_spec i size); [done|]. unfold wbit.
    rewrite wd_outside; [apply Z.bits_0|dlia].
Qed.

(** *** Operations *)

(** The new state of an operation that gives [ws]. *)
Definition becomes (b : Bitmap) (r : option Bitmap) (v : Z) : Prop :=
  ∃ b', r = Some b' ∧ bitmap_ok b' ∧ m_size b' = m_size b ∧ number b' = v.

Lemma becomes_words b ws' v : bitmap_ok b → len ws' = len (m_words b) → words_ok ws' →
  (∀ i, 0 <= i → wbit ws' i = Z.testbit v i) → (∀ i, m_size b <= i → Z.testbit v i = false) →
  becomes b (with_words b (Some ws')) v.
Proof.
  intros Hb Hl Hok Hbits Ht. destruct (new_state b ws' v Hb Hl Hok Hbits Ht) as [H1 H2]. eexists. split; [done|]. done.
Qed.

Lemma above_size b i : bitmap_ok b → m_size b <= i → Z.testbit (number b) i = false.
Proof. intros Hb. apply Hb. Qed.

Lemma index_in b i : bitmap_ok b → 0 <= i < m_size b → 0 <= i / 64 < len (m_words b).
Proof. intros Hb Hi. rewrite (bo_len b Hb). dlia. Qed.

(** An operation on the word and the place of one bit. *)
Lemma modify_bit b index f v : bitmap_ok b → 0 <= index < m_size b →
  (∀ w, word_ok w → word_ok (f w)) →
  (∀ i, 0 <= i → Z.testbit v i = if i / 64 =? index / 64 then Z.testbit (f (wd (m_words b) (i / 64))) (i mod 64) else Z.testbit (number b) i) →
  (∀ i, m_size b <= i → Z.testbit v i = false) →
  becomes b (with_words b (checked b index (modify (index / 64) f (m_words b)))) v.
Proof.
  intros Hb Hi Hf Hv Ht. pose proof (index_in b index Hb Hi). unfold checked. destruct (Z.ltb_spec index (m_size b)); [|lia].
  destruct (modify_wd (m_words b) (index / 64) f) as (ws' & E & Hw); [done|]. rewrite E.
  apply becomes_words; [done|apply (sw_len _ _ _ _ Hw)| | |done].
  - eapply set_word_ok; [apply Hb| |exact Hw]. apply Hf, Hb. lia.
  - intros i Hi'. split_bit i. unfold wbit. rewrite (sw_wd _ _ _ _ Hw), Hv by lia.
    destruct (Z.eqb_spec (i / 64) (index / 64)) as [->|]; [done|]. symmetry. by apply testbit_number.
Qed.

Lemma same_bit i index : 0 <= i → 0 <= index → (index =? i) = ((i / 64 =? index / 64) && (index mod 64 =? i mod 64))%bool.
Proof.
  intros. split_bit i. split_bit index. destruct (Z.eqb_spec index i) as [->|]; by repeat (case_ztest; try lia).
Qed.

Lemma MaskOfBit_ok i : word_ok (MaskOfBit i).
Proof. apply u64_ok. Qed.

Lemma SetAt_ok b index : bitmap_ok b → 0 <= index < m_size b → becomes b (SetAt index b) (Z.setbit (number b) index).
Proof.
  intros Hb Hi. apply modify_bit; [done|done| | |].
  - intros w Hw. apply lor_ok; [done|apply MaskOfBit_ok].
  - intros i Hi'. split_bit i. rewrite Z.setbit_eqb, Z.lor_spec, testbit_mask, testbit_number, (same_bit i index) by (done || lia). unfold wbit.
    destruct (Z.eqb_spec (i / 64) (index / 64)); [|done]. apply orb_comm.
  - intros i Hi'. rewrite Z.setbit_eqb, above_size by (done || lia). case_ztest; [lia|done].
Qed.

Lemma ClearAt_ok b index : bitmap_ok b → 0 <= index < m_size b → becomes b (ClearAt index b) (Z.clearbit (number b) index).
Proof.
  intros Hb Hi. apply modify_bit; [done|done| | |].
  - intros w Hw. by apply land_ok.
  - intros i Hi'. split_bit i. rewrite Z.clearbit_eqb, Z.land_spec, testbit_not64, testbit_mask, testbit_number, (same_bit i index) by (done || lia).
    unfold wbit. destruct (Z.eqb_spec (i / 64) (index / 64)); [|apply andb_true_r]. destruct (Z.ltb_spec (i mod 64) 64); [done|lia].
  - intros i Hi'. by rewrite Z.clearbit_eqb, above_size by (done || lia).
Qed.

Lemma SetAt_value_ok b index x : bitmap_ok b → 0 <= index < m_size b →
  becomes b (SetAt_value index x b) (if x then Z.setbit (number b) index else Z.clearbit (number b) index).
Proof. destruct x; [apply SetAt_ok|apply ClearAt_ok]. Qed.

Lemma GetAt_ok b index : bitmap_ok b → 0 <= index < m_size b → GetAt index b = Some (Z.testbit (number b) index).
Proof.
  intros Hb Hi. pose proof (index_in b index Hb Hi) as Hw. split_bit index. unfold GetAt, checked, DoGetAt, WordIndexOfBit, kBitsPerWord.
  destruct (Z.ltb_spec index (m_size b)); [|lia]. rewrite load_wd by done. cbn [mbind option_bind]. f_equal.
  rewrite testbit_number by (done || lia). unfold wbit.
  replace (MaskOfBit index) with (2 ^ (index mod 64)).
  - destruct (Z.testbit (wd (m_words b) (index / 64)) (index mod 64)) eqn:E.
    + apply negb_true_iff, Z.eqb_neq. intros E0. apply (f_equal (λ x, Z.testbit x (index mod 64))) in E0.
      rewrite Z.land_spec, E, Z.pow2_bits_true, Z.bits_0 in E0 by lia. done.
    + apply negb_false_iff, Z.eqb_eq, Z.bits_inj'. intros n Hn. rewrite Z.land_spec, Z.bits_0, Z.pow2_bits_eqb by lia.
      destruct (Z.eqb_spec (index mod 64) n) as [<-|]; [by rewrite E|apply andb_false_r].
  - unfold MaskOfBit, ShiftOfBit, kBitsPerWord. rewrite Z.shiftl_1_l, u64_small; [done|]. split; [lia|]. apply Z.pow_lt_mono_r; lia.
Qed.

(** [MaskOffTailBits] ends an operation whose words have the right bits. *)
Lemma masked b ws v : bitmap_ok b → len ws = len (m_words b) → words_ok ws →
  (∀ i, 0 <= i < m_size b → wbit ws i = Z.testbit v i) → (∀ i, m_size b <= i → Z.testbit v i = false) →
  becomes b (with_words b (MaskOffTailBits (m_size b) ws)) v.
Proof.
  intros Hb Hl Hok Hbits Ht. destruct (MaskOffTailBits_ok (m_size b) ws) as (ws' & -> & Hl' & Hok' & Hw); [apply Hb| |done|].
  { rewrite Hl. apply Hb. }
  apply becomes_words; [done|by rewrite Hl'|done| |done]. intros i Hi. rewrite Hw by done. destruct (Z.ltb_spec i (m_size b)).
  - apply Hbits. lia.
  - symmetry. by apply Ht.
Qed.

Lemma SetAll_ok b : bitmap_ok b → becomes b (SetAll b) (Z.ones (m_size b)).
Proof.
  intros Hb. pose proof (bo_len b Hb) as Hl. pose proof (bo_size b Hb). unfold SetAll, DoSetAll. rewrite WordSize_small, <- Hl by done.
  destruct (fill_wd (Z.to_nat (len (m_words b))) 0 kAllSetMask (m_words b)) as (ws & -> & Hw); [lia|unfold len; lia|].
  cbn [mbind option_bind]. apply masked; [done|apply (sws_len _ _ _ _ Hw)| | |].
  - eapply set_words_ok; [apply Hb| |exact Hw]. intros ? _ _. by unfold word_ok, kAllSetMask.
  - intros i Hi. pose proof (index_in b i Hb Hi). split_bit i. unfold wbit. rewrite (sws_wd _ _ _ _ Hw) by lia.
    rewrite Z.ones_spec_low by lia. repeat (case_ztest; try lia). unfold kAllSetMask. change (2 ^ 64 - 1) with (Z.ones 64).
    apply Z.ones_spec_low. lia.
  - intros i Hi. apply Z.ones_spec_high. lia.
Qed.

Lemma ClearAll_ok b : bitmap_ok b → becomes b (ClearAll b) 0.
Proof.
  intros Hb. unfold ClearAll. destruct (fill_wd (length (m_words b)) 0 0 (m_words b)) as (ws & -> & Hw); [done|unfold len; lia|].
  apply becomes_words; [done|apply (sws_len _ _ _ _ Hw)| | |].
  - eapply set_words_ok; [apply Hb| |exact Hw]. done.
  - intros i Hi. split_bit i. unfold wbit. rewrite (sws_wd _ _ _ _ Hw) by lia. rewrite Z.bits_0.
    destruct (Z.ltb_spec (i / 64) (0 + Z.of_nat (length (m_words b)))).
    + destruct (Z.leb_spec 0 (i / 64)); [|lia]. apply Z.bits_0.
    + rewrite andb_false_r, wd_outside by (unfold len; lia). apply Z.bits_0.
  - intros. apply Z.bits_0.
Qed.

(** *** Shifts *)

(** Bit [i - shift], seen from word [i / 64 - shift / 64] on. *)
Lemma wbit_down ws i shift : words_ok ws → 0 <= shift <= i →
  wbit ws (i - shift) =
  if shift mod 64 <=? i mod 64 then Z.testbit (wd ws (i / 64 - shift / 64)) (i mod 64 - shift mod 64)
  else Z.testbit (wd ws (i / 64 - shift / 64 - 1)) (i mod 64 - shift mod 64 + 64).
Proof.
  intros Hok Hi. split_bit i. split_bit shift. unfold wbit. split_bit (i - shift).
  destruct (Z.leb_spec (shift mod 64) (i mod 64)); f_equal; try f_equal; lia.
Qed.

Lemma wbit_up ws i shift : words_ok ws → 0 <= shift → 0 <= i →
  wbit ws (i + shift) =
  if i mod 64 + shift mod 64 <? 64 then Z.testbit (wd ws (i / 64 + shift / 64)) (i mod 64 + shift mod 64)
  else Z.testbit (wd ws (i / 64 + shift / 64 + 1)) (i mod 64 + shift mod 64 - 64).
Proof.
  intros Hok Hs Hi. split_bit i. split_bit shift. unfold wbit. split_bit (i + shift).
  destruct (Z.ltb_spec (i mod 64 + shift mod 64) 64); f_equal; try f_equal; lia.
Qed.

Lemma testbit_shl w t r : word_ok w → 0 <= t → 0 <= r < 64 → Z.testbit (u64 (Z.shiftl w t)) r = Z.testbit w (r - t).
Proof. intros Hw Ht Hr. rewrite testbit_u64, Z.shiftl_spec by lia. destruct (Z.ltb_spec r 64); [done|lia]. Qed.

Lemma shift_in b shift : bitmap_ok b → 0 <= shift < 64 * len (m_words b) → 0 <= shift / 64 < len (m_words b) ∧ len (m_words b) < 2 ^ 58.
Proof. intros Hb Hs. split_bit shift. pose proof (bo_size b Hb). rewrite (bo_len b Hb) in *. split; dlia. Qed.

(** The shifts may be as long as the words are. *)
Definition shift_ok (size shift : Z) : Prop := shift = 0 ∨ 0 < shift < 64 * ((size + 63) / 64).

(** The two loops of the shifts, without the words they fill and the mask. *)
Section Moved.
Context (ws : words) (shift : Z).
Context (Hok : words_ok ws) (Hshift : 0 < shift) (Hin : shift / 64 < len ws) (Hmax : len ws < 2 ^ 58).
#[local] Abbreviation L := (shift / 64).
#[local] Abbreviation t := (shift mod 64).

Lemma left_moved : ∃ ws1,
  (if t =? 0 then
     loop_down (S (length ws)) (len ws - 1) L (λ n ws, w ← load (n - L) ws; store n w ws) ws
   else
     ws ← loop_down (S (length ws)) (len ws - 1) (L + 1)
       (λ n ws, w ← load (n - L) ws; v ← load (n - L - 1) ws; store n (Z.lor (u64 (Z.shiftl w t)) (Z.shiftr v (64 - t))) ws) ws;
     w ← load 0 ws; store L (u64 (Z.shiftl w t)) ws) = Some ws1 ∧ len ws1 = len ws ∧ words_ok ws1 ∧
   ∀ i, 0 <= i → L <= i / 64 < len ws → wbit ws1 i = Z.testbit (bits_value ws) (i - shift).
Proof.
  split_bit shift.
  assert (Hbit : ∀ i, shift <= i → Z.testbit (bits_value ws) (i - shift) = wbit ws (i - shift)).
  { intros i Hi. apply testbit_value; [done|lia]. }
  destruct (Z.eqb_spec t 0) as [Et|Et].
  - destruct (loop_down_wd (λ n, wd ws (n - L)) L (λ n ws, w ← load (n - L) ws; store n w ws) ws (len ws - 1))
      with (fuel := S (length ws)) (n := len ws - 1) (ws := ws) as (ws1 & -> & Hw); [lia|lia| |lia|lia|unfold len; lia|done|done|].
    { intros m ws' Hm Hl Hsame. rewrite load_wd by lia. cbn [mbind option_bind]. by rewrite Hsame by lia. }
    exists ws1. split; [done|]. split; [apply (sws_len _ _ _ _ Hw)|]. split.
    { eapply set_words_ok; [exact Hok| |exact Hw]. intros j Hj Hp. cbn in Hp. bool_to_prop. apply Hok. lia. }
    intros i Hi Hi2. split_bit i. rewrite Hbit, wbit_down by (done || lia). rewrite Et, Z.sub_0_r. unfold wbit.
    rewrite (sws_wd _ _ _ _ Hw) by lia. by repeat (case_ztest; try lia).
  - destruct (loop_down_wd (λ n, Z.lor (u64 (Z.shiftl (wd ws (n - L)) t)) (Z.shiftr (wd ws (n - L - 1)) (64 - t))) (L + 1)
      (λ n ws, w ← load (n - L) ws; v ← load (n - L - 1) ws; store n (Z.lor (u64 (Z.shiftl w t)) (Z.shiftr v (64 - t))) ws) ws (len ws - 1))
      with (fuel := S (length ws)) (n := len ws - 1) (ws := ws) as (ws1 & -> & Hw); [lia|lia| |lia|lia|unfold len; lia|done|done|].
    { intros m ws' Hm Hl Hsame. rewrite !load_wd by lia. cbn [mbind option_bind]. by rewrite !Hsame by lia. }
    cbn [mbind option_bind]. pose proof (sws_len _ _ _ _ Hw) as Hl1. rewrite load_wd by lia. cbn [mbind option_bind].
    destruct (store_wd ws1 L (u64 (Z.shiftl (wd ws1 0) t))) as (ws2 & -> & Hw2); [lia|].
    exists ws2. split; [done|]. split; [by rewrite (sw_len _ _ _ _ Hw2)|]. split.
    { eapply set_word_ok; [|apply u64_ok|exact Hw2]. eapply set_words_ok; [exact Hok| |exact Hw].
      intros j Hj Hp. cbn in Hp. bool_to_prop. apply lor_ok; [apply u64_ok|]. apply shiftr_ok; [|lia]. apply Hok. lia. }
    intros i Hi Hi2. split_bit i. destruct (Z.lt_ge_cases i shift).
    { rewrite (Z.testbit_neg_r _ (i - shift)) by lia. unfold wbit. rewrite (sw_wd _ _ _ _ Hw2) by lia.
      destruct (Z.eqb_spec (i / 64) L); [|lia]. rewrite (sws_wd _ _ _ _ Hw) by lia.
      destruct (Z.leb_spec (L + 1) 0); [lia|]. cbn. rewrite testbit_shl by first [lia | apply Hok; lia]. apply Z.testbit_neg_r. lia. }
    rewrite Hbit, wbit_down by (done || lia). unfold wbit.
    rewrite (sw_wd _ _ _ _ Hw2), !(sws_wd _ _ _ _ Hw) by lia.
    assert (0 <= i / 64 - L) by lia.
    destruct (Z.eqb_spec (i / 64) L) as [El|El].
    + rewrite testbit_shl; [|destruct ((L + 1 <=? 0) && _)%bool eqn:E; [bool_to_prop; lia|by apply Hok]|lia|lia].
      repeat (case_ztest; try lia). cbn. rewrite El. by rewrite Z.sub_diag.
    + repeat (case_ztest; try lia); cbn;
        rewrite Z.lor_spec, testbit_shl, Z.shiftr_spec by first [lia | apply Hok; lia].
      * rewrite (word_ok_bits (wd ws (i / 64 - L - 1))) by first [lia | apply Hok; lia]. apply orb_false_r.
      * rewrite (Z.testbit_neg_r (wd ws (i / 64 - L))) by lia. cbn. f_equal. lia.
Qed.

Lemma right_moved : ∃ ws1,
  (if t =? 0 then
     loop_up (S (length ws)) 0 (len ws - L - 1 + 1) (λ n ws, w ← load (n + L) ws; store n w ws) ws
   else
     ws' ← loop_up (S (length ws)) 0 (len ws - L - 1)
       (λ n ws, w ← load (n + L) ws; v ← load (n + L + 1) ws; store n (Z.lor (Z.shiftr w t) (u64 (Z.shiftl v (64 - t)))) ws) ws;
     w ← load (len ws - 1) ws'; store (len ws - L - 1) (Z.shiftr w t) ws') = Some ws1 ∧ len ws1 = len ws ∧ words_ok ws1 ∧
   ∀ i, 0 <= i → i / 64 < len ws - L → wbit ws1 i = wbit ws (i + shift).
Proof.
  split_bit shift. destruct (Z.eqb_spec t 0) as [Et|Et].
  - destruct (loop_up_wd (λ n, wd ws (n + L)) (len ws - L - 1 + 1) (λ n ws, w ← load (n + L) ws; store n w ws) ws)
      with (fuel := S (length ws)) (n := 0) (ws := ws) as (ws1 & -> & Hw); [lia|lia| |lia|unfold len; lia|done|done|].
    { intros m ws' Hm Hl Hsame. rewrite load_wd by lia. cbn [mbind option_bind]. by rewrite Hsame by lia. }
    exists ws1. split; [done|]. split; [apply (sws_len _ _ _ _ Hw)|]. split.
    { eapply set_words_ok; [exact Hok| |exact Hw]. intros j Hj Hp. apply Hok. lia. }
    intros i Hi Hi2. split_bit i. rewrite wbit_up by (done || lia).  rewrite Et, Z.add_0_r. unfold wbit.
    rewrite (sws_wd _ _ _ _ Hw) by lia. by repeat (case_ztest; try lia).
  - destruct (loop_up_wd (λ n, Z.lor (Z.shiftr (wd ws (n + L)) t) (u64 (Z.shiftl (wd ws (n + L + 1)) (64 - t)))) (len ws - L - 1)
      (λ n ws, w ← load (n + L) ws; v ← load (n + L + 1) ws; store n (Z.lor (Z.shiftr w t) (u64 (Z.shiftl v (64 - t)))) ws) ws)
      with (fuel := S (length ws)) (n := 0) (ws := ws) as (ws1 & -> & Hw); [lia|lia| |lia|unfold len; lia|done|done|].
    { intros m ws' Hm Hl Hsame. rewrite !load_wd by lia. cbn [mbind option_bind]. by rewrite !Hsame by lia. }
    cbn [mbind option_bind]. pose proof (sws_len _ _ _ _ Hw) as Hl1. rewrite load_wd by lia. cbn [mbind option_bind].
    destruct (store_wd ws1 (len ws - L - 1) (Z.shiftr (wd ws1 (len ws - 1)) t)) as (ws2 & -> & Hw2); [lia|].
    assert (Elast : wd ws1 (len ws - 1) = wd ws (len ws - 1)).
    { rewrite (sws_wd _ _ _ _ Hw) by lia. destruct (Z.ltb_spec (len ws - 1) (len ws - L - 1)); [lia|]. by rewrite andb_false_r. }
    rewrite Elast in Hw2. exists ws2. split; [done|]. split; [by rewrite (sw_len _ _ _ _ Hw2)|]. split.
    { eapply set_word_ok; [| |exact Hw2]; [|apply shiftr_ok; [apply Hok|]; lia]. eapply set_words_ok; [exact Hok| |exact Hw].
      intros j Hj Hp. apply lor_ok; [|apply u64_ok]. apply shiftr_ok; [|lia]. apply Hok. lia. }
    intros i Hi Hi2. split_bit i. rewrite wbit_up by (done || lia).  unfold wbit.
    rewrite (sw_wd _ _ _ _ Hw2), !(sws_wd _ _ _ _ Hw) by lia.
    destruct (Z.eqb_spec (i / 64) (len ws - L - 1)) as [El|El].
    + rewrite Z.shiftr_spec by lia. replace (i / 64 + L) with (len ws - 1) by lia. repeat (case_ztest; try lia); [done|].
      rewrite (wd_outside ws (len ws - 1 + 1)), Z.bits_0 by lia. apply word_ok_bits; [apply Hok; lia|lia].
    + repeat (case_ztest; try lia); cbn; rewrite Z.lor_spec, testbit_shl, Z.shiftr_spec by first [lia | apply Hok; lia].
      * rewrite (Z.testbit_neg_r (wd ws (i / 64 + L + 1))) by lia. apply orb_false_r.
      * rewrite (word_ok_bits (wd ws (i / 64 + L))) by first [lia | apply Hok; lia]. cbn. f_equal. lia.
Qed.

End Moved.

Lemma LeftShift_ok b shift : bitmap_ok b → shift_ok (m_size b) shift →
  becomes b (LeftShift shift b) (Z.shiftl (number b) shift mod 2 ^ m_size b).
Proof.
  intros Hb Hs. pose proof (bo_size b Hb) as Hsz. unfold LeftShift. destruct Hs as [->|Hs].
  { cbn. exists b. split_and!; try done. rewrite Z.shiftl_0_r. symmetry. apply Z.bits_inj'. intros i Hi.
    rewrite testbit_mod_pow2 by lia. destruct (Z.ltb_spec i (m_size b)); [done|]. symmetry. by apply above_size. }
  rewrite <- (bo_len b Hb) in Hs. pose proof (shift_in b shift Hb) as [Hq Hmax]; [lia|]. split_bit shift.
  destruct (Z.eqb_spec shift 0); [lia|]. cbn [negb]. unfold DoLeftShift. rewrite WordSize_small, <- (bo_len b Hb) by done.
  unfold kBitsPerWord.
  rewrite (u64_small (len (m_words b) - 1)) by lia.
  destruct (left_moved (m_words b) shift) as (ws1 & -> & Hl1 & Hok1 & Hbits); [apply Hb|lia..|]. cbn [mbind option_bind].
  destruct (fill_wd (Z.to_nat (shift / 64)) 0 0 ws1) as (ws2 & -> & Hw2); [lia|lia|]. cbn [mbind option_bind].
  apply masked; [done|rewrite (sws_len _ _ _ _ Hw2); exact Hl1| | |].
  - eapply set_words_ok; [exact Hok1|intros; exact zero_ok|exact Hw2].
  - intros i Hi. split_bit i. pose proof (index_in b i Hb Hi). rewrite testbit_mod_pow2 by lia.
    destruct (Z.ltb_spec i (m_size b)); [|lia]. cbn. rewrite Z.shiftl_spec by lia.
    unfold wbit. rewrite (sws_wd _ _ _ _ Hw2) by lia. rewrite Z2Nat.id by lia.
    destruct (Z.leb_spec 0 (i / 64)); [|lia]. cbn. destruct (Z.ltb_spec (i / 64) (0 + shift / 64)).
    + rewrite Z.bits_0. symmetry. apply Z.testbit_neg_r. lia.
    + apply Hbits; lia.
  - intros i Hi. rewrite testbit_mod_pow2 by lia. destruct (Z.ltb_spec i (m_size b)); [lia|done].
Qed.

Lemma RightShift_ok b shift : bitmap_ok b → shift_ok (m_size b) shift →
  becomes b (RightShift shift b) (Z.shiftr (number b) shift).
Proof.
  intros Hb Hs. pose proof (bo_size b Hb) as Hsz. unfold RightShift. destruct Hs as [->|Hs].
  { cbn. exists b. split_and!; done. }
  rewrite <- (bo_len b Hb) in Hs. pose proof (shift_in b shift Hb) as [Hq Hmax]; [lia|]. split_bit shift.
  destruct (Z.eqb_spec shift 0); [lia|]. cbn [negb]. unfold DoRightShift, WordSize, kBitsPerWord. fold (len (m_words b)).
  rewrite (u64_small (len (m_words b) - shift / 64 - 1)) by lia.
  destruct (right_moved (m_words b) shift) as (ws1 & -> & Hl1 & Hok1 & Hbits); [apply Hb|lia..|]. cbn [mbind option_bind].
  destruct (fill_wd (Z.to_nat (len (m_words b) - (len (m_words b) - shift / 64 - 1 + 1))) (len (m_words b) - shift / 64 - 1 + 1) 0 ws1)
    as (ws2 & -> & Hw2); [lia|lia|].
  apply becomes_words; [done|rewrite (sws_len _ _ _ _ Hw2); exact Hl1| | |].
  - eapply set_words_ok; [exact Hok1|intros; exact zero_ok|exact Hw2].
  - intros i Hi. split_bit i. rewrite Z.shiftr_spec, testbit_number by (done || lia).
    unfold wbit at 1. rewrite (sws_wd _ _ _ _ Hw2) by lia. rewrite Z2Nat.id by lia.
    destruct (Z.lt_ge_cases (i / 64) (len (m_words b) - shift / 64)).
    + destruct (Z.leb_spec (len (m_words b) - shift / 64 - 1 + 1) (i / 64)); [lia|]. by apply Hbits.
    + assert (E : wbit (m_words b) (i + shift) = false).
      { unfold wbit. rewrite wd_outside; [apply Z.bits_0|]. split_bit (i + shift). lia. }
      rewrite E. repeat (case_ztest; try lia); cbn; [apply Z.bits_0|]. rewrite wd_outside by lia. apply Z.bits_0.
  - intros i Hi. rewrite Z.shiftr_spec by lia. apply above_size; [done|lia].
Qed.

(** *** Two bitmaps *)

Lemma op_with_ok op b rhs : (∀ x y, word_ok x → word_ok y → word_ok (op x y)) →
  (∀ f : bool → bool → bool, (∀ x y m, 0 <= m → Z.testbit (op x y) m = f (Z.testbit x m) (Z.testbit y m)) → f false false = false →
  bitmap_ok b → bitmap_ok rhs → m_size rhs = m_size b →
  becomes b (op_with (DoOpWith op) b rhs) (op (number b) (number rhs))).
Proof.
  intros Hop f Hf Hff Hb Hr Hs. unfold op_with, DoOpWith, WordSize. fold (len (m_words b)). rewrite Hs, Z.eqb_refl.
  pose proof (bo_size b Hb). assert (Hlen : len (m_words rhs) = len (m_words b)) by (by rewrite (bo_len b Hb), (bo_len rhs Hr), Hs).
  destruct (loop_up_wd (λ i, op (wd (m_words b) i) (wd (m_words rhs) i)) (len (m_words b))
    (λ i ws, w ← load i ws; v ← load i (m_words rhs); store i (op w v) ws) (m_words b))
    with (fuel := S (length (m_words b))) (n := 0) (ws := m_words b) as (ws' & -> & Hw); [lia|rewrite (bo_len b Hb); dlia| |done|unfold len; lia|done|done|].
  { intros m ws' Hm Hl Hsame. rewrite !load_wd by lia. cbn [mbind option_bind]. by rewrite Hsame by lia. }
  apply becomes_words; [done|apply (sws_len _ _ _ _ Hw)| | |].
  - eapply set_words_ok; [apply Hb| |exact Hw]. intros j Hj _. apply Hop; [by apply (bo_words b Hb)|by apply (bo_words rhs Hr)].
  - intros i Hi. split_bit i. rewrite Hf, !testbit_number by (done || lia). unfold wbit. rewrite (sws_wd _ _ _ _ Hw) by lia.
    destruct (Z.leb_spec 0 (i / 64)); [|lia]. cbn. destruct (Z.ltb_spec (i / 64) (len (m_words b))); [apply Hf; lia|].
    by rewrite !wd_outside, Z.bits_0 by lia.
  - intros i Hi. by rewrite Hf, !above_size by (done || lia).
Qed.

Lemma AndWith_ok b rhs : bitmap_ok b → bitmap_ok rhs → m_size rhs = m_size b →
  becomes b (AndWith b rhs) (Z.land (number b) (number rhs)).
Proof. apply (op_with_ok Z.land b rhs (λ x y Hx _, land_ok x y Hx) andb); [intros; apply Z.land_spec|done]. Qed.

Lemma OrWith_ok b rhs : bitmap_ok b → bitmap_ok rhs → m_size rhs = m_size b →
  becomes b (OrWith b rhs) (Z.lor (number b) (number rhs)).
Proof. apply (op_with_ok Z.lor b rhs lor_ok orb); [intros; apply Z.lor_spec|done]. Qed.

Lemma XorWith_ok b rhs : bitmap_ok b → bitmap_ok rhs → m_size rhs = m_size b →
  becomes b (XorWith b rhs) (Z.lxor (number b) (number rhs)).
Proof. apply (op_with_ok Z.lxor b rhs lxor_ok xorb); [intros; apply Z.lxor_spec|done]. Qed.

(** *** Tests *)

Lemma all_words_ok (P : Z → Prop) `{∀ i, Decision (P i)} test n i :
  (∀ j, i <= j < i + Z.of_nat n → test j = Some (bool_decide (P j))) →
  ∃ r, all_words n i test = Some r ∧ (r = true ↔ ∀ j, i <= j < i + Z.of_nat n → P j).
Proof.
  revert i. induction n as [|n IH]; intros i Ht; cbn [all_words].
  { exists true. split; [done|]. split; [intros; lia|done]. }
  rewrite Ht by lia. cbn [mbind option_bind]. destruct (bool_decide_reflect (P i)) as [Hp|Hp].
  - destruct (IH (i + 1)) as (r & E & Hr); [intros; apply Ht; lia|]. exists r. split; [done|]. rewrite Hr. split; intros Hall j Hj.
    + destruct (Z.eq_dec j i) as [->|]; [done|]. apply Hall. lia.
    + apply Hall. lia.
  - exists false. split; [done|]. split; [done|]. intros Hall. destruct Hp. apply Hall. lia.
Qed.

(** Equality of the low [t] bits. *)
Lemma low_bits_eq x y t : 0 <= t → word_ok x → word_ok y →
  Z.land x (Z.shiftl 1 t - 1) = Z.land y (Z.shiftl 1 t - 1) ↔ ∀ m, 0 <= m < t → Z.testbit x m = Z.testbit y m.
Proof.
  intros Ht Hx Hy. split; intros H.
  - intros m Hm. apply (f_equal (λ z, Z.testbit z m)) in H. rewrite !Z.land_spec, testbit_low_ones in H by lia.
    destruct (Z.ltb_spec m t); [|lia]. by rewrite !andb_true_r in H.
  - apply Z.bits_inj'. intros m Hm. rewrite !Z.land_spec, testbit_low_ones by lia.
    destruct (Z.ltb_spec m t); [|by rewrite !andb_false_r]. by rewrite H by lia.
Qed.

(** The numbers agree up to [size] when the whole words do and the tail does. *)
Lemma words_eq_bits (f g : Z → Z) size : 0 <= size → (∀ j, 0 <= j → word_ok (f j)) → (∀ j, 0 <= j → word_ok (g j)) →
  (∀ j, 0 <= j < size / 64 → f j = g j) ∧
  (∀ m, 0 <= m < size mod 64 → Z.testbit (f (size / 64)) m = Z.testbit (g (size / 64)) m) ↔
  ∀ i, 0 <= i < size → Z.testbit (f (i / 64)) (i mod 64) = Z.testbit (g (i / 64)) (i mod 64).
Proof.
  intros Hs Hf Hg. split_bit size. split.
  - intros [Hwhole Htail] i Hi. split_bit i. destruct (Z.lt_ge_cases (i / 64) (size / 64)); [by rewrite Hwhole by lia|].
    assert (Eq : i / 64 = size / 64) by lia. rewrite Eq. apply Htail. lia.
  - intros Hall. split.
    + intros j Hj. apply Z.bits_inj'. intros m Hm. destruct (Z.lt_ge_cases m 64).
      * specialize (Hall (64 * j + m)). replace ((64 * j + m) / 64) with j in Hall by dlia.
        replace ((64 * j + m) mod 64) with m in Hall by dlia. apply Hall. lia.
      * rewrite !word_ok_bits by (try apply Hf; try apply Hg; lia). done.
    + intros m Hm. specialize (Hall (64 * (size / 64) + m)). replace ((64 * (size / 64) + m) / 64) with (size / 64) in Hall by dlia.
      replace ((64 * (size / 64) + m) mod 64) with m in Hall by dlia. apply Hall. lia.
Qed.

(** Bits of a bitmap against those of another number. *)
Lemma number_eq_iff b v : bitmap_ok b → (∀ i, m_size b <= i → Z.testbit v i = false) →
  number b = v ↔ ∀ i, 0 <= i < m_size b → wbit (m_words b) i = Z.testbit v i.
Proof.
  intros Hb Hv. split.
  - intros <- i Hi. by rewrite testbit_number by (done || lia).
  - intros H. apply Z.bits_inj'. intros i Hi. destruct (Z.lt_ge_cases i (m_size b)).
    + rewrite testbit_number by (done || lia). by apply H.
    + by rewrite above_size, Hv by done.
Qed.

(** The shape of the three tests: whole words, then what is left. *)
Lemma test_ok (f g : Z → Z) size test tail : 0 <= size →
  (∀ j, 0 <= j → word_ok (f j)) → (∀ j, 0 <= j → word_ok (g j)) →
  (∀ j, 0 <= j < size / 64 → test j = Some (bool_decide (f j = g j))) →
  (0 < size mod 64 → ∃ r, tail = Some r ∧ (r = true ↔ ∀ m, 0 <= m < size mod 64 → Z.testbit (f (size / 64)) m = Z.testbit (g (size / 64)) m)) →
  ∃ r, (ok ← all_words (Z.to_nat (size / 64)) 0 test;
        if negb ok then Some false else if 0 <? size mod 64 then tail else Some true) = Some r ∧
    (r = true ↔ ∀ i, 0 <= i < size → Z.testbit (f (i / 64)) (i mod 64) = Z.testbit (g (i / 64)) (i mod 64)).
Proof.
  intros Hs Hf Hg Ht Htail. pose proof (words_eq_bits f g size Hs Hf Hg) as Hiff. split_bit size.
  destruct (all_words_ok (λ j, f j = g j) test (Z.to_nat (size / 64)) 0) as (r & -> & Hr); [intros; apply Ht; lia|].
  rewrite Z2Nat.id in Hr by lia. cbn [mbind option_bind Z.add] in *. destruct r; cbn [negb].
  - destruct (Z.ltb_spec 0 (size mod 64)).
    + destruct Htail as (r & -> & Hr2); [done|]. exists r. split; [done|]. rewrite <- Hiff, Hr2. tauto.
    + exists true. split; [done|]. rewrite <- Hiff. split; [|done]. intros _. split; [by apply Hr|]. intros; lia.
  - exists false. split; [done|]. rewrite <- Hiff. split; [done|]. intros [Hwhole _]. by apply Hr.
Qed.

(** The whole words, and the last one when a part of it is used. *)
Lemma word_in b j : bitmap_ok b → 0 <= j → j < m_size b / 64 ∨ j = m_size b / 64 ∧ 0 < m_size b mod 64 → j < len (m_words b).
Proof. intros Hb Hj H. pose proof (bo_size b Hb). rewrite (bo_len b Hb). dlia. Qed.

Lemma eqb_decide x y : (x =? y) = bool_decide (x = y).
Proof. destruct (Z.eqb_spec x y); [by rewrite bool_decide_eq_true_2|by rewrite bool_decide_eq_false_2]. Qed.

Lemma eq_of_iff (r : bool) x y : (r = true ↔ x = y) → Some r = Some (x =? y).
Proof. intros H. f_equal. destruct (Z.eqb_spec x y), r; naive_solver. Qed.

Lemma AllAreSet_ok b : bitmap_ok b → AllAreSet b = Some (number b =? Z.ones (m_size b)).
Proof.
  intros Hb. pose proof (bo_size b Hb). split_bit (m_size b). pose proof (bo_words b Hb) as Hok.
  assert (Ht : ∃ r, AllAreSet b = Some r ∧ (r = true ↔ ∀ i, 0 <= i < m_size b →
    Z.testbit (wd (m_words b) (i / 64)) (i mod 64) = Z.testbit kAllSetMask (i mod 64))).
  { apply (test_ok (wd (m_words b)) (λ _, kAllSetMask)); [lia|done|by intros| |].
    - intros j Hj. pose proof (word_in b j Hb). rewrite load_wd by lia. cbn [mbind option_bind]. by rewrite eqb_decide.
    - intros Ht. pose proof (word_in b (m_size b / 64) Hb). unfold kBitsPerWord. rewrite load_wd by lia. cbn [mbind option_bind].
      eexists. split; [done|]. rewrite Z.eqb_eq, <- low_bits_eq by (lia || (by apply Hok) || done).
      replace (Z.land kAllSetMask _) with (Z.shiftl 1 (m_size b mod 64) - 1); [done|].
      apply Z.bits_inj'. intros m Hm. rewrite Z.land_spec, testbit_low_ones by lia. change kAllSetMask with (Z.ones 64).
      rewrite Z.testbit_ones by lia. by repeat (case_ztest; try lia). }
  destruct Ht as (r & -> & Hr). apply eq_of_iff. rewrite Hr, number_eq_iff by (done || (intros; apply Z.ones_spec_high; lia)).
  split; intros H' i Hi; specialize (H' i Hi); split_bit i; unfold wbit in *; change kAllSetMask with (Z.ones 64) in *;
    rewrite !Z.ones_spec_low in * by lia; done.
Qed.

Lemma AllAreClear_ok b : bitmap_ok b → AllAreClear b = Some (number b =? 0).
Proof.
  intros Hb. pose proof (bo_size b Hb). split_bit (m_size b). pose proof (bo_words b Hb) as Hok.
  assert (Ht : ∃ r, AllAreClear b = Some r ∧ (r = true ↔ ∀ i, 0 <= i < m_size b →
    Z.testbit (wd (m_words b) (i / 64)) (i mod 64) = Z.testbit 0 (i mod 64))).
  { apply (test_ok (wd (m_words b)) (λ _, 0)); [lia|done|by intros| |].
    - intros j Hj. pose proof (word_in b j Hb). rewrite load_wd by lia. cbn [mbind option_bind]. by rewrite eqb_decide.
    - intros Ht. pose proof (word_in b (m_size b / 64) Hb). unfold kBitsPerWord. rewrite load_wd by lia. cbn [mbind option_bind].
      eexists. split; [done|]. rewrite Z.eqb_eq. set (w := wd _ _). assert (Hw : word_ok w) by (by apply Hok).
      split; intros E.
      + intros m Hm. rewrite <- E, testbit_shl, Z.bits_0 by (try apply shiftr_ok; lia || done). apply Z.testbit_neg_r. lia.
      + apply Z.bits_inj'. intros m Hm. rewrite testbit_u64, Z.shiftl_spec by lia. destruct (Z.ltb_spec m 64).
        * destruct (Z.lt_ge_cases m (m_size b mod 64)); [rewrite Z.testbit_neg_r, E, Z.bits_0 by lia; done|].
          rewrite Z.shiftr_spec by lia. cbn. f_equal. lia.
        * cbn. by rewrite word_ok_bits. }
  destruct Ht as (r & -> & Hr). apply eq_of_iff. rewrite Hr, number_eq_iff by (done || (intros; apply Z.bits_0)).
  split; intros H' i Hi; specialize (H' i Hi); unfold wbit in *; rewrite !Z.bits_0 in *; done.
Qed.

Lemma IsSubsetOf_ok b rhs : bitmap_ok b → bitmap_ok rhs → m_size rhs = m_size b →
  IsSubsetOf b rhs = Some (Z.lor (number b) (number rhs) =? number rhs).
Proof.
  intros Hb Hb' Hs. pose proof (bo_size b Hb). split_bit (m_size b). pose proof (bo_words b Hb) as Hok. pose proof (bo_words rhs Hb') as Hok'.
  assert (Ht : ∃ r, IsSubsetOf b rhs = Some r ∧ (r = true ↔ ∀ i, 0 <= i < m_size b →
    Z.testbit (Z.lor (wd (m_words b) (i / 64)) (wd (m_words rhs) (i / 64))) (i mod 64) = Z.testbit (wd (m_words rhs) (i / 64)) (i mod 64))).
  { unfold IsSubsetOf. rewrite Hs, Z.eqb_refl. cbn [negb].
    apply (test_ok (λ j, Z.lor (wd (m_words b) j) (wd (m_words rhs) j)) (wd (m_words rhs)));
      [lia|intros; apply lor_ok; auto|done| |].
    - intros j Hj. pose proof (word_in b j Hb). pose proof (word_in rhs j Hb'). rewrite !load_wd by (rewrite ?Hs in *; lia).
      cbn [mbind option_bind]. by rewrite eqb_decide.
    - intros Ht. pose proof (word_in b (m_size b / 64) Hb). pose proof (word_in rhs (m_size b / 64) Hb'). unfold kBitsPerWord.
      rewrite !load_wd by (rewrite ?Hs in *; lia). cbn [mbind option_bind].
      eexists. split; [done|]. rewrite Z.eqb_eq, <- low_bits_eq by (first [lia|by apply Hok'|apply lor_ok; auto]).
      by rewrite Z.land_lor_distr_l. }
  destruct Ht as (r & -> & Hr). apply eq_of_iff. rewrite Hr.
  split; intros H'.
  - apply Z.bits_inj'. intros i Hi. rewrite Z.lor_spec. destruct (Z.lt_ge_cases i (m_size b)).
    + rewrite !testbit_number by done. specialize (H' i). rewrite Z.lor_spec in H'. apply H'. lia.
    + by rewrite !above_size by (done || lia).
  - intros i Hi. apply (f_equal (λ x, Z.testbit x i)) in H'. rewrite Z.lor_spec, !testbit_number in H' by (done || lia).
    by rewrite Z.lor_spec.
Qed.

(** *** A range *)

Definition clear_from (w lo hi : Z) : Prop := ∀ m, lo <= m < hi → Z.testbit w m = false.

Lemma shiftr_clear w t : word_ok w → 0 <= t → Z.shiftr w t = 0 ↔ clear_from w t 64.
Proof.
  intros Hw Ht. split.
  - intros E m Hm. apply (f_equal (λ x, Z.testbit x (m - t))) in E. rewrite Z.shiftr_spec, Z.sub_add, Z.bits_0 in E by lia. done.
  - intros H. apply Z.bits_inj'. intros m Hm. rewrite Z.shiftr_spec, Z.bits_0 by lia.
    destruct (Z.lt_ge_cases (m + t) 64); [apply H; lia|by apply word_ok_bits].
Qed.

Lemma mask_clear w t : word_ok w → 0 <= t < 64 →
  Z.lor w (not64 (Z.shiftl 1 t - 1)) = not64 (Z.shiftl 1 t - 1) ↔ clear_from w 0 t.
Proof.
  intros Hw Ht. assert (Hbit : ∀ m, 0 <= m → Z.testbit (not64 (Z.shiftl 1 t - 1)) m = ((m <? 64) && negb (m <? t))%bool).
  { intros m Hm. by rewrite testbit_not64, testbit_low_ones by lia. }
  split.
  - intros E m Hm. apply (f_equal (λ x, Z.testbit x m)) in E. rewrite Z.lor_spec, Hbit in E by lia.
    destruct (Z.ltb_spec m t); [|lia]. by rewrite andb_false_r, orb_false_r in E.
  - intros H. apply Z.bits_inj'. intros m Hm. rewrite Z.lor_spec, Hbit by lia. destruct (Z.ltb_spec m t).
    + by rewrite H, andb_false_r by lia.
    + destruct (Z.ltb_spec m 64); [apply orb_true_r|]. by rewrite word_ok_bits.
Qed.

Lemma middle_clear w lo hi : word_ok w → 0 <= lo → lo < hi < 64 →
  u64 (Z.shiftl (Z.shiftr w lo) (64 - hi + lo)) = 0 ↔ clear_from w lo hi.
Proof.
  intros Hw Hlo Hhi. split.
  - intros E m Hm. apply (f_equal (λ x, Z.testbit x (m + 64 - hi))) in E.
    rewrite testbit_u64, Z.shiftl_spec, Z.shiftr_spec, Z.bits_0 in E by lia. destruct (Z.ltb_spec (m + 64 - hi) 64); [|lia].
    cbn in E. rewrite <- E. f_equal. lia.
  - intros H. apply Z.bits_inj'. intros m Hm. rewrite testbit_u64, Z.shiftl_spec, Z.bits_0 by lia. destruct (Z.ltb_spec m 64); [|done].
    cbn. destruct (Z.lt_ge_cases m (64 - hi + lo)); [apply Z.testbit_neg_r; lia|]. rewrite Z.shiftr_spec by lia. apply H. lia.
Qed.

Lemma wbit_at ws j m : 0 <= m < 64 → wbit ws (64 * j + m) = Z.testbit (wd ws j) m.
Proof. intros Hm. unfold wbit. f_equal; [f_equal|]; dlia. Qed.

(** A range over more than one word. *)
Lemma range_words ws start end_ : words_ok ws → 0 <= start → start / 64 < end_ / 64 →
  (∀ i, start <= i < end_ → wbit ws i = false) ↔
  clear_from (wd ws (start / 64)) (start mod 64) 64 ∧ (∀ j, start / 64 < j < end_ / 64 → wd ws j = 0) ∧
  clear_from (wd ws (end_ / 64)) 0 (end_ mod 64).
Proof.
  intros Hok Hs Hq. split_bit start. assert (0 <= end_) by dlia. split_bit end_. split.
  - intros Hall. split_and!.
    + intros m Hm. rewrite <- wbit_at by lia. apply Hall. lia.
    + intros j Hj. apply Z.bits_inj'. intros m Hm. rewrite Z.bits_0. destruct (Z.lt_ge_cases m 64).
      * rewrite <- wbit_at by lia. apply Hall. lia.
      * apply word_ok_bits; [apply Hok; lia|done].
    + intros m Hm. rewrite <- wbit_at by lia. apply Hall. lia.
  - intros (Hhead & Hmid & Htail) i Hi. split_bit i. unfold wbit.
    destruct (Z.eq_dec (i / 64) (start / 64)) as [E|]; [rewrite E; apply Hhead; lia|].
    destruct (Z.eq_dec (i / 64) (end_ / 64)) as [E|]; [rewrite E; apply Htail; lia|]. rewrite Hmid by lia. apply Z.bits_0.
Qed.

Lemma AllAreClearInRange_ok b start end_ : bitmap_ok b → 0 <= start → start < end_ <= m_size b →
  AllAreClearInRange start end_ b = Some (Z.shiftr (number b) start mod 2 ^ (end_ - start) =? 0).
Proof.
  intros Hb Hs He. pose proof (bo_size b Hb). pose proof (bo_words b Hb) as Hok. split_bit start. split_bit end_.
  assert (Hspec : Z.shiftr (number b) start mod 2 ^ (end_ - start) = 0 ↔ ∀ i, start <= i < end_ → wbit (m_words b) i = false).
  { split; intros H'.
    - intros i Hi. apply (f_equal (λ x, Z.testbit x (i - start))) in H'. rewrite testbit_mod_pow2, Z.shiftr_spec, Z.bits_0 in H' by lia.
      rewrite Z.sub_add, testbit_number in H' by (done || lia). destruct (Z.ltb_spec (i - start) (end_ - start)); [done|lia].
    - apply Z.bits_inj'. intros i Hi. rewrite testbit_mod_pow2, Z.shiftr_spec, Z.bits_0, testbit_number by (done || lia).
      destruct (Z.ltb_spec i (end_ - start)); [|done]. rewrite H' by lia. done. }
  pose proof (bo_len b Hb) as Hlen. unfold AllAreClearInRange. destruct (Z.leb_spec start (m_size b)), (Z.leb_spec end_ (m_size b)); try lia.
  cbn [andb]. unfold DoAllAreClearInRange, kBitsPerWord.
  destruct (Z.eqb_spec (start / 64) (end_ / 64)) as [Eq|Nq]; cbn [negb].
  - rewrite load_wd by dlia. cbn [mbind option_bind]. destruct (Z.ltb_spec (64 - end_ mod 64 + start mod 64) 64); [|lia].
    apply eq_of_iff. rewrite Z.eqb_eq, Hspec, middle_clear by (lia || (apply Hok; lia)). split.
    + intros Hc i Hi. split_bit i. unfold wbit. replace (i / 64) with (start / 64) by lia. apply Hc. lia.
    + intros Hc m Hm. rewrite <- wbit_at by lia. apply Hc. lia.
  - assert (Hq : start / 64 < end_ / 64) by lia. rewrite range_words in Hspec by (done || lia).
    assert (Hsw : 0 <= start / 64 < len (m_words b)) by dlia.
    assert (Hew : 0 < end_ mod 64 → 0 <= end_ / 64 < len (m_words b)) by dlia.
    assert (Htail : ∀ first, start / 64 <= first → (first <= start / 64 + 1)%Z → (∀ r : bool, r = true ↔
        (∀ j, first <= j < end_ / 64 → wd (m_words b) j = 0) ∧ clear_from (wd (m_words b) (end_ / 64)) 0 (end_ mod 64) →
        Some r = Some (Z.shiftr (number b) start mod 2 ^ (end_ - start) =? 0)) →
      (ok ← all_words (Z.to_nat (end_ / 64 - first)) first (λ i, w ← load i (m_words b); Some (w =? 0));
       if negb ok then Some false
       else if 0 <? end_ mod 64 then
         w ← load (end_ / 64) (m_words b);
         Some (Z.lor w (not64 (Z.shiftl 1 (end_ mod 64) - 1)) =? not64 (Z.shiftl 1 (end_ mod 64) - 1))
       else Some true) = Some (Z.shiftr (number b) start mod 2 ^ (end_ - start) =? 0)).
    { intros first Hf1 Hf2 Hr. destruct (all_words_ok (λ i, wd (m_words b) i = 0) (λ i, w ← load i (m_words b); Some (w =? 0))
        (Z.to_nat (end_ / 64 - first)) first) as (r & -> & Hall).
      { intros j Hj. rewrite load_wd by (unfold len in *; dlia). cbn [mbind option_bind]. by rewrite eqb_decide. }
      replace (first + Z.of_nat (Z.to_nat (end_ / 64 - first))) with (end_ / 64) in Hall by lia. cbn [mbind option_bind].
      destruct r; cbn [negb].
      - destruct (Z.ltb_spec 0 (end_ mod 64)).
        + rewrite load_wd by auto. cbn [mbind option_bind]. apply Hr. rewrite Z.eqb_eq, mask_clear by (lia || (apply Hok; lia)).
          split; [intros; split; [by apply Hall|done]|by intros [_ ?]].
        + apply Hr. split; [intros _; split; [by apply Hall|]|done]. intros m Hm. lia.
      - apply Hr. split; [done|]. intros [Hz _]. by apply Hall in Hz. }
    destruct (Z.ltb_spec 0 (start mod 64)).
    + rewrite (load_wd _ (start / 64)) by lia. cbn [mbind option_bind]. destruct (Z.eqb_spec (Z.shiftr (wd (m_words b) (start / 64)) (start mod 64)) 0) as [Eh|Nh];
        cbn [negb]; rewrite shiftr_clear in * by (lia || (apply Hok; lia)).
      * apply Htail; [lia|lia|]. intros r Hr. apply eq_of_iff. rewrite Hspec, Hr. split.
        -- intros [Hm Ht]. split_and!; [done| |done]. intros j Hj. apply Hm. lia.
        -- intros (_ & Hm & Ht). split; [|done]. intros j Hj. apply Hm. lia.
      * apply eq_of_iff. rewrite Hspec. split; [done|]. intros [Hh _]. by destruct Nh.
    + cbn [mbind option_bind negb]. apply Htail; [lia|lia|]. intros r Hr. apply eq_of_iff. rewrite Hspec, Hr.
      assert (Ehead : clear_from (wd (m_words b) (start / 64)) (start mod 64) 64 ↔ wd (m_words b) (start / 64) = 0).
      { rewrite <- shiftr_clear by (lia || (apply Hok; lia)). replace (start mod 64) with 0 by lia. by rewrite Z.shiftr_0_r. }
      rewrite Ehead. split.
      * intros [Hm Ht]. split_and!; [apply Hm; lia| |done]. intros j Hj. apply Hm. lia.
      * intros (Hh & Hm & Ht). split; [|done]. intros j Hj. destruct (Z.eq_dec j (start / 64)) as [->|]; [done|]. apply Hm. lia.
Qed.

(** *** Finding bits *)

Lemma ctz_spec w : 0 < w → 0 <= ctz w ∧ Z.testbit w (ctz w) = true ∧ ∀ k, 0 <= k < ctz w → Z.testbit w k = false.
Proof.
  destruct w as [|p|]; [lia| |lia]. intros _. cbn [ctz]. induction p as [p IH|p (Hn & Hb & Hlow)|]; cbn [ctz_pos].
  - split_and!; [done|done|]. intros; lia.
  - change (Zpos (xO p)) with (2 * Zpos p). split_and!; [lia| |].
    + replace (1 + ctz_pos p) with (Z.succ (ctz_pos p)) by lia. by rewrite Z.testbit_even_succ.
    + intros k Hk. destruct (Z.eq_dec k 0) as [->|]; [apply Z.testbit_even_0|]. replace k with (Z.succ (k - 1)) by lia.
      rewrite Z.testbit_even_succ by lia. apply Hlow. lia.
  - split_and!; [done|done|]. intros; lia.
Qed.

(** [r] is the least bit of [v] set from [i] on. *)
Definition least_from (v i : Z) (r : option Z) : Prop :=
  match r with
  | Some j => i <= j ∧ Z.testbit v j = true ∧ ∀ k, i <= k < j → Z.testbit v k = false
  | None => ∀ k, i <= k → Z.testbit v k = false
  end.

Lemma least_skip v i j r : i <= j → (∀ k, i <= k < j → Z.testbit v k = false) → least_from v j r → least_from v i r.
Proof.
  intros Hij Hz. destruct r as [m|]; cbn.
  - intros (Hm & Hb & Hl). split_and!; [lia|done|]. intros k Hk. destruct (Z.lt_ge_cases k j); [apply Hz; lia|apply Hl; lia].
  - intros Hl k Hk. destruct (Z.lt_ge_cases k j); [apply Hz; lia|apply Hl; lia].
Qed.

(** The least bit of one word. *)
Lemma least_word ws j w lo : words_ok ws → 0 <= j → 0 <= lo → word_ok w → w ≠ 0 →
  (∀ m, 0 <= m → Z.testbit w m = ((lo <=? m) && Z.testbit (wd ws j) m)%bool) →
  least_from (bits_value ws) (64 * j + lo) (Some (j * kBitsPerWord + ctz w)).
Proof.
  intros Hok Hj Hlo Hw Hne Hbits. destruct (ctz_spec w) as (Hc & Hb & Hl); [unfold word_ok in Hw; lia|].
  assert (Hc64 : ctz w < 64) by (destruct (Z.lt_ge_cases (ctz w) 64); [done|by rewrite word_ok_bits in Hb]).
  rewrite Hbits in Hb by done. apply andb_true_iff in Hb as [Hb1 Hb2]. bool_to_prop.
  assert (Hat : ∀ m, 0 <= m < 64 → Z.testbit (bits_value ws) (64 * j + m) = Z.testbit (wd ws j) m).
  { intros m Hm. rewrite testbit_value by (done || lia). by apply wbit_at. }
  cbn. unfold kBitsPerWord. replace (j * 64 + ctz w) with (64 * j + ctz w) by lia. split_and!; [lia|by rewrite Hat|].
  intros k Hk. replace k with (64 * j + (k - 64 * j)) by lia. rewrite Hat by lia. specialize (Hl (k - 64 * j)).
  rewrite Hbits in Hl by lia. destruct (Z.leb_spec lo (k - 64 * j)); [|lia]. apply Hl. lia.
Qed.

Lemma word_zero ws j lo : words_ok ws → 0 <= j → 0 <= lo → clear_from (wd ws j) lo 64 →
  ∀ k, 64 * j + lo <= k < 64 * (j + 1) → Z.testbit (bits_value ws) k = false.
Proof.
  intros Hok Hj Hlo Hz k Hk. rewrite testbit_value by (done || lia). replace (k / 64) with j by dlia.
  apply Hz. dlia.
Qed.

Lemma find_word_ok ws : words_ok ws → ∀ fuel i, 0 <= i → len ws - i < Z.of_nat fuel →
  ∃ r, find_word fuel i (len ws) ws = Some r ∧ least_from (bits_value ws) (64 * i) r.
Proof.
  intros Hok. induction fuel as [|fuel IH]; intros i Hi Hf; cbn [find_word]; destruct (Z.ltb_spec i (len ws)); try lia.
  1,3: exists None; split; [done|]; intros k Hk; rewrite testbit_value by (done || lia);
    rewrite wd_outside by dlia; apply Z.bits_0.
  rewrite load_wd by lia. cbn [mbind option_bind]. destruct (Z.eqb_spec (wd ws i) 0) as [E|E]; cbn [negb].
  - destruct (IH (i + 1)) as (r & -> & Hr); [lia..|]. exists r. split; [done|]. eapply least_skip; [| |exact Hr]; [lia|].
    intros k Hk. apply (word_zero ws i 0); [done..| |lia]. intros m _. rewrite E. apply Z.bits_0.
  - eexists. split; [done|]. replace (64 * i) with (64 * i + 0) by lia. apply least_word; [done..|by apply Hok|done|].
    intros m Hm. destruct (Z.leb_spec 0 m); [done|lia].
Qed.

Lemma FindFirst_ok b : bitmap_ok b → ∃ r, FindFirst b = Some r ∧ least_from (number b) 0 r.
Proof. intros Hb. apply (find_word_ok (m_words b)); [apply Hb|done|unfold len; lia]. Qed.

Lemma FindNext_ok b prev : bitmap_ok b → 0 <= prev < 2 ^ 64 - 1 →
  ∃ r, FindNext prev b = Some r ∧ least_from (number b) (prev + 1) r.
Proof.
  intros Hb Hp. pose proof (bo_words b Hb) as Hok. unfold FindNext, DoFindNext, WordSize, WordIndexOfBit, ShiftOfBit, number.
  fold (len (m_words b)). unfold kBitsPerWord. rewrite u64_small by lia. split_bit (prev + 1).
  destruct (Z.leb_spec (len (m_words b) * 64) (prev + 1)).
  { exists None. split; [done|]. intros k Hk. rewrite testbit_value by (done || lia). rewrite wd_outside by dlia. apply Z.bits_0. }
  rewrite load_wd by lia. cbn [mbind option_bind]. set (j := (prev + 1) / 64) in *. set (lo := (prev + 1) mod 64) in *.
  set (w := Z.land _ _). assert (Hbits : ∀ m, 0 <= m → Z.testbit w m = ((lo <=? m) && Z.testbit (wd (m_words b) j) m)%bool).
  { intros m Hm. unfold w. rewrite Z.land_spec, testbit_high_ones by lia. destruct (Z.ltb_spec m 64); [apply andb_comm|].
    rewrite word_ok_bits by first [done | apply Hok; lia]. by destruct (lo <=? m). }
  assert (Ej : prev + 1 = 64 * j + lo) by lia.
  destruct (Z.eqb_spec w 0) as [E|E]; cbn [negb].
  - destruct (find_word_ok (m_words b) Hok (S (length (m_words b))) (j + 1)) as (r & -> & Hr); [lia|unfold len; lia|].
    exists r. split; [done|]. rewrite Ej. eapply least_skip; [| |exact Hr]; [lia|]. apply word_zero; [done|lia..|].
    intros m Hm. specialize (Hbits m). rewrite E, Z.bits_0 in Hbits. destruct (Z.leb_spec lo m); [|lia]. symmetry. apply Hbits. lia.
  - eexists. split; [done|]. rewrite Ej. apply least_word; [done|lia|lia|apply land_ok, Hok; lia|done|done].
Qed.

(** The set bits, from the first on with [FindNext]. *)
Fixpoint rest_bits (fuel : nat) (r : option Z) (b : Bitmap) : option (list Z) :=
  match r with
  | None => Some []
  | Some i =>
      match fuel with
      | O => None
      | S fuel => r ← FindNext i b; l ← rest_bits fuel r b; Some (i :: l)
      end
  end.
Definition set_bits (fuel : nat) (b : Bitmap) : option (list Z) := r ← FindFirst b; rest_bits fuel r b.

Definition bits_from (v size i : Z) : list Z := filter (λ k, Z.testbit v k = true) (seqZ i (size - i)).

Lemma bits_from_least b i r : bitmap_ok b → 0 <= i → least_from (number b) i r →
  bits_from (number b) (m_size b) i = match r with Some j => j :: bits_from (number b) (m_size b) (j + 1) | None => [] end.
Proof.
  intros Hb Hi Hr. unfold bits_from. destruct r as [j|]; cbn in Hr.
  - destruct Hr as (Hij & Hbit & Hlow). assert (Hj : j < m_size b).
    { destruct (Z.lt_ge_cases j (m_size b)); [done|]. by rewrite above_size in Hbit. }
    replace (m_size b - i) with ((j - i) + (m_size b - j)) by lia. rewrite seqZ_app, filter_app by lia.
    rewrite filter_none; [|apply Forall_forall; intros k Hk%elem_of_seqZ; rewrite Hlow by lia; done].
    replace (i + (j - i)) with j by lia. rewrite seqZ_cons, filter_cons by lia. rewrite decide_True by done. cbn.
    do 3 f_equal; lia.
  - apply filter_none, Forall_forall. intros k Hk%elem_of_seqZ. rewrite Hr by lia. done.
Qed.

Lemma rest_bits_ok b fuel r i : bitmap_ok b → 0 <= i → m_size b - i < Z.of_nat fuel → least_from (number b) i r →
  rest_bits fuel r b = Some (bits_from (number b) (m_size b) i).
Proof.
  intros Hb. revert r i. induction fuel as [|fuel IH]; intros r i Hi Hf Hr; rewrite (bits_from_least b i r) by done;
    (destruct r as [j|]; [|done]); cbn in Hr; destruct Hr as (Hij & Hbit & _);
    (assert (Hj : j < m_size b) by (destruct (Z.lt_ge_cases j (m_size b)); [done|by rewrite above_size in Hbit])); [lia|].
  cbn [rest_bits]. pose proof (bo_size b Hb). destruct (FindNext_ok b j Hb) as (r & -> & Hr); [lia|]. cbn [mbind option_bind].
  rewrite (IH r (j + 1)) by (done || lia). done.
Qed.

(** *** Strings *)

Definition digit (x : bool) : Z := if x then chr "1" else chr "0".

(** The lowest [n] bits, the highest of them first. *)
Fixpoint digits (v : Z) (n : nat) : bytes :=
  match n with O => [] | S i => digit (Z.testbit v (Z.of_nat i)) :: digits v i end.

Lemma digits_length v n : length (digits v n) = n.
Proof. induction n; cbn; congruence. Qed.

Lemma digits_eq v v' n : digits v n = digits v' n → ∀ i, 0 <= i < Z.of_nat n → Z.testbit v i = Z.testbit v' i.
Proof.
  induction n as [|n IH]; intros E i Hi; [lia|]. injection E as E1 E2. destruct (Z.eq_dec i (Z.of_nat n)) as [->|].
  - by destruct (Z.testbit v (Z.of_nat n)), (Z.testbit v' (Z.of_nat n)).
  - apply IH; [done|lia].
Qed.

Lemma DoGetAt_ok b i : bitmap_ok b → 0 <= i < m_size b → DoGetAt i (m_words b) = Some (Z.testbit (number b) i).
Proof.
  intros Hb Hi. pose proof (GetAt_ok b i Hb Hi) as E. unfold GetAt, checked in E. destruct (Z.ltb_spec i (m_size b)); [done|lia].
Qed.

Lemma AppendToString_ok b out : bitmap_ok b → AppendToString b out = Some (out ++ digits (number b) (Z.to_nat (m_size b))).
Proof.
  intros Hb. unfold AppendToString. assert (Hn : Z.of_nat (Z.to_nat (m_size b)) <= m_size b) by (pose proof (bo_size b Hb); lia).
  revert Hn out. induction (Z.to_nat (m_size b)) as [|n IH]; intros Hn out; cbn [DoAppendToString digits]; [by rewrite app_nil_r|].
  rewrite DoGetAt_ok by (done || lia). cbn [mbind option_bind]. rewrite IH by lia. by rewrite <- (assoc_L (++)).
Qed.

Definition is_digit (c : Z) : bool := ((c =? chr "1") || (c =? chr "0"))%bool.

Lemma parse_loop_ok rest b : bitmap_ok b → Z.of_nat (length rest) <= m_size b →
  ∃ b', parse_loop rest b = Some (forallb is_digit rest, b') ∧ bitmap_ok b' ∧ m_size b' = m_size b ∧
    (forallb is_digit rest = true → digits (number b') (length rest) = rest) ∧
    ∀ i, Z.of_nat (length rest) <= i → Z.testbit (number b') i = Z.testbit (number b) i.
Proof.
  revert b. induction rest as [|ch rest IH]; intros b Hb Hn; [by exists b|]. cbn [length parse_loop forallb] in *.
  assert (Hstep : ∀ x b1, bitmap_ok b1 → m_size b1 = m_size b → ch = digit x →
    (∀ i, 0 <= i → Z.testbit (number b1) i = if Z.of_nat (length rest) =? i then x else Z.testbit (number b) i) →
    ∃ b', parse_loop rest b1 = Some (forallb is_digit rest, b') ∧ bitmap_ok b' ∧ m_size b' = m_size b ∧
    (forallb is_digit rest = true → digits (number b') (S (length rest)) = ch :: rest) ∧
    ∀ i, Z.of_nat (S (length rest)) <= i → Z.testbit (number b') i = Z.testbit (number b) i).
  { intros x b1 Hb1 Hs -> Hbits. destruct (IH b1) as (b' & E & Hb' & Hs' & Hd & Hrest); [done|lia|].
    exists b'. split_and!; [done|done|congruence| |].
    - intros Hall. cbn [digits]. rewrite Hd, Hrest, Hbits, Z.eqb_refl by (done || lia). done.
    - intros i Hi. rewrite Hrest, Hbits by lia. destruct (Z.eqb_spec (Z.of_nat (length rest)) i); [lia|done]. }
  unfold is_digit at 1 3. destruct (Z.eqb_spec ch (chr "1")) as [E1|N1]; [|destruct (Z.eqb_spec ch (chr "0")) as [E0|N0]]; cbn [orb andb].
  - destruct (SetAt_ok b (Z.of_nat (length rest)) Hb) as (b1 & -> & Hb1 & Hs & Hv); [lia|]. cbn [mbind option_bind].
    apply (Hstep true b1 Hb1 Hs E1). intros i Hi. rewrite Hv, Z.setbit_eqb by lia. by case_ztest.
  - destruct (ClearAt_ok b (Z.of_nat (length rest)) Hb) as (b1 & -> & Hb1 & Hs & Hv); [lia|]. cbn [mbind option_bind].
    apply (Hstep false b1 Hb1 Hs E0). intros i Hi. rewrite Hv, Z.clearbit_eqb by lia.
    case_ztest; [apply andb_false_r|apply andb_true_r].
  - by exists b.
Qed.

(** *** New bitmaps *)

Lemma replicate_wd n x i : wd (replicate n x) i = if (Z.to_nat i <? n)%nat then x else 0.
Proof.
  unfold wd. destruct (Nat.ltb_spec (Z.to_nat i) n); [by rewrite lookup_replicate_2|].
  by rewrite lookup_ge_None_2 by (rewrite length_replicate; lia).
Qed.

Lemma zero_words size : 0 <= size < 2 ^ 63 → bitmap_ok (mkBitmap (new_words size 0) size) ∧ number (mkBitmap (new_words size 0) size) = 0.
Proof.
  intros Hs. assert (Hok : words_ok (new_words size 0)) by (intros i Hi; unfold new_words; rewrite replicate_wd; by case_match).
  assert (E : bits_value (new_words size 0) = 0).
  { apply value_eq; [done|]. intros i Hi. unfold new_words. rewrite replicate_wd, Z.bits_0. case_match; by rewrite Z.bits_0. }
  split; [|done]. split; cbn; [done| |done|].
  - unfold len, new_words. rewrite length_replicate, WordSize_small by done. dlia.
  - intros i Hi. rewrite E. apply Z.bits_0.
Qed.

Lemma zero_bitmap size : 0 <= size < 2 ^ 63 → new_FixedBitmap size = mkBitmap (new_words size 0) size.
Proof. done. Qed.

(** Words of all ones, masked. *)
Lemma ones_words size ws : 0 <= size < 2 ^ 63 → len ws = (size + 63) / 64 → (∀ i, 0 <= i < len ws → wd ws i = kAllSetMask) →
  ∃ ws', MaskOffTailBits size ws = Some ws' ∧ bitmap_ok (mkBitmap ws' size) ∧ number (mkBitmap ws' size) = Z.ones size.
Proof.
  intros Hs Hl Hw. destruct (zero_words size Hs) as [Hz _].
  assert (Hok : words_ok ws).
  { intros i Hi. destruct (Z.lt_ge_cases i (len ws)); [by rewrite Hw by lia|by rewrite wd_outside]. }
  destruct (masked _ ws (Z.ones size) Hz) as (b' & E & Hb' & Hs' & Hv); cbn [m_words m_size] in *.
  - rewrite Hl. symmetry. apply (bo_len _ Hz).
  - done.
  - intros i Hi. split_bit i. unfold wbit. rewrite Hw by dlia. rewrite Z.ones_spec_low by lia.
    change kAllSetMask with (Z.ones 64). apply Z.ones_spec_low. lia.
  - intros i Hi. apply Z.ones_spec_high. lia.
  - destruct (MaskOffTailBits size ws) as [ws'|]; [|done]. injection E as <-. by exists ws'.
Qed.

Definition initial (size : Z) (x : bool) : Z := if x then Z.ones size else 0.

Lemma new_DynamicBitmap_ok size x : 0 <= size < 2 ^ 63 →
  ∃ b, new_DynamicBitmap size x = Some b ∧ bitmap_ok b ∧ m_size b = size ∧ number b = initial size x.
Proof.
  intros Hs. unfold new_DynamicBitmap. destruct x.
  - destruct (ones_words size (new_words size kAllSetMask)) as (ws & E & Hb & Hv); [done| | |].
    + unfold len, new_words. rewrite length_replicate, WordSize_small by done. dlia.
    + intros i Hi. unfold len, new_words in *. rewrite length_replicate in Hi. rewrite replicate_wd.
      destruct (Nat.ltb_spec (Z.to_nat i) (Z.to_nat (WordSizeOfBits size))); [done|lia].
    + rewrite E. by eexists.
  - destruct (zero_words size Hs) as [Hb Hv]. by eexists.
Qed.

Lemma FixedBitmap_of_bool_ok size x garbage : 0 <= size < 2 ^ 63 → len garbage = (size + 63) / 64 →
  ∃ b, FixedBitmap_of_bool size x garbage = Some b ∧ bitmap_ok b ∧ m_size b = size ∧ number b = initial size x.
Proof.
  intros Hs Hl. unfold FixedBitmap_of_bool. destruct x; [|destruct (zero_words size Hs); by eexists].
  unfold DoSetAll. rewrite WordSize_small, <- Hl by done.
  destruct (fill_wd (Z.to_nat (len garbage)) 0 kAllSetMask garbage) as (ws & -> & Hw); [lia|unfold len; lia|]. cbn [mbind option_bind].
  destruct (ones_words size ws) as (ws1 & -> & Hb & Hv); [done|by rewrite (sws_len _ _ _ _ Hw)| |].
  { intros i Hi. rewrite (sws_len _ _ _ _ Hw) in Hi. rewrite (sws_wd _ _ _ _ Hw) by lia. by repeat (case_ztest; try lia). }
  cbn [mbind option_bind]. destruct (masked (mkBitmap ws1 size) ws1 (Z.ones size) Hb) as (b' & E & Hb' & Hs' & Hv');
    [done|apply Hb| |cbn; intros; apply Z.ones_spec_high; lia|].
  { intros i Hi. rewrite <- Hv. symmetry. apply testbit_number; [done|lia]. }
  cbn [m_size] in E. destruct (MaskOffTailBits size ws1) as [ws2|]; [|done]. injection E as <-. by eexists.
Qed.

(** ** Sequences of operations *)

Inductive op :=
  | Op_SetAt (index : Z) | Op_ClearAt (index : Z) | Op_SetAt_value (index : Z) (value : bool)
  | Op_SetAll | Op_ClearAll | Op_LeftShift (shift : Z) | Op_RightShift (shift : Z)
  | Op_AndWith (rhs : Bitmap) | Op_OrWith (rhs : Bitmap) | Op_XorWith (rhs : Bitmap).

Definition run (b : Bitmap) (o : op) : option Bitmap :=
  match o with
  | Op_SetAt i => SetAt i b
  | Op_ClearAt i => ClearAt i b
  | Op_SetAt_value i x => SetAt_value i x b
  | Op_SetAll => SetAll b
  | Op_ClearAll => ClearAll b
  | Op_LeftShift s => LeftShift s b
  | Op_RightShift s => RightShift s b
  | Op_AndWith rhs => AndWith b rhs
  | Op_OrWith rhs => OrWith b rhs
  | Op_XorWith rhs => XorWith b rhs
  end.

(** The operation on numbers of [size] bits. *)
Definition spec (size : Z) (v : Z) (o : op) : Z :=
  match o with
  | Op_SetAt i => Z.setbit v i
  | Op_ClearAt i => Z.clearbit v i
  | Op_SetAt_value i x => if x then Z.setbit v i else Z.clearbit v i
  | Op_SetAll => Z.ones size
  | Op_ClearAll => 0
  | Op_LeftShift s => Z.shiftl v s mod 2 ^ size
  | Op_RightShift s => Z.shiftr v s
  | Op_AndWith rhs => Z.land v (number rhs)
  | Op_OrWith rhs => Z.lor v (number rhs)
  | Op_XorWith rhs => Z.lxor v (number rhs)
  end.

(** What the assertions ask for, and shifts within the words. *)
Definition op_ok (size : Z) (o : op) : Prop :=
  match o with
  | Op_SetAt i | Op_ClearAt i | Op_SetAt_value i _ => 0 <= i < size
  | Op_SetAll | Op_ClearAll => True
  | Op_LeftShift s | Op_RightShift s => shift_ok size s
  | Op_AndWith rhs | Op_OrWith rhs | Op_XorWith rhs => bitmap_ok rhs ∧ m_size rhs = size
  end.

Lemma run_ok b o : bitmap_ok b → op_ok (m_size b) o → becomes b (run b o) (spec (m_size b) (number b) o).
Proof.
  intros Hb. destruct o; cbn [op_ok run spec].
  - by apply SetAt_ok.
  - by apply ClearAt_ok.
  - by apply SetAt_value_ok.
  - intros _. by apply SetAll_ok.
  - intros _. by apply ClearAll_ok.
  - by apply LeftShift_ok.
  - by apply RightShift_ok.
  - intros [? ?]. by apply AndWith_ok.
  - intros [? ?]. by apply OrWith_ok.
  - intros [? ?]. by apply XorWith_ok.
Qed.

Fixpoint runs (b : Bitmap) (ops : list op) : option Bitmap :=
  match ops with [] => Some b | o :: ops => b ← run b o; runs b ops end.

Lemma runs_ok ops b : bitmap_ok b → Forall (op_ok (m_size b)) ops →
  becomes b (runs b ops) (fold_left (spec (m_size b)) ops (number b)).
Proof.
  revert b. induction ops as [|o ops IH]; intros b Hb Hops; [by exists b|]. apply Forall_cons in Hops as [Ho Hops].
  cbn [runs fold_left]. destruct (run_ok b o Hb Ho) as (b1 & -> & Hb1 & Hs1 & <-). cbn [mbind option_bind].
  rewrite <- Hs1 in Hops |- *. destruct (IH b1 Hb1 Hops) as (b2 & E & Hb2 & Hs2 & Hv2). exists b2. split_and!; congruence.
Qed.

(** ** The theorems *)


(** The bits of a bitmap are found one after another.  FindFirst and then
    FindNext from each bit found end after at most the size plus one calls and
    give the places of the set bits, each once and in order. *)
Theorem find_bits_in_order b fuel : bitmap_ok b → m_size b < Z.of_nat fuel →
  set_bits fuel b = Some (filter (λ k, Z.testbit (number b) k = true) (seqZ 0 (m_size b))).
Proof.
  intros Hb Hf. unfold set_bits. destruct (FindFirst_ok b Hb) as (r & -> & Hr). cbn [mbind option_bind].
  rewrite (rest_bits_ok b fuel r 0) by (done || lia). unfold bits_from. by rewrite Z.sub_0_r.
Qed.

(** Bitmaps and their 01 strings.  A string of 0 and 1 makes a dynamic or
    fixed bitmap that prints as the string; any other string throws.  What a
    bitmap prints as has its size, and a bitmap of the same size that parses
    it becomes equal to it. *)
Theorem bitmap_string_roundtrip s index_bits : 0 <= index_bits <= 63 → Z.of_nat (length s) < 2 ^ index_bits →
  match DynamicBitmap_of_string index_bits s with
  | Some b => forallb is_digit s = true ∧ m_size b = Z.of_nat (length s) ∧ ToString b = Some s ∧
      InitializeWithString s (Z.of_nat (length s)) = Some b
  | None => forallb is_digit s = false ∧ InitializeWithString s (Z.of_nat (length s)) = None
  end ∧
  ∀ b b', bitmap_ok b → bitmap_ok b' → m_size b' = m_size b → ∃ t b2, ToString b = Some t ∧
    Z.of_nat (length t) = m_size b ∧ ParseFromString t b' = Some (true, b2) ∧ m_size b2 = m_size b ∧ number b2 = number b.
Proof.
  intros Hib Hl. assert (Hs : 0 <= Z.of_nat (length s) < 2 ^ 63).
  { split; [lia|]. eapply Z.lt_le_trans; [exact Hl|]. apply Z.pow_le_mono_r; lia. }
  split.
  - destruct (zero_words _ Hs) as [Hb Hv]. unfold DynamicBitmap_of_string, InitializeWithString. rewrite (Z.mod_small (Z.of_nat _)), zero_bitmap by (done || lia).
    unfold ParseFromString. cbn [m_size]. rewrite Z.eqb_refl. cbn [negb].
    destruct (parse_loop_ok s _ Hb) as (b' & E & Hb' & Hs' & Hd & _); [done|]. rewrite E. cbn [parsed mbind option_bind].
    destruct (forallb is_digit s); [|done]. split_and!; [done|done| |done]. unfold ToString.
    rewrite AppendToString_ok, Hs' by done. cbn [m_size]. rewrite Nat2Z.id. by rewrite Hd.
  - clear. intros b b' Hb Hb' Hs. pose proof (bo_size b Hb). unfold ToString. rewrite AppendToString_ok by done. cbn [app].
    set (t := digits _ _). assert (Ht : Z.of_nat (length t) = m_size b) by (unfold t; rewrite digits_length; lia).
    assert (Hall : forallb is_digit t = true).
    { unfold t. generalize (Z.to_nat (m_size b)). clear. intros n. induction n; [done|]. cbn [digits forallb]. rewrite IHn. by destruct (Z.testbit _ _). }
    destruct (parse_loop_ok t b' Hb') as (b2 & E & Hb2 & Hs2 & Hd & _); [lia|]. exists t, b2. unfold ParseFromString. rewrite Hs, Ht, Z.eqb_refl.
    cbn [negb]. rewrite E, Hall. split_and!; [done|done|done|congruence|]. specialize (Hd Hall).
    apply Z.bits_inj'. intros i Hi. destruct (Z.lt_ge_cases i (m_size b)).
    + apply (digits_eq _ _ (length t)); [|lia]. rewrite Hd. unfold t. by rewrite digits_length.
    + rewrite !above_size by (done || congruence). done.
Qed.

(** ** Concrete bitmaps *)

Definition demo_ops : list op := [Op_SetAt 3; Op_SetAt 65; Op_LeftShift 61; Op_RightShift 62; Op_SetAt_value 69 true; Op_ClearAt 1].


Definition demo_bitmap : Bitmap := mkBitmap [5; 32] 70.

Lemma demo_bitmap_ok : bitmap_ok demo_bitmap.
Proof.
  split; cbn; [lia|reflexivity| |].
  - unfold demo_bitmap. cbn. apply words_ok_cons. split; [done|]. apply words_ok_cons. split; [done|]. by intros i Hi.
  - intros i Hi. apply (testbit_high _ 70); [cbn; lia|done].
Qed.

Example find_bits_in_order_witness : set_bits 71 demo_bitmap = Some [0; 2; 69].
Proof.
  rewrite (find_bits_in_order demo_bitmap 71 demo_bitmap_ok) by (cbn; lia). vm_compute. reflexivity.
Defined.

Example bitmap_string_roundtrip_witness :
  (b ← DynamicBitmap_of_string 32 (str "100101"); ToString b) = Some (str "100101") ∧
  DynamicBitmap_of_string 32 (str "1x") = None.
Proof.
  split.
  - destruct (bitmap_string_roundtrip (str "100101") 32) as [H _]; [lia|reflexivity|].
    destruct (DynamicBitmap_of_string 32 (str "100101")) as [b|]; [apply H|]. destruct H as [H _]. discriminate H.
  - destruct (bitmap_string_roundtrip (str "1x") 32) as [H _]; [lia|reflexivity|].
    destruct (DynamicBitmap_of_string 32 (str "1x")) as [b|]; [|reflexivity]. destruct H as [H _]. discriminate H.
Defined.

(** *** Resizing *)

(** Growing keeps the number. *)
Lemma Resize_grow b size : bitmap_ok b → m_size b <= size < 2 ^ 63 →
  bitmap_ok (Resize size b) ∧ number (Resize size b) = number b.
Proof.
  intros Hb Hs. pose proof (bo_size b Hb). pose proof (bo_len b Hb) as Hl. unfold Resize. rewrite WordSize_small by lia.
  set (n := Z.to_nat ((size + 63) / 64)). assert (Hn : (length (m_words b) <= n)%nat) by (unfold n, len in *; dlia).
  rewrite take_ge by done. set (ws := _ ++ _).
  assert (Hwd : ∀ i, 0 <= i → wd ws i = wd (m_words b) i).
  { intros i Hi. unfold ws, wd. destruct (Nat.lt_ge_cases (Z.to_nat i) (length (m_words b))).
    - by rewrite lookup_app_l.
    - rewrite lookup_app_r, (lookup_ge_None_2 (m_words b)) by done. by destruct (replicate _ _ !! _) eqn:E; [apply lookup_replicate in E as [-> _]|]. }
  assert (Hok : words_ok ws) by (intros i Hi; rewrite Hwd by done; by apply (bo_words b Hb)).
  assert (E : bits_value ws = number b).
  { apply value_eq; [done|]. intros i Hi. rewrite Hwd by (apply Z.div_pos; lia). by apply testbit_number. }
  split; [|done]. split; cbn; [lia| |done|].
  - unfold ws, len. rewrite length_app, length_replicate. unfold n, len in *. dlia.
  - intros i Hi. rewrite E. apply above_size; [done|lia].
Qed.

(** Shrinking does not clear the bits cut off in the last word: they are found
    by [FindFirst] and come back when the bitmap grows again. *)
Example Resize_shrink_keeps_bits :
  FindNext 0 (Resize 2 demo_bitmap) = Some (Some 2) ∧ GetAt 2 (Resize 3 (Resize 2 demo_bitmap)) = Some true.
Proof. by vm_compute. Qed.
