(* ===== verification/Shell.v ===== *)
(** * Shell quoting and command lines

    Model of encoding/shell.cpp: quoting, escaping and their inverses, and the
    splitting and joining of command lines.  An iterator is the list of the
    characters from it to the end.  [None] is undefined behaviour: reading at
    the end of a string, or a character that was not set.  [isspace] is that
    of the "C" locale. *)

From S2P Require Import Prelude CType.

Definition chr_in (c : Z) (s : bytes) : bool := existsb (Z.eqb c) s.

(** The characters a string with must be quoted: quotes, blanks and signs of the shell. *)
Definition quote_need_set : bytes := [39; 34; 32; 9; 38; 62; 60; 35; 33].
Definition ShellIsQuoteNeed (s : bytes) : bool := existsb (λ c, chr_in c quote_need_set) s.

Definition backslash : Z := 92.
Definition double_quote : Z := 34.
Definition single_quote : Z := 39.

Definition ShellQuote (s : bytes) (quote_char : Z) : bytes :=
  [quote_char] ++ (s ≫= λ c, if c =? quote_char then [backslash; c] else [c]) ++ [quote_char].

Definition ShellQuoteIfNeed (s : bytes) (quote_char : Z) : bytes :=
  if ShellIsQuoteNeed s then ShellQuote s quote_char else s.

Definition is_quote (c : Z) : bool := ((c =? double_quote) || (c =? single_quote))%bool.

(** The loop; [quote_char] is 0 outside quotes.  In quotes a backslash before
    a quote stands for it, any other is dropped; outside it stays. *)
Fixpoint unquote_loop (s : bytes) (quote_char : Z) (result : bytes) : bool * bytes :=
  match s with
  | [] => (quote_char =? 0, result)
  | c :: s =>
      if is_quote c then
        if quote_char =? c then unquote_loop s 0 result
        else if quote_char =? 0 then unquote_loop s c result
        else unquote_loop s quote_char (result ++ [c])
      else if c =? backslash then
        if negb (quote_char =? 0) then
          match s with
          | [] => unquote_loop s quote_char (result ++ [c])
          | q :: s' =>
              if is_quote q then unquote_loop s' quote_char (result ++ [q]) else unquote_loop s quote_char result
          end
        else unquote_loop s quote_char (result ++ [c])
      else unquote_loop s quote_char (result ++ [c])
  end.
Definition ShellUnquote (s : bytes) : bool * bytes := unquote_loop s 0 [].

(** The characters with an escape of their own, and those a backslash goes
    before. *)
Definition escape_char (c : Z) : bytes :=
  if c =? 7 then str "\a" else if c =? 8 then str "\b" else if c =? 12 then str "\f"
  else if c =? 10 then str "\n" else if c =? 13 then str "\r" else if c =? 9 then str "\t"
  else if c =? 11 then str "\v"
  else if chr_in c (str " !#$&()*,:;?@[\]`{}" ++ [double_quote]) then [backslash; c]
  else [c].
Definition ShellEscape (s : bytes) : bytes := s ≫= escape_char.

(** The test for lower case letters only has 'a'. *)
Definition DecodeHex (c : Z) : Z :=
  if in_range (chr "0") (chr "9") c then c - chr "0"
  else if in_range (chr "A") (chr "F") c then c - chr "A" + 10
  else if in_range (chr "a") (chr "a") c then c - chr "a" + 10
  else -1.

Definition simple_escapes : list (Z * Z) :=
  [(chr "a", 7); (chr "b", 8); (chr "e", 27); (chr "E", 27); (chr "f", 12); (chr "n", 10); (chr "r", 13); (chr "t", 9);
   (chr "v", 11); (backslash, backslash)].

(** The character, when it is set, and how many were read. *)
Definition UnescapeChar (pos : bytes) : option (option Z * nat) :=
  match pos with
  | [] => Some (None, 0%nat)
  | e :: p =>
      match list_find (λ x, x.1 = e) simple_escapes with
      | Some (_, (_, c)) => Some (Some c, 1%nat)
      | None =>
          if ((e =? chr "x") || (e =? chr "X"))%bool then
            match p with
            | [] => Some (None, 1%nat)
            | h :: p =>
                let n := DecodeHex h in
                if 0 <? n then
                  match p with
                  | [] => Some (Some n, 2%nat)
                  | h2 :: _ =>
                      let d := DecodeHex h2 in
                      if 0 <? d then Some (Some (u8 (Z.shiftl n 4 + d)), 3%nat) else Some (Some n, 2%nat)
                  end
                else Some (None, 1%nat)
            end
          else if in_range (chr "0") (chr "7") e then
            let n := e - chr "0" in
            match p with
            | [] => None
            | d :: p =>
                if isdigit d then
                  let n := u8 (Z.shiftl n 3 + (d - chr "0")) in
                  match p with
                  | [] => None
                  | d :: _ => Some (Some (if isdigit d then u8 (Z.shiftl n 3 + (d - chr "0")) else n), 2%nat)
                  end
                else Some (Some n, 1%nat)
            end
          else Some (None, 0%nat)
      end
  end.

(** [UnescapeChar] and what both of its callers do with a positive size: the
    character is used. *)
Definition unescaped (pos : bytes) : option (option (Z * bytes)) :=
  '(c, size) ← UnescapeChar pos;
  if (0 <? size)%nat then c ← c; Some (Some (c, drop size pos)) else Some None.

(** The loop; the string it appends to is not cleared. *)
Fixpoint unescape_loop (fuel : nat) (pos : bytes) (result : bytes) : option bytes :=
  match pos with
  | [] => Some result
  | c :: pos =>
      match fuel with
      | O => None
      | S fuel =>
          if c =? backslash then
            e ← unescaped pos;
            match e with
            | Some (e, pos) => unescape_loop fuel pos (result ++ [e])
            | None => match pos with [] => None | e :: pos => unescape_loop fuel pos (result ++ [e]) end
            end
          else unescape_loop fuel pos (result ++ [c])
      end
  end.
Definition ShellUnescape (s result : bytes) : option bytes := unescape_loop (length s) s result.

(** The rest of the characters and the argument. *)
Definition UnescapeCharToArg (pos : bytes) (in_quote : bool) (arg : bytes) : option (bytes * bytes) :=
  e ← unescaped pos;
  match e with
  | Some (e, pos) => Some (pos, arg ++ [e])
  | None =>
      let arg := if in_quote then arg ++ [backslash] else arg in
      match pos with [] => None | e :: pos => Some (pos, arg ++ [e]) end
  end.

(** The loop of [SplitCommandLine] with its state, 0, 'a', ' ' or a quote. *)
Fixpoint split_loop (fuel : nat) (pos : bytes) (state : Z) (arg : bytes) (args : list bytes) : option (Z * bytes * list bytes) :=
  match pos with
  | [] => Some (state, arg, args)
  | c :: pos =>
      match fuel with
      | O => None
      | S fuel =>
          if ((state =? 0) || (state =? chr "a"))%bool then
            if is_quote c then split_loop fuel pos c arg args
            else if c =? backslash then
              '(pos, arg) ← UnescapeCharToArg pos false arg;
              split_loop fuel pos state arg args
            else if isspace c then
              if negb (state =? 0) then split_loop fuel pos (chr " ") [] (args ++ [arg])
              else split_loop fuel pos (chr " ") arg args
            else split_loop fuel pos (chr "a") (arg ++ [c]) args
          else if is_quote state then
            if state =? c then split_loop fuel pos (chr "a") arg args
            else if c =? backslash then
              '(pos, arg) ← UnescapeCharToArg pos true arg;
              split_loop fuel pos state arg args
            else split_loop fuel pos state (arg ++ [c]) args
          else
            if is_quote c then split_loop fuel pos c arg args
            else if c =? backslash then
              '(pos, arg) ← UnescapeCharToArg pos false arg;
              split_loop fuel pos (chr "a") arg args
            else if negb (isspace c) then split_loop fuel pos (chr "a") (arg ++ [c]) args
            else split_loop fuel pos state arg args
      end
  end.

Definition SplitCommandLine (command : bytes) : option (bool * list bytes) :=
  '(state, arg, args) ← split_loop (length command) command 0 [] [];
  Some (if is_quote state then (false, args) else (true, if state =? chr "a" then args ++ [arg] else args)).

Fixpoint join_loop (first : bool) (args : list bytes) (result : bytes) : bytes :=
  match args with
  | [] => result
  | arg :: args =>
      join_loop false args ((if first then result else result ++ [chr " "]) ++ ShellQuoteIfNeed arg double_quote)
  end.
Definition JoinCommandLine (args : list bytes) : bytes := join_loop true args [].

(** ** Escaping *)

Lemma unescape_step c fuel rest result : (length (escape_char c ++ rest) <= fuel)%nat → ∃ fuel',
  (length rest <= fuel')%nat ∧
  unescape_loop fuel (escape_char c ++ rest) result = unescape_loop fuel' rest (result ++ [c]).
Proof.
  intros Hf. rewrite length_app in Hf. exists (fuel - 1)%nat. unfold escape_char in *.
  repeat (match goal with |- context [if c =? ?v then _ else _] =>
    destruct (Z.eqb_spec c v) as [->|?]; [cbn in Hf; destruct fuel; [lia|]; split; [lia|by rewrite Nat.sub_1_r]|] end).
  match goal with |- context [chr_in c ?l] => destruct (chr_in c l) eqn:E end; cbn in Hf; (destruct fuel as [|fuel]; [lia|]);
    (split; [lia|]); rewrite Nat.sub_1_r; cbn [Nat.pred].
  - apply existsb_exists in E as (d & Hd & ->%Z.eqb_eq). cbn in Hd. by repeat (destruct Hd as [<-|Hd]; [reflexivity|]).
  - cbn. destruct (Z.eqb_spec c backslash) as [->|]; [done|]. done.
Qed.

Lemma unescape_loop_escape s fuel result : (length (ShellEscape s) <= fuel)%nat →
  unescape_loop fuel (ShellEscape s) result = Some (result ++ s).
Proof.
  revert fuel result. induction s as [|c s IH]; intros fuel result Hf; [by destruct fuel; cbn; rewrite app_nil_r|].
  unfold ShellEscape in *. rewrite bind_cons in *. destruct (unescape_step c fuel _ result Hf) as (fuel' & Hf' & ->).
  rewrite IH by done. by rewrite <- (assoc_L (++)).
Qed.

(** ** Quoting *)

Lemma is_quote_iff c : is_quote c = true ↔ c = double_quote ∨ c = single_quote.
Proof. unfold is_quote. rewrite orb_true_iff, !Z.eqb_eq. done. Qed.

Lemma quote_facts q : is_quote q = true → q ≠ 0 ∧ q ≠ backslash ∧ isspace q = false.
Proof. intros [-> | ->]%is_quote_iff; by vm_compute. Qed.

Lemma unquote_quoted q s rest result : is_quote q = true → backslash ∉ s →
  unquote_loop ((s ≫= λ c, if c =? q then [backslash; c] else [c]) ++ rest) q result = unquote_loop rest q (result ++ s).
Proof.
  intros Hq. destruct (quote_facts q Hq) as (Hq0 & Hqb & _). revert result. induction s as [|c s IH]; intros result Hs; [by rewrite app_nil_r|].
  apply not_elem_of_cons in Hs as [Hc Hs]. rewrite bind_cons, <- (assoc_L (++)).
  replace (result ++ c :: s) with ((result ++ [c]) ++ s) by (by rewrite <- (assoc_L (++))). rewrite <- IH by done.
  destruct (Z.eqb_spec c q) as [->|Hne]; cbn [app unquote_loop].
  - replace (is_quote backslash) with false by done. rewrite Z.eqb_refl, Hq. by destruct (Z.eqb_spec q 0).
  - destruct (is_quote c).
    + destruct (Z.eqb_spec q c); [congruence|]. by destruct (Z.eqb_spec q 0).
    + destruct (Z.eqb_spec c backslash); congruence.
Qed.

Lemma ShellUnquote_quote q s : is_quote q = true → backslash ∉ s → ShellUnquote (ShellQuote s q) = (true, s).
Proof.
  intros Hq Hs. destruct (quote_facts q Hq) as (Hq0 & _). unfold ShellUnquote, ShellQuote. cbn [app unquote_loop]. rewrite Hq.
  destruct (Z.eqb_spec 0 q); [congruence|]. cbn [Z.eqb]. rewrite unquote_quoted by done. cbn [app unquote_loop].
  by rewrite Hq, Z.eqb_refl.
Qed.

Lemma ShellUnquote_plain s : ShellIsQuoteNeed s = false → ShellUnquote s = (true, s).
Proof.
  unfold ShellUnquote. intros Hs. change s with ([] ++ s) at 2. generalize (@nil Z). induction s as [|c s IH]; intros result; cbn; [by rewrite app_nil_r|].
  cbn in Hs. apply orb_false_iff in Hs as [Hc Hs]. assert (Hnq : is_quote c = false).
  { unfold is_quote. apply not_true_iff_false. intros [->%Z.eqb_eq| ->%Z.eqb_eq]%orb_true_iff; by vm_compute in Hc. }
  rewrite Hnq. destruct (c =? backslash); (rewrite IH by done; by rewrite <- (assoc_L (++))).
Qed.

(** ** Command lines *)

(** Arguments that survive: not empty, without backslashes and double quotes,
    and quoted when they have a space. *)
Definition plain_arg (a : bytes) : Prop :=
  a ≠ [] ∧ backslash ∉ a ∧ double_quote ∉ a ∧ (ShellIsQuoteNeed a = true ∨ Forall (λ c, isspace c = false) a).

(** The state between arguments, or in one. *)
Definition outside (state : Z) : Prop := state = 0 ∨ state = chr "a" ∨ state = chr " ".

Lemma split_char c fuel rest state arg args : outside state → is_quote c = false → c ≠ backslash → isspace c = false →
  split_loop (S fuel) (c :: rest) state arg args = split_loop fuel rest (chr "a") (arg ++ [c]) args.
Proof.
  intros Hst Hq Hb Hs. cbn [split_loop]. rewrite Hq, Hs. destruct (Z.eqb_spec c backslash); [done|].
  by destruct Hst as [->|[->| ->]].
Qed.

Lemma split_run a fuel rest state arg args : outside state → a ≠ [] → backslash ∉ a → ShellIsQuoteNeed a = false →
  Forall (λ c, isspace c = false) a → (length a <= fuel)%nat →
  split_loop fuel (a ++ rest) state arg args = split_loop (fuel - length a) rest (chr "a") (arg ++ a) args.
Proof.
  intros Hst Hne. revert fuel state arg Hst Hne. induction a as [|c a IH]; [done|].
  intros fuel state arg Hst _ Hb Hq Hs Hf. cbn in Hf. destruct fuel as [|fuel]; [lia|].
  apply not_elem_of_cons in Hb as [Hcb Hb]. apply Forall_cons in Hs as [Hcs Hs]. cbn in Hq. apply orb_false_iff in Hq as [Hcq Hq].
  assert (Hnq : is_quote c = false).
  { unfold is_quote. apply not_true_iff_false. intros [->%Z.eqb_eq| ->%Z.eqb_eq]%orb_true_iff; by vm_compute in Hcq. }
  cbn [app length Nat.sub]. rewrite split_char by done. destruct (decide (a = [])) as [->|Ha]; [by rewrite Nat.sub_0_r|].
  rewrite IH; [by rewrite <- (assoc_L (++))|right; by left|done..|lia].
Qed.

Lemma split_in_quotes a fuel rest arg args : backslash ∉ a → double_quote ∉ a → (length a <= fuel)%nat →
  split_loop fuel (a ++ rest) double_quote arg args = split_loop (fuel - length a) rest double_quote (arg ++ a) args.
Proof.
  revert fuel arg. induction a as [|c a IH]; intros fuel arg Hb Hq Hf; [by rewrite Nat.sub_0_r, app_nil_r|].
  cbn in Hf. destruct fuel as [|fuel]; [lia|]. apply not_elem_of_cons in Hb as [Hcb Hb]. apply not_elem_of_cons in Hq as [Hcq Hq].
  cbn [app length Nat.sub split_loop]. change ((double_quote =? 0) || (double_quote =? chr "a"))%bool with false.
  change (is_quote double_quote) with true. destruct (Z.eqb_spec double_quote c); [done|]. destruct (Z.eqb_spec c backslash); [congruence|].
  rewrite IH by (done || lia). by rewrite <- (assoc_L (++)).
Qed.

Lemma quote_no_escape a : double_quote ∉ a → ShellQuote a double_quote = [double_quote] ++ a ++ [double_quote].
Proof.
  intros Ha. unfold ShellQuote. do 2 f_equal. induction a as [|c a IH]; [done|]. apply not_elem_of_cons in Ha as [Hc Ha].
  rewrite bind_cons, IH by done. by destruct (Z.eqb_spec c double_quote).
Qed.

(** One argument, quoted if need be, is read to its end. *)
Lemma split_arg a fuel rest state args : plain_arg a → outside state → (length (ShellQuoteIfNeed a double_quote) <= fuel)%nat →
  split_loop fuel (ShellQuoteIfNeed a double_quote ++ rest) state [] args =
  split_loop (fuel - length (ShellQuoteIfNeed a double_quote)) rest (chr "a") a args.
Proof.
  intros (Hne & Hb & Hd & Hs) Hst. unfold ShellQuoteIfNeed. destruct (ShellIsQuoteNeed a) eqn:Eq; intros Hf.
  - rewrite quote_no_escape in * by done. rewrite !length_app in *. cbn [length] in *. rewrite <- !(assoc_L (++)).
    destruct fuel as [|fuel]; [lia|].
    assert (E : split_loop (S fuel) ([double_quote] ++ a ++ [double_quote] ++ rest) state [] args =
      split_loop fuel (a ++ [double_quote] ++ rest) double_quote [] args) by (by destruct Hst as [->|[->| ->]]).
    rewrite E, split_in_quotes by (done || lia). cbn [app]. destruct (fuel - length a)%nat as [|f] eqn:Ef; [lia|].
    transitivity (split_loop f rest (chr "a") a args); [reflexivity|]. f_equal. lia.
  - destruct Hs as [?|Hs]; [done|]. apply (split_run a); done || lia.
Qed.

Lemma join_loop_app first args result : join_loop first args result = result ++ join_loop first args [].
Proof.
  revert first result. induction args as [|a args IH]; intros first result; cbn [join_loop]; [by rewrite app_nil_r|].
  rewrite IH, (IH false ((if first then [] else _) ++ _)). destruct first; by rewrite <- !(assoc_L (++)).
Qed.

Lemma join_loop_cons a args :
  join_loop false (a :: args) [] = [chr " "] ++ ShellQuoteIfNeed a double_quote ++ join_loop false args [].
Proof. cbn [join_loop]. by rewrite join_loop_app, <- (assoc_L (++)). Qed.

Lemma split_joined args : Forall plain_arg args → ∀ fuel prev arg, (length (join_loop false args []) <= fuel)%nat →
  ∃ arg' prev', split_loop fuel (join_loop false args []) (chr "a") arg prev = Some (chr "a", arg', prev') ∧
    prev' ++ [arg'] = prev ++ [arg] ++ args.
Proof.
  induction 1 as [|a args Ha Hargs IH]; intros fuel prev arg Hf; [by destruct fuel; exists arg, prev|].
  rewrite join_loop_cons, !length_app in *. cbn [length] in Hf. destruct fuel as [|fuel]; [lia|].
  assert (E : split_loop (S fuel) ([chr " "] ++ ShellQuoteIfNeed a double_quote ++ join_loop false args []) (chr "a") arg prev =
    split_loop fuel (ShellQuoteIfNeed a double_quote ++ join_loop false args []) (chr " ") [] (prev ++ [arg])) by done.
  rewrite E, split_arg by (done || lia || (right; by right)).
  destruct (IH (fuel - length (ShellQuoteIfNeed a double_quote))%nat (prev ++ [arg]) a) as (arg' & prev' & -> & Hall); [lia|].
  exists arg', prev'. split; [done|]. by rewrite Hall, <- !(assoc_L (++)).
Qed.

(** ** The theorems *)

(** Escaping, quoting and command lines.  What ShellEscape makes of any
    string, also one with control characters, backslashes or NULs,
    ShellUnescape reads without undefined behaviour and appends the string to
    what was there.  A string without backslashes is quoted, with either quote
    and whether or not it needs it, so that ShellUnquote gives it back.
    Arguments without backslashes and double quotes, not empty and without a
    space that does not ask for quoting, are what SplitCommandLine finds in
    what JoinCommandLine made of them. *)
Theorem shell_roundtrips q s args : is_quote q = true → backslash ∉ s → Forall plain_arg args →
  (∀ t result, ShellUnescape (ShellEscape t) result = Some (result ++ t)) ∧
  ShellUnquote (ShellQuote s q) = (true, s) ∧ ShellUnquote (ShellQuoteIfNeed s q) = (true, s) ∧
  SplitCommandLine (JoinCommandLine args) = Some (true, args).
Proof.
  intros Hq Hs Hargs. split_and!; [intros; by apply unescape_loop_escape|by apply ShellUnquote_quote| |].
  - unfold ShellQuoteIfNeed. destruct (ShellIsQuoteNeed s) eqn:E; [by apply ShellUnquote_quote|by apply ShellUnquote_plain].
  - unfold SplitCommandLine, JoinCommandLine. destruct Hargs as [|a args Ha Hargs]; [done|]. cbn [join_loop app].
    rewrite join_loop_app, length_app, split_arg by (done || lia || by left).
    destruct (split_joined args Hargs (length (ShellQuoteIfNeed a double_quote) + length (join_loop false args []) - length (ShellQuoteIfNeed a double_quote))%nat [] a)
      as (arg' & prev' & -> & Hall); [lia|]. cbn [mbind option_bind]. cbn [app] in Hall. rewrite <- Hall. done.
Qed.

Example shell_roundtrips_witness :
  ShellUnquote (ShellQuote (str "it's") 39) = (true, str "it's") ∧
  SplitCommandLine (JoinCommandLine [str "cp"; str "a file"; str "b'"]) = Some (true, [str "cp"; str "a file"; str "b'"]).
Proof.
  destruct (shell_roundtrips 39 (str "it's") [str "cp"; str "a file"; str "b'"]) as (_ & H1 & _ & H2).
  - reflexivity.
  - apply (bool_decide_unpack _). vm_compute. exact I.
  - assert (Hin : ∀ (c : Z) (a : bytes), bool_decide (c ∈ a) = false → c ∉ a) by (intros c a; apply bool_decide_eq_false_1).
    repeat constructor; try discriminate; try (apply Hin; vm_compute; reflexivity); try (left; reflexivity);
      right; repeat constructor.
  - split; [exact H1|exact H2].
Defined.

(** Not every command line comes back: a backslash or a double quote in an
    argument does not, and an argument that is only an escaped character is
    lost. *)
Example backslash_argument : SplitCommandLine (JoinCommandLine [str "a\nb"]) = Some (true, [[97; 10; 98]]).
Proof. vm_compute. reflexivity. Qed.
Example quote_argument : SplitCommandLine (JoinCommandLine [[97; double_quote]]) = Some (true, [[97; backslash; double_quote]]).
Proof. vm_compute. reflexivity. Qed.
Example escaped_argument : SplitCommandLine (str "\x41") = Some (true, []).
Proof. vm_compute. reflexivity. Qed.
(** The third digit of an octal escape is used and read again. *)
Example octal_digit : ShellUnescape (str "\101b") [] = Some (str "A1b").
Proof. vm_compute. reflexivity. Qed.
