(* ===== verification/Divisor.v ===== *)
(** * Division by invariant divisors

    Model of base/uint32_divisor.h and uint32_divisor.cpp: dividing 32-bit
    numbers by a fixed divisor with a multiplication and shifts.  The theorem
    is that this is division, for every divisor and dividend. *)

From S2P Require Import Prelude.

Inductive Algorithm :=
  | Algorithm_MultipleShift
  | Algorithm_MultipleAddShift
  | Algorithm_Shift
  | Algorithm_Compare
  | Algorithm_Invalid.

Record UInt32Divisor := mkDivisor {
  m_divisor : Z;
  m_algorithm : Algorithm;
  m_multiplier : Z;
  m_shift : Z
}.

Definition new_UInt32Divisor : UInt32Divisor := mkDivisor 0 Algorithm_Invalid 0 0.

(** A shift by 32 or more, or the assertion, is [None]. *)
Definition shr32 (x n : Z) : option Z := if n <? 32 then Some (Z.shiftr x n) else None.

Definition Divide (dividend : Z) (o : UInt32Divisor) : option Z :=
  match m_algorithm o with
  | Algorithm_MultipleShift =>
      let product := u64 (dividend * m_multiplier o) in
      let high := u32 (Z.shiftr product 32) in
      shr32 high (m_shift o)
  | Algorithm_MultipleAddShift =>
      let product := u64 (dividend * m_multiplier o) in
      let high := u32 (Z.shiftr product 32) in
      let low := u32 product in
      let high := if u32 (low + m_multiplier o) <? low then u32 (high + 1) else high in
      shr32 high (m_shift o)
  | Algorithm_Shift => shr32 dividend (m_shift o)
  | Algorithm_Compare => Some (if m_divisor o <=? dividend then 1 else 0)
  | Algorithm_Invalid => None
  end.

Definition Divide_remainder (dividend : Z) (o : UInt32Divisor) : option (Z * Z) :=
  quotient ← Divide dividend o;
  Some (quotient, u32 (dividend - u32 (quotient * m_divisor o))).

Definition Modulu (dividend : Z) (o : UInt32Divisor) : option Z :=
  quotient ← Divide dividend o; Some (u32 (dividend - u32 (quotient * m_divisor o))).

(** The loops; 32 rounds shift every bit of a number out. *)
Fixpoint log2_loop (fuel : nat) (i t : Z) : Z :=
  match fuel with O => t | S fuel => if i =? 0 then t else log2_loop fuel (Z.shiftr i 1) (u32 (t + 1)) end.
Definition log2 (i : Z) : Z := log2_loop 32 (Z.shiftr i 1) 0.

(** [while (!(t & 1))], counting. *)
Fixpoint odd_loop (fuel : nat) (t lowest_zero_bits : Z) : option (Z * Z) :=
  if negb (Z.land t 1 =? 0) then Some (t, lowest_zero_bits)
  else match fuel with O => None | S fuel => odd_loop fuel (Z.shiftr t 1) (u32 (lowest_zero_bits + 1)) end.

Fixpoint narrow_loop (fuel : nat) (m_low m_high l : Z) : option (Z * Z * Z) :=
  if ((Z.shiftr m_low 1 <? Z.shiftr m_high 1) && (0 <? l))%bool
  then match fuel with O => None | S fuel => narrow_loop fuel (Z.shiftr m_low 1) (Z.shiftr m_high 1) (u32 (l - 1)) end
  else Some (m_low, m_high, l).

(** [while (!( *multiplier & 1))], with the shift. *)
Fixpoint reduce_loop (fuel : nat) (multiplier shift : Z) : option (Z * Z) :=
  if negb (Z.land multiplier 1 =? 0) then Some (multiplier, shift)
  else match fuel with O => None | S fuel => reduce_loop fuel (Z.shiftr multiplier 1) (u32 (shift - 1)) end.

(** What [DetectAlgorithm] makes of an odd divisor that is not 1. *)
Definition detect_odd (t : Z) : option (Algorithm * Z * Z) :=
  let l := u32 (log2 t + 1) in
  let j := 4294967295 mod t in
  let k := u64 (Z.shiftl 1 (32 + l)) / (4294967295 - j) in
  let m_low := u64 (Z.shiftl 1 (32 + l)) / t in
  let m_high := u64 (u64 (Z.shiftl 1 (32 + l)) + k) / t in
  '(m_low, m_high, l) ← narrow_loop 32 m_low m_high l;
  '(algorithm, multiplier, shift) ←
    (if Z.shiftr m_high 32 =? 0 then Some (Algorithm_MultipleShift, u32 m_high, l)
     else
       let shift := log2 t in
       let m_low := u64 (Z.shiftl 1 (32 + shift)) / t in
       let r := u32 (u64 (Z.shiftl 1 (32 + shift)) mod t) in
       Some (Algorithm_MultipleAddShift, if r <? u32 (Z.shiftr t 1 + 1) then u32 m_low else u32 (u32 m_low + 1), shift));
  '(multiplier, shift) ← reduce_loop 32 multiplier shift;
  Some (algorithm, multiplier, shift).

(** The three results; those that are not set keep their values. *)
Definition DetectAlgorithm (divisor : Z) (o : UInt32Divisor) : option (bool * UInt32Divisor) :=
  if divisor =? 0 then Some (false, o)
  else if 2147483648 <=? divisor then
    Some (true, mkDivisor (m_divisor o) Algorithm_Compare (m_multiplier o) (m_shift o))
  else
    '(t, lowest_zero_bits) ← odd_loop 32 divisor 0;
    if t =? 1 then Some (true, mkDivisor (m_divisor o) Algorithm_Shift 1 lowest_zero_bits)
    else
      '(algorithm, multiplier, shift) ← detect_odd t;
      Some (true, mkDivisor (m_divisor o) algorithm multiplier (u32 (shift + lowest_zero_bits))).

Definition SetValue (divisor : Z) (o : UInt32Divisor) : option (bool * UInt32Divisor) :=
  '(ok, o) ← DetectAlgorithm divisor o;
  Some (if (ok : bool) then (true, mkDivisor divisor (m_algorithm o) (m_multiplier o) (m_shift o)) else (false, o)).

(** The constructor: an invalid divisor throws. *)
Definition UInt32Divisor_of (divisor : Z) : option UInt32Divisor :=
  '(ok, o) ← SetValue divisor new_UInt32Divisor;
  if (ok : bool) then Some o else None.

Example divide_by_seven : (o ← UInt32Divisor_of 7; Divide 4294967295 o) = Some 613566756.
Proof. vm_compute. reflexivity. Qed.
Example divide_by_641 : (o ← UInt32Divisor_of 1282; Divide 4294967295 o) = Some 3350208.
Proof. vm_compute. reflexivity. Qed.

(** ** The multipliers *)

(** Rounded up: [m] is [W / t] and a little more. *)
Lemma magic_up W t m e N n : 0 < t < 2 ^ 31 → 0 < W → m * t = W + e → 0 < e → e * N <= W →
  (t | N) → N < 2 ^ 32 <= N + t → ¬ (t | 2 ^ 32) → 0 <= n < 2 ^ 32 → n * m / W = n / t.
Proof.
  intros Ht HW Hm He HeN [q HN] HN32 Hdiv Hn. pose proof (Z.div_mod n t ltac:(lia)) as Hq. pose proof (Z.mod_pos_bound n t (proj1 Ht)) as Hr.
  set (a := n / t) in *. set (r := n mod t) in *. symmetry. apply (Z.div_unique_pos _ _ _ (n * m - W * a)); [|lia].
  assert (Hrem : t * (n * m - W * a) = W * r + n * e).
  { replace (t * (n * m - W * a)) with (n * (m * t) - W * a * t) by lia. rewrite Hm. replace n with (t * a + r) at 1 by lia. lia. }
  assert (Hne : n * e < (t - r) * W).
  { destruct (Z.eq_dec r (t - 1)) as [E|].
    - assert (n + 1 <= N).
      { assert (n + 1 = t * (a + 1)) by lia. assert (a + 1 <= q); [|nia].
        destruct (Z.lt_ge_cases q (a + 1)) as [Hlt|]; [|done]. destruct Hdiv. exists (a + 1).
        assert (t * (q + 1) <= t * (a + 1)) by (apply Z.mul_le_mono_pos_l; lia). lia. }
      assert (n * e < N * e) by (apply Z.mul_lt_mono_pos_r; lia). nia.
    - assert (n < N + t) by lia. assert (t <= N) by lia.
      assert (n * e < (N + t) * e) by (apply Z.mul_lt_mono_pos_r; lia). assert ((N + t) * e <= 2 * W) by nia.
      assert (2 * W <= (t - r) * W) by (apply Z.mul_le_mono_pos_r; lia). lia. }
  split.
  - assert (0 <= t * (n * m - W * a)) by nia. apply (Z.mul_nonneg_cancel_l t); lia.
  - apply (Z.mul_lt_mono_pos_l t); [lia|]. rewrite Hrem. nia.
Qed.

(** Rounded down: [m] is [W / t] less a little; one more [m] is added. *)
Lemma magic_down W t m r0 n : 0 < t → 0 < W → m * t = W - r0 → 0 < r0 → r0 * 2 ^ 32 <= W → 0 <= n < 2 ^ 32 →
  (n + 1) * m / W = n / t.
Proof.
  intros Ht HW Hm Hr0 HrW Hn. pose proof (Z.div_mod n t ltac:(lia)) as Hq. pose proof (Z.mod_pos_bound n t Ht) as Hr.
  set (a := n / t) in *. set (r := n mod t) in *. symmetry. apply (Z.div_unique_pos _ _ _ ((n + 1) * m - W * a)); [|lia].
  assert (Hrem : t * ((n + 1) * m - W * a) = W * (r + 1) - (n + 1) * r0).
  { replace (t * ((n + 1) * m - W * a)) with ((n + 1) * (m * t) - W * a * t) by lia. rewrite Hm. replace n with (t * a + r) at 1 by lia. nia. }
  assert (0 < (n + 1) * r0 <= W) by nia.
  split.
  - assert (0 <= t * ((n + 1) * m - W * a)) by nia. apply (Z.mul_nonneg_cancel_l t); lia.
  - apply (Z.mul_lt_mono_pos_l t); [lia|]. rewrite Hrem. nia.
Qed.

(** ** The loops *)

Lemma land_1_odd x : negb (Z.land x 1 =? 0) = Z.odd x.
Proof. change 1 with (Z.ones 1). rewrite Z.land_ones by lia. change (2 ^ 1) with 2. rewrite Zmod_odd. by destruct (Z.odd x). Qed.

Lemma shiftr_1 x : Z.shiftr x 1 = x / 2.
Proof. by rewrite Z.shiftr_div_pow2. Qed.

(** A positive number is odd but for a power of 2. *)
Lemma odd_part x n : 0 < x < 2 ^ Z.of_nat n → ∃ y c, x = y * 2 ^ Z.of_nat c ∧ Z.odd y = true ∧ (c < n)%nat.
Proof.
  revert x. induction n as [|n IH]; intros x Hx; [cbn in Hx; lia|]. destruct (Z.odd x) eqn:E.
  - exists x, 0%nat. split; [lia|]. split; [done|lia].
  - assert (Ex : x = 2 * (x / 2)) by (pose proof (Zmod_odd x) as Hm; rewrite E in Hm; pose proof (Z.div_mod x 2); lia).
    rewrite Nat2Z.inj_succ, Z.pow_succ_r in Hx by lia.
    destruct (IH (x / 2)) as (y & c & Ey & Hy & Hc); [lia|]. exists y, (S c).
    rewrite Nat2Z.inj_succ, Z.pow_succ_r by lia. split; [lia|]. split; [done|lia].
Qed.

Lemma even_shift y c : Z.odd (y * 2 ^ Z.of_nat (S c)) = false ∧ Z.shiftr (y * 2 ^ Z.of_nat (S c)) 1 = y * 2 ^ Z.of_nat c.
Proof.
  rewrite shiftr_1, Nat2Z.inj_succ, Z.pow_succ_r by lia. replace (y * (2 * 2 ^ Z.of_nat c)) with (y * 2 ^ Z.of_nat c * 2) by lia.
  split; [|by apply Z.div_mul]. rewrite Z.odd_mul. apply andb_false_r.
Qed.

Lemma odd_loop_ok y c fuel z : Z.odd y = true → (c <= fuel)%nat → 0 <= z → z + Z.of_nat c < 2 ^ 32 →
  odd_loop fuel (y * 2 ^ Z.of_nat c) z = Some (y, z + Z.of_nat c).
Proof.
  intros Hy. revert fuel z. induction c as [|c IH]; intros fuel z Hc Hz Hs.
  - destruct fuel; cbn [odd_loop]; rewrite land_1_odd, Z.mul_1_r, Hy; f_equal; f_equal; lia.
  - destruct fuel as [|fuel]; [lia|]. cbn [odd_loop]. destruct (even_shift y c) as [E1 E2]. rewrite land_1_odd, E1, E2.
    rewrite u32_small by lia. rewrite IH by lia. f_equal. f_equal. lia.
Qed.

Lemma reduce_loop_ok y c fuel s : Z.odd y = true → (c <= fuel)%nat → Z.of_nat c <= s < 2 ^ 32 →
  reduce_loop fuel (y * 2 ^ Z.of_nat c) s = Some (y, s - Z.of_nat c).
Proof.
  intros Hy. revert fuel s. induction c as [|c IH]; intros fuel s Hc Hs.
  - destruct fuel; cbn [reduce_loop]; rewrite land_1_odd, Z.mul_1_r, Hy; f_equal; f_equal; lia.
  - destruct fuel as [|fuel]; [lia|]. cbn [reduce_loop]. destruct (even_shift y c) as [E1 E2]. rewrite land_1_odd, E1, E2.
    rewrite u32_small by lia. rewrite IH by lia. f_equal. f_equal. lia.
Qed.

Lemma log2_half i : 1 < i → Z.log2 i = Z.log2 (i / 2) + 1.
Proof.
  intros Hi. pose proof (Z.log2_spec i ltac:(lia)) as [H1 H2]. assert (0 < Z.log2 i) by (by apply Z.log2_pos).
  replace (Z.log2 i) with (Z.succ (Z.log2 i - 1)) in H1 at 1 by lia. rewrite Z.pow_succ_r in H1, H2 by lia.
  assert (Z.log2 (i / 2) = Z.log2 i - 1); [|lia]. apply Z.log2_unique; [lia|].
  replace (Z.succ (Z.log2 i - 1)) with (Z.log2 i) by lia. split; [apply Z.div_le_lower_bound; lia|apply Z.div_lt_upper_bound; lia].
Qed.

Lemma log2_loop_ok fuel i t : 0 <= i < 2 ^ Z.of_nat fuel → 0 <= t → t + Z.of_nat fuel < 2 ^ 32 →
  log2_loop fuel i t = if i =? 0 then t else t + Z.log2 i + 1.
Proof.
  revert i t. induction fuel as [|fuel IH]; intros i t Hi Ht Hs; cbn [log2_loop].
  - assert (i = 0) as -> by (cbn in Hi; lia). done.
  - destruct (Z.eqb_spec i 0) as [|Hne]; [done|]. rewrite shiftr_1, u32_small by lia.
    rewrite Nat2Z.inj_succ, Z.pow_succ_r in Hi by lia. rewrite IH by (try split; try lia; try apply Z.div_lt_upper_bound; try apply Z.div_pos; lia).
    destruct (Z.eqb_spec (i / 2) 0) as [E|E].
    + assert (i = 1) as -> by (apply Z.div_small_iff in E; lia). cbn. lia.
    + rewrite (log2_half i); [lia|]. destruct (Z.eq_dec i 1) as [->|]; [by cbn in E|lia].
Qed.

Lemma log2_ok i : 1 < i < 2 ^ 32 → log2 i = Z.log2 i.
Proof.
  intros Hi. unfold log2. rewrite shiftr_1, log2_loop_ok by (try split; try lia; try apply Z.div_lt_upper_bound; try apply Z.div_pos; lia).
  rewrite (log2_half i) by lia. destruct (Z.eqb_spec (i / 2) 0) as [E|]; [apply Z.div_small_iff in E; lia|lia].
Qed.

(** The pair after [i] halvings: the first at which the halves agree. *)
Lemma narrow_loop_ok fuel m_low m_high l : m_low < m_high → 0 <= l <= Z.of_nat fuel → l < 2 ^ 32 → ∃ i, 0 <= i <= l ∧
  narrow_loop fuel m_low m_high l = Some (m_low / 2 ^ i, m_high / 2 ^ i, l - i) ∧ m_low / 2 ^ i < m_high / 2 ^ i ∧
  (l - i = 0 ∨ m_low / 2 ^ i / 2 = m_high / 2 ^ i / 2).
Proof.
  revert m_low m_high l. induction fuel as [|fuel IH]; intros m_low m_high l Hm Hl Hmax; cbn [narrow_loop]; rewrite !shiftr_1.
  - exists 0. rewrite !Z.div_1_r, Z.sub_0_r. destruct (Z.ltb_spec 0 l); [lia|]. rewrite andb_false_r. split_and!; [lia..|done|done|left; lia].
  - destruct (Z.ltb_spec (m_low / 2) (m_high / 2)) as [Hlt|Hge]; [destruct (Z.ltb_spec 0 l)|]; cbn [andb].
    + rewrite u32_small by lia. destruct (IH (m_low / 2) (m_high / 2) (l - 1)) as (i & Hi & -> & Hlt' & Hend); [done|lia|lia|].
      exists (i + 1). rewrite Z.pow_add_r, (Z.mul_comm (2 ^ i)) by lia. rewrite <- !Z.div_div by lia. split; [lia|].
      replace (l - (i + 1)) with (l - 1 - i) by lia. done.
    + exists 0. rewrite !Z.div_1_r, Z.sub_0_r. split_and!; [lia..|done|done|left; lia].
    + exists 0. rewrite !Z.div_1_r, Z.sub_0_r. split_and!; [lia..|done|done|]. right.
      assert (m_low / 2 <= m_high / 2) by (apply Z.div_le_mono; lia). lia.
Qed.

(** ** One divisor *)

(** What a multiplier and a shift are good for. *)
Definition good_magic (t : Z) (a : Algorithm) (m s : Z) : Prop :=
  match a with
  | Algorithm_MultipleShift => ∀ n, 0 <= n < 2 ^ 32 → n * m / 2 ^ (32 + s) = n / t
  | Algorithm_MultipleAddShift => ∀ n, 0 <= n < 2 ^ 32 → (n + 1) * m / 2 ^ (32 + s) = n / t
  | _ => False
  end.

Section Odd.
Context (t : Z) (Hodd : Z.odd t = true) (Ht : 1 < t < 2 ^ 31).
#[local] Abbreviation s0 := (Z.log2 t).
#[local] Abbreviation L := (Z.log2 t + 1).
Let N := 2 ^ 32 - 1 - (2 ^ 32 - 1) mod t.
Let k := 2 ^ (32 + L) / N.

Lemma odd_not_power n : 0 <= n → ¬ (t | 2 ^ n).
Proof.
  intros Hn [q Hq]. revert q Hq. pattern n. apply natlike_ind; [| |done].
  - intros q Hq. cbn in Hq. assert (t = 1); [apply Z.divide_1_r_nonneg; [lia|by exists q]|lia].
  - clear n Hn. intros n Hn IH q Hq. rewrite Z.pow_succ_r in Hq by done.
    assert (Hev : Z.odd (q * t) = false) by (rewrite <- Hq, Z.odd_mul; done).
    rewrite Z.odd_mul, Hodd, andb_true_r in Hev. apply (IH (q / 2)).
    pose proof (Zmod_odd q) as Hm. rewrite Hev in Hm. pose proof (Z.div_mod q 2). nia.
Qed.

Lemma log2_bounds : 2 ^ s0 < t < 2 ^ (s0 + 1) ∧ 0 < s0 <= 30.
Proof.
  pose proof (Z.log2_spec t ltac:(lia)) as [H1 H2]. replace (Z.succ s0) with (s0 + 1) in H2 by lia.
  assert (0 < s0) by (apply Z.log2_pos; lia). assert (s0 < 31) by (apply Z.log2_lt_pow2; lia).
  split; [|lia]. split; [|done]. destruct (Z.eq_dec (2 ^ s0) t) as [E|]; [|lia].
  destruct (odd_not_power s0); [lia|]. exists 1. lia.
Qed.

Lemma N_facts : (t | N) ∧ N < 2 ^ 32 <= N + t ∧ 2 ^ 31 <= N.
Proof.
  unfold N. pose proof (Z.mod_pos_bound (2 ^ 32 - 1) t ltac:(lia)). pose proof (Z.div_mod (2 ^ 32 - 1) t ltac:(lia)).
  split; [|lia]. exists ((2 ^ 32 - 1) / t). lia.
Qed.

Lemma k_facts : 2 ^ L <= k ∧ k * N <= 2 ^ (32 + L).
Proof.
  destruct N_facts as (_ & HN & HN2). destruct log2_bounds as [_ Hs]. unfold k. split.
  - apply Z.div_le_lower_bound; [lia|]. rewrite (Z.pow_add_r 2 32) by lia. apply Z.mul_le_mono_nonneg_r; lia.
  - rewrite Z.mul_comm. apply Z.mul_div_le. lia.
Qed.

(** After [i] halvings: [e] is what the higher multiplier is over. *)
Lemma narrowed i : 0 <= i <= L → let W := 2 ^ (32 + (L - i)) in let h := (2 ^ (32 + L) + k) / t / 2 ^ i in
  2 ^ (32 + L) / t / 2 ^ i = W / t ∧ (h * t - W) * 2 ^ i <= k ∧ (W / t < h → 0 < h * t - W).
Proof.
  intros Hi W h. destruct log2_bounds as [_ Hs].
  assert (EW : 2 ^ (32 + L) = W * 2 ^ i) by (unfold W; rewrite <- Z.pow_add_r by lia; f_equal; lia).
  assert (H2i : 0 < 2 ^ i) by (apply Z.pow_pos_nonneg; lia). split_and!.
  - rewrite Z.div_div, Z.mul_comm, <- Z.div_div by lia. rewrite EW, Z.div_mul by lia. done.
  - unfold h. rewrite Z.div_div by lia. pose proof (Z.mul_div_le (2 ^ (32 + L) + k) (t * 2 ^ i) ltac:(nia)) as Hle.
    revert Hle. generalize ((2 ^ (32 + L) + k) / (t * 2 ^ i)). intros h' Hle. rewrite EW in Hle. lia.
  - intros Hlt. pose proof (Z.mul_succ_div_gt W t ltac:(lia)). nia.
Qed.

Lemma e_small i (Hi : 0 <= i <= L) e : e * 2 ^ i <= k → 0 < e → e * N <= 2 ^ (32 + (L - i)).
Proof.
  intros He Hpos. destruct k_facts as [_ Hk]. destruct N_facts as (_ & _ & HN). destruct log2_bounds as [_ Hs].
  assert (EW : 2 ^ (32 + L) = 2 ^ (32 + (L - i)) * 2 ^ i) by (rewrite <- Z.pow_add_r by lia; f_equal; lia).
  assert (H2i : 0 < 2 ^ i) by (apply Z.pow_pos_nonneg; lia). rewrite EW in Hk.
  apply (Z.mul_le_mono_pos_r _ _ (2 ^ i)); [done|]. nia.
Qed.

(** The higher multiplier divides, and is odd where the loop ends. *)
Lemma up_good i : 0 <= i <= L → let h := (2 ^ (32 + L) + k) / t / 2 ^ i in
  2 ^ (32 + (L - i)) / t < h → (L - i = 0 ∨ 2 ^ (32 + (L - i)) / t / 2 = h / 2) →
  good_magic t Algorithm_MultipleShift h (L - i) ∧ Z.odd h = true.
Proof.
  intros Hi h Hlt Hend. destruct (narrowed i Hi) as (_ & He & Hpos). fold h in He, Hpos. specialize (Hpos Hlt).
  destruct N_facts as (HtN & HN & HN2). destruct log2_bounds as [Hb Hs].
  pose proof (e_small i Hi _ He Hpos) as HeN. split.
  - intros n Hn. apply (magic_up _ t h (h * t - 2 ^ (32 + (L - i))) N); try done; try lia.
    by apply odd_not_power.
  - destruct Hend as [E|E].
    + rewrite E in *. assert (Ee : h * t - 2 ^ (32 + 0) = 1) by nia.
      assert (Ho : Z.odd (h * t) = true) by (replace (h * t) with (2 ^ 32 + 1) by lia; done).
      rewrite Z.odd_mul in Ho. by apply andb_true_iff in Ho as [? _].
    + pose proof (Zmod_odd h) as Hm. destruct (Z.odd h); [done|]. pose proof (Z.div_mod h 2 ltac:(lia)).
      pose proof (Z.div_mod (2 ^ (32 + (L - i)) / t) 2 ltac:(lia)). pose proof (Z.mod_pos_bound (2 ^ (32 + (L - i)) / t) 2). lia.
Qed.

(** A higher multiplier of more than 32 bits: the loop stopped at once, and
    rounding down is good. *)
Lemma not_narrow i : 0 <= i <= L → let h := (2 ^ (32 + L) + k) / t / 2 ^ i in 2 ^ (32 + (L - i)) / t < h → 2 ^ 32 <= h → i = 0.
Proof.
  intros Hi h Hlt Hh. destruct (narrowed i Hi) as (_ & He & Hpos). fold h in He, Hpos. specialize (Hpos Hlt).
  destruct N_facts as (_ & HN & HN2). destruct log2_bounds as [Hb Hs]. pose proof (e_small i Hi _ He Hpos) as HeN.
  destruct (Z.eq_dec i 0) as [|Hne]; [done|]. exfalso.
  assert (EW : 2 ^ (32 + (L - i)) = 2 ^ 32 * 2 ^ (L - i)) by (rewrite Z.pow_add_r by lia; done).
  assert (Hmono : 2 ^ (L - i) <= 2 ^ s0) by (apply Z.pow_le_mono_r; lia).
  assert (H0 : 0 < 2 ^ (L - i)) by (apply Z.pow_pos_nonneg; lia). rewrite EW in *.
  set (e := h * t - 2 ^ 32 * 2 ^ (L - i)) in *. assert (e <= 2 * 2 ^ (L - i)) by nia. assert (2 ^ 32 * t <= h * t) by nia.
  assert (2 ^ 32 * (2 ^ (L - i) + 1) <= 2 ^ 32 * t) by nia.
  assert (2 ^ s0 <= 2 ^ 30) by (apply Z.pow_le_mono_r; lia). lia.
Qed.

Lemma down_good : 2 ^ (32 + L) / t / 2 = (2 ^ (32 + L) + k) / t / 2 →
  let m := 2 ^ (32 + s0) / t in let r := 2 ^ (32 + s0) mod t in
  2 * r < t ∧ 0 < r ∧ r <= 2 ^ s0 ∧ 2 ^ 31 <= m < 2 ^ 32 ∧ good_magic t Algorithm_MultipleAddShift m s0.
Proof.
  intros E m r. destruct log2_bounds as [Hb Hs]. destruct k_facts as [Hk _].
  assert (EL : 2 ^ (32 + L) = 2 * 2 ^ (32 + s0)) by (replace (32 + L) with (Z.succ (32 + s0)) by lia; rewrite Z.pow_succ_r by lia; done).
  assert (Em : 2 ^ (32 + L) / t / 2 = m).
  { unfold m. rewrite Z.div_div, Z.mul_comm, <- Z.div_div by lia. rewrite EL, (Z.mul_comm 2), Z.div_mul by lia. done. }
  assert (E2 : 2 ^ (32 + s0) = 2 ^ 32 * 2 ^ s0) by (rewrite Z.pow_add_r by lia; done).
  assert (E3 : 2 ^ L = 2 * 2 ^ s0) by (rewrite Z.pow_add_r by lia; lia).
  pose proof (Z.div_mod (2 ^ (32 + s0)) t ltac:(lia)) as Hm. fold m r in Hm. pose proof (Z.mod_pos_bound (2 ^ (32 + s0)) t ltac:(lia)) as Hr. fold r in Hr.
  assert (Hr0 : r ≠ 0) by (intros E0; destruct (odd_not_power (32 + s0)); [lia|]; exists m; lia).
  assert (Hhalf : k < 2 * (t - r)).
  { rewrite E in Em. pose proof (Z.mul_succ_div_gt (2 ^ (32 + L) + k) t ltac:(lia)). pose proof (Z.div_mod ((2 ^ (32 + L) + k) / t) 2 ltac:(lia)).
    pose proof (Z.mod_pos_bound ((2 ^ (32 + L) + k) / t) 2 ltac:(lia)). rewrite Em in *. rewrite EL in *.
    set (h := (2 * 2 ^ (32 + s0) + k) / t) in *. assert (h <= 2 * m + 1) by lia. nia. }
  assert (Hrs : r < 2 ^ s0) by (rewrite E3, Z.pow_add_r in * by lia; lia).
  assert (Hm32 : 2 ^ 31 <= m < 2 ^ 32).
  { rewrite Z.pow_add_r in Hb by lia. change (2 ^ 1) with 2 in Hb. rewrite E2 in Hm. split.
    - destruct (Z.lt_ge_cases m (2 ^ 31)) as [Hlt|]; [|done]. assert (t * m <= t * (2 ^ 31 - 1)) by nia. assert (t <= 2 * 2 ^ s0 - 1) by lia. nia.
    - destruct (Z.lt_ge_cases m (2 ^ 32)) as [|Hge]; [done|]. assert (t * 2 ^ 32 <= t * m) by nia. nia. }
  split_and!; [|lia|lia|lia|lia|].
  - rewrite Z.pow_add_r in Hb by lia. lia.
  - intros n Hn. apply (magic_down _ t m r); [lia|lia|lia|lia| |done]. rewrite E2. nia.
Qed.

(** The multiplier rounded down is not more than [s0] times even. *)
Lemma down_even y c : 2 ^ (32 + s0) / t = y * 2 ^ Z.of_nat c → 0 < 2 ^ (32 + s0) mod t <= 2 ^ s0 → Z.of_nat c <= s0.
Proof.
  intros Hy Hr. destruct log2_bounds as [Hb Hs]. destruct (Z.lt_ge_cases s0 (Z.of_nat c)) as [Hc|]; [|done]. exfalso.
  pose proof (Z.div_mod (2 ^ (32 + s0)) t ltac:(lia)) as Hm. rewrite Hy in Hm. set (r := 2 ^ (32 + s0) mod t) in *.
  replace (Z.of_nat c) with (s0 + 1 + (Z.of_nat c - s0 - 1)) in Hm by lia. rewrite !Z.pow_add_r in Hm by lia.
  set (p := 2 ^ (Z.of_nat c - s0 - 1)) in *. set (w := 2 ^ s0) in *.
  assert (0 < w) by (apply Z.pow_pos_nonneg; lia). change (2 ^ 1) with 2 in Hm.
  assert (E : r = w * (2 * (2 ^ 31 - t * y * p))) by lia.
  assert (1 <= 2 * (2 ^ 31 - t * y * p) <= 1) by nia. lia.
Qed.

Lemma detect_odd_ok : ∃ a m s, detect_odd t = Some (a, m, s) ∧ good_magic t a m s ∧ 0 <= m < 2 ^ 32 ∧ 0 <= s <= s0 + 1.
Proof.
  destruct log2_bounds as [Hb Hs]. destruct N_facts as (_ & HN & HN2). destruct k_facts as [Hk1 Hk2].
  assert (HL : 2 ^ L <= 2 ^ 31) by (apply Z.pow_le_mono_r; lia). assert (H32L : 2 ^ (32 + L) = 2 ^ 32 * 2 ^ L) by (rewrite Z.pow_add_r by lia; done).
  assert (H32s : 2 ^ (32 + s0) = 2 ^ 32 * 2 ^ s0) by (rewrite Z.pow_add_r by lia; done). assert (H2s : 2 ^ s0 <= 2 ^ 30) by (apply Z.pow_le_mono_r; lia).
  assert (Hkmax : k <= 2 * 2 ^ L) by nia.
  unfold detect_odd. rewrite log2_ok by lia. cbn zeta. rewrite (u32_small (s0 + 1)) by lia.
  change (4294967295 - 4294967295 mod t) with N. rewrite !Z.shiftl_1_l, (u64_small (2 ^ (32 + L))) by lia. fold k.
  rewrite (u64_small (2 ^ (32 + L) + k)), (u64_small (2 ^ (32 + s0))) by lia.
  destruct (narrow_loop_ok 32 (2 ^ (32 + L) / t) ((2 ^ (32 + L) + k) / t) L) as (i & Hi & -> & Hlt & Hend); [|lia|lia|].
  { apply Z.div_lt_upper_bound; [lia|]. pose proof (Z.mul_succ_div_gt (2 ^ (32 + L) + k) t ltac:(lia)). 
    assert (t < 2 ^ L) by lia. lia. }
  cbn [mbind option_bind]. destruct (narrowed i Hi) as (Elow & He & Hpos). rewrite Elow in *.
  set (h := (2 ^ (32 + L) + k) / t / 2 ^ i) in *. assert (Hh : 0 < h).
  { assert (0 <= 2 ^ (32 + (L - i)) / t) by (apply Z.div_pos; [apply Z.pow_nonneg|]; lia). lia. }
  rewrite Z.shiftr_div_pow2 by lia. destruct (Z.eqb_spec (h / 2 ^ 32) 0) as [E|E].
  - apply Z.div_small_iff in E; [|lia]. cbn [mbind option_bind]. rewrite u32_small by lia.
    destruct (up_good i Hi Hlt Hend) as [Hgood Ho]. fold h in Hgood, Ho.
    pose proof (reduce_loop_ok h 0 32 (L - i) Ho) as Er. rewrite Z.mul_1_r, Z.sub_0_r in Er. rewrite Er by lia. cbn [mbind option_bind].
    exists Algorithm_MultipleShift, h, (L - i). split_and!; [done|done|lia..].
  - assert (Hh32 : 2 ^ 32 <= h) by (destruct (Z.lt_ge_cases h (2 ^ 32)); [by rewrite Z.div_small in E by lia|done]).
    assert (i = 0) as -> by (by apply (not_narrow i Hi)). clear E. unfold h in *. rewrite !Z.sub_0_r, !Z.div_1_r in *. destruct Hend as [?|Hend]; [lia|].
    destruct (down_good Hend) as (Hr1 & Hr2 & Hr3 & Hm & Hgood).
    cbn [mbind option_bind].
    set (m := 2 ^ (32 + s0) / t) in *. set (r := 2 ^ (32 + s0) mod t) in *. rewrite (u32_small r), shiftr_1 by lia.
    assert (Hhalf : 0 <= t / 2 < 2 ^ 31) by (split; [apply Z.div_pos; lia|apply Z.div_lt_upper_bound; lia]).
    rewrite (u32_small (t / 2 + 1)) by lia. destruct (Z.ltb_spec r (t / 2 + 1)) as [_|Hge]; [|pose proof (Z.mul_succ_div_gt t 2); lia].
    rewrite u32_small by lia. destruct (odd_part m 32) as (y & c & Ey & Hy & Hc); [cbn; lia|].
    assert (Hcs : Z.of_nat c <= s0) by (apply (down_even y c); [done|unfold r in *; lia]).
    rewrite Ey, reduce_loop_ok by (done || lia). cbn [mbind option_bind].
    exists Algorithm_MultipleAddShift, y, (s0 - Z.of_nat c). assert (0 < 2 ^ Z.of_nat c) by (apply Z.pow_pos_nonneg; lia).
    split_and!; [done| |nia|nia|lia|lia].
    intros n Hn. rewrite <- (Hgood n Hn), Ey. rewrite (Z.mul_assoc (n + 1)).
    replace (2 ^ (32 + s0)) with (2 ^ (32 + (s0 - Z.of_nat c)) * 2 ^ Z.of_nat c) by (rewrite <- Z.pow_add_r by lia; f_equal; lia).
    rewrite Z.div_mul_cancel_r; [done|apply Z.pow_nonzero; lia|lia].
Qed.

End Odd.

(** ** Every divisor *)

Lemma high_word x s : 0 <= x < 2 ^ 64 → 0 <= s → Z.shiftr (u32 (Z.shiftr (u64 x) 32)) s = x / 2 ^ (32 + s).
Proof.
  intros Hx Hs. rewrite u64_small by done. rewrite !Z.shiftr_div_pow2 by lia.
  rewrite u32_small by (split; [apply Z.div_pos; lia|apply Z.div_lt_upper_bound; lia]).
  rewrite Z.div_div, <- Z.pow_add_r by (lia || apply Z.pow_pos_nonneg; lia). done.
Qed.

(** The carry of [low + m]. *)
Lemma add_high n m : 0 <= n < 2 ^ 32 → 0 <= m < 2 ^ 32 →
  (if u32 (u32 (u64 (n * m)) + m) <? u32 (u64 (n * m)) then u32 (u32 (Z.shiftr (u64 (n * m)) 32) + 1)
   else u32 (Z.shiftr (u64 (n * m)) 32)) = (n + 1) * m / 2 ^ 32.
Proof.
  intros Hn Hm. assert (Hp : 0 <= n * m < 2 ^ 64) by nia. rewrite u64_small by done. rewrite Z.shiftr_div_pow2 by lia.
  set (p := n * m) in *. replace ((n + 1) * m) with (p + m) by lia. unfold u32. pose proof (Z.div_mod p (2 ^ 32) ltac:(lia)) as Ed.
  pose proof (Z.mod_pos_bound p (2 ^ 32) ltac:(lia)) as Hl. set (hi := p / 2 ^ 32) in *. set (lo := p mod 2 ^ 32) in *.
  assert (Hhi : 0 <= hi <= 2 ^ 32 - 2) by (unfold hi, p; split; [apply Z.div_pos; lia|]; assert (n * m / 2 ^ 32 < 2 ^ 32 - 1); [apply Z.div_lt_upper_bound; nia|lia]).
  rewrite (Z.mod_small hi), (Z.mod_small (hi + 1)) by lia. destruct (Z.lt_ge_cases (lo + m) (2 ^ 32)).
  - rewrite (Z.mod_small (lo + m)) by lia. destruct (Z.ltb_spec (lo + m) lo); [lia|]. apply (Z.div_unique_pos _ _ _ (lo + m)); lia.
  - replace ((lo + m) mod 2 ^ 32) with (lo + m - 2 ^ 32) by (apply (Z.mod_unique_pos _ _ 1); lia).
    destruct (Z.ltb_spec (lo + m - 2 ^ 32) lo); [|lia]. apply (Z.div_unique_pos _ _ _ (lo + m - 2 ^ 32)); lia.
Qed.

Lemma Divide_good t a m s z d x0 n : good_magic t a m s → 0 <= m < 2 ^ 32 → 0 <= s → 0 <= z → s + z < 32 → 0 < t →
  d = t * 2 ^ z → 0 <= n < 2 ^ 32 → Divide n (mkDivisor x0 a m (s + z)) = Some (n / d).
Proof.
  intros Hg Hm Hs Hz Hsz Ht -> Hn. rewrite <- Z.div_div by (lia || apply Z.pow_pos_nonneg; lia).
  assert (Hfin : ∀ x, x / 2 ^ (32 + s) = n / t → x / 2 ^ (32 + (s + z)) = n / t / 2 ^ z).
  { intros x <-. rewrite Z.div_div, <- Z.pow_add_r by (lia || apply Z.pow_pos_nonneg; lia). do 2 f_equal. lia. }
  unfold Divide, shr32. cbn [m_algorithm m_multiplier m_shift]. destruct (Z.ltb_spec (s + z) 32); [|lia]. destruct a; cbn in Hg; try done; f_equal.
  - rewrite high_word by nia. by apply Hfin, Hg.
  - rewrite add_high by done. rewrite Z.shiftr_div_pow2, Z.div_div, <- Z.pow_add_r by (lia || apply Z.pow_pos_nonneg; lia). by apply Hfin, Hg.
Qed.

(** The divisor's own algorithm. *)
Lemma SetValue_ok d o : 0 < d < 2 ^ 32 → ∃ o', SetValue d o = Some (true, o') ∧ m_divisor o' = d ∧
  ∀ n, 0 <= n < 2 ^ 32 → Divide n o' = Some (n / d).
Proof.
  intros Hd. unfold SetValue, DetectAlgorithm. destruct (Z.eqb_spec d 0) as [|Hd0]; [lia|]. destruct (Z.leb_spec 2147483648 d).
  { eexists. split; [done|]. split; [done|]. intros n Hn. unfold Divide. cbn [m_algorithm m_divisor]. f_equal.
    destruct (Z.leb_spec d n); [apply (Z.div_unique_pos _ _ _ (n - d)); lia|by rewrite Z.div_small by lia]. }
  destruct (odd_part d 32) as (t & z & E & Ho & Hz); [cbn; lia|].
  pose proof (odd_loop_ok t z 32 0 Ho) as El. rewrite <- E in El. rewrite El by lia. cbn [mbind option_bind]. rewrite Z.add_0_l.
  assert (H2z : 0 < 2 ^ Z.of_nat z) by (apply Z.pow_pos_nonneg; lia). assert (Ht0 : 0 < t) by nia.
  destruct (Z.eqb_spec t 1) as [Et|Et].
  - eexists. split; [done|]. split; [done|]. intros n Hn. unfold Divide, shr32. cbn [m_algorithm m_shift].
    destruct (Z.ltb_spec (Z.of_nat z) 32); [|lia]. rewrite Z.shiftr_div_pow2 by lia. do 2 f_equal. rewrite E, Et. lia.
  - assert (Ht : 1 < t < 2 ^ 31) by nia. destruct (detect_odd_ok t Ho Ht) as (a & m & s & -> & Hg & Hm & Hs). cbn [mbind option_bind].
    assert (Hlog : Z.log2 t + Z.of_nat z < 31).
    { rewrite Z.add_comm, <- Z.log2_mul_pow2, <- E by lia. apply Z.log2_lt_pow2; lia. }
    rewrite u32_small by lia. eexists. split; [done|]. split; [done|]. intros n Hn. cbn [m_algorithm m_multiplier m_shift].
    apply (Divide_good t); done || lia.
Qed.

(** C16: the divisor divides.  For every 32-bit divisor but 0, which is refused
    and leaves the object as it was, SetValue finds an algorithm, a multiplier
    and a shift with which dividing every 32-bit number gives the quotient,
    the remainder and the modulus. *)
Theorem divisor_divides d o : 0 <= d < 2 ^ 32 →
  if d =? 0 then SetValue d o = Some (false, o)
  else ∃ o', SetValue d o = Some (true, o') ∧ m_divisor o' = d ∧ ∀ n, 0 <= n < 2 ^ 32 →
    Divide n o' = Some (n / d) ∧ Divide_remainder n o' = Some (n / d, n mod d) ∧ Modulu n o' = Some (n mod d).
Proof.
  intros Hd. destruct (Z.eqb_spec d 0) as [->|Hne]; [done|]. destruct (SetValue_ok d o) as (o' & E & Hv & Hdiv); [lia|].
  exists o'. split; [done|]. split; [done|]. intros n Hn. unfold Divide_remainder, Modulu. rewrite Hdiv, Hv by done. cbn [mbind option_bind].
  pose proof (Z.div_mod n d Hne) as Ed. pose proof (Z.mod_pos_bound n d ltac:(lia)). pose proof (Z.div_pos n d ltac:(lia) ltac:(lia)).
  assert (Em : u32 (n - u32 (n / d * d)) = n mod d); [|by rewrite Em].
  rewrite (u32_small (n / d * d)) by lia. rewrite u32_small; lia.
Qed.

Example divisor_divides_witness :
  ∃ o, SetValue 1282 new_UInt32Divisor = Some (true, o) ∧ Divide_remainder 4294967295 o = Some (3350208, 639).
Proof.
  destruct (divisor_divides 1282 new_UInt32Divisor) as (o & E & _ & H); [lia|].
  exists o. split; [exact E|]. destruct (H 4294967295) as (_ & Hr & _); [lia|]. exact Hr.
Defined.
