(* ===== verification/Date.v ===== *)
(** * Calendar dates

    Model of system/time/date.h and date.cpp: a Gregorian date kept in an
    [int16_t] and two [uint8_t], its validity, order and arithmetic.  [None]
    is a month outside the table of the days in a month, an [int] overflow,
    or a loop cut short by its fuel.  Printing and parsing, which are
    [strftime] and [strptime], and the clock are not modelled. *)

From S2P Require Import Prelude.

Definition s16 (x : Z) : Z := (x + 2 ^ 15) mod 2 ^ 16 - 2 ^ 15.

Record Date := mkDate { m_year : Z; m_month : Z; m_day : Z }.

Definition kDaysInMonth : list Z := [0; 31; 28; 31; 30; 31; 30; 31; 31; 30; 31; 30; 31].

(** [%] of C++ is 0 where [mod] is. *)
Definition IsLeapYear (year : Z) : bool :=
  (((Z.rem year 4 =? 0) && negb (Z.rem year 100 =? 0)) || (Z.rem year 400 =? 0))%bool.

Definition DaysInMonth (year month : Z) : option Z :=
  days ← (if month <? 0 then None else kDaysInMonth !! Z.to_nat month);
  Some (if ((month =? 2) && IsLeapYear year)%bool then days + 1 else days).

Definition DaysInPreviousMonth (year month : Z) : option Z :=
  if 1 <? month then DaysInMonth year (month - 1) else DaysInMonth (year - 1) 12.
Definition DaysInNextMonth (year month : Z) : option Z :=
  if month <? 12 then DaysInMonth year (month + 1) else DaysInMonth (year + 1) 1.

Definition IsValid (year month day : Z) : option bool :=
  if ((month <? 1) || (12 <? month))%bool then Some false
  else if day <? 1 then Some false
  else days ← DaysInMonth year month; Some (negb (days <? day)).

(** Assigning to the members. *)
Definition set_year (y : Z) (d : Date) : Date := mkDate (s16 y) (m_month d) (m_day d).
Definition set_month (m : Z) (d : Date) : Date := mkDate (m_year d) (u8 m) (m_day d).
Definition set_day (x : Z) (d : Date) : Date := mkDate (m_year d) (m_month d) (u8 x).

Definition new_Date : Date := mkDate 1970 1 1.

(** [Set]; the constructor throws when it is false. *)
Definition Set_ (year month day : Z) (d : Date) : option (bool * Date) :=
  valid ← IsValid year month day;
  Some (if (valid : bool) then (true, set_day day (set_month month (set_year year d))) else (false, d)).
Definition Date_of (year month day : Z) : option Date :=
  '(ok, d) ← Set_ year month day new_Date; if (ok : bool) then Some d else None.

(** Only February is adjusted. *)
Definition AdjustMonthLimit (d : Date) : option Date :=
  if ((m_month d =? 2) && (28 <? m_day d))%bool then
    days ← DaysInMonth (m_year d) (m_month d);
    Some (if days <? m_day d then set_day days d else d)
  else Some d.

Definition SetYear (year : Z) (d : Date) : option (bool * Date) := d ← AdjustMonthLimit (set_year year d); Some (true, d).

(** The upper limit is tested on the old month. *)
Definition SetMonth (month : Z) (d : Date) : option (bool * Date) :=
  if ((month <=? 0) || (12 <? m_month d))%bool then Some (false, d)
  else d ← AdjustMonthLimit (set_month month d); Some (true, d).

Definition SetDay (day : Z) (d : Date) : option (bool * Date) :=
  if ((day <=? 0) || (31 <? day))%bool then Some (false, d)
  else days ← DaysInMonth (m_year d) (m_month d); Some (if days <? day then (false, d) else (true, set_day day d)).

Definition AddYears (years : Z) (d : Date) : option Date := '(_, d) ← SetYear (m_year d + years) d; Some d.

Definition AddMonths (months : Z) (d : Date) : option Date :=
  if months =? 0 then Some d
  else if 0 <? months then
    let years := months ÷ 12 in
    let months := Z.rem months 12 in
    let d := set_month (m_month d + months) (set_year (m_year d + years) d) in
    AdjustMonthLimit (if 12 <? m_month d then set_month (m_month d - 12) (set_year (m_year d + 1) d) else d)
  else if months =? - 2 ^ 31 then None
  else
    let months := - months in
    let years := months ÷ 12 in
    let months := Z.rem months 12 in
    let d := set_month (m_month d - months) (set_year (m_year d - years) d) in
    AdjustMonthLimit (if m_month d <? 1 then set_month (m_month d + 12) (set_year (m_year d - 1) d) else d).

Definition leap (year : Z) : Z := if IsLeapYear year then 1 else 0.

Definition DaysToNextYear (d : Date) : Z :=
  if ((2 <? m_month d) || ((m_month d =? 2) && (28 <? m_day d)))%bool then 365 + leap (m_year d + 1) else 365 + leap (m_year d).
Definition DaysToPreviousYear (d : Date) : Z :=
  if ((m_month d <? 2) || ((m_month d =? 2) && (m_day d <? 28)))%bool then 365 + leap (m_year d - 1) else 365 + leap (m_year d).

Definition DaysToNextMonth (d : Date) : option Z :=
  this_month_days ← DaysInMonth (m_year d) (m_month d);
  next_month_days ← DaysInNextMonth (m_year d) (m_month d);
  Some (if m_day d <=? next_month_days then this_month_days else next_month_days + this_month_days - m_day d).
Definition DaysToPreviousMonth (d : Date) : option Z :=
  prev_month_days ← DaysInPreviousMonth (m_year d) (m_month d);
  Some (m_day d `max` prev_month_days).

(** A loop that adds years or months, [step] at a time, while there are the
    days for it. *)
Fixpoint add_loop (fuel : nat) (needs : Date → option Z) (step : Date → option Date) (days : Z) (d : Date) : option (Z * Date) :=
  need ← needs d;
  if days <? need then Some (days, d)
  else match fuel with O => None | S fuel => d ← step d; add_loop fuel needs step (days - need) d end.

Definition AddDays (fuel : nat) (days : Z) (d : Date) : option Date :=
  if days =? 0 then Some d
  else if 0 <? days then
    '(days, d) ← add_loop fuel (λ d, Some (DaysToNextYear d)) (AddYears 1) days d;
    '(days, d) ← add_loop fuel DaysToNextMonth (AddMonths 1) days d;
    let d := set_day (m_day d + days) d in
    days_in_month ← DaysInMonth (m_year d) (m_month d);
    if days_in_month <? m_day d then AddMonths 1 (set_day (m_day d - days_in_month) d) else Some d
  else if days =? - 2 ^ 31 then None
  else
    '(days, d) ← add_loop fuel (λ d, Some (DaysToPreviousYear d)) (AddYears (-1)) (- days) d;
    '(days, d) ← add_loop fuel DaysToPreviousMonth (AddMonths (-1)) days d;
    (* [m_day] is a [uint8_t]: a day below 1 is stored as one from 200 on *)
    let d := set_day (m_day d - days) d in
    if m_day d <? 1 then
      days_in_prev_month ← DaysInPreviousMonth (m_year d) (m_month d);
      AddMonths (-1) (set_day (m_day d + days_in_prev_month) d)
    else Some d.

Definition Increment (d : Date) : option Date :=
  let d := set_day (m_day d + 1) d in
  days ← DaysInMonth (m_year d) (m_month d);
  Some (if days <? m_day d then
          let d := set_month (m_month d + 1) (set_day 1 d) in
          if 12 <? m_month d then set_month 1 (set_year (m_year d + 1) d) else d
        else d).

Definition Decrement (d : Date) : option Date :=
  let d := set_day (m_day d - 1) d in
  if m_day d =? 0 then
    let d := set_month (m_month d - 1) d in
    let d := if m_month d =? 0 then set_year (m_year d - 1) (set_month 12 d) else d in
    days ← DaysInMonth (m_year d) (m_month d);
    Some (set_day days d)
  else Some d.

Definition Compare (lhs rhs : Date) : Z :=
  if m_year rhs <? m_year lhs then 1
  else if m_year lhs <? m_year rhs then -1
  else if m_month rhs <? m_month lhs then 1
  else if m_month lhs <? m_month rhs then -1
  else if m_day rhs <? m_day lhs then 1
  else if m_day lhs <? m_day rhs then -1
  else 0.

Definition NextDay := Increment.
Definition NextMonth := AddMonths 1.
Definition NextYear := AddYears 1.

(** The loops over years and months of [DaysTo], and the one over days. *)
Fixpoint days_to_loop (fuel : nat) (next : Date → option Date) (needs : Date → option Z) (to from : Date) (days : Z) :
    option (Date * Z) :=
  n ← next from;
  if 0 <? Compare n to then Some (from, days)
  else
    match fuel with
    | O => None
    | S fuel => need ← needs from; days_to_loop fuel next needs to n (days + need)
    end.

Fixpoint day_loop (fuel : nat) (to from : Date) (days : Z) : option Z :=
  if Compare from to <? 0 then
    match fuel with O => None | S fuel => from ← Increment from; day_loop fuel to from (days + 1) end
  else Some days.

(** A later date is the argument. *)
Definition days_to_later (fuel : nat) (to from : Date) : option Z :=
  '(from, days) ← days_to_loop fuel NextYear (λ d, Some (DaysToNextYear d)) to from 0;
  '(from, days) ← days_to_loop fuel NextMonth DaysToNextMonth to from days;
  day_loop fuel to from days.
Definition DaysTo (fuel : nat) (to d : Date) : option Z :=
  if Compare to d <? 0 then days_to_later fuel d to else days_to_later fuel to d.

(** ** Days counted *)

(** The days of all the years before [year], from year 1 on. *)
Definition before_year (year : Z) : Z := 365 * year + (year - 1) / 4 - (year - 1) / 100 + (year - 1) / 400.

Definition month_table : list Z := [0; 0; 31; 59; 90; 120; 151; 181; 212; 243; 273; 304; 334; 365].
Definition before_month (year month : Z) : Z :=
  default 0 (month_table !! Z.to_nat month) + (if 2 <? month then leap year else 0).

(** The number of a day. *)
Definition daynum (d : Date) : Z := before_year (m_year d) + before_month (m_year d) (m_month d) + m_day d.

Definition valid (d : Date) : Prop := IsValid (m_year d) (m_month d) (m_day d) = Some true ∧ - 2 ^ 15 <= m_year d < 2 ^ 15.

Lemma rem_mod x n : 0 < n → (Z.rem x n =? 0) = (x mod n =? 0).
Proof.
  intros Hn. assert (H : Z.rem x n = 0 ↔ x mod n = 0) by (rewrite Z.rem_divide, Z.mod_divide by lia; done).
  destruct (Z.eqb_spec (Z.rem x n) 0), (Z.eqb_spec (x mod n) 0); tauto.
Qed.

Lemma leap_01 year : 0 <= leap year <= 1.
Proof. unfold leap. by destruct (IsLeapYear year). Qed.

Lemma before_year_succ year : before_year (year + 1) = before_year year + 365 + leap year.
Proof.
  unfold before_year, leap, IsLeapYear. rewrite !rem_mod by lia. rewrite Z.add_simpl_r.
  assert (H : ∀ n, 0 < n → year / n = (year - 1) / n + (if year mod n =? 0 then 1 else 0)).
  { intros n Hn. destruct (Z.eqb_spec (year mod n) 0); Z.to_euclidean_division_equations; nia. }
  rewrite !H by lia.
  assert (H400 : year mod 400 = 0 → year mod 100 = 0) by (intros; Z.to_euclidean_division_equations; lia).
  assert (H100 : year mod 100 = 0 → year mod 4 = 0) by (intros; Z.to_euclidean_division_equations; lia).
  destruct (Z.eqb_spec (year mod 4) 0), (Z.eqb_spec (year mod 100) 0), (Z.eqb_spec (year mod 400) 0); cbn; lia.
Qed.

Definition month_days (year month : Z) : Z := default 0 (DaysInMonth year month).

(** A claim about every month. *)
Lemma by_month (P : Z → Prop) : P 1 → P 2 → P 3 → P 4 → P 5 → P 6 → P 7 → P 8 → P 9 → P 10 → P 11 → P 12 →
  ∀ month, 1 <= month <= 12 → P month.
Proof.
  intros ???????????? month ?. destruct (decide (month = 1)) as [->|]; [done|]. destruct (decide (month = 2)) as [->|]; [done|].
  destruct (decide (month = 3)) as [->|]; [done|]. destruct (decide (month = 4)) as [->|]; [done|].
  destruct (decide (month = 5)) as [->|]; [done|]. destruct (decide (month = 6)) as [->|]; [done|].
  destruct (decide (month = 7)) as [->|]; [done|]. destruct (decide (month = 8)) as [->|]; [done|].
  destruct (decide (month = 9)) as [->|]; [done|]. destruct (decide (month = 10)) as [->|]; [done|].
  destruct (decide (month = 11)) as [->|]; [done|]. by replace month with 12 by lia.
Qed.

Ltac each_month := apply by_month; cbn; unfold leap; (destruct (IsLeapYear _); cbn; repeat split; lia || done).

Lemma month_facts year month : 1 <= month <= 12 → DaysInMonth year month = Some (month_days year month) ∧
  28 <= month_days year month <= 31 ∧ before_month year (month + 1) = before_month year month + month_days year month.
Proof. revert month. unfold month_days, before_month. each_month. Qed.

Lemma s16_small x : - 2 ^ 15 <= x < 2 ^ 15 → s16 x = x.
Proof. intros H. unfold s16. rewrite Z.mod_small by lia. lia. Qed.

Lemma valid_iff y m x : valid (mkDate y m x) ↔ - 2 ^ 15 <= y < 2 ^ 15 ∧ 1 <= m <= 12 ∧ 1 <= x <= month_days y m.
Proof.
  unfold valid, IsValid. cbn [m_year m_month m_day]. destruct (Z.ltb_spec m 1), (Z.ltb_spec 12 m); cbn [orb]; try (split; [intros [? _]; done|lia]).
  destruct (Z.ltb_spec x 1); [split; [by intros [? _]|lia]|]. destruct (month_facts y m) as (-> & _); [lia|]. cbn [mbind option_bind].
  destruct (Z.ltb_spec (month_days y m) x); cbn; split; intros; naive_solver lia.
Qed.

Lemma first_of_year y : before_month y 1 = 0.
Proof. done. Qed.

Lemma december y : before_month y 12 + month_days y 12 = 365 + leap y ∧ month_days y 12 = 31.
Proof. split; [|done]. unfold before_month, month_days, leap. by destruct (IsLeapYear y). Qed.

Lemma Increment_ok d : valid d → m_year d < 2 ^ 15 - 1 → ∃ d', Increment d = Some d' ∧ valid d' ∧ daynum d' = daynum d + 1.
Proof.
  destruct d as [y m x]. rewrite valid_iff. intros (Hy & Hm & Hx) Hmax. cbn [m_year] in Hmax. destruct (month_facts y m Hm) as (E & Hd & Hb).
  unfold Increment, set_day, set_month, set_year. cbn [m_year m_month m_day]. rewrite (u8_small (x + 1)) by (unfold is_byte; lia). rewrite E. cbn [mbind option_bind].
  unfold daynum. destruct (Z.ltb_spec (month_days y m) (x + 1)); cbn [m_year m_month m_day].
  - rewrite (u8_small (m + 1)) by (unfold is_byte; lia). change (u8 1) with 1. destruct (Z.ltb_spec 12 (m + 1)).
    + assert (m = 12) as -> by lia. rewrite s16_small by lia. eexists. split; [done|]. rewrite valid_iff.
      destruct (month_facts (y + 1) 1) as (_ & Hd1 & _); [lia|]. split; [lia|]. cbn [m_year m_month m_day].
      rewrite before_year_succ, first_of_year. destruct (december y). lia.
    + eexists. split; [done|]. rewrite valid_iff. destruct (month_facts y (m + 1)) as (_ & Hd1 & _); [lia|]. split; [lia|].
      cbn [m_year m_month m_day]. lia.
  - eexists. split; [done|]. rewrite valid_iff. split; [lia|]. cbn [m_year m_month m_day]. lia.
Qed.

Lemma Decrement_ok d : valid d → - 2 ^ 15 < m_year d → ∃ d', Decrement d = Some d' ∧ valid d' ∧ daynum d' = daynum d - 1.
Proof.
  destruct d as [y m x]. rewrite valid_iff. intros (Hy & Hm & Hx) Hmin. cbn [m_year] in Hmin. destruct (month_facts y m Hm) as (E & Hd & Hb).
  unfold Decrement, set_day, set_month, set_year. cbn [m_year m_month m_day]. rewrite (u8_small (x - 1)) by (unfold is_byte; lia).
  unfold daynum. destruct (Z.eqb_spec (x - 1) 0); cbn [m_year m_month m_day].
  - rewrite (u8_small (m - 1)) by (unfold is_byte; lia). change (u8 12) with 12. destruct (Z.eqb_spec (m - 1) 0); cbn [m_year m_month m_day].
    + assert (m = 1) as -> by lia. rewrite s16_small by lia. destruct (month_facts (y - 1) 12) as (-> & Hd1 & _); [lia|]. cbn [mbind option_bind].
      rewrite u8_small by (unfold is_byte; lia). eexists. split; [done|]. rewrite valid_iff. split; [lia|]. cbn [m_year m_month m_day].
      pose proof (before_year_succ (y - 1)) as Hy1. rewrite Z.sub_add in Hy1. destruct (december (y - 1)). rewrite first_of_year. lia.
    + destruct (month_facts y (m - 1)) as (-> & Hd1 & Hb1); [lia|]. rewrite Z.sub_add in Hb1. cbn [mbind option_bind].
      rewrite u8_small by (unfold is_byte; lia). eexists. split; [done|]. rewrite valid_iff. split; [lia|]. cbn [m_year m_month m_day]. lia.
  - eexists. split; [done|]. rewrite valid_iff. split; [lia|]. cbn [m_year m_month m_day]. lia.
Qed.

(** *** Order *)

Lemma before_month_step y m k : (1 <= m)%Z → m + Z.of_nat k <= 12 →
  before_month y m + month_days y m <= before_month y (m + Z.of_nat (S k)).
Proof.
  intros Hm. induction k as [|k IH]; intros Hk.
  - destruct (month_facts y m) as (_ & _ & E); [lia|]. replace (m + Z.of_nat 1) with (m + 1) by lia. lia.
  - destruct (month_facts y (m + Z.of_nat (S k))) as (_ & Hd & E); [lia|]. replace (m + Z.of_nat (S (S k))) with (m + Z.of_nat (S k) + 1) by lia.
    rewrite E. specialize (IH ltac:(lia)). lia.
Qed.

Lemma before_month_later y m n : 1 <= m < n → n <= 13 → before_month y m + month_days y m <= before_month y n.
Proof.
  intros Hm Hn. pose proof (before_month_step y m (Z.to_nat (n - m - 1))) as H. replace (m + Z.of_nat (S (Z.to_nat (n - m - 1)))) with n in H by lia.
  apply H; lia.
Qed.

Lemma before_year_later y k : before_year y + 365 * (Z.of_nat k + 1) + leap y <= before_year (y + Z.of_nat (S k)).
Proof.
  induction k as [|k IH].
  - replace (y + Z.of_nat 1) with (y + 1) by lia. rewrite before_year_succ. lia.
  - replace (y + Z.of_nat (S (S k))) with (y + Z.of_nat (S k) + 1) by lia. rewrite before_year_succ. pose proof (leap_01 (y + Z.of_nat (S k))). lia.
Qed.

(** A valid date lies in its year and its month. *)
Lemma day_in_year y m x : 1 <= m <= 12 → 1 <= x <= month_days y m → 1 <= before_month y m + x <= 365 + leap y.
Proof.
  intros Hm Hx. assert (E13 : before_month y 13 = 365 + leap y) by done.
  pose proof (before_month_later y m 13 ltac:(lia) ltac:(lia)). assert (0 <= before_month y m); [|lia].
  destruct (Z.eq_dec m 1) as [->|]; [done|]. pose proof (before_month_later y 1 m ltac:(lia) ltac:(lia)) as H1.
  rewrite first_of_year in H1. destruct (month_facts y 1) as (_ & Hd & _); [lia|]. lia.
Qed.

Lemma Compare_ok a b : valid a → valid b → Compare a b = Z.sgn (daynum a - daynum b).
Proof.
  destruct a as [y m x], b as [y' m' x']. rewrite !valid_iff. intros (Hy & Hm & Hx) (Hy' & Hm' & Hx').
  pose proof (day_in_year y m x Hm Hx). pose proof (day_in_year y' m' x' Hm' Hx').
  assert (Hyear : ∀ y1 y2, y1 < y2 → before_year y1 + 365 + leap y1 <= before_year y2).
  { intros y1 y2 Hlt. pose proof (before_year_later y1 (Z.to_nat (y2 - y1 - 1))) as Hl.
    replace (y1 + Z.of_nat (S (Z.to_nat (y2 - y1 - 1)))) with y2 in Hl by lia. lia. }
  unfold Compare, daynum. cbn [m_year m_month m_day].
  destruct (Z.ltb_spec y' y) as [Hl|]; [specialize (Hyear y' y Hl); symmetry; apply Z.sgn_pos; lia|].
  destruct (Z.ltb_spec y y') as [Hl|]; [specialize (Hyear y y' Hl); symmetry; apply Z.sgn_neg; lia|]. assert (y' = y) as -> by lia.
  destruct (Z.ltb_spec m' m) as [Hl|]; [pose proof (before_month_later y m' m ltac:(lia) ltac:(lia)); symmetry; apply Z.sgn_pos; lia|].
  destruct (Z.ltb_spec m m') as [Hl|]; [pose proof (before_month_later y m m' ltac:(lia) ltac:(lia)); symmetry; apply Z.sgn_neg; lia|].
  assert (m' = m) as -> by lia. repeat case_ztest; symmetry; [apply Z.sgn_pos|apply Z.sgn_neg|apply Z.sgn_null]; lia.
Qed.

(** *** Years and months at a time, up to day 28 *)

Lemma adjust_small d : m_day d <= 28 → AdjustMonthLimit d = Some d.
Proof. intros H. unfold AdjustMonthLimit. destruct (Z.ltb_spec 28 (m_day d)); [lia|]. by rewrite andb_false_r. Qed.

(** A step forward to the same day later. *)
Definition steps_to (needs : Date → option Z) (step : Date → option Date) (d d' : Date) : Prop :=
  ∃ need, needs d = Some need ∧ 28 <= need <= 366 ∧ step d = Some d' ∧ daynum d' = daynum d + need ∧ valid d' ∧ m_day d' = m_day d.

Lemma NextYear_ok d : valid d → m_day d <= 28 → m_year d < 2 ^ 15 - 1 →
  steps_to (λ d, Some (DaysToNextYear d)) NextYear d (mkDate (m_year d + 1) (m_month d) (m_day d)).
Proof.
  destruct d as [y m x]. rewrite valid_iff. cbn [m_year m_month m_day]. intros (Hy & Hm & Hx) Hx28 Hmax.
  unfold steps_to, NextYear, AddYears, SetYear, set_year. cbn [m_year m_month m_day]. rewrite s16_small, adjust_small by (cbn; lia). cbn [mbind option_bind].
  eexists. split; [done|]. unfold daynum, DaysToNextYear, before_month. cbn [m_year m_month m_day]. rewrite before_year_succ.
  pose proof (leap_01 y). pose proof (leap_01 (y + 1)). rewrite valid_iff. destruct (month_facts (y + 1) m Hm) as (_ & Hd & _).
  destruct (Z.ltb_spec 2 m); cbn [orb].
  - split_and!; try done; lia.
  - destruct (Z.ltb_spec 28 x); [lia|]. rewrite andb_false_r. split_and!; try done; lia.
Qed.

Lemma month_needs d : valid d → m_day d <= 28 → DaysToNextMonth d = Some (month_days (m_year d) (m_month d)).
Proof.
  destruct d as [y m x]. rewrite valid_iff. cbn [m_year m_month m_day]. intros (Hy & Hm & Hx) Hx28.
  destruct (month_facts y m Hm) as (E & Hd & Hb). unfold DaysToNextMonth, DaysInNextMonth. cbn [m_year m_month m_day]. rewrite E. cbn [mbind option_bind].
  destruct (Z.ltb_spec m 12).
  - destruct (month_facts y (m + 1)) as (-> & Hd' & _); [lia|]. cbn [mbind option_bind]. destruct (Z.leb_spec x (month_days y (m + 1))); [done|lia].
  - destruct (month_facts (y + 1) 1) as (-> & Hd' & _); [lia|]. cbn [mbind option_bind]. destruct (Z.leb_spec x (month_days (y + 1) 1)); [done|lia].
Qed.

Definition next_month (d : Date) : Date :=
  if m_month d =? 12 then mkDate (m_year d + 1) 1 (m_day d) else mkDate (m_year d) (m_month d + 1) (m_day d).

Lemma NextMonth_ok d : valid d → m_day d <= 28 → m_year d < 2 ^ 15 - 1 ∨ m_month d < 12 →
  steps_to DaysToNextMonth NextMonth d (next_month d).
Proof.
  destruct d as [y m x]. rewrite valid_iff. cbn [m_year m_month m_day]. intros (Hy & Hm & Hx) Hx28 Hmax.
  destruct (month_facts y m Hm) as (E & Hd & Hb).
  assert (Eneed : DaysToNextMonth (mkDate y m x) = Some (month_days y m)) by (apply month_needs; [by rewrite valid_iff|done]).
  exists (month_days y m). split; [done|]. split; [lia|].
  unfold NextMonth, AddMonths, next_month, set_month, set_year. cbn [Z.eqb Z.ltb Z.compare m_year m_month m_day].
  change (1 ÷ 12) with 0. change (Z.rem 1 12) with 1. rewrite Z.add_0_r, (s16_small y), (u8_small (m + 1)) by (unfold is_byte; lia).
  unfold daynum. destruct (Z.ltb_spec 12 (m + 1)), (Z.eqb_spec m 12); try lia; rewrite adjust_small by (cbn; lia).
  - subst m. rewrite s16_small by lia. change (u8 (12 + 1 - 12)) with 1. split; [done|]. cbn [m_year m_month m_day]. rewrite valid_iff.
    destruct (month_facts (y + 1) 1) as (_ & Hd1 & _); [lia|]. destruct (december y). rewrite before_year_succ, first_of_year. split_and!; try done; lia.
  - split; [done|]. cbn [m_year m_month m_day]. rewrite valid_iff. destruct (month_facts y (m + 1)) as (_ & Hd1 & _); [lia|]. split_and!; try done; lia.
Qed.

(** The last day that fits. *)
Definition last_daynum : Z := before_year (2 ^ 15).

Lemma year_fits d : valid d → daynum d + 365 <= last_daynum → m_year d < 2 ^ 15 - 1.
Proof.
  destruct d as [y m x]. rewrite valid_iff. cbn [m_year]. intros (Hy & Hm & Hx). unfold daynum, last_daynum. cbn [m_year m_month m_day].
  pose proof (day_in_year y m x Hm Hx). destruct (Z.eq_dec y (2 ^ 15 - 1)) as [->|]; [|lia].
  assert (before_year (2 ^ 15) = before_year (2 ^ 15 - 1) + 365) by reflexivity. lia.
Qed.

Lemma month_fits d : valid d → daynum d + month_days (m_year d) (m_month d) <= last_daynum → m_year d < 2 ^ 15 - 1 ∨ m_month d < 12.
Proof.
  destruct d as [y m x]. rewrite valid_iff. cbn [m_year m_month]. intros (Hy & Hm & Hx). unfold daynum, last_daynum. cbn [m_year m_month m_day].
  destruct (Z.eq_dec y (2 ^ 15 - 1)) as [->|]; [|lia]. destruct (Z.eq_dec m 12) as [->|]; [|lia].
  destruct (december (2 ^ 15 - 1)) as [E E31]. assert (before_year (2 ^ 15) = before_year (2 ^ 15 - 1) + (365 + leap (2 ^ 15 - 1))) by reflexivity. lia.
Qed.

Lemma add_loop_ok needs step (Hstep : ∀ d need, valid d → m_day d <= 28 → needs d = Some need → daynum d + need <= last_daynum →
    ∃ d', steps_to needs step d d') (Hneeds : ∀ d, valid d → m_day d <= 28 → is_Some (needs d)) fuel days d :
  valid d → m_day d <= 28 → 0 <= days <= Z.of_nat fuel → daynum d + days <= last_daynum →
  ∃ days' d' need, add_loop fuel needs step days d = Some (days', d') ∧ valid d' ∧ m_day d' <= 28 ∧ 0 <= days' <= days ∧
    daynum d' + days' = daynum d + days ∧ needs d' = Some need ∧ days' < need.
Proof.
  revert days d. induction fuel as [|fuel IH]; intros days d Hd Hx Hdays Hmax; destruct (Hneeds d Hd Hx) as [need En]; cbn [add_loop];
    rewrite En; cbn [mbind option_bind]; (destruct (Z.ltb_spec days need); [by exists days, d, need; split_and!; try done; lia|]).
  - destruct (Hstep d need) as (d' & need' & En' & Hn & _); try done; [lia|]. rewrite En in En'. injection En' as <-. lia.
  - destruct (Hstep d need) as (d' & need' & En' & Hn & Es & Ed & Hd' & Hx'); try done; [lia|]. rewrite En in En'. injection En' as <-.
    rewrite Es. cbn [mbind option_bind]. destruct (IH (days - need) d') as (days2 & d2 & need2 & E & ? & ? & ? & Hsum & ? & ?); [done|lia|lia|lia|].
    exists days2, d2, need2. split_and!; try done; lia.
Qed.

Lemma year_steps d need : valid d → m_day d <= 28 → Some (DaysToNextYear d) = Some need → daynum d + need <= last_daynum →
  ∃ d', steps_to (λ d, Some (DaysToNextYear d)) NextYear d d'.
Proof.
  intros Hd Hx [= <-] Hmax. eexists. apply NextYear_ok; [done|done|]. apply year_fits; [done|].
  unfold DaysToNextYear in Hmax. pose proof (leap_01 (m_year d)). pose proof (leap_01 (m_year d + 1)). case_match; lia.
Qed.

Lemma month_steps d need : valid d → m_day d <= 28 → DaysToNextMonth d = Some need → daynum d + need <= last_daynum →
  ∃ d', steps_to DaysToNextMonth NextMonth d d'.
Proof.
  intros Hd Hx En Hmax. rewrite month_needs in En by done. injection En as <-. eexists. apply NextMonth_ok; [done|done|by apply month_fits].
Qed.

Lemma AddDays_ok fuel n d : valid d → m_day d <= 28 → 0 <= n <= Z.of_nat fuel → daynum d + n <= last_daynum →
  ∃ d', AddDays fuel n d = Some d' ∧ valid d' ∧ daynum d' = daynum d + n.
Proof.
  intros Hd Hx Hn Hmax. unfold AddDays. destruct (Z.eqb_spec n 0) as [->|]; [exists d; split_and!; [done|done|lia]|].
  destruct (Z.ltb_spec 0 n); [|lia].
  destruct (add_loop_ok _ (AddYears 1) year_steps ltac:(by eexists) fuel n d) as (n1 & d1 & need1 & -> & Hd1 & Hx1 & Hn1 & Hs1 & _); [done|done|lia|done|].
  cbn [mbind option_bind].
  destruct (add_loop_ok _ (AddMonths 1) month_steps ltac:(intros; rewrite month_needs by done; by eexists) fuel n1 d1)
    as (n2 & d2 & need2 & -> & Hd2 & Hx2 & Hn2 & Hs2 & En & Hlt); [done|done|lia|lia|].
  cbn [mbind option_bind]. rewrite month_needs in En by done. injection En as <-.
  destruct d2 as [y m x]. cbn [m_year m_month m_day] in *. pose proof Hd2 as Hv. rewrite valid_iff in Hv. destruct Hv as (Hy & Hm & Hxv).
  destruct (month_facts y m Hm) as (E & Hdim & Hb). unfold set_day. cbn [m_year m_month m_day]. rewrite (u8_small (x + n2)) by (unfold is_byte; lia).
  rewrite E. cbn [mbind option_bind]. destruct (Z.ltb_spec (month_days y m) (x + n2)).
  - rewrite u8_small by (unfold is_byte; lia). set (d3 := mkDate y m _).
    assert (Hd3 : valid d3) by (unfold d3; rewrite valid_iff; lia).
    assert (Edn : daynum d3 + month_days y m = daynum d + n) by (unfold d3, daynum in *; cbn [m_year m_month m_day] in *; lia).
    destruct (NextMonth_ok d3) as (need & En & _ & Es & Ed & Hd' & _); [done|unfold d3; cbn; lia|apply month_fits; [done|unfold d3 in *; cbn [m_year m_month] in *; lia]|].
    rewrite month_needs in En by (done || unfold d3; cbn; lia). injection En as <-. exists (next_month d3). split_and!; [exact Es|done|].
    rewrite Ed. exact Edn.
  - eexists. split; [done|]. rewrite valid_iff. split; [lia|]. unfold daynum in *. cbn [m_year m_month m_day] in *. lia.
Qed.

(** *** Counting the days to a date *)

Lemma days_to_loop_ok needs next to (Hto : valid to) (Hmax : daynum to <= last_daynum)
    (Hstep : ∀ d, valid d → m_day d <= 28 → m_year d < 2 ^ 15 - 1 → ∃ d', steps_to needs next d d') (Hty : m_year to < 2 ^ 15 - 1) fuel from days :
  valid from → m_day from <= 28 → daynum from <= daynum to → daynum to - daynum from < Z.of_nat fuel →
  ∃ from' days', days_to_loop fuel next needs to from days = Some (from', days') ∧ valid from' ∧ m_day from' <= 28 ∧
    daynum from <= daynum from' <= daynum to ∧ days' - daynum from' = days - daynum from.
Proof.
  revert from days. induction fuel as [|fuel IH]; intros from days Hf Hx Hle Hfu; [lia|].
  assert (Hy : m_year from < 2 ^ 15 - 1).
  { pose proof (Compare_ok from to Hf Hto) as Hc. assert (Compare from to <= 0) by (rewrite Hc; lia). unfold Compare in *.
    destruct (Z.ltb_spec (m_year to) (m_year from)); lia. }
  destruct (Hstep from Hf Hx Hy) as (n & need & En & Hneed & Es & Ed & Hn & Hxn). cbn [days_to_loop]. rewrite Es. cbn [mbind option_bind].
  rewrite Compare_ok by done. destruct (Z.ltb_spec 0 (Z.sgn (daynum n - daynum to))).
  - exists from, days. split_and!; try done; lia.
  - rewrite En. cbn [mbind option_bind]. destruct (IH n (days + need)) as (from' & days' & -> & ? & ? & ? & ?); [done|lia|lia|lia|].
    exists from', days'. split_and!; try done; lia.
Qed.

Lemma day_loop_ok to fuel from days : valid to → valid from → m_year to < 2 ^ 15 - 1 → daynum from <= daynum to →
  daynum to - daynum from <= Z.of_nat fuel → day_loop fuel to from days = Some (days + (daynum to - daynum from)).
Proof.
  intros Hto. revert from days. induction fuel as [|fuel IH]; intros from days Hf Hy Hle Hfu; cbn [day_loop]; rewrite Compare_ok by done;
    destruct (Z.ltb_spec (Z.sgn (daynum from - daynum to)) 0); try lia; try (f_equal; lia).
  destruct (Increment_ok from Hf) as (n & -> & Hn & En).
  { assert (Compare from to <= 0) by (rewrite Compare_ok by done; lia). unfold Compare in *. destruct (Z.ltb_spec (m_year to) (m_year from)); lia. }
  cbn [mbind option_bind]. rewrite IH by (done || lia). f_equal. lia.
Qed.

Lemma days_to_later_ok fuel to from : valid to → valid from → m_day from <= 28 → m_year to < 2 ^ 15 - 1 → daynum from <= daynum to →
  daynum to - daynum from < Z.of_nat fuel → days_to_later fuel to from = Some (daynum to - daynum from).
Proof.
  intros Hto Hf Hx Hy Hle Hfu. unfold days_to_later.
  assert (Hmax : daynum to <= last_daynum).
  { destruct to as [y m x]. pose proof Hto as Hv. rewrite valid_iff in Hv. destruct Hv as (? & Hm & Hxv). cbn [m_year] in Hy. unfold daynum, last_daynum. cbn [m_year m_month m_day].
    pose proof (day_in_year y m x Hm Hxv). pose proof (leap_01 y). pose proof (before_year_later y (Z.to_nat (2 ^ 15 - y - 1))) as Hl.
    replace (y + Z.of_nat (S (Z.to_nat (2 ^ 15 - y - 1)))) with (2 ^ 15) in Hl by lia. lia. }
  destruct (days_to_loop_ok (λ d, Some (DaysToNextYear d)) NextYear to Hto Hmax ltac:(intros; eexists; by apply NextYear_ok) Hy fuel from 0)
    as (f1 & n1 & -> & Hf1 & Hx1 & Hb1 & E1); [done|done|done|done|]. cbn [mbind option_bind].
  destruct (days_to_loop_ok DaysToNextMonth NextMonth to Hto Hmax ltac:(intros; eexists; apply NextMonth_ok; auto) Hy fuel f1 n1)
    as (f2 & n2 & -> & Hf2 & Hx2 & Hb2 & E2); [done|done|lia|lia|]. cbn [mbind option_bind].
  rewrite day_loop_ok by (done || lia). f_equal. lia.
Qed.

(** ** The theorems *)

Lemma daynum_inj a b : valid a → valid b → daynum a = daynum b → a = b.
Proof.
  intros Ha Hb E. pose proof (Compare_ok a b Ha Hb) as Hc. rewrite E, Z.sub_diag in Hc. destruct a as [y m x], b as [y' m' x'].
  unfold Compare in Hc. revert Hc. cbn [m_year m_month m_day Z.sgn]. repeat (case_ztest; try done). intros _. f_equal; lia.
Qed.

Lemma later_year a b : valid a → valid b → daynum a <= daynum b → m_year a <= m_year b.
Proof.
  intros Ha Hb Hle. pose proof (Compare_ok a b Ha Hb) as Hc. assert (Compare a b <= 0) by lia. unfold Compare in *.
  destruct (Z.ltb_spec (m_year b) (m_year a)); lia.
Qed.

(** Dates in order.  [Compare] of valid dates, on which all the operators
    rest, is the sign of the difference of their day numbers, which tell dates
    apart.  [++] and [--] give the next and the previous day, valid again,
    and undo each other, unless the year leaves the 16 bits. *)
Theorem date_steps a b : valid a → valid b →
  Compare a b = Z.sgn (daynum a - daynum b) ∧ (daynum a = daynum b → a = b) ∧
  (m_year a < 2 ^ 15 - 1 → ∃ n, Increment a = Some n ∧ valid n ∧ daynum n = daynum a + 1 ∧
    (- 2 ^ 15 < m_year a → Decrement n = Some a)) ∧
  (- 2 ^ 15 < m_year a → ∃ p, Decrement a = Some p ∧ valid p ∧ daynum p = daynum a - 1).
Proof.
  intros Ha Hb. split; [by apply Compare_ok|]. split; [by apply daynum_inj|]. split; [|by apply Decrement_ok].
  intros Hy. destruct (Increment_ok a Ha Hy) as (n & E & Hn & En). exists n. split_and!; try done.
  intros Hmin. pose proof (later_year a n Ha Hn ltac:(lia)). destruct (Decrement_ok n Hn) as (p & Ep & Hp & Enp); [lia|].
  rewrite Ep. f_equal. apply daynum_inj; [done|done|lia].
Qed.

(** Adding and counting days.  From a date whose day is at most 28,
    AddDays of a number of days not negative gives the valid date with that
    many more days, over months and leap years, and DaysTo counts the days
    between such a date and any later one; enough fuel is the number of
    days. *)
Theorem date_add_days fuel n a b : valid a → valid b → m_day a <= 28 → m_year b < 2 ^ 15 - 1 →
  (0 <= n <= Z.of_nat fuel → daynum a + n <= last_daynum →
   ∃ d, AddDays fuel n a = Some d ∧ valid d ∧ daynum d = daynum a + n) ∧
  (daynum a <= daynum b → daynum b - daynum a < Z.of_nat fuel → DaysTo fuel b a = Some (daynum b - daynum a)).
Proof.
  intros Ha Hb Hx Hy. split; [by apply AddDays_ok|]. intros Hle Hfu. unfold DaysTo. rewrite Compare_ok by done.
  destruct (Z.ltb_spec (Z.sgn (daynum b - daynum a)) 0); [lia|]. by apply days_to_later_ok.
Qed.

Example date_steps_witness :
  Compare (mkDate 2012 2 29) (mkDate 2012 3 1) = -1 ∧ Increment (mkDate 2012 2 29) = Some (mkDate 2012 3 1) ∧
  Decrement (mkDate 2012 3 1) = Some (mkDate 2012 2 29).
Proof.
  destruct (date_steps (mkDate 2012 2 29) (mkDate 2012 3 1)) as (Hc & _ & Hi & _).
  - split; [reflexivity|cbn; lia].
  - split; [reflexivity|cbn; lia].
  - split; [etransitivity; [exact Hc|vm_compute; reflexivity]|]. destruct Hi as (n & E & _ & _ & H); [cbn; lia|].
    assert (En : n = mkDate 2012 3 1) by (vm_compute in E; injection E as <-; reflexivity). subst n.
    split; [exact E|]. apply H. cbn. lia.
Defined.

Example date_add_days_witness :
  ∃ d, AddDays 1000 1000 (mkDate 1999 12 25) = Some d ∧ d = mkDate 2002 9 20 ∧ DaysTo 1001 d (mkDate 1999 12 25) = Some 1000.
Proof.
  destruct (date_add_days 1001 1000 (mkDate 1999 12 25) (mkDate 2002 9 20)) as (Ha & Hto).
  - split; [reflexivity|cbn; lia].
  - split; [reflexivity|cbn; lia].
  - cbn. lia.
  - cbn. lia.
  - exists (mkDate 2002 9 20). split; [vm_compute; reflexivity|]. split; [reflexivity|]. rewrite Hto; [vm_compute; reflexivity| |];
      vm_compute; [discriminate|reflexivity].
Defined.

(** What goes wrong: from the last days of a month months are miscounted, and
    a month or a day that falls below 1 wraps around in its [uint8_t]. *)
Example add_days_day_31 : AddDays 30 30 (mkDate 2013 3 31) = Some (mkDate 2013 5 1).
Proof. reflexivity. Qed.
Example sub_days_wraps : AddDays 30 (-10) (mkDate 2013 3 5) = Some (mkDate 2013 3 251).
Proof. reflexivity. Qed.
Example sub_months_wraps : AddMonths (-5) (mkDate 2013 3 5) = Some (mkDate 2013 254 5).
Proof. reflexivity. Qed.
Example set_month_13 : SetMonth 13 (mkDate 2013 3 5) = Some (true, mkDate 2013 13 5).
Proof. reflexivity. Qed.
