(* ===== verification/Random.v ===== *)
(** * The random number generator

    Model of base/random.h and base/random.cpp: the minimal standard
    generator, whose product modulo 2^31 - 1 is taken without 64-bit
    arithmetic. *)

From S2P Require Import Prelude.

Record Random := mkRandom { seed_ : Z }.

(** The modulus and the multiplier of [Next]. *)
Definition M : Z := 2147483647.
Definition A : Z := 16807.

(** [if (lo > M) { lo &= M; ++lo; }]: 2^31 is 1 modulo M, so the top bit is
    added at the bottom. *)
Definition reduce (lo : Z) : Z := if M <? lo then u32 (Z.land lo M + 1) else lo.

(** [A * static_cast<int32_t>(seed_ & 0xFFFF)] is a product of [int]s, at most
    16807 * 65535 and so within 31 bits; the other product is unsigned. *)
Definition Next (r : Random) : Z * Random :=
  let lo := u32 (A * s32 (Z.land (seed_ r) 0xFFFF)) in
  let hi := u32 (A * Z.shiftr (u32 (seed_ r)) 16) in
  let lo := u32 (lo + u32 (Z.shiftl (Z.land hi 0x7FFF) 16)) in
  let lo := reduce lo in
  let lo := u32 (lo + Z.shiftr hi 15) in
  let lo := reduce lo in
  (s32 lo, mkRandom (s32 lo)).

(** The remainder of C++ has the sign of the dividend. *)
Definition Uniform (n : Z) (r : Random) : Z * Random :=
  let (x, r) := Next r in (Z.rem x n, r).

Definition Reset (seed : Z) (r : Random) : Random := mkRandom seed.

Definition OneIn (n : Z) (r : Random) : bool * Random :=
  let (x, r) := Next r in (Z.rem x n =? 0, r).

Definition Skewed (max_log : Z) (r : Random) : Z * Random :=
  let (base, r) := Uniform (max_log + 1) r in
  let (x, r) := Uniform (s32 (Z.shiftl 1 base)) r in (u32 x, r).

(** ** The product modulo M *)

(** The seeds in use after the first number. *)
Definition seed_ok (r : Random) : Prop := 0 < seed_ r < M.

Lemma reduce_mod lo : 0 <= lo < 2 ^ 31 + M → 0 <= reduce lo <= M ∧ reduce lo mod M = lo mod M.
Proof.
  intros Hlo. unfold reduce. destruct (Z.ltb_spec M lo) as [Hm|Hm]; [|lia].
  assert (Hl : Z.land lo M = lo - 2 ^ 31).
  { change M with (2 ^ 31 - 1). rewrite land_ones_mod by lia. unfold M in *.
    symmetry. apply Z.mod_unique_pos with 1; lia. }
  rewrite Hl, u32_small by (unfold M in *; lia). split; [unfold M in *; lia|].
  replace lo with (lo - 2 ^ 31 + 1 + 1 * M) at 2 by (unfold M; lia). by rewrite Z.mod_add.
Qed.

(** M is prime to the multiplier: no zero is reached. *)
Lemma product_not_zero s : s mod M ≠ 0 → (s * A) mod M ≠ 0.
Proof.
  intros Hs H. apply Hs. apply Z.mod_divide in H; [|done]. apply Z.mod_divide; [done|].
  apply Z.gauss with A; [by rewrite Z.mul_comm|reflexivity].
Qed.

Lemma Next_eq r : u32 (seed_ r) mod M ≠ 0 →
  Next r = let x := (u32 (seed_ r) * A) mod M in (x, mkRandom x).
Proof.
  destruct r as [s]. cbn [seed_]. intros Hs. unfold Next. cbn [seed_].
  change 0xFFFF with (2 ^ 16 - 1). change 0x7FFF with (2 ^ 15 - 1).
  rewrite !land_ones_mod, !Z.shiftr_div_pow2, Z.shiftl_mul_pow2 by lia.
  replace (s mod 2 ^ 16) with (u32 s mod 2 ^ 16) by (unfold u32; rewrite Z.mod_mod_divide; [done|by exists (2 ^ 16)]).
  pose proof (Z.mod_pos_bound s (2 ^ 32) ltac:(lia)) as Hu. fold (u32 s) in Hu.
  set (u := u32 s) in *.
  pose proof (Z.div_mod u (2 ^ 16) ltac:(lia)) as Hd.
  pose proof (Z.mod_pos_bound u (2 ^ 16) ltac:(lia)) as Hb.
  set (l := u mod 2 ^ 16) in *. set (h := u / 2 ^ 16) in *.
  assert (0 <= h < 2 ^ 16) as Hh by lia.
  rewrite (s32_small l) by lia. unfold A in *. rewrite (u32_small (16807 * l)) by lia.
  rewrite (u32_small (16807 * h)) by lia.
  pose proof (Z.div_mod (16807 * h) (2 ^ 15) ltac:(lia)) as Hd2.
  pose proof (Z.mod_pos_bound (16807 * h) (2 ^ 15) ltac:(lia)) as Hb2.
  set (hl := 16807 * h mod 2 ^ 15) in *. set (hh := 16807 * h / 2 ^ 15) in *.
  assert (0 <= hh < 33614) as Hhh by lia.
  rewrite (u32_small (hl * 2 ^ 16)) by lia.
  rewrite (u32_small (16807 * l + hl * 2 ^ 16)) by lia.
  destruct (reduce_mod (16807 * l + hl * 2 ^ 16)) as [Hr1 Hm1]; [unfold M; lia|].
  set (lo := reduce (16807 * l + hl * 2 ^ 16)) in *.
  rewrite (u32_small (lo + hh)) by (unfold M in *; lia).
  destruct (reduce_mod (lo + hh)) as [Hr2 Hm2]; [unfold M in *; lia|].
  set (lo2 := reduce (lo + hh)) in *.
  assert (Hprod : lo2 mod M = (u * 16807) mod M).
  { rewrite Hm2, Z.add_mod, Hm1, <- Z.add_mod by done.
    replace (u * 16807) with (16807 * l + hl * 2 ^ 16 + hh + hh * M) by (unfold M; lia).
    by rewrite Z.mod_add. }
  pose proof (product_not_zero _ Hs) as Hnz. unfold A in Hnz. rewrite <- Hprod in Hnz.
  assert (lo2 ≠ M) by (intros ->; by rewrite Z.mod_same in Hnz).
  rewrite Z.mod_small in Hprod by lia. cbn zeta. rewrite s32_small by (unfold M in *; lia).
  by rewrite Hprod.
Qed.

(** From any seed but the multiples of M (0, M, -2 as an unsigned number and
    so on) the generator stays within [1, M). *)
Lemma Next_seed_ok r : u32 (seed_ r) mod M ≠ 0 → seed_ok (Next r).2 ∧ (Next r).1 = seed_ (Next r).2.
Proof.
  intros H. rewrite Next_eq by done. cbn. split; [|done]. unfold seed_ok. cbn.
  pose proof (Z.mod_pos_bound (u32 (seed_ r) * A) M ltac:(done)).
  pose proof (product_not_zero _ H). lia.
Qed.

Lemma seed_ok_nz r : seed_ok r → u32 (seed_ r) mod M ≠ 0.
Proof.
  unfold seed_ok. intros H. rewrite u32_small by (unfold M in *; lia).
  rewrite Z.mod_small; lia.
Qed.

(** [n] numbers in a row. *)
Fixpoint Next_n (n : nat) (r : Random) : Random :=
  match n with O => r | S n => Next_n n (Next r).2 end.

Lemma Next_n_power n r : seed_ok r →
  seed_ok (Next_n n r) ∧ seed_ (Next_n n r) = (seed_ r * A ^ Z.of_nat n) mod M.
Proof.
  revert r. induction n as [|n IH]; intros r Hr; cbn [Next_n].
  { split; [done|]. rewrite Z.mul_1_r, Z.mod_small; [done|]. unfold seed_ok in Hr. lia. }
  pose proof (seed_ok_nz _ Hr) as Hnz. destruct (IH (Next r).2) as [Hok Heq].
  { by apply Next_seed_ok. }
  split; [done|]. rewrite Heq, Next_eq by done. cbn [seed_ fst snd].
  rewrite u32_small by (unfold seed_ok, M in *; lia).
  rewrite Z.mul_mod_idemp_l by done. f_equal.
  rewrite Nat2Z.inj_succ, Z.pow_succ_r by lia. lia.
Qed.

Lemma Uniform_range n r : u32 (seed_ r) mod M ≠ 0 → 0 < n → 0 <= (Uniform n r).1 < n.
Proof.
  intros H Hn. unfold Uniform. destruct (Next r) as [x r'] eqn:E.
  pose proof (Next_seed_ok r H) as [Hok Hx]. rewrite E in Hok, Hx. cbn in *. subst x.
  unfold seed_ok in Hok. rewrite Z.rem_mod_nonneg by lia. by apply Z.mod_pos_bound.
Qed.

Lemma Skewed_range n r : seed_ok r → 0 <= n < 31 → 0 <= (Skewed n r).1 < 2 ^ n.
Proof.
  intros H Hn. unfold Skewed. destruct (Uniform (n + 1) r) as [b r'] eqn:E.
  pose proof (Uniform_range (n + 1) r (seed_ok_nz _ H) ltac:(lia)) as Hb. rewrite E in Hb. cbn in Hb.
  assert (seed_ok r') as Hr'.
  { unfold Uniform in E. destruct (Next r) as [x q] eqn:E2. inversion E; subst.
    pose proof (Next_seed_ok r (seed_ok_nz _ H)) as [Hok _]. by rewrite E2 in Hok. }
  assert (Hp : 0 < 2 ^ b <= 2 ^ n) by (split; [lia|apply Z.pow_le_mono_r; lia]).
  assert (2 ^ n < 2 ^ 31) by (apply Z.pow_lt_mono_r; lia).
  rewrite Z.shiftl_1_l, s32_small by lia.
  pose proof (Uniform_range (2 ^ b) r' (seed_ok_nz _ Hr') ltac:(lia)) as Hu.
  destruct (Uniform (2 ^ b) r') as [x q]. cbn in *. rewrite u32_small by lia. lia.
Qed.

(** The generator's published check value: 10000 numbers from seed 1. *)
Lemma Next_check : seed_ (Next_n (Z.to_nat 10000) (mkRandom 1)) = 1043618065.
Proof. vm_compute. reflexivity. Qed.
