(* ===== verification/SkipList.v ===== *)
(** * The skip list

    Model of container/skiplist.h.  Nodes live in a store that only grows (the
    arena frees nothing before the list is destroyed); the address of a node
    is its index, and the head is at address 0.  A search is a loop of atomic
    loads and [Insert] a sequence of atomic stores, so that a search of one
    thread can be interleaved with the insertions of another.  Loads and
    stores are sequentially consistent: the barriers of [AtomicPointer] that
    make publication safe on weaker machines are not modelled, but that no
    search meets a link not yet initialised is proved. *)

From S2P Require Import Prelude Random.

(** The value of an [AtomicPointer]: NULL, a node, or uninitialised memory. *)
Inductive pointer := Null | At (a : nat) | Garbage.

#[export] Instance pointer_eq_dec : EqDecision pointer.
Proof. solve_decision. Defined.

Definition kMaxHeight : nat := 12.

(** ** Comparators *)

(** What the list asks of the comparator: a total preorder. *)
Class Comparator {K : Type} (compare_ : K → K → Z) := {
  compare_antisym a b : compare_ a b < 0 ↔ 0 < compare_ b a;
  compare_trans a b c : compare_ a b <= 0 → compare_ b c <= 0 → compare_ a c <= 0
}.

Section SkipList.
Context {K : Type} (compare_ : K → K → Z) (zero_key : K).

Record Node := mkNode {
  key : K;
  next_ : list pointer     (* as many as the node is high *)
}.

(** [NewNode]: the constructor of [next_[0]] sets it to NULL, the links above
    it are not initialised. *)
Definition new_node (k : K) (height : nat) : Node :=
  mkNode k (Null :: replicate (height - 1) Garbage).

Record SkipList := mkSkipList {
  nodes : list Node;       (* the arena *)
  max_height_ : nat;
  rnd_ : Random
}.

Definition head_ : nat := 0.

(** [Node::Next] and [NoBarrier_Next]: no value outside the node's array. *)
Definition Node_Next (l : SkipList) (a n : nat) : option pointer :=
  nodes l !! a ≫= λ x, next_ x !! n.

Definition node_key (l : SkipList) (a : nat) : option K := key <$> nodes l !! a.

(** [Node::SetNext] and [NoBarrier_SetNext] *)
Definition SetNext (a n : nat) (p : pointer) (l : SkipList) : option SkipList :=
  x ← nodes l !! a; _ ← next_ x !! n;
  Some (mkSkipList (<[a := mkNode (key x) (<[n := p]> (next_ x))]> (nodes l))
          (max_height_ l) (rnd_ l)).

(** The constructor: [Random rnd_(0xdeadbeef)] converts to [int32_t]. *)
Definition new_SkipList : SkipList :=
  mkSkipList [mkNode zero_key (replicate kMaxHeight Null)] 1 (mkRandom (s32 0xdeadbeef)).

Definition GetMaxHeight (l : SkipList) : nat := max_height_ l.

Definition Equal (a b : K) : bool := compare_ a b =? 0.

(** ** Searches

    The body of each search loop makes one load of a link; it continues with
    the new [x] and [level] or returns.  Following an uninitialised link or
    reading past a node is undefined: no value. *)
Inductive step (R : Type) := Continue (x level : nat) | Return (r : R).
Arguments Continue {R}. Arguments Return {R}.

(** [KeyIsAfterNode] *)
Definition KeyIsAfterNode (l : SkipList) (k : K) (n : pointer) : option bool :=
  match n with
  | Null => Some false
  | At a => k' ← node_key l a; Some (compare_ k' k <? 0)
  | Garbage => None
  end.

Definition down {R} (x level : nat) (r : R) : step R :=
  match level with O => Return r | S level => Continue x level end.

(** The body of [FindGreaterOrEqual]; what it writes to [prev] is below. *)
Definition FindGreaterOrEqual_body (l : SkipList) (k : K) (x level : nat) : option (step pointer) :=
  next ← Node_Next l x level;
  after ← KeyIsAfterNode l k next;
  match after, next with
  | true, At n => Some (Continue n level)
  | _, _ => Some (down x level next)
  end.

(** [FindLessThan]; the assertion that [x] is before the key comes first. *)
Definition FindLessThan_body (l : SkipList) (k : K) (x level : nat) : option (step pointer) :=
  kx ← node_key l x;
  if (bool_decide (x = head_) || (compare_ kx k <? 0))%bool then
    next ← Node_Next l x level;
    match next with
    | Null => Some (down x level (At x))
    | At n => kn ← node_key l n;
        Some (if 0 <=? compare_ kn k then down x level (At x) else Continue n level)
    | Garbage => None
    end
  else None.

Definition FindLast_body (l : SkipList) (x level : nat) : option (step pointer) :=
  next ← Node_Next l x level;
  match next with
  | Null => Some (down x level (At x))
  | At n => Some (Continue n level)
  | Garbage => None
  end.

Inductive search := GreaterOrEqual (k : K) | LessThan (k : K) | Last.

Definition search_body (q : search) (l : SkipList) (x level : nat) : option (step pointer) :=
  match q with
  | GreaterOrEqual k => FindGreaterOrEqual_body l k x level
  | LessThan k => FindLessThan_body l k x level
  | Last => FindLast_body l x level
  end.

(** [while (true)] from [x] and [level]. *)
Fixpoint search_loop (fuel : nat) (q : search) (l : SkipList) (x level : nat) : option pointer :=
  match fuel with
  | O => None
  | S fuel =>
      r ← search_body q l x level;
      match r with
      | Continue x level => search_loop fuel q l x level
      | Return r => Some r
      end
  end.

Definition search_fuel (l : SkipList) : nat := kMaxHeight * S (length (nodes l)).

Definition run_search (q : search) (l : SkipList) : option pointer :=
  search_loop (search_fuel l) q l head_ (GetMaxHeight l - 1).

Definition FindLessThan (l : SkipList) (k : K) := run_search (LessThan k) l.
Definition FindLast (l : SkipList) := run_search Last l.

(** [FindGreaterOrEqual] with [prev]: an array of which the entries of the
    levels passed are set. *)
Fixpoint FindGreaterOrEqual_loop (fuel : nat) (l : SkipList) (k : K) (x level : nat)
    (prev : gmap nat nat) : option (pointer * gmap nat nat) :=
  match fuel with
  | O => None
  | S fuel =>
      r ← FindGreaterOrEqual_body l k x level;
      match r with
      | Continue x' level' =>
          FindGreaterOrEqual_loop fuel l k x' level'
            (if bool_decide (level' = level) then prev else <[level := x]> prev)
      | Return r => Some (r, <[level := x]> prev)
      end
  end.

Definition FindGreaterOrEqual (l : SkipList) (k : K) : option (pointer * gmap nat nat) :=
  FindGreaterOrEqual_loop (search_fuel l) l k head_ (GetMaxHeight l - 1) ∅.

(** [FindGreaterOrEqual(key, NULL)] *)
Definition FindGreaterOrEqual_NULL (l : SkipList) (k : K) := run_search (GreaterOrEqual k) l.

Definition Contains (l : SkipList) (k : K) : option bool :=
  x ← FindGreaterOrEqual_NULL l k;
  match x with
  | Null => Some false
  | At a => k' ← node_key l a; Some (Equal k k')
  | Garbage => None
  end.

(** ** Insertion *)

(** [RandomHeight]; [Next] is converted to unsigned by the remainder. *)
Fixpoint RandomHeight_loop (fuel height : nat) (r : Random) : nat * Random :=
  match fuel with
  | O => (height, r)
  | S fuel =>
      if (height <? kMaxHeight)%nat then
        let (x, r) := Random.Next r in
        if u32 x mod 4 =? 0 then RandomHeight_loop fuel (S height) r else (height, r)
      else (height, r)
  end.

Definition RandomHeight (r : Random) : nat * Random := RandomHeight_loop kMaxHeight 1 r.

(** The stores of [Insert] in order: the generator's seed, [max_height_], the
    new node, and for each level the link of the node and the link to it. *)
Inductive store :=
  | SetSeed (r : Random)
  | SetMaxHeight (height : nat)
  | NewNode (k : K) (height : nat)
  | CopyNext (x i prev : nat)     (* x->NoBarrier_SetNext(i, prev->NoBarrier_Next(i)) *)
  | Publish (prev i x : nat).     (* prev->SetNext(i, x) *)

Definition run_store (s : store) (l : SkipList) : option SkipList :=
  match s with
  | SetSeed r => Some (mkSkipList (nodes l) (max_height_ l) r)
  | SetMaxHeight height => Some (mkSkipList (nodes l) height (rnd_ l))
  | NewNode k height => Some (mkSkipList (nodes l ++ [new_node k height]) (max_height_ l) (rnd_ l))
  | CopyNext x i prev => p ← Node_Next l prev i; SetNext x i p l
  | Publish prev i x => SetNext prev i (At x) l
  end.

Fixpoint run_stores (ss : list store) (l : SkipList) : option SkipList :=
  match ss with [] => Some l | s :: ss => run_store s l ≫= run_stores ss end.

(** The loop over the levels from [i]; [prev] is read where it was set. *)
Fixpoint link_stores (prev : gmap nat nat) (x i count : nat) : option (list store) :=
  match count with
  | O => Some []
  | S count =>
      p ← prev !! i; ss ← link_stores prev x (S i) count;
      Some (CopyNext x i p :: Publish p i x :: ss)
  end.

(** [for (int i = GetMaxHeight(); i < height; i++) prev[i] = head_;] *)
Definition raise_prev (l : SkipList) (height : nat) (prev : gmap nat nat) : gmap nat nat :=
  foldr (λ i, <[i := head_]>) prev (seq (GetMaxHeight l) (height - GetMaxHeight l)).

(** [Insert] up to its first store; the assertion against a key that is in
    the list comes before. *)
Definition Insert_stores (k : K) (l : SkipList) : option (list store) :=
  '(x, prev) ← FindGreaterOrEqual l k;
  present ← match x with
            | Null => Some false
            | At a => k' ← node_key l a; Some (Equal k k')
            | Garbage => None
            end;
  if (present : bool) then None
  else
    let (height, r) := RandomHeight (rnd_ l) in
    let raise := (GetMaxHeight l <? height)%nat in
    let prev := if raise then raise_prev l height prev else prev in
    ss ← link_stores prev (length (nodes l)) 0 height;
    Some (SetSeed r :: (if raise then [SetMaxHeight height] else []) ++ NewNode k height :: ss).

Definition Insert (k : K) (l : SkipList) : option SkipList :=
  ss ← Insert_stores k l; run_stores ss l.

(** ** Iterators *)

Definition Iterator := pointer.
Definition new_Iterator : Iterator := Null.

Definition Valid (it : Iterator) : bool := bool_decide (it ≠ Null).

Definition Iterator_key (l : SkipList) (it : Iterator) : option K :=
  match it with At a => node_key l a | _ => None end.

Definition Iterator_Next (l : SkipList) (it : Iterator) : option Iterator :=
  match it with At a => Node_Next l a 0 | _ => None end.

(** [if (node_ == list_->head_) node_ = NULL;] *)
Definition not_head (p : pointer) : Iterator := if bool_decide (p = At head_) then Null else p.

Definition Iterator_Prev (l : SkipList) (it : Iterator) : option Iterator :=
  k ← Iterator_key l it; not_head <$> FindLessThan l k.

Definition Iterator_Seek (l : SkipList) (target : K) : option Iterator :=
  FindGreaterOrEqual_NULL l target.

Definition SeekToFirst (l : SkipList) : option Iterator := Node_Next l head_ 0.

Definition SeekToLast (l : SkipList) : option Iterator := not_head <$> FindLast l.

(** Insertions one after the other. *)
Fixpoint Insert_all (ks : list K) (l : SkipList) : option SkipList :=
  match ks with [] => Some l | k :: ks => Insert k l ≫= Insert_all ks end.

(** Iterations from the first entry on, and from the last one back. *)
Fixpoint forward (fuel : nat) (l : SkipList) (it : Iterator) : option (list K) :=
  match fuel with
  | O => None
  | S fuel =>
      if Valid it then
        k ← Iterator_key l it; it ← Iterator_Next l it; ks ← forward fuel l it; Some (k :: ks)
      else Some []
  end.

Fixpoint backward (fuel : nat) (l : SkipList) (it : Iterator) : option (list K) :=
  match fuel with
  | O => None
  | S fuel =>
      if Valid it then
        k ← Iterator_key l it; it ← Iterator_Prev l it; ks ← backward fuel l it; Some (k :: ks)
      else Some []
  end.

(** ** The contents *)

(** The keys along the lowest level. *)
Fixpoint walk (fuel : nat) (l : SkipList) (p : option pointer) : list K :=
  match fuel, p with
  | S fuel, Some (At a) =>
      match node_key l a with Some k => k :: walk fuel l (Node_Next l a 0) | None => [] end
  | _, _ => []
  end.

Definition contents (l : SkipList) : list K :=
  walk (length (nodes l)) l (Node_Next l head_ 0).

(** ** A search beside insertions

    The writer begins an insertion when the last is complete, or makes its
    next store; the reader makes the next load of its search. *)
Inductive reader := Searching (x level : nat) | Found (p : pointer).

Record system := mkSystem {
  shared : SkipList;
  todo : list store;
  reading : reader
}.

Definition start_search (l : SkipList) : reader := Searching head_ (GetMaxHeight l - 1).

Definition reader_of (r : step pointer) : reader :=
  match r with Continue x level => Searching x level | Return p => Found p end.

(** The states the writer brings the list to, with the stores that remain. *)
Inductive written : SkipList → list store → Prop :=
  | written_new : written new_SkipList []
  | written_begin l k ss :
      written l [] → Insert_stores k l = Some ss → written l ss
  | written_store l l' s ss :
      written l (s :: ss) → run_store s l = Some l' → written l' ss.

Inductive thread := Writer | Reader.

#[export] Instance thread_eq_dec : EqDecision thread.
Proof. solve_decision. Defined.

Inductive sys_step (q : search) : thread → system → system → Prop :=
  | begin_insert l r k ss :
      Insert_stores k l = Some ss →
      sys_step q Writer (mkSystem l [] r) (mkSystem l ss r)
  | make_store l l' s ss r :
      run_store s l = Some l' →
      sys_step q Writer (mkSystem l (s :: ss) r) (mkSystem l' ss r)
  | make_load l ss x level r :
      search_body q l x level = Some r →
      sys_step q Reader (mkSystem l ss (Searching x level)) (mkSystem l ss (reader_of r)).

(** Steps in order, with the thread of each. *)
Inductive execution (q : search) : system → list thread → system → Prop :=
  | execution_nil s : execution q s [] s
  | execution_snoc s ts s' t s'' :
      execution q s ts s' → sys_step q t s' s'' → execution q s (ts ++ [t]) s''.

(** The keys a search is to find among sorted keys. *)
Definition is_before (q : search) (k' : K) : bool :=
  match q with
  | GreaterOrEqual k | LessThan k => compare_ k' k <? 0
  | Last => true
  end.

Definition search_answer (q : search) (ks : list K) : option K :=
  match q with
  | GreaterOrEqual k => head (filter (λ k', ¬ is_before q k') ks)
  | _ => last (filter (λ k', is_before q k') ks)
  end.

(** The key at the result of a search, none for NULL and the head. *)
Definition found_key (l : SkipList) (p : pointer) : option K :=
  match not_head p with At a => node_key l a | _ => None end.

(** Insertion into sorted keys. *)
Definition insert_key (k : K) (ks : list K) : list K :=
  filter (λ k', compare_ k' k < 0) ks ++ k :: filter (λ k', ¬ compare_ k' k < 0) ks.

End SkipList.

#[global] Arguments RandomHeight : simpl never.
#[global] Arguments Insert_stores : simpl never.
#[global] Arguments Continue {R}.
#[global] Arguments Return {R}.

(** The comparator of the tests and an example. *)
Definition compare_uint (a b : Z) : Z := if a <? b then -1 else if b <? a then 1 else 0.

Fixpoint insert_all (ks : list Z) (l : SkipList) : option SkipList :=
  match ks with [] => Some l | k :: ks => Insert compare_uint k l ≫= insert_all ks end.
