(* ===== verification/SkipListFacts.v ===== *)
(** * Theorems on the skip list

    The invariant: on every level the links run through sorted keys, each
    level through nodes of the level below.  Every store of an insertion keeps
    it, so that it holds whenever a search makes a load. *)

From Stdlib Require Import Sorting.Sorted.
From S2P Require Import Prelude Random SkipList.

(** ** Sorted lists *)

Lemma filter_cut_at {A} (P : A → Prop) `{∀ x, Decision (P x)} L1 L2 :
  Forall P L1 → Forall (λ x, ¬ P x) L2 →
  filter P (L1 ++ L2) = L1 ∧ filter (λ x, ¬ P x) (L1 ++ L2) = L2.
Proof.
  intros H1 H2. rewrite !filter_app. rewrite (filter_every P L1), (filter_none P L2) by done.
  rewrite (filter_every _ L2) by done. rewrite filter_none; [by rewrite app_nil_r|].
  eapply Forall_impl; [exact H1|]. tauto.
Qed.

Section Sorted.
Context {A : Type} (R : A → A → Prop).

Lemma sorted_concat L1 L2 :
  StronglySorted R (L1 ++ L2) ↔
  StronglySorted R L1 ∧ StronglySorted R L2 ∧ ∀ x y, x ∈ L1 → y ∈ L2 → R x y.
Proof.
  induction L1 as [|a L1 IH]; cbn.
  { split; [|tauto]. intros H. split_and!; [constructor|done|set_solver]. }
  split.
  - intros [H1 H2]%StronglySorted_inv. apply IH in H1 as (?&?&Hr).
    rewrite Forall_app, !Forall_forall in H2. destruct H2 as [Ha Hb].
    split_and!; [by constructor; [|apply Forall_forall]|done|].
    intros x y [->|Hx]%elem_of_cons Hy; auto.
  - intros ([H1 H2]%StronglySorted_inv & H3 & H4). constructor.
    + apply IH. split_and!; [done..|]. intros x y Hx Hy. apply H4; [by right|done].
    + apply Forall_app. split; [done|]. apply Forall_forall. intros y Hy. apply H4; [by left|done].
Qed.

(** A predicate that holds of everything before an element of which it holds
    cuts a sorted list in two. *)
Lemma filter_cut (P : A → Prop) `{∀ x, Decision (P x)} L :
  StronglySorted R L → (∀ x y, R x y → P y → P x) →
  L = filter P L ++ filter (λ x, ¬ P x) L.
Proof.
  intros Hs Hc. induction Hs as [|a L Hs IH Ha]; [done|]. rewrite !filter_cons.
  destruct (decide (P a)) as [Hp|Hp].
  - rewrite decide_False by tauto. cbn. by f_equal.
  - rewrite decide_True by done. assert (Hn : Forall (λ x, ¬ P x) L).
    { eapply Forall_impl; [exact Ha|]. cbn. intros x Hx Hpx. eauto. }
    rewrite (filter_none P L), (filter_every (λ x, ¬ P x) L) by done. done.
Qed.

Lemma sorted_unique L1 L2 :
  (∀ x y, R x y → R y x → False) → StronglySorted R L1 → StronglySorted R L2 →
  (∀ x, x ∈ L1 ↔ x ∈ L2) → L1 = L2.
Proof.
  intros Ha H1. revert L2. induction H1 as [|a L1 H1 IH F1]; intros L2 H2 He.
  { destruct L2 as [|b L2]; [done|]. specialize (He b). set_solver. }
  destruct H2 as [|b L2 H2 F2]; [specialize (He a); set_solver|].
  rewrite Forall_forall in F1, F2.
  assert (a = b) as ->.
  { assert (Hb : b ∈ a :: L1) by (apply He; by left).
    assert (Hd : a ∈ b :: L2) by (apply He; by left).
    apply elem_of_cons in Hb as [->|Hb]; [done|]. apply elem_of_cons in Hd as [->|Hd]; [done|].
    destruct (Ha a b); auto. }
  f_equal. apply IH; [done|]. intros x. specialize (He x). rewrite !elem_of_cons in He.
  split; intros Hx.
  - destruct He as [[->|?] _]; auto. destruct (Ha b b); auto.
  - destruct He as [_ [->|?]]; auto. destruct (Ha b b); auto.
Qed.
End Sorted.

(** The one way two cuts of a list can lie. *)
Lemma app_cases {A} (L1 L2 P Q : list A) :
  L1 ++ L2 = P ++ Q →
  (∃ J, P = L1 ++ J ∧ L2 = J ++ Q) ∨ (∃ a J, L1 = P ++ a :: J ∧ Q = a :: J ++ L2).
Proof.
  intros H. apply app_eq_inv in H as [(k&->&->)|(k&->&->)].
  - destruct k as [|a k]; [left; exists []; by rewrite ?app_nil_r|]. right. by exists a, k.
  - left. by exists k.
Qed.

Section Facts.
Context {K : Type} (compare_ : K → K → Z) (zero_key : K) `{!Comparator compare_}.

Local Abbreviation SkipList := (SkipList (K := K)).
Local Abbreviation lists := (nat → list (nat * K)).
Local Abbreviation search := (search (K := K)).
Local Abbreviation store := (store (K := K)).

(** ** The comparator *)

Definition klt (a b : K) : Prop := compare_ a b < 0.

Lemma compare_eq_sym a b : compare_ a b = 0 ↔ compare_ b a = 0.
Proof.
  pose proof (compare_antisym a b). pose proof (compare_antisym b a). lia.
Qed.

Lemma klt_irrefl a : ¬ klt a a.
Proof. unfold klt. pose proof (compare_antisym a a). lia. Qed.

Lemma klt_le_trans a b c : klt a b → compare_ b c <= 0 → klt a c.
Proof.
  unfold klt. intros H1 H2. destruct (Z.lt_ge_cases (compare_ a c) 0) as [|Hge]; [done|].
  assert (compare_ c a <= 0).
  { pose proof (compare_antisym c a). pose proof (compare_antisym a c).
    pose proof (compare_eq_sym a c). lia. }
  pose proof (compare_trans b c a H2 ltac:(done)). pose proof (compare_antisym a b). lia.
Qed.

Lemma le_klt_trans a b c : compare_ a b <= 0 → klt b c → klt a c.
Proof.
  unfold klt. intros H1 H2. destruct (Z.lt_ge_cases (compare_ a c) 0) as [|Hge]; [done|].
  assert (compare_ c a <= 0).
  { pose proof (compare_antisym c a). pose proof (compare_antisym a c).
    pose proof (compare_eq_sym a c). lia. }
  pose proof (compare_trans c a b ltac:(done) H1). pose proof (compare_antisym b c). lia.
Qed.

Lemma klt_trans a b c : klt a b → klt b c → klt a c.
Proof. intros H1 H2. eapply klt_le_trans; [exact H1|]. unfold klt in H2. lia. Qed.

Lemma klt_asym a b : klt a b → klt b a → False.
Proof. intros H1 H2. by eapply klt_irrefl, klt_trans. Qed.

Lemma not_klt a b : ¬ klt a b → compare_ a b ≠ 0 → klt b a.
Proof. unfold klt. intros H1 H2. pose proof (compare_antisym b a). lia. Qed.

Definition plt (p q : nat * K) : Prop := klt p.2 q.2.
Definition sorted (L : list (nat * K)) : Prop := StronglySorted plt L.

Definition before (q : search) (p : nat * K) : Prop := is_before compare_ q p.2.

#[local] Instance before_dec q p : Decision (before q p).
Proof. unfold before. apply _. Defined.

Lemma before_closed q x y : plt x y → before q y → before q x.
Proof.
  unfold before, plt. destruct q as [k|k|]; cbn; [| |done];
  rewrite !Is_true_true, !Z.ltb_lt; apply klt_trans.
Qed.

Local Abbreviation pre q L := (filter (before q) L).
Local Abbreviation post q L := (filter (λ p, ¬ before q p) L).

Lemma sorted_cut q L : sorted L → L = pre q L ++ post q L.
Proof. intros H. eapply filter_cut; [exact H|]. apply before_closed. Qed.

(** ** Links *)

(** The address a prefix of a level ends at, and the pointer to a suffix. *)
Definition end_of (L : list (nat * K)) : nat := default head_ (last L.*1).
Definition ptr_of (L : list (nat * K)) : pointer :=
  match L with [] => Null | p :: _ => At p.1 end.

Lemma end_of_snoc L p : end_of (L ++ [p]) = p.1.
Proof. unfold end_of. rewrite fmap_app. change [p].*1 with [p.1]. by rewrite last_snoc. Qed.

Lemma end_of_cons_app L p M : end_of (L ++ p :: M) = end_of (p :: M).
Proof.
  unfold end_of. rewrite fmap_app, fmap_cons, last_app_cons. done.
Qed.

Lemma end_of_elem L : L = [] ∨ ∃ L' p, L = L' ++ [p] ∧ end_of L = p.1.
Proof.
  destruct L as [|p L] using rev_ind; [by left|]. right. exists L, p. by rewrite end_of_snoc.
Qed.

(** Following the links of level [i] from the head. *)
Record linked (l : SkipList) (i : nat) (L : list (nat * K)) : Prop := {
  linked_next L1 L2 : L = L1 ++ L2 → Node_Next l (end_of L1) i = Some (ptr_of L2);
  linked_key p : p ∈ L → node_key l p.1 = Some p.2;
  linked_head : head_ ∉ L.*1
}.

Record wf (l : SkipList) (ls : lists) : Prop := {
  wf_linked i : (i < kMaxHeight)%nat → linked l i (ls i);
  wf_sorted i : sorted (ls i);
  wf_incl i : ls (S i) ⊆ ls i;
  wf_high i : (max_height_ l ≤ i)%nat → ls i = [];
  wf_max : (1 ≤ max_height_ l ≤ kMaxHeight)%nat
}.

Lemma wf_incl_le l ls i j : wf l ls → (i ≤ j)%nat → ls j ⊆ ls i.
Proof. intros H. induction 1; [done|]. etransitivity; [apply H|done]. Qed.

(** An address occurs once in a level. *)
Lemma sorted_keys_differ L p q : sorted L → p ∈ L → q ∈ L → compare_ p.2 q.2 = 0 → p = q.
Proof.
  intros Hs. induction Hs as [|a L Hs IH Ha]; [set_solver|]. rewrite Forall_forall in Ha.
  intros [->|Hp]%elem_of_cons [->|Hq]%elem_of_cons He; [done|..].
  - specialize (Ha _ Hq). unfold plt, klt in Ha. lia.
  - specialize (Ha _ Hp). apply compare_eq_sym in He. unfold plt, klt in Ha. lia.
  - auto.
Qed.

Lemma compare_refl a : compare_ a a = 0.
Proof. pose proof (compare_antisym a a). lia. Qed.

Lemma linked_nodup l i L : linked l i L → sorted L → NoDup L.*1.
Proof.
  intros H Hs. assert (Hk := linked_key _ _ _ H). clear H.
  induction Hs as [|a L Hs IH Ha]; [constructor|]. cbn. constructor.
  - intros (q & Hq & Hi)%list_elem_of_fmap. rewrite Forall_forall in Ha. specialize (Ha q Hi).
    assert (node_key l a.1 = Some a.2) as E1 by (apply Hk; by left).
    assert (node_key l q.1 = Some q.2) as E2 by (apply Hk; by right).
    rewrite Hq, E2 in E1. injection E1 as E1. unfold plt in Ha. rewrite E1 in Ha. by apply klt_irrefl in Ha.
  - apply IH. intros p Hp. apply Hk. by right.
Qed.

(** So the end of a prefix tells the prefix. *)
Lemma end_of_inj L1 L2 M1 M2 :
  NoDup (L1 ++ L2).*1 → head_ ∉ (L1 ++ L2).*1 → L1 ++ L2 = M1 ++ M2 → end_of L1 = end_of M1 →
  L1 = M1.
Proof.
  revert M1 M2. assert (Hgen : ∀ L1 L2 a J, NoDup (L1 ++ a :: J ++ L2).*1 →
    head_ ∉ (L1 ++ a :: J ++ L2).*1 → end_of L1 ≠ end_of (L1 ++ a :: J)).
  { clear. intros L1 L2 a J Hn Hh. rewrite end_of_cons_app.
    destruct (end_of_elem (a :: J)) as [?|(J' & p & HJ & ->)]; [done|].
    assert (Hp : p.1 ∈ (a :: J).*1) by (rewrite HJ, fmap_app; set_solver).
    change (a :: J ++ L2) with ((a :: J) ++ L2) in *. rewrite !fmap_app in *.
    destruct (end_of_elem L1) as [->|(L' & r & -> & ->)].
    - intros He. apply Hh. unfold end_of in He. cbn in He. rewrite He. set_solver.
    - intros He. apply NoDup_app in Hn as (_ & Hd & _). apply (Hd p.1).
      + rewrite <- He, fmap_app. set_solver.
      + set_solver. }
  intros M1 M2 Hn Hh H He. pose proof H as H0.
  apply app_cases in H as [(J & -> & HJ)|(a & J & -> & HJ)].
  - destruct J as [|a J]; [by rewrite app_nil_r|]. exfalso. subst L2.
    by eapply (Hgen L1 M2 a J).
  - exfalso. rewrite <- app_assoc in Hn, Hh.
    by eapply (Hgen M1 L2 a J).
Qed.

(** ** Searches *)

Lemma node_key_of_next (l : SkipList) a i p : Node_Next l a i = Some p → is_Some (node_key l a).
Proof. unfold Node_Next, node_key. destruct (nodes l !! a); [by eexists|done]. Qed.

(** The prefix ends before the key when its last element is. *)
Lemma prefix_before q L1 p : sorted (L1 ++ [p]) → before q p → Forall (before q) (L1 ++ [p]).
Proof.
  intros (_ & _ & Hr)%sorted_concat Hp. apply Forall_app. split; [|by constructor].
  apply Forall_forall. intros x Hx. eapply before_closed; [|exact Hp]. apply Hr; [done|set_solver].
Qed.

Lemma suffix_not_before q p L2 :
  sorted (p :: L2) → ¬ before q p → Forall (λ r, ¬ before q r) (p :: L2).
Proof.
  intros [_ Hf]%StronglySorted_inv Hp. constructor; [done|].
  eapply Forall_impl; [exact Hf|]. cbn. intros r Hr Hb. apply Hp. by eapply before_closed.
Qed.

(** Where a search is: at the end of a prefix of its level whose keys are all
    before what it looks for. *)
Record at_pos (q : search) (ls : lists) (x lv : nat) (L1 L2 : list (nat * K)) : Prop := {
  ap_level : (lv < kMaxHeight)%nat;
  ap_cut : ls lv = L1 ++ L2;
  ap_x : x = end_of L1;
  ap_before : Forall (before q) L1
}.

Definition result_at (q : search) (L1 L2 : list (nat * K)) : pointer :=
  match q with GreaterOrEqual _ => ptr_of L2 | _ => At (end_of L1) end.

Lemma at_pos_down q l ls x lv L1 L2 :
  wf l ls → at_pos q ls x (S lv) L1 L2 → ∃ M1 M2, at_pos q ls x lv M1 M2.
Proof.
  intros Hw [Hl Hc -> Hb]. destruct (end_of_elem L1) as [->|(L & p & -> & Hp)].
  { exists [], (ls lv). split; [lia|done..]. }
  assert (Hin : p ∈ ls lv) by (apply (wf_incl _ _ Hw lv); rewrite Hc; set_solver).
  apply list_elem_of_split in Hin as (M1 & M2 & HM). exists (M1 ++ [p]), M2.
  assert (HM' : ls lv = (M1 ++ [p]) ++ M2) by (by rewrite <- app_assoc).
  split; [lia|done| |].
  { by rewrite !end_of_snoc. }
  apply prefix_before.
  - pose proof (wf_sorted _ _ Hw lv) as Hs. rewrite HM' in Hs. by apply sorted_concat in Hs as [? _].
  - apply Forall_app in Hb as [_ Hb]. by apply Forall_inv in Hb.
Qed.

Lemma bool_eq_true_before q p : is_before compare_ q p.2 = true ↔ before q p.
Proof. unfold before. by rewrite Is_true_true. Qed.

(** The key of the node a search is at; it is before what the search looks
    for unless the node is the head. *)
Lemma at_pos_key q l ls x lv L1 L2 :
  wf l ls → at_pos q ls x lv L1 L2 →
  ∃ kx, node_key l x = Some kx ∧ (x = head_ ∨ is_before compare_ q kx = true).
Proof.
  intros Hw [Hl Hc -> Hb]. pose proof (wf_linked _ _ Hw lv Hl) as Hk.
  destruct (end_of_elem L1) as [->|(L & p & -> & ->)].
  - pose proof (linked_next _ _ _ Hk _ _ Hc) as Hn. apply node_key_of_next in Hn as [kx Hkx].
    exists kx. auto.
  - exists p.2. rewrite (linked_key _ _ _ Hk p) by (rewrite Hc; set_solver).
    split; [done|right]. apply Forall_app in Hb as [_ Hb]. apply Forall_inv in Hb.
    by apply bool_eq_true_before.
Qed.

(** The body of the three loops at such a place. *)
Lemma search_body_eq q l ls x lv L1 L2 :
  wf l ls → at_pos q ls x lv L1 L2 →
  search_body compare_ q l x lv =
    Some (match L2 with
          | p :: _ => if is_before compare_ q p.2 then Continue p.1 lv
                      else down x lv (result_at q L1 L2)
          | [] => down x lv (result_at q L1 L2)
          end).
Proof.
  intros Hw Hp. destruct (at_pos_key _ _ _ _ _ _ _ Hw Hp) as (kx & Hkx & Hhx).
  destruct Hp as [Hl Hc -> Hb]. pose proof (wf_linked _ _ Hw lv Hl) as Hk.
  pose proof (linked_next _ _ _ Hk _ _ Hc) as Hn.
  assert (HL2 : ∀ p L, L2 = p :: L → node_key l p.1 = Some p.2).
  { intros p L ->. apply (linked_key _ _ _ Hk). rewrite Hc. set_solver. }
  destruct q as [k|k|]; cbn.
  - unfold FindGreaterOrEqual_body. rewrite Hn. cbn. destruct L2 as [|p L]; [done|].
    cbn. rewrite (HL2 _ _ eq_refl). cbn. by destruct (compare_ p.2 k <? 0).
  - unfold FindLessThan_body. rewrite Hkx. cbn.
    assert (bool_decide (end_of L1 = head_) || (compare_ kx k <? 0) = true)%bool as ->.
    { destruct Hhx as [->|Hbx]; [done|]. cbn in Hbx. rewrite Hbx. apply orb_true_r. }
    rewrite Hn. cbn. destruct L2 as [|p L]; [done|]. cbn. rewrite (HL2 _ _ eq_refl). cbn.
    rewrite Z.leb_antisym. by destruct (compare_ p.2 k <? 0).
  - unfold FindLast_body. rewrite Hn. cbn. by destruct L2.
Qed.

(** One load: on to the next node, or down. *)
Lemma search_step q l ls x lv L1 L2 :
  wf l ls → at_pos q ls x lv L1 L2 →
  (∃ p L2', L2 = p :: L2' ∧ search_body compare_ q l x lv = Some (Continue p.1 lv) ∧
            at_pos q ls p.1 lv (L1 ++ [p]) L2') ∨
  (L1 = pre q (ls lv) ∧ L2 = post q (ls lv) ∧
   search_body compare_ q l x lv = Some (down x lv (result_at q L1 L2))).
Proof.
  intros Hw Hpos. rewrite (search_body_eq _ _ _ _ _ _ _ Hw Hpos). destruct Hpos as [Hl Hc -> Hb].
  assert (HL : Forall (λ r, ¬ before q r) L2 → L1 = pre q (ls lv) ∧ L2 = post q (ls lv)).
  { intros Hf. rewrite Hc. by destruct (filter_cut_at (before q) L1 L2 Hb Hf) as [-> ->]. }
  destruct L2 as [|p L]; [right|]; [by destruct HL; [constructor|]|].
  destruct (is_before compare_ q p.2) eqn:Hp.
  - left. exists p, L. split_and!; [done..|].
    split; [done|by rewrite <- app_assoc|by rewrite end_of_snoc|].
    apply Forall_app. split; [done|]. constructor; [by apply bool_eq_true_before|constructor].
  - right. destruct HL as [H1 H2]; [|done]. apply suffix_not_before.
    + pose proof (wf_sorted _ _ Hw lv) as Hs. rewrite Hc in Hs. by apply sorted_concat in Hs as (_ & ? & _).
    + intros Hbp%bool_eq_true_before. congruence.
Qed.

(** What is left of a search: the levels below and the nodes after it. *)
Definition left_of (ls : lists) (lv : nat) (L2 : list (nat * K)) : nat :=
  (lv * S (length (ls 0%nat)) + length L2)%nat.

Lemma level_length l ls i : wf l ls → (i < kMaxHeight)%nat → (length (ls i) ≤ length (ls 0%nat))%nat.
Proof.
  intros Hw Hi. rewrite <- (length_fmap fst), <- (length_fmap fst (ls 0%nat)).
  apply submseteq_length, NoDup_submseteq.
  - eapply linked_nodup; [by eapply wf_linked|apply Hw].
  - intros a (p & -> & Hp)%list_elem_of_fmap. apply list_elem_of_fmap. exists p.
    split; [done|]. eapply (wf_incl_le _ _ 0%nat i); [done|lia|done].
Qed.

Lemma left_down l ls q x lv L2 M1 M2 :
  wf l ls → at_pos q ls x lv M1 M2 → (left_of ls lv M2 < left_of ls (S lv) L2)%nat.
Proof.
  intros Hw Hp. unfold left_of. pose proof (level_length _ _ lv Hw (ap_level _ _ _ _ _ _ Hp)) as Hl.
  rewrite (ap_cut _ _ _ _ _ _ Hp), length_app in Hl. lia.
Qed.

(** A whole search of a list at rest. *)
Lemma search_loop_result q l ls fuel x lv L1 L2 :
  wf l ls → at_pos q ls x lv L1 L2 → (left_of ls lv L2 < fuel)%nat →
  search_loop compare_ fuel q l x lv = Some (result_at q (pre q (ls 0%nat)) (post q (ls 0%nat))).
Proof.
  intros Hw. revert x lv L1 L2. induction fuel as [|fuel IH]; intros x lv L1 L2 Hp Hf; [lia|].
  cbn [search_loop]. destruct (search_step q l ls x lv L1 L2 Hw Hp) as [(p & L & -> & -> & Hp')|(-> & -> & ->)].
  - cbn. eapply IH; [exact Hp'|]. unfold left_of in *. cbn in Hf. lia.
  - destruct lv as [|lv]; [done|]. cbn. destruct (at_pos_down _ _ _ _ _ _ _ Hw Hp) as (M1 & M2 & HM).
    eapply IH; [exact HM|]. pose proof (left_down _ _ _ _ _ (post q (ls (S lv))) _ _ Hw HM). lia.
Qed.

Lemma start_at_pos q l ls : wf l ls → at_pos q ls head_ (GetMaxHeight l - 1) [] (ls (GetMaxHeight l - 1)%nat).
Proof. intros Hw. pose proof (wf_max _ _ Hw). split; [unfold GetMaxHeight; lia|done|done|done]. Qed.

(** The nodes of the lowest level are different nodes other than the head. *)
Lemma nodes_length l ls : wf l ls → (length (ls 0%nat) < length (nodes l))%nat.
Proof.
  intros Hw. pose proof (wf_linked _ _ Hw 0%nat ltac:(unfold kMaxHeight; lia)) as Hk.
  assert (Hs : (head_ :: (ls 0%nat).*1) ⊆+ seq 0 (length (nodes l))).
  { apply NoDup_submseteq.
    - constructor; [apply Hk|]. eapply linked_nodup; [done|apply Hw].
    - intros a Ha. apply elem_of_seq. assert (is_Some (node_key l a)) as [k Hn].
      { apply elem_of_cons in Ha as [->|(p & -> & Hp)%list_elem_of_fmap].
        - eapply node_key_of_next, (linked_next _ _ _ Hk [] _ eq_refl).
        - rewrite (linked_key _ _ _ Hk p Hp). by eexists. }
      unfold node_key in Hn. apply fmap_Some in Hn as (n & Hn & _). apply lookup_lt_Some in Hn. lia. }
  apply submseteq_length in Hs. cbn in Hs. rewrite length_fmap, length_seq in Hs. lia.
Qed.

Lemma search_fuel_enough l ls :
  wf l ls → (left_of ls (GetMaxHeight l - 1) (ls (GetMaxHeight l - 1)%nat) < search_fuel l)%nat.
Proof.
  intros Hw. pose proof (wf_max _ _ Hw) as Hm. pose proof (nodes_length _ _ Hw) as Hn.
  pose proof (level_length _ _ (GetMaxHeight l - 1)%nat Hw ltac:(unfold GetMaxHeight; lia)) as Hl.
  unfold left_of, search_fuel, GetMaxHeight, kMaxHeight in *. nia.
Qed.

Lemma run_search_result q l ls :
  wf l ls → run_search compare_ q l = Some (result_at q (pre q (ls 0%nat)) (post q (ls 0%nat))).
Proof.
  intros Hw. unfold run_search.
  eapply search_loop_result; [done|by apply start_at_pos|by apply search_fuel_enough].
Qed.

(** ** Stores *)

(** What a store to a link changes. *)
Lemma SetNext_eq (l : SkipList) a n p : is_Some (Node_Next l a n) →
  ∃ l', SetNext a n p l = Some l' ∧ max_height_ l' = max_height_ l ∧
    (∀ b, node_key l' b = node_key l b) ∧
    (∀ b m, Node_Next l' b m = if decide (b = a ∧ m = n) then Some p else Node_Next l b m).
Proof.
  intros [q Hq]. unfold Node_Next in Hq. apply bind_Some in Hq as (x & Hx & Hq).
  unfold SetNext. rewrite Hx. cbn. rewrite Hq. cbn. eexists. split_and!; [done|done|..]; cbn.
  - intros b. unfold node_key. cbn. destruct (decide (b = a)) as [->|Hb].
    + rewrite list_lookup_insert_eq by (by eapply lookup_lt_Some). by rewrite Hx.
    + by rewrite list_lookup_insert_ne.
  - intros b m. unfold Node_Next. cbn. destruct (decide (b = a)) as [->|Hb].
    + rewrite list_lookup_insert_eq by (by eapply lookup_lt_Some). rewrite Hx. cbn.
      destruct (decide (m = n)) as [->|Hm].
      * rewrite list_lookup_insert_eq by (by eapply lookup_lt_Some). by rewrite decide_True.
      * rewrite list_lookup_insert_ne by done. by rewrite decide_False by naive_solver.
    + rewrite list_lookup_insert_ne by done. by rewrite decide_False by naive_solver.
Qed.

Lemma end_of_in L : end_of L = head_ ∨ end_of L ∈ L.*1.
Proof.
  destruct (end_of_elem L) as [->|(L' & p & -> & ->)]; [by left|right].
  rewrite fmap_app. set_solver.
Qed.

(** A level is kept by stores that do not touch its links. *)
Lemma linked_ext l l' i L :
  linked l i L →
  (∀ b p, b = head_ ∨ b ∈ L.*1 → Node_Next l b i = Some p → Node_Next l' b i = Some p) →
  (∀ b k, node_key l b = Some k → node_key l' b = Some k) →
  linked l' i L.
Proof.
  intros [H1 H2 H3] Hn Hk. split; [|auto|done]. intros L1 L2 HL. apply Hn; [|by apply H1].
  subst L. destruct (end_of_in L1); [by left|right]. rewrite fmap_app. set_solver.
Qed.

(** The one store that adds a node to a level. *)
Lemma linked_publish l l' i P Q x k :
  linked l i (P ++ Q) → sorted (P ++ Q) → Node_Next l x i = Some (ptr_of Q) →
  node_key l x = Some k → x ∉ (P ++ Q).*1 → x ≠ head_ →
  (∀ b, node_key l' b = node_key l b) →
  (∀ b, Node_Next l' b i = if decide (b = end_of P) then Some (At x) else Node_Next l b i) →
  linked l' i (P ++ (x, k) :: Q).
Proof.
  intros Hl Hs Hx Hk Hout Hh Hk' Hn'. pose proof (linked_nodup _ _ _ Hl Hs) as Hd.
  pose proof (linked_head _ _ _ Hl) as H0.
  assert (Hother : ∀ L1 L2, P ++ Q = L1 ++ L2 → L1 ≠ P → Node_Next l' (end_of L1) i = Some (ptr_of L2)).
  { intros L1 L2 HL Hne. rewrite Hn', decide_False; [by apply Hl|]. intros He. apply Hne.
    symmetry. eapply end_of_inj; [exact Hd|exact H0|exact HL|done]. }
  split.
  - intros L1 L2 HL. symmetry in HL. apply app_cases in HL as [(J & HP & ->)|(a & J & -> & HQ)].
    + destruct J as [|a J].
      * rewrite app_nil_r in HP. subst L1. by rewrite Hn', decide_True.
      * cbn. change (At a.1) with (ptr_of ((a :: J) ++ Q)). apply Hother; [by rewrite HP, <- app_assoc|].
        intros ->. apply (f_equal length) in HP. rewrite length_app in HP. cbn in HP. lia.
    + injection HQ as <- HQ. rewrite end_of_cons_app. destruct J as [|b J].
      * cbn in HQ. subst L2. change (end_of [(x, k)]) with x. rewrite Hn', decide_False; [done|].
        intros ->. destruct (end_of_in P) as [|Hi]; [done|]. apply Hout. rewrite fmap_app. set_solver.
      * change ((x, k) :: b :: J) with ([(x, k)] ++ b :: J).
        rewrite end_of_cons_app, <- (end_of_cons_app P).
        apply Hother; [by rewrite HQ, <- app_assoc|]. intros HP. apply (f_equal length) in HP.
        rewrite length_app in HP. cbn in HP. lia.
  - intros p. rewrite Hk'. intros [Hp|[->|Hp]%elem_of_cons]%elem_of_app; [|done|];
    apply Hl; set_solver.
  - rewrite fmap_app, fmap_cons in *. set_solver.
Qed.

(** ** An insertion in progress *)

Local Abbreviation smaller k L := (filter (before (GreaterOrEqual k)) L).
Local Abbreviation larger k L := (filter (λ p, ¬ before (GreaterOrEqual k) p) L).

(** The links of the new node up to level [i] are made, those up to [h] are
    to be made after the nodes in [prev]. *)
Record linking (l : SkipList) (ls : lists) (k : K) (x h i : nat) (prev : gmap nat nat) : Prop := {
  lk_height : (i ≤ h ≤ max_height_ l ∧ 1 ≤ h)%nat;
  lk_key : node_key l x = Some k;
  lk_links j : (j < h)%nat → is_Some (Node_Next l x j);
  lk_head : x ≠ head_;
  lk_fresh p : p ∈ ls 0%nat → p.1 ≠ x → compare_ p.2 k ≠ 0;
  lk_in j : (j < i)%nat → (x, k) ∈ ls j;
  lk_out j : (i ≤ j)%nat → x ∉ (ls j).*1;
  lk_prev j : (i ≤ j < h)%nat → prev !! j = Some (end_of (smaller k (ls j)))
}.

Definition early_store (l : SkipList) (h : nat) (s : store) : Prop :=
  match s with
  | SetSeed _ => True
  | SetMaxHeight m => m = h ∧ (max_height_ l ≤ h)%nat
  | _ => False
  end.

(** The keys after the insertion, which takes effect at level 0. *)
Definition target (k : K) (i : nat) (L : list (nat * K)) : list K :=
  match i with O => insert_key compare_ k L.*2 | S _ => L.*2 end.

(** [pending l ls ks ss]: the stores [ss] remain, and lead to the keys [ks]. *)
Inductive pending (l : SkipList) (ls : lists) : list K → list store → Prop :=
  | pending_none : pending l ls (ls 0%nat).*2 []
  | pending_early early k h prev ss :
      Forall (early_store l h) early →
      (1 ≤ h ≤ kMaxHeight)%nat →
      (h ≤ max_height_ l)%nat ∨ SetMaxHeight h ∈ early →
      (∀ p, p ∈ ls 0%nat → compare_ p.2 k ≠ 0) →
      (∀ j, (j < h)%nat → prev !! j = Some (end_of (smaller k (ls j)))) →
      link_stores prev (length (nodes l)) 0 h = Some ss →
      pending l ls (insert_key compare_ k (ls 0%nat).*2) (early ++ NewNode k h :: ss)
  | pending_copy k x h i prev ss :
      linking l ls k x h i prev →
      link_stores prev x i (h - i) = Some ss →
      pending l ls (target k i (ls 0%nat)) ss
  | pending_publish k x h i prev ss :
      linking l ls k x h i prev → (i < h)%nat →
      Node_Next l x i = Some (ptr_of (larger k (ls i))) →
      link_stores prev x (S i) (h - S i) = Some ss →
      pending l ls (target k i (ls 0%nat)) (Publish (end_of (smaller k (ls i))) i x :: ss).

(** How a store changes the levels: not, or by a node on one of them. *)
Definition grown (ls ls' : lists) : Prop :=
  ∃ i P y Q, ls i = P ++ Q ∧ ls' i = P ++ y :: Q ∧ ∀ j, j ≠ i → ls' j = ls j.

Definition same_or_grown (ls ls' : lists) : Prop := (∀ j, ls' j = ls j) ∨ grown ls ls'.

Lemma store_seed l ls r :
  wf l ls → wf (mkSkipList (nodes l) (max_height_ l) r) ls.
Proof.
  intros [H1 H2 H3 H4 H5]. split; try done. intros i Hi. by destruct (H1 i Hi).
Qed.

Lemma store_max_height l ls h :
  wf l ls → (max_height_ l ≤ h ≤ kMaxHeight)%nat → wf (mkSkipList (nodes l) h (rnd_ l)) ls.
Proof.
  intros [H1 H2 H3 H4 H5] Hh. split; try done; cbn.
  - intros i Hi. by destruct (H1 i Hi).
  - intros i Hi. apply H4. lia.
  - lia.
Qed.

Lemma Node_Next_app (l : SkipList) n b i p m r :
  Node_Next l b i = Some p → Node_Next (mkSkipList (nodes l ++ [n]) m r) b i = Some p.
Proof.
  unfold Node_Next. cbn. destruct (nodes l !! b) as [x|] eqn:E; [|done].
  by rewrite (lookup_app_l_Some _ _ _ _ E).
Qed.

Lemma node_key_app (l : SkipList) n b k m r :
  node_key l b = Some k → node_key (mkSkipList (nodes l ++ [n]) m r) b = Some k.
Proof.
  unfold node_key. cbn. destruct (nodes l !! b) as [x|] eqn:E; [|done].
  by rewrite (lookup_app_l_Some _ _ _ _ E).
Qed.

Lemma store_new_node l ls n :
  wf l ls → wf (mkSkipList (nodes l ++ [n]) (max_height_ l) (rnd_ l)) ls.
Proof.
  intros [H1 H2 H3 H4 H5]. split; try done. intros i Hi. eapply linked_ext; [by apply H1|..].
  - intros b p _. apply Node_Next_app.
  - intros b k. apply node_key_app.
Qed.

(** A node not yet on level [i] may change its link there. *)
Lemma store_own_link l l' ls x i p :
  wf l ls → x ≠ head_ → x ∉ (ls i).*1 → max_height_ l' = max_height_ l →
  (∀ b, node_key l' b = node_key l b) →
  (∀ b m, Node_Next l' b m = if decide (b = x ∧ m = i) then Some p else Node_Next l b m) →
  wf l' ls.
Proof.
  intros [H1 H2 H3 H4 H5] Hx Hi Hm Hk Hn. split; [|done|done|by rewrite Hm..].
  intros j Hj. eapply linked_ext; [by apply H1| |by intros; rewrite Hk].
  intros b q Hb Hq. rewrite Hn, decide_False; [done|]. intros [-> ->]. by destruct Hb.
Qed.

(** The levels after the store that publishes the node on level [i]. *)
Definition publish_at (ls : lists) (x : nat) (k : K) (i : nat) : lists :=
  λ j, if decide (j = i) then smaller k (ls i) ++ (x, k) :: larger k (ls i) else ls j.

Lemma publish_at_same ls x k i : publish_at ls x k i i = smaller k (ls i) ++ (x, k) :: larger k (ls i).
Proof. unfold publish_at. by rewrite decide_True. Qed.

Lemma publish_at_other ls x k i j : j ≠ i → publish_at ls x k i j = ls j.
Proof. intros H. unfold publish_at. by rewrite decide_False. Qed.

Lemma publish_at_elem ls x k i p :
  sorted (ls i) → p ∈ publish_at ls x k i i ↔ p = (x, k) ∨ p ∈ ls i.
Proof.
  intros Hs. rewrite publish_at_same. rewrite (sorted_cut (GreaterOrEqual k) _ Hs) at 3.
  rewrite !elem_of_app, elem_of_cons. tauto.
Qed.

Lemma smaller_lt k (L : list (nat * K)) p : p ∈ smaller k L → klt p.2 k.
Proof. intros [Hp _]%list_elem_of_filter. apply bool_eq_true_before in Hp. by apply Z.ltb_lt. Qed.

(** The keys not smaller are larger when none is equal. *)
Lemma larger_gt l ls k x h i prev p :
  wf l ls → linking l ls k x h i prev → p ∈ larger k (ls i) → klt k p.2.
Proof.
  intros Hw Hl [Hp1 Hp2]%list_elem_of_filter. apply not_klt.
  - intros Hlt. apply Hp1. apply bool_eq_true_before. by apply Z.ltb_lt.
  - apply (lk_fresh _ _ _ _ _ _ _ Hl p).
    + eapply (wf_incl_le _ _ 0%nat i); [done|lia|done].
    + intros <-. apply (lk_out _ _ _ _ _ _ _ Hl i); [lia|]. apply list_elem_of_fmap. by exists p.
Qed.

Lemma publish_at_sorted l ls k x h i prev j :
  wf l ls → linking l ls k x h i prev → sorted (publish_at ls x k i j).
Proof.
  intros Hw Hl. destruct (decide (j = i)) as [->|Hji]; [|rewrite publish_at_other by done; apply Hw].
  rewrite publish_at_same. pose proof (wf_sorted _ _ Hw i) as Hs.
  rewrite (sorted_cut (GreaterOrEqual k) _ Hs) in Hs. apply sorted_concat in Hs as (Hs1 & Hs2 & Hs3).
  apply sorted_concat. split_and!; [done|constructor; [done|]|].
  - apply Forall_forall. intros p Hp. by eapply larger_gt.
  - intros p q Hp [->|Hq]%elem_of_cons; [by apply smaller_lt in Hp|]. by apply Hs3.
Qed.

Lemma publish_at_incl l ls k x h i prev j :
  wf l ls → linking l ls k x h i prev → publish_at ls x k i (S j) ⊆ publish_at ls x k i j.
Proof.
  intros Hw Hl p Hp. pose proof (wf_sorted _ _ Hw i) as Hs. destruct (decide (j = i)) as [->|Hji].
  - rewrite publish_at_other in Hp by lia. apply publish_at_elem; [done|]. right. by apply (wf_incl _ _ Hw).
  - rewrite publish_at_other by done. destruct (decide (S j = i)) as [<-|Hsj].
    + apply publish_at_elem in Hp as [->|Hp]; [|by apply (wf_incl _ _ Hw)|done].
      apply (lk_in _ _ _ _ _ _ _ Hl). lia.
    + rewrite publish_at_other in Hp by done. by apply (wf_incl _ _ Hw).
Qed.

(** What the publishing store changes. *)
Record published (l l' : SkipList) (ls : lists) (k : K) (x i : nat) : Prop := {
  pu_max : max_height_ l' = max_height_ l;
  pu_key b : node_key l' b = node_key l b;
  pu_next b m : Node_Next l' b m =
    if decide (b = end_of (smaller k (ls i)) ∧ m = i) then Some (At x) else Node_Next l b m
}.

Lemma publish_linked l l' ls k x h i prev j :
  wf l ls → linking l ls k x h i prev → (i < h)%nat →
  Node_Next l x i = Some (ptr_of (larger k (ls i))) → published l l' ls k x i →
  (j < kMaxHeight)%nat → linked l' j (publish_at ls x k i j).
Proof.
  intros Hw Hl Hi Hx [Hm Hk Hn] Hj. pose proof (wf_sorted _ _ Hw i) as Hs.
  pose proof (sorted_cut (GreaterOrEqual k) _ Hs) as Hc. destruct (decide (j = i)) as [->|Hji].
  - rewrite publish_at_same. eapply linked_publish; rewrite <- ?Hc; try done; [by apply Hw|apply Hl|by apply Hl|apply Hl|].
    intros b. rewrite Hn. destruct (decide (b = end_of (smaller k (ls i)))) as [->|Hb].
    + by rewrite !decide_True.
    + rewrite !decide_False by naive_solver. done.
  - rewrite publish_at_other by done. eapply linked_ext; [by apply Hw|..].
    + intros b q _ Hq. by rewrite Hn, decide_False by naive_solver.
    + intros b q Hq. by rewrite Hk.
Qed.

Lemma store_publish l l' ls x k h i prev :
  wf l ls → linking l ls k x h i prev → (i < h)%nat →
  Node_Next l x i = Some (ptr_of (larger k (ls i))) → published l l' ls k x i →
  wf l' (publish_at ls x k i) ∧ linking l' (publish_at ls x k i) k x h (S i) prev.
Proof.
  intros Hw Hl Hi Hx Hpu. pose proof Hpu as [Hm Hk Hn].
  pose proof (lk_height _ _ _ _ _ _ _ Hl) as Hh. pose proof (wf_max _ _ Hw) as Hmax.
  pose proof (wf_sorted _ _ Hw i) as Hs. split; split.
  - intros j Hj. by eapply publish_linked.
  - intros j. by eapply publish_at_sorted.
  - intros j. by eapply publish_at_incl.
  - rewrite Hm. intros j Hj. rewrite publish_at_other by lia. by apply Hw.
  - by rewrite Hm.
  - rewrite Hm. lia.
  - rewrite Hk. apply Hl.
  - intros j Hj. rewrite Hn. case_decide; [by eexists|]. by apply Hl.
  - apply Hl.
  - intros p Hp Hne. apply Hl; [|done]. destruct (decide (i = 0%nat)) as [->|Hi0].
    + apply publish_at_elem in Hp as [->|Hp]; done.
    + by rewrite publish_at_other in Hp.
  - intros j Hj. destruct (decide (j = i)) as [->|Hji]; [by apply publish_at_elem; [|left]|].
    rewrite publish_at_other by done. apply Hl. lia.
  - intros j Hj. rewrite publish_at_other by lia. apply Hl. lia.
  - intros j Hj. rewrite publish_at_other by lia. apply Hl. lia.
Qed.

Lemma filter_snd (P : K → Prop) `{∀ k, Decision (P k)} (L : list (nat * K)) :
  filter P L.*2 = (filter (λ p, P p.2) L).*2.
Proof.
  induction L as [|p L IH]; [done|]. rewrite fmap_cons, !filter_cons, IH. by case_decide.
Qed.

Lemma smaller_keys k L : (smaller k L).*2 = filter (λ k', compare_ k' k < 0) L.*2.
Proof.
  rewrite filter_snd. f_equal. apply list_filter_iff. intros p.
  by rewrite <- bool_eq_true_before, <- Z.ltb_lt.
Qed.

Lemma larger_keys k L : (larger k L).*2 = filter (λ k', ¬ compare_ k' k < 0) L.*2.
Proof.
  rewrite filter_snd. f_equal. apply list_filter_iff. intros p.
  by rewrite <- bool_eq_true_before, <- Z.ltb_lt.
Qed.

Lemma insert_keys k x L :
  (smaller k L ++ (x, k) :: larger k L).*2 = insert_key compare_ k L.*2.
Proof. unfold insert_key. by rewrite fmap_app, fmap_cons, smaller_keys, larger_keys. Qed.

(** What the next store of an insertion does. *)
Definition good_step (l : SkipList) (ls : lists) (T : list K) (s : store) (ss : list store) : Prop :=
  ∃ l' ls', run_store s l = Some l' ∧ wf l' ls' ∧ pending l' ls' T ss ∧ same_or_grown ls ls' ∧
    ((ls' 0%nat).*2 = (ls 0%nat).*2 ∨ (ls' 0%nat).*2 = T).

Lemma early_step l ls early k h prev s ss ss' :
  wf l ls → Forall (early_store l h) early → (1 ≤ h ≤ kMaxHeight)%nat →
  (h ≤ max_height_ l)%nat ∨ SetMaxHeight h ∈ early →
  (∀ p, p ∈ ls 0%nat → compare_ p.2 k ≠ 0) →
  (∀ j, (j < h)%nat → prev !! j = Some (end_of (smaller k (ls j)))) →
  link_stores prev (length (nodes l)) 0 h = Some ss →
  early ++ NewNode k h :: ss = s :: ss' →
  good_step l ls (insert_key compare_ k (ls 0%nat).*2) s ss'.
Proof.
  intros Hw He Hh Hm Hf Hp Hs H. destruct early as [|e early]; injection H as <- <-.
  - destruct Hm as [Hm|[]%not_elem_of_nil]. exists (mkSkipList (nodes l ++ [new_node k h]) (max_height_ l) (rnd_ l)), ls.
    split_and!; [done|by apply store_new_node| |by left|by left].
    assert (Hx : (nodes l ++ [new_node k h]) !! length (nodes l) = Some (new_node k h)).
    { by rewrite lookup_app_r, Nat.sub_diag by done. }
    assert (Hout : ∀ j, (j < kMaxHeight)%nat → length (nodes l) ∉ (ls j).*1).
    { intros j Hj (q & Hq & Hi)%list_elem_of_fmap.
      pose proof (linked_key _ _ _ (wf_linked _ _ Hw j Hj) q Hi) as Hk. unfold node_key in Hk.
      apply fmap_Some in Hk as (n & Hn & _). apply lookup_lt_Some in Hn. lia. }
    apply (pending_copy _ _ k (length (nodes l)) h 0 prev); [|by rewrite Nat.sub_0_r]. split; cbn.
    + lia.
    + unfold node_key. cbn. by rewrite Hx.
    + intros j Hj. unfold Node_Next. cbn. rewrite Hx. cbn. apply lookup_lt_is_Some. cbn.
      rewrite length_replicate. lia.
    + pose proof (nodes_length _ _ Hw). unfold head_. lia.
    + auto.
    + lia.
    + intros j _. destruct (Nat.lt_ge_cases j kMaxHeight) as [Hj|Hj]; [by apply Hout|].
      rewrite (wf_high _ _ Hw); [set_solver|]. pose proof (wf_max _ _ Hw). lia.
    + intros j Hj. apply Hp. lia.
  - apply Forall_cons_iff in He as [He1 He2]. destruct e as [r|m|k' m|x i p|p i x]; try done.
    + exists (mkSkipList (nodes l) (max_height_ l) r), ls. split_and!; [done|by apply store_seed| |by left|by left].
      eapply pending_early; try done. destruct Hm as [|[|]%elem_of_cons]; [by left|done|by right].
    + destruct He1 as [-> He1]. exists (mkSkipList (nodes l) h (rnd_ l)), ls.
      split_and!; [done|apply store_max_height; [done|lia]| |by left|by left].
      eapply pending_early; try done; cbn; [|by left].
      eapply Forall_impl; [exact He2|]. intros [] Ht; cbn in *; naive_solver lia.
Qed.

Lemma copy_step l ls k x h i prev s ss :
  wf l ls → linking l ls k x h i prev → link_stores prev x i (h - i) = Some (s :: ss) →
  good_step l ls (target k i (ls 0%nat)) s ss.
Proof.
  intros Hw Hl Hs. pose proof (lk_height _ _ _ _ _ _ _ Hl) as Hh. pose proof (wf_max _ _ Hw) as Hmax.
  destruct (h - i)%nat as [|c] eqn:Hc; [done|]. cbn in Hs.
  rewrite (lk_prev _ _ _ _ _ _ _ Hl) in Hs by lia. cbn in Hs.
  destruct (link_stores prev x (S i) c) as [ss'|] eqn:Hs'; [|done]. injection Hs as <- <-.
  pose proof (wf_linked _ _ Hw i ltac:(lia)) as Hk.
  pose proof (linked_next _ _ _ Hk _ _ (sorted_cut (GreaterOrEqual k) _ (wf_sorted _ _ Hw i))) as Hn.
  destruct (SetNext_eq l x i (ptr_of (larger k (ls i)))) as (l' & Hr & Hm & Hkey & Hnext).
  { apply Hl. lia. }
  exists l', ls. cbn. rewrite Hn. cbn. split_and!; [done| | |by left|by left].
  - eapply (store_own_link l l' ls x i); try done; [exact (lk_head _ _ _ _ _ _ _ Hl)|].
    exact (lk_out _ _ _ _ _ _ _ Hl i (le_n i)).
  - apply (pending_publish _ _ k x h i prev ss'); [|lia| |by replace (h - S i)%nat with c by lia].
    + destruct Hl. split; rewrite ?Hm, ?Hkey; try done. intros j Hj. rewrite Hnext.
      case_decide; [by eexists|auto].
    + by rewrite Hnext, decide_True.
Qed.

Lemma publish_step l ls k x h i prev ss :
  wf l ls → linking l ls k x h i prev → (i < h)%nat →
  Node_Next l x i = Some (ptr_of (larger k (ls i))) →
  link_stores prev x (S i) (h - S i) = Some ss →
  good_step l ls (target k i (ls 0%nat)) (Publish (end_of (smaller k (ls i))) i x) ss.
Proof.
  intros Hw Hl Hi Hx Hs. pose proof (lk_height _ _ _ _ _ _ _ Hl) as Hh. pose proof (wf_max _ _ Hw) as Hmax.
  pose proof (wf_linked _ _ Hw i ltac:(lia)) as Hk.
  pose proof (sorted_cut (GreaterOrEqual k) _ (wf_sorted _ _ Hw i)) as Hc.
  pose proof (linked_next _ _ _ Hk _ _ Hc) as Hn.
  destruct (SetNext_eq l (end_of (smaller k (ls i))) i (At x)) as (l' & Hr & Hm & Hkey & Hnext); [by eexists|].
  destruct (store_publish l l' ls x k h i prev) as [Hw' Hl']; [done..|].
  assert (Hkeys : target k i (ls 0%nat) = target k (S i) (publish_at ls x k i 0%nat)).
  { cbn. destruct i as [|i]; [by rewrite publish_at_same, insert_keys|done]. }
  exists l', (publish_at ls x k i). split_and!; [done|exact Hw'| | |].
  - rewrite Hkeys. eapply pending_copy; [exact Hl'|done].
  - right. exists i, (smaller k (ls i)), (x, k), (larger k (ls i)). rewrite publish_at_same.
    split_and!; [done|done|]. intros j Hj. by rewrite publish_at_other.
  - right. by rewrite Hkeys.
Qed.

Lemma pending_step l ls T s ss : wf l ls → pending l ls T (s :: ss) → good_step l ls T s ss.
Proof.
  intros Hw Hp. inversion Hp; subst.
  - by eapply early_step.
  - by eapply copy_step.
  - by eapply publish_step.
Qed.

Lemma pending_end l ls T : pending l ls T [] → T = (ls 0%nat).*2.
Proof.
  intros Hp. inversion Hp as [|early ? ? ? ? ? ? ? ? ? ? He|k x h i prev ss Hl Hs|]; [done| |].
  - by destruct early.
  - destruct i as [|i]; [exfalso|done]. pose proof (lk_height _ _ _ _ _ _ _ Hl) as Hh.
    rewrite Nat.sub_0_r in Hs. destruct h as [|h]; [lia|]. cbn in Hs.
    apply bind_Some in Hs as (p & _ & (q & _ & [=])%bind_Some).
Qed.

(** ** The beginning of an insertion *)

Lemma FindGreaterOrEqual_loop_eq k l ls fuel x lv L1 L2 prev :
  wf l ls → at_pos (GreaterOrEqual k) ls x lv L1 L2 → (left_of ls lv L2 < fuel)%nat →
  (∀ j, (lv < j < max_height_ l)%nat → prev !! j = Some (end_of (smaller k (ls j)))) →
  ∃ prev', FindGreaterOrEqual_loop compare_ fuel l k x lv prev = Some (ptr_of (larger k (ls 0%nat)), prev') ∧
    ∀ j, (j < max_height_ l)%nat → prev' !! j = Some (end_of (smaller k (ls j))).
Proof.
  intros Hw. revert x lv L1 L2 prev. induction fuel as [|fuel IH]; intros x lv L1 L2 prev Hp Hf Hprev; [lia|].
  cbn [FindGreaterOrEqual_loop].
  destruct (search_step _ l ls x lv L1 L2 Hw Hp) as [(p & L & -> & Hb & Hp')|(HL1 & HL2 & Hb)];
  cbn [search_body] in Hb; rewrite Hb; cbn [mbind option_bind].
  - rewrite bool_decide_eq_true_2 by done. eapply IH; [exact Hp'| |done].
    unfold left_of in *. cbn in Hf. lia.
  - pose proof (ap_x _ _ _ _ _ _ Hp) as Hx. rewrite HL1 in Hx.
    assert (Hset : ∀ j, (lv ≤ j < max_height_ l)%nat →
              <[lv := x]> prev !! j = Some (end_of (smaller k (ls j)))).
    { intros j Hj. destruct (decide (j = lv)) as [->|Hne]; [by rewrite lookup_insert_eq, Hx|].
      rewrite lookup_insert_ne by done. apply Hprev. lia. }
    destruct lv as [|lv]; cbn.
    + rewrite HL2. eexists. split; [done|]. intros j Hj. apply Hset. lia.
    + rewrite bool_decide_eq_false_2 by lia.
      destruct (at_pos_down _ _ _ _ _ _ _ Hw Hp) as (M1 & M2 & HM).
      eapply IH; [exact HM| |].
      * pose proof (left_down _ _ _ _ _ L2 _ _ Hw HM). lia.
      * intros j Hj. apply Hset. lia.
Qed.

Lemma FindGreaterOrEqual_eq k l ls :
  wf l ls →
  ∃ prev, FindGreaterOrEqual compare_ l k = Some (ptr_of (larger k (ls 0%nat)), prev) ∧
    ∀ j, (j < max_height_ l)%nat → prev !! j = Some (end_of (smaller k (ls j))).
Proof.
  intros Hw. eapply FindGreaterOrEqual_loop_eq; [done|by apply start_at_pos|by apply search_fuel_enough|].
  unfold GetMaxHeight. intros j Hj. lia.
Qed.

Lemma RandomHeight_loop_range fuel h r :
  (1 ≤ h ≤ kMaxHeight)%nat → (1 ≤ (RandomHeight_loop fuel h r).1 ≤ kMaxHeight)%nat.
Proof.
  revert h r. induction fuel as [|fuel IH]; intros h r Hh; cbn [RandomHeight_loop]; [done|].
  destruct (Nat.ltb_spec h kMaxHeight); [|done]. destruct (Next r) as [x r'].
  destruct (u32 x mod 4 =? 0); [|done]. apply IH. lia.
Qed.

Lemma RandomHeight_range r : (1 ≤ (RandomHeight r).1 ≤ kMaxHeight)%nat.
Proof. apply RandomHeight_loop_range. unfold kMaxHeight. lia. Qed.

Lemma raise_prev_lookup (l : SkipList) h prev j :
  raise_prev l h prev !! j =
    if decide (max_height_ l ≤ j < h)%nat then Some head_ else prev !! j.
Proof.
  unfold raise_prev, GetMaxHeight. destruct (decide (max_height_ l ≤ h)%nat) as [Hle|Hle].
  - remember (h - max_height_ l)%nat as n eqn:Hn. assert (h = max_height_ l + n)%nat as -> by lia.
    clear Hn Hle. generalize (max_height_ l) as a. induction n as [|n IH]; intros a; cbn.
    { by rewrite decide_False by lia. }
    destruct (decide (j = a)) as [->|Hj].
    + rewrite lookup_insert_eq. by rewrite decide_True by lia.
    + rewrite lookup_insert_ne, IH by done. repeat case_decide; (done || lia).
  - replace (h - max_height_ l)%nat with 0%nat by lia. cbn. by rewrite decide_False by lia.
Qed.

Lemma link_stores_total prev x i n :
  (∀ j, (i ≤ j < i + n)%nat → is_Some (prev !! j)) → is_Some (link_stores (K := K) prev x i n).
Proof.
  revert i. induction n as [|n IH]; intros i Hp; cbn; [by eexists|].
  destruct (Hp i) as [p ->]; [lia|]. cbn. destruct (IH (S i)) as [ss ->]; [|by eexists].
  intros j Hj. apply Hp. lia.
Qed.

(** Whether the first key not smaller is equal. *)
Definition first_is (k : K) (L : list (nat * K)) : bool :=
  match (larger k L).*2 with k' :: _ => Equal compare_ k k' | [] => false end.

(** The key of a node the search finds is that of the first pair. *)
Lemma present_eq k l ls :
  wf l ls →
  match ptr_of (larger k (ls 0%nat)) with
  | Null => Some false
  | At a => k' ← node_key l a; Some (Equal compare_ k k')
  | Garbage => None
  end = Some (first_is k (ls 0%nat)).
Proof.
  intros Hw. unfold first_is. destruct (larger k (ls 0%nat)) as [|p L] eqn:E; [done|]. cbn.
  rewrite (linked_key _ _ _ (wf_linked _ _ Hw 0%nat ltac:(unfold kMaxHeight; lia)) p); [done|].
  assert (Hp : p ∈ larger k (ls 0%nat)) by (rewrite E; by left).
  by apply list_elem_of_filter in Hp as [_ ?].
Qed.

(** An equal key would be the first of those not smaller. *)
Lemma present_spec k L :
  sorted L →
  first_is k L = true ↔
  ∃ p, p ∈ L ∧ compare_ p.2 k = 0.
Proof.
  intros Hs. unfold first_is. split.
  - destruct (larger k L) as [|p M] eqn:E; [done|]. cbn. intros He%Z.eqb_eq. exists p.
    assert (Hp : p ∈ larger k L) by (rewrite E; by left). apply list_elem_of_filter in Hp as [_ ?].
    split; [done|]. by apply compare_eq_sym.
  - intros (p & Hp & He). assert (Hl : p ∈ larger k L).
    { apply list_elem_of_filter. split; [|done]. rewrite <- bool_eq_true_before. cbn. rewrite He. done. }
    pose proof Hs as Hs'. rewrite (sorted_cut (GreaterOrEqual k) L Hs) in Hs'.
    apply sorted_concat in Hs' as (_ & Hs' & _).
    destruct (larger k L) as [|q M] eqn:E; [by apply not_elem_of_nil in Hl|]. cbn. apply Z.eqb_eq.
    apply elem_of_cons in Hl as [->|Hl]; [by apply compare_eq_sym|].
    apply StronglySorted_inv in Hs' as [_ Hf]. rewrite Forall_forall in Hf. specialize (Hf _ Hl).
    assert (Hq : q ∈ larger k L) by (rewrite E; by left). apply list_elem_of_filter in Hq as [Hq _].
    exfalso. apply Hq. apply bool_eq_true_before. cbn. apply Z.ltb_lt. eapply klt_le_trans; [exact Hf|lia].
Qed.

Lemma Insert_stores_eq k l ls :
  wf l ls → (∀ p, p ∈ ls 0%nat → compare_ p.2 k ≠ 0) →
  ∃ ss, Insert_stores compare_ k l = Some ss ∧ pending l ls (insert_key compare_ k (ls 0%nat).*2) ss.
Proof.
  intros Hw Hf. unfold Insert_stores.
  destruct (FindGreaterOrEqual_eq k l ls Hw) as (prev & -> & Hprev). cbn [mbind option_bind].
  rewrite (present_eq k l ls Hw). cbn [mbind option_bind].
  destruct (first_is k (ls 0%nat)) eqn:Hpr.
  { apply present_spec in Hpr as (p & Hp & He); [|apply Hw]. by apply Hf in Hp. }
  destruct (RandomHeight (rnd_ l)) as [h r] eqn:Hr.
  pose proof (RandomHeight_range (rnd_ l)) as Hh. rewrite Hr in Hh. cbn [fst] in Hh.
  set (prev' := if _ : bool then raise_prev _ _ _ else _).
  assert (Hp' : ∀ j, (j < h)%nat → prev' !! j = Some (end_of (smaller k (ls j)))).
  { intros j Hj. subst prev'. unfold GetMaxHeight. destruct (Nat.ltb_spec (max_height_ l) h).
    - rewrite raise_prev_lookup. case_decide; [|apply Hprev; lia]. rewrite (wf_high _ _ Hw) by lia. done.
    - apply Hprev. lia. }
  destruct (link_stores_total prev' (length (nodes l)) 0 h) as [ss Hss].
  { intros j Hj. rewrite Hp' by lia. by eexists. }
  rewrite Hss. cbn [mbind option_bind]. eexists. split; [done|].
  rewrite app_comm_cons. eapply pending_early; try done; unfold GetMaxHeight;
  destruct (Nat.ltb_spec (max_height_ l) h).
  - constructor; [done|]. constructor; [|constructor]. split; [done|lia].
  - constructor; [done|constructor].
  - right. set_solver.
  - by left.
Qed.

(** An equal key in the list stops [Insert] at its assertion. *)
Lemma Insert_stores_present k l ls :
  wf l ls → (∃ p, p ∈ ls 0%nat ∧ compare_ p.2 k = 0) → Insert_stores compare_ k l = None.
Proof.
  intros Hw Hp. unfold Insert_stores.
  destruct (FindGreaterOrEqual_eq k l ls Hw) as (prev & -> & Hprev). cbn [mbind option_bind].
  rewrite (present_eq k l ls Hw). cbn [mbind option_bind].
  apply present_spec in Hp as ->; [done|apply Hw].
Qed.

Lemma Contains_eq k l ls : wf l ls → Contains compare_ l k = Some (first_is k (ls 0%nat)).
Proof.
  intros Hw. unfold Contains, FindGreaterOrEqual_NULL. rewrite (run_search_result _ _ _ Hw).
  apply (present_eq _ _ _ Hw).
Qed.

Lemma run_pending l ls T ss :
  wf l ls → pending l ls T ss → ∃ l' ls', run_stores ss l = Some l' ∧ wf l' ls' ∧ (ls' 0%nat).*2 = T.
Proof.
  revert l ls. induction ss as [|s ss IH]; intros l ls Hw Hp.
  - apply pending_end in Hp as ->. by exists l, ls.
  - apply pending_step in Hp as (l' & ls' & Hr & Hw' & Hp' & _); [|done].
    destruct (IH _ _ Hw' Hp') as (l'' & ls'' & Hr' & Hw'' & HT). exists l'', ls''.
    cbn. by rewrite Hr.
Qed.

Lemma Insert_eq k l ls :
  wf l ls → (∀ p, p ∈ ls 0%nat → compare_ p.2 k ≠ 0) →
  ∃ l' ls', Insert compare_ k l = Some l' ∧ wf l' ls' ∧
    (ls' 0%nat).*2 = insert_key compare_ k (ls 0%nat).*2.
Proof.
  intros Hw Hf. destruct (Insert_stores_eq k l ls Hw Hf) as (ss & Hs & Hp). unfold Insert.
  rewrite Hs. by eapply run_pending.
Qed.

Lemma wf_new : wf (new_SkipList zero_key) (λ _, []).
Proof.
  split; try done; [|constructor|cbn; unfold kMaxHeight; lia]. intros i Hi. split; [|by intros p Hp%not_elem_of_nil|apply not_elem_of_nil].
  intros L1 L2 H. destruct L1, L2; try done. unfold Node_Next, new_SkipList. cbn [nodes end_of head_ lookup list_lookup mbind option_bind next_ default last fmap list_fmap].
  change (replicate kMaxHeight (Null) !! i = Some Null). by apply lookup_replicate_2.
Qed.

(** ** The contents *)

Lemma walk_eq l ls fuel L1 L2 :
  wf l ls → ls 0%nat = L1 ++ L2 → (length L2 ≤ fuel)%nat →
  walk fuel l (Some (ptr_of L2)) = L2.*2.
Proof.
  intros Hw. assert (Hk : linked l 0 (ls 0%nat)) by (apply Hw; unfold kMaxHeight; lia).
  revert L1 L2. induction fuel as [|fuel IH]; intros L1 L2 HL Hf; destruct L2 as [|p L2]; cbn in *; try done; [lia|].
  rewrite (linked_key _ _ _ Hk p) by (rewrite HL; set_solver). f_equal.
  assert (HL' : ls 0%nat = (L1 ++ [p]) ++ L2) by (by rewrite <- app_assoc).
  pose proof (linked_next _ _ _ Hk _ _ HL') as Hn. rewrite end_of_snoc in Hn. rewrite Hn.
  eapply IH; [done|lia].
Qed.

Lemma contents_eq l ls : wf l ls → contents l = (ls 0%nat).*2.
Proof.
  intros Hw. unfold contents. assert (Hk : linked l 0 (ls 0%nat)) by (apply Hw; unfold kMaxHeight; lia).
  rewrite (linked_next _ _ _ Hk [] _ eq_refl : Node_Next l head_ 0 = _).
  eapply (walk_eq _ _ _ []); [done|done|]. pose proof (nodes_length _ _ Hw). lia.
Qed.

Lemma contents_sorted l ls : wf l ls → StronglySorted klt (contents l).
Proof.
  intros Hw. rewrite (contents_eq _ _ Hw). pose proof (wf_sorted _ _ Hw 0%nat) as Hs. clear Hw.
  induction Hs as [|p L Hs IH Hf]; cbn; [constructor|]. constructor; [done|].
  rewrite Forall_fmap. exact Hf.
Qed.

(** The key a search finds. *)
Lemma found_key_eq q l ls :
  wf l ls →
  found_key l (result_at q (pre q (ls 0%nat)) (post q (ls 0%nat))) =
    search_answer compare_ q (contents l).
Proof.
  intros Hw. rewrite (contents_eq _ _ Hw).
  assert (Hk : linked l 0 (ls 0%nat)) by (apply Hw; unfold kMaxHeight; lia).
  assert (Hat : ∀ p, p ∈ ls 0%nat → found_key l (At p.1) = Some p.2).
  { intros p Hp. unfold found_key, not_head. rewrite bool_decide_eq_false_2; [by apply Hk|].
    intros [= He]. apply (linked_head _ _ _ Hk). rewrite <- He. apply list_elem_of_fmap. by exists p. }
  assert (Hlast : found_key l (At (end_of (pre q (ls 0%nat)))) =
    last (filter (λ k', is_before compare_ q k') (ls 0%nat).*2)).
  { rewrite filter_snd.
    change (filter (λ p, is_before compare_ q p.2) (ls 0%nat)) with (pre q (ls 0%nat)).
    destruct (end_of_elem (pre q (ls 0%nat))) as [->|(L & p & HL & He)].
    - done.
    - rewrite He, HL, fmap_app. change [p].*2 with [p.2]. rewrite last_snoc. apply Hat.
      assert (Hp : p ∈ pre q (ls 0%nat)) by (rewrite HL; set_solver).
      by apply list_elem_of_filter in Hp as [_ ?]. }
  destruct q as [k|k|]; [|exact Hlast..]. cbn [search_answer result_at]. rewrite filter_snd.
  change (filter (λ p, ¬ is_before compare_ (GreaterOrEqual k) p.2) (ls 0%nat)) with (larger k (ls 0%nat)).
  destruct (larger k (ls 0%nat)) as [|p L] eqn:E; [done|]. cbn. apply Hat.
  assert (Hp : p ∈ larger k (ls 0%nat)) by (rewrite E; by left).
  by apply list_elem_of_filter in Hp as [_ ?].
Qed.

(** ** Iteration *)

Lemma level0 l ls : wf l ls → linked l 0 (ls 0%nat).
Proof. intros Hw. apply Hw. unfold kMaxHeight. lia. Qed.

Lemma forward_eq l ls fuel L1 L2 :
  wf l ls → ls 0%nat = L1 ++ L2 → (length L2 < fuel)%nat →
  forward fuel l (ptr_of L2) = Some L2.*2.
Proof.
  intros Hw. pose proof (level0 _ _ Hw) as Hk.
  revert L1 L2. induction fuel as [|fuel IH]; intros L1 L2 HL Hf; [lia|].
  destruct L2 as [|p L2]; [done|]. cbn in *.
  rewrite (linked_key _ _ _ Hk p) by (rewrite HL; set_solver). cbn.
  assert (HL' : ls 0%nat = (L1 ++ [p]) ++ L2) by (by rewrite <- app_assoc).
  pose proof (linked_next _ _ _ Hk _ _ HL') as Hn. rewrite end_of_snoc in Hn. rewrite Hn.
  cbn. by rewrite (IH _ _ HL') by lia.
Qed.

Lemma backward_eq l ls fuel L1 L2 :
  wf l ls → ls 0%nat = L1 ++ L2 → (length L1 < fuel)%nat →
  backward compare_ fuel l (not_head (At (end_of L1))) = Some (reverse L1.*2).
Proof.
  intros Hw. pose proof (level0 _ _ Hw) as Hk.
  revert L1 L2. induction fuel as [|fuel IH]; intros L1 L2 HL Hf; [lia|].
  destruct (end_of_elem L1) as [->|(L & p & -> & He)]; [done|]. rewrite He.
  assert (Hp : p ∈ ls 0%nat) by (rewrite HL; set_solver).
  assert (Hnh : not_head (At p.1) = At p.1).
  { unfold not_head. rewrite bool_decide_eq_false_2; [done|]. intros [= H].
    apply (linked_head _ _ _ Hk). rewrite <- H. apply list_elem_of_fmap. by exists p. }
  rewrite Hnh. cbn [backward]. rewrite (bool_decide_eq_true_2 (At p.1 ≠ Null) ltac:(done) : Valid (At p.1) = true).
  unfold Iterator_Prev. cbn [Iterator_key]. rewrite (linked_key _ _ _ Hk p Hp). cbn [mbind option_bind].
  unfold FindLessThan. rewrite (run_search_result _ _ _ Hw). cbn [fmap option_fmap option_map result_at mbind option_bind].
  rewrite <- app_assoc in HL. pose proof (wf_sorted _ _ Hw 0%nat) as Hs. rewrite HL in Hs.
  apply sorted_concat in Hs as (_ & Hs & Hr).
  assert (Hpre : pre (LessThan p.2) (ls 0%nat) = L).
  { rewrite HL. apply filter_cut_at.
    - apply Forall_forall. intros r Hin. apply bool_eq_true_before. cbn. apply Z.ltb_lt.
      apply Hr; [done|set_solver].
    - apply suffix_not_before; [done|]. rewrite <- bool_eq_true_before. cbn.
      rewrite compare_refl. done. }
  rewrite Hpre, (IH L ([p] ++ L2) HL).
  - cbn. rewrite fmap_app. cbn. by rewrite reverse_app.
  - rewrite length_app in Hf. cbn in Hf. lia.
Qed.

(** ** Insertions in order *)

Lemma insert_key_perm k ks : insert_key compare_ k ks ≡ₚ k :: ks.
Proof.
  unfold insert_key. rewrite <- Permutation_middle. constructor.
  induction ks as [|a ks IH]; [done|]. rewrite !filter_cons. case_decide as Ha.
  - rewrite decide_False by tauto. cbn. by constructor.
  - rewrite decide_True by done. rewrite <- Permutation_middle. by constructor.
Qed.

Lemma contents_elem l ls (P : K → Prop) :
  wf l ls → (∃ p, p ∈ ls 0%nat ∧ P p.2) ↔ ∃ k, k ∈ contents l ∧ P k.
Proof.
  intros Hw. rewrite (contents_eq _ _ Hw). split.
  - intros (p & Hp & H). exists p.2. split; [|done]. apply list_elem_of_fmap. by exists p.
  - intros (k & (p & -> & Hp)%list_elem_of_fmap & H). by exists p.
Qed.

Lemma Insert_all_eq ks l ls :
  wf l ls → StronglySorted (λ a b, compare_ a b ≠ 0) ks →
  (∀ k k', k ∈ contents l → k' ∈ ks → compare_ k k' ≠ 0) →
  ∃ l' ls', Insert_all compare_ ks l = Some l' ∧ wf l' ls' ∧ contents l' ≡ₚ ks ++ contents l.
Proof.
  revert l ls. induction ks as [|k ks IH]; intros l ls Hw Hs Hd; [by exists l, ls|].
  apply StronglySorted_inv in Hs as [Hs Hf]. rewrite Forall_forall in Hf.
  destruct (Insert_eq k l ls Hw) as (l1 & ls1 & Hi & Hw1 & Hc).
  { intros p Hp. apply Hd; [|by left]. rewrite (contents_eq _ _ Hw). apply list_elem_of_fmap. by exists p. }
  rewrite <- (contents_eq _ _ Hw), <- (contents_eq _ _ Hw1) in Hc.
  pose proof (insert_key_perm k (contents l)) as Hp. rewrite <- Hc in Hp.
  destruct (IH l1 ls1 Hw1 Hs) as (l2 & ls2 & Hi2 & Hw2 & Hp2).
  { intros a b Ha Hb. rewrite Hp in Ha. apply elem_of_cons in Ha as [->|Ha]; [by apply Hf|].
    apply Hd; [done|by right]. }
  exists l2, ls2. cbn [Insert_all]. rewrite Hi. split; [exact Hi2|]. split; [exact Hw2|]. rewrite Hp2, Hp. cbn.
  by rewrite Permutation_middle.
Qed.

(** What a list at rest answers. *)
Lemma list_answers l ls :
  wf l ls →
  (∀ k, ∃ b, Contains compare_ l k = Some b ∧ (b = true ↔ ∃ k', k' ∈ contents l ∧ compare_ k' k = 0)) ∧
  (∀ k, (∃ k', k' ∈ contents l ∧ compare_ k' k = 0) → Insert compare_ k l = None) ∧
  (∀ n, (length (contents l) < n)%nat →
    (SeekToFirst l ≫= forward n l) = Some (contents l) ∧
    (SeekToLast compare_ l ≫= backward compare_ n l) = Some (reverse (contents l)) ∧
    ∀ k, (Iterator_Seek compare_ l k ≫= forward n l) =
           Some (filter (λ k', ¬ compare_ k' k < 0) (contents l))).
Proof.
  intros Hw. pose proof (level0 _ _ Hw) as Hk. split_and!.
  - intros k. exists (first_is k (ls 0%nat)). split; [by apply Contains_eq|].
    rewrite present_spec by apply Hw. by apply (contents_elem l ls (λ k', compare_ k' k = 0)).
  - intros k Hp. unfold Insert. rewrite (Insert_stores_present k l ls); [done..|].
    by apply (contents_elem l ls (λ k', compare_ k' k = 0)).
  - intros n Hn. rewrite (contents_eq _ _ Hw) in *. rewrite length_fmap in Hn. split_and!.
    + unfold SeekToFirst. rewrite (linked_next _ _ _ Hk [] _ eq_refl : Node_Next l head_ 0 = _).
      by eapply (forward_eq _ _ _ []).
    + unfold SeekToLast, FindLast. rewrite (run_search_result _ _ _ Hw). cbn [fmap option_fmap option_map result_at mbind option_bind].
      rewrite (filter_every (before Last)) by (by apply Forall_forall).
      eapply (backward_eq _ _ _ _ []); [done|by rewrite app_nil_r|done].
    + intros k. unfold Iterator_Seek, FindGreaterOrEqual_NULL. rewrite (run_search_result _ _ _ Hw).
      cbn [mbind option_bind result_at]. rewrite <- larger_keys.
      eapply forward_eq; [done|by apply sorted_cut; apply Hw|].
      eapply Nat.le_lt_trans; [apply length_filter|done].
Qed.

(** C13: A list built by inserting distinct keys holds exactly those keys, in
    order; [Contains] tells whether an equal key is in it, inserting an equal
    key stops at the assertion, and the iterators go through the keys forward,
    backward and from any key on. *)
Theorem skiplist_inserts (ks : list K) :
  StronglySorted (λ a b, compare_ a b ≠ 0) ks →
  ∃ l, Insert_all compare_ ks (new_SkipList zero_key) = Some l ∧
    StronglySorted (λ a b, compare_ a b < 0) (contents l) ∧ contents l ≡ₚ ks ∧
    (∀ k, ∃ b, Contains compare_ l k = Some b ∧ (b = true ↔ ∃ k', k' ∈ ks ∧ compare_ k' k = 0)) ∧
    (∀ k, (∃ k', k' ∈ ks ∧ compare_ k' k = 0) → Insert compare_ k l = None) ∧
    (SeekToFirst l ≫= forward (S (length ks)) l) = Some (contents l) ∧
    (SeekToLast compare_ l ≫= backward compare_ (S (length ks)) l) = Some (reverse (contents l)) ∧
    ∀ k, (Iterator_Seek compare_ l k ≫= forward (S (length ks)) l) =
           Some (filter (λ k', ¬ compare_ k' k < 0) (contents l)).
Proof.
  intros Hs. destruct (Insert_all_eq ks _ _ wf_new Hs) as (l & ls & Hi & Hw & Hp).
  { intros k k' []%not_elem_of_nil. }
  rewrite (contents_eq _ _ wf_new : contents (new_SkipList zero_key) = []), app_nil_r in Hp.
  destruct (list_answers l ls Hw) as (H1 & H2 & H3).
  destruct (H3 (S (length ks))) as (H4 & H5 & H6); [rewrite Hp; lia|].
  exists l. split_and!; try done; [by eapply contents_sorted|..].
  - intros k. destruct (H1 k) as (b & Hb & Hbk). exists b. split; [done|]. rewrite Hbk.
    by setoid_rewrite Hp.
  - intros k. setoid_rewrite <- Hp. apply H2.
Qed.

(** ** A search beside insertions *)

Local Abbreviation written := (written compare_ zero_key).

Lemma begin_pending l ls k ss :
  wf l ls → Insert_stores compare_ k l = Some ss → ∃ T, pending l ls T ss.
Proof.
  intros Hw Hs. assert (Hf : ∀ p, p ∈ ls 0%nat → compare_ p.2 k ≠ 0).
  { intros p Hin He. rewrite (Insert_stores_present k l ls Hw) in Hs by eauto. done. }
  destruct (Insert_stores_eq k l ls Hw Hf) as (ss' & Hs' & Hp'). rewrite Hs in Hs'.
  injection Hs' as ->. eauto.
Qed.

Lemma written_wf l ss : written l ss → ∃ ls T, wf l ls ∧ pending l ls T ss.
Proof.
  induction 1 as [|l k ss _ (ls & T & Hw & Hp) Hs|l l' s ss _ (ls & T & Hw & Hp) Hr].
  - exists (λ _, []), []. split; [apply wf_new|apply (pending_none _ (λ _, []))].
  - exists ls. destruct (begin_pending _ _ _ _ Hw Hs) as [T' ?]. eauto.
  - destruct (pending_step _ _ _ _ _ Hw Hp) as (l2 & ls2 & Hr2 & Hw2 & Hp2 & _).
    rewrite Hr in Hr2. injection Hr2 as <-. eauto.
Qed.

(** A search keeps its place when a node is added to a level. *)
Lemma at_pos_grown q l l' ls ls' x lv L1 L2 :
  wf l ls → wf l' ls' → same_or_grown ls ls' → at_pos q ls x lv L1 L2 →
  ∃ M1 M2, at_pos q ls' x lv M1 M2 ∧ (left_of ls' lv M2 ≤ left_of ls lv L2 + kMaxHeight)%nat.
Proof.
  intros Hw Hw' Hg [Hl Hc Hx Hb]. destruct Hg as [He|(i & P & y & Q & HP & HQ & Hj)].
  { exists L1, L2. unfold left_of. rewrite (He 0%nat). split; [|lia]. split; try done. by rewrite He. }
  assert (H0 : (length (ls' 0%nat) ≤ S (length (ls 0%nat)))%nat).
  { destruct (decide (i = 0%nat)) as [->|Hi0]; [|rewrite Hj by done; lia].
    rewrite HQ, HP, !length_app. cbn. lia. }
  assert (Hbound : ∀ M2, (length M2 ≤ S (length L2))%nat → (lv ≠ i → length M2 = length L2) →
    (left_of ls' lv M2 ≤ left_of ls lv L2 + kMaxHeight)%nat).
  { intros M2 HM Hne. unfold left_of. destruct (decide (lv = i)) as [->|Hne']; [nia|].
    specialize (Hne Hne'). nia. }
  destruct (decide (lv = i)) as [->|Hne].
  2:{ exists L1, L2. split; [|apply Hbound; [lia|done]]. split; try done. by rewrite Hj. }
  rewrite HP in Hc. symmetry in Hc. apply app_cases in Hc as [(J & -> & ->)|(a & J & -> & ->)].
  - exists L1, (J ++ y :: Q). split; [split; try done; by rewrite HQ, <- app_assoc|].
    apply Hbound; [|done]. rewrite !length_app. cbn. lia.
  - exists (P ++ y :: a :: J), L2. split; [|apply Hbound; [lia|done]].
    pose proof (wf_sorted _ _ Hw' i) as Hs. rewrite HQ in Hs.
    assert (Ha : before q a) by (apply Forall_app in Hb as [_ Hb]; by apply Forall_inv in Hb).
    split; [done|by rewrite HQ, <- app_assoc| |].
    + rewrite Hx, !end_of_cons_app. change (y :: a :: J) with ([y] ++ a :: J). by rewrite end_of_cons_app.
    + apply Forall_app in Hb as [Hb1 Hb2]. apply Forall_app. split; [done|]. constructor; [|done].
      apply sorted_concat in Hs as (_ & [_ Hf]%StronglySorted_inv & _). apply Forall_inv in Hf.
      by eapply before_closed.
Qed.

(** The state of a search, with the steps it has left at most. *)
Definition reader_ok (q : search) (ls : lists) (m : nat) (r : reader) : Prop :=
  match r with
  | Searching x lv => ∃ L1 L2, at_pos q ls x lv L1 L2 ∧ (S (left_of ls lv L2) ≤ m)%nat
  | Found _ => True
  end.

Definition sys_ok (q : search) (m : nat) (s : system) : Prop :=
  ∃ ls T, wf (shared s) ls ∧ pending (shared s) ls T (todo s) ∧ reader_ok q ls m (reading s).

Lemma grown_contents l l' ls ls' :
  wf l ls → wf l' ls' → same_or_grown ls ls' → contents l ⊆ contents l'.
Proof.
  intros Hw Hw' Hg. rewrite (contents_eq _ _ Hw), (contents_eq _ _ Hw').
  destruct Hg as [He|(i & P & y & Q & HP & HQ & Hj)]; [by rewrite He|].
  destruct (decide (i = 0%nat)) as [->|Hi]; [|by rewrite Hj].
  rewrite HP, HQ, !fmap_app, fmap_cons. set_solver.
Qed.

Lemma write_ok q m s s' :
  sys_ok q m s → sys_step compare_ q Writer s s' →
  sys_ok q (m + kMaxHeight) s' ∧ contents (shared s) ⊆ contents (shared s').
Proof.
  intros (ls & T & Hw & Hp & Hr) H. inversion H as [l r k ss Hs|l l' st ss r Hs|]; subst; cbn in *.
  - split; [|done]. destruct (begin_pending _ _ _ _ Hw Hs) as [T' Hp']. exists ls, T'.
    split_and!; [done|done|]. destruct r as [x lv|p]; [|done]. cbn in *.
    destruct Hr as (L1 & L2 & Hpos & Hm). exists L1, L2. split; [done|lia].
  - destruct (pending_step _ _ _ _ _ Hw Hp) as (l2 & ls2 & Hr2 & Hw2 & Hp2 & Hg & _).
    rewrite Hs in Hr2. injection Hr2 as <-. split; [|by eapply grown_contents].
    exists ls2, T. split_and!; [done|done|]. destruct r as [x lv|p]; [|done]. cbn in *.
    destruct Hr as (L1 & L2 & Hpos & Hm).
    destruct (at_pos_grown q _ _ _ _ _ _ _ _ Hw Hw2 Hg Hpos) as (M1 & M2 & HM & Hle).
    exists M1, M2. split; [done|lia].
Qed.

Lemma read_ok q m s s' :
  sys_ok q m s → sys_step compare_ q Reader s s' →
  (1 ≤ m)%nat ∧ sys_ok q (m - 1) s' ∧ shared s' = shared s ∧
  ∀ p, reading s' = Found p → found_key (shared s) p = search_answer compare_ q (contents (shared s)).
Proof.
  intros (ls & T & Hw & Hp & Hr) H. inversion H as [| |l ss x lv r Hs]; subst; cbn in *.
  destruct Hr as (L1 & L2 & Hpos & Hm). split; [lia|].
  destruct (search_step q l ls x lv L1 L2 Hw Hpos) as [(p & L & -> & Hb & Hpos')|(HL1 & HL2 & Hb)];
  rewrite Hs in Hb; injection Hb as ->.
  - split_and!; [|done|done]. exists ls, T. split_and!; [done..|]. cbn. exists (L1 ++ [p]), L.
    split; [done|]. unfold left_of in *. cbn in Hm. lia.
  - destruct lv as [|lv]; cbn.
    + split_and!; [by exists ls, T|done|]. intros p [= <-]. rewrite HL1, HL2. by apply found_key_eq.
    + split_and!; [|done|done]. exists ls, T. split_and!; [done..|]. cbn.
      destruct (at_pos_down _ _ _ _ _ _ _ Hw Hpos) as (M1 & M2 & HM). exists M1, M2.
      split; [done|]. pose proof (left_down _ _ _ _ _ L2 _ _ Hw HM). lia.
Qed.

Lemma progress_ok q m s :
  sys_ok q m s →
  (∀ x lv, reading s = Searching x lv → ∃ s', sys_step compare_ q Reader s s') ∧
  (todo s ≠ [] → ∃ s', sys_step compare_ q Writer s s').
Proof.
  intros (ls & T & Hw & Hp & Hr). destruct s as [l ss r]. cbn in *. split.
  - intros x lv ->. destruct Hr as (L1 & L2 & Hpos & Hm).
    destruct (search_step q l ls x lv L1 L2 Hw Hpos) as [(p & L & _ & Hb & _)|(_ & _ & Hb)];
    eexists; by apply make_load.
  - destruct ss as [|s ss]; [done|]. intros _.
    destruct (pending_step _ _ _ _ _ Hw Hp) as (l2 & _ & Hr2 & _). eexists. by apply make_store.
Qed.

Definition count (t : thread) (ts : list thread) : nat := length (filter (λ t', t' = t) ts).

Lemma count_snoc t ts t' : count t (ts ++ [t']) = (count t ts + if decide (t' = t) then 1 else 0)%nat.
Proof. unfold count. rewrite filter_app, length_app. f_equal. cbn. by destruct (decide (t' = t)). Qed.

(** The invariant of an execution and the loads a search may still make. *)
Lemma execution_ok q m s ts s' :
  sys_ok q m s → execution compare_ q s ts s' →
  (count Reader ts ≤ m + kMaxHeight * count Writer ts)%nat ∧
  sys_ok q (m + kMaxHeight * count Writer ts - count Reader ts) s' ∧
  contents (shared s) ⊆ contents (shared s').
Proof.
  intros H0. induction 1 as [s|s ts s1 t s2 _ IH Hstep].
  { split_and!; [unfold count; cbn; lia| |done].
    by replace (m + _ - _)%nat with m by (unfold count; cbn; lia). }
  destruct (IH H0) as (Hc & Hok & Hin). rewrite !count_snoc. destruct t.
  - destruct (write_ok _ _ _ _ Hok Hstep) as [Hok' Hin']. rewrite decide_False, decide_True by done.
    split_and!; [lia| |by etransitivity].
    replace (_ - _)%nat with (m + kMaxHeight * count Writer ts - count Reader ts + kMaxHeight)%nat by lia. done.
  - destruct (read_ok _ _ _ _ Hok Hstep) as (Hm & Hok' & -> & _). rewrite decide_True, decide_False by done.
    split_and!; [lia| |done].
    replace (_ - _)%nat with (m + kMaxHeight * count Writer ts - count Reader ts - 1)%nat by lia. done.
Qed.

Lemma start_ok q l ss :
  written l ss → sys_ok q (kMaxHeight * S (length (contents l))) (mkSystem l ss (start_search l)).
Proof.
  intros (ls & T & Hw & Hp)%written_wf. exists ls, T. split_and!; [done..|]. cbn.
  eexists _, _. split; [by apply start_at_pos|]. rewrite (contents_eq _ _ Hw), length_fmap.
  pose proof (wf_max _ _ Hw). unfold left_of, GetMaxHeight.
  pose proof (level_length _ _ (max_height_ l - 1)%nat Hw ltac:(lia)).
  unfold kMaxHeight in *. nia.
Qed.

(** C4: A search that runs beside insertions, begun in any state the writer
    brings the list to, even amid an insertion, sees sorted keys from which
    none disappears; and what it finds is the answer for the keys in the list
    at its last load: the first not smaller, the last smaller, or the last. *)
Theorem skiplist_search_linearizable q l ss ts s s' p :
  written l ss → execution compare_ q (mkSystem l ss (start_search l)) ts s →
  sys_step compare_ q Reader s s' → reading s' = Found p →
  StronglySorted (λ a b, compare_ a b < 0) (contents (shared s)) ∧
  contents l ⊆ contents (shared s) ∧
  found_key (shared s) p = search_answer compare_ q (contents (shared s)).
Proof.
  intros Hl He Hs Hp. destruct (execution_ok _ _ _ _ _ (start_ok q l ss Hl) He) as (_ & Hok & Hin).
  destruct (read_ok _ _ _ _ Hok Hs) as (_ & _ & _ & Hf).
  destruct Hok as (ls & T & Hw & _). split_and!; [by eapply contents_sorted|done|auto].
Qed.

(** C22: Neither the search nor the writer is ever stuck on an uninitialised or
    missing link, and a search makes no more loads than the height limit
    times one more than the keys at its begin and the stores beside it: it
    ends without waiting for the writer. *)
Theorem skiplist_search_ends q l ss ts s :
  written l ss → execution compare_ q (mkSystem l ss (start_search l)) ts s →
  (count Reader ts ≤ kMaxHeight * (length (contents l) + 1 + count Writer ts))%nat ∧
  (∀ x lv, reading s = Searching x lv → ∃ s', sys_step compare_ q Reader s s') ∧
  (todo s ≠ [] → ∃ s', sys_step compare_ q Writer s s').
Proof.
  intros Hl He. destruct (execution_ok _ _ _ _ _ (start_ok q l ss Hl) He) as (Hc & Hok & _).
  split; [lia|]. by eapply progress_ok.
Qed.
End Facts.

(** ** The comparator of the tests *)

#[export] Instance compare_uint_ok : Comparator compare_uint.
Proof.
  split; unfold compare_uint; intros;
  repeat match goal with
  | H : context [?a <? ?b] |- _ => destruct (Z.ltb_spec a b)
  | |- context [?a <? ?b] => destruct (Z.ltb_spec a b)
  end; lia.
Qed.

Lemma skiplist_inserts_witness :
  ∃ l, Insert_all compare_uint [5; 3; 9] (new_SkipList 0) = Some l ∧ contents l ≡ₚ [5; 3; 9].
Proof.
  destruct (skiplist_inserts compare_uint 0 [5; 3; 9]) as (l & Hl & _ & Hp & _).
  - repeat match goal with
    | |- StronglySorted _ _ => constructor
    | |- Forall _ _ => constructor
    | |- _ ≠ _ => vm_compute; discriminate
    end.
  - exists l. exact (conj Hl Hp).
Defined.

(** A search for 3 begins in the empty list and looks at the highest level
    after the insertion of 5 has published its node: it finds 5. *)
Definition search_begun : system :=
  mkSystem (new_SkipList 0) [] (start_search (new_SkipList 0)).

Definition five_inserted : SkipList := Eval vm_compute in
  match Insert compare_uint 5 (new_SkipList 0) with Some l => l | None => new_SkipList 0 end.

Example search_beside_insert :
  execution compare_uint (GreaterOrEqual 3) search_begun [Writer; Writer; Writer; Writer; Writer]
    (mkSystem five_inserted [] (Searching 0 0)).
Proof.
  eapply (execution_snoc _ _ _ [Writer; Writer; Writer; Writer]).
  1: eapply (execution_snoc _ _ _ [Writer; Writer; Writer]).
  1: eapply (execution_snoc _ _ _ [Writer; Writer]).
  1: eapply (execution_snoc _ _ _ [Writer]).
  1: eapply (execution_snoc _ _ _ []).
  1: apply execution_nil.
  1: eapply (begin_insert _ _ _ _ 5); vm_compute; reflexivity.
  all: eapply make_store; vm_compute; reflexivity.
Qed.

Lemma skiplist_search_linearizable_witness :
  found_key five_inserted (At 1) = search_answer compare_uint (GreaterOrEqual 3) (contents five_inserted) ∧
  search_answer compare_uint (GreaterOrEqual 3) (contents five_inserted) = Some 5.
Proof.
  split; [|vm_compute; reflexivity].
  refine (proj2 (proj2 (skiplist_search_linearizable compare_uint 0 (GreaterOrEqual 3) (new_SkipList 0) []
    _ _ (mkSystem five_inserted [] (Found (At 1))) (At 1) _ search_beside_insert _ _))).
  - constructor.
  - by apply (make_load _ _ _ _ _ _ (Return (At 1))).
  - reflexivity.
Defined.

Lemma skiplist_search_ends_witness :
  ∃ s', sys_step compare_uint (GreaterOrEqual 3) Reader (mkSystem five_inserted [] (Searching 0 0)) s'.
Proof.
  refine (proj1 (proj2 (skiplist_search_ends compare_uint 0 (GreaterOrEqual 3) (new_SkipList 0) []
    _ _ _ search_beside_insert)) 0%nat 0%nat _).
  - constructor.
  - reflexivity.
Defined.
