(* ===== verification/Hex.v ===== *)
(** * Hexadecimal encoding

    Model of encoding/hex.h and encoding/hex.cpp.  Output iterators and
    containers are the byte string they produce. *)

From S2P Require Import Prelude Coding.

(** [static const char* hex_digits] *)
Definition hex_digits (uppercase : bool) : bytes :=
  if uppercase then str "0123456789ABCDEF" else str "0123456789abcdef".

Definition hex_digit (uppercase : bool) (i : Z) : Z := nth (Z.to_nat i) (hex_digits uppercase) 0.

(** [unsigned char ch = *first] takes the value modulo 256. *)
Fixpoint Encode (data : bytes) (uppercase : bool) : bytes :=
  match data with
  | [] => []
  | ch :: data =>
      let ch := u8 ch in
      hex_digit uppercase (Z.shiftr ch 4) :: hex_digit uppercase (Z.land ch 0x0F) :: Encode data uppercase
  end.

Definition EncodeAppend (data output : bytes) (uppercase : bool) : bytes := output ++ Encode data uppercase.
Definition EncodeTo (data output : bytes) (uppercase : bool) : bytes := EncodeAppend data [] uppercase.

(** The buffer must have room for the digits and the zero; what is behind
    stays. *)
Definition EncodeToBuffer (data output : bytes) (uppercase : bool) : option bytes :=
  if (2 * length data <? length output)%nat then
    Some (Encode data uppercase ++ 0 :: drop (2 * length data + 1) output)
  else None.

Definition EncodeAsString (data : bytes) (uppercase : bool) : bytes := EncodeTo data [] uppercase.

(** ** Digits read back *)

(** The value of a hexadecimal digit of either case. *)
Definition digit_value (c : Z) : option Z :=
  if ((chr "0" <=? c) && (c <=? chr "9"))%bool then Some (c - chr "0")
  else if ((chr "a" <=? c) && (c <=? chr "f"))%bool then Some (c - chr "a" + 10)
  else if ((chr "A" <=? c) && (c <=? chr "F"))%bool then Some (c - chr "A" + 10)
  else None.

Fixpoint read_hex (s : bytes) : option bytes :=
  match s with
  | [] => Some []
  | h :: l :: s => h ← digit_value h; l ← digit_value l; t ← read_hex s; Some (16 * h + l :: t)
  | _ => None
  end.

Lemma hex_digit_value up b : is_byte b →
  digit_value (hex_digit up (Z.shiftr b 4)) = Some (b / 16) ∧
  digit_value (hex_digit up (Z.land b 0x0F)) = Some (b mod 16).
Proof.
  assert (Hf : ∀ up, forallb (λ b, bool_decide (digit_value (hex_digit up (Z.shiftr b 4)) = Some (b / 16)) &&
            bool_decide (digit_value (hex_digit up (Z.land b 0x0F)) = Some (b mod 16)))%bool (seqZ 0 256) = true).
  { intros []; vm_compute; reflexivity. }
  intros Hb. pose proof (byte_forall _ (Hf up) b Hb) as H. cbn beta in H.
  apply andb_true_iff in H as [H1 H2]. apply bool_decide_eq_true in H1, H2. done.
Qed.

Lemma read_hex_Encode up data : bytes_ok data → read_hex (Encode data up) = Some data.
Proof.
  induction 1 as [|b data Hb _ IH]; [done|]. cbn [Encode]. rewrite u8_small by done.
  destruct (hex_digit_value up b Hb) as [Hh Hl]. cbn [read_hex]. rewrite Hh, Hl. cbn [mbind option_bind].
  rewrite IH. cbn. do 2 f_equal. pose proof (Z.div_mod b 16 ltac:(done)). lia.
Qed.

Lemma Encode_length up data : length (Encode data up) = (2 * length data)%nat.
Proof. induction data as [|b data IH]; [done|]. cbn. rewrite IH. lia. Qed.
