(* ===== verification/BlockHash.v ===== *)
(** * Hashing in blocks of 64 bytes

    What crypto/hash/md5.cpp and crypto/hash/sha1.cpp share: words stored in
    memory, the copy into a buffer, and the reference they are held against,
    which pads the whole message, cuts it into blocks and feeds them to the
    compression function one after the other. *)

From S2P Require Import Prelude Coding.

(** ** Memory *)

(** [memcpy(dst + pos, src, n)] with [n] the length of [src]. *)
Definition memcpy (dst : bytes) (pos : nat) (src : bytes) : bytes :=
  take pos dst ++ src ++ drop (pos + length src) dst.

(** [memset(dst + pos, 0, n)] *)
Definition memset0 (dst : bytes) (pos n : nat) : bytes := memcpy dst pos (replicate n 0).

(** A 32-bit word at [p] on the little-endian target, and its bytes. *)
Definition load32 (p : bytes) : Z :=
  match p with
  | b0 :: b1 :: b2 :: b3 :: _ =>
      Z.lor (Z.lor (Z.lor b0 (Z.shiftl b1 8)) (Z.shiftl b2 16)) (Z.shiftl b3 24)
  | _ => 0
  end.
Definition store32 (w : Z) : bytes := little_bytes 4 w.

(** The [i]th element of an array of words at [p]. *)
Definition word (p : bytes) (i : nat) : Z := load32 (drop (4 * i) p).

(** Rotation of a 32-bit word. *)
Definition rotl32 (w s : Z) : Z := Z.lor (u32 (Z.shiftl w s)) (Z.shiftr w (32 - s)).

Lemma memcpy_length dst pos src :
  (pos + length src ≤ length dst)%nat → length (memcpy dst pos src) = length dst.
Proof. intros H. unfold memcpy. rewrite !length_app, length_take, length_drop. lia. Qed.

Lemma memcpy_take dst pos src :
  (pos ≤ length dst)%nat → take (pos + length src) (memcpy dst pos src) = take pos dst ++ src.
Proof.
  intros H. unfold memcpy. rewrite app_assoc. apply take_app_exact.
  rewrite length_app, length_take. lia.
Qed.

Lemma memcpy_full dst pos src :
  (pos ≤ length dst)%nat → length dst = (pos + length src)%nat →
  memcpy dst pos src = take pos dst ++ src.
Proof. intros H1 H2. unfold memcpy. rewrite drop_ge by lia. by rewrite app_nil_r. Qed.

(** Copies behind each other are one copy. *)
Lemma memcpy_adjacent dst pos a b q :
  (pos ≤ length dst)%nat → q = (pos + length a)%nat →
  memcpy (memcpy dst pos a) q b = memcpy dst pos (a ++ b).
Proof.
  intros H ->. unfold memcpy at 1. rewrite memcpy_take by done. unfold memcpy.
  rewrite <- !app_assoc. do 3 f_equal. rewrite (app_assoc (take pos dst)).
  rewrite drop_app_ge by (rewrite !length_app, length_take; lia).
  rewrite drop_drop, !length_app, length_take. f_equal. lia.
Qed.

Lemma memcpy_ok dst pos src : bytes_ok dst → bytes_ok src → bytes_ok (memcpy dst pos src).
Proof.
  intros H1 H2. unfold memcpy. rewrite !bytes_ok_app. split_and!; [|done|].
  - by apply Forall_take.
  - by apply Forall_drop.
Qed.

(** ** The reference *)

Section BlockHash.
Context {St : Type} (compress : St → bytes → St).

Fixpoint absorb_blocks (n : nat) (s : St) (m : bytes) : St :=
  match n with
  | O => s
  | S n => absorb_blocks n (compress s (take 64 m)) (drop 64 m)
  end.

(** The whole blocks of [m], and what is left. *)
Definition absorb (s : St) (m : bytes) : St := absorb_blocks (length m / 64) s m.
Definition rest (m : bytes) : bytes := drop (64 * (length m / 64)) m.

Lemma div64_add a b : ((64 + b) / 64 = S (b / 64))%nat ∧ ((64 + a) mod 64 = a mod 64)%nat.
Proof.
  split.
  - replace (64 + b)%nat with (b + 1 * 64)%nat by lia. rewrite Nat.div_add by lia. lia.
  - replace (64 + a)%nat with (a + 1 * 64)%nat by lia. by rewrite Nat.Div0.mod_add.
Qed.

Lemma rest_small m : (length m < 64)%nat → rest m = m.
Proof. intros H. unfold rest. by rewrite Nat.div_small. Qed.

Lemma absorb_small s m : (length m < 64)%nat → absorb s m = s ∧ rest m = m.
Proof. intros H. split; [|by apply rest_small]. unfold absorb. by rewrite Nat.div_small. Qed.

Lemma absorb_block s b m : length b = 64%nat → absorb s (b ++ m) = absorb (compress s b) m.
Proof.
  intros H. unfold absorb. rewrite length_app, H, (proj1 (div64_add 0 _)). cbn [absorb_blocks].
  by rewrite take_app_exact, drop_app_exact.
Qed.

Lemma rest_block b m : length b = 64%nat → rest (b ++ m) = rest m.
Proof.
  intros H. unfold rest. rewrite length_app, H, (proj1 (div64_add 0 _)).
  rewrite Nat.mul_succ_r, Nat.add_comm, <- drop_drop. f_equal. by apply drop_app_exact.
Qed.

(** A message of one block. *)
Lemma absorb_one s b : length b = 64%nat → absorb s b = compress s b ∧ rest b = [].
Proof.
  intros H. pose proof (absorb_block s b [] H) as H1. pose proof (rest_block b [] H) as H2.
  by rewrite app_nil_r in H1, H2.
Qed.

Lemma rest_length m : length (rest m) = (length m mod 64)%nat.
Proof. unfold rest. rewrite length_drop. pose proof (Nat.div_mod_eq (length m) 64). lia. Qed.

Lemma rest_short m : (length (rest m) < 64)%nat.
Proof. rewrite rest_length. by apply Nat.mod_upper_bound. Qed.

(** Induction on messages block by block. *)
Lemma message_ind (P : bytes → Prop) :
  (∀ m, (length m < 64)%nat → P m) →
  (∀ b m, length b = 64%nat → P m → P (b ++ m)) → ∀ m, P m.
Proof.
  intros H0 H1 m. remember (length m) as n eqn:Hn. revert m Hn.
  induction (lt_wf n) as [n _ IH]. intros m ->.
  destruct (Nat.lt_ge_cases (length m) 64) as [Hs|Hs]; [by apply H0|].
  rewrite <- (take_drop 64 m). apply H1; [rewrite length_take; lia|].
  eapply IH; [|done]. rewrite length_drop. lia.
Qed.

(** More data goes on from the rest. *)
Lemma absorb_app s m k : absorb s (m ++ k) = absorb (absorb s m) (rest m ++ k).
Proof.
  revert s. induction m as [m Hm|b m Hb IH] using message_ind; intros s.
  - by destruct (absorb_small s m Hm) as [-> ->].
  - by rewrite <- app_assoc, (absorb_block s b (m ++ k)), (absorb_block s b m), rest_block.
Qed.

Lemma rest_app m k : rest (m ++ k) = rest (rest m ++ k).
Proof.
  induction m as [m Hm|b m Hb IH] using message_ind.
  - by rewrite (rest_small m Hm).
  - rewrite <- app_assoc, (rest_block b (m ++ k)), (rest_block b m) by done. exact IH.
Qed.

(** The padded message: a bit, zeros up to 56 bytes of a block, and the length
    in bits by the encoder given. *)
Definition zeros (len : nat) : nat := Z.to_nat ((55 - Z.of_nat len) mod 64).
Definition pad (len64 : Z → bytes) (m : bytes) : bytes :=
  m ++ 0x80 :: replicate (zeros (length m)) 0 ++ len64 (8 * Z.of_nat (length m)).

Definition hash_blocks (iv : St) (len64 : Z → bytes) (m : bytes) : St := absorb iv (pad len64 m).

(** How a context stands for the message taken in so far. *)
Record stands_for (iv : St) (m : bytes) (s : St) (buffer : bytes) : Prop := {
  sf_state : s = absorb iv m;
  sf_length : length buffer = 64%nat;
  sf_rest : take (length (rest m)) buffer = rest m
}.

(** Data that does not fill the block is copied behind the rest. *)
Lemma stands_copy iv m s buffer k :
  stands_for iv m s buffer → (length (rest m) + length k < 64)%nat →
  stands_for iv (m ++ k) s (memcpy buffer (length (rest m)) k).
Proof.
  intros [-> Hl Hr] Hk. assert (Hs : (length (rest m ++ k) < 64)%nat) by (rewrite length_app; lia).
  destruct (absorb_small (absorb iv m) _ Hs) as [Ha Hrest]. split.
  - by rewrite absorb_app, Ha.
  - rewrite memcpy_length; lia.
  - by rewrite rest_app, Hrest, length_app, memcpy_take, Hr by lia.
Qed.

(** Data that fills it gives a block for the compression function. *)
Lemma stands_fill iv m s buffer k1 :
  stands_for iv m s buffer → (length (rest m) + length k1 = 64)%nat →
  stands_for iv (m ++ k1) (compress s (memcpy buffer (length (rest m)) k1)) (memcpy buffer (length (rest m)) k1).
Proof.
  intros [-> Hl Hr] Hk. assert (Hb : length (rest m ++ k1) = 64%nat) by (rewrite length_app; lia).
  rewrite memcpy_full, Hr by lia. destruct (absorb_one (absorb iv m) _ Hb) as [Ha Hrest]. split.
  - by rewrite absorb_app, Ha.
  - done.
  - by rewrite rest_app, Hrest.
Qed.

(** A block of data where nothing is left over is compressed as it is. *)
Lemma absorb_next iv m b :
  rest m = [] → length b = 64%nat →
  absorb iv (m ++ b) = compress (absorb iv m) b ∧ rest (m ++ b) = [].
Proof.
  intros Hr Hb. rewrite absorb_app, rest_app, Hr. cbn [app]. by apply absorb_one.
Qed.

Lemma stands_any iv m s b b' :
  stands_for iv m s b → rest m = [] → length b' = 64%nat → stands_for iv m s b'.
Proof. intros [Hs _ _] Hr Hl. split; [done|done|by rewrite Hr]. Qed.
End BlockHash.

(** ** The counter of bits and the padding *)

(** The two words of the counter. *)
Definition bit_words (n : Z) : Z * Z := (u32 n, u32 (n / 2 ^ 32)).
Definition bit_length (m : bytes) : Z := 8 * Z.of_nat (length m).

(** The sum of the low words is below either of them exactly when it wraps. *)
Lemma sum_wraps r y :
  0 <= r < 2 ^ 32 → 0 <= y < 2 ^ 32 → (u32 (r + y) <? r) = (2 ^ 32 <=? r + y).
Proof.
  intros Hr Hy. destruct (Z.leb_spec (2 ^ 32) (r + y)) as [Hs|Hs].
  - assert (Hu : u32 (r + y) = r + y - 2 ^ 32) by (symmetry; apply Z.mod_unique_pos with 1; lia).
    rewrite Hu. apply Z.ltb_lt. lia.
  - rewrite u32_small by lia. apply Z.ltb_ge. lia.
Qed.

Lemma u32_add_r x y : u32 (x + u32 y) = u32 (x + y).
Proof. unfold u32. by rewrite Zplus_mod_idemp_r. Qed.

(** The high word after [len] bytes more. *)
Lemma high_word_sum n len :
  0 <= n → 0 <= len →
  let q := u32 (n / 2 ^ 32) in
  u32 ((if 2 ^ 32 <=? u32 n + u32 (len * 2 ^ 3) then u32 (q + 1) else q) + len / 2 ^ 29) =
  u32 ((n + 8 * len) / 2 ^ 32).
Proof.
  intros Hn Hl. cbv zeta.
  pose proof (Z.div_mod n (2 ^ 32) ltac:(lia)) as Hd.
  pose proof (Z.mod_pos_bound n (2 ^ 32) ltac:(lia)) as Hb.
  pose proof (Z.div_mod (len * 2 ^ 3) (2 ^ 32) ltac:(lia)) as Hd2.
  pose proof (Z.mod_pos_bound (len * 2 ^ 3) (2 ^ 32) ltac:(lia)) as Hb2.
  fold (u32 n) (u32 (len * 2 ^ 3)) in *.
  assert (Hq : len * 2 ^ 3 / 2 ^ 32 = len / 2 ^ 29).
  { change (2 ^ 32) with (2 ^ 29 * 2 ^ 3). by rewrite Z.div_mul_cancel_r by lia. }
  set (r := u32 n) in *. set (y := u32 (len * 2 ^ 3)) in *.
  assert (Hs : n + 8 * len = r + y + (n / 2 ^ 32 + len / 2 ^ 29) * 2 ^ 32) by lia.
  rewrite Hs, Z.div_add by lia. destruct (Z.leb_spec (2 ^ 32) (r + y)) as [Hc|Hc].
  - replace ((r + y) / 2 ^ 32) with 1 by (apply Z.div_unique_pos with (r + y - 2 ^ 32); lia).
    unfold u32. rewrite Zplus_mod_idemp_l, <- Z.add_assoc, Zplus_mod_idemp_l. f_equal. lia.
  - rewrite (Z.div_small (r + y)) by lia. unfold u32. by rewrite Zplus_mod_idemp_l.
Qed.

Lemma rest_count m : Z.land (Z.shiftr (u32 (bit_length m)) 3) 0x3f = Z.of_nat (length (rest m)).
Proof.
  change 0x3f with (2 ^ 6 - 1). rewrite land_ones_mod, Z.shiftr_div_pow2, rest_length by lia.
  unfold bit_length, u32. rewrite Nat2Z.inj_mod. change (Z.of_nat 64) with 64.
  Z.to_euclidean_division_equations. lia.
Qed.

Lemma bit_length_app m k : bit_length (m ++ k) = bit_length m + 8 * Z.of_nat (length k).
Proof. unfold bit_length. rewrite length_app. lia. Qed.

Lemma zeros_small r m : length (rest m) = r → (r < 56)%nat → zeros (length m) = (55 - r)%nat.
Proof.
  intros Hr Hs. rewrite rest_length in Hr. unfold zeros. subst r.
  pose proof (Nat.div_mod_eq (length m) 64) as Hd.
  replace (55 - Z.of_nat (length m)) with (55 - Z.of_nat (length m mod 64) + (- Z.of_nat (length m / 64)) * 64) by lia.
  rewrite Z.mod_add, Z.mod_small by lia. lia.
Qed.

Lemma zeros_large r m : length (rest m) = r → (56 ≤ r)%nat → zeros (length m) = (63 - r + 56)%nat.
Proof.
  intros Hr Hs. pose proof (rest_short m) as Hlt. rewrite rest_length in *. unfold zeros. subst r.
  pose proof (Nat.div_mod_eq (length m) 64) as Hd.
  replace (55 - Z.of_nat (length m)) with (119 - Z.of_nat (length m mod 64) + (- Z.of_nat (length m / 64) - 1) * 64) by lia.
  rewrite Z.mod_add, Z.mod_small by lia. lia.
Qed.

Lemma zeros_ok n : bytes_ok (replicate n 0).
Proof. apply Forall_replicate. unfold is_byte. lia. Qed.

(** ** Words in memory *)

Lemma store32_words x : 0 <= x < 2 ^ 32 → ∃ a b c d, store32 x = [a; b; c; d] ∧ bytes_ok [a; b; c; d] ∧
  x = a + b * 2 ^ 8 + c * 2 ^ 16 + d * 2 ^ 24.
Proof.
  intros Hx. exists (x mod 256), (x / 256 mod 256), (x / 256 / 256 mod 256), (x / 256 / 256 / 256 mod 256).
  assert (Hb : ∀ y, is_byte (y mod 256)) by (intros y; apply Z.mod_pos_bound; lia).
  split; [unfold store32; by rewrite !little_bytes_S, little_bytes_0|]. split; [by repeat constructor; apply Hb|].
  pose proof (Z.div_mod x 256). pose proof (Z.div_mod (x / 256) 256). pose proof (Z.div_mod (x / 256 / 256) 256).
  assert (0 <= x / 256 / 256 / 256 < 256).
  { rewrite !Z.div_div by lia. split; [apply Z.div_pos; lia|apply Z.div_lt_upper_bound; lia]. }
  rewrite (Z.mod_small (x / 256 / 256 / 256)) by lia. lia.
Qed.

Lemma load32_words a b c d q : bytes_ok [a; b; c; d] → load32 (a :: b :: c :: d :: q) = a + b * 2 ^ 8 + c * 2 ^ 16 + d * 2 ^ 24.
Proof. rewrite !bytes_ok_cons. intros (Ha & Hb & Hc & Hd & _). cbn [load32]. by rewrite join4. Qed.

Lemma load32_store32 x : 0 <= x < 2 ^ 32 → load32 (store32 x) = x.
Proof. intros Hx. destruct (store32_words x Hx) as (a & b & c & d & -> & Hb & E). rewrite load32_words by done. lia. Qed.

Lemma store32_load32 a b c d : bytes_ok [a; b; c; d] → store32 (load32 [a; b; c; d]) = [a; b; c; d].
Proof.
  intros Hb. rewrite load32_words by done. rewrite !bytes_ok_cons in Hb. destruct Hb as (Ha & Hb & Hc & Hd & _). unfold is_byte in *.
  unfold store32. rewrite !little_bytes_S, little_bytes_0.
  assert (E : ∀ x y, 0 <= x < 256 → (x + y * 256) mod 256 = x ∧ (x + y * 256) / 256 = y).
  { intros x y Hx. rewrite Z.mod_add, Z.div_add, Z.mod_small, Z.div_small by lia. lia. }
  replace (a + b * 2 ^ 8 + c * 2 ^ 16 + d * 2 ^ 24) with (a + (b + (c + d * 256) * 256) * 256) by lia.
  destruct (E a (b + (c + d * 256) * 256) Ha) as [-> ->]. destruct (E b (c + d * 256) Hb) as [-> ->]. destruct (E c d Hc) as [-> ->].
  by rewrite (Z.mod_small d) by lia.
Qed.
