(* ===== verification/MD5.v ===== *)
(** * MD5

    Model of crypto/hash/md5.cpp.  A context takes data in pieces of any
    length; the digest is that of the message padded as a whole and
    compressed block by block by the loop of RFC 1321. *)

From S2P Require Import Prelude Coding BlockHash Hex.

(** ** The compression function *)

(** The four core functions; [~] is on 32-bit words. *)
Definition F1 (x y z : Z) : Z := Z.lxor z (Z.land x (Z.lxor y z)).
Definition F2 (x y z : Z) : Z := F1 z x y.
Definition F3 (x y z : Z) : Z := Z.lxor (Z.lxor x y) z.
Definition F4 (x y z : Z) : Z := Z.lxor y (Z.lor x (u32 (Z.lnot z))).

(** The local variables [a], [b], [c] and [d]. *)
Definition state : Type := Z * Z * Z * Z.
Inductive var := Ra | Rb | Rc | Rd.

Definition get (st : state) (v : var) : Z :=
  let '(a, b, c, d) := st in match v with Ra => a | Rb => b | Rc => c | Rd => d end.

Definition assign (st : state) (v : var) (x : Z) : state :=
  let '(a, b, c, d) := st in
  match v with Ra => (x, b, c, d) | Rb => (a, x, c, d) | Rc => (a, b, x, d) | Rd => (a, b, c, x) end.

Definition MD5STEP (f : Z → Z → Z → Z) (w x y z : var) (data s : Z) (st : state) : state :=
  let st := assign st w (u32 (get st w + u32 (f (get st x) (get st y) (get st z) + data))) in
  let st := assign st w (rotl32 (get st w) s) in
  assign st w (u32 (get st w + get st x)).

Definition MD5Transform (buf : state) (block : bytes) : state :=
  let st := buf in
  let st := MD5STEP F1 Ra Rb Rc Rd (u32 (word block 0 + 0xd76aa478)) 7 st in
  let st := MD5STEP F1 Rd Ra Rb Rc (u32 (word block 1 + 0xe8c7b756)) 12 st in
  let st := MD5STEP F1 Rc Rd Ra Rb (u32 (word block 2 + 0x242070db)) 17 st in
  let st := MD5STEP F1 Rb Rc Rd Ra (u32 (word block 3 + 0xc1bdceee)) 22 st in
  let st := MD5STEP F1 Ra Rb Rc Rd (u32 (word block 4 + 0xf57c0faf)) 7 st in
  let st := MD5STEP F1 Rd Ra Rb Rc (u32 (word block 5 + 0x4787c62a)) 12 st in
  let st := MD5STEP F1 Rc Rd Ra Rb (u32 (word block 6 + 0xa8304613)) 17 st in
  let st := MD5STEP F1 Rb Rc Rd Ra (u32 (word block 7 + 0xfd469501)) 22 st in
  let st := MD5STEP F1 Ra Rb Rc Rd (u32 (word block 8 + 0x698098d8)) 7 st in
  let st := MD5STEP F1 Rd Ra Rb Rc (u32 (word block 9 + 0x8b44f7af)) 12 st in
  let st := MD5STEP F1 Rc Rd Ra Rb (u32 (word block 10 + 0xffff5bb1)) 17 st in
  let st := MD5STEP F1 Rb Rc Rd Ra (u32 (word block 11 + 0x895cd7be)) 22 st in
  let st := MD5STEP F1 Ra Rb Rc Rd (u32 (word block 12 + 0x6b901122)) 7 st in
  let st := MD5STEP F1 Rd Ra Rb Rc (u32 (word block 13 + 0xfd987193)) 12 st in
  let st := MD5STEP F1 Rc Rd Ra Rb (u32 (word block 14 + 0xa679438e)) 17 st in
  let st := MD5STEP F1 Rb Rc Rd Ra (u32 (word block 15 + 0x49b40821)) 22 st in
  let st := MD5STEP F2 Ra Rb Rc Rd (u32 (word block 1 + 0xf61e2562)) 5 st in
  let st := MD5STEP F2 Rd Ra Rb Rc (u32 (word block 6 + 0xc040b340)) 9 st in
  let st := MD5STEP F2 Rc Rd Ra Rb (u32 (word block 11 + 0x265e5a51)) 14 st in
  let st := MD5STEP F2 Rb Rc Rd Ra (u32 (word block 0 + 0xe9b6c7aa)) 20 st in
  let st := MD5STEP F2 Ra Rb Rc Rd (u32 (word block 5 + 0xd62f105d)) 5 st in
  let st := MD5STEP F2 Rd Ra Rb Rc (u32 (word block 10 + 0x02441453)) 9 st in
  let st := MD5STEP F2 Rc Rd Ra Rb (u32 (word block 15 + 0xd8a1e681)) 14 st in
  let st := MD5STEP F2 Rb Rc Rd Ra (u32 (word block 4 + 0xe7d3fbc8)) 20 st in
  let st := MD5STEP F2 Ra Rb Rc Rd (u32 (word block 9 + 0x21e1cde6)) 5 st in
  let st := MD5STEP F2 Rd Ra Rb Rc (u32 (word block 14 + 0xc33707d6)) 9 st in
  let st := MD5STEP F2 Rc Rd Ra Rb (u32 (word block 3 + 0xf4d50d87)) 14 st in
  let st := MD5STEP F2 Rb Rc Rd Ra (u32 (word block 8 + 0x455a14ed)) 20 st in
  let st := MD5STEP F2 Ra Rb Rc Rd (u32 (word block 13 + 0xa9e3e905)) 5 st in
  let st := MD5STEP F2 Rd Ra Rb Rc (u32 (word block 2 + 0xfcefa3f8)) 9 st in
  let st := MD5STEP F2 Rc Rd Ra Rb (u32 (word block 7 + 0x676f02d9)) 14 st in
  let st := MD5STEP F2 Rb Rc Rd Ra (u32 (word block 12 + 0x8d2a4c8a)) 20 st in
  let st := MD5STEP F3 Ra Rb Rc Rd (u32 (word block 5 + 0xfffa3942)) 4 st in
  let st := MD5STEP F3 Rd Ra Rb Rc (u32 (word block 8 + 0x8771f681)) 11 st in
  let st := MD5STEP F3 Rc Rd Ra Rb (u32 (word block 11 + 0x6d9d6122)) 16 st in
  let st := MD5STEP F3 Rb Rc Rd Ra (u32 (word block 14 + 0xfde5380c)) 23 st in
  let st := MD5STEP F3 Ra Rb Rc Rd (u32 (word block 1 + 0xa4beea44)) 4 st in
  let st := MD5STEP F3 Rd Ra Rb Rc (u32 (word block 4 + 0x4bdecfa9)) 11 st in
  let st := MD5STEP F3 Rc Rd Ra Rb (u32 (word block 7 + 0xf6bb4b60)) 16 st in
  let st := MD5STEP F3 Rb Rc Rd Ra (u32 (word block 10 + 0xbebfbc70)) 23 st in
  let st := MD5STEP F3 Ra Rb Rc Rd (u32 (word block 13 + 0x289b7ec6)) 4 st in
  let st := MD5STEP F3 Rd Ra Rb Rc (u32 (word block 0 + 0xeaa127fa)) 11 st in
  let st := MD5STEP F3 Rc Rd Ra Rb (u32 (word block 3 + 0xd4ef3085)) 16 st in
  let st := MD5STEP F3 Rb Rc Rd Ra (u32 (word block 6 + 0x04881d05)) 23 st in
  let st := MD5STEP F3 Ra Rb Rc Rd (u32 (word block 9 + 0xd9d4d039)) 4 st in
  let st := MD5STEP F3 Rd Ra Rb Rc (u32 (word block 12 + 0xe6db99e5)) 11 st in
  let st := MD5STEP F3 Rc Rd Ra Rb (u32 (word block 15 + 0x1fa27cf8)) 16 st in
  let st := MD5STEP F3 Rb Rc Rd Ra (u32 (word block 2 + 0xc4ac5665)) 23 st in
  let st := MD5STEP F4 Ra Rb Rc Rd (u32 (word block 0 + 0xf4292244)) 6 st in
  let st := MD5STEP F4 Rd Ra Rb Rc (u32 (word block 7 + 0x432aff97)) 10 st in
  let st := MD5STEP F4 Rc Rd Ra Rb (u32 (word block 14 + 0xab9423a7)) 15 st in
  let st := MD5STEP F4 Rb Rc Rd Ra (u32 (word block 5 + 0xfc93a039)) 21 st in
  let st := MD5STEP F4 Ra Rb Rc Rd (u32 (word block 12 + 0x655b59c3)) 6 st in
  let st := MD5STEP F4 Rd Ra Rb Rc (u32 (word block 3 + 0x8f0ccc92)) 10 st in
  let st := MD5STEP F4 Rc Rd Ra Rb (u32 (word block 10 + 0xffeff47d)) 15 st in
  let st := MD5STEP F4 Rb Rc Rd Ra (u32 (word block 1 + 0x85845dd1)) 21 st in
  let st := MD5STEP F4 Ra Rb Rc Rd (u32 (word block 8 + 0x6fa87e4f)) 6 st in
  let st := MD5STEP F4 Rd Ra Rb Rc (u32 (word block 15 + 0xfe2ce6e0)) 10 st in
  let st := MD5STEP F4 Rc Rd Ra Rb (u32 (word block 6 + 0xa3014314)) 15 st in
  let st := MD5STEP F4 Rb Rc Rd Ra (u32 (word block 13 + 0x4e0811a1)) 21 st in
  let st := MD5STEP F4 Ra Rb Rc Rd (u32 (word block 4 + 0xf7537e82)) 6 st in
  let st := MD5STEP F4 Rd Ra Rb Rc (u32 (word block 11 + 0xbd3af235)) 10 st in
  let st := MD5STEP F4 Rc Rd Ra Rb (u32 (word block 2 + 0x2ad7d2bb)) 15 st in
  let st := MD5STEP F4 Rb Rc Rd Ra (u32 (word block 9 + 0xeb86d391)) 21 st in
  let '(a0, b0, c0, d0) := buf in
  let '(a, b, c, d) := st in
  (u32 (a0 + a), u32 (b0 + b), u32 (c0 + c), u32 (d0 + d)).

(** The words of the buffer from bytes, in place: on a little-endian machine
    it writes back what it read. *)
Fixpoint byteReverse (buf : bytes) (longs : nat) : bytes :=
  match longs with
  | O => buf
  | S longs =>
      let t := Z.lor (u32 (Z.shiftl (Z.lor (Z.shiftl (nth 3 buf 0) 8) (nth 2 buf 0)) 16))
                 (Z.lor (Z.shiftl (nth 1 buf 0) 8) (nth 0 buf 0)) in
      store32 t ++ byteReverse (drop 4 buf) longs
  end.

(** ** The context *)

Record MD5 := mkMD5 {
  buf : state;
  bits : Z * Z;             (* bits[0], the low word, and bits[1] *)
  in_ : bytes               (* 64 bytes *)
}.

(** [Init] leaves [in] as it is; the constructor as it was in memory. *)
Definition init_buf : state := (0x67452301, 0xefcdab89, 0x98badcfe, 0x10325476).
Definition Init (c : MD5) : MD5 := mkMD5 init_buf (0, 0) (in_ c).
Definition new_MD5 (memory : bytes) : MD5 := Init (mkMD5 (0, 0, 0, 0) (0, 0) memory).

(** [while (len >= 64)], and the copy of what remains; [data] is what [buf]
    points to. *)
Fixpoint update_loop (fuel : nat) (buf : state) (bits : Z * Z) (block data : bytes) (len : Z) : MD5 :=
  match fuel with
  | O => mkMD5 buf bits block
  | S fuel =>
      if 64 <=? len then
        let block := byteReverse (memcpy block 0 (take 64 data)) 16 in
        update_loop fuel (MD5Transform buf block) bits block (drop 64 data) (len - 64)
      else mkMD5 buf bits (memcpy block 0 (take (Z.to_nat len) data))
  end.

(** The counter of bits; the length is a [uint32_t]. *)
Definition add_bits (bits : Z * Z) (len : Z) : Z * Z :=
  let t := bits.1 in
  let b0 := u32 (t + u32 (Z.shiftl len 3)) in
  let b1 := if b0 <? t then u32 (bits.2 + 1) else bits.2 in
  (b0, u32 (b1 + Z.shiftr len 29)).

Definition Update (sp : bytes) (c : MD5) : MD5 :=
  let len := u32 (Z.of_nat (length sp)) in
  let bits' := add_bits (bits c) len in
  let t := Z.land (Z.shiftr (bits c).1 3) 0x3f in
  let fuel := S (length sp) in
  if t =? 0 then update_loop fuel (buf c) bits' (in_ c) sp len
  else
    let p := Z.to_nat t in
    let t := 64 - t in
    if len <? t then mkMD5 (buf c) bits' (memcpy (in_ c) p (take (Z.to_nat len) sp))
    else
      let block := byteReverse (memcpy (in_ c) p (take (Z.to_nat t) sp)) 16 in
      update_loop fuel (MD5Transform (buf c) block) bits' block (drop (Z.to_nat t) sp) (len - t).

Definition FinalInternal (c : MD5) : MD5 :=
  let count := Z.land (Z.shiftr (bits c).1 3) 0x3f in
  let block := memcpy (in_ c) (Z.to_nat count) [0x80] in
  let p := (Z.to_nat count + 1)%nat in
  let count := 64 - 1 - count in
  let '(buf, block) :=
    if count <? 8 then
      let block := byteReverse (memset0 block p (Z.to_nat count)) 16 in
      (MD5Transform (buf c) block, memset0 block 0 56)
    else (buf c, memset0 block p (Z.to_nat (count - 8))) in
  let block := byteReverse block 14 in
  let block := memcpy block 56 (store32 (bits c).1) in
  let block := memcpy block 60 (store32 (bits c).2) in
  mkMD5 (MD5Transform buf block) (bits c) block.

(** The 16 bytes of [context_.buf]. *)
Definition state_bytes (s : state) : bytes :=
  let '(a, b, c, d) := s in store32 a ++ store32 b ++ store32 c ++ store32 d.

Definition Final (c : MD5) : bytes :=
  byteReverse (state_bytes (buf (FinalInternal c))) 4.

Definition HexFinal (c : MD5) : bytes := EncodeAsString (Final c) false.

(** [Digest] as bytes; the [UInt128] has the words at 0 and at 8. *)
Definition Digest (memory sp : bytes) : bytes := Final (Update sp (new_MD5 memory)).
Definition HexDigest (memory sp : bytes) : bytes := HexFinal (Update sp (new_MD5 memory)).

(** ** The reference: RFC 1321 *)

Definition F (x y z : Z) : Z := Z.lor (Z.land x y) (Z.land (Z.lnot x) z).
Definition G (x y z : Z) : Z := Z.lor (Z.land x z) (Z.land y (Z.lnot z)).
Definition H (x y z : Z) : Z := Z.lxor (Z.lxor x y) z.
Definition I (x y z : Z) : Z := Z.lxor y (Z.lor x (u32 (Z.lnot z))).

(** The table of sines, and the rotations of each round. *)
Definition T : list Z :=
  [0xd76aa478; 0xe8c7b756; 0x242070db; 0xc1bdceee;
   0xf57c0faf; 0x4787c62a; 0xa8304613; 0xfd469501;
   0x698098d8; 0x8b44f7af; 0xffff5bb1; 0x895cd7be;
   0x6b901122; 0xfd987193; 0xa679438e; 0x49b40821;
   0xf61e2562; 0xc040b340; 0x265e5a51; 0xe9b6c7aa;
   0xd62f105d; 0x02441453; 0xd8a1e681; 0xe7d3fbc8;
   0x21e1cde6; 0xc33707d6; 0xf4d50d87; 0x455a14ed;
   0xa9e3e905; 0xfcefa3f8; 0x676f02d9; 0x8d2a4c8a;
   0xfffa3942; 0x8771f681; 0x6d9d6122; 0xfde5380c;
   0xa4beea44; 0x4bdecfa9; 0xf6bb4b60; 0xbebfbc70;
   0x289b7ec6; 0xeaa127fa; 0xd4ef3085; 0x04881d05;
   0xd9d4d039; 0xe6db99e5; 0x1fa27cf8; 0xc4ac5665;
   0xf4292244; 0x432aff97; 0xab9423a7; 0xfc93a039;
   0x655b59c3; 0x8f0ccc92; 0xffeff47d; 0x85845dd1;
   0x6fa87e4f; 0xfe2ce6e0; 0xa3014314; 0x4e0811a1;
   0xf7537e82; 0xbd3af235; 0x2ad7d2bb; 0xeb86d391].
Definition rotations : list (list Z) := [[7; 12; 17; 22]; [5; 9; 14; 20]; [4; 11; 16; 23]; [6; 10; 15; 21]].

Definition round_function (r : nat) : Z → Z → Z → Z := nth r [F; G; H; I] F.
Definition word_index (i : nat) : nat :=
  (match i / 16 with
   | 0 => i mod 16 | 1 => (5 * i + 1) mod 16 | 2 => (3 * i + 5) mod 16 | _ => (7 * i) mod 16
   end)%nat.

(** One step: the registers move on by one. *)
Definition rfc_step (block : bytes) (s : state) (i : nat) : state :=
  let '(a, b, c, d) := s in
  let sum := a + round_function (i / 16)%nat b c d + word block (word_index i) + nth i T 0 in
  (d, u32 (b + rotl32 (u32 sum) (nth (i mod 4)%nat (nth (i / 16)%nat rotations []) 0)), b, c).

Definition rfc_compress (s : state) (block : bytes) : state :=
  let '(a, b, c, d) := s in
  let '(a', b', c', d') := foldl (rfc_step block) s (seq 0 64) in
  (u32 (a + a'), u32 (b + b'), u32 (c + c'), u32 (d + d')).

(** The digest of a whole message; its length is kept modulo 2^64. *)
Definition length64 (n : Z) : bytes := little_bytes 8 (u64 n).
Definition md5_reference (m : bytes) : bytes :=
  state_bytes (hash_blocks rfc_compress init_buf length64 m).

(** ** Words in memory *)

Lemma load_bytes b0 b1 b2 b3 :
  is_byte b0 → is_byte b1 → is_byte b2 → is_byte b3 →
  store32 (Z.lor (u32 (Z.shiftl (Z.lor (Z.shiftl b3 8) b2) 16)) (Z.lor (Z.shiftl b1 8) b0)) = [b0; b1; b2; b3].
Proof.
  unfold is_byte. intros H0 H1 H2 H3. change (2 ^ 8) with 256.
  rewrite (Z.lor_comm (Z.shiftl b3 8)), (Z.lor_comm (Z.shiftl b1 8)).
  rewrite (lor_shiftl_add b2 b3 8), (lor_shiftl_add b0 b1 8) by lia.
  rewrite u32_small by (rewrite Z.shiftl_mul_pow2 by lia; lia).
  rewrite Z.lor_comm, lor_shiftl_add by lia. unfold store32. rewrite !little_bytes_S, little_bytes_0.
  repeat f_equal; Z.to_euclidean_division_equations; lia.
Qed.

(** On a little-endian machine the reversal does nothing. *)
Lemma byteReverse_id n p : bytes_ok p → (4 * n ≤ length p)%nat → byteReverse p n = p.
Proof.
  revert p. induction n as [|n IH]; intros p Hp Hn; [done|].
  destruct p as [|b0 [|b1 [|b2 [|b3 p]]]]; cbn in Hn; try lia.
  rewrite !bytes_ok_cons in Hp. destruct Hp as (H0 & H1 & H2 & H3 & Hp).
  cbn [byteReverse nth drop]. rewrite load_bytes, drop_0 by done. cbn [app].
  rewrite IH; [done|done|lia].
Qed.

(** ** The compression function is that of the RFC *)

Lemma F1_F x y z : F1 x y z = F x y z.
Proof.
  bits_ext n Hn. unfold F1, F. autorewrite with zbits.
  destruct (Z.testbit x n), (Z.testbit y n), (Z.testbit z n); done.
Qed.

Lemma F2_G x y z : F2 x y z = G x y z.
Proof.
  bits_ext n Hn. unfold F2, F1, G. autorewrite with zbits.
  destruct (Z.testbit x n), (Z.testbit y n), (Z.testbit z n); done.
Qed.

Definition core (r : nat) : Z → Z → Z → Z := nth r [F1; F2; F3; F4] F1.

Lemma core_round r x y z : core r x y z = round_function r x y z.
Proof.
  unfold core, round_function. destruct r as [|[|[|[|[|r]]]]]; cbn [nth]; [apply F1_F|apply F2_G|done|done|apply F1_F..].
Qed.

(** The steps as rows of the round, the word, the constant and the rotation. *)
Definition row_of (i : nat) : nat * nat * Z * Z :=
  ((i / 16)%nat, word_index i, nth i T 0, nth (i mod 4)%nat (nth (i / 16)%nat rotations []) 0).
Definition rows : list (nat * nat * Z * Z) := Eval vm_compute in row_of <$> seq 0 64.

Definition row_step (block : bytes) (s : state) (row : nat * nat * Z * Z) : state :=
  let '(a, b, c, d) := s in
  let '(r, g, k, rot) := row in
  (d, u32 (rotl32 (u32 (a + u32 (core r b c d + u32 (word block g + k)))) rot + b), b, c).

Lemma u32_sum a f y : u32 (a + u32 (f + u32 y)) = u32 (a + f + y).
Proof. unfold u32. by rewrite Zplus_mod_idemp_r, Z.add_assoc, Zplus_mod_idemp_r. Qed.

Lemma rfc_step_row block s i : rfc_step block s i = row_step block s (row_of i).
Proof.
  destruct s as [[[a b] c] d]. unfold rfc_step, row_step, row_of. cbv zeta.
  by rewrite core_round, u32_sum, (Z.add_comm _ b), Z.add_assoc.
Qed.

Lemma rfc_rows block s : foldl (rfc_step block) s (seq 0 64) = foldl (row_step block) s rows.
Proof.
  change rows with (row_of <$> seq 0 64). generalize (seq 0 64). intros l. revert s.
  induction l as [|i l IH]; intros s; [done|]. cbn [foldl fmap list_fmap]. by rewrite rfc_step_row, IH.
Qed.

(** The variables of the code are the registers of the RFC, turned by one at
    each step. *)
Definition turned (p : nat) (st : state) : state :=
  let '(a, b, c, d) := st in
  match p with
  | O => (a, b, c, d) | S O => (d, a, b, c) | S (S O) => (c, d, a, b) | _ => (b, c, d, a)
  end.

Definition vars (p : nat) : var * var * var * var :=
  match p with
  | O => (Ra, Rb, Rc, Rd) | S O => (Rd, Ra, Rb, Rc) | S (S O) => (Rc, Rd, Ra, Rb)
  | _ => (Rb, Rc, Rd, Ra)
  end.

Lemma foldl_row block p q st r g k rot l w x y z :
  vars p = (w, x, y, z) → q = (S p mod 4)%nat → (p < 4)%nat →
  foldl (row_step block) (turned p st) ((r, g, k, rot) :: l) =
  foldl (row_step block) (turned q (MD5STEP (core r) w x y z (u32 (word block g + k)) rot st)) l.
Proof.
  intros Hv -> Hp. cbn [foldl]. f_equal. destruct st as [[[a b] c] d].
  destruct p as [|[|[|[|p]]]]; [injection Hv as <- <- <- <-; reflexivity..|lia].
Qed.

Lemma MD5Transform_rfc s block : MD5Transform s block = rfc_compress s block.
Proof.
  unfold rfc_compress. rewrite rfc_rows.
  replace (foldl (row_step block) s rows) with (foldl (row_step block) (turned 0 s) rows)
    by (by destruct s as [[[a b] c] d]).
  unfold rows.
  do 16 (rewrite (foldl_row block 0 1 _ _ _ _ _ _ Ra Rb Rc Rd) by (done || lia);
         rewrite (foldl_row block 1 2 _ _ _ _ _ _ Rd Ra Rb Rc) by (done || lia);
         rewrite (foldl_row block 2 3 _ _ _ _ _ _ Rc Rd Ra Rb) by (done || lia);
         rewrite (foldl_row block 3 0 _ _ _ _ _ _ Rb Rc Rd Ra) by (done || lia)).
  unfold core. cbn [foldl nth]. unfold MD5Transform. destruct s as [[[a0 b0] c0] d0].
  match goal with |- context [MD5STEP F4 Rb Rc Rd Ra ?x ?y ?st] => generalize (MD5STEP F4 Rb Rc Rd Ra x y st) end.
  intros [[[a b] c] d]. reflexivity.
Qed.

(** ** Contexts *)

Local Abbreviation absorbed := (absorb rfc_compress init_buf).
Local Abbreviation stands := (stands_for rfc_compress init_buf).

Lemma add_bits_eq n len :
  0 <= n → 0 <= len < 2 ^ 32 → add_bits (bit_words n) len = bit_words (n + 8 * len).
Proof.
  intros Hn Hl. unfold add_bits, bit_words. cbn [fst snd].
  rewrite Z.shiftl_mul_pow2, Z.shiftr_div_pow2 by lia. f_equal.
  - unfold u32. rewrite Zplus_mod_idemp_r, Zplus_mod_idemp_l. f_equal. lia.
  - rewrite sum_wraps by (apply Z.mod_pos_bound; lia). by apply high_word_sum; [|lia].
Qed.

(** A context that has taken in the message [m]. *)
Record holds (m : bytes) (c : MD5) : Prop := {
  holds_state : stands m (buf c) (in_ c);
  holds_bits : bits c = bit_words (bit_length m);
  holds_bytes : bytes_ok (in_ c)
}.

Lemma stands_ext m s b m' s' b' : stands m s b → m = m' → s = s' → b = b' → stands m' s' b'.
Proof. by intros H -> -> ->. Qed.

Lemma fill_block m s buffer k n :
  stands m s buffer → bytes_ok buffer → bytes_ok k → (length (rest m) + length k = 64)%nat →
  (n ≤ 16)%nat →
  stands (m ++ k) (MD5Transform s (byteReverse (memcpy buffer (length (rest m)) k) n))
    (byteReverse (memcpy buffer (length (rest m)) k) n).
Proof.
  intros Hs Hb Hk Hl Hn. pose proof (sf_length _ _ _ _ _ Hs) as H64.
  rewrite byteReverse_id, MD5Transform_rfc; [by apply stands_fill|by apply memcpy_ok|].
  rewrite memcpy_length by lia. lia.
Qed.

Lemma update_loop_ok fuel m s bs block data :
  stands m s block → bytes_ok block → rest m = [] → bytes_ok data → (length data < fuel)%nat →
  let c := update_loop fuel s bs block data (Z.of_nat (length data)) in
  stands (m ++ data) (buf c) (in_ c) ∧ bits c = bs ∧ bytes_ok (in_ c).
Proof.
  revert m s block data. induction fuel as [|fuel IH]; intros m s block data Hs Hb Hr Hd Hf; [lia|].
  cbn [update_loop]. pose proof (sf_length _ _ _ _ _ Hs) as H64.
  destruct (Z.leb_spec 64 (Z.of_nat (length data))) as [Hle|Hlt].
  - assert (Hk : length (take 64 data) = 64%nat) by (rewrite length_take; lia).
    pose proof (fill_block m s block (take 64 data) 16 Hs Hb) as Hfill. rewrite Hr in Hfill.
    specialize (Hfill (Forall_take _ _ _ Hd) Hk (le_n _)).
    replace (Z.of_nat (length data) - 64) with (Z.of_nat (length (drop 64 data))) by (rewrite length_drop; lia).
    rewrite <- (take_drop 64 data) at 1. rewrite app_assoc. apply IH.
    + exact Hfill.
    + rewrite byteReverse_id; [|by apply memcpy_ok, Forall_take|rewrite memcpy_length; lia].
      by apply memcpy_ok, Forall_take.
    + eapply absorb_next with (compress := rfc_compress) (iv := init_buf); [done|done].
    + by apply Forall_drop.
    + rewrite length_drop. lia.
  - rewrite Nat2Z.id, take_ge by done. cbn [buf in_ bits]. split_and!; [|done|by apply memcpy_ok].
    replace 0%nat with (length (rest m)) by (by rewrite Hr). apply stands_copy; [done|].
    rewrite Hr. cbn. lia.
Qed.

Lemma Update_ok m c sp :
  holds m c → bytes_ok sp → Z.of_nat (length sp) < 2 ^ 32 → holds (m ++ sp) (Update sp c).
Proof.
  intros [Hs Hbits Hb] Hsp Hl. unfold Update. rewrite u32_small by lia. rewrite Hbits.
  rewrite add_bits_eq by (unfold bit_length; lia). rewrite <- bit_length_app.
  change (bit_words (bit_length m)).1 with (u32 (bit_length m)). rewrite rest_count.
  pose proof (rest_short m) as Hr. destruct (Z.eqb_spec (Z.of_nat (length (rest m))) 0) as [H0|H0].
  - destruct (update_loop_ok (S (length sp)) m (buf c) (bit_words (bit_length (m ++ sp))) (in_ c) sp) as (?&?&?); try done.
    + destruct (rest m); [done|]. cbn in H0. lia.
    + lia.
  - rewrite Nat2Z.id. destruct (Z.ltb_spec (Z.of_nat (length sp)) (64 - Z.of_nat (length (rest m)))) as [Hlt|Hge].
    + rewrite Nat2Z.id, take_ge by done. split; cbn [buf in_ bits]; [|done|by apply memcpy_ok].
      apply stands_copy; [done|lia].
    + set (t := Z.to_nat (64 - Z.of_nat (length (rest m)))).
      assert (Hk : length (take t sp) = t) by (rewrite length_take; subst t; lia).
      pose proof (fill_block m (buf c) (in_ c) (take t sp) 16 Hs Hb (Forall_take _ _ _ Hsp)
                    ltac:(rewrite Hk; subst t; lia) (le_n _)) as Hfill.
      replace (Z.of_nat (length sp) - (64 - Z.of_nat (length (rest m)))) with (Z.of_nat (length (drop t sp)))
        by (rewrite length_drop; subst t; lia).
      destruct (update_loop_ok (S (length sp)) (m ++ take t sp) _ (bit_words (bit_length (m ++ sp))) _ (drop t sp) Hfill)
        as (H1&H2&H3).
      * rewrite byteReverse_id; [by apply memcpy_ok, Forall_take|by apply memcpy_ok, Forall_take|].
        rewrite memcpy_length; rewrite (sf_length _ _ _ _ _ Hs); lia.
      * apply nil_length_inv. rewrite rest_length, length_app, Hk. subst t.
        pose proof (rest_length m) as Hrl. rewrite Hrl.
        pose proof (Nat.div_mod_eq (length m) 64) as Hdm. pose proof (Nat.mod_upper_bound (length m) 64 ltac:(lia)).
        replace (length m + Z.to_nat (64 - Z.of_nat (length m mod 64)))%nat with (0 + (S (length m / 64)) * 64)%nat by lia.
        by rewrite Nat.Div0.mod_add.
      * by apply Forall_drop.
      * rewrite length_drop. lia.
      * rewrite <- app_assoc, take_drop in H1. by split.
Qed.

(** ** The end of the message *)

(** The two words of the counter make the length. *)
Lemma length64_words n : store32 (u32 n) ++ store32 (u32 (n / 2 ^ 32)) = length64 n.
Proof.
  unfold length64, store32. change 8%nat with (4 + 4)%nat. rewrite little_bytes_app.
  change (256 ^ Z.of_nat 4) with (2 ^ 32). unfold u64, u32.
  rewrite Z.mod_mod_divide by (by exists (2 ^ 32)). do 2 f_equal.
  change (2 ^ 64) with (2 ^ 32 * 2 ^ 32). rewrite Z.rem_mul_r by lia.
  rewrite (Z.mul_comm (2 ^ 32) (_ mod _)), Z.div_add by lia.
  by rewrite (Z.div_small (n mod 2 ^ 32)) by (apply Z.mod_pos_bound; lia).
Qed.

Lemma absorb_fill m s buffer k :
  stands m s buffer → (length (rest m) + length k = 64)%nat →
  rfc_compress s (memcpy buffer (length (rest m)) k) = absorbed (m ++ k).
Proof. intros Hs Hk. by apply (sf_state _ _ _ _ _ (stands_fill _ _ _ _ _ _ Hs Hk)). Qed.

(** The last block, where its first 56 bytes are complete. *)
Lemma last_block m s buffer k c :
  stands m s buffer → bytes_ok buffer → bytes_ok k → (length (rest m) + length k = 56)%nat →
  MD5Transform s (memcpy (memcpy (byteReverse (memcpy buffer (length (rest m)) k) 14) 56 (store32 (u32 c))) 60
      (store32 (u32 (c / 2 ^ 32)))) = absorbed (m ++ k ++ length64 c).
Proof.
  intros Hs Hb Hk Hl. pose proof (sf_length _ _ _ _ _ Hs) as H64.
  rewrite byteReverse_id by (first [by apply memcpy_ok | rewrite memcpy_length; lia]).
  rewrite MD5Transform_rfc, (memcpy_adjacent _ 56), length64_words.
  - rewrite (memcpy_adjacent _ (length (rest m))) by lia. apply absorb_fill; [done|].
    rewrite length_app. unfold length64. rewrite little_bytes_length. lia.
  - rewrite memcpy_length; lia.
  - unfold store32. by rewrite little_bytes_length.
Qed.

Lemma FinalInternal_ok m c :
  holds m c → buf (FinalInternal c) = hash_blocks rfc_compress init_buf length64 m.
Proof.
  intros [Hs Hbits Hb]. pose proof (sf_length _ _ _ _ _ Hs) as H64. pose proof (rest_short m) as Hr.
  unfold FinalInternal, hash_blocks, pad. rewrite Hbits. fold (bit_length m).
  change (bit_words (bit_length m)).1 with (u32 (bit_length m)).
  change (bit_words (bit_length m)).2 with (u32 (bit_length m / 2 ^ 32)). rewrite rest_count, Nat2Z.id.
  unfold memset0. destruct (Z.ltb_spec (64 - 1 - Z.of_nat (length (rest m))) 8) as [Hlt|Hge].
  - set (k := [0x80] ++ replicate (Z.to_nat (64 - 1 - Z.of_nat (length (rest m)))) 0).
    rewrite (memcpy_adjacent (in_ c) (length (rest m))) by (cbn [length]; lia). fold k.
    assert (Hkl : (length (rest m) + length k = 64)%nat).
    { subst k. rewrite length_app, length_replicate. cbn [length]. lia. }
    assert (Hk : bytes_ok k) by (apply bytes_ok_app; split; [by repeat constructor|apply zeros_ok]).
    pose proof (fill_block m (buf c) (in_ c) k 16 Hs Hb Hk Hkl (le_n _)) as Hfill.
    assert (Hrest : rest (m ++ k) = []).
    { rewrite rest_app. apply (absorb_one rfc_compress init_buf). rewrite length_app. lia. }
    cbn [buf].
    pose proof (last_block (m ++ k) _ _ (replicate 56 0) (bit_length m) Hfill) as Hlast.
    rewrite Hrest in Hlast. cbn [length Nat.add] in Hlast. rewrite Hlast; [| |apply zeros_ok|by rewrite length_replicate].
    + subst k. rewrite (zeros_large _ m eq_refl), replicate_add by lia.
      rewrite <- !app_assoc. cbn [app].
      by replace (Z.to_nat (64 - 1 - Z.of_nat (length (rest m)))) with (63 - length (rest m))%nat by lia.
    + rewrite byteReverse_id; [by apply memcpy_ok|by apply memcpy_ok|]. rewrite memcpy_length; lia.
  - rewrite (memcpy_adjacent (in_ c) (length (rest m))) by (cbn [length]; lia). cbn [buf].
    rewrite last_block; [|done|done| |].
    + rewrite (zeros_small _ m eq_refl) by lia. cbn [app].
      by replace (Z.to_nat (64 - 1 - Z.of_nat (length (rest m)) - 8)) with (55 - length (rest m))%nat by lia.
    + apply bytes_ok_app. split; [by repeat constructor|apply zeros_ok].
    + rewrite length_app, length_replicate. cbn [length]. lia.
Qed.

Lemma state_bytes_length s : length (state_bytes s) = 16%nat ∧ bytes_ok (state_bytes s).
Proof.
  destruct s as [[[a b] c] d]. unfold state_bytes, store32. rewrite !length_app, !little_bytes_length.
  split; [done|]. rewrite !bytes_ok_app. split_and!; apply little_bytes_ok.
Qed.

Lemma Final_ok m c : holds m c → Final c = md5_reference m.
Proof.
  intros H. unfold Final, md5_reference. rewrite (FinalInternal_ok _ _ H).
  destruct (state_bytes_length (hash_blocks rfc_compress init_buf length64 m)) as [Hl Hb].
  apply byteReverse_id; [done|]. by rewrite Hl.
Qed.

Lemma new_ok memory : length memory = 64%nat → bytes_ok memory → holds [] (new_MD5 memory).
Proof. intros Hl Hb. by split. Qed.

Definition data_ok (sp : bytes) : Prop := bytes_ok sp ∧ Z.of_nat (length sp) < 2 ^ 32.

Lemma updates_ok chunks m c :
  holds m c → Forall data_ok chunks → holds (m ++ concat chunks) (foldl (λ c sp, Update sp c) c chunks).
Proof.
  revert m c. induction chunks as [|sp chunks IH]; intros m c Hm Hc; cbn [foldl concat].
  { by rewrite app_nil_r. }
  apply Forall_cons in Hc as [[H1 H2] Hc]. rewrite app_assoc. apply IH; [|done]. by apply Update_ok.
Qed.

(** However a message is cut into pieces of less than 4 GB, and whatever
    the memory of a new context holds, the digest is that of RFC 1321 for the
    whole message, and the hexadecimal digest reads back as it. *)
Theorem md5_streaming (memory : bytes) (chunks : list bytes) :
  length memory = 64%nat → bytes_ok memory → Forall data_ok chunks →
  let c := foldl (λ c sp, Update sp c) (new_MD5 memory) chunks in
  Final c = md5_reference (concat chunks) ∧
  read_hex (HexFinal c) = Some (md5_reference (concat chunks)) ∧
  (∀ sp, chunks = [sp] → Digest memory sp = md5_reference sp ∧ HexDigest memory sp = Encode (md5_reference sp) false).
Proof.
  intros Hl Hb Hc c. pose proof (updates_ok chunks [] (new_MD5 memory) (new_ok _ Hl Hb) Hc) as Hh.
  fold c in Hh. cbn [app] in Hh. pose proof (Final_ok _ _ Hh) as Hf. split_and!; [done|..].
  - unfold HexFinal, EncodeAsString, EncodeTo, EncodeAppend. cbn [app]. rewrite Hf.
    apply read_hex_Encode. apply state_bytes_length.
  - intros sp ->. cbn [foldl concat] in c, Hf. rewrite app_nil_r in Hf. subst c.
    unfold HexDigest, Digest, HexFinal, EncodeAsString, EncodeTo, EncodeAppend. by rewrite Hf.
Qed.

Lemma md5_streaming_witness :
  let chunks := [str "The quick brown fox "; str "jumps over the lazy dog"] in
  let c := foldl (λ c sp, Update sp c) (new_MD5 (replicate 64 7)) chunks in
  HexFinal c = str "9e107d9d372bb6826bd81d3542a419d6" ∧ Final c = md5_reference (concat chunks).
Proof.
  split; [vm_compute; reflexivity|].
  refine (proj1 (md5_streaming (replicate 64 7) [str "The quick brown fox "; str "jumps over the lazy dog"] _ _ _)).
  - reflexivity.
  - apply Forall_replicate. done.
  - repeat constructor; vm_compute; discriminate.
Defined.

