(* ===== verification/SHA1.v ===== *)
(** * SHA-1

    Model of crypto/hash/sha1.cpp.  The compression function expands the
    message in the block itself, which is the caller's data for blocks that
    are not copied: [Update] gives the data back as it leaves it.  The digest
    is that of FIPS 180 for the whole message. *)

From S2P Require Import Prelude Coding BlockHash Hex.

(** ** The compression function *)

(** The words [l] of the block and the local variables. *)
Definition regs : Type := Z * Z * Z * Z * Z.
Definition state : Type := list Z * regs.
Inductive var := Ra | Rb | Rc | Rd | Re.

Definition get (r : regs) (v : var) : Z :=
  let '(a, b, c, d, e) := r in
  match v with Ra => a | Rb => b | Rc => c | Rd => d | Re => e end.

Definition assign (r : regs) (v : var) (x : Z) : regs :=
  let '(a, b, c, d, e) := r in
  match v with
  | Ra => (x, b, c, d, e) | Rb => (a, x, c, d, e) | Rc => (a, b, x, d, e)
  | Rd => (a, b, c, x, e) | Re => (a, b, c, d, x)
  end.

Definition rol (value bits : Z) : Z := rotl32 value bits.

Definition word_at (l : list Z) (i : nat) : Z := nth i l 0.

(** The macros store the word they give. *)
Definition blk0 (l : list Z) (i : nat) : Z * list Z :=
  let w := Z.lor (Z.land (rol (word_at l i) 24) 0xFF00FF00) (Z.land (rol (word_at l i) 8) 0x00FF00FF) in
  (w, <[i := w]> l).

Definition blk (l : list Z) (i : nat) : Z * list Z :=
  let at_ j := word_at l (j mod 16)%nat in
  let w := rol (Z.lxor (Z.lxor (Z.lxor (at_ (i + 13)%nat) (at_ (i + 8)%nat)) (at_ (i + 2)%nat)) (at_ i)) 1 in
  (w, <[(i mod 16)%nat := w]> l).

Definition choose (w x y : Z) : Z := Z.lxor (Z.land w (Z.lxor x y)) y.
Definition parity (w x y : Z) : Z := Z.lxor (Z.lxor w x) y.
Definition majority (w x y : Z) : Z := Z.lor (Z.land (Z.lor w x) y) (Z.land w x).

(** What the macros [R0] to [R4] have in common. *)
Definition R_ (f : Z → Z → Z → Z) (block : list Z → nat → Z * list Z) (k : Z)
    (v w x y z : var) (i : nat) (st : state) : state :=
  let '(l, r) := st in
  let '(b, l) := block l i in
  let r := assign r z (u32 (get r z + (f (get r w) (get r x) (get r y) + b + k + rol (get r v) 5))) in
  (l, assign r w (rol (get r w) 30)).

Definition R0 := R_ choose blk0 0x5A827999.
Definition R1 := R_ choose blk 0x5A827999.
Definition R2 := R_ parity blk 0x6ED9EBA1.
Definition R3 := R_ majority blk 0x8F1BBCDC.
Definition R4 := R_ parity blk 0xCA62C1D6.

(** The block as an array of words, and back. *)
Definition block_words (buffer : bytes) : list Z := word buffer <$> seq 0 16.
Definition block_bytes (l : list Z) : bytes := mjoin (store32 <$> l).

(** The new state, and the block as it is left. *)
Definition SHA1Transform (state : regs) (buffer : bytes) : regs * bytes :=
  let st := (block_words buffer, state) in
  let st := R0 Ra Rb Rc Rd Re 0 st in
  let st := R0 Re Ra Rb Rc Rd 1 st in
  let st := R0 Rd Re Ra Rb Rc 2 st in
  let st := R0 Rc Rd Re Ra Rb 3 st in
  let st := R0 Rb Rc Rd Re Ra 4 st in
  let st := R0 Ra Rb Rc Rd Re 5 st in
  let st := R0 Re Ra Rb Rc Rd 6 st in
  let st := R0 Rd Re Ra Rb Rc 7 st in
  let st := R0 Rc Rd Re Ra Rb 8 st in
  let st := R0 Rb Rc Rd Re Ra 9 st in
  let st := R0 Ra Rb Rc Rd Re 10 st in
  let st := R0 Re Ra Rb Rc Rd 11 st in
  let st := R0 Rd Re Ra Rb Rc 12 st in
  let st := R0 Rc Rd Re Ra Rb 13 st in
  let st := R0 Rb Rc Rd Re Ra 14 st in
  let st := R0 Ra Rb Rc Rd Re 15 st in
  let st := R1 Re Ra Rb Rc Rd 16 st in
  let st := R1 Rd Re Ra Rb Rc 17 st in
  let st := R1 Rc Rd Re Ra Rb 18 st in
  let st := R1 Rb Rc Rd Re Ra 19 st in
  let st := R2 Ra Rb Rc Rd Re 20 st in
  let st := R2 Re Ra Rb Rc Rd 21 st in
  let st := R2 Rd Re Ra Rb Rc 22 st in
  let st := R2 Rc Rd Re Ra Rb 23 st in
  let st := R2 Rb Rc Rd Re Ra 24 st in
  let st := R2 Ra Rb Rc Rd Re 25 st in
  let st := R2 Re Ra Rb Rc Rd 26 st in
  let st := R2 Rd Re Ra Rb Rc 27 st in
  let st := R2 Rc Rd Re Ra Rb 28 st in
  let st := R2 Rb Rc Rd Re Ra 29 st in
  let st := R2 Ra Rb Rc Rd Re 30 st in
  let st := R2 Re Ra Rb Rc Rd 31 st in
  let st := R2 Rd Re Ra Rb Rc 32 st in
  let st := R2 Rc Rd Re Ra Rb 33 st in
  let st := R2 Rb Rc Rd Re Ra 34 st in
  let st := R2 Ra Rb Rc Rd Re 35 st in
  let st := R2 Re Ra Rb Rc Rd 36 st in
  let st := R2 Rd Re Ra Rb Rc 37 st in
  let st := R2 Rc Rd Re Ra Rb 38 st in
  let st := R2 Rb Rc Rd Re Ra 39 st in
  let st := R3 Ra Rb Rc Rd Re 40 st in
  let st := R3 Re Ra Rb Rc Rd 41 st in
  let st := R3 Rd Re Ra Rb Rc 42 st in
  let st := R3 Rc Rd Re Ra Rb 43 st in
  let st := R3 Rb Rc Rd Re Ra 44 st in
  let st := R3 Ra Rb Rc Rd Re 45 st in
  let st := R3 Re Ra Rb Rc Rd 46 st in
  let st := R3 Rd Re Ra Rb Rc 47 st in
  let st := R3 Rc Rd Re Ra Rb 48 st in
  let st := R3 Rb Rc Rd Re Ra 49 st in
  let st := R3 Ra Rb Rc Rd Re 50 st in
  let st := R3 Re Ra Rb Rc Rd 51 st in
  let st := R3 Rd Re Ra Rb Rc 52 st in
  let st := R3 Rc Rd Re Ra Rb 53 st in
  let st := R3 Rb Rc Rd Re Ra 54 st in
  let st := R3 Ra Rb Rc Rd Re 55 st in
  let st := R3 Re Ra Rb Rc Rd 56 st in
  let st := R3 Rd Re Ra Rb Rc 57 st in
  let st := R3 Rc Rd Re Ra Rb 58 st in
  let st := R3 Rb Rc Rd Re Ra 59 st in
  let st := R4 Ra Rb Rc Rd Re 60 st in
  let st := R4 Re Ra Rb Rc Rd 61 st in
  let st := R4 Rd Re Ra Rb Rc 62 st in
  let st := R4 Rc Rd Re Ra Rb 63 st in
  let st := R4 Rb Rc Rd Re Ra 64 st in
  let st := R4 Ra Rb Rc Rd Re 65 st in
  let st := R4 Re Ra Rb Rc Rd 66 st in
  let st := R4 Rd Re Ra Rb Rc 67 st in
  let st := R4 Rc Rd Re Ra Rb 68 st in
  let st := R4 Rb Rc Rd Re Ra 69 st in
  let st := R4 Ra Rb Rc Rd Re 70 st in
  let st := R4 Re Ra Rb Rc Rd 71 st in
  let st := R4 Rd Re Ra Rb Rc 72 st in
  let st := R4 Rc Rd Re Ra Rb 73 st in
  let st := R4 Rb Rc Rd Re Ra 74 st in
  let st := R4 Ra Rb Rc Rd Re 75 st in
  let st := R4 Re Ra Rb Rc Rd 76 st in
  let st := R4 Rd Re Ra Rb Rc 77 st in
  let st := R4 Rc Rd Re Ra Rb 78 st in
  let st := R4 Rb Rc Rd Re Ra 79 st in
  let '(l, (a, b, c, d, e)) := st in
  let '(a0, b0, c0, d0, e0) := state in
  ((u32 (a0 + a), u32 (b0 + b), u32 (c0 + c), u32 (d0 + d), u32 (e0 + e)), block_bytes l).

(** ** The context *)

Record SHA1 := mkSHA1 {
  state_ : regs;
  count : Z * Z;            (* count[0], the low word, and count[1] *)
  buffer : bytes            (* 64 bytes *)
}.

Definition init_state : regs := (0x67452301, 0xEFCDAB89, 0x98BADCFE, 0x10325476, 0xC3D2E1F0).
Definition Init (c : SHA1) : SHA1 := mkSHA1 init_state (0, 0) (buffer c).
Definition new_SHA1 (memory : bytes) : SHA1 := Init (mkSHA1 (0, 0, 0, 0, 0) (0, 0) memory).

Definition add_count (count : Z * Z) (input_len : Z) : Z * Z :=
  let add := u32 (Z.shiftl input_len 3) in
  let c0 := u32 (count.1 + add) in
  let c1 := if c0 <? add then u32 (count.2 + 1) else count.2 in
  (c0, u32 (c1 + u32 (Z.shiftr input_len 29))).

(** [for (; i + 63 < input_len; i += 64)]: the blocks are in [data] itself. *)
Fixpoint block_loop (fuel : nat) (state : regs) (data : bytes) (i : nat) : regs * bytes * nat :=
  match fuel with
  | O => (state, data, i)
  | S fuel =>
      if (i + 63 <? length data)%nat then
        let '(state, block) := SHA1Transform state (take 64 (drop i data)) in
        block_loop fuel state (memcpy data i block) (i + 64)
      else (state, data, i)
  end.

(** [Update] of a context and data; the data may be overwritten. *)
Definition Update (data : bytes) (c : SHA1) : SHA1 * bytes :=
  let input_len := length data in
  let index := Z.to_nat (Z.land (Z.shiftr (count c).1 3) 63) in
  let count' := add_count (count c) (Z.of_nat input_len) in
  if (63 <? index + input_len)%nat then
    let i := (64 - index)%nat in
    let '(st, block) := SHA1Transform (state_ c) (memcpy (buffer c) index (take i data)) in
    let '(st, data, i) := block_loop (S input_len) st data i in
    (mkSHA1 st count' (memcpy block 0 (drop i data)), data)
  else (mkSHA1 (state_ c) count' (memcpy (buffer c) index data), data).

(** [finalcount]: the counter with the most significant byte first. *)
Definition finalcount (count : Z * Z) : bytes :=
  (λ i : nat, u8 (Z.land (Z.shiftr (if (4 <=? i)%nat then count.1 else count.2)
                         ((3 - Z.land (Z.of_nat i) 3) * 8)) 255)) <$> seq 0 8.

(** [while ((context_.count[0] & 504) != 448)] *)
Fixpoint pad_loop (fuel : nat) (c : SHA1) : SHA1 :=
  match fuel with
  | O => c
  | S fuel =>
      if Z.land (count c).1 504 =? 448 then c else pad_loop fuel (Update [0] c).1
  end.

Definition FinalInternal (c : SHA1) : SHA1 :=
  let fc := finalcount (count c) in
  let c := (Update [0x80] c).1 in
  let c := pad_loop 64 c in
  (Update fc c).1.

(** The bytes of the state, the most significant of each word first. *)
Definition state_list (r : regs) : list Z := let '(a, b, c, d, e) := r in [a; b; c; d; e].
Definition digest_byte (l : list Z) (i : nat) : Z :=
  u8 (Z.land (Z.shiftr (nth (i / 4)%nat l 0) ((3 - Z.land (Z.of_nat i) 3) * 8)) 255).

Definition Final (c : SHA1) : bytes :=
  digest_byte (state_list (state_ (FinalInternal c))) <$> seq 0 20.

Definition HexFinal (c : SHA1) : bytes := EncodeAsString (Final c) false.
Definition HexDigest (memory sp : bytes) : bytes := HexFinal (Update sp (new_SHA1 memory)).1.

(** ** The reference: FIPS 180 *)

Definition big_word (p : bytes) (i : nat) : Z := big_value (take 4 (drop (4 * i) p)).

(** The message schedule. *)
Fixpoint extend (n : nat) (ws : list Z) : list Z :=
  match n with
  | O => ws
  | S n =>
      let t := length ws in
      let w j := nth (t - j) ws 0 in
      extend n (ws ++ [rotl32 (Z.lxor (Z.lxor (Z.lxor (w 3%nat) (w 8%nat)) (w 14%nat)) (w 16%nat)) 1])
  end.
Definition schedule (block : bytes) : list Z := extend 64 (big_word block <$> seq 0 16).

Definition Ch (x y z : Z) : Z := Z.lxor (Z.land x y) (Z.land (Z.lnot x) z).
Definition Parity (x y z : Z) : Z := Z.lxor (Z.lxor x y) z.
Definition Maj (x y z : Z) : Z := Z.lxor (Z.lxor (Z.land x y) (Z.land x z)) (Z.land y z).

Definition fips_function (t : nat) : Z → Z → Z → Z := nth (t / 20)%nat [Ch; Parity; Maj; Parity] Ch.
Definition fips_constant (t : nat) : Z := nth (t / 20)%nat [0x5A827999; 0x6ED9EBA1; 0x8F1BBCDC; 0xCA62C1D6] 0.

Definition fips_step (ws : list Z) (r : regs) (t : nat) : regs :=
  let '(a, b, c, d, e) := r in
  (u32 (rotl32 a 5 + fips_function t b c d + e + fips_constant t + nth t ws 0), a, rotl32 b 30, c, d).

Definition fips_compress (r : regs) (block : bytes) : regs :=
  let '(a, b, c, d, e) := r in
  let '(a', b', c', d', e') := foldl (fips_step (schedule block)) r (seq 0 80) in
  (u32 (a + a'), u32 (b + b'), u32 (c + c'), u32 (d + d'), u32 (e + e')).

Definition big_length64 (n : Z) : bytes := big_bytes 8 (u64 n).
Definition sha1_reference (m : bytes) : bytes :=
  mjoin (big_bytes 4 <$> state_list (hash_blocks fips_compress init_state big_length64 m)).

(** ** The compression function is that of the standard *)

Lemma choose_Ch w x y : choose w x y = Ch w x y.
Proof.
  bits_ext n Hn. unfold choose, Ch. autorewrite with zbits.
  destruct (Z.testbit w n), (Z.testbit x n), (Z.testbit y n); done.
Qed.

Lemma majority_Maj w x y : majority w x y = Maj w x y.
Proof.
  bits_ext n Hn. unfold majority, Maj. autorewrite with zbits.
  destruct (Z.testbit w n), (Z.testbit x n), (Z.testbit y n); done.
Qed.

(** A bit of a word in memory is a bit of one of its bytes. *)
Lemma byte_high b n : is_byte b → 8 <= n → Z.testbit b n = false.
Proof. intros Hb Hn. by apply (testbit_high b 8). Qed.

Ltac bit_of_byte :=
  match goal with
  | |- context [Z.testbit (Z.lor ?a ?b) ?m] => rewrite (Z.lor_spec a b m)
  | |- context [Z.testbit (Z.land ?a ?b) ?m] => rewrite (Z.land_spec a b m)
  | |- context [Z.testbit (u32 ?a) ?m] => change (u32 a) with (a mod 2 ^ 32); rewrite (testbit_mod_pow2 a 32 m) by lia
  | |- context [Z.testbit (Z.shiftl ?a ?k) ?m] =>
      first [rewrite (Z.shiftl_spec a k m) by lia | rewrite (Z.testbit_neg_r (Z.shiftl a k) m) by lia]
  | |- context [Z.testbit (Z.shiftr ?a ?k) ?m] => rewrite (Z.shiftr_spec a k m) by lia
  end.

Ltac bit_finish :=
  repeat match goal with
  | H : is_byte ?b |- context [Z.testbit ?b ?m] =>
      first [rewrite (Z.testbit_neg_r b m) by lia | rewrite (byte_high b m H) by lia
            | let k := eval vm_compute in m in progress change m with k]
  | |- context [Z.testbit (Zpos ?p) ?m] =>
      let v := eval vm_compute in (Z.testbit (Zpos p) m) in change (Z.testbit (Zpos p) m) with v
  | |- context [?a <? ?b] => let v := eval vm_compute in (a <? b) in change (a <? b) with v
  end;
  rewrite ?andb_true_r, ?andb_false_r, ?orb_false_r; cbn [andb orb]; rewrite ?orb_false_r; reflexivity.

Lemma swap_bytes b0 b1 b2 b3 :
  is_byte b0 → is_byte b1 → is_byte b2 → is_byte b3 →
  let w := load32 [b0; b1; b2; b3] in
  Z.lor (Z.land (rotl32 w 24) 0xFF00FF00) (Z.land (rotl32 w 8) 0x00FF00FF) = big_value [b0; b1; b2; b3].
Proof.
  intros H0 H1 H2 H3. cbv zeta.
  assert (Hb : big_value [b0; b1; b2; b3] =
    Z.lor (Z.lor (Z.lor b3 (Z.shiftl b2 8)) (Z.shiftl b1 16)) (Z.shiftl b0 24)).
  { unfold is_byte in *. rewrite (lor_shiftl_add b3 b2 8) by lia.
    rewrite (lor_shiftl_add _ b1 16) by lia. rewrite (lor_shiftl_add _ b0 24) by lia.
    unfold big_value. cbn [fold_left]. lia. }
  rewrite Hb. unfold load32, rotl32. apply Z.bits_inj'. intros n Hn.
  assert (Hmask : ∀ m, 0 <= m → 32 <= m → Z.testbit 0xFF00FF00 m = false ∧ Z.testbit 0x00FF00FF m = false).
  { intros m Hm Hm'. split; apply (testbit_high _ 32); lia. }
  destruct (Z.lt_ge_cases n 32) as [Hlt|Hge].
  - assert (Hcase : n ∈ seqZ 0 32) by (apply elem_of_seqZ; lia). clear Hlt Hmask Hb.
    cbv [seqZ seq fmap list_fmap Z.to_nat Pos.to_nat Pos.iter_op Nat.add Init.Nat.add] in Hcase.
    repeat (apply elem_of_cons in Hcase as [->|Hcase]; [repeat bit_of_byte; bit_finish|]).
    by apply not_elem_of_nil in Hcase.
  - rewrite !Z.lor_spec, !Z.land_spec. destruct (Hmask n Hn Hge) as [-> ->].
    rewrite !andb_false_r, !Z.shiftl_spec, !(byte_high) by (done || lia). done.
Qed.

(** The steps of the code as a kind of macro and an index. *)
Definition kind (t : nat) : (Z → Z → Z → Z) * (list Z → nat → Z * list Z) * Z :=
  if (t <? 16)%nat then (choose, blk0, 0x5A827999)
  else if (t <? 20)%nat then (choose, blk, 0x5A827999)
  else if (t <? 40)%nat then (parity, blk, 0x6ED9EBA1)
  else if (t <? 60)%nat then (majority, blk, 0x8F1BBCDC)
  else (parity, blk, 0xCA62C1D6).

Definition turn_step (st : state) (t : nat) : state :=
  let '(l, (a, b, c, d, e)) := st in
  let '(f, block, k) := kind t in
  let '(w, l) := block l t in
  (l, (u32 (e + (f b c d + w + k + rol a 5)), a, rol b 30, c, d)).

(** The variables of the code are the registers of the standard, turned by one
    at each step. *)
Definition turned (p : nat) (st : state) : state :=
  let '(l, (a, b, c, d, e)) := st in
  (l, match p with
      | 0 => (a, b, c, d, e) | 1 => (e, a, b, c, d) | 2 => (d, e, a, b, c)
      | 3 => (c, d, e, a, b) | _ => (b, c, d, e, a)
      end%nat).

Definition vars (p : nat) : var * var * var * var * var :=
  match p with
  | 0 => (Ra, Rb, Rc, Rd, Re) | 1 => (Re, Ra, Rb, Rc, Rd) | 2 => (Rd, Re, Ra, Rb, Rc)
  | 3 => (Rc, Rd, Re, Ra, Rb) | _ => (Rb, Rc, Rd, Re, Ra)
  end%nat.

Lemma foldl_turn p q st t l f block k v w x y z :
  kind t = (f, block, k) → vars p = (v, w, x, y, z) → q = (S p mod 5)%nat → (p < 5)%nat →
  foldl turn_step (turned p st) (t :: l) = foldl turn_step (turned q (R_ f block k v w x y z t st)) l.
Proof.
  intros Hk Hv -> Hp. cbn [foldl]. f_equal. destruct st as [ws [[[[a b] c] d] e]]. unfold turn_step, R_.
  destruct p as [|[|[|[|[|p]]]]]; [injection Hv as <- <- <- <- <-..|lia];
  cbn [turned]; rewrite Hk; destruct (block ws t); reflexivity.
Qed.

Ltac turns :=
  rewrite (foldl_turn 0 1 _ _ _ _ _ _ Ra Rb Rc Rd Re) by (reflexivity || lia);
  rewrite (foldl_turn 1 2 _ _ _ _ _ _ Re Ra Rb Rc Rd) by (reflexivity || lia);
  rewrite (foldl_turn 2 3 _ _ _ _ _ _ Rd Re Ra Rb Rc) by (reflexivity || lia);
  rewrite (foldl_turn 3 4 _ _ _ _ _ _ Rc Rd Re Ra Rb) by (reflexivity || lia);
  rewrite (foldl_turn 4 0 _ _ _ _ _ _ Rb Rc Rd Re Ra) by (reflexivity || lia).

Lemma SHA1Transform_turns r buffer :
  SHA1Transform r buffer =
  let '(l, (a, b, c, d, e)) := foldl turn_step (block_words buffer, r) (seq 0 80) in
  let '(a0, b0, c0, d0, e0) := r in
  ((u32 (a0 + a), u32 (b0 + b), u32 (c0 + c), u32 (d0 + d), u32 (e0 + e)), block_bytes l).
Proof.
  replace (foldl turn_step (block_words buffer, r) (seq 0 80))
    with (foldl turn_step (turned 0 (block_words buffer, r)) (seq 0 80))
    by (by destruct r as [[[[a b] c] d] e]).
  cbn [seq]. do 16 turns. cbn [foldl]. unfold SHA1Transform, R0, R1, R2, R3, R4.
  match goal with
  | |- context [R_ parity blk 0xCA62C1D6 Rb Rc Rd Re Ra 79 ?st] =>
      generalize (R_ parity blk 0xCA62C1D6 Rb Rc Rd Re Ra 79 st)
  end.
  intros [l [[[[a b] c] d] e]]. reflexivity.
Qed.

(** ** The message schedule *)

Lemma extend_prefix n ws j : (j < length ws)%nat → nth j (extend n ws) 0 = nth j ws 0.
Proof.
  revert ws. induction n as [|n IH]; intros ws Hj; [done|]. cbn [extend].
  rewrite IH by (rewrite length_app; lia). by rewrite app_nth1.
Qed.

Lemma extend_rule n ws t :
  (16 ≤ length ws)%nat → (length ws ≤ t < length ws + n)%nat →
  let W := extend n ws in
  nth t W 0 = rotl32 (Z.lxor (Z.lxor (Z.lxor (nth (t - 3) W 0) (nth (t - 8) W 0))
                (nth (t - 14) W 0)) (nth (t - 16) W 0)) 1.
Proof.
  revert ws. induction n as [|n IH]; intros ws Hl Ht; [lia|]. cbn [extend] in *.
  set (x := rotl32 _ _). destruct (decide (t = length ws)) as [->|Hne].
  - cbv zeta. rewrite !extend_prefix by (rewrite length_app; cbn; lia).
    rewrite (app_nth2 ws [x] 0 (le_n (length ws))), Nat.sub_diag. cbn [nth].
    by rewrite !(app_nth1 ws) by lia.
  - apply IH; rewrite length_app; cbn; lia.
Qed.

(** The circular block holds the last 16 words of the schedule, and before
    that the words not yet turned. *)
Record circular (block : bytes) (t : nat) (l : list Z) : Prop := {
  ci_length : length l = 16%nat;
  ci_raw j : (t ≤ j < 16)%nat → word_at l j = word block j;
  ci_done j : (j < t ≤ j + 16)%nat → word_at l (j mod 16)%nat = nth j (schedule block) 0
}.

Lemma circular_start block : circular block 0 (block_words block).
Proof.
  split; [done| |lia]. intros j Hj. unfold word_at, block_words.
  rewrite (nth_indep _ 0 (word block 0)) by (rewrite length_fmap, length_seq; lia).
  change (word block <$> seq 0 16) with (map (word block) (seq 0 16)).
  by rewrite (map_nth (word block)), seq_nth by lia.
Qed.

Lemma word_at_insert l i j w :
  (i < length l)%nat → word_at (<[i := w]> l) j = if decide (j = i) then w else word_at l j.
Proof.
  intros Hi. unfold word_at. rewrite !nth_lookup. destruct (decide (j = i)) as [->|Hne].
  - by rewrite list_lookup_insert_eq.
  - by rewrite list_lookup_insert_ne.
Qed.

Lemma circular_store block t l :
  circular block t l → circular block (S t) (<[(t mod 16)%nat := nth t (schedule block) 0]> l).
Proof.
  intros [Hl Hraw Hdone]. assert (Hm : (t mod 16 < 16)%nat) by (apply Nat.mod_upper_bound; lia). split.
  - by rewrite length_insert.
  - intros j Hj. rewrite word_at_insert, decide_False by (rewrite ?Hl, ?Nat.mod_small; lia). apply Hraw. lia.
  - intros j Hj. rewrite word_at_insert by lia. destruct (decide (j = t)) as [->|Hne].
    + by rewrite decide_True.
    + rewrite decide_False; [apply Hdone; lia|].
      pose proof (Nat.div_mod_eq j 16). pose proof (Nat.div_mod_eq t 16).
      pose proof (Nat.mod_upper_bound j 16 ltac:(lia)). lia.
Qed.

Lemma load_word block j :
  bytes_ok block → length block = 64%nat → (j < 16)%nat →
  ∃ b0 b1 b2 b3, is_byte b0 ∧ is_byte b1 ∧ is_byte b2 ∧ is_byte b3 ∧
    word block j = load32 [b0; b1; b2; b3] ∧ big_word block j = big_value [b0; b1; b2; b3].
Proof.
  intros Hb Hl Hj. unfold word, big_word. assert (Hd : bytes_ok (drop (4 * j) block)) by (by apply Forall_drop).
  assert (Hld : (4 ≤ length (drop (4 * j) block))%nat) by (rewrite length_drop; lia).
  destruct (drop (4 * j) block) as [|b0 [|b1 [|b2 [|b3 p]]]]; cbn [length] in Hld; try lia.
  rewrite !bytes_ok_cons in Hd. destruct Hd as (H0 & H1 & H2 & H3 & _). by exists b0, b1, b2, b3.
Qed.

Lemma schedule_raw block j : (j < 16)%nat → nth j (schedule block) 0 = big_word block j.
Proof.
  intros Hj. unfold schedule. rewrite extend_prefix by (by rewrite length_fmap, length_seq).
  change (big_word block <$> seq 0 16) with (map (big_word block) (seq 0 16)).
  rewrite (nth_indep _ 0 (big_word block 0)) by (by rewrite length_map, length_seq).
  by rewrite (map_nth (big_word block)), seq_nth by lia.
Qed.

(** What each macro takes from the block is the word of the schedule. *)
Lemma block_word block t l :
  bytes_ok block → length block = 64%nat → (t < 80)%nat → circular block t l →
  (kind t).1.2 l t = (nth t (schedule block) 0, <[(t mod 16)%nat := nth t (schedule block) 0]> l).
Proof.
  intros Hb Hl Ht Hc. destruct (Nat.lt_ge_cases t 16) as [Hs|Hs].
  - assert (Hk : (kind t).1.2 = blk0) by (unfold kind; by rewrite (proj2 (Nat.ltb_lt t 16) Hs)).
    rewrite Hk. unfold blk0, rol. rewrite (ci_raw _ _ _ Hc) by lia.
    destruct (load_word block t Hb Hl Hs) as (b0 & b1 & b2 & b3 & H0 & H1 & H2 & H3 & -> & Hbig).
    rewrite schedule_raw, Hbig, <- swap_bytes, Nat.mod_small by done. done.
  - assert (Hk : (kind t).1.2 = blk).
    { unfold kind. rewrite (proj2 (Nat.ltb_ge t 16) Hs). by repeat case_match. }
    rewrite Hk. unfold blk, rol.
    assert (Hat : ∀ j k, (k < t ≤ k + 16)%nat → (j mod 16 = k mod 16)%nat →
              word_at l (j mod 16)%nat = nth k (schedule block) 0).
    { intros j k Hk' ->. by apply (ci_done _ _ _ Hc). }
    assert (Hmod : ∀ j k, (j + 16 = k + 16 + 16 ∨ j = k + 16)%nat → (j mod 16 = k mod 16)%nat).
    { intros j k [Hj|Hj]; [assert (j = k + 1 * 16)%nat as -> by lia|assert (j = k + 1 * 16)%nat as -> by lia];
      by rewrite Nat.Div0.mod_add. }
    rewrite (Hat (t + 13)%nat (t - 3)%nat), (Hat (t + 8)%nat (t - 8)%nat),
      (Hat (t + 2)%nat (t - 14)%nat), (Hat t (t - 16)%nat) by (lia || (apply Hmod; lia)).
    unfold schedule. rewrite <- extend_rule; [done|..]; rewrite length_fmap, length_seq; lia.
Qed.

Lemma kind_fips t : (t < 80)%nat →
  (∀ x y z, (kind t).1.1 x y z = fips_function t x y z) ∧ (kind t).2 = fips_constant t.
Proof.
  intros Ht. unfold kind, fips_function, fips_constant.
  destruct (Nat.ltb_spec t 16); [|destruct (Nat.ltb_spec t 20); [|destruct (Nat.ltb_spec t 40); [|destruct (Nat.ltb_spec t 60)]]].
  - assert (t / 20 = 0)%nat as -> by (apply Nat.div_small; lia). split; [apply choose_Ch|done].
  - assert (t / 20 = 0)%nat as -> by (apply Nat.div_small; lia). split; [apply choose_Ch|done].
  - assert (t / 20 = 1)%nat as -> by (symmetry; apply (Nat.div_unique t 20 1 (t - 20)); lia). done.
  - assert (t / 20 = 2)%nat as -> by (symmetry; apply (Nat.div_unique t 20 2 (t - 40)); lia). split; [apply majority_Maj|done].
  - assert (t / 20 = 3)%nat as -> by (symmetry; apply (Nat.div_unique t 20 3 (t - 60)); lia). done.
Qed.

Lemma turn_step_fips block t l r :
  bytes_ok block → length block = 64%nat → (t < 80)%nat → circular block t l →
  ∃ l', turn_step (l, r) t = (l', fips_step (schedule block) r t) ∧ circular block (S t) l'.
Proof.
  intros Hb Hl Ht Hc. destruct (kind_fips t Ht) as [Hf Hk]. pose proof (block_word _ _ _ Hb Hl Ht Hc) as Hw.
  eexists. split; [|by apply circular_store]. unfold turn_step, fips_step.
  destruct r as [[[[a b] c] d] e]. destruct (kind t) as [[f blockf] k]. cbn [fst snd] in Hf, Hk, Hw.
  rewrite Hw, Hf, Hk. unfold rol. do 5 f_equal. f_equal. lia.
Qed.

Lemma turns_fips block n t l r :
  bytes_ok block → length block = 64%nat → (t + n ≤ 80)%nat → circular block t l →
  ∃ l', foldl turn_step (l, r) (seq t n) = (l', foldl (fips_step (schedule block)) r (seq t n)) ∧
        circular block (t + n) l'.
Proof.
  intros Hb Hl. revert t l r. induction n as [|n IH]; intros t l r Ht Hc; cbn [seq foldl].
  { exists l. by rewrite Nat.add_0_r. }
  destruct (turn_step_fips block t l r Hb Hl ltac:(lia) Hc) as (l1 & -> & Hc1).
  destruct (IH (S t) l1 (fips_step (schedule block) r t) ltac:(lia) Hc1) as (l2 & -> & Hc2).
  exists l2. by rewrite <- Nat.add_succ_comm.
Qed.

(** The block is left with the last 16 words of the schedule. *)
Lemma SHA1Transform_fips r block :
  bytes_ok block → length block = 64%nat →
  SHA1Transform r block =
    (fips_compress r block, mjoin (store32 <$> ((λ j, nth (64 + j) (schedule block) 0) <$> seq 0 16))).
Proof.
  intros Hb Hl. rewrite SHA1Transform_turns.
  destruct (turns_fips block 80 0 (block_words block) r Hb Hl (le_n _) (circular_start block)) as (l & -> & Hc).
  unfold fips_compress. destruct r as [[[[a0 b0] c0] d0] e0].
  destruct (foldl _ _ _) as [[[[a b] c] d] e]. f_equal. unfold block_bytes. do 2 f_equal.
  apply list_eq. intros j. destruct (Nat.lt_ge_cases j 16) as [Hj|Hj].
  - pose proof (ci_done _ _ _ Hc (64 + j)%nat ltac:(lia)) as Hd.
    replace ((64 + j) mod 16)%nat with j in Hd
      by (replace (64 + j)%nat with (j + 4 * 16)%nat by lia; by rewrite Nat.Div0.mod_add, Nat.mod_small).
    destruct (lookup_lt_is_Some_2 l j) as [w Hw]; [by rewrite (ci_length _ _ _ Hc)|].
    unfold word_at in Hd. rewrite (nth_lookup_Some _ _ _ _ Hw) in Hd.
    rewrite list_lookup_fmap, lookup_seq_lt by done. by rewrite Hw, Hd.
  - rewrite !lookup_ge_None_2; rewrite ?length_fmap, ?length_seq, ?(ci_length _ _ _ Hc); done.
Qed.

(** ** Contexts *)

Local Abbreviation absorbed := (absorb fips_compress init_state).
Local Abbreviation stands := (stands_for fips_compress init_state).

(** The low word is below the number added exactly when it wraps. *)
Lemma add_count_eq n len :
  0 <= n → 0 <= len → add_count (bit_words n) len = bit_words (n + 8 * len).
Proof.
  intros Hn Hl. unfold add_count, bit_words. cbn [fst snd].
  rewrite Z.shiftl_mul_pow2, Z.shiftr_div_pow2 by lia. f_equal.
  - unfold u32. rewrite Zplus_mod_idemp_r, Zplus_mod_idemp_l. f_equal. lia.
  - rewrite (u32_add_r _ (len / 2 ^ 29)), (Z.add_comm (u32 n)), sum_wraps
      by (apply Z.mod_pos_bound; lia).
    rewrite (Z.add_comm (u32 (len * 2 ^ 3))). by apply high_word_sum.
Qed.

(** A context that has taken in the message [m]. *)
Record holds (m : bytes) (c : SHA1) : Prop := {
  holds_state : stands m (state_ c) (buffer c);
  holds_count : count c = bit_words (bit_length m);
  holds_bytes : bytes_ok (buffer c)
}.

Lemma block_bytes_ok (l : list Z) : bytes_ok (block_bytes l) ∧ length (block_bytes l) = (4 * length l)%nat.
Proof.
  unfold block_bytes. induction l as [|w l [IH1 IH2]]; [split; [constructor|done]|].
  change (mjoin (store32 <$> w :: l)) with (store32 w ++ mjoin (store32 <$> l)).
  rewrite bytes_ok_app, length_app, IH2. unfold store32. rewrite little_bytes_length. cbn [length].
  split; [split; [apply little_bytes_ok|done]|lia].
Qed.

(** A block is compressed; what it is left as is some block. *)
Lemma transform_ok r block :
  bytes_ok block → length block = 64%nat →
  ∃ left, SHA1Transform r block = (fips_compress r block, left) ∧ bytes_ok left ∧ length left = 64%nat.
Proof.
  intros Hb Hl. rewrite SHA1Transform_fips by done. eexists. split; [done|].
  match goal with |- context [mjoin (store32 <$> ?l)] => destruct (block_bytes_ok l) as [H1 H2] end.
  unfold block_bytes in *. split; [done|]. by rewrite H2, length_fmap, length_seq.
Qed.

Lemma drop_memcpy (d b : bytes) i n : (i + length b ≤ n)%nat → drop n (memcpy d i b) = drop n d ∨ (length d < i)%nat.
Proof.
  intros H. destruct (Nat.lt_ge_cases (length d) i) as [|Hi]; [by right|left].
  unfold memcpy. rewrite drop_app_ge by (rewrite length_take; lia). rewrite length_take.
  rewrite drop_app_ge by lia. rewrite drop_drop. f_equal. lia.
Qed.

Lemma block_loop_ok fuel m s data i :
  s = absorbed m → rest m = [] → bytes_ok data → (i ≤ length data)%nat → (length data - i < fuel)%nat →
  ∃ data' i', block_loop fuel s data i = (absorbed (m ++ take (i' - i) (drop i data)), data', i') ∧
    (i ≤ i' ≤ length data)%nat ∧ (length data < i' + 64)%nat ∧ length data' = length data ∧
    drop i' data' = drop i' data ∧ rest (m ++ take (i' - i) (drop i data)) = [].
Proof.
  revert m s data i. induction fuel as [|fuel IH]; intros m s data i -> Hr Hd Hi Hf; [lia|].
  cbn [block_loop]. destruct (Nat.ltb_spec (i + 63) (length data)) as [Hlt|Hge].
  - set (b := take 64 (drop i data)).
    assert (Hbl : length b = 64%nat) by (subst b; rewrite length_take, length_drop; lia).
    assert (Hbo : bytes_ok b) by (by apply Forall_take, Forall_drop).
    destruct (transform_ok (absorbed m) b Hbo Hbl) as (lft & -> & Hlo & Hll).
    destruct (absorb_next fips_compress init_state m b Hr Hbl) as [Ha Hrb].
    assert (Hml : length (memcpy data i lft) = length data) by (apply memcpy_length; lia).
    destruct (drop_memcpy data lft i (i + 64)) as [Hdm|]; [lia| |lia].
    destruct (IH (m ++ b) (fips_compress (absorbed m) b) (memcpy data i lft) (i + 64)%nat)
      as (data' & i' & He & Hi' & Hl' & Hdl & Hdd & Hrr); [done|done|by apply memcpy_ok|lia|lia|].
    rewrite Hml, Hdm in *.
    assert (Hm : (m ++ b) ++ take (i' - (i + 64)) (drop (i + 64) data) = m ++ take (i' - i) (drop i data)).
    { rewrite <- app_assoc. f_equal. subst b. rewrite <- drop_drop.
      replace (i' - i)%nat with (64 + (i' - (i + 64)))%nat by lia. by rewrite take_take_drop. }
    rewrite Hm in *. exists data', i'. split_and!; try done; [lia..|].
    rewrite Hdd. destruct (drop_memcpy data lft i i') as [|]; [lia|done|lia].
  - exists data, i. rewrite Nat.sub_diag, take_0, app_nil_r. split_and!; try done; lia.
Qed.

Lemma sha1_Update_ok m c data : holds m c → bytes_ok data → holds (m ++ data) (Update data c).1.
Proof.
  intros [Hs Hc Hb] Hd. unfold Update. rewrite Hc, add_count_eq by (unfold bit_length; lia).
  rewrite <- bit_length_app. change (bit_words (bit_length m)).1 with (u32 (bit_length m)).
  change 63 with 0x3f. rewrite rest_count, Nat2Z.id.
  pose proof (rest_short m) as Hr. pose proof (sf_length _ _ _ _ _ Hs) as H64.
  destruct (Nat.ltb_spec 63 (length (rest m) + length data)) as [Hge|Hlt].
  - set (i := (64 - length (rest m))%nat).
    assert (Hk : length (take i data) = i) by (rewrite length_take; subst i; lia).
    assert (Hb1 : bytes_ok (memcpy (buffer c) (length (rest m)) (take i data))) by (by apply memcpy_ok, Forall_take).
    assert (Hl1 : length (memcpy (buffer c) (length (rest m)) (take i data)) = 64%nat) by (rewrite memcpy_length; lia).
    destruct (transform_ok (state_ c) _ Hb1 Hl1) as (lft & -> & Hlo & Hll).
    pose proof (stands_fill _ _ _ _ _ (take i data) Hs ltac:(rewrite Hk; subst i; lia)) as Hfill.
    assert (Hrest : rest (m ++ take i data) = []).
    { rewrite rest_app. apply (absorb_one fips_compress init_state). rewrite length_app, Hk. subst i. lia. }
    destruct (block_loop_ok (S (length data)) _ _ data i (sf_state _ _ _ _ _ Hfill) Hrest Hd)
      as (data' & i' & -> & Hi' & Hl' & Hdl & Hdd & Hrr); [subst i; lia|lia|].
    assert (Hm : (m ++ take i data) ++ take (i' - i) (drop i data) = m ++ take i' data).
    { rewrite <- app_assoc. f_equal. replace i' with (i + (i' - i))%nat at 2 by lia. by rewrite take_take_drop. }
    rewrite Hm in *. cbn [fst]. rewrite Hdd. split; cbn [state_ count buffer]; [|done|by apply memcpy_ok, Forall_drop].
    rewrite <- (take_drop i' data) at 1. rewrite app_assoc.
    replace 0%nat with (length (rest (m ++ take i' data))) by (by rewrite Hrr).
    apply stands_copy; [|rewrite Hrr, length_drop; cbn; lia].
    split; [done|done|by rewrite Hrr].
  - cbn [fst]. split; cbn [state_ count buffer]; [|done|by apply memcpy_ok].
    apply stands_copy; [done|lia].
Qed.

(** ** The end of the message *)

Lemma byte_of_mod x w j : 0 <= j → 8 * j + 8 <= w →
  Z.land (Z.shiftr (x mod 2 ^ w) (8 * j)) 255 = Z.land (Z.shiftr x (8 * j)) 255.
Proof.
  intros Hj Hw. change 255 with (Z.ones 8). apply Z.bits_inj'. intros n Hn.
  rewrite !Z.land_spec, !Z.shiftr_spec, testbit_mod_pow2 by lia.
  destruct (Z.ltb_spec (n + 8 * j) w); [done|]. by rewrite (Z.ones_spec_high 8 n), !andb_false_r by lia.
Qed.

Lemma byte_of_div x k j : 0 <= k → 0 <= j →
  Z.land (Z.shiftr (x / 2 ^ k) j) 255 = Z.land (Z.shiftr x (k + j)) 255.
Proof. intros Hk Hj. by rewrite <- (Z.shiftr_div_pow2 x k), Z.shiftr_shiftr by lia. Qed.

Lemma u8_land x : u8 (Z.land x 255) = Z.land x 255.
Proof. unfold u8. change 255 with (2 ^ 8 - 1). rewrite land_ones_mod, Z.mod_mod by lia. done. Qed.

(** The counter, most significant byte first. *)
Lemma finalcount_eq n : finalcount (bit_words n) = big_length64 n.
Proof.
  unfold finalcount, big_length64, big_bytes, little_bytes, bit_words, u64, u32.
  cbn [seq fmap list_fmap fst snd]. unfold reverse. cbn [rev_append].
  rewrite !u8_land.
  repeat match goal with
  | |- context [if (?a <=? ?b)%nat then ?x else ?y] =>
      let v := eval vm_compute in (a <=? b)%nat in
      change (if (a <=? b)%nat then x else y) with (if v then x else y); cbv iota
  end.
  repeat first
    [ rewrite (byte_of_mod _ 64 (Z.of_nat _)) by lia
    | match goal with
      | |- context [Z.land (Z.shiftr (?x mod 2 ^ 32) ?s) 255] =>
          let k := eval vm_compute in (s / 8) in
          change (Z.land (Z.shiftr (x mod 2 ^ 32) s) 255) with (Z.land (Z.shiftr (x mod 2 ^ 32) (8 * k)) 255);
          rewrite (byte_of_mod x 32 k) by lia
      | |- context [Z.land (Z.shiftr (?x / 2 ^ 32) ?s) 255] => rewrite (byte_of_div x 32 s) by lia
      end ].
  reflexivity.
Qed.

Lemma count_512 n : Z.land (u32 (bit_length n)) 504 = 8 * Z.of_nat (length n mod 64).
Proof.
  unfold bit_length. rewrite (Z.mul_comm 8), <- (Z.shiftl_mul_pow2 _ 3) by lia.
  change 504 with (Z.shiftl (Z.ones 6) 3). unfold u32.
  assert (Hz : Z.shiftl (Z.of_nat (length n)) 3 mod 2 ^ 32 = Z.shiftl (Z.of_nat (length n) mod 2 ^ 29) 3).
  { rewrite !Z.shiftl_mul_pow2 by lia. change (2 ^ 32) with (2 ^ 29 * 2 ^ 3). by rewrite Z.mul_mod_distr_r by lia. }
  rewrite Hz, <- Z.shiftl_land, Z.land_ones, Z.shiftl_mul_pow2 by lia.
  rewrite Z.mod_mod_divide by (by exists (2 ^ 23)). rewrite Nat2Z.inj_mod. change (Z.of_nat 64) with (2 ^ 6). lia.
Qed.

(** Zeros are added one by one up to 56 bytes of a block. *)
Lemma pad_loop_ok fuel k m c :
  holds m c → (k < fuel)%nat → ((length m + k) mod 64 = 56)%nat →
  (∀ j, (j < k)%nat → ((length m + j) mod 64 ≠ 56)%nat) →
  holds (m ++ replicate k 0) (pad_loop fuel c).
Proof.
  revert k m c. induction fuel as [|fuel IH]; intros k m c Hh Hk He Hmin; [lia|]. cbn [pad_loop].
  rewrite (holds_count _ _ Hh). change (bit_words (bit_length m)).1 with (u32 (bit_length m)).
  rewrite count_512. destruct k as [|k].
  - rewrite Nat.add_0_r in He. rewrite He. change (8 * Z.of_nat 56 =? 448) with true.
    cbn [replicate]. by rewrite app_nil_r.
  - pose proof (Hmin 0%nat ltac:(lia)) as H0. rewrite Nat.add_0_r in H0.
    destruct (Z.eqb_spec (8 * Z.of_nat (length m mod 64)) 448) as [Heq|_]; [lia|].
    cbn [replicate]. rewrite cons_middle, app_assoc. apply IH; [|lia|..].
    + apply sha1_Update_ok; [done|]. by repeat constructor.
    + rewrite length_app. cbn [length]. by replace (length m + 1 + k)%nat with (length m + S k)%nat by lia.
    + intros j Hj. rewrite length_app. cbn [length].
      replace (length m + 1 + j)%nat with (length m + S j)%nat by lia. apply Hmin. lia.
Qed.

Lemma zeros_first (m : bytes) :
  ((length m + 1 + zeros (length m)) mod 64 = 56)%nat ∧
  (∀ j, (j < zeros (length m))%nat → ((length m + 1 + j) mod 64 ≠ 56)%nat) ∧ (zeros (length m) < 64)%nat.
Proof.
  pose proof (Nat.div_mod_eq (length m) 64) as Hd. pose proof (rest_short m) as Hr. rewrite rest_length in Hr.
  assert (Hmod : ∀ j, (length m mod 64 + 1 + j < 128)%nat → ((length m + 1 + j) mod 64 =
    if length m mod 64 + 1 + j <? 64 then length m mod 64 + 1 + j else length m mod 64 + 1 + j - 64)%nat).
  { intros j Hj. destruct (Nat.ltb_spec (length m mod 64 + 1 + j) 64); symmetry.
    - apply (Nat.mod_unique _ _ (length m / 64)); lia.
    - apply (Nat.mod_unique _ _ (S (length m / 64))); lia. }
  destruct (Nat.lt_ge_cases (length m mod 64) 56) as [Hs|Hs].
  - rewrite (zeros_small _ m (rest_length m)) by done. split_and!; [| |lia].
    + rewrite Hmod by lia. destruct (Nat.ltb_spec (length m mod 64 + 1 + (55 - length m mod 64)) 64); lia.
    + intros j Hj. rewrite Hmod by lia. destruct (Nat.ltb_spec (length m mod 64 + 1 + j) 64); lia.
  - rewrite (zeros_large _ m (rest_length m)) by done. split_and!; [| |lia].
    + rewrite Hmod by lia. destruct (Nat.ltb_spec (length m mod 64 + 1 + (63 - length m mod 64 + 56)) 64); lia.
    + intros j Hj. rewrite Hmod by lia. destruct (Nat.ltb_spec (length m mod 64 + 1 + j) 64); lia.
Qed.

Lemma sha1_FinalInternal_ok m c :
  holds m c → state_ (FinalInternal c) = hash_blocks fips_compress init_state big_length64 m.
Proof.
  intros Hh. unfold FinalInternal, hash_blocks, pad. rewrite (holds_count _ _ Hh), finalcount_eq. fold (bit_length m).
  destruct (zeros_first m) as (H1 & H2 & H3).
  assert (Hb : bytes_ok [0x80]) by (by repeat constructor).
  pose proof (sha1_Update_ok _ _ _ Hh Hb) as Hu.
  assert (Hp : holds ((m ++ [0x80]) ++ replicate (zeros (length m)) 0) (pad_loop 64 (Update [0x80] c).1)).
  { apply pad_loop_ok; [done|done|..]; rewrite length_app; done. }
  assert (Hl : bytes_ok (big_length64 (bit_length m))).
  { unfold big_length64, big_bytes, bytes_ok. rewrite Forall_reverse. apply little_bytes_ok. }
  pose proof (sha1_Update_ok _ _ _ Hp Hl) as Hf.
  rewrite (sf_state _ _ _ _ _ (holds_state _ _ Hf)). by rewrite <- !app_assoc.
Qed.

Lemma sha1_Final_ok m c : holds m c → Final c = sha1_reference m.
Proof.
  intros Hh. unfold Final, sha1_reference. rewrite (sha1_FinalInternal_ok _ _ Hh).
  generalize (hash_blocks fips_compress init_state big_length64 m). intros [[[[a b] c'] d] e].
  unfold digest_byte. cbn [seq fmap list_fmap]. rewrite !u8_land. reflexivity.
Qed.

Lemma sha1_reference_ok m : bytes_ok (sha1_reference m).
Proof.
  unfold sha1_reference. generalize (state_list (hash_blocks fips_compress init_state big_length64 m)). intros l.
  induction l as [|w l IH]; [constructor|]. change (bytes_ok (big_bytes 4 w ++ mjoin (big_bytes 4 <$> l))).
  apply bytes_ok_app. split; [|done]. unfold big_bytes, bytes_ok. rewrite Forall_reverse. apply little_bytes_ok.
Qed.

Lemma sha1_updates_ok chunks m c :
  holds m c → Forall bytes_ok chunks → holds (m ++ concat chunks) (foldl (λ c sp, (Update sp c).1) c chunks).
Proof.
  revert m c. induction chunks as [|sp chunks IH]; intros m c Hm Hc; cbn [foldl concat].
  { by rewrite app_nil_r. }
  apply Forall_cons in Hc as [H1 Hc]. rewrite app_assoc. apply IH; [|done]. by apply sha1_Update_ok.
Qed.

(** C20: However a message is cut into pieces, and whatever the memory of a new
    context holds, the digest is that of FIPS 180 for the whole message, and
    the hexadecimal digest reads back as it; the padding loop ends. *)
Theorem sha1_streaming (memory : bytes) (chunks : list bytes) :
  length memory = 64%nat → bytes_ok memory → Forall bytes_ok chunks →
  let c := foldl (λ c sp, (Update sp c).1) (new_SHA1 memory) chunks in
  Final c = sha1_reference (concat chunks) ∧
  read_hex (HexFinal c) = Some (sha1_reference (concat chunks)) ∧
  (∀ sp, chunks = [sp] → HexDigest memory sp = Encode (sha1_reference sp) false).
Proof.
  intros Hl Hb Hc c.
  assert (Hnew : holds [] (new_SHA1 memory)) by (by split).
  pose proof (sha1_updates_ok chunks [] (new_SHA1 memory) Hnew Hc) as Hh.
  fold c in Hh. cbn [app] in Hh. pose proof (sha1_Final_ok _ _ Hh) as Hf. split_and!; [done|..].
  - unfold HexFinal, EncodeAsString, EncodeTo, EncodeAppend. cbn [app]. rewrite Hf.
    apply read_hex_Encode, sha1_reference_ok.
  - intros sp ->. cbn [foldl concat] in c, Hf. rewrite app_nil_r in Hf. subst c.
    unfold HexDigest, HexFinal, EncodeAsString, EncodeTo, EncodeAppend. by rewrite Hf.
Qed.

Lemma sha1_streaming_witness :
  let chunks := [str "The quick brown fox "; str "jumps over the lazy dog"] in
  let c := foldl (λ c sp, (Update sp c).1) (new_SHA1 (replicate 64 7)) chunks in
  HexFinal c = str "2fd4e1c67a2d28fced849ee1bb76e7391b93eb12" ∧ Final c = sha1_reference (concat chunks).
Proof.
  split; [vm_compute; reflexivity|].
  refine (proj1 (sha1_streaming (replicate 64 7) [str "The quick brown fox "; str "jumps over the lazy dog"] _ _ _)).
  - reflexivity.
  - apply Forall_replicate. done.
  - repeat constructor; vm_compute; discriminate.
Defined.

(** The data of whole blocks is overwritten by the expanded message. *)
Example sha1_overwrites_data :
  let data := replicate 128 97 in
  bool_decide ((Update data (new_SHA1 (replicate 64 0))).2 = data) = false.
Proof. vm_compute. reflexivity. Qed.
