(* ===== verification/Specification.v ===== *)
(** * Conversion specifications of formats

    Model of base/string/format/specification.h and specification.cpp: parsing
    what follows a percent sign in the formats of [StringScan] and
    [StringPrint].

    A [const char*] is the list of the bytes it may still read, the final NUL
    included; [None] is reading past that NUL, or a loop that never ends.  A
    [char] is signed.  [LOG(DFATAL)] only logs, as it does in builds with
    NDEBUG. *)

From S2P Require Import Prelude CType ByteSet Number.

(** ** The data *)

Definition kFormatLengthHH : Z := Z.shiftl (chr "h") CHAR_BIT + chr "h".
Definition kFormatLengthLL : Z := Z.shiftl (chr "l") CHAR_BIT + chr "l".

Record FormatSpecification := mkFormatSpecification { width : Z; flength : Z; specifier : Z }.

Definition new_FormatSpecification : FormatSpecification := mkFormatSpecification (-1) 0 0.

Definition set_width (w : Z) (s : FormatSpecification) := mkFormatSpecification w (flength s) (specifier s).
Definition set_length (l : Z) (s : FormatSpecification) := mkFormatSpecification (width s) l (specifier s).
Definition set_specifier (c : Z) (s : FormatSpecification) := mkFormatSpecification (width s) (flength s) c.

Definition has_width (s : FormatSpecification) : bool := negb (width s =? -1).
Definition has_length (s : FormatSpecification) : bool := negb (flength s =? 0).

Definition SpecifierMatch (s : FormatSpecification) (s1 : Z) : bool :=
  ((specifier s =? chr "v") || (specifier s =? s1))%bool.

(** [strchr] also finds the NUL that ends [ss]. *)
Definition SpecifierMatch_any (s : FormatSpecification) (ss : bytes) : bool :=
  ((specifier s =? chr "v") || bool_decide (specifier s ∈ ss ++ [0]))%bool.

Definition LengthMatch (s : FormatSpecification) (allowed : Z) : bool :=
  ((flength s =? 0) || (flength s =? allowed))%bool.

(** The last element of the array is not looked at. *)
Definition LengthMatch_any (s : FormatSpecification) (allowed : list Z) : bool :=
  ((flength s =? 0) || bool_decide (flength s ∈ removelast allowed))%bool.

Definition LengthToString (s : FormatSpecification) : option bytes :=
  let l := flength s in
  if l =? 0 then Some []
  else if l =? chr "h" then Some (str "h")
  else if l =? chr "l" then Some (str "l")
  else if l =? chr "L" then Some (str "L")
  else if l =? chr "j" then Some (str "j")
  else if l =? chr "z" then Some (str "t")
  else if l =? chr "t" then Some (str "t")
  else if l =? kFormatLengthHH then Some (str "hh")
  else if l =? kFormatLengthLL then Some (str "ll")
  else None.

(** [scanset] is indeterminate until it is parsed; here it starts empty. *)
Record ScanSpecification := mkScanSpecification {
  scan_base : FormatSpecification; skip : bool; scanset : bytes }.

Definition new_ScanSpecification : ScanSpecification := mkScanSpecification new_FormatSpecification false [].

Record Flags := mkFlags { left : bool; sign : bool; space : bool; sharp : bool; zero : bool }.

Record PrintSpecification := mkPrintSpecification {
  print_base : FormatSpecification; flags : Flags; precision : Z }.

Definition new_PrintSpecification : PrintSpecification :=
  mkPrintSpecification new_FormatSpecification (mkFlags false false false false false) (-1).

Definition has_precision (s : PrintSpecification) : bool := negb (precision s =? -1).

(** ** Parsing the parts

    Each function returns the number of characters it used, 0 for failure,
    with the value of the variable it was given the address of. *)

(** [width] is what [*width] was before. *)
Definition ParseWidth (format : bytes) (width : Z) : option (nat * Z) :=
  c ← format !! 0%nat;
  if negb (isdigit c) then Some (0%nat, width)
  else let '(n, used, _) := strtoul (before_nul format) 10 in
       let w := s32 n in
       if w <? 0 then Some (0%nat, w) else Some (used, w).

Definition ParseLength (format : bytes) : option (nat * Z) :=
  c ← format !! 0%nat;
  if ((c =? chr "h") || (c =? chr "l"))%bool then
    d ← format !! 1%nat;
    if d =? c then Some (2%nat, Z.shiftl d CHAR_BIT + c) else Some (1%nat, c)
  else if ((c =? chr "j") || (c =? chr "z") || (c =? chr "t") || (c =? chr "L"))%bool then Some (1%nat, c)
  else Some (0%nat, 0).

Definition ScanSetSetChar (cs : bytes) (c : Z) (value : bool) : bytes :=
  let mask := Z.shiftl 1 (c mod CHAR_BIT) in
  alter (λ w, u8 (if value then Z.lor w mask else Z.land w (Z.lnot mask))) (Z.to_nat (c / CHAR_BIT)) cs.

(** [for (char c = first; c <= last; ++c)]: 256 rounds go through every value
    of [c], and a loop that has not ended after them never does. *)
Fixpoint range_loop (fuel : nat) (cs : bytes) (c last : Z) (value : bool) : option bytes :=
  match fuel with
  | O => None
  | S fuel =>
      if c <=? last then range_loop fuel (ScanSetSetChar cs (u8 c) value) (s8 (c + 1)) last value
      else Some cs
  end.

Definition ScanSetSetCharRange (cs : bytes) (first last : Z) (value : bool) : option bytes :=
  range_loop 257 cs (s8 first) (s8 last) value.

(** [i] is [f - format]. *)
Fixpoint scan_set_loop (fuel : nat) (is_neg : bool) (i : nat) (f cs : bytes) : option (nat * bytes) :=
  match fuel with
  | O => None
  | S fuel =>
      c ← f !! 0%nat;
      if c =? chr "]" then Some (S i, cs)
      else if (256 <? i)%nat then Some (0%nat, cs)
      else if c =? 0 then Some (0%nat, cs)
      else
        d ← f !! 1%nat;
        let single := scan_set_loop fuel is_neg (i + 1) (drop 1 f) (ScanSetSetChar cs c (negb is_neg)) in
        if d =? chr "-" then
          e ← f !! 2%nat;
          if (negb (e =? 0) && negb (e =? chr "]"))%bool then
            cs' ← ScanSetSetCharRange cs c e (negb is_neg);
            scan_set_loop fuel is_neg (i + 3) (drop 3 f) cs'
          else single
        else single
  end.

Definition ParseScanSet (format : bytes) : option (nat * bytes) :=
  c ← format !! 0%nat;
  let is_neg := c =? chr "^" in
  let i := if is_neg then 1%nat else 0%nat in
  scan_set_loop (length format) is_neg i (drop i format) (replicate 32 (if is_neg then 255 else 0)).

Definition specifiers : bytes := str "AEFGXabcdefginopsuvx".

Definition ParseSpecifier (format : bytes) (specifier : Z) : option (nat * Z) :=
  c ← format !! 0%nat;
  if bool_decide (c ∈ specifiers) then Some (1%nat, c) else Some (0%nat, specifier).

Definition ParseScanSpecifier (format : bytes) (spec : ScanSpecification) : option (nat * ScanSpecification) :=
  '(n, c) ← ParseSpecifier format (specifier (scan_base spec));
  let base := set_specifier c (scan_base spec) in
  if (0 <? n)%nat then Some (n, mkScanSpecification base (skip spec) (scanset spec))
  else
    b ← format !! 0%nat;
    if b =? chr "[" then
      '(width, cs) ← ParseScanSet (drop 1 format);
      if (0 <? width)%nat
      then Some ((width + 1)%nat, mkScanSpecification (set_specifier (chr "[") base) (skip spec) cs)
      else Some (0%nat, mkScanSpecification base (skip spec) cs)
    else Some (0%nat, spec).

Definition ParsePrintSpecifier (format : bytes) (specifier : Z) : option (nat * Z) :=
  ParseSpecifier format specifier.

Definition ScanSpecification_Parse (format : bytes) (spec : ScanSpecification) :
    option (nat * ScanSpecification) :=
  c ← format !! 0%nat;
  let '(i, sk) := if c =? chr "*" then (1%nat, true) else (0%nat, skip spec) in
  '(n, w) ← ParseWidth (drop i format) (width (scan_base spec));
  let i := (i + n)%nat in
  '(n, l) ← ParseLength (drop i format);
  let i := (i + n)%nat in
  let base := set_length l (set_width w (scan_base spec)) in
  '(n, spec') ← ParseScanSpecifier (drop i format) (mkScanSpecification base sk (scanset spec));
  if (n =? 0)%nat then Some (0%nat, spec') else Some ((i + n)%nat, spec').

(** The flags, the number of characters so far and the rest of the format. *)
Fixpoint ParseFlags (f : bytes) (fl : Flags) (n : nat) : option (nat * Flags) :=
  match f with
  | [] => None
  | c :: f =>
      if c =? 0 then Some (n, fl)
      else if c =? chr "-" then ParseFlags f (mkFlags true (sign fl) (space fl) (sharp fl) (zero fl)) (S n)
      else if c =? chr "+" then ParseFlags f (mkFlags (left fl) true (space fl) (sharp fl) (zero fl)) (S n)
      else if c =? chr " " then ParseFlags f (mkFlags (left fl) (sign fl) true (sharp fl) (zero fl)) (S n)
      else if c =? chr "#" then ParseFlags f (mkFlags (left fl) (sign fl) (space fl) true (zero fl)) (S n)
      else if c =? chr "0" then ParseFlags f (mkFlags (left fl) (sign fl) (space fl) (sharp fl) true) (S n)
      else Some (n, fl)
  end.

Definition ParsePrintWidth (format : bytes) (value : Z) : option (nat * Z) :=
  '(n, v) ← ParseWidth format value;
  if (0 <? n)%nat then Some (n, v)
  else c ← format !! 0%nat; if c =? chr "*" then Some (1%nat, - chr "*") else Some (0%nat, v).

Definition PrintSpecification_Parse (format : bytes) (spec : PrintSpecification) :
    option (nat * PrintSpecification) :=
  '(i, fl) ← ParseFlags format (flags spec) 0;
  '(n, w) ← ParsePrintWidth (drop i format) (width (print_base spec));
  let i := (i + n)%nat in
  '(dot, i, p) ← (c ← drop i format !! 0%nat;
    if c =? chr "." then
      '(n, p) ← ParsePrintWidth (drop (S i) format) (precision spec); Some (Some n, (S i + n)%nat, p)
    else Some (None, i, precision spec));
  let base := set_width w (print_base spec) in
  if bool_decide (dot = Some 0%nat) then Some (0%nat, mkPrintSpecification base fl p)
  else
    '(n, l) ← ParseLength (drop i format);
    let i := (i + n)%nat in
    let base := set_length l base in
    '(n, c) ← ParsePrintSpecifier (drop i format) (specifier base);
    let spec' := mkPrintSpecification (set_specifier c base) fl p in
    if (n =? 0)%nat then Some (0%nat, spec') else Some ((i + n)%nat, spec').

Example parse_width_length : ScanSpecification_Parse (str "*12lld rest" ++ [0]) new_ScanSpecification =
  Some (6%nat, mkScanSpecification (mkFormatSpecification 12 kFormatLengthLL (chr "d")) true []).
Proof. by vm_compute. Qed.

(** A precision that fails to parse makes the whole fail, although C allows
    the digits to be missing. *)
Example precision_without_digits :
  fst <$> PrintSpecification_Parse (str ".f" ++ [0]) new_PrintSpecification = Some 0%nat.
Proof. by vm_compute. Qed.

(** ** Scan sets *)

(** A scan set is the bitmap of a [ByteSet]. *)
Definition in_set (cs : bytes) (c : Z) : bool := Find (mkByteSet cs) c.

Lemma ScanSetSetChar_spec cs n value : wf (mkByteSet cs) → is_byte n →
  wf (mkByteSet (ScanSetSetChar cs n value)) ∧
  ∀ c, is_byte c → in_set (ScanSetSetChar cs n value) c = if c =? n then value else in_set cs c.
Proof.
  intros Hcs Hn. unfold in_set. destruct value.
  - change (mkByteSet (ScanSetSetChar cs n true)) with (Insert n (mkByteSet cs)).
    split; [by apply wf_Insert|]. intros c Hc. rewrite Find_Insert by done. by destruct (c =? n).
  - change (mkByteSet (ScanSetSetChar cs n false)) with (Remove n (mkByteSet cs)).
    split; [by apply wf_Remove|]. intros c Hc. rewrite Find_Remove by done. by destruct (c =? n).
Qed.

Lemma u8_s8 x c : - 128 <= x < 128 → is_byte c → (c =? u8 x) = (s8 c =? x).
Proof.
  intros Hx Hc. rewrite s8_byte by done. unfold u8, is_byte in *.
  assert (E : x mod 2 ^ 8 = if x <? 0 then x + 256 else x).
  { destruct (Z.ltb_spec x 0); [rewrite <- (Z.mod_add _ 1), Z.mod_small; lia|rewrite Z.mod_small; lia]. }
  rewrite E. destruct (Z.ltb_spec x 0), (Z.ltb_spec c 128); apply eq_true_iff_eq; rewrite !Z.eqb_eq; lia.
Qed.

(** A range that does not end in the greatest [char] sets its characters. *)
Lemma range_loop_spec fuel cs c last value :
  wf (mkByteSet cs) → - 128 <= c < 128 → - 128 <= last < 127 → (Z.to_nat (last - c + 1) < fuel)%nat →
  ∃ cs', range_loop fuel cs c last value = Some cs' ∧ wf (mkByteSet cs') ∧
    ∀ x, is_byte x → in_set cs' x = if (c <=? s8 x) && (s8 x <=? last) then value else in_set cs x.
Proof.
  revert cs c. induction fuel as [|fuel IH]; intros cs c Hcs Hc Hl Hf; [lia|]. cbn [range_loop].
  destruct (Z.leb_spec c last) as [Hle|Hgt].
  - destruct (ScanSetSetChar_spec cs (u8 c) value Hcs (u8_byte c)) as [Hwf Hin].
    rewrite s8_small by lia. destruct (IH (ScanSetSetChar cs (u8 c) value) (c + 1)) as (cs' & -> & Hwf' & Hin'); [done|lia|done|lia|].
    exists cs'. split_and!; [done|done|]. intros x Hx. rewrite Hin', Hin, u8_s8 by done.
    pose proof (s8_range x). repeat (case_ztest; cbn); first [done | lia].
  - exists cs. split_and!; [done|done|]. intros x Hx. repeat (case_ztest; cbn); first [done | lia].
Qed.

(** A range that ends in it never ends. *)
Lemma range_loop_diverges fuel cs c value : - 128 <= c < 128 → range_loop fuel cs c 127 value = None.
Proof.
  revert cs c. induction fuel as [|fuel IH]; intros cs c Hc; cbn [range_loop]; [done|].
  destruct (Z.leb_spec c 127); [|lia]. apply IH. pose proof (s8_range (c + 1)). lia.
Qed.

(** *** The text of a scan set *)

Inductive set_item := Single (c : Z) | Range (first last : Z).

Definition item_text (i : set_item) : bytes :=
  match i with Single c => [c] | Range a b => [a; chr "-"; b] end.
Definition item_head (i : set_item) : Z := match i with Single c => c | Range a _ => a end.
Definition plain (c : Z) : Prop := is_byte c ∧ c ≠ 0 ∧ c ≠ chr "]".
Definition item_ok (i : set_item) : Prop :=
  plain (item_head i) ∧ item_head i ≠ chr "-" ∧ match i with Single _ => True | Range _ b => plain b ∧ b ≠ 127 end.
Definition in_item (c : Z) (i : set_item) : bool :=
  match i with Single x => c =? x | Range a b => (s8 a <=? s8 c) && (s8 c <=? s8 b) end.

Definition items_text (l : list set_item) : bytes := l ≫= item_text.
Definition in_items (l : list set_item) (c : Z) : bool := existsb (in_item c) l.

(** The text between the brackets. *)
Definition set_text (is_neg : bool) (l : list set_item) : bytes :=
  (if is_neg then [chr "^"] else []) ++ items_text l ++ [chr "]"].

Definition set_ok (is_neg : bool) (l : list set_item) : Prop :=
  Forall item_ok l ∧ (length (items_text l) <= 255)%nat ∧
  (is_neg = false → head (item_head <$> l) ≠ Some (chr "^")).

Lemma length_item i : (1 <= length (item_text i) <= 3)%nat.
Proof. destruct i; cbn; lia. Qed.

Lemma scan_set_loop_spec is_neg l : ∀ fuel i cs rest,
  Forall item_ok l → wf (mkByteSet cs) → (i + length (items_text l) <= 256)%nat → (length l < fuel)%nat →
  ∃ cs', scan_set_loop fuel is_neg i (items_text l ++ [chr "]"] ++ rest) cs =
      Some ((i + length (items_text l) + 1)%nat, cs') ∧ wf (mkByteSet cs') ∧
    ∀ c, is_byte c → in_set cs' c = if in_items l c then negb is_neg else in_set cs c.
Proof.
  induction l as [|it l IH]; intros fuel i cs rest Hl Hcs Hlen Hf; (destruct fuel as [|fuel]; [cbn in Hf; lia|]).
  - exists cs. split; [|done]. cbn -[chr]. f_equal. f_equal. lia.
  - apply Forall_cons in Hl as [(Hh & Hm & Hi) Hl]. cbn [items_text mbind list_bind] in *. fold (items_text l) in *.
    rewrite length_app in Hlen. cbn [length] in Hf. rewrite <- (assoc_L (++)).
    destruct (ScanSetSetChar_spec cs (item_head it) (negb is_neg) Hcs) as [Hwf Hin]; [apply Hh|].
    destruct Hh as (Hb & H0 & H1). cbn [in_items existsb].
    assert (Hnext : ∃ d t, items_text l ++ [chr "]"] ++ rest = d :: t ∧ d ≠ chr "-").
    { destruct l as [|it' l]; [by eexists _, _|]. apply Forall_cons in Hl as [(_ & Hm' & _) _].
      destruct it'; cbn in *; by eexists _, _. }
    destruct Hnext as (d & t & Ht & Hd).
    destruct it as [c|a b]; cbn [item_text item_head app in_item length] in *; cbn [scan_set_loop lookup list_lookup mbind option_bind].
    + rewrite (proj2 (Z.eqb_neq _ _) H1), (proj2 (Z.eqb_neq _ _) H0).
      destruct (Nat.ltb_spec 256 i); [lia|]. cbn [drop]. rewrite Ht. cbn [lookup list_lookup mbind option_bind].
      rewrite (proj2 (Z.eqb_neq _ _) Hd), <- Ht, drop_0.
      destruct (IH fuel (i + 1)%nat (ScanSetSetChar cs c (negb is_neg)) rest) as (cs' & -> & Hwf' & Hin'); [done|done|lia|lia|].
      exists cs'. split_and!; [do 2 f_equal; cbn; lia|done|]. intros x Hx. rewrite Hin', Hin by done. fold (in_items l x).
      destruct (x =? c); cbn [orb]; [by destruct (in_items l x)|done].
    + destruct Hi as ((Hbb & Hb0 & Hb1) & H127).
      rewrite (proj2 (Z.eqb_neq _ _) H1), (proj2 (Z.eqb_neq _ _) H0).
      destruct (Nat.ltb_spec 256 i); [lia|]. rewrite Z.eqb_refl, (proj2 (Z.eqb_neq _ _) Hb1), (proj2 (Z.eqb_neq _ _) Hb0).
      cbn [negb andb drop]. unfold ScanSetSetCharRange.
      destruct (range_loop_spec 257 cs (s8 a) (s8 b) (negb is_neg)) as (cs1 & -> & Hwf1 & Hin1); [done|apply s8_range| | |].
      { pose proof (s8_range b). rewrite (s8_byte b) in * by done. unfold is_byte in *. case_ztest; lia. }
      { pose proof (s8_range b). pose proof (s8_range a). lia. }
      cbn [mbind option_bind]. rewrite drop_0.
      destruct (IH fuel (i + 3)%nat cs1 rest) as (cs' & -> & Hwf' & Hin'); [done|done|lia|lia|].
      exists cs'. split_and!; [do 2 f_equal; cbn; lia|done|]. intros x Hx. rewrite Hin', Hin1 by done. fold (in_items l x).
      destruct ((s8 a <=? s8 x) && (s8 x <=? s8 b))%bool; cbn [orb]; [by destruct (in_items l x)|done].
Qed.

Lemma full_set c : is_byte c → in_set (replicate 32 255) c = true.
Proof.
  intros Hc. apply (byte_forall (λ c, in_set (replicate 32 255) c)); [|done]. by vm_compute.
Qed.

Lemma full_wf : wf (mkByteSet (replicate 32 255)).
Proof. split; [done|]. apply Forall_replicate. by unfold is_byte. Qed.

Lemma items_head l t c : head (items_text l ++ c :: t) = Some (default c (head (item_head <$> l))).
Proof. destruct l as [|[]]; done. Qed.

Lemma length_items l : (length l <= length (items_text l))%nat.
Proof.
  induction l as [|it l IH]; cbn [items_text mbind list_bind length]; [lia|].
  rewrite length_app. pose proof (length_item it). fold (items_text l). lia.
Qed.

(** A scan set that is written out parses to the characters of its items, or
    to all the others after a caret. *)
Lemma ParseScanSet_spec is_neg l rest : set_ok is_neg l →
  ∃ cs, ParseScanSet (set_text is_neg l ++ rest) = Some (length (set_text is_neg l), cs) ∧
    ∀ c, is_byte c → in_set cs c = xorb is_neg (in_items l c).
Proof.
  intros (Hl & Hlen & Hhead). unfold ParseScanSet, set_text.
  pose proof (length_items l) as Hitems. destruct is_neg.
  - cbn [app lookup list_lookup mbind option_bind length]. rewrite Z.eqb_refl.
    destruct (scan_set_loop_spec true l (S (length ((items_text l ++ [chr "]"]) ++ rest))) 1 (replicate 32 255) rest)
      as (cs & E & _ & Hin); [done|apply full_wf|lia|rewrite !length_app; lia|].
    exists cs. rewrite <- (assoc_L (++)) in *. cbn [drop] in *. rewrite drop_0, E. split; [do 2 f_equal; rewrite length_app; cbn; lia|].
    intros c Hc. rewrite Hin, full_set by done. by destruct (in_items l c).
  - cbn [app]. pose proof (items_head l rest (chr "]")) as Hh. specialize (Hhead eq_refl).
    destruct (scan_set_loop_spec false l (length ((items_text l ++ [chr "]"]) ++ rest)) 0 (replicate 32 0) rest)
      as (cs & E & _ & Hin); [done|apply wf_Clear|lia|rewrite !length_app; cbn; lia|].
    rewrite <- (assoc_L (++)) in *. cbn [app] in *. set (txt := items_text l ++ chr "]" :: rest) in *.
    destruct txt as [|c txt1] eqn:Et; [done|]. cbn [lookup list_lookup mbind option_bind]. injection Hh as ->.
    destruct (Z.eqb_spec (default (chr "]") (head (item_head <$> l))) (chr "^")) as [Heq|_].
    { destruct (head (item_head <$> l)) eqn:Eh; cbn in Heq; [by rewrite Heq in Hhead|done]. }
    rewrite drop_0. exists cs. split; [rewrite E; do 2 f_equal; rewrite length_app; cbn; lia|].
    intros c Hc. rewrite Hin by done. change (in_set (replicate 32 0) c) with (Find Clear c).
    rewrite Find_Clear. by destruct (in_items l c).
Qed.

(** ** The parts read back *)

Lemma before_nul_app s t : Forall (λ c, c ≠ 0) s → before_nul (s ++ t) = s ++ before_nul t.
Proof. induction 1 as [|c s Hc Hs IH]; cbn; [done|]. destruct (Z.eqb_spec c 0); [done|]. by rewrite IH. Qed.

(** A number in decimal before a character that is not a digit. *)
Definition no_digit (t : bytes) : Prop := ∃ c r, t = c :: r ∧ isdigit c = false.

Lemma no_digit_stops t : no_digit t → stops 10 t ∧ stops 10 (before_nul t).
Proof.
  intros (c & r & -> & Hc). assert (Hno : ¬ digit_ok 10 c).
  { intros (d & Hd & Hlt). unfold digit_value in Hd. rewrite Hc in Hd.
    destruct (islower c) eqn:El; [|destruct (isupper c) eqn:Eu; [|done]]; simplify_eq;
      unfold islower, isupper, in_range in *; lia. }
  split; [done|]. cbn. by destruct (c =? 0).
Qed.

Lemma decimal_nonzero n : 0 <= n < limit → Forall (λ c, c ≠ 0) (decimal n).
Proof. intros Hn. destruct (decimal_facts n Hn) as (_ & _ & _ & Hr & _). eapply Forall_impl; [exact Hr|]. cbn. lia. Qed.

(** What the C library reads off a decimal number with an optional minus. *)
Lemma scan_decimal neg n t : 0 <= n < limit → stops 10 t →
  scan_number (minus_sign neg ++ decimal n ++ t) 10 =
    (neg, n, (length (minus_sign neg) + length (decimal n))%nat).
Proof.
  intros Hn Ht. destruct (decimal_facts n Hn) as (Hok & Hv & Hne & Hr & _).
  destruct (decimal_digits_graph _ Hr) as (Hge & _ & _).
  rewrite scan_number_digits by done. change (base_of 10 (decimal n)) with 10. by rewrite Hv.
Qed.

Lemma strtoul_decimal n t : 0 <= n < 2 ^ 64 → stops 10 t →
  strtoul (decimal n ++ t) 10 = (n, length (decimal n), false).
Proof.
  intros Hn Ht. unfold strtoul. pose proof (scan_decimal false n t) as E. cbn [minus_sign app length Nat.add] in E.
  rewrite E by (unfold limit; done || lia). destruct (Z.leb_spec (2 ^ 64) n); [lia|done].
Qed.

Lemma decimal_head n : 0 <= n < limit → ∃ c s, decimal n = c :: s ∧ isdigit c = true.
Proof.
  intros Hn. destruct (decimal_facts n Hn) as (_ & _ & Hne & Hr & _).
  destruct (decimal n) as [|c s]; [done|]. exists c, s. split; [done|].
  apply Forall_cons in Hr as [Hc _]. unfold isdigit, in_range. lia.
Qed.

(** A width: nothing, or a decimal number. *)
Definition width_text (w : option Z) : bytes := match w with Some w => decimal w | None => [] end.
Definition width_ok (w : option Z) : Prop := match w with Some w => 0 <= w < 2 ^ 31 | None => True end.

Lemma ParseWidth_text w t old : width_ok w → no_digit t →
  ParseWidth (width_text w ++ t) old = Some (length (width_text w), default old w).
Proof.
  intros Hw Ht. unfold ParseWidth. destruct w as [w|]; cbn [width_text default width_ok] in *.
  - assert (Hlim : 0 <= w < limit) by (unfold limit; lia).
    destruct (decimal_head w Hlim) as (c & s & E & Hc). rewrite E at 1. cbn [app lookup list_lookup mbind option_bind].
    rewrite Hc. cbn [negb]. rewrite before_nul_app by by apply decimal_nonzero.
    destruct (no_digit_stops t Ht) as [_ Hs]. rewrite strtoul_decimal by (done || lia).
    rewrite s32_small by lia. destruct (Z.ltb_spec w 0); [lia|done].
  - destruct Ht as (c & r & -> & Hc). cbn. by rewrite Hc.
Qed.

(** The length modifiers and their codes. *)
Definition length_table : list (Z * bytes) :=
  [(0, []); (chr "h", str "h"); (chr "l", str "l"); (chr "L", str "L"); (chr "j", str "j"); (chr "z", str "z");
   (chr "t", str "t"); (kFormatLengthHH, str "hh"); (kFormatLengthLL, str "ll")].

Definition starts_conversion (t : bytes) : Prop := ∃ c r, t = c :: r ∧ (c ∈ specifiers ∨ c = chr "[").

Lemma conversion_start (P : Z → Prop) `{∀ c, Decision (P c)} t : starts_conversion t →
  forallb (λ c, bool_decide (P c)) (specifiers ++ [chr "["]) = true → ∃ c r, t = c :: r ∧ P c.
Proof.
  intros (c & r & -> & Hc) Hall. exists c, r. split; [done|].
  rewrite forallb_forall in Hall. apply (bool_decide_unpack (P c)), Is_true_true, Hall, list_elem_of_In.
  destruct Hc as [Hc | ->]; [by apply elem_of_app; left|set_solver].
Qed.

(** [norm_strs] evaluates every closed [str] literal. *)
Ltac norm_strs :=
  repeat match goal with
  | |- context [str ?s] => let v := eval vm_compute in (str s) in change (str s) with v
  end.

Lemma ParseLength_text l t rest : (l, t) ∈ length_table → starts_conversion rest →
  ParseLength (t ++ rest) = Some (length t, l).
Proof.
  intros Hl Hr. apply (conversion_start (λ c, c ∉ str "hljztL")) in Hr as (c & r & -> & Hc); [|by vm_compute].
  assert (Hn : (c =? 104) = false ∧ (c =? 108) = false ∧ (c =? 106) = false ∧ (c =? 122) = false ∧
    (c =? 116) = false ∧ (c =? 76) = false).
  { split_and!; apply Z.eqb_neq; intros ->; apply Hc; vm_compute; set_solver. }
  destruct Hn as (H1 & H2 & H3 & H4 & H5 & H6). unfold length_table, ParseLength in *. norm_chars.
  repeat (apply elem_of_cons in Hl as [[= -> ->]|Hl];
    [norm_strs; cbn -[Z.eqb]; by rewrite ?H1, ?H2, ?H3, ?H4, ?H5, ?H6|]).
  by apply elem_of_nil in Hl.
Qed.

Lemma ParseSpecifier_known c t old : c ∈ specifiers → ParseSpecifier (c :: t) old = Some (1%nat, c).
Proof. intros Hc. unfold ParseSpecifier. cbn [lookup list_lookup mbind option_bind]. by rewrite bool_decide_eq_true_2. Qed.

(** *** Whole specifications *)

(** The last part of a scanning specification: a letter or a scan set. *)
Inductive conversion := Letter (c : Z) | ScanSet (is_neg : bool) (l : list set_item).

Definition conversion_text (k : conversion) : bytes :=
  match k with Letter c => [c] | ScanSet is_neg l => chr "[" :: set_text is_neg l end.
Definition conversion_ok (k : conversion) : Prop :=
  match k with Letter c => c ∈ specifiers | ScanSet is_neg l => set_ok is_neg l end.
Definition conversion_letter (k : conversion) : Z := match k with Letter c => c | ScanSet _ _ => chr "[" end.

(** [s] holds what the conversion says. *)
Definition reads_as (k : conversion) (s : bytes) : Prop :=
  match k with
  | Letter _ => True
  | ScanSet is_neg l => ∀ c, is_byte c → in_set s c = xorb is_neg (in_items l c)
  end.

Definition star (skip : bool) : bytes := if skip then [chr "*"] else [].

Definition scan_text (skip : bool) (w : option Z) (length_chars : bytes) (k : conversion) : bytes :=
  star skip ++ width_text w ++ length_chars ++ conversion_text k.

Lemma conversion_starts k t : conversion_ok k → starts_conversion (conversion_text k ++ t).
Proof. destruct k as [c|is_neg l]; intros Hk; eexists _, _; (split; [done|]); [by left|by right]. Qed.

Lemma length_starts l t r : (l, t) ∈ length_table → starts_conversion r → no_digit (t ++ r) ∧
  ∃ c s, t ++ r = c :: s ∧ c ≠ chr "*".
Proof.
  intros Hl Hr. apply (conversion_start (λ c, isdigit c = false ∧ c ≠ chr "*")) in Hr as (c & s & -> & Hc); [|by vm_compute].
  unfold length_table in Hl.
  repeat (apply elem_of_cons in Hl as [[= -> ->]|Hl]; [split; eexists _, _; (split; [done|]); first [by apply Hc|by vm_compute]|]).
  by apply elem_of_nil in Hl.
Qed.

Lemma ParseScanSpecifier_text k t b sk cs : conversion_ok k → specifier b = 0 →
  ∃ cs', ParseScanSpecifier (conversion_text k ++ t) (mkScanSpecification b sk cs) =
    Some (length (conversion_text k), mkScanSpecification (set_specifier (conversion_letter k) b) sk cs') ∧ reads_as k cs'.
Proof.
  intros Hk Hb. unfold ParseScanSpecifier. destruct k as [c|is_neg l]; cbn [conversion_text app conversion_letter].
  - rewrite ParseSpecifier_known by done. by exists cs.
  - destruct (ParseScanSet_spec is_neg l t Hk) as (cs' & E & Hcs').
    replace (ParseSpecifier (chr "[" :: _) _) with (Some (0%nat, 0)) by (by cbn; rewrite Hb).
    cbn [mbind option_bind lookup list_lookup drop]. rewrite Z.eqb_refl, drop_0, E. cbn [mbind option_bind].
    exists cs'. split; [|done]. cbn [length]. destruct (Nat.ltb_spec 0 (length (set_text is_neg l))) as [_|Hn].
    + do 2 f_equal. lia.
    + unfold set_text in Hn. rewrite !length_app in Hn. cbn in Hn. lia.
Qed.

Lemma width_head w r : width_ok w → (∃ c s, r = c :: s ∧ c ≠ chr "*") →
  ∃ c s, width_text w ++ r = c :: s ∧ c ≠ chr "*".
Proof.
  intros Hw Hr. destruct w as [w|]; [|done]. cbn in Hw.
  destruct (decimal_head w) as (c & s & E & Hc); [unfold limit; lia|].
  exists c, (s ++ r). cbn [width_text]. rewrite E. split; [done|]. by intros ->.
Qed.

(** A specification that is written out parses to itself, whatever follows. *)
Lemma ScanSpecification_text sk w l t k rest : width_ok w → (l, t) ∈ length_table → conversion_ok k →
  ∃ cs, ScanSpecification_Parse (scan_text sk w t k ++ rest) new_ScanSpecification =
    Some (length (scan_text sk w t k),
      mkScanSpecification (mkFormatSpecification (default (-1) w) l (conversion_letter k)) sk cs) ∧ reads_as k cs.
Proof.
  intros Hw Hl Hk. unfold scan_text. rewrite <- !(assoc_L (++)).
  destruct (length_starts l t (conversion_text k ++ rest) Hl) as [Hd Hstar]; [by apply conversion_starts|].
  destruct (width_head w _ Hw Hstar) as (c & s & Ec & Hc). unfold ScanSpecification_Parse.
  assert (Hfirst : (star sk ++ width_text w ++ t ++ conversion_text k ++ rest) !! 0%nat =
    Some (if sk then chr "*" else c)) by (destruct sk; cbn [star app]; [done|by rewrite Ec]).
  rewrite Hfirst. cbn [mbind option_bind].
  assert (Hsk : (if (if sk then chr "*" else c) =? chr "*" then (1%nat, true) else (0%nat, skip new_ScanSpecification)) =
    (length (star sk), sk)) by (destruct sk; [done|]; by rewrite (proj2 (Z.eqb_neq _ _) Hc)).
  rewrite Hsk, drop_app_length, ParseWidth_text by done. cbn [mbind option_bind].
  rewrite <- drop_drop, !drop_app_length, (ParseLength_text l) by (done || by apply conversion_starts).
  cbn [mbind option_bind]. rewrite <- !drop_drop, !drop_app_length.
  destruct (ParseScanSpecifier_text k rest (set_length l (set_width (default (-1) w) new_FormatSpecification)) sk [] Hk)
    as (cs & E & Hcs); [done|].
  cbn [scan_base new_ScanSpecification scanset] in *. change (width new_FormatSpecification) with (-1).
  rewrite E. cbn [mbind option_bind]. exists cs. split; [|done].
  destruct (Nat.eqb_spec (length (conversion_text k)) 0) as [Hn|_].
  { destruct k; cbn in Hn; lia. }
  f_equal. f_equal. rewrite !length_app. lia.
Qed.

(** *** Printing specifications *)

Definition flag_chars : bytes := str "-+ #0".

Definition flags_of (l : bytes) : Flags :=
  mkFlags (bool_decide (chr "-" ∈ l)) (bool_decide (chr "+" ∈ l)) (bool_decide (chr " " ∈ l))
    (bool_decide (chr "#" ∈ l)) (bool_decide (chr "0" ∈ l)).

(** A width or precision: nothing, a number, or a star, which stands for an
    argument. *)
Inductive amount := Unset | Number (n : Z) | Star.

Definition amount_text (a : amount) : bytes :=
  match a with Unset => [] | Number n => decimal n | Star => [chr "*"] end.
Definition amount_value (a : amount) : Z := match a with Unset => -1 | Number n => n | Star => - chr "*" end.
Definition amount_ok (low : Z) (a : amount) : Prop := match a with Number n => low <= n < 2 ^ 31 | _ => True end.

Definition precision_text (p : amount) : bytes := if p is Unset then [] else chr "." :: amount_text p.

Definition print_text (fl : bytes) (w p : amount) (length_chars : bytes) (c : Z) : bytes :=
  fl ++ amount_text w ++ precision_text p ++ length_chars ++ [c].

Definition or_flags (a b : Flags) : Flags :=
  mkFlags (left a || left b) (sign a || sign b) (space a || space b) (sharp a || sharp b) (zero a || zero b).

Lemma flags_of_cons c l : flags_of (c :: l) = or_flags (flags_of [c]) (flags_of l).
Proof.
  unfold flags_of, or_flags. cbn [left sign space sharp zero]. f_equal; rewrite <- bool_decide_or; apply bool_decide_ext; set_solver.
Qed.

Lemma or_flags_assoc a b c : or_flags (or_flags a b) c = or_flags a (or_flags b c).
Proof. unfold or_flags. cbn. by rewrite !orb_assoc. Qed.

Lemma ParseFlags_text l : ∀ c r fl n, Forall (λ c, c ∈ flag_chars) l → c ∉ flag_chars →
  ParseFlags (l ++ c :: r) fl n = Some ((n + length l)%nat, or_flags fl (flags_of l)).
Proof.
  induction l as [|a l IH]; intros c r fl n Hl Hc.
  - cbn [app length ParseFlags]. rewrite Nat.add_0_r.
    assert (Hn : (c =? 45) = false ∧ (c =? 43) = false ∧ (c =? 32) = false ∧ (c =? 35) = false ∧ (c =? 48) = false).
    { split_and!; apply Z.eqb_neq; intros ->; apply Hc; vm_compute; set_solver. }
    destruct Hn as (H1 & H2 & H3 & H4 & H5). norm_chars. rewrite H1, H2, H3, H4, H5.
    assert (or_flags fl (flags_of []) = fl) as -> by (destruct fl; unfold or_flags; cbn; by rewrite !orb_false_r).
    by destruct (c =? 0).
  - apply Forall_cons in Hl as [Ha Hl]. rewrite flags_of_cons, <- or_flags_assoc.
    cbn [app ParseFlags length]. rewrite Nat.add_succ_r. unfold flag_chars in Ha.
    replace (str "-+ #0") with [45; 43; 32; 35; 48] in Ha by done.
    repeat (apply elem_of_cons in Ha as [->|Ha];
      [norm_chars; cbn [Z.eqb Pos.eqb]; rewrite IH by done; do 2 f_equal; unfold or_flags; destruct fl; cbn;
       by rewrite ?orb_true_r, ?orb_false_r|]).
    by apply elem_of_nil in Ha.
Qed.

(** What may follow an amount. *)
Definition no_amount (t : bytes) : Prop := ∃ c r, t = c :: r ∧ isdigit c = false ∧ c ≠ chr "*".

Lemma ParsePrintWidth_text a t : amount_ok 0 a → no_amount t →
  ParsePrintWidth (amount_text a ++ t) (-1) = Some (length (amount_text a), amount_value a).
Proof.
  intros Ha (c & r & -> & Hc & Hstar). unfold ParsePrintWidth.
  assert (Hd : no_digit (c :: r)) by by exists c, r.
  destruct a as [|n|]; cbn [amount_text app amount_ok amount_value] in *.
  - pose proof (ParseWidth_text None (c :: r) (-1) I Hd) as E. cbn [width_text app] in E. rewrite E.
    cbn. by rewrite (proj2 (Z.eqb_neq _ _) Hstar).
  - pose proof (ParseWidth_text (Some n) (c :: r) (-1) Ha Hd) as E. cbn [width_text app] in E. rewrite E.
    cbn [mbind option_bind default from_option id]. destruct (Nat.ltb_spec 0 (length (decimal n))) as [_|Hn]; [done|].
    destruct (decimal_head n) as (x & s & Ex & _); [unfold limit; lia|]. rewrite Ex in Hn. cbn in Hn. lia.
  - by vm_compute.
Qed.

Lemma decimal_leads n : 1 <= n < 2 ^ 31 → ∃ c s, decimal n = c :: s ∧ 49 <= c <= 57.
Proof. intros Hn. destruct (decimal_facts n) as (_ & _ & _ & _ & Hlead); [unfold limit; lia|]. apply Hlead. lia. Qed.

(** Where the flags end. *)
Lemma flags_end w p r : amount_ok 1 w → (∃ c s, r = c :: s ∧ c ∉ flag_chars) →
  ∃ c s, amount_text w ++ precision_text p ++ r = c :: s ∧ c ∉ flag_chars.
Proof.
  assert (Hno : ∀ c, bool_decide (c ∈ flag_chars) = false → c ∉ flag_chars) by (intros c; apply bool_decide_eq_false).
  intros Hw Hr. destruct w as [|n|].
  - destruct p; cbn [amount_text precision_text app]; [done| |]; eexists _, _; (split; [done|]); by apply Hno.
  - destruct (decimal_leads n Hw) as (c & s & E & Hc). cbn [amount_text]. rewrite E. eexists _, _. split; [done|].
    unfold flag_chars. replace (str "-+ #0") with [45; 43; 32; 35; 48] by done. set_solver by lia.
  - eexists _, _. split; [done|]. by apply Hno.
Qed.

Lemma precision_no_amount p r : no_amount r → no_amount (precision_text p ++ r).
Proof. intros Hr. destruct p; [done| |]; eexists _, _; (split; [done|]); by vm_compute. Qed.

Lemma print_starts l t c rest : (l, t) ∈ length_table → c ∈ specifiers →
  starts_conversion ([c] ++ rest) ∧ no_amount (t ++ [c] ++ rest) ∧
  (∃ x s, t ++ [c] ++ rest = x :: s ∧ x ∉ flag_chars) ∧ ∃ x s, t ++ [c] ++ rest = x :: s ∧ x ≠ chr ".".
Proof.
  intros Hl Hc. assert (Hs : starts_conversion ([c] ++ rest)) by (eexists _, _; split; [done|by left]).
  split; [done|]. destruct (length_starts l t ([c] ++ rest) Hl Hs) as [(x & s & E & Hx) (y & s' & E' & Hy)].
  rewrite E in *. injection E' as <- <-.
  assert (Hx' : x ∉ flag_chars ∧ x ≠ chr ".").
  { apply (conversion_start (λ c, c ∉ flag_chars ∧ c ≠ chr ".")) in Hs as (c' & r' & Ec & Hc'); [|by vm_compute].
    injection Ec as <- <-. unfold length_table in Hl.
    repeat (apply elem_of_cons in Hl as [[= -> ->]|Hl];
      [injection E as <- <-; first [done | apply (bool_decide_unpack _); by vm_compute]|]).
    by apply elem_of_nil in Hl. }
  destruct Hx' as [Hf Hp]. split; [by eexists _, _|]. split; by eexists _, _.
Qed.

(** A printing specification that is written out parses to itself. *)
Lemma PrintSpecification_text fl w p l t c rest : Forall (λ c, c ∈ flag_chars) fl → amount_ok 1 w → amount_ok 0 p →
  (l, t) ∈ length_table → c ∈ specifiers →
  PrintSpecification_Parse (print_text fl w p t c ++ rest) new_PrintSpecification =
    Some (length (print_text fl w p t c),
      mkPrintSpecification (mkFormatSpecification (amount_value w) l c) (flags_of fl) (amount_value p)).
Proof.
  intros Hfl Hw Hp Hl Hc. unfold print_text. rewrite <- !(assoc_L (++)).
  destruct (print_starts l t c rest Hl Hc) as (Hs & Ham & Hflag & x & s & Ex & Hdot).
  destruct (flags_end w p _ Hw Hflag) as (y & r & Ey & Hy). unfold PrintSpecification_Parse.
  assert (Hw0 : amount_ok 0 w) by (destruct w; cbn in *; lia || done).
  rewrite Ey, ParseFlags_text, <- Ey by done. cbn [mbind option_bind Nat.add].
  rewrite drop_app_length, ParsePrintWidth_text by (done || by apply precision_no_amount).
  cbn [mbind option_bind]. rewrite <- drop_drop, !drop_app_length.
  set (rest' := t ++ [c] ++ rest) in *.
  assert (Hprec : ∀ q, (c0 ← (precision_text p ++ rest') !! 0%nat;
    if c0 =? chr "." then
      '(n, v) ← ParsePrintWidth (drop 1 (precision_text p ++ rest')) (-1); Some (Some n, S (q + n), v)
    else Some (None, q, -1)) =
    Some (if p is Unset then None else Some (length (amount_text p)), (q + length (precision_text p))%nat, amount_value p)).
  { intros q. destruct p as [|n|]; cbn [precision_text app lookup list_lookup mbind option_bind].
    - rewrite Ex. cbn [lookup list_lookup mbind option_bind]. rewrite (proj2 (Z.eqb_neq _ _) Hdot), Nat.add_0_r. done.
    - rewrite Z.eqb_refl. cbn [drop]. rewrite drop_0, ParsePrintWidth_text by done. cbn. do 2 f_equal. f_equal. lia.
    - rewrite Z.eqb_refl. cbn [drop]. rewrite drop_0, ParsePrintWidth_text by done. cbn. do 2 f_equal. f_equal. lia. }
  set (q := (length fl + length (amount_text w))%nat).
  assert (Hq : ∀ n, drop (q + n) (fl ++ amount_text w ++ precision_text p ++ rest') = drop n (precision_text p ++ rest')).
  { intros n. unfold q. by rewrite <- !drop_drop, !drop_app_length. }
  change (flags new_PrintSpecification) with (flags_of []). change (precision new_PrintSpecification) with (-1).
  assert (HS : drop (S q) (fl ++ amount_text w ++ precision_text p ++ rest') = drop 1 (precision_text p ++ rest')).
  { rewrite <- Hq. f_equal. lia. }
  rewrite HS. rewrite Hprec. cbn [mbind option_bind].
  rewrite bool_decide_eq_false_2 by (destruct p as [|n|]; cbn [amount_text]; [done| |done];
    destruct (decimal_head n) as (z & s' & E & _); [cbn in Hp; unfold limit; lia|rewrite E; done]).
  rewrite Hq, drop_app_length. replace rest' with (t ++ [c] ++ rest) at 1 by done.
  rewrite (ParseLength_text l) by done. cbn [mbind option_bind].
  rewrite <- Nat.add_assoc, Hq, <- drop_drop, drop_app_length. unfold rest'. rewrite drop_app_length.
  cbn [app]. unfold ParsePrintSpecifier. rewrite ParseSpecifier_known by done. cbn [mbind option_bind Nat.eqb].
  rewrite !length_app. unfold q. apply (f_equal Some), f_equal2; [cbn [length]; lia|]. by destruct (flags_of fl).
Qed.

(** A specification that is written out, with or without a star or flags,
    with any width, precision, length modifier and conversion, parses to its
    parts and to its length, whatever follows it; a scan set parses to the
    characters and ranges it lists, or to all others after a caret. *)
Theorem specifications_read_back :
  (∀ sk w l t k rest, width_ok w → (l, t) ∈ length_table → conversion_ok k →
    ∃ cs, ScanSpecification_Parse (scan_text sk w t k ++ rest) new_ScanSpecification =
      Some (length (scan_text sk w t k),
        mkScanSpecification (mkFormatSpecification (default (-1) w) l (conversion_letter k)) sk cs) ∧ reads_as k cs) ∧
  (∀ fl w p l t c rest, Forall (λ c, c ∈ flag_chars) fl → amount_ok 1 w → amount_ok 0 p →
    (l, t) ∈ length_table → c ∈ specifiers →
    PrintSpecification_Parse (print_text fl w p t c ++ rest) new_PrintSpecification =
      Some (length (print_text fl w p t c),
        mkPrintSpecification (mkFormatSpecification (amount_value w) l c) (flags_of fl) (amount_value p))).
Proof. split; [exact ScanSpecification_text|exact PrintSpecification_text]. Qed.

Lemma specifications_read_back_witness :
  PrintSpecification_Parse (str "-08.3lf m" ++ [0]) new_PrintSpecification =
    Some (7%nat, mkPrintSpecification (mkFormatSpecification 8 (chr "l") (chr "f"))
      (mkFlags true false false false true) 3).
Proof.
  refine (proj2 specifications_read_back (str "-0") (Number 8) (Number 3) (chr "l") (str "l") (chr "f")
    (str " m" ++ [0]) _ _ _ _ _); try (apply (bool_decide_unpack _); vm_compute; exact I); vm_compute; intuition congruence.
Defined.

(** The modifier z is printed as t. *)
Example length_z_is_t : LengthToString (mkFormatSpecification (-1) (chr "z") (chr "u")) = Some (str "t").
Proof. by vm_compute. Qed.
