(* ===== verification/Scan.v ===== *)
(** * Scanning text by a format

    Model of base/string/format/scan_arg.h, scan_arg.cpp, vscan.cpp and the
    overloads of scan.cpp: [StringScan], a type-safe [sscanf].

    A [const char*] is the list of the bytes it may still read, the final NUL
    included.  The arguments are pointers, which may be equal: an argument is
    its type and an address of the memory, a map from addresses to values.
    [None] is undefined behaviour (reading past the NUL, using an argument
    that was not given) or a loop that never ends.  [long] and [long long]
    are both 64 bits; [isspace] is that of the C locale; [errno] is not part of
    the state, since every call that looks at it clears it before.  The
    conversion of floating-point text is the C library's, of which only the
    number of characters used matters here. *)

From S2P Require Import Prelude CType ByteSet Number Specification.

(** ** Arguments *)

Inductive float_type := Float | Double | LongDouble.

(** [strtof], [strtod] and [strtold] on a string without its NUL: the value
    and [endptr - str]. *)
Class FloatLibrary := {
  float_value : Type;
  strto_float : float_type → bytes → float_value * nat;
  strto_float_used k s : (snd (strto_float k s) <= length s)%nat
}.

Inductive arg_type := TBool | TChar | TInt (t : int_type) | TFloat (k : float_type) | TString | TPointer.

Definition t_schar := mkInt true 8.
Definition t_uchar := mkInt false 8.
Definition t_short := mkInt true 16.
Definition t_ushort := mkInt false 16.

Section Scan.
Context {F : FloatLibrary}.

Inductive value := VBool (b : bool) | VChar (c : Z) | VInt (n : Z) | VFloat (x : float_value)
  | VString (s : bytes) | VPointer (n : Z).

(** ** Parsing one value

    The number of characters used, 0 for failure, and the value stored
    through the pointer, if any. *)

Definition ScanSetContainsChar (cs : bytes) (c : Z) : bool :=
  match cs !! Z.to_nat (c / CHAR_BIT) with
  | Some w => negb (Z.land w (Z.shiftl 1 (c mod CHAR_BIT)) =? 0)
  | None => false
  end.

(** The pointer moved, as a number of characters. *)
Fixpoint SkipLeadingSpaces (s : bytes) : option nat :=
  match s with
  | [] => None
  | c :: s => if (negb (c =? 0) && isspace c)%bool then S <$> SkipLeadingSpaces s else Some 0%nat
  end.

Definition ParseVoidPtr (s : bytes) (spec : ScanSpecification) : option (nat * option value) :=
  if negb (SpecifierMatch (scan_base spec) (chr "p")) then Some (0%nat, None)
  else let '(n, used, _) := strtoul (before_nul s) 16 in Some (used, Some (VPointer n)).

(** [strncmp(s, w, strlen(w)) == 0]: the comparison ends at a NUL. *)
Definition starts_word (w s : bytes) : bool := bool_decide (take (length w) s = w).

Definition ParseBool (s : bytes) (spec : ScanSpecification) : option (nat * option value) :=
  if negb (SpecifierMatch (scan_base spec) (chr "b")) then Some (0%nat, None)
  else
    i ← SkipLeadingSpaces s;
    let p := drop i s in
    c ← p !! 0%nat;
    if c =? chr "1" then Some (S i, Some (VBool true))
    else if c =? chr "0" then Some (S i, Some (VBool false))
    else if starts_word (str "true") p then Some ((i + 4)%nat, Some (VBool true))
    else if starts_word (str "false") p then Some ((i + 5)%nat, Some (VBool false))
    else Some (0%nat, None).

Definition ParseChar (s : bytes) (spec : ScanSpecification) : option (nat * option value) :=
  if negb (SpecifierMatch (scan_base spec) (chr "c")) then Some (0%nat, None)
  else c ← s !! 0%nat; Some (1%nat, Some (VChar c)).

(** The conversion of a [long] or [unsigned long] to the type. *)
Definition convert (t : int_type) (n : Z) : Z :=
  if signed t then (n + 2 ^ (bits t - 1)) mod 2 ^ bits t - 2 ^ (bits t - 1) else n mod 2 ^ bits t.

Definition store_int (t : int_type) (r : Z * nat * bool) : nat * option value :=
  let '(n, used, err) := r in
  if (err : bool) then (0%nat, None)
  else let v := convert t n in if negb (v =? n) then (0%nat, None) else (used, Some (VInt v)).

Definition ParseSigned (t : int_type) (s : bytes) (spec : ScanSpecification) : option (nat * option value) :=
  let c := specifier (scan_base spec) in
  let parse base := Some (store_int t (strtol (before_nul s) base)) in
  if ((c =? chr "v") || (c =? chr "i"))%bool then parse 0
  else if c =? chr "d" then parse 10
  else if ((c =? chr "x") || (c =? chr "X"))%bool then parse 16
  else if c =? chr "o" then parse 8
  else Some (0%nat, None).

Definition ParseUnsigned (t : int_type) (s : bytes) (spec : ScanSpecification) : option (nat * option value) :=
  let c := specifier (scan_base spec) in
  let parse base := Some (store_int t (strtoul (before_nul s) base)) in
  if ((c =? chr "v") || (c =? chr "i"))%bool then parse 0
  else if ((c =? chr "d") || (c =? chr "u"))%bool then parse 10
  else if ((c =? chr "x") || (c =? chr "X"))%bool then parse 16
  else if c =? chr "o" then parse 8
  else Some (0%nat, None).

Definition ParseFloat (k : float_type) (s : bytes) (spec : ScanSpecification) : option (nat * option value) :=
  if negb (SpecifierMatch_any (scan_base spec) (str "aefgAEFG")) then Some (0%nat, None)
  else
    i ← SkipLeadingSpaces s;
    let '(v, used) := strto_float k (before_nul (drop i s)) in
    if (used =? 0)%nat then Some (0%nat, None) else Some ((i + used)%nat, Some (VFloat v)).

(** The length modifier each type of number takes. *)
Definition ParseFloating (k : float_type) (s : bytes) (spec : ScanSpecification) : option (nat * option value) :=
  let l := flength (scan_base spec) in
  let allowed := match k with Float => l =? 0 | Double => (l =? 0) || (l =? chr "l")
                 | LongDouble => (l =? 0) || (l =? chr "L") end in
  if allowed then ParseFloat k s spec else Some (0%nat, None).

(** [while ( *last != 0 && p( *last)) ++last;] from [last] on. *)
Fixpoint field_end (p : Z → bool) (last : bytes) : option nat :=
  match last with
  | [] => None
  | c :: last => if (negb (c =? 0) && p c)%bool then S <$> field_end p last else Some 0%nat
  end.

Definition ParseString (s : bytes) (spec : ScanSpecification) : option (nat * option value) :=
  let c := specifier (scan_base spec) in
  let assign first n :=
    if (n =? 0)%nat then Some (0%nat, None)
    else Some ((first + n)%nat, Some (VString (take n (drop first s)))) in
  if ((c =? chr "s") || (c =? chr "v"))%bool then
    first ← SkipLeadingSpaces s; n ← field_end (λ c, negb (isspace c)) (drop first s); assign first n
  else if c =? chr "[" then n ← field_end (ScanSetContainsChar (scanset spec)) s; assign 0%nat n
  else Some (0%nat, None).

(** [ScanValueParser<T>::Parse], which [m_parse] points to. *)
Definition ScanValueParser_Parse (t : arg_type) (s : bytes) (spec : ScanSpecification) : option (nat * option value) :=
  match t with
  | TBool => ParseBool s spec
  | TChar => ParseChar s spec
  | TInt t => if signed t then ParseSigned t s spec else ParseUnsigned t s spec
  | TFloat k => ParseFloating k s spec
  | TString => ParseString s spec
  | TPointer => ParseVoidPtr s spec
  end.

(** The type of the variable a suppressed field is read into. *)
Definition skipped_type (spec : ScanSpecification) : option arg_type :=
  let c := specifier (scan_base spec) in
  let l := flength (scan_base spec) in
  if c =? chr "c" then Some TChar
  else if ((c =? chr "d") || (c =? chr "i"))%bool then
    Some (TInt (if l =? chr "h" then t_short else if l =? chr "l" then t_long
      else if l =? kFormatLengthHH then t_schar else t_long))
  else if ((c =? chr "u") || (c =? chr "o") || (c =? chr "x"))%bool then
    Some (TInt (if l =? chr "h" then t_ushort else if l =? chr "l" then t_ulong
      else if l =? kFormatLengthHH then t_uchar else t_ulong))
  else if bool_decide (c ∈ str "AEFGaefg") then
    Some (TFloat (if l =? chr "l" then Double else LongDouble))
  else if c =? chr "p" then Some TPointer
  else if ((c =? chr "s") || (c =? chr "["))%bool then Some TString
  else None.

Definition ParseSkipped (s : bytes) (spec : ScanSpecification) : option nat :=
  match skipped_type spec with
  | Some t => fst <$> ScanValueParser_Parse t s spec
  | None => Some 0%nat
  end.

(** ** Scanning *)

(** An argument: its type and the address its pointer holds. *)
Abbreviation arg := (arg_type * nat)%type.
Definition memory : Type := gmap nat value.

Definition store (p : nat) (v : option value) (m : memory) : memory :=
  match v with Some v => <[p := v]> m | None => m end.

Definition FormatScanArg_Parse (a : arg) (s : bytes) (spec : ScanSpecification) (m : memory) : option (nat * memory) :=
  '(n, v) ← ScanValueParser_Parse a.1 s spec; Some (n, store a.2 v m).

(** [n] is written in decimal and read back. *)
Definition WriteInt (a : arg) (n : Z) (spec : ScanSpecification) (m : memory) : option (bool * memory) :=
  let new_spec := mkScanSpecification (set_specifier (chr "d") (scan_base spec)) (skip spec) (scanset spec) in
  '(used, m) ← FormatScanArg_Parse a (IntegerToString_buffer t_int (s32 n)) new_spec m;
  Some ((0 <? used)%nat, m).

(** [pos] is [s - string]. *)
Fixpoint vscan_loop (fuel : nat) (f s : bytes) (pos : nat) (args : list arg) (ai : nat) (success_count : Z)
    (m : memory) : option (Z * memory) :=
  match fuel with
  | O => None
  | S fuel =>
      c ← f !! 0%nat;
      if c =? 0 then Some (success_count, m)
      else if c =? chr "%" then
        d ← f !! 1%nat;
        if d =? 0 then Some (-1, m)
        else if d =? chr "%" then
          x ← s !! 0%nat;
          if x =? chr "%" then vscan_loop fuel (drop 2 f) (drop 1 s) (pos + 1) args ai success_count m
          else Some (success_count, m)
        else
          '(fw, spec) ← ScanSpecification_Parse (drop 1 f) new_ScanSpecification;
          if (fw =? 0)%nat then Some (success_count, m)
          else
            '(success, sw, ai, success_count, m) ←
              (if skip spec then
                 sw ← ParseSkipped s spec; Some ((0 <? sw)%nat, sw, ai, success_count, m)
               else if specifier (scan_base spec) =? chr "n" then
                 a ← args !! ai;
                 '(success, m) ← WriteInt a (Z.of_nat pos) spec m;
                 Some (success, 0%nat, ai, if (success : bool) then success_count + 1 else success_count, m)
               else
                 a ← args !! ai;
                 '(sw, m) ← FormatScanArg_Parse a s spec m;
                 if (0 <? sw)%nat then Some (true, sw, S ai, success_count + 1, m)
                 else Some (false, sw, ai, success_count, m));
            if (success : bool)
            then vscan_loop fuel (drop (1 + fw) f) (drop sw s) (pos + sw) args ai success_count m
            else Some (success_count, m)
      else
        x ← s !! 0%nat;
        if x =? c then vscan_loop fuel (drop 1 f) (drop 1 s) (pos + 1) args ai success_count m
        else Some (success_count, m)
  end.

(** Every round moves [f] on, so that the length of the format is fuel
    enough.  Arguments that are left over are only logged. *)
Definition StringVScan (string format : bytes) (args : list arg) (m : memory) : option (Z * memory) :=
  vscan_loop (length format) format string 0 args 0 0 m.

(** The C string a [std::string] or a literal gives. *)
Definition c_string_of (s : bytes) : bytes := before_nul s ++ [0].

Definition StringScan (string format : bytes) (args : list arg) (m : memory) : option (Z * memory) :=
  StringVScan (c_string_of string) (c_string_of format) args m.

(** ** Staying inside the strings *)

(** A C string with its NUL. *)
Definition ends (s : bytes) : Prop := ∃ t, s = t ++ [0] ∧ Forall (λ c, c ≠ 0) t.

Lemma before_nul_ends s : ends s → s = before_nul s ++ [0] ∧ length s = S (length (before_nul s)).
Proof.
  intros (t & -> & Ht). assert (before_nul (t ++ [0]) = t) as ->.
  { by rewrite before_nul_app, app_nil_r by done. }
  split; [done|]. rewrite length_app. cbn. lia.
Qed.

Lemma ends_cons c s : ends (c :: s) → c = 0 ∧ s = [] ∨ c ≠ 0 ∧ ends s.
Proof.
  intros (t & E & Ht). destruct t as [|x t]; cbn in E; simplify_eq; [by left|].
  apply Forall_cons in Ht as [Hc Ht]. right. split; [done|]. by exists t.
Qed.

Lemma ends_nonempty s : ends s → ∃ c r, s = c :: r.
Proof. intros (t & -> & _). destruct t; by eexists _, _. Qed.

Lemma ends_drop n s : ends s → (n < length s)%nat → ends (drop n s).
Proof.
  intros (t & -> & Ht) Hn. rewrite length_app in Hn. cbn in Hn. exists (drop n t).
  rewrite drop_app_le by lia. split; [done|]. by apply Forall_drop.
Qed.

Lemma scan_digits_used base s : ∀ acc n, (snd (scan_digits base s acc n) <= n + length s)%nat.
Proof.
  induction s as [|c s IH]; intros acc n; cbn [scan_digits snd length]; [lia|].
  destruct (digit_value c) as [d|]; [|cbn; lia]. destruct (d <? base); [|cbn; lia].
  etransitivity; [apply IH|lia].
Qed.

Lemma skip_spaces_used s : (skip_spaces s <= length s)%nat.
Proof. induction s as [|c s IH]; cbn; [lia|]. destruct (isspace c); lia. Qed.

Lemma scan_number_used s base : (snd (scan_number s base) <= length s)%nat.
Proof.
  unfold scan_number. set (ws := skip_spaces s). assert (Hws : (ws <= length s)%nat) by apply skip_spaces_used.
  set (sg := match drop ws s with c :: _ => if c =? 45 then (true, 1%nat) else if c =? 43 then (false, 1%nat) else (false, 0%nat)
    | [] => (false, 0%nat) end).
  assert (Hsg : (snd sg <= length (drop ws s))%nat) by (unfold sg; repeat case_match; cbn; lia).
  destruct sg as [neg k]. cbn [snd] in Hsg.
  set (bp := if (((base =? 0) || (base =? 16)) && hex_prefix (drop k (drop ws s)))%bool then (16, 2%nat) else _).
  assert (Hbp : (snd bp <= length (drop k (drop ws s)))%nat).
  { unfold bp. destruct (_ && hex_prefix _)%bool eqn:E; [|destruct (base =? 0); cbn; lia].
    apply andb_true_iff in E as [_ E]. destruct (drop k (drop ws s)) as [|a [|b [|c r]]]; cbn in *; (done || lia). }
  destruct bp as [b px]. cbn [snd] in Hbp.
  pose proof (scan_digits_used b (drop px (drop k (drop ws s))) 0 0) as Hd.
  destruct (scan_digits b _ 0 0) as [v n]. cbn [snd] in Hd. rewrite !length_drop in *.
  destruct (n =? 0)%nat; cbn; lia.
Qed.

Lemma strtol_used s base : (snd (fst (strtol s base)) <= length s)%nat.
Proof.
  pose proof (scan_number_used s base) as H. unfold strtol. destruct (scan_number s base) as [[neg v] n].
  repeat case_match; exact H.
Qed.

Lemma strtoul_used s base : (snd (fst (strtoul s base)) <= length s)%nat.
Proof.
  pose proof (scan_number_used s base) as H. unfold strtoul. destruct (scan_number s base) as [[neg v] n].
  repeat case_match; exact H.
Qed.

Lemma store_int_used t r : (fst (store_int t r) <= snd (fst r))%nat.
Proof. destruct r as [[n used] err]. unfold store_int. destruct err; [cbn; lia|]. destruct (negb _); cbn; lia. Qed.

Lemma SkipLeadingSpaces_ends s : ends s → ∃ n, SkipLeadingSpaces s = Some n ∧ (n < length s)%nat.
Proof.
  induction s as [|c s IH]; intros Hs; [by destruct (ends_nonempty _ Hs) as (? & ? & ?)|].
  cbn [SkipLeadingSpaces length]. destruct (ends_cons _ _ Hs) as [[-> ->]|[Hc Hs']]; [by exists 0%nat; split; [|cbn; lia]|].
  destruct (_ && _)%bool; [|exists 0%nat; split; [done|lia]].
  destruct (IH Hs') as (n & -> & Hn). exists (S n). split; [done|lia].
Qed.

Lemma field_end_ends p s : ends s → ∃ n, field_end p s = Some n ∧ (n < length s)%nat.
Proof.
  induction s as [|c s IH]; intros Hs; [by destruct (ends_nonempty _ Hs) as (? & ? & ?)|].
  cbn [field_end length]. destruct (ends_cons _ _ Hs) as [[-> ->]|[Hc Hs']]; [by exists 0%nat; split; [|cbn; lia]|].
  destruct (_ && _)%bool; [|exists 0%nat; split; [done|lia]].
  destruct (IH Hs') as (n & -> & Hn). exists (S n). split; [done|lia].
Qed.

(** What a value's parser used is before the NUL. *)
Definition inside (s : bytes) (r : option (nat * option value)) : Prop :=
  ∃ n v, r = Some (n, v) ∧ (n < length s)%nat.

Lemma inside_none s : ends s → inside s (Some (0%nat, None)).
Proof. intros (c & r & ->)%ends_nonempty. exists 0%nat, None. split; [done|]. cbn. lia. Qed.

Lemma inside_int s t r : ends s → (snd (fst r) <= length (before_nul s))%nat → inside s (Some (store_int t r)).
Proof.
  intros Hs Hr. destruct (before_nul_ends s Hs) as [_ Hl]. pose proof (store_int_used t r).
  destruct (store_int t r) as [n v]. exists n, v. split; [done|]. cbn in *. lia.
Qed.

Lemma starts_word_fits w s : ends s → starts_word w s = true → Forall (λ c, c ≠ 0) w → (length w < length s)%nat.
Proof.
  intros (t & -> & Ht) E%bool_decide_eq_true Hw. assert (Hl : length (take (length w) (t ++ [0])) = length w) by by rewrite E.
  rewrite length_take, length_app in *. cbn [length] in *. destruct (decide (length w = length t + 1)%nat) as [Heq|]; [|lia].
  exfalso. rewrite take_ge in E by (rewrite length_app; cbn; lia). rewrite <- E in Hw.
  apply Forall_app in Hw as [_ Hw]. by apply Forall_cons in Hw as [? _].
Qed.

Lemma ParseBool_inside s spec : ends s → inside s (ParseBool s spec).
Proof.
  intros Hs. unfold ParseBool. destruct (negb _); [by apply inside_none|].
  destruct (SkipLeadingSpaces_ends s Hs) as (i & -> & Hi). cbn [mbind option_bind].
  pose proof (ends_drop i s Hs Hi) as Hd. destruct (ends_nonempty _ Hd) as (c & r & E). rewrite E.
  cbn [lookup list_lookup mbind option_bind]. rewrite <- E.
  assert (Hw : ∀ w, starts_word w (drop i s) = true → Forall (λ c, c ≠ 0) w → (i + length w < length s)%nat).
  { intros w Hsw Hnz. pose proof (starts_word_fits w _ Hd Hsw Hnz) as Hl. rewrite length_drop in Hl. lia. }
  assert (Hc : c ≠ 0 → (S i < length s)%nat).
  { intros Hc. rewrite E in Hd. apply ends_cons in Hd as [[-> _]|[_ Hr]]; [done|].
    apply (f_equal length) in E. rewrite length_drop in E. destruct (ends_nonempty _ Hr) as (? & ? & ->). cbn in E. lia. }
  destruct (Z.eqb_spec c (chr "1")) as [->|_]; [by eexists _, _; split; [done|apply Hc]|].
  destruct (Z.eqb_spec c (chr "0")) as [->|_]; [by eexists _, _; split; [done|apply Hc]|].
  destruct (starts_word (str "true") _) eqn:Et; [eexists _, _; split; [done|]; apply (Hw _ Et); by repeat constructor|].
  destruct (starts_word (str "false") _) eqn:Ef; [eexists _, _; split; [done|]; apply (Hw _ Ef); by repeat constructor|].
  by apply inside_none.
Qed.

Lemma ParseString_inside s spec : ends s → inside s (ParseString s spec).
Proof.
  intros Hs. unfold ParseString. destruct (_ || _)%bool; [|destruct (_ =? _); [|by apply inside_none]].
  - destruct (SkipLeadingSpaces_ends s Hs) as (i & -> & Hi). cbn [mbind option_bind].
    destruct (field_end_ends (λ c, negb (isspace c)) _ (ends_drop i s Hs Hi)) as (n & -> & Hn). cbn [mbind option_bind].
    destruct (n =? 0)%nat; [by apply inside_none|]. eexists _, _. split; [done|]. rewrite length_drop in Hn. lia.
  - destruct (field_end_ends (ScanSetContainsChar (scanset spec)) s Hs) as (n & -> & Hn). cbn [mbind option_bind].
    destruct (n =? 0)%nat; [by apply inside_none|]. by eexists _, _.
Qed.

Lemma ParseFloating_inside k s spec : ends s → inside s (ParseFloating k s spec).
Proof.
  intros Hs. unfold ParseFloating. destruct (match k with Float => _ | Double => _ | LongDouble => _ end); [|by apply inside_none].
  unfold ParseFloat. destruct (negb _); [by apply inside_none|].
  destruct (SkipLeadingSpaces_ends s Hs) as (i & -> & Hi). cbn [mbind option_bind].
  pose proof (strto_float_used k (before_nul (drop i s))) as Hu.
  destruct (before_nul_ends _ (ends_drop i s Hs Hi)) as [_ Hl]. rewrite length_drop in Hl.
  destruct (strto_float _ _) as [v used]. cbn [snd] in Hu. destruct (used =? 0)%nat; [by apply inside_none|].
  eexists _, _. split; [done|]. lia.
Qed.

(** Every type but [char] leaves the NUL unread. *)
Lemma ScanValueParser_inside t s spec : ends s → t ≠ TChar → inside s (ScanValueParser_Parse t s spec).
Proof.
  intros Hs Ht. destruct t as [| |t|k| |]; cbn [ScanValueParser_Parse]; [by apply ParseBool_inside|done| | | |].
  - destruct (signed t); unfold ParseSigned, ParseUnsigned;
      repeat case_match; first [by apply inside_none | apply inside_int; [done|]; first [apply strtol_used|apply strtoul_used]].
  - by apply ParseFloating_inside.
  - by apply ParseString_inside.
  - unfold ParseVoidPtr. destruct (negb _); [by apply inside_none|].
    pose proof (strtoul_used (before_nul s) 16) as Hu. destruct (strtoul _ 16) as [[n used] err].
    eexists _, _. split; [done|]. destruct (before_nul_ends s Hs) as [_ Hl]. cbn in Hu. lia.
Qed.

(** ** Formats *)

Lemma range_loop_total fuel cs c last value :
  - 128 <= c < 128 → last < 127 → (Z.to_nat (last - c + 1) < fuel)%nat → is_Some (range_loop fuel cs c last value).
Proof.
  revert cs c. induction fuel as [|fuel IH]; intros cs c Hc Hl Hf; [lia|]. cbn [range_loop].
  destruct (Z.leb_spec c last); [|done]. rewrite s8_small by lia. apply IH; lia.
Qed.

Lemma range_total cs a b value : is_byte b → b ≠ 127 → is_Some (ScanSetSetCharRange cs a b value).
Proof.
  intros Hb Hne. unfold ScanSetSetCharRange. pose proof (s8_range a). pose proof (s8_range b).
  assert (s8 b ≠ 127). { rewrite s8_byte by done. unfold is_byte in Hb. case_ztest; lia. }
  apply range_loop_total; lia.
Qed.

(** A format without the character DEL, in which no range can end. *)
Definition no_del (f : bytes) : Prop := bytes_ok f ∧ 127 ∉ f.

Lemma no_del_drop n f : no_del f → no_del (drop n f).
Proof.
  intros [Hf Hd]. split; [by apply Forall_drop|]. intros Hin. apply Hd. rewrite <- (take_drop n f). set_solver.
Qed.

Lemma scan_set_loop_total neg : ∀ fuel i f cs, ends f → no_del f → (length f <= fuel)%nat →
  ∃ n cs', scan_set_loop fuel neg i f cs = Some (n, cs') ∧ (n < i + length f)%nat.
Proof.
  induction fuel as [|fuel IH]; intros i f cs He Hd Hf; destruct (ends_nonempty _ He) as (c & r & ->); [cbn in Hf; lia|].
  cbn [scan_set_loop lookup list_lookup mbind option_bind length] in *.
  destruct (ends_cons _ _ He) as [[-> ->]|[Hc Hr]].
  { exists 0%nat, cs. destruct (256 <? i)%nat; (split; [done|cbn; lia]). }
  destruct (ends_nonempty _ Hr) as (d & r' & ->).
  destruct (Z.eqb_spec c (chr "]")) as [->|Hbr]; [by exists (S i), cs; split; [|cbn; lia]|].
  destruct (256 <? i)%nat; [exists 0%nat, cs; split; [done|lia]|].
  rewrite (proj2 (Z.eqb_neq _ _) Hc). cbn [lookup list_lookup mbind option_bind drop]. rewrite ?drop_0.
  assert (Hsingle : ∀ cs, ∃ n cs', scan_set_loop fuel neg (i + 1) (d :: r') cs = Some (n, cs') ∧ (n < i + S (length (d :: r')))%nat).
  { intros cs0. destruct (IH (i + 1)%nat (d :: r') cs0) as (n & cs' & E & Hn); [done|apply (no_del_drop 1 _ Hd)|cbn in *; lia|].
    exists n, cs'. split; [done|lia]. }
  destruct (Z.eqb_spec d (chr "-")) as [->|_]; [|apply Hsingle].
  destruct (ends_cons _ _ Hr) as [[Habs _]|[_ Hr']]; [done|]. destruct (ends_nonempty _ Hr') as (e & r'' & ->).
  cbn [lookup list_lookup mbind option_bind].
  destruct (Z.eqb_spec e 0) as [->|He0]; cbn [negb andb]; [apply Hsingle|].
  destruct (Z.eqb_spec e (chr "]")) as [->|Heb]; cbn [negb andb]; [apply Hsingle|].
  destruct (range_total cs c e (negb neg)) as [cs1 ->].
  { destruct Hd as [Hb _]. by repeat (apply bytes_ok_cons in Hb as [? Hb]). }
  { intros ->. apply Hd. set_solver. }
  cbn [mbind option_bind drop]. rewrite ?drop_0. destruct (ends_cons _ _ Hr') as [[Habs _]|[_ Hr'']]; [done|].
  destruct (IH (i + 3)%nat r'' cs1) as (n & cs' & E & Hn); [done|apply (no_del_drop 3 _ Hd)|cbn in *; lia|].
  exists n, cs'. split; [done|]. cbn in *. lia.
Qed.

Lemma ParseScanSet_total f : ends f → no_del f → ∃ n cs, ParseScanSet f = Some (n, cs) ∧ (n < length f)%nat.
Proof.
  intros He Hd. unfold ParseScanSet. destruct (ends_nonempty _ He) as (c & r & ->).
  cbn [lookup list_lookup mbind option_bind]. destruct (Z.eqb_spec c (chr "^")) as [->|_].
  - destruct (ends_cons _ _ He) as [[Habs _]|[_ Hr]]; [done|]. cbn [drop]. rewrite drop_0.
    apply scan_set_loop_total; [done|apply (no_del_drop 1 _ Hd)|cbn; lia].
  - rewrite drop_0. apply scan_set_loop_total; [done|done|cbn; lia].
Qed.

Lemma ParseWidth_total f w : ends f → ∃ n w', ParseWidth f w = Some (n, w') ∧ (n < length f)%nat.
Proof.
  intros He. unfold ParseWidth. destruct (before_nul_ends f He) as [_ Hl]. pose proof (strtoul_used (before_nul f) 10) as Hu.
  destruct (ends_nonempty _ He) as (c & r & Ef).
  assert (f !! 0%nat = Some c) as -> by (by rewrite Ef). cbn [mbind option_bind].
  destruct (isdigit c); cbn [negb]; [|exists 0%nat; eexists; split; [done|lia]].
  destruct (strtoul _ 10) as [[n used] err]. cbn [fst snd] in Hu.
  destruct (s32 n <? 0); eexists _, _; (split; [done|lia]).
Qed.

Lemma ParseLength_total f : ends f → ∃ n l, ParseLength f = Some (n, l) ∧ (n < length f)%nat.
Proof.
  intros He. unfold ParseLength. destruct (ends_nonempty _ He) as (c & r & ->). cbn [lookup list_lookup mbind option_bind length].
  destruct (ends_cons _ _ He) as [[-> ->]|[Hc Hr]]; [by exists 0%nat, 0; split; [|cbn; lia]|].
  destruct (ends_nonempty _ Hr) as (d & r' & ->). cbn [lookup list_lookup mbind option_bind length].
  destruct (_ || _)%bool eqn:E; [|destruct (_ || _ || _ || _)%bool; eexists _, _; (split; [done|lia])].
  destruct (Z.eqb_spec d c) as [->|_]; [|eexists _, _; split; [done|lia]].
  destruct (ends_cons _ _ Hr) as [[-> _]|[_ Hr']]; [done|]. destruct (ends_nonempty _ Hr') as (e & r'' & ->).
  eexists _, _. split; [done|cbn; lia].
Qed.

Lemma specifiers_nonzero c : c ∈ specifiers → c ≠ 0.
Proof. intros Hc ->. assert (H : 0 ∉ specifiers) by (apply (bool_decide_unpack _); by vm_compute). done. Qed.

Lemma ends_second c r : ends (c :: r) → c ≠ 0 → (1 < length (c :: r))%nat.
Proof. intros He Hc. destruct (ends_cons _ _ He) as [[? _]|[_ Hr]]; [done|]. destruct (ends_nonempty _ Hr) as (? & ? & ->). cbn. lia. Qed.

Lemma ParseScanSpecifier_total f spec : ends f → no_del f → specifier (scan_base spec) = 0 →
  ∃ n spec', ParseScanSpecifier f spec = Some (n, spec') ∧ (n < length f)%nat ∧ skip spec' = skip spec ∧
    (specifier (scan_base spec') = chr "c" → chr "c" ∈ f).
Proof.
  intros He Hd H0. unfold ParseScanSpecifier, ParseSpecifier. destruct (ends_nonempty _ He) as (c & r & ->).
  cbn [lookup list_lookup mbind option_bind]. destruct (bool_decide (c ∈ specifiers)) eqn:Ec.
  { apply bool_decide_eq_true, specifiers_nonzero in Ec. cbn [mbind option_bind Nat.ltb Nat.leb].
    eexists _, _. split; [done|]. split; [by apply ends_second|]. split; [done|]. cbn. intros ->. set_solver. }
  cbn [mbind option_bind lookup list_lookup]. change (0 <? 0)%nat with false. cbn beta iota.
  destruct (Z.eqb_spec c (chr "[")) as [->|_]; [|eexists _, _; split_and!; [done|cbn; lia|done|by rewrite H0]].
  cbn [drop]. rewrite ?drop_0. destruct (ends_cons _ _ He) as [[Habs _]|[_ Hr]]; [done|].
  destruct (ParseScanSet_total r Hr (no_del_drop 1 _ Hd)) as (n & cs & -> & Hn). cbn [mbind option_bind].
  destruct (Nat.ltb_spec 0 n); eexists _, _; (split_and!; [done|cbn; lia|done|cbn; by rewrite ?H0]).
Qed.

Lemma ScanSpecification_total f : ends f → no_del f →
  ∃ n spec, ScanSpecification_Parse f new_ScanSpecification = Some (n, spec) ∧ (n < length f)%nat ∧
    (skip spec = true → chr "*" ∈ f) ∧ (specifier (scan_base spec) = chr "c" → chr "c" ∈ f).
Proof.
  intros He Hd. unfold ScanSpecification_Parse. destruct (ends_nonempty _ He) as (c & r & Ef).
  assert (f !! 0%nat = Some c) as -> by (by rewrite Ef). cbn [mbind option_bind].
  set (p := if c =? chr "*" then (1%nat, true) else (0%nat, skip new_ScanSpecification)).
  assert (Hp : (fst p < length f)%nat ∧ (snd p = true → chr "*" ∈ f)).
  { unfold p. destruct (Z.eqb_spec c (chr "*")) as [->|_]; cbn [fst snd]; split; try done; rewrite Ef in *.
    - by apply ends_second. - set_solver. - cbn. lia. }
  destruct p as [i sk]. cbn [fst snd] in Hp. destruct Hp as [Hi Hsk].
  destruct (ParseWidth_total (drop i f) (width (scan_base new_ScanSpecification))) as (n & w & -> & Hn); [by apply ends_drop|].
  cbn [mbind option_bind]. rewrite length_drop in Hn.
  destruct (ParseLength_total (drop (i + n) f)) as (n' & l & -> & Hn'); [apply ends_drop; [done|lia]|].
  cbn [mbind option_bind]. rewrite length_drop in Hn'.
  destruct (ParseScanSpecifier_total (drop (i + n + n') f) (mkScanSpecification
    (set_length l (set_width w (scan_base new_ScanSpecification))) sk (scanset new_ScanSpecification)))
    as (n'' & spec & -> & Hn'' & Hskip & Hc); [apply ends_drop; [done|lia]|by apply no_del_drop|done|].
  rewrite length_drop in Hn''. cbn [mbind option_bind].
  assert (Hin : ∀ x, x ∈ drop (i + n + n') f → x ∈ f) by (intros x Hx; rewrite <- (take_drop (i + n + n') f); set_solver).
  cbn [skip] in Hskip. destruct (Nat.eqb_spec n'' 0); eexists _, _;
    (split_and!; [done|lia|rewrite Hskip; done|intros E; by apply Hin, Hc]).
Qed.

(** ** Scanning is defined *)

Definition percents (f : bytes) : nat := length (filter (λ c, c = chr "%") f).

Lemma percents_drop n f : (percents (drop n f) <= percents f)%nat.
Proof. unfold percents. rewrite <- (take_drop n f) at 2. rewrite filter_app, length_app. lia. Qed.

Lemma percents_cons f : percents (chr "%" :: f) = S (percents f).
Proof. unfold percents. by rewrite filter_cons_True. Qed.

(** The memory differs at the addresses of the arguments only. *)
Definition untouched (args : list arg) (m m' : memory) : Prop := ∀ p, p ∉ args.*2 → m' !! p = m !! p.

Lemma untouched_store args a v m m' : a ∈ args → untouched args m m' → untouched args m (store a.2 v m').
Proof.
  intros Ha Hm p Hp. unfold store. destruct v as [v|]; [|by apply Hm].
  unfold memory in *. rewrite (lookup_insert_ne (M := gmap nat)); [by apply Hm|]. intros <-. apply Hp. by apply list_elem_of_fmap_2.
Qed.

Lemma s32_fits n : fits_in t_int (s32 n).
Proof. unfold fits_in, min_value, max_value, s32. cbn. pose proof (Z.mod_pos_bound (n + 2 ^ 31) (2 ^ 32)). lia. Qed.

Lemma signed_decimal_nonzero n : Z.abs n < limit → Forall (λ c, c ≠ 0) (signed_decimal n).
Proof. intros Hn. rewrite signed_decimal_sign. apply sign_nonzero, decimal_nonzero. lia. Qed.

Lemma buffer_ends n : ends (IntegerToString_buffer t_int (s32 n)).
Proof.
  pose proof (s32_fits n) as Hf. unfold IntegerToString_buffer. rewrite OutputIntegerAsString_eq by (by left || done).
  eexists. split; [done|]. apply signed_decimal_nonzero. unfold fits_in, min_value, max_value, limit in *. cbn in *. lia.
Qed.

Lemma ParseSkipped_total s spec : ends s → specifier (scan_base spec) ≠ chr "c" →
  ∃ n, ParseSkipped s spec = Some n ∧ (n < length s)%nat.
Proof.
  intros Hs Hc. unfold ParseSkipped. destruct (skipped_type spec) as [t|] eqn:Et.
  - destruct (ScanValueParser_inside t s spec Hs) as (n & v & -> & Hn); [|by exists n].
    intros ->. unfold skipped_type in Et. apply Z.eqb_neq in Hc. rewrite Hc in Et. repeat case_match; done.
  - exists 0%nat. split; [done|]. destruct (ends_nonempty _ Hs) as (? & ? & ->). cbn. lia.
Qed.

Lemma WriteInt_total args a n spec m m0 : a ∈ args → a.1 ≠ TChar → untouched args m0 m →
  ∃ ok m', WriteInt a n spec m = Some (ok, m') ∧ untouched args m0 m'.
Proof.
  intros Ha Ht Hm. unfold WriteInt, FormatScanArg_Parse.
  destruct (ScanValueParser_inside a.1 _ (mkScanSpecification (set_specifier (chr "d") (scan_base spec)) (skip spec) (scanset spec))
    (buffer_ends n) Ht) as (k & v & -> & _).
  cbn [mbind option_bind]. eexists _, _. split; [done|]. by apply untouched_store.
Qed.

Section Loop.
Variables (args : list arg) (m0 : memory).
Hypothesis no_chars : Forall (λ a, a.1 ≠ TChar) args.

Lemma vscan_loop_total : ∀ fuel f s pos ai k m,
  ends f → no_del f → (chr "*" ∈ f → chr "c" ∉ f) → ends s → (length f <= fuel)%nat →
  (percents f <= length args - ai)%nat → 0 <= k → untouched args m0 m →
  ∃ k' m', vscan_loop fuel f s pos args ai k m = Some (k', m') ∧ -1 <= k' <= k + Z.of_nat (percents f) ∧ untouched args m0 m'.
Proof.
  induction fuel as [|fuel IH]; intros f s pos ai k m He Hd Hskip Hs Hf Hp Hk Hm;
    destruct (ends_nonempty _ He) as (c & r & ->); [cbn in Hf; lia|].
  destruct (ends_nonempty _ Hs) as (x & rs & Es). cbn [length] in Hf.
  assert (Hstop : ∀ k' m', 0 <= k' <= k + Z.of_nat (percents (c :: r)) → untouched args m0 m' →
    ∃ k'' m'', Some (k', m') = Some (k'', m'') ∧ -1 <= k'' <= k + Z.of_nat (percents (c :: r)) ∧ untouched args m0 m'').
  { intros k' m' ? ?. exists k', m'. split_and!; (done || lia). }
  assert (Hgo : ∀ i n pos' ai' k' m', (0 < i < length (c :: r))%nat → (n < length s)%nat → untouched args m0 m' →
    (percents (drop i (c :: r)) <= length args - ai')%nat →
    0 <= k' → k' + Z.of_nat (percents (drop i (c :: r))) <= k + Z.of_nat (percents (c :: r)) →
    ∃ k'' m'', vscan_loop fuel (drop i (c :: r)) (drop n s) pos' args ai' k' m' = Some (k'', m'') ∧
      -1 <= k'' <= k + Z.of_nat (percents (c :: r)) ∧ untouched args m0 m'').
  { intros i n pos' ai' k' m' Hi Hn Hm' Hai Hk0 Hk'.
    destruct (IH (drop i (c :: r)) (drop n s) pos' ai' k' m') as (k'' & m'' & E & Hb & Hu);
      [by apply ends_drop; [|lia]|by apply no_del_drop| |by apply ends_drop|rewrite length_drop; cbn in *; lia|done|done|done|].
    { intros H1 H2. apply Hskip; rewrite <- (take_drop i (c :: r)); set_solver. }
    exists k'', m''. split_and!; (done || lia). }
  assert (Hs0 : s !! 0%nat = Some x) by by rewrite Es.
  assert (Hone : x ≠ 0 → (1 < length s)%nat) by (intros; rewrite Es in *; by apply ends_second).
  cbn [vscan_loop]. rewrite Hs0. cbn [lookup list_lookup mbind option_bind].
  destruct (ends_cons _ _ He) as [[-> ->]|[Hc Hr]]; [cbn [Z.eqb]; apply Hstop; [lia|done]|].
  rewrite (proj2 (Z.eqb_neq _ _) Hc). destruct (ends_nonempty _ Hr) as (d & r' & ->).
  destruct (Z.eqb_spec c (chr "%")) as [->|Hpc].
  2: { destruct (Z.eqb_spec x c) as [->|_]; [|apply Hstop; [lia|done]].
    pose proof (percents_drop 1 (c :: d :: r')). apply Hgo; (done || lia || (cbn; lia) || auto). }
  assert (Hp1 : ∀ i, (percents (drop (1 + i) (chr "%" :: d :: r')) < percents (chr "%" :: d :: r'))%nat).
  { intros i. rewrite percents_cons. cbn [Nat.add drop]. pose proof (percents_drop i (d :: r')). lia. }
  cbn [lookup list_lookup mbind option_bind].
  destruct (Z.eqb_spec d 0) as [->|Hd0]; [exists (-1), m; split_and!; (done || lia)|].
  destruct (Z.eqb_spec d (chr "%")) as [->|Hpc].
  { destruct (Z.eqb_spec x (chr "%")) as [->|_]; [|apply Hstop; [lia|done]].
    specialize (Hp1 1%nat). cbn [Nat.add] in Hp1. apply Hgo; (done || lia || auto). pose proof (ends_second _ _ Hr). cbn in *. lia. }
  change (drop 1 (chr "%" :: d :: r')) with (d :: r').
  destruct (ScanSpecification_total (d :: r') Hr (no_del_drop 1 _ Hd)) as (fw & spec & -> & Hfw & Hsk & Hsc).
  cbn [mbind option_bind]. destruct (Nat.eqb_spec fw 0) as [_|Hfw0]; [apply Hstop; [lia|done]|].
  assert (Hfw' : (0 < 1 + fw < length (chr "%" :: d :: r'))%nat) by (cbn in *; lia). specialize (Hp1 fw).
  destruct (skip spec) eqn:Esk.
  { destruct (ParseSkipped_total s spec Hs) as (sw & -> & Hsw).
    { intros E. apply Hskip; [set_solver|]. specialize (Hsc E). set_solver. }
    cbn [mbind option_bind]. destruct (0 <? sw)%nat; [|apply Hstop; [lia|done]]. apply Hgo; (done || lia). }
  destruct (lookup_lt_is_Some_2 args ai) as [a Ea]; [lia|]. rewrite Ea.
  assert (Ha : a ∈ args) by by eapply list_elem_of_lookup_2.
  assert (Hac : a.1 ≠ TChar) by by eapply Forall_forall in no_chars.
  destruct (specifier (scan_base spec) =? chr "n"); cbn [mbind option_bind].
  - destruct (WriteInt_total args a (Z.of_nat pos) spec m m0 Ha Hac Hm) as (ok & m' & -> & Hm').
    cbn [mbind option_bind]. destruct ok; [|apply Hstop; [lia|done]].
    apply Hgo; try (done || lia). rewrite Es. cbn. lia.
  - unfold FormatScanArg_Parse.
    destruct (ScanValueParser_inside a.1 s spec Hs Hac) as (sw & v & -> & Hsw). cbn [mbind option_bind].
    assert (Hm' : untouched args m0 (store a.2 v m)) by by apply untouched_store.
    destruct (0 <? sw)%nat; [|apply Hstop; [lia|done]]. apply Hgo; (done || lia).
Qed.
End Loop.

Lemma before_nul_prefix s : ∃ t, s = before_nul s ++ t ∧ Forall (λ c, c ≠ 0) (before_nul s).
Proof.
  induction s as [|c s (t & E & Hf)]; [by exists []|]. cbn. destruct (Z.eqb_spec c 0) as [->|Hc]; [by exists (0 :: s)|].
  exists t. split; [cbn; by rewrite <- E|by constructor].
Qed.

Lemma c_string_ends s : ends (c_string_of s).
Proof. destruct (before_nul_prefix s) as (t & _ & Hf). by exists (before_nul s). Qed.

(** ** Reading back what was written *)

Definition spaces (s : bytes) : Prop := Forall (λ c, isspace c = true) s.

Lemma space_nonzero c : isspace c = true → c ≠ 0.
Proof. by intros Hc ->. Qed.

Lemma SkipLeadingSpaces_text sp c r : spaces sp → isspace c = false → SkipLeadingSpaces (sp ++ c :: r) = Some (length sp).
Proof.
  intros Hsp Hc. induction Hsp as [|x sp Hx Hsp IH]; cbn [app SkipLeadingSpaces length].
  - by rewrite Hc, andb_false_r.
  - rewrite Hx, (proj2 (Z.eqb_neq _ _) (space_nonzero _ Hx)). cbn [negb andb]. by rewrite IH.
Qed.

(** What ends a field: the NUL, or a character the field does not take. *)
Definition field_stops (p : Z → bool) (rest : bytes) : Prop := ∃ c r, rest = c :: r ∧ (c = 0 ∨ p c = false).

Lemma field_end_text p w rest : Forall (λ c, c ≠ 0 ∧ p c = true) w → field_stops p rest →
  field_end p (w ++ rest) = Some (length w).
Proof.
  intros Hw (c & r & -> & Hc). induction Hw as [|x w [Hx Hp] Hw IH]; cbn [app field_end length].
  - destruct Hc as [-> | ->]; [done|]. by rewrite andb_false_r.
  - rewrite Hp, (proj2 (Z.eqb_neq _ _) Hx). cbn [negb andb]. by rewrite IH.
Qed.

(** The types with a fixed width that are parsed as integers. *)
Definition int_width (t : int_type) : Prop := bits t = 8 ∨ bits t = 16 ∨ bits t = 32 ∨ bits t = 64.

Lemma convert_fits t n : int_width t → fits_in t n → convert t n = n.
Proof.
  unfold int_width, fits_in, min_value, max_value, convert. destruct t as [[] b]; cbn [bits signed];
    intros [-> | [-> | [-> | ->]]] Hn; cbn [Z.sub Z.add Z.opp Z.pos_sub Pos.pred_double] in *; rewrite Z.mod_small; lia.
Qed.

Lemma fits_range t n : int_width t → fits_in t n →
  (signed t = true → - 2 ^ 63 <= n < 2 ^ 63) ∧ (signed t = false → 0 <= n < 2 ^ 64).
Proof.
  unfold int_width, fits_in, min_value, max_value. destruct t as [[] b]; cbn [bits signed];
    intros [-> | [-> | [-> | ->]]] Hn; cbn [Z.sub Z.add Z.opp Z.pos_sub Pos.pred_double] in *; split; (done || lia).
Qed.

Lemma skip_spaces_app sp s : spaces sp → skip_spaces (sp ++ s) = (length sp + skip_spaces s)%nat.
Proof. induction 1 as [|c sp Hc Hsp IH]; cbn; [done|]. by rewrite Hc, IH. Qed.

Lemma scan_number_skips sp s base : spaces sp → skip_spaces s = 0%nat →
  scan_number (sp ++ s) base =
    let '(neg, v, n) := scan_number s base in (neg, v, if (n =? 0)%nat then 0%nat else (length sp + n)%nat).
Proof.
  intros Hsp Hs. unfold scan_number. rewrite skip_spaces_app, Hs, Nat.add_0_r, drop_app_length, drop_0 by done.
  destruct (match s with c :: _ => _ | [] => _ end) as [neg sg].
  destruct (if (((base =? 0) || (base =? 16)) && hex_prefix (drop sg s))%bool then _ else _) as [b px].
  destruct (scan_digits b _ 0 0) as [v n]. destruct (Nat.eqb_spec n 0) as [->|Hn]; [done|].
  destruct (Nat.eqb_spec (0 + sg + px + n)%nat 0); [lia|]. f_equal. lia.
Qed.

(** An integer in decimal, after spaces and before a character that is not a
    digit, is read as it stands. *)
Lemma scan_signed sp n t : spaces sp → Z.abs n < limit → no_digit t →
  scan_number (before_nul (sp ++ signed_decimal n ++ t)) 10 =
    (n <? 0, Z.abs n, length (sp ++ signed_decimal n)).
Proof.
  intros Hsp Hn Ht. destruct (no_digit_stops t Ht) as [_ Hst].
  rewrite !before_nul_app; [|by apply signed_decimal_nonzero|by eapply Forall_impl; [exact Hsp|]; intros; by apply space_nonzero].
  rewrite signed_decimal_sign, <- (assoc_L (++)). destruct (decimal_head (Z.abs n)) as (c & s & E & Hc); [lia|].
  rewrite scan_number_skips; [|done|].
  - rewrite scan_decimal by (done || lia). rewrite E. cbn [length].
    destruct (Nat.eqb_spec (length (minus_sign (n <? 0)) + S (length s)) 0); [lia|]. f_equal. rewrite !length_app. cbn. lia.
  - rewrite E. destruct (n <? 0); cbn; [done|]. unfold isdigit, isspace, in_range in *.
    repeat case_ztest; cbn in *; try lia; done.
Qed.

Lemma land_bit w k : 0 <= k → negb (Z.land w (Z.shiftl 1 k) =? 0) = Z.testbit w k.
Proof.
  intros Hk. destruct (Z.testbit w k) eqn:E.
  - apply negb_true_iff, Z.eqb_neq. intros H0. apply (f_equal (λ x, Z.testbit x k)) in H0.
    rewrite Z.land_spec, E, testbit_shiftl_1, Z.eqb_refl, Z.bits_0 in H0 by lia. done.
  - apply negb_false_iff, Z.eqb_eq. apply Z.bits_inj'. intros m Hm.
    rewrite Z.land_spec, testbit_shiftl_1, Z.bits_0 by lia. destruct (Z.eqb_spec k m) as [->|]; [by rewrite E|].
    by rewrite andb_false_r.
Qed.

Lemma ScanSetContainsChar_eq cs c : ScanSetContainsChar cs c = in_set cs c.
Proof.
  unfold ScanSetContainsChar, in_set, Find. cbn [m_bitmap]. destruct (cs !! _) as [w|]; [|done].
  assert (0 <= c mod CHAR_BIT) by (unfold CHAR_BIT; pose proof (Z.mod_pos_bound c 8); lia).
  rewrite land_bit, shiftr_land_1 by done. by destruct (Z.testbit w _).
Qed.

(** The texts a conversion accepts for an argument of each type, with the
    value it stores; [rest] is what follows, up to the NUL. *)
Inductive field_text : arg_type → conversion → bytes → bytes → value → Prop :=
  | field_int t n sp c rest : int_width t → fits_in t n → spaces sp → no_digit rest →
      c = chr "d" ∨ (c = chr "u" ∧ signed t = false) →
      field_text (TInt t) (Letter c) (sp ++ signed_decimal n) rest (VInt n)
  | field_string sp w rest : spaces sp → w ≠ [] → Forall (λ c, c ≠ 0 ∧ negb (isspace c) = true) w →
      field_stops (λ c, negb (isspace c)) rest →
      field_text TString (Letter (chr "s")) (sp ++ w) rest (VString w)
  | field_set is_neg l w rest : w ≠ [] → Forall (λ c, is_byte c ∧ c ≠ 0 ∧ xorb is_neg (in_items l c) = true) w →
      (∃ c r, rest = c :: r ∧ is_byte c ∧ (c = 0 ∨ xorb is_neg (in_items l c) = false)) →
      field_text TString (ScanSet is_neg l) w rest (VString w)
  | field_char c rest : c ≠ 0 → field_text TChar (Letter (chr "c")) [c] rest (VChar c)
  | field_bool (b : bool) sp w rest : spaces sp →
      w ∈ (if b then [str "1"; str "true"] else [str "0"; str "false"]) →
      field_text TBool (Letter (chr "b")) (sp ++ w) rest (VBool b).

Lemma store_int_fits t n used : int_width t → fits_in t n →
  store_int t (n, used, false) = (used, Some (VInt n)).
Proof. intros Ht Hn. unfold store_int. by rewrite convert_fits, Z.eqb_refl. Qed.

Lemma int_reads t n sp rest : int_width t → fits_in t n → spaces sp → no_digit rest →
  store_int t (if signed t then strtol (before_nul ((sp ++ signed_decimal n) ++ rest)) 10
    else strtoul (before_nul ((sp ++ signed_decimal n) ++ rest)) 10) = (length (sp ++ signed_decimal n), Some (VInt n)).
Proof.
  intros Ht Hn Hsp Hr. destruct (fits_range t n Ht Hn) as [Hs Hu]. rewrite <- (assoc_L (++)).
  assert (Hlim : Z.abs n < limit) by (unfold limit; destruct (signed t); [specialize (Hs eq_refl)|specialize (Hu eq_refl)]; lia).
  unfold strtol, strtoul. rewrite scan_signed by done. destruct (signed t).
  - specialize (Hs eq_refl). assert ((if n <? 0 then - Z.abs n else Z.abs n) = n) as -> by (case_ztest; lia).
    destruct (Z.ltb_spec n (- 2 ^ 63)); [lia|]. destruct (Z.leb_spec (2 ^ 63) n); [lia|]. by apply store_int_fits.
  - specialize (Hu eq_refl). destruct (Z.leb_spec (2 ^ 64) (Z.abs n)); [lia|]. destruct (Z.ltb_spec n 0); [lia|].
    rewrite Z.abs_eq by lia. by apply store_int_fits.
Qed.

Lemma field_reads ty k txt rest v spec : field_text ty k txt rest v →
  specifier (scan_base spec) = conversion_letter k → reads_as k (scanset spec) →
  ScanValueParser_Parse ty (txt ++ rest) spec = Some (length txt, Some v) ∧ (0 < length txt)%nat.
Proof.
  intros H Hk Hset. destruct H as [t n sp c rest Ht Hn Hsp Hr Hc|sp w rest Hsp Hw Hall Hstop|
    is_neg l w rest Hw Hall (c & r & -> & Hb & Hstop)|c rest Hc|b sp w rest Hsp Hw]; cbn [conversion_letter] in Hk.
  - assert (Hlen : (0 < length (sp ++ signed_decimal n))%nat).
    { destruct (fits_range t n Ht Hn) as [Hs Hu]. destruct (decimal_head (Z.abs n)) as (x & s & E & _);
        [unfold limit; destruct (signed t); [specialize (Hs eq_refl)|specialize (Hu eq_refl)]; lia|].
      rewrite signed_decimal_sign, E, !length_app. cbn. lia. }
    split; [|done]. pose proof (int_reads t n sp rest Ht Hn Hsp Hr) as E. cbn [ScanValueParser_Parse].
    unfold ParseSigned, ParseUnsigned. rewrite Hk. destruct Hc as [-> |[-> Hs]]; [|rewrite Hs in *; by rewrite E].
    destruct (signed t); by rewrite E.
  - destruct w as [|c w]; [done|]. split; [|rewrite length_app; cbn; lia]. cbn [ScanValueParser_Parse]. unfold ParseString.
    rewrite Hk. cbn [Z.eqb orb]. apply Forall_cons_1 in Hall as Hc. destruct Hc as [[Hc0 Hc] _].
    rewrite <- (assoc_L (++)). cbn [app]. rewrite SkipLeadingSpaces_text by (done || by apply negb_true_iff). cbn [mbind option_bind].
    rewrite drop_app_length. change (c :: w ++ rest) with ((c :: w) ++ rest). rewrite field_end_text by done.
    cbn [mbind option_bind length Nat.eqb].
    do 2 f_equal; [by rewrite length_app|]. by rewrite take_app_length' by done.
  - destruct w as [|x w]; [done|]. split; [|cbn; lia]. cbn [ScanValueParser_Parse]. unfold ParseString. rewrite Hk.
    cbn [reads_as] in Hset. change (chr "[" =? chr "s") with false. change (chr "[" =? chr "v") with false. cbn [orb].
    rewrite Z.eqb_refl, field_end_text.
    + cbn [mbind option_bind length Nat.eqb Nat.add]. rewrite drop_0. do 2 f_equal. by rewrite take_app_length' by done.
    + eapply Forall_impl; [exact Hall|]. cbn. intros y (Hy & H0 & Hin). by rewrite ScanSetContainsChar_eq, Hset.
    + exists c, r. split; [done|]. destruct Hstop as [|Hin]; [by left|right]. by rewrite ScanSetContainsChar_eq, Hset.
  - split; [|cbn; lia]. cbn [ScanValueParser_Parse]. unfold ParseChar, SpecifierMatch. by rewrite Hk.
  - assert (Hword : ∃ c r, w = c :: r ∧ isspace c = false).
    { destruct b; (apply elem_of_cons in Hw as [->|[->|Hw%elem_of_nil]%elem_of_cons]; [| |done]); eexists _, _; by vm_compute. }
    destruct Hword as (c & r & -> & Hsp'). split; [|rewrite length_app; cbn; lia].
    cbn [ScanValueParser_Parse]. unfold ParseBool, SpecifierMatch. rewrite Hk. cbn [Z.eqb orb negb].
    rewrite <- (assoc_L (++)). cbn [app]. rewrite SkipLeadingSpaces_text by done. cbn [mbind option_bind].
    rewrite drop_app_length, length_app. cbn [app lookup list_lookup mbind option_bind]. clear Hk Hsp'.
    destruct b; (apply elem_of_cons in Hw as [E|[E|Hw%elem_of_nil]%elem_of_cons]; [| |done]);
      vm_compute in E; injection E as -> ->; cbn [app length]; norm_chars.
    all: rewrite ?Nat.add_1_r; reflexivity.
Qed.

(** A piece of a format: a literal character, an escaped percent sign, or a
    field with its type and the text and value it stands for. *)
Inductive piece :=
  | Lit (c : Z)
  | Percent
  | Field (skipped : bool) (w : option Z) (l : Z) (length_chars : bytes) (k : conversion)
      (ty : arg_type) (txt : bytes) (v : value).

Definition piece_format (p : piece) : bytes :=
  match p with
  | Lit c => [c] | Percent => str "%%"
  | Field sk w _ t k _ _ _ => chr "%" :: scan_text sk w t k
  end.
Definition piece_text (p : piece) : bytes :=
  match p with Lit c => [c] | Percent => str "%" | Field _ _ _ _ _ _ txt _ => txt end.
Definition format_of (ps : list piece) : bytes := ps ≫= piece_format.
Definition text_of (ps : list piece) : bytes := ps ≫= piece_text.

(** Each field is read off its text, which ends where the field ends. *)
Fixpoint pieces_ok (ps : list piece) (rest : bytes) : Prop :=
  match ps with
  | [] => True
  | p :: ps =>
      match p with
      | Lit c => c ≠ 0 ∧ c ≠ chr "%"
      | Percent => True
      | Field sk w l t k ty txt v =>
          width_ok w ∧ (l, t) ∈ length_table ∧ conversion_ok k ∧ k ≠ Letter (chr "n") ∧
          field_text ty k txt (text_of ps ++ rest) v ∧
          (sk = true → skipped_type (mkScanSpecification
             (mkFormatSpecification (default (-1) w) l (conversion_letter k)) sk []) = Some ty)
      end ∧ pieces_ok ps rest
  end.

(** The fields that take an argument, with their types and values. *)
Definition fields (ps : list piece) : list (arg_type * value) :=
  ps ≫= λ p, match p with Field false _ _ _ _ ty _ v => [(ty, v)] | _ => [] end.

(** The values stored in order, so that the last one wins where two
    arguments are the same variable. *)
Fixpoint stored (args : list arg) (vs : list value) (m : memory) : memory :=
  match args, vs with
  | a :: args, v :: vs => stored args vs (<[a.2 := v]> m)
  | _, _ => m
  end.

Lemma skipped_type_set b sk cs cs' : skipped_type (mkScanSpecification b sk cs) = skipped_type (mkScanSpecification b sk cs').
Proof. done. Qed.

Lemma vscan_literal fuel c f s pos args ai n m : c ≠ 0 → c ≠ chr "%" →
  vscan_loop (S fuel) (c :: f) (c :: s) pos args ai n m = vscan_loop fuel f s (pos + 1) args ai n m.
Proof.
  intros H0 Hp. cbn [vscan_loop lookup list_lookup mbind option_bind].
  by rewrite (proj2 (Z.eqb_neq _ _) H0), (proj2 (Z.eqb_neq _ _) Hp), Z.eqb_refl.
Qed.

Lemma conversion_percent sk w t l k r : width_ok w → (l, t) ∈ length_table → conversion_ok k →
  ∃ d s, scan_text sk w t k ++ r = d :: s ∧ d ≠ 0 ∧ d ≠ chr "%".
Proof.
  intros Hw Hl Hk. unfold scan_text. rewrite <- !(assoc_L (++)).
  assert (Hne : ∀ c, bool_decide (c ∈ chr "*" :: str "0123456789hlLjzt[" ++ specifiers) = true → c ≠ 0 ∧ c ≠ chr "%").
  { intros c Hc%bool_decide_eq_true.
    assert (H : Forall (λ c, c ≠ 0 ∧ c ≠ chr "%") (chr "*" :: str "0123456789hlLjzt[" ++ specifiers))
      by (apply (bool_decide_unpack _); by vm_compute).
    rewrite Forall_forall in H. by apply H. }
  destruct sk; cbn [star app]; [by eexists _, _; split; [done|]; apply Hne; vm_compute|].
  destruct w as [w|]; cbn [width_text app].
  - cbn [width_ok] in Hw. destruct (decimal_facts w) as (_ & _ & Hd & Hr & _); [unfold limit; lia|].
    destruct (decimal w) as [|d s]; [done|]. apply Forall_cons in Hr as [Hr _]. eexists _, _. split; [done|].
    norm_chars. lia.
  - pose proof (conversion_starts k r Hk) as Hs.
    apply (conversion_start (λ c, c ≠ 0 ∧ c ≠ chr "%")) in Hs as (c & s & -> & Hc); [|by vm_compute].
    unfold length_table in Hl.
    repeat (apply elem_of_cons in Hl as [[= -> ->]|Hl]; [by eexists _, _; split; [done|]; first [done | by apply Hne; vm_compute]|]).
    by apply elem_of_nil in Hl.
Qed.

Lemma letter_n k : conversion_ok k → k ≠ Letter (chr "n") → (conversion_letter k =? chr "n") = false.
Proof. intros Hk Hn. destruct k as [c|]; [|done]. apply Z.eqb_neq. cbn. by intros ->. Qed.

Lemma vscan_field fuel sk w l t k ty txt v f rest pos args ai n m :
  width_ok w → (l, t) ∈ length_table → conversion_ok k → k ≠ Letter (chr "n") →
  field_text ty k txt rest v →
  (sk = true → skipped_type (mkScanSpecification
     (mkFormatSpecification (default (-1) w) l (conversion_letter k)) sk []) = Some ty) →
  (sk = false → fst <$> args !! ai = Some ty) →
  vscan_loop (S fuel) (chr "%" :: scan_text sk w t k ++ f) (txt ++ rest) pos args ai n m =
    vscan_loop fuel f rest (pos + length txt) args (if sk then ai else S ai) (if sk then n else n + 1)
      (if sk then m else stored (drop ai args) [v] m).
Proof.
  intros Hw Hl Hk Hn Hf Hskip Ha. destruct (conversion_percent sk w t l k f Hw Hl Hk) as (d & s & Ed & Hd0 & Hdp).
  destruct (ScanSpecification_text sk w l t k f Hw Hl Hk) as (cs & Ep & Hcs).
  set (spec := mkScanSpecification _ sk cs) in Ep.
  destruct (field_reads ty k txt rest v spec Hf eq_refl Hcs) as [Er Hlen].
  assert (Hsecond : (chr "%" :: scan_text sk w t k ++ f) !! 1%nat = Some d) by by rewrite Ed.
  cbn [vscan_loop]. rewrite Hsecond. cbn [lookup list_lookup mbind option_bind].
  rewrite Z.eqb_refl, (proj2 (Z.eqb_neq _ _) Hd0), (proj2 (Z.eqb_neq _ _) Hdp).
  change (chr "%" =? 0) with false. cbn beta iota. change (drop 1 (chr "%" :: ?x)) with x. rewrite Ep.
  cbn [mbind option_bind].
  assert (Hlt : length (scan_text sk w t k) ≠ 0%nat).
  { unfold scan_text. rewrite !length_app. destruct k; cbn; lia. }
  rewrite (proj2 (Nat.eqb_neq _ _) Hlt). subst spec. cbn [skip scan_base specifier].
  assert (Hdrop : drop (1 + length (scan_text sk w t k)) (chr "%" :: scan_text sk w t k ++ f) = f) by apply drop_app_length.
  rewrite Hdrop, (letter_n k Hk Hn). destruct sk.
  - unfold ParseSkipped. rewrite (skipped_type_set _ _ cs []), Hskip, Er by done. cbn [fmap option_fmap option_map fst mbind option_bind].
    by rewrite (proj2 (Nat.ltb_lt _ _) Hlen), drop_app_length.
  - specialize (Ha eq_refl). destruct (args !! ai) as [a|] eqn:Ea; [|done]. cbn in Ha. injection Ha as <-.
    cbn [mbind option_bind]. unfold FormatScanArg_Parse. rewrite Er. cbn [mbind option_bind].
    rewrite (proj2 (Nat.ltb_lt _ _) Hlen). cbn [mbind option_bind]. rewrite drop_app_length.
    rewrite (drop_S _ _ _ Ea). by destruct (drop (S ai) args).
Qed.

(** A text made of the pieces' texts is read back whole, whatever follows it. *)
Lemma vscan_pieces ps : ∀ fuel rest pos args ai n m, pieces_ok ps rest →
  (length (format_of ps) < fuel)%nat → (drop ai args).*1 = (fields ps).*1 →
  vscan_loop fuel (format_of ps ++ [0]) (text_of ps ++ rest) pos args ai n m =
    Some (n + Z.of_nat (length (fields ps)), stored (drop ai args) (fields ps).*2 m).
Proof.
  induction ps as [|p ps IH]; intros fuel rest pos args ai n m Hok Hf Ha; (destruct fuel as [|fuel]; [lia|]).
  { cbn [format_of text_of fields mbind list_bind app length fmap list_fmap]. cbn. rewrite Z.add_0_r. by destruct (drop ai args). }
  cbn [format_of text_of fields mbind list_bind] in *. fold (format_of ps) (text_of ps) (fields ps) in *.
  rewrite <- !(assoc_L (++)). rewrite length_app in Hf. destruct Hok as [Hp Hok].
  destruct p as [c| |sk w l t k ty txt v]; cbn [piece_format piece_text length app] in *.
  - destruct Hp as [H0 Hp]. rewrite vscan_literal by done. by apply IH; [|lia|].
  - change (str "%%") with [chr "%"; chr "%"] in *. change (str "%") with [chr "%"]. cbn [app length vscan_loop lookup list_lookup mbind option_bind] in *.
    rewrite Z.eqb_refl. change (chr "%" =? 0) with false. cbn beta iota. cbn [drop]. rewrite ?drop_0. by apply IH; [|lia|].
  - destruct Hp as (Hw & Hl & Hk & Hn & Hft & Hskip). rewrite (vscan_field fuel sk w l t k ty txt v) by
      (done || (intros ->; destruct (drop ai args) as [|a rest'] eqn:Ed; cbn in Ha; [done|];
        injection Ha as Ha _; rewrite <- (Nat.add_0_r ai), <- lookup_drop, Ed; cbn; by rewrite Ha)).
    destruct sk; cbn [app] in *; [apply IH; [done|lia|done]|].
    destruct (drop ai args) as [|a args'] eqn:Ed; [done|].
    assert (Ed' : drop (S ai) args = args') by (replace (S ai) with (ai + 1)%nat by lia; by rewrite <- drop_drop, Ed).
    cbn in Ha. injection Ha as Ha Hrest.
    rewrite IH by (done || lia || by rewrite Ed'). rewrite Ed'. cbn [length fmap list_fmap snd stored].
    f_equal. f_equal; [lia|]. by destruct args'.
Qed.

(** *** No piece holds a NUL *)

Abbreviation no_nul := (Forall (λ c : Z, c ≠ 0)).

Lemma length_no_nul l t : (l, t) ∈ length_table → no_nul t.
Proof.
  unfold length_table. intros Hl.
  repeat (apply elem_of_cons in Hl as [[= -> ->]|Hl]; [by repeat constructor|]). by apply elem_of_nil in Hl.
Qed.

Lemma item_no_nul i : item_ok i → no_nul (item_text i).
Proof.
  intros ((_ & Hh & _) & _ & Hi). destruct i as [c|a b]; cbn in *; [by repeat constructor|].
  destruct Hi as ((_ & Hb & _) & _). by repeat constructor.
Qed.

Lemma conversion_no_nul k : conversion_ok k → no_nul (conversion_text k).
Proof.
  destruct k as [c|is_neg l]; cbn [conversion_ok conversion_text].
  - intros Hc. constructor; [by apply specifiers_nonzero|done].
  - intros (Hl & _). constructor; [done|]. unfold set_text. rewrite !Forall_app. split_and!.
    + destruct is_neg; by repeat constructor.
    + unfold items_text. induction Hl as [|i l Hi Hl IH]; cbn; [constructor|]. apply Forall_app. by split; [apply item_no_nul|].
    + by repeat constructor.
Qed.

Lemma scan_text_no_nul sk w l t k : width_ok w → (l, t) ∈ length_table → conversion_ok k → no_nul (scan_text sk w t k).
Proof.
  intros Hw Hl Hk. unfold scan_text. rewrite !Forall_app. split_and!; [by destruct sk; repeat constructor| | |].
  - destruct w as [w|]; [|constructor]. apply decimal_nonzero. cbn in Hw. unfold limit. lia.
  - by eapply length_no_nul.
  - by apply conversion_no_nul.
Qed.

Lemma spaces_no_nul sp : spaces sp → no_nul sp.
Proof. intros H. eapply Forall_impl; [exact H|]. intros c. apply space_nonzero. Qed.

Lemma field_text_no_nul ty k txt rest v : field_text ty k txt rest v → no_nul txt.
Proof.
  intros []; rewrite ?Forall_app.
  - split; [by apply spaces_no_nul|]. apply signed_decimal_nonzero.
    destruct (fits_range t n) as [Hs Hu]; [done..|].
    unfold limit. destruct (signed t); [specialize (Hs eq_refl)|specialize (Hu eq_refl)]; lia.
  - split; [by apply spaces_no_nul|]. by eapply Forall_impl; [done|]; intros ? [].
  - by eapply Forall_impl; [done|]; intros ? (_ & ? & _).
  - by repeat constructor.
  - split; [by apply spaces_no_nul|]. destruct b;
      match goal with H : _ ∈ _ |- _ => apply elem_of_cons in H as [->|[->|?%elem_of_nil]%elem_of_cons] end;
      (done || by repeat constructor).
Qed.

Lemma pieces_no_nul ps rest : pieces_ok ps rest → no_nul (format_of ps) ∧ no_nul (text_of ps).
Proof.
  induction ps as [|p ps IH]; intros Hok; [by split|]. destruct Hok as [Hp Hok]. destruct (IH Hok) as [Hf Ht].
  cbn [format_of text_of mbind list_bind]. rewrite !Forall_app. split; (split; [|done]).
  - destruct p as [c| |sk w l t k ty txt v]; cbn [piece_format].
    + destruct Hp. by repeat constructor.
    + by repeat constructor.
    + destruct Hp as (Hw & Hl & Hk & _). constructor; [done|]. by eapply scan_text_no_nul.
  - destruct p as [c| |sk w l t k ty txt v]; cbn [piece_text].
    + destruct Hp. by repeat constructor.
    + by repeat constructor.
    + destruct Hp as (_ & _ & _ & _ & Hft & _). by eapply field_text_no_nul.
Qed.

Lemma StringScan_pieces ps rest args m : pieces_ok ps (c_string_of rest) → args.*1 = (fields ps).*1 →
  StringScan (text_of ps ++ rest) (format_of ps) args m =
    Some (Z.of_nat (length (fields ps)), stored args (fields ps).*2 m).
Proof.
  intros Hok Ha. destruct (pieces_no_nul _ _ Hok) as [Hf Ht]. unfold StringScan, StringVScan, c_string_of.
  rewrite before_nul_app, (before_nul_id (format_of ps)), <- (assoc_L (++)) by done.
  pose proof (vscan_pieces ps (length (format_of ps ++ [0])) (c_string_of rest) 0 args 0 0 m Hok) as E.
  rewrite drop_0 in E. apply E; [rewrite length_app; cbn; lia|done].
Qed.

(** ** Properties *)

(** A text written piece by piece after a format (literal characters,
    percent signs, and fields with any width and length modifier: integers in
    decimal of every type that holds them, words, characters, booleans and scan sets) is
    read back by that format: [StringScan] counts the fields that are not
    suppressed and stores the value of each through its argument in order,
    with leading spaces skipped, whatever follows the text. *)
Theorem scan_reads_back ps rest args m : pieces_ok ps (c_string_of rest) → args.*1 = (fields ps).*1 →
  StringScan (text_of ps ++ rest) (format_of ps) args m =
    Some (Z.of_nat (length (fields ps)), stored args (fields ps).*2 m).
Proof. exact (StringScan_pieces ps rest args m). Qed.

(** [StringScan] with an argument for each percent sign of the format
    ends, whatever the text and the format: it reads neither string past its
    NUL, uses no argument that was not given, returns -1 or at most the
    number of percent signs, and writes to its arguments only.  The format
    is one without the character DEL (no range can end in it) and without
    the conversion [c], which takes the NUL for a character: no argument is a
    [char] and no suppressed field is one. *)
Theorem scan_defined string format args m : bytes_ok format → 127 ∉ format →
  (chr "*" ∈ format → chr "c" ∉ format) → Forall (λ a, a.1 ≠ TChar) args → (percents format <= length args)%nat →
  ∃ k m', StringScan string format args m = Some (k, m') ∧ -1 <= k <= Z.of_nat (percents format) ∧ untouched args m m'.
Proof.
  intros Hb Hdel Hskip Hch Hp. destruct (before_nul_prefix format) as (t & E & Hnz).
  assert (Hin : ∀ x, x ≠ 0 → x ∈ c_string_of format → x ∈ format).
  { unfold c_string_of. intros x Hx Hin. rewrite E. set_solver. }
  assert (Hperc : (percents (c_string_of format) <= percents format)%nat).
  { rewrite E at 2. unfold percents, c_string_of. rewrite !filter_app, !length_app.
    rewrite (filter_none _ [0]) by by repeat constructor. cbn. lia. }
  unfold StringScan, StringVScan.
  destruct (vscan_loop_total args m Hch (length (c_string_of format)) (c_string_of format) (c_string_of string) 0 0 0 m)
    as (k & m' & Ek & Hk & Hu); try (done || lia || apply c_string_ends).
  - split; [|intros H; by apply Hdel, Hin]. unfold c_string_of. rewrite E in Hb. apply bytes_ok_app in Hb as [Hb _].
    apply bytes_ok_app. split; [done|]. by repeat constructor.
  - intros H1 H2. by apply Hskip; apply Hin.
  - exists k, m'. split_and!; (done || lia).
Qed.

End Scan.

(** A library that reads the decimal digits of a number only. *)
Definition read_digits (s : bytes) : Z * nat := let '(neg, v, n) := scan_number s 10 in (apply_sign neg v, n).

Lemma digits_used s : (snd (read_digits s) <= length s)%nat.
Proof. unfold read_digits. pose proof (scan_number_used s 10). by destruct (scan_number s 10) as [[? ?] ?]. Qed.

#[local] Instance digits_float : FloatLibrary := {
  float_value := Z;
  strto_float _ s := read_digits s;
  strto_float_used _ s := digits_used s
}.

(** The format "%5d,%*s %[a-f]%%" and the text "-12, two cafe%9". *)
Definition demo_pieces : list piece :=
  [Field false (Some 5) 0 [] (Letter (chr "d")) (TInt t_short) ([] ++ signed_decimal (-12)) (VInt (-12));
   Lit (chr ","); Field true None 0 [] (Letter (chr "s")) TString (str " " ++ str "two") (VString (str "two"));
   Lit (chr " "); Field false None 0 [] (ScanSet false [Range (chr "a") (chr "f")]) TString (str "cafe") (VString (str "cafe"));
   Percent].

Lemma scan_reads_back_witness :
  StringScan (str "-12, two cafe%9") (str "%5d,%*s %[a-f]%%") [(TInt t_short, 1%nat); (TString, 2%nat)] ∅ =
    Some (2, <[2%nat := VString (str "cafe")]> (<[1%nat := VInt (-12)]> ∅)).
Proof.
  change (str "-12, two cafe%9") with (text_of demo_pieces ++ str "9").
  change (str "%5d,%*s %[a-f]%%") with (format_of demo_pieces).
  refine (scan_reads_back demo_pieces (str "9") [(TInt t_short, 1%nat); (TString, 2%nat)] ∅ _ eq_refl).
  cbn [pieces_ok demo_pieces]. repeat match goal with |- _ ∧ _ => split end;
    try (vm_compute; done); try (intros [=]; done); try (by left); try (apply (bool_decide_unpack _); by vm_compute).
  - apply field_int; [by right; left|by vm_compute|constructor| |by left]. by eexists _, _.
  - apply field_string; [by repeat constructor|done|by repeat constructor|]. by eexists _, _; split; [|right].
  - split_and!; [repeat constructor; by vm_compute|vm_compute; lia|done].
  - apply field_set; [done|repeat constructor; by vm_compute|]. eexists _, _. split; [done|]. split; [by vm_compute|by right].
Defined.

Lemma scan_defined_witness : ∃ k m',
  StringScan (str "99 red balloons") (str "%n%3d %*[^0-9]%s%q") (replicate 5 (TString, 7%nat)) ∅ = Some (k, m') ∧
  -1 <= k <= 5 ∧ untouched (replicate 5 (TString, 7%nat)) ∅ m'.
Proof.
  apply (scan_defined (str "99 red balloons") (str "%n%3d %*[^0-9]%s%q") (replicate 5 (TString, 7%nat)) ∅).
  - repeat constructor; by vm_compute.
  - apply (bool_decide_unpack _). by vm_compute.
  - intros _. apply (bool_decide_unpack _). by vm_compute.
  - repeat constructor; discriminate.
  - vm_compute. lia.
Defined.

(** *** What the code does besides *)

(** The conversion [c] takes the NUL for a character, and what follows reads
    past the end of the string. *)
Example scan_past_end m :
  StringScan (str "x") (str "%c%c%c") [(TChar, 1%nat); (TChar, 2%nat); (TChar, 3%nat)] m = None.
Proof. by vm_compute. Qed.

(** A range up to DEL never ends. *)
Example scan_endless_range m : StringScan (str "x") (str "%[ -" ++ [127] ++ str "]") [(TString, 1%nat)] m = None.
Proof. by vm_compute. Qed.

(** A width is read and forgotten. *)
Example scan_width_ignored : StringScan (str "12345") (str "%2d") [(TInt t_int, 1%nat)] ∅ = Some (1, {[1%nat := VInt 12345]}).
Proof. by vm_compute. Qed.

(** After [%n] the next field overwrites the same argument. *)
Example scan_n_not_advanced :
  StringScan (str "7") (str "%n%d") [(TInt t_int, 1%nat); (TInt t_int, 2%nat)] ∅ = Some (2, {[1%nat := VInt 7]}).
Proof. by vm_compute. Qed.

(** A number that is not there is stored as 0. *)
Example scan_failure_stores : StringScan (str "x") (str "%d") [(TInt t_int, 1%nat)] {[1%nat := VInt 5]} = Some (0, {[1%nat := VInt 0]}).
Proof. by vm_compute. Qed.
