(* ===== verification/Http.v ===== *)
(** * HTTP messages

    Model of net/http: http_version.h, http_headers, http_message,
    http_request and http_response.  A message is abstract over its start
    line, which requests and responses define: the virtual functions are the
    class [StartLine].

    A pointer to the value of a header is its index.  [None] is a failed
    CHECK, a null pointer used as a string, or undefined behaviour, as in the
    components called; the theorems say where it cannot arise.  A static table
    that ends in a sentinel is the list of its other rows. *)

From S2P Require Import Prelude CType Number StringPiece StringAlgorithm Specification Scan.

(** ** Versions: http_version.h *)

(** [m_value], of 32 bits. *)
Definition HttpVersion : Type := Z.
Definition new_HttpVersion (major minor : Z) : HttpVersion := u32 (Z.lor (Z.shiftl major 16) minor).
Definition Major (v : HttpVersion) : Z := Z.shiftr v 16.
Definition Minor (v : HttpVersion) : Z := Z.land v 65535.
Definition IsEmpty (v : HttpVersion) : bool := v =? 0.
Definition version_eq (v w : HttpVersion) : bool := v =? w.
Definition version_lt (v w : HttpVersion) : bool := v <? w.
Definition version_le (v w : HttpVersion) : bool := v <=? w.

(** ** Headers: http_headers.cpp *)

Abbreviation HttpHeaders := (list (bytes * bytes)).

Inductive ErrorCode := SUCCESS | ERROR_NO_START_LINE | ERROR_START_LINE_NOT_COMPLETE | ERROR_VERSION_UNSUPPORTED
  | ERROR_RESPONSE_STATUS_NOT_FOUND | ERROR_FIELD_NOT_COMPLETE | ERROR_METHOD_NOT_FOUND | ERROR_MESSAGE_NOT_COMPLETE.

Module Headers.

Fixpoint AppendToString (h : HttpHeaders) (result : bytes) : bytes :=
  match h with
  | [] => result
  | (name, value) :: h => AppendToString h (result ++ name ++ str ": " ++ value ++ [13; 10])
  end.
Definition ToString (h : HttpHeaders) : bytes := AppendToString h [].

(** The index of the first header of this name. *)
Fixpoint Get_index (name : bytes) (h : HttpHeaders) (i : nat) : option (option nat) :=
  match h with
  | [] => Some None
  | (n, _) :: h => eq ← ignore_case_equal name n; if (eq : bool) then Some (Some i) else Get_index name h (S i)
  end.
Definition Get_pointer (name : bytes) (h : HttpHeaders) : option (option nat) := Get_index name h 0.

(** The value copied, when there is one. *)
Definition Get (name : bytes) (h : HttpHeaders) : option (option bytes) :=
  p ← Get_pointer name h;
  match p with Some i => x ← h !! i; Some (Some x.2) | None => Some None end.

Fixpoint get_loop (name : bytes) (h : HttpHeaders) (values : list bytes) : option (list bytes) :=
  match h with
  | [] => Some values
  | (n, v) :: h =>
      eq ← ignore_case_equal name n; get_loop name h (if (eq : bool) then values ++ [v] else values)
  end.
Definition Get_all (name : bytes) (h : HttpHeaders) : option (bool * list bytes) :=
  values ← get_loop name h []; Some ((0 <? length values)%nat, values).

Fixpoint Remove (name : bytes) (h : HttpHeaders) : option (bool * HttpHeaders) :=
  match h with
  | [] => Some (false, [])
  | (n, v) :: h =>
      eq ← ignore_case_equal name n;
      '(removed, h') ← Remove name h;
      Some (if (eq : bool) then (true, h') else (removed, (n, v) :: h'))
  end.

Definition Add (name value : bytes) (h : HttpHeaders) : HttpHeaders := h ++ [(name, value)].
Definition Add_all (rhs h : HttpHeaders) : HttpHeaders := h ++ rhs.
Definition Set_ (name value : bytes) (h : HttpHeaders) : option HttpHeaders :=
  '(_, h) ← Remove name h; Some (Add name value h).

Fixpoint Has (name : bytes) (h : HttpHeaders) : option bool :=
  match h with
  | [] => Some false
  | (n, _) :: h => eq ← ignore_case_equal name n; if (eq : bool) then Some true else Has name h
  end.

Definition Count (h : HttpHeaders) : nat := length h.

(** The size is converted to an [int]. *)
Definition GetAt (index : Z) (h : HttpHeaders) : option (option (bytes * bytes)) :=
  if ((index <? 0) || (s32 (Z.of_nat (length h)) <=? index))%bool then Some None
  else x ← h !! Z.to_nat index; Some (Some x).

(** The lines but the last. *)
Fixpoint parse_loop (lines : list bytes) (h : HttpHeaders) : bool * ErrorCode * HttpHeaders :=
  match lines with
  | [] => (true, SUCCESS, h)
  | line :: lines =>
      match find line (str ":") 0 with
      | Some pos =>
          parse_loop lines (h ++ [(StringTrim (take pos line), StringTrim (drop (pos + 1) line))])
      | None => if bool_decide (line = []) then (false, ERROR_FIELD_NOT_COMPLETE, []) else parse_loop lines h
      end
  end.

(** What the object held before is dropped. *)
Definition Parse (data : bytes) : option (bool * ErrorCode * HttpHeaders) :=
  lines ← SplitLines data false;
  Some (match last lines with
        | Some [] => parse_loop (removelast lines) []
        | _ => (false, ERROR_MESSAGE_NOT_COMPLETE, [])
        end).

Definition Clear (h : HttpHeaders) : HttpHeaders := [].
Definition Swap (h rhs : HttpHeaders) : HttpHeaders * HttpHeaders := (rhs, h).

End Headers.

(** ** Messages: http_message.cpp *)

Record HttpMessage := mkMessage { m_version : HttpVersion; m_headers : HttpHeaders; m_body : bytes }.

Definition new_HttpMessage : HttpMessage := mkMessage (new_HttpVersion 1 1) [] [].

Definition set_version (v : HttpVersion) (m : HttpMessage) := mkMessage v (m_headers m) (m_body m).
Definition set_headers (h : HttpHeaders) (m : HttpMessage) := mkMessage (m_version m) h (m_body m).
Definition SetBody (b : bytes) (m : HttpMessage) := mkMessage (m_version m) (m_headers m) b.
Definition SetVersion (major minor : Z) (m : HttpMessage) := set_version (new_HttpVersion major minor) m.
Definition ClearVersion (m : HttpMessage) := set_version 0 m.

(** [HttpMessage::Reset] *)
Definition Reset_message (m : HttpMessage) : HttpMessage := mkMessage 0 (Headers.Clear (m_headers m)) [].

(** The pure virtual functions.  [AppendStartLineToString] gives the string;
    [ParseStartLine] the error it stores, or none and returns true. *)
Class StartLine (T : Type) := {
  message : T → HttpMessage;
  with_message : HttpMessage → T → T;
  AppendStartLineToString : T → bytes → option bytes;
  ParseStartLine : bytes → T → option (option ErrorCode * T)
}.

Section Message.
Context {F : FloatLibrary}.

(** The two variables of [ParseVersion] are at the addresses 0 and 1. *)
Definition ParseVersion (version_str : bytes) (m : HttpMessage) : option (bool * HttpMessage) :=
  is_http ← starts_with version_str (str "HTTP/");
  if negb is_http then Some (false, m)
  else
    let ver := drop 5 version_str in
    '(n, vars) ← StringScan ver (str "%d.%d") [(TInt t_int, 0%nat); (TInt t_int, 1%nat)] ∅;
    if negb (n =? 2) then Some (false, m)
    else match vars !! 0%nat, vars !! 1%nat with
         | Some (VInt major), Some (VInt minor) => Some (true, set_version (new_HttpVersion major minor) m)
         | _, _ => None
         end.

(** [StringAppend] of an [int]. *)
Definition StringAppend_int (n : Z) (s : bytes) : bytes := AppendIntegerToString t_int n s.

Section Virtual.
Context {T : Type} `{StartLine T}.

Definition headers (x : T) : HttpHeaders := m_headers (message x).
Definition update_headers (f : HttpHeaders → HttpHeaders) (x : T) : T :=
  with_message (set_headers (f (headers x)) (message x)) x.

Definition StartLine_ (x : T) : option bytes := AppendStartLineToString x [].

Definition AppendHeadersToString (x : T) (result : bytes) : option bytes :=
  result ← AppendStartLineToString x result;
  Some (Headers.AppendToString (headers x) (result ++ [13; 10]) ++ [13; 10]).
Definition HeadersToString (x : T) : option bytes := AppendHeadersToString x [].
Definition AppendToString (x : T) (result : bytes) : option bytes :=
  result ← AppendHeadersToString x result; Some (result ++ m_body (message x)).
Definition ToString (x : T) : option bytes := AppendToString x [].

Definition GetHeader_pointer (name : bytes) (x : T) : option (option nat) := Headers.Get_pointer name (headers x).
Definition GetHeader (name : bytes) (x : T) : option (option bytes) :=
  p ← GetHeader_pointer name x;
  match p with Some i => y ← headers x !! i; Some (Some y.2) | None => Some None end.
(** The value, or the empty string. *)
Definition GetHeader_value (name : bytes) (x : T) : option bytes := default [] <$> GetHeader name x.
Definition GetHeaders (name : bytes) (x : T) : option (bool * list bytes) := Headers.Get_all name (headers x).
Definition SetHeader (name value : bytes) (x : T) : option T :=
  h ← Headers.Set_ name value (headers x); Some (update_headers (λ _, h) x).
Definition SetHeaders (h : HttpHeaders) (x : T) : T := update_headers (λ _, h) x.
Definition AddHeader (name value : bytes) (x : T) : T := update_headers (Headers.Add name value) x.
Definition AddHeaders (h : HttpHeaders) (x : T) : T := update_headers (Headers.Add_all h) x.
Definition RemoveHeader (name : bytes) (x : T) : option (bool * T) :=
  '(removed, h) ← Headers.Remove name (headers x); Some (removed, update_headers (λ _, h) x).
Definition HasHeader (name : bytes) (x : T) : option bool := Headers.Has name (headers x).

Definition ParseHeaders (data : bytes) (x : T) : option (bool * ErrorCode * T) :=
  let pos := default (length data) (find_char data 10 0) in
  let first_line := StringTrimRight_of (substr data 0 (Some pos)) [13] in
  if bool_decide (first_line = []) then Some (false, ERROR_NO_START_LINE, x)
  else
    '(error, x) ← ParseStartLine first_line x;
    match error with
    | Some e => Some (false, e, x)
    | None =>
        '(result, code, h) ← Headers.Parse (substr data (pos + 1) None);
        Some (result, code, update_headers (λ _, h) x)
    end.

Definition GetContentLength (x : T) : option Z :=
  v ← GetHeader (str "Content-Length") x;
  match v with
  | None => Some (-1)
  | Some content_length =>
      match StringToNumber t_int content_length with
      | Some length => Some (if 0 <=? length then length else -1)
      | None => Some (-1)
      end
  end.

(** [strcasecmp] on C strings *)
Definition strcasecmp_eq (a b : bytes) : bool := bool_decide (tolower <$> before_nul a = tolower <$> before_nul b).

Definition IsKeepAlive (x : T) : option bool :=
  p ← GetHeader_pointer (str "Connection") x;
  match p with
  | None => Some (if version_lt (m_version (message x)) (new_HttpVersion 1 1) then false else true)
  | Some i => alive ← headers x !! i; Some (strcasecmp_eq alive.2 (str "keep-alive"))
  end.

End Virtual.

(** ** Requests: http_request.cpp *)

Inductive MethodType := METHOD_UNKNOWN | METHOD_HEAD | METHOD_GET | METHOD_POST | METHOD_PUT | METHOD_DELETE
  | METHOD_OPTIONS | METHOD_TRACE | METHOD_CONNECT | METHOD_UPPER_BOUND.

#[export] Instance MethodType_eq_dec : EqDecision MethodType.
Proof. solve_decision. Defined.

Definition kValidMethodNames : list (MethodType * bytes) :=
  [(METHOD_HEAD, str "HEAD"); (METHOD_GET, str "GET"); (METHOD_POST, str "POST"); (METHOD_PUT, str "PUT");
   (METHOD_DELETE, str "DELETE"); (METHOD_OPTIONS, str "OPTIONS"); (METHOD_TRACE, str "TRACE");
   (METHOD_CONNECT, str "CONNECT")].

(** The value of the enumerator. *)
Definition method_value (m : MethodType) : nat :=
  match m with
  | METHOD_UNKNOWN => 0 | METHOD_HEAD => 1 | METHOD_GET => 2 | METHOD_POST => 3 | METHOD_PUT => 4
  | METHOD_DELETE => 5 | METHOD_OPTIONS => 6 | METHOD_TRACE => 7 | METHOD_CONNECT => 8 | METHOD_UPPER_BOUND => 9
  end.

(** The loop over the table; [strcmp] compares C strings. *)
Fixpoint method_loop (table : list (MethodType * bytes)) (method_name : bytes) : MethodType :=
  match table with
  | [] => METHOD_UNKNOWN
  | (m, name) :: table => if bool_decide (before_nul method_name = name) then m else method_loop table method_name
  end.
Definition GetMethodByName (method_name : bytes) : MethodType := method_loop kValidMethodNames method_name.

(** NULL is [None]. *)
Definition GetMethodName (m : MethodType) : option bytes :=
  if ((method_value m <=? 0) || (9 <=? method_value m))%nat%bool then None
  else snd <$> kValidMethodNames !! (method_value m - 1)%nat.

Record HttpRequest := mkRequest { request : HttpMessage; m_method : MethodType; m_uri : bytes }.

Definition new_HttpRequest : HttpRequest := mkRequest new_HttpMessage METHOD_UNKNOWN (str "/").
Definition Request_Reset (r : HttpRequest) : HttpRequest := mkRequest (Reset_message (request r)) METHOD_UNKNOWN (str "/").
Definition SetMethod (m : MethodType) (r : HttpRequest) : HttpRequest := mkRequest (request r) m (m_uri r).
Definition SetUri (u : bytes) (r : HttpRequest) : HttpRequest := mkRequest (request r) (m_method r) u.
Definition Request_Swap (r other : HttpRequest) : HttpRequest * HttpRequest := (other, r).

Definition Request_ParseStartLine (data : bytes) (r : HttpRequest) : option (option ErrorCode * HttpRequest) :=
  fields ← SplitString data (str " ");
  if (negb (length fields =? 2)%nat && negb (length fields =? 3)%nat)%bool then Some (Some ERROR_START_LINE_NOT_COMPLETE, r)
  else
    name ← fields !! 0%nat;
    let method := GetMethodByName name in
    let r := SetMethod method r in
    if bool_decide (method = METHOD_UNKNOWN) then Some (Some ERROR_METHOD_NOT_FOUND, r)
    else
      uri ← fields !! 1%nat;
      let r := SetUri uri r in
      if (length fields =? 3)%nat then
        version ← fields !! 2%nat;
        '(ok, m) ← ParseVersion version (request r);
        Some (if (ok : bool) then None else Some ERROR_VERSION_UNSUPPORTED, mkRequest m (m_method r) (m_uri r))
      else Some (None, r).

Definition Request_AppendStartLine (r : HttpRequest) (result : bytes) : option bytes :=
  if bool_decide (m_method r = METHOD_UNKNOWN) then None
  else
    name ← GetMethodName (m_method r);
    let result := result ++ name ++ str " " ++ m_uri r in
    let version := m_version (request r) in
    Some (if negb (IsEmpty version)
          then StringAppend_int (Minor version) (StringAppend_int (Major version) (result ++ str " " ++ str "HTTP/") ++ str ".")
          else result).

#[export] Instance Request_StartLine : StartLine HttpRequest := {
  message := request;
  with_message m r := mkRequest m (m_method r) (m_uri r);
  AppendStartLineToString := Request_AppendStartLine;
  ParseStartLine := Request_ParseStartLine
}.

(** ** Responses: http_response.cpp *)

Definition kResponseStatus : list (Z * bytes * bytes) :=
  [(100, str "Continue", str "Request received, please continue");
   (101, str "Switching Protocols", str "Switching to new protocol; obey Upgrade header");
   (200, str "OK", str "Request fulfilled, document follows");
   (201, str "Created", str "Document created, URL follows");
   (202, str "Accepted", str "Request accepted, processing continues off-line");
   (203, str "Non-Authoritative Information", str "Request fulfilled from cache");
   (204, str "No Content", str "Request fulfilled, nothing follows");
   (205, str "Reset Content", str "Clear input form for further input.");
   (206, str "Partial Content", str "Partial content follows.");
   (300, str "Multiple Choices", str "Object has several resources -- see URI list");
   (301, str "Moved Permanently", str "Object moved permanently -- see URI list");
   (302, str "Found", str "Object moved temporarily -- see URI list");
   (303, str "See Other", str "Object moved -- see Method and URL list");
   (304, str "Not Modified", str "Document has not changed since given time");
   (305, str "Use Proxy", str "You must use proxy specified in Location to access this resource.");
   (307, str "Temporary Redirect", str "Object moved temporarily -- see URI list");
   (400, str "Bad Request", str "Bad request syntax or unsupported method");
   (401, str "Unauthorized", str "No permission -- see authorization schemes");
   (402, str "Payment Required", str "No payment -- see charging schemes");
   (403, str "Forbidden", str "Request forbidden -- authorization will not help");
   (404, str "Not Found", str "Nothing matches the given URI");
   (405, str "Method Not Allowed", str "Specified method is invalid for this resource.");
   (406, str "Not Acceptable", str "URI not available in preferred format.");
   (407, str "Proxy Authentication Required", str "You must authenticate with this proxy before proceeding.");
   (408, str "Request Timeout", str "Request timed out; try again later.");
   (409, str "Conflict", str "Request conflict.");
   (410, str "Gone", str "URI no longer exists and has been permanently removed.");
   (411, str "Length Required", str "Client must specify Content-Length.");
   (412, str "Precondition Failed", str "Precondition in headers is false.");
   (413, str "Request Entity Too Large", str "Entity is too large.");
   (414, str "Request-URI Too Long", str "URI is too long.");
   (415, str "Unsupported Media Type", str "Entity body in unsupported format.");
   (416, str "Requested Range Not Satisfiable", str "Cannot satisfy request range.");
   (417, str "Expectation Failed", str "Expect condition could not be satisfied.");
   (500, str "Internal Server Error", str "Server got itself in trouble");
   (501, str "Not Implemented", str "Server does not support this operation");
   (502, str "Bad Gateway", str "Invalid responses from another server/proxy.");
   (503, str "Service Unavailable", str "The server cannot process the request due to a high load");
   (504, str "Gateway Timeout", str "The gateway server did not receive a timely response");
   (505, str "HTTP Version Not Supported", str "Cannot fulfill request.")].

(** The loops over the table up to its sentinel. *)
Fixpoint status_loop (table : list (Z * bytes * bytes)) (status_code : Z) : option (bytes * bytes) :=
  match table with
  | [] => None
  | (code, reason, description) :: table =>
      if code =? status_code then Some (reason, description) else status_loop table status_code
  end.
(** [no_match] may be NULL, which is [None]. *)
Definition InternalStatusCodeToReasonPhrase (status_code : Z) (no_match : option bytes) : option bytes :=
  match status_loop kResponseStatus status_code with Some (reason, _) => Some reason | None => no_match end.
Definition StatusCodeToReasonPhrase (status_code : Z) : option bytes := InternalStatusCodeToReasonPhrase status_code None.
Definition StatusCodeToReasonPhraseSafe (status_code : Z) : bytes :=
  default [] (InternalStatusCodeToReasonPhrase status_code (Some (str "Unknown"))).
Definition StatusCodeToDescription (status_code : Z) : bytes :=
  match status_loop kResponseStatus status_code with Some (_, d) => d | None => str "Unknown" end.

Record HttpResponse := mkResponse { response : HttpMessage; m_status : Z }.

Definition new_HttpResponse : HttpResponse := mkResponse new_HttpMessage 0.
Definition Response_Reset (r : HttpResponse) : HttpResponse := mkResponse (Reset_message (response r)) 0.
Definition SetStatus (status : Z) (r : HttpResponse) : HttpResponse := mkResponse (response r) status.
Definition Response_Swap (r other : HttpResponse) : HttpResponse * HttpResponse := (other, r).

Definition Response_ParseStartLine (data : bytes) (r : HttpResponse) : option (option ErrorCode * HttpResponse) :=
  fields ← SplitString data (str " ");
  if (length fields <? 2)%nat then Some (Some ERROR_START_LINE_NOT_COMPLETE, r)
  else
    version ← fields !! 0%nat;
    '(ok, m) ← ParseVersion version (response r);
    let r := mkResponse m (m_status r) in
    if negb ok then Some (Some ERROR_VERSION_UNSUPPORTED, r)
    else
      text ← fields !! 1%nat;
      match StringToNumber_base t_int text 10 with
      | None => Some (Some ERROR_RESPONSE_STATUS_NOT_FOUND, r)
      | Some status =>
          if ((status <? 100) || (999 <? status))%bool then Some (Some ERROR_RESPONSE_STATUS_NOT_FOUND, r)
          else Some (None, SetStatus status r)
      end.

(** The second number is the major version again. *)
Definition Response_AppendStartLine (r : HttpResponse) (result : bytes) : option bytes :=
  let v := m_version (response r) in
  Some (StringAppend_int (m_status r)
    (StringAppend_int (Major v) (StringAppend_int (Major v) (result ++ str "HTTP/") ++ str ".") ++ str " ")
    ++ str " " ++ StatusCodeToReasonPhraseSafe (m_status r)).

#[export] Instance Response_StartLine : StartLine HttpResponse := {
  message := response;
  with_message m r := mkResponse m (m_status r);
  AppendStartLineToString := Response_AppendStartLine;
  ParseStartLine := Response_ParseStartLine
}.

Definition newline : bytes := [10].

Definition FillWithHtmlPage (code : Z) (title body : bytes) (r : HttpResponse) : option HttpResponse :=
  let r := SetStatus code r in
  r ← SetHeader (str "Content-Type") (str "text/html") r;
  let http_body := str "<html>" ++ newline ++ str "<head>" ++ newline ++ str "</title>" in
  let http_body :=
    if bool_decide (title = []) then
      StringAppend_int code (http_body ++ str "HTTP ") ++ str " " ++ StatusCodeToReasonPhraseSafe code
    else http_body ++ title in
  let http_body := http_body ++ str "</title>" ++ newline ++ str "</head>" ++ newline in
  let http_body := http_body ++ str "<body>" in
  let http_body := http_body ++ (if bool_decide (body = []) then StatusCodeToDescription code else body) in
  let http_body := http_body ++ str "</body>" ++ newline ++ str "</html>" ++ newline in
  Some (mkResponse (SetBody http_body (response r)) (m_status r)).

Example request_text : ToString (mkRequest (mkMessage (new_HttpVersion 1 1) [(str "Hello", str "World")] (str "Kitty"))
    METHOD_GET (str "/")) = Some (str "GET / HTTP/1.1" ++ [13; 10] ++ str "Hello: World" ++ [13; 10; 13; 10] ++ str "Kitty").
Proof. by vm_compute. Qed.

(** A response of version 1.0 says 1.1. *)
Example response_version : StartLine_ (mkResponse (mkMessage (new_HttpVersion 1 0) [] []) 200) = Some (str "HTTP/1.1 200 OK").
Proof. by vm_compute. Qed.

End Message.
