(* ===== verification/HttpFacts.v ===== *)
(** * Theorems on HTTP messages

    The headers are a map from names, compared without case, to lists of
    values; parsing classifies every input; what is printed is read back. *)

From S2P Require Import Prelude CType Number StringPiece StringAlgorithm Specification Scan Http.

(** ** Names without case *)

Definition same_name (a b : bytes) : Prop := toupper <$> a = toupper <$> b.

#[export] Instance same_name_dec a b : Decision (same_name a b).
Proof. unfold same_name. apply _. Defined.

Lemma memcasecmp_eq a b : length a = length b → ∃ r, memcasecmp a b (length a) = Some r ∧ (r = 0 ↔ same_name a b).
Proof.
  revert b. induction a as [|x a IH]; intros [|y b] Hl; [by exists 0|done|done|]. cbn in Hl. injection Hl as Hl.
  cbn [memcasecmp length]. unfold same_name. cbn [fmap list_fmap].
  destruct (Z.eqb_spec (toupper x - toupper y) 0) as [E|E].
  - destruct (IH b Hl) as (r & -> & Hr). exists r. split; [done|]. unfold same_name in Hr. rewrite Hr.
    assert (toupper x = toupper y) as -> by lia. split; [by intros ->|by intros [= ->]].
  - exists (toupper x - toupper y). split; [done|]. split; [done|]. intros [= E' _]. lia.
Qed.

Lemma ignore_case_equal_eq a b : ignore_case_equal a b = Some (bool_decide (same_name a b)).
Proof.
  unfold ignore_case_equal. destruct (Nat.eqb_spec (length a) (length b)) as [Hl|Hl].
  - destruct (memcasecmp_eq a b Hl) as (r & -> & Hr). cbn [mbind option_bind]. f_equal. apply eq_true_iff_eq.
    by rewrite Z.eqb_eq, bool_decide_eq_true.
  - rewrite bool_decide_eq_false_2; [done|]. intros E%(f_equal length). by rewrite !length_fmap in E.
Qed.

(** ** The operations on headers *)

(** The values of a name, in order. *)
Definition values (name : bytes) (h : HttpHeaders) : list bytes := snd <$> filter (λ x, same_name name x.1) h.
Definition others (name : bytes) (h : HttpHeaders) : HttpHeaders := filter (λ x, ¬ same_name name x.1) h.

Lemma values_cons name n v h : values name ((n, v) :: h) = (if decide (same_name name n) then [v] else []) ++ values name h.
Proof. unfold values. rewrite filter_cons. cbn [fst]. by destruct (decide (same_name name n)). Qed.

Lemma values_app name h k : values name (h ++ k) = values name h ++ values name k.
Proof. unfold values. by rewrite filter_app, fmap_app. Qed.

Lemma get_loop_eq name h vs : Headers.get_loop name h vs = Some (vs ++ values name h).
Proof.
  revert vs. induction h as [|[n v] h IH]; intros vs; cbn [Headers.get_loop]; [by rewrite app_nil_r|].
  rewrite ignore_case_equal_eq. cbn [mbind option_bind]. rewrite IH, values_cons.
  case_bool_decide; [rewrite decide_True by done|rewrite decide_False by done; done]. by rewrite <- (assoc_L (++)).
Qed.

Lemma Get_index_eq name h i : ∃ r, Headers.Get_index name h i = Some r ∧
  match r with
  | Some j => (i <= j)%nat ∧ snd <$> h !! (j - i)%nat = head (values name h) ∧ is_Some (h !! (j - i)%nat)
  | None => values name h = []
  end.
Proof.
  revert i. induction h as [|[n v] h IH]; intros i; cbn [Headers.Get_index]; [by exists None|].
  rewrite ignore_case_equal_eq. cbn [mbind option_bind]. rewrite values_cons.
  case_bool_decide as Hn; [rewrite decide_True by done|rewrite decide_False by done].
  - exists (Some i). split; [done|]. rewrite Nat.sub_diag. by split_and!.
  - destruct (IH (S i)) as ([j|] & -> & Hj); [exists (Some j)|by exists None]. split; [done|].
    destruct Hj as (Hle & Hh & Hs). assert (j - i = S (j - S i))%nat as -> by lia. split_and!; [lia|done|done].
Qed.

Lemma Get_eq name h : Headers.Get name h = Some (head (values name h)).
Proof.
  unfold Headers.Get, Headers.Get_pointer. destruct (Get_index_eq name h 0) as ([j|] & -> & Hj); cbn [mbind option_bind].
  - destruct Hj as (_ & Hh & [x Hx]). rewrite Nat.sub_0_r in *. rewrite Hx in *. cbn in *. by rewrite <- Hh.
  - by rewrite Hj.
Qed.

Lemma Has_eq name h : Headers.Has name h = Some (bool_decide (values name h ≠ [])).
Proof.
  induction h as [|[n v] h IH]; cbn [Headers.Has]; [done|].
  rewrite ignore_case_equal_eq. cbn [mbind option_bind]. rewrite values_cons, IH.
  destruct (decide (same_name name n)) as [Hn|Hn].
  - rewrite (bool_decide_eq_true_2 _ Hn). by rewrite (bool_decide_eq_true_2 (_ ++ _ ≠ [])).
  - by rewrite (bool_decide_eq_false_2 _ Hn).
Qed.

Lemma Remove_eq name h : Headers.Remove name h = Some (bool_decide (values name h ≠ []), others name h).
Proof.
  induction h as [|[n v] h IH]; cbn [Headers.Remove]; [done|].
  rewrite ignore_case_equal_eq. cbn [mbind option_bind]. rewrite IH, values_cons. cbn [mbind option_bind]. unfold others.
  rewrite filter_cons. cbn [fst]. destruct (decide (same_name name n)) as [Hn|Hn].
  - rewrite (bool_decide_eq_true_2 _ Hn), decide_False by (by intros []). by rewrite (bool_decide_eq_true_2 (_ ++ _ ≠ [])).
  - by rewrite (bool_decide_eq_false_2 _ Hn), decide_True.
Qed.

Lemma values_others name n h : values n (others name h) = if decide (same_name name n) then [] else values n h.
Proof.
  unfold values, others. rewrite list_filter_filter. case_decide as Hn.
  - rewrite filter_none; [done|]. apply Forall_forall. intros x _ [H1 H2]. apply H2. unfold same_name in *. congruence.
  - f_equal. apply list_filter_iff. intros x. split; [by intros []|]. intros H1. split; [done|].
    intros H2. apply Hn. unfold same_name in *. congruence.
Qed.

(** ** Lines *)

(** A line without its end: no newline in it, and no carriage return at its end. *)
Definition line_ok (l : bytes) : Prop := 10 ∉ l ∧ last l ≠ Some 13.

Definition ended (l : bytes) : bytes := l ++ [13; 10].

Fixpoint lines_text (ls : list bytes) : bytes :=
  match ls with [] => [] | l :: ls => ended l ++ lines_text ls end.

Lemma remove_line_ending_prefix n l k : (n <= length l)%nat → remove_line_ending n (l ++ k) = remove_line_ending n l.
Proof.
  induction n as [|n IH]; intros Hn; cbn [remove_line_ending]; [by rewrite !take_0|].
  rewrite lookup_app_l, IH by lia. by rewrite take_app_le by lia.
Qed.

Lemma RemoveLineEnding_snoc l c : RemoveLineEnding (l ++ [c]) = if line_ending c then RemoveLineEnding l else l ++ [c].
Proof.
  unfold RemoveLineEnding. rewrite length_app, Nat.add_1_r. cbn [remove_line_ending].
  rewrite list_lookup_middle by done. cbn [default from_option id].
  destruct (line_ending c); [by apply remove_line_ending_prefix|]. by rewrite take_ge by (rewrite length_app; cbn; lia).
Qed.

Lemma RemoveLineEnding_ended l : line_ok l → RemoveLineEnding (ended l) = l.
Proof.
  intros [H10 H13]. unfold ended. change [13; 10] with ([13] ++ [10]). rewrite (assoc_L (++)).
  rewrite !RemoveLineEnding_snoc. cbn [line_ending]. change (line_ending 10) with true. change (line_ending 13) with true. cbn iota.
  destruct l as [|c l] using rev_ind; [done|]. rewrite RemoveLineEnding_snoc. unfold line_ending.
  rewrite last_snoc in H13. destruct (Z.eqb_spec c 13) as [->|]; [done|].
  destruct (Z.eqb_spec c 10) as [->|]; [set_solver|done].
Qed.

Lemma lines_loop_eq ls : ∀ fuel pre result, Forall line_ok ls → (length (lines_text ls) < fuel)%nat →
  lines_loop fuel (pre ++ lines_text ls) false (length pre) result = Some (result ++ ls).
Proof.
  induction ls as [|l ls IH]; intros fuel pre result Hls Hf; (destruct fuel as [|fuel]; [lia|]); cbn [lines_loop].
  - cbn [lines_text]. rewrite !app_nil_r. unfold find_char. rewrite Nat.leb_refl, Nat.ltb_irrefl. done.
  - apply Forall_cons in Hls as [Hl Hls]. cbn [lines_text] in *. rewrite length_app in Hf.
    assert (Hlen : length (ended l) = (length l + 2)%nat) by (unfold ended; rewrite length_app; cbn; lia).
    assert (Hfind : find_char (pre ++ ended l ++ lines_text ls) 10 (length pre) = Some (length pre + (length l + 1))%nat).
    { unfold ended. change [13; 10] with ([13] ++ [10]). rewrite (assoc_L (++) l), <- !(assoc_L (++) (l ++ [13])).
      cbn [app]. rewrite find_char_after by (destruct Hl; set_solver). by rewrite length_app. }
    rewrite Hfind. replace (length pre + (length l + 1) + 1)%nat with (length (pre ++ ended l)) by (rewrite length_app; lia).
    rewrite drop_app_length, take_app_length' by lia. rewrite (assoc_L (++) pre), IH by (done || lia).
    rewrite RemoveLineEnding_ended by done. by rewrite <- (assoc_L (++)).
Qed.

Lemma SplitLines_eq ls : Forall line_ok ls → SplitLines (lines_text ls) false = Some ls.
Proof. intros Hls. apply (lines_loop_eq ls _ []); [done|cbn; lia]. Qed.

(** ** Trimming *)

Definition trimmed (s : bytes) : Prop := drop_while isspace s = s ∧ trim_right isspace s = s.

Lemma StringTrim_eq s : bytes_ok s → StringTrim s = trim_right isspace (drop_while isspace s).
Proof. intros Hs. by destruct (trims s [] Hs) as (_ & _ & E & _); [constructor|]. Qed.

Lemma StringTrim_trimmed sp s : bytes_ok (sp ++ s) → spaces sp → trimmed s → StringTrim (sp ++ s) = s.
Proof. intros Hb Hsp [H1 H2]. by rewrite StringTrim_eq, drop_while_app, H1, H2. Qed.

Lemma drop_while_length P s : (length (drop_while P s) <= length s)%nat.
Proof. induction s as [|c s IH]; cbn; [done|]. destruct (P c); cbn; lia. Qed.

Lemma trimmed_last s c : trimmed s → last s = Some c → isspace c = false.
Proof.
  intros [_ H] Hc. destruct (isspace c) eqn:E; [|done]. destruct s as [|x s] using rev_ind; [done|].
  rewrite last_snoc in Hc. injection Hc as ->. rewrite trim_right_app in H by by repeat constructor.
  apply (f_equal length) in H. unfold trim_right in H. rewrite length_reverse, length_app in H.
  pose proof (drop_while_length isspace (reverse s)) as Hl. rewrite length_reverse in Hl. cbn in H. lia.
Qed.

(** ** Parsing headers *)

(** A line is a header when it has a colon. *)
Definition header_of (line : bytes) : option (bytes * bytes) :=
  pos ← find line (str ":") 0; Some (StringTrim (take pos line), StringTrim (drop (pos + 1) line)).

Lemma parse_loop_eq ls h : Headers.parse_loop ls h =
  if decide ([] ∈ ls) then (false, ERROR_FIELD_NOT_COMPLETE, []) else (true, SUCCESS, h ++ omap header_of ls).
Proof.
  revert h. induction ls as [|l ls IH]; intros h; cbn [Headers.parse_loop]; [by rewrite decide_False, app_nil_r by set_solver|].
  assert (Hin : l ≠ [] → [] ∈ l :: ls ↔ [] ∈ ls) by (intros; set_solver).
  cbn [omap list_omap]. unfold header_of at 1. destruct (find l (str ":") 0) as [pos|] eqn:E.
  - rewrite IH. cbn [mbind option_bind]. assert (Hl : l ≠ []) by (intros ->; vm_compute in E; done).
    destruct (decide ([] ∈ ls)) as [H|H]; rewrite <- (Hin Hl) in H; [by rewrite decide_True by done|].
    rewrite decide_False by done. by rewrite <- (assoc_L (++)).
  - cbn [mbind option_bind]. case_bool_decide as Hl; [by rewrite decide_True by set_solver|]. rewrite IH.
    destruct (decide ([] ∈ ls)) as [H|H]; rewrite <- (Hin Hl) in H; [by rewrite decide_True by done|].
    by rewrite decide_False by done.
Qed.

(** The whole parser: the text must end in an empty line, and no line before
    it is empty; lines without a colon are passed over. *)
Lemma Parse_lines data ls : SplitLines data false = Some ls → Headers.Parse data = Some
  (match last ls with
   | Some [] => if decide ([] ∈ removelast ls) then (false, ERROR_FIELD_NOT_COMPLETE, [])
                else (true, SUCCESS, omap header_of (removelast ls))
   | _ => (false, ERROR_MESSAGE_NOT_COMPLETE, [])
   end).
Proof.
  intros E. unfold Headers.Parse. rewrite E. cbn [mbind option_bind]. destruct (last ls) as [[|c l]|]; [|done|done].
  by rewrite parse_loop_eq.
Qed.

Lemma lines_loop_total fuel : ∀ s prev result, (length s - prev < fuel)%nat → is_Some (lines_loop fuel s false prev result).
Proof.
  induction fuel as [|fuel IH]; intros s prev result Hf; [lia|]. cbn [lines_loop].
  pose proof (find_char_spec s 10 prev) as H. destruct (find_char s 10 prev) as [pos|]; [|done].
  destruct H as (Hle & (c & Hc & _) & _). apply lookup_lt_Some in Hc. apply IH. lia.
Qed.

Lemma SplitLines_total s : is_Some (SplitLines s false).
Proof. apply lines_loop_total. lia. Qed.

(** *** Headers written and read *)

Definition header_text (x : bytes * bytes) : bytes := x.1 ++ str ": " ++ x.2.

Definition header_ok (x : bytes * bytes) : Prop :=
  bytes_ok x.1 ∧ bytes_ok x.2 ∧ 58 ∉ x.1 ∧ 10 ∉ x.1 ∧ 10 ∉ x.2 ∧ trimmed x.1 ∧ trimmed x.2.

Lemma Headers_AppendToString_eq h result :
  Headers.AppendToString h result = result ++ lines_text (header_text <$> h).
Proof.
  revert result. induction h as [|[n v] h IH]; intros result; cbn [Headers.AppendToString fmap list_fmap lines_text];
    [by rewrite app_nil_r|]. rewrite IH. unfold ended, header_text. cbn [fst snd]. by rewrite <- !(assoc_L (++)).
Qed.

Lemma header_line_ok x : header_ok x → line_ok (header_text x) ∧ header_text x ≠ [].
Proof.
  destruct x as [n v]. unfold header_ok, header_text. cbn [fst snd]. intros (_ & _ & _ & Hn & Hv & _ & Ht). split.
  - split; [change (str ": ") with [58; 32]; set_solver|]. rewrite (assoc_L (++)).
    destruct v as [|c v _] using rev_ind; [by rewrite app_nil_r, last_app|]. rewrite (assoc_L (++)), last_snoc.
    intros [= ->]. pose proof (trimmed_last _ 13 Ht) as H. rewrite last_snoc in H. by specialize (H eq_refl).
  - by destruct n.
Qed.

Lemma header_reads x : header_ok x → header_of (header_text x) = Some x.
Proof.
  destruct x as [n v]. unfold header_ok, header_text, header_of. cbn [fst snd]. intros (Hbn & Hbv & Hc & _ & _ & Hn & Hv).
  change (str ": ") with (58 :: [32]). change (str ":") with [58]. rewrite <- find_char_find. cbn [app].
  rewrite find_char_first by done. cbn [mbind option_bind]. rewrite take_app_length.
  replace (drop (length n + 1) (n ++ 58 :: 32 :: v)) with ([32] ++ v)
    by (rewrite drop_app_ge by lia; by replace (length n + 1 - length n)%nat with 1%nat by lia).
  rewrite (StringTrim_trimmed [32] v) by (done || (constructor; done) || by repeat constructor).
  pose proof (StringTrim_trimmed [] n Hbn (Forall_nil_2 _) Hn) as E. cbn [app] in E. by rewrite E.
Qed.

Lemma Headers_roundtrip h : Forall header_ok h →
  Headers.Parse (Headers.ToString h ++ [13; 10]) = Some (true, SUCCESS, h).
Proof.
  intros Hh. set (ls := (header_text <$> h) ++ [[]]).
  assert (Htext : Headers.ToString h ++ [13; 10] = lines_text ls).
  { unfold Headers.ToString, ls. rewrite Headers_AppendToString_eq. cbn [app]. clear Hh ls. induction h as [|x h IH]; [done|].
    cbn [fmap list_fmap lines_text app]. rewrite <- IH. by rewrite <- (assoc_L (++)). }
  rewrite Htext, (Parse_lines _ ls).
  - unfold ls. rewrite last_snoc, removelast_last. rewrite decide_False.
    + assert (E : omap header_of (header_text <$> h) = h) by (clear - Hh; induction Hh as [|x h Hx Hh IH]; [done|];
        cbn [fmap list_fmap omap list_omap]; by rewrite header_reads, IH). by rewrite E.
    + intros (x & E & Hx)%list_elem_of_fmap. rewrite Forall_forall in Hh. by destruct (header_line_ok x (Hh x Hx)).
  - apply SplitLines_eq. unfold ls. apply Forall_app. split; [|by repeat constructor; [set_solver|]].
    apply Forall_fmap. eapply Forall_impl; [exact Hh|]. intros x Hx. by apply header_line_ok.
Qed.

(** ** Start lines *)

Lemma run_length_word w c rest : c ∉ w → run_length c (w ++ c :: rest) = length w.
Proof.
  induction w as [|x w IH]; intros Hc; cbn; [by rewrite Z.eqb_refl|].
  destruct (Z.eqb_spec x c) as [->|]; [set_solver|]. rewrite IH by set_solver. done.
Qed.

(** The words of a text: the first one, and those of the rest. *)
Definition words (s : bytes) : list bytes := filter (.≠ []) (cut [32] s).

Lemma words_cons w rest : w ≠ [] → 32 ∉ w → words (w ++ 32 :: rest) = w :: words rest.
Proof.
  intros Hw Hs. unfold words. destruct w as [|x w]; [done|]. rewrite cut_char. cbn [app].
  destruct (Z.eqb_spec x 32) as [->|]; [set_solver|]. rewrite run_length_word by set_solver.
  change (x :: w ++ 32 :: rest) with ((x :: w) ++ 32 :: rest).
  change (S (length w)) with (length (x :: w)). rewrite take_app_length, drop_app_length.
  f_equal.
Qed.

Lemma words_one w : w ≠ [] → 32 ∉ w → words w = [w].
Proof.
  intros Hw Hs. unfold words. rewrite cut_no by done. by rewrite filter_cons_True.
Qed.

Lemma StringAppend_int_eq n s : 0 <= n < 2 ^ 31 → StringAppend_int n s = s ++ decimal n.
Proof.
  intros Hn. unfold StringAppend_int, AppendIntegerToString. rewrite OutputIntegerAsString_eq.
  - unfold signed_decimal. by destruct (Z.ltb_spec n 0); [lia|].
  - by left.
  - unfold fits_in, min_value, max_value. cbn. lia.
Qed.

Lemma decimal_chars n : 0 <= n < 2 ^ 31 → decimal n ≠ [] ∧ Forall (λ c, 48 <= c <= 57) (decimal n).
Proof. intros Hn. destruct (decimal_facts n) as (_ & _ & H1 & H2 & _); [unfold limit; lia|done]. Qed.

Lemma digits_bytes s : Forall (λ c, 48 <= c <= 57) s → bytes_ok s ∧ 32 ∉ s ∧ 10 ∉ s ∧ 13 ∉ s.
Proof.
  intros H. rewrite Forall_forall in H. split; [apply Forall_forall; intros c Hc; specialize (H c Hc); unfold is_byte; lia|].
  split_and!; intros Hc; specialize (H _ Hc); lia.
Qed.

Definition version_text (a b : Z) : bytes := str "HTTP/" ++ decimal a ++ str "." ++ decimal b.

Lemma version_text_chars a b : 0 <= a < 2 ^ 31 → 0 <= b < 2 ^ 31 →
  bytes_ok (version_text a b) ∧ version_text a b ≠ [] ∧ 32 ∉ version_text a b ∧ 10 ∉ version_text a b ∧ 13 ∉ version_text a b.
Proof.
  intros Ha Hb. destruct (decimal_chars a Ha) as [_ Hca]. destruct (decimal_chars b Hb) as [_ Hcb].
  destruct (digits_bytes _ Hca) as (Ba & A1 & A2 & A3). destruct (digits_bytes _ Hcb) as (Bb & B1 & B2 & B3).
  unfold version_text. change (str "HTTP/") with [72; 84; 84; 80; 47]. change (str ".") with [46].
  split; [|split; [done|split_and!; set_solver by lia]].
  repeat (apply bytes_ok_app; split); (done || by repeat constructor).
Qed.

Section Versions.
Context {F : FloatLibrary}.

Definition version_pieces (a b : Z) : list piece :=
  [Field false None 0 [] (Letter (chr "d")) (TInt t_int) ([] ++ signed_decimal a) (VInt a); Lit (chr ".");
   Field false None 0 [] (Letter (chr "d")) (TInt t_int) ([] ++ signed_decimal b) (VInt b)].

Lemma nonneg_decimal n : 0 <= n → signed_decimal n = decimal n.
Proof. intros Hn. unfold signed_decimal. by destruct (Z.ltb_spec n 0); [lia|]. Qed.

Lemma version_field n rest : 0 <= n < 2 ^ 31 → no_digit rest →
  field_text (TInt t_int) (Letter (chr "d")) ([] ++ signed_decimal n) rest (VInt n).
Proof.
  intros Hn Hr. apply field_int; [by right; right; left|unfold fits_in, min_value, max_value; cbn; lia|constructor|done|by left].
Qed.

Lemma scan_version a b : 0 <= a < 2 ^ 31 → 0 <= b < 2 ^ 31 →
  StringScan (decimal a ++ str "." ++ decimal b) (str "%d.%d") [(TInt t_int, 0%nat); (TInt t_int, 1%nat)] ∅ =
    Some (2, <[1%nat := VInt b]> (<[0%nat := VInt a]> ∅)).
Proof.
  intros Ha Hb.
  pose proof (StringScan_pieces (version_pieces a b) [] [(TInt t_int, 0%nat); (TInt t_int, 1%nat)] ∅) as E.
  assert (Ht : text_of (version_pieces a b) ++ [] = decimal a ++ str "." ++ decimal b).
  { cbn [version_pieces text_of mbind list_bind piece_text app]. by rewrite !nonneg_decimal, !app_nil_r by lia. }
  rewrite Ht in E. etransitivity; [|apply E]; [done| |done].
  assert (Hd : chr "d" ∈ specifiers) by (apply (bool_decide_unpack _); by vm_compute).
  assert (Hl : (0, [] : bytes) ∈ length_table) by (unfold length_table; set_solver).
  cbn [pieces_ok version_pieces]. split_and!; try done; apply version_field; (done || lia || by eexists _, _).
Qed.

Lemma ParseVersion_text a b m : 0 <= a < 2 ^ 31 → 0 <= b < 2 ^ 31 →
  ParseVersion (version_text a b) m = Some (true, set_version (new_HttpVersion a b) m).
Proof.
  intros Ha Hb. unfold ParseVersion. destruct (version_text_chars a b Ha Hb) as [Hok _].
  rewrite starts_with_spec by (done || by repeat constructor). cbn [mbind option_bind].
  rewrite bool_decide_eq_true_2 by done. cbn [negb].
  change (drop 5 (version_text a b)) with (decimal a ++ str "." ++ decimal b). rewrite scan_version by done.
  cbn [mbind option_bind]. change (negb (2 =? 2)) with false. cbn iota.
  assert (E0 : (<[1%nat := VInt b]> (<[0%nat := VInt a]> ∅) : memory) !! 0%nat = Some (VInt a))
    by (unfold memory; by rewrite (lookup_insert_ne (M := gmap nat)), (lookup_insert_eq (M := gmap nat))).
  assert (E1 : (<[1%nat := VInt b]> (<[0%nat := VInt a]> ∅) : memory) !! 1%nat = Some (VInt b))
    by (unfold memory; by rewrite (lookup_insert_eq (M := gmap nat))).
  by rewrite E0, E1.
Qed.
End Versions.

(** A version of 32 bits is made of its two halves. *)
Lemma version_parts v : 0 <= v < 2 ^ 32 → 0 <= Major v < 2 ^ 16 ∧ 0 <= Minor v < 2 ^ 16 ∧ new_HttpVersion (Major v) (Minor v) = v.
Proof.
  intros Hv. unfold Major, Minor, new_HttpVersion.
  replace 65535 with (2 ^ 16 - 1) by done. rewrite land_ones_mod, Z.shiftr_div_pow2 by lia.
  pose proof (Z.mod_pos_bound v (2 ^ 16)). pose proof (Z.div_mod v (2 ^ 16)).
  assert (0 <= v / 2 ^ 16 < 2 ^ 16) by (split; [apply Z.div_pos; lia|apply Z.div_lt_upper_bound; lia]).
  split; [done|]. split; [lia|]. rewrite Z.lor_comm, lor_shiftl_add by lia. rewrite u32_small; lia.
Qed.

(** ** Messages written and read *)

Section Messages.
Context {F : FloatLibrary}.

(** The start line of a message: not empty, on one line. *)
Definition start_ok (s : bytes) : Prop := bytes_ok s ∧ s ≠ [] ∧ 10 ∉ s ∧ last s ≠ Some 13.

Lemma trim_cr s : bytes_ok s → last s ≠ Some 13 → StringTrimRight_of (s ++ [13]) [13] = s.
Proof.
  intros Hs Hl. assert (H13 : bytes_ok [13]) by by repeat constructor.
  destruct (trims (s ++ [13]) [13]) as (_ & _ & _ & _ & E & _); [by apply bytes_ok_app|done|].
  rewrite E, trim_right_app by by repeat constructor.
  destruct s as [|c s _] using rev_ind; [done|]. rewrite last_snoc in Hl.
  apply trim_right_snoc. apply bool_decide_eq_false_2. set_solver.
Qed.

Lemma ParseHeaders_text {T} `{StartLine T} start h (x x' : T) : start_ok start → Forall header_ok h →
  ParseStartLine start x = Some (None, x') →
  ParseHeaders (ended start ++ Headers.ToString h ++ [13; 10]) x = Some (true, SUCCESS, update_headers (λ _, h) x').
Proof.
  intros (Hb & Hne & H10 & H13) Hh Hp. unfold ParseHeaders.
  set (rest := Headers.ToString h ++ [13; 10]).
  assert (E : ended start ++ rest = (start ++ [13]) ++ 10 :: rest) by (unfold ended; by rewrite <- !(assoc_L (++))).
  assert (Hlen : length (start ++ [13]) = S (length start)) by (rewrite length_app; cbn; lia).
  rewrite E, find_char_first by set_solver. cbn [default from_option id].
  assert (Hfirst : substr ((start ++ [13]) ++ 10 :: rest) 0 (Some (length (start ++ [13]))) = start ++ [13]).
  { unfold substr. rewrite Nat.sub_0_r. change (length ?s <? 0)%nat with false. cbn iota. rewrite drop_0.
    assert (Hlt : (length ((start ++ [13%Z]) ++ 10%Z :: rest) - 0 <? length (start ++ [13%Z]))%nat = false).
    { apply Nat.ltb_ge. rewrite (length_app (start ++ [13])). lia. }
    rewrite Nat.sub_0_r in Hlt. rewrite Hlt. apply take_app_length. }
  rewrite Hfirst, trim_cr by done. rewrite bool_decide_eq_false_2 by done. rewrite Hp. cbn [mbind option_bind].
  assert (Hrest : substr ((start ++ [13]) ++ 10 :: rest) (length (start ++ [13]) + 1) None = rest).
  { unfold substr. rewrite (proj2 (Nat.ltb_ge _ _)) by (rewrite (length_app (start ++ [13])); cbn; lia).
    rewrite drop_app_ge by lia. by replace (length (start ++ [13%Z]) + 1 - length (start ++ [13%Z]))%nat with 1%nat by lia. }
  rewrite Hrest. unfold rest. by rewrite Headers_roundtrip.
Qed.

Definition method_ok (m : MethodType) : Prop := m ≠ METHOD_UNKNOWN ∧ m ≠ METHOD_UPPER_BOUND.

Lemma method_name m : method_ok m → ∃ name, GetMethodName m = Some name ∧ GetMethodByName name = m ∧
  name ≠ [] ∧ bytes_ok name ∧ 32 ∉ name ∧ 10 ∉ name.
Proof.
  intros [H1 H2]. destruct m; try done; eexists; (split; [by vm_compute|]);
    (split; [by vm_compute|]); (split; [done|]); (split; [by repeat constructor|]);
    split; apply (bool_decide_unpack _); by vm_compute.
Qed.

Record request_ok (r : HttpRequest) : Prop := {
  ok_method : method_ok (m_method r);
  ok_uri : m_uri r ≠ [] ∧ bytes_ok (m_uri r) ∧ 32 ∉ m_uri r ∧ 10 ∉ m_uri r ∧ 13 ∉ m_uri r;
  ok_version : 0 <= m_version (request r) < 2 ^ 32;
  ok_headers : Forall header_ok (m_headers (request r))
}.

(** What parsing the start line of [r] makes of [r0]. *)
Definition with_start_line (r r0 : HttpRequest) : HttpRequest :=
  mkRequest (if IsEmpty (m_version (request r)) then request r0 else set_version (m_version (request r)) (request r0))
    (m_method r) (m_uri r).

Lemma request_start_line r : request_ok r → ∃ s, AppendStartLineToString r [] = Some s ∧ start_ok s ∧
  ∀ r0, ParseStartLine s r0 = Some (None, with_start_line r r0).
Proof.
  intros [Hm (Hu & Hub & Hus & Hu10 & Hu13) Hv _]. destruct (method_name _ Hm) as (name & En & Eb & Hne & Hnb & Hns & Hn10).
  destruct (version_parts _ Hv) as (Hmaj & Hmin & Hparts).
  assert (Hlast : last (m_uri r) ≠ Some 13).
  { intros H. apply Hu13. apply last_Some in H as [l ->]. set_solver. }
  cbn [AppendStartLineToString Request_StartLine]. unfold Request_AppendStartLine.
  rewrite bool_decide_eq_false_2 by apply Hm. rewrite En. cbn [mbind option_bind app].
  cbn [ParseStartLine Request_StartLine]. unfold Request_ParseStartLine, with_start_line.
  destruct (IsEmpty (m_version (request r))) eqn:Ev; cbn [negb].
  - exists (name ++ str " " ++ m_uri r). split; [done|]. split.
    { split; [repeat (apply bytes_ok_app; split); (done || by repeat constructor)|].
      split; [by destruct name|]. split; [change (str " ") with [32]; set_solver|].
      destruct (m_uri r) as [|c u _] using rev_ind; [done|]. by rewrite !(assoc_L (++)), last_snoc in *. }
    intros r0. change (str " ") with [32]. rewrite SplitString_char. cbn [app].
    fold (words (name ++ 32 :: m_uri r)). rewrite words_cons, words_one by done. cbn [mbind option_bind length Nat.eqb negb andb lookup list_lookup].
    rewrite Eb, bool_decide_eq_false_2 by apply Hm. done.
  - rewrite !StringAppend_int_eq by lia. destruct (version_text_chars (Major (m_version (request r))) (Minor (m_version (request r))))
      as (Hb & Hvne & Hvs & Hv10 & Hv13); [lia|lia|].
    exists (name ++ str " " ++ m_uri r ++ str " " ++ version_text (Major (m_version (request r))) (Minor (m_version (request r)))).
    split; [unfold version_text; by rewrite <- !(assoc_L (++))|].
    remember (version_text (Major (m_version (request r))) (Minor (m_version (request r)))) as vt eqn:Evt. split.
    { split; [repeat (apply bytes_ok_app; split); (done || by repeat constructor)|].
      split; [by destruct name|]. split; [change (str " ") with [32]; set_solver|].
      intros H. apply Hv13. rewrite !(assoc_L (++)) in H. destruct vt as [|c v _] using rev_ind; [done|].
      rewrite (assoc_L (++)), last_snoc in H. injection H as ->. set_solver. }
    intros r0. change (str " ") with [32]. rewrite SplitString_char. cbn [app].
    fold (words (name ++ 32 :: m_uri r ++ 32 :: vt)). rewrite !words_cons, words_one by done.
    cbn [mbind option_bind length Nat.eqb negb andb lookup list_lookup].
    rewrite Eb, bool_decide_eq_false_2 by apply Hm. rewrite Evt, ParseVersion_text by lia.
    cbn [mbind option_bind SetUri SetMethod m_method m_uri request]. by rewrite Hparts.
Qed.

Lemma HeadersToString_text {T} `{StartLine T} (x : T) s : AppendStartLineToString x [] = Some s →
  HeadersToString x = Some (ended s ++ Headers.ToString (headers x) ++ [13; 10]).
Proof.
  intros E. unfold HeadersToString, AppendHeadersToString. rewrite E. cbn [mbind option_bind].
  unfold Headers.ToString. rewrite !Headers_AppendToString_eq. unfold ended. by rewrite <- !(assoc_L (++)).
Qed.

(** *** Responses *)

Record response_ok (r : HttpResponse) : Prop := {
  ok_status : 100 <= m_status r <= 999;
  ok_response_version : 0 <= m_version (response r) < 2 ^ 32;
  ok_response_headers : Forall header_ok (m_headers (response r))
}.

Definition reason_ok (s : bytes) : bool :=
  bool_decide (bytes_ok s) && bool_decide (10 ∉ s) && bool_decide (last s ≠ Some 13) && negb (bool_decide (s = [])).

Lemma reason_phrase status : reason_ok (StatusCodeToReasonPhraseSafe status) = true.
Proof.
  unfold StatusCodeToReasonPhraseSafe, InternalStatusCodeToReasonPhrase.
  assert (H : Forall (λ x, reason_ok x.1.2 = true) kResponseStatus) by (repeat constructor).
  assert (Hu : reason_ok (str "Unknown") = true) by by vm_compute. revert H.
  generalize kResponseStatus as table. intros table. induction table as [|[[code reason] d] table IH]; intros H; [done|].
  apply Forall_cons in H as [Hr H]. cbn [status_loop]. destruct (code =? status); [done|]. by apply IH.
Qed.

Lemma status_reads n : 100 <= n <= 999 → StringToNumber_base t_int (decimal n) 10 = Some n.
Proof.
  intros Hn. destruct (decimal_facts n) as (Hok & Hv & Hne & Hr & _); [unfold limit; lia|].
  destruct (decimal_digits_graph _ Hr) as (Hge & Hnz & _).
  unfold StringToNumber_base. rewrite before_nul_id by done.
  pose proof (ParseNumberT_text t_int 10 false (decimal n) [] (or_introl eq_refl)) as P.
  rewrite app_nil_r in P. cbn [minus_sign app length Nat.add apply_sign] in P. change (base_of 10 (decimal n)) with 10 in P.
  rewrite Hv in P. rewrite P by (done || lia). rewrite decide_True by (unfold fits_in, min_value, max_value; cbn; lia).
  by rewrite Nat.eqb_refl.
Qed.

(** The version a response's start line says: the major number twice. *)
Definition printed_version (v : HttpVersion) : HttpVersion := new_HttpVersion (Major v) (Major v).

Lemma response_start_line r : response_ok r → ∃ s, AppendStartLineToString r [] = Some s ∧ start_ok s ∧
  ∀ r0, ParseStartLine s r0 =
    Some (None, mkResponse (set_version (printed_version (m_version (response r))) (response r0)) (m_status r)).
Proof.
  intros [Hs Hv _]. destruct (version_parts _ Hv) as (Hmaj & _ & _).
  cbn [AppendStartLineToString Response_StartLine]. unfold Response_AppendStartLine.
  rewrite !StringAppend_int_eq by lia. cbn [app]. set (major := Major (m_version (response r))) in *.
  destruct (version_text_chars major major) as (Hb & Hvne & Hvs & Hv10 & Hv13); [lia|lia|].
  destruct (decimal_chars (m_status r)) as [Hdne Hd]; [lia|]. destruct (digits_bytes _ Hd) as (Hdb & Hds & Hd10 & Hd13).
  pose proof (reason_phrase (m_status r)) as Hr. set (reason := StatusCodeToReasonPhraseSafe (m_status r)) in *.
  unfold reason_ok in Hr. rewrite !andb_true_iff, !bool_decide_eq_true, negb_true_iff, bool_decide_eq_false in Hr.
  destruct Hr as [[[Hrb Hr10] Hr13] Hrne].
  exists (version_text major major ++ str " " ++ decimal (m_status r) ++ str " " ++ reason).
  split; [unfold version_text; by rewrite <- !(assoc_L (++))|]. remember (version_text major major) as vt eqn:Evt. split.
  { split; [repeat (apply bytes_ok_app; split); (done || by repeat constructor)|].
    split; [by destruct vt|]. split; [change (str " ") with [32]; set_solver|].
    intros H. apply Hr13. rewrite !(assoc_L (++)) in H. destruct reason as [|c s _] using rev_ind; [done|].
    by rewrite (assoc_L (++)), last_snoc in H; rewrite last_snoc. }
  intros r0. cbn [ParseStartLine Response_StartLine]. unfold Response_ParseStartLine.
  change (str " ") with [32]. rewrite SplitString_char. cbn [app].
  fold (words (vt ++ 32 :: decimal (m_status r) ++ 32 :: reason)). rewrite !words_cons by done.
  cbn [mbind option_bind length lookup list_lookup Nat.ltb Nat.leb]. rewrite Evt, ParseVersion_text by lia.
  cbn [mbind option_bind negb]. rewrite status_reads by done.
  destruct (Z.ltb_spec (m_status r) 100); [lia|]. destruct (Z.ltb_spec 999 (m_status r)); [lia|done].
Qed.

(** ** Parsing any text *)

Lemma scan_int_step fuel f s pos args ai n m p : args !! ai = Some (TInt t_int, p) →
  vscan_loop (S fuel) (str "%d" ++ f) s pos args ai n m =
    let '(sw, v) := store_int t_int (strtol (before_nul s) 10) in
    if (0 <? sw)%nat then vscan_loop fuel f (drop sw s) (pos + sw) args (S ai) (n + 1) (store p v m)
    else Some (n, store p v m).
Proof.
  intros Ha. change (str "%d" ++ f) with (chr "%" :: scan_text false None [] (Letter (chr "d")) ++ f).
  destruct (ScanSpecification_text false None 0 [] (Letter (chr "d")) f) as (cs & E & _);
    [done|unfold length_table; set_solver|apply (bool_decide_unpack _); by vm_compute|].
  change (scan_text false None [] (Letter (chr "d"))) with (str "d") in *.
  cbn [vscan_loop]. change ((chr "%" :: ?x) !! 0%nat) with (Some (chr "%")). change ((chr "%" :: str "d" ++ f) !! 1%nat) with (Some (chr "d")).
  cbn [mbind option_bind]. change (chr "%" =? 0) with false. change (chr "%" =? chr "%") with true.
  change (chr "d" =? 0) with false. change (chr "d" =? chr "%") with false. cbn beta iota.
  change (drop 1 (chr "%" :: ?x)) with x. rewrite E. cbn [mbind option_bind]. change (length (str "d") =? 0)%nat with false.
  cbn beta iota. cbn [skip scan_base specifier conversion_letter]. change (chr "d" =? chr "n") with false. cbn beta iota.
  rewrite Ha. cbn [mbind option_bind]. unfold FormatScanArg_Parse. cbn [fst snd ScanValueParser_Parse signed t_int].
  unfold ParseSigned. cbn [scan_base specifier]. change ((chr "d" =? chr "v") || (chr "d" =? chr "i"))%bool with false.
  change (chr "d" =? chr "d") with true. cbn beta iota. cbn [mbind option_bind].
  destruct (store_int t_int _) as [sw v]. cbn [mbind option_bind]. by destruct (0 <? sw)%nat.
Qed.

Lemma scan_mismatch fuel c f x s pos args ai n m : c ≠ 0 → c ≠ chr "%" → x ≠ c →
  vscan_loop (S fuel) (c :: f) (x :: s) pos args ai n m = Some (n, m).
Proof.
  intros H0 Hp Hx. cbn [vscan_loop lookup list_lookup mbind option_bind].
  by rewrite (proj2 (Z.eqb_neq _ _) H0), (proj2 (Z.eqb_neq _ _) Hp), (proj2 (Z.eqb_neq _ _) Hx).
Qed.

Lemma scan_end fuel s pos args ai n m : vscan_loop (S fuel) [0] s pos args ai n m = Some (n, m).
Proof. done. Qed.

Lemma store_int_value t r : let '(sw, v) := store_int t r in (0 < sw)%nat → ∃ n, v = Some (VInt n).
Proof. destruct r as [[n used] err]. unfold store_int. destruct err; [lia|]. destruct (negb _); [lia|]. intros _. by eexists. Qed.

(** [ParseVersion] always returns, and leaves the message alone when it fails. *)
Lemma ParseVersion_total v m : bytes_ok v → ∃ ok m', ParseVersion v m = Some (ok, m') ∧ (ok = false → m' = m).
Proof.
  intros Hv. unfold ParseVersion. rewrite starts_with_spec by (done || by repeat constructor). cbn [mbind option_bind].
  case_bool_decide; cbn [negb]; [|by eexists _, _].
  unfold StringScan, StringVScan. set (args := [(TInt t_int, 0%nat); (TInt t_int, 1%nat)]).
  change (c_string_of (str "%d.%d")) with (str "%d" ++ chr "." :: str "%d" ++ [0]). change (length _) with 6%nat.
  set (s := c_string_of (drop 5 v)). assert (Hs : ends s) by apply c_string_ends.
  rewrite (scan_int_step _ _ _ _ _ _ _ _ 0%nat) by done.
  pose proof (inside_int s t_int (strtol (before_nul s) 10) Hs (strtol_used _ _)) as (sw0 & v0 & E0 & Hsw0). injection E0 as E0.
  pose proof (store_int_value t_int (strtol (before_nul s) 10)) as Hv0. rewrite E0 in *.
  destruct (Nat.ltb_spec 0 sw0) as [Hpos0|]; [|cbn [mbind option_bind]; by eexists _, _].
  destruct (Hv0 Hpos0) as [n0 ->].
  assert (Hs1 : ends (drop sw0 s)) by by apply ends_drop. destruct (ends_nonempty _ Hs1) as (x & r & Er). rewrite Er in *.
  destruct (decide (x = chr ".")) as [->|Hx].
  2: { rewrite scan_mismatch by done. cbn [mbind option_bind]. by eexists _, _. }
  rewrite vscan_literal by done. destruct (ends_cons _ _ Hs1) as [[Habs _]|[_ Hs2]]; [done|].
  rewrite (scan_int_step _ _ _ _ _ _ _ _ 1%nat) by done.
  pose proof (inside_int r t_int (strtol (before_nul r) 10) Hs2 (strtol_used _ _)) as (sw1 & v1 & E1 & Hsw1). injection E1 as E1.
  pose proof (store_int_value t_int (strtol (before_nul r) 10)) as Hv1. rewrite E1 in *.
  destruct (Nat.ltb_spec 0 sw1) as [Hpos1|]; [|cbn [mbind option_bind]; by eexists _, _].
  destruct (Hv1 Hpos1) as [n1 ->]. rewrite scan_end. cbn [mbind option_bind store]. change (negb (0 + 1 + 1 =? 2)) with false. cbn iota.
  assert (G0 : (<[1%nat := VInt n1]> (<[0%nat := VInt n0]> ∅) : memory) !! 0%nat = Some (VInt n0))
    by (unfold memory; by rewrite (lookup_insert_ne (M := gmap nat)), (lookup_insert_eq (M := gmap nat))).
  assert (G1 : (<[1%nat := VInt n1]> (<[0%nat := VInt n0]> ∅) : memory) !! 1%nat = Some (VInt n1))
    by (unfold memory; by rewrite (lookup_insert_eq (M := gmap nat))).
  rewrite G0, G1. by eexists _, _.
Qed.

Lemma words_bytes n s : (length s <= n)%nat → bytes_ok s → Forall (λ w, bytes_ok w ∧ w ≠ []) (words s).
Proof.
  revert s. induction n as [|n IH]; intros s Hn Hs; (destruct s as [|x s]; [constructor|]); cbn [length] in Hn; [lia|].
  unfold words. rewrite cut_char. destruct (Z.eqb_spec x 32) as [->|Hx].
  - apply IH; [lia|]. by apply bytes_ok_cons in Hs as [_ Hs].
  - constructor; [split; [by apply Forall_take|done]|]. apply IH; [rewrite length_drop; cbn; lia|by apply Forall_drop].
Qed.

(** The first line of a text, without its end, and what follows it. *)
Definition line_end (data : bytes) : nat := default (length data) (find_char data 10 0).
Definition first_line (data : bytes) : bytes := trim_right (λ c, bool_decide (c ∈ [13])) (take (line_end data) data).
Definition after_first_line (data : bytes) : bytes := drop (line_end data + 1) data.

Lemma line_end_le data : (line_end data <= length data)%nat.
Proof.
  unfold line_end. pose proof (find_char_spec data 10 0) as H. destruct (find_char data 10 0) as [i|]; cbn; [|lia].
  destruct H as (_ & (c & Hc & _) & _). apply lookup_lt_Some in Hc. lia.
Qed.

Lemma ParseHeaders_lines {T} `{StartLine T} data (x : T) : bytes_ok data → ParseHeaders data x =
  if decide (first_line data = []) then Some (false, ERROR_NO_START_LINE, x)
  else
    '(error, x) ← ParseStartLine (first_line data) x;
    match error with
    | Some e => Some (false, e, x)
    | None => '(result, code, h) ← Headers.Parse (after_first_line data);
        Some (result, code, update_headers (λ _, h) x)
    end.
Proof.
  intros Hd. unfold ParseHeaders. fold (line_end data). pose proof (line_end_le data) as Hle.
  assert (E1 : substr data 0 (Some (line_end data)) = take (line_end data) data).
  { unfold substr. change (length data <? 0)%nat with false. cbn iota. rewrite Nat.sub_0_r, drop_0.
    destruct (Nat.ltb_spec (length data) (line_end data)); [lia|done]. }
  assert (E2 : substr data (line_end data + 1) None = after_first_line data).
  { unfold substr, after_first_line. destruct (Nat.ltb_spec (length data) (line_end data + 1)); [|done].
    by rewrite !drop_ge by lia. }
  assert (H13 : bytes_ok [13]) by by repeat constructor.
  destruct (trims (take (line_end data) data) [13]) as (_ & _ & _ & _ & E & _); [by apply Forall_take|done|].
  rewrite E1, E2, E. change (trim_right _ (take (line_end data) data)) with (first_line data).
  destruct (decide (first_line data = [])) as [Hf|Hf]; [by rewrite (bool_decide_eq_true_2 _ Hf)|by rewrite (bool_decide_eq_false_2 _ Hf)].
Qed.

Lemma first_line_bytes data : bytes_ok data → bytes_ok (first_line data).
Proof.
  intros Hd. unfold first_line, trim_right. apply Forall_reverse.
  assert (Hdw : ∀ P s, bytes_ok s → bytes_ok (drop_while P s)).
  { clear. intros P s Hs. induction Hs as [|c s Hc Hs IH]; cbn; [constructor|]. destruct (P c); [done|by constructor]. }
  apply Hdw, Forall_reverse. by apply Forall_take.
Qed.

(** The result of parsing the headers, by the lines of the text. *)
Definition headers_result (data : bytes) (ls : list bytes) : bool * ErrorCode * HttpHeaders :=
  match last ls with
  | Some [] => if decide ([] ∈ removelast ls) then (false, ERROR_FIELD_NOT_COMPLETE, [])
               else (true, SUCCESS, omap header_of (removelast ls))
  | _ => (false, ERROR_MESSAGE_NOT_COMPLETE, [])
  end.

Lemma Parse_total data : ∃ ls, SplitLines data false = Some ls ∧ Headers.Parse data = Some (headers_result data ls).
Proof. destruct (SplitLines_total data) as [ls E]. exists ls. split; [done|]. by apply Parse_lines. Qed.

(** What a request's start line gives, by its words: the error or none, the
    method and the URI that are set. *)
Definition no_method (w : bytes) : Prop := ∀ m name, GetMethodName m = Some name → before_nul w ≠ name.

Lemma GetMethodByName_unknown w : GetMethodByName w = METHOD_UNKNOWN ↔ no_method w.
Proof.
  unfold GetMethodByName. split.
  - intros E m name Hn Hw.
    assert (Hin : (m, name) ∈ kValidMethodNames).
    { destruct m; try (by vm_compute in Hn); (unfold GetMethodName in Hn; cbn in Hn; injection Hn as <-;
        unfold kValidMethodNames; set_solver). }
    revert E Hin. assert (Hk : Forall (λ x, x.1 ≠ METHOD_UNKNOWN) kValidMethodNames) by by repeat constructor.
    revert Hk. generalize kValidMethodNames as table. induction table as [|[m' n'] table IH]; intros Hk E Hin; [set_solver|].
    cbn [method_loop] in E. apply Forall_cons in Hk as [Hm Hk]. case_bool_decide as Hb; [done|].
    apply elem_of_cons in Hin as [[= -> ->]|Hin]; [done|]. by apply IH.
  - intros H. assert (Hn : Forall (λ x, before_nul w ≠ x.2) kValidMethodNames).
    { unfold kValidMethodNames. repeat apply Forall_cons_2; try apply Forall_nil_2; cbn [snd];
        match goal with |- _ ≠ str ?n => idtac end.
      all: first [by eapply (H METHOD_HEAD) | by eapply (H METHOD_GET) | by eapply (H METHOD_POST) | by eapply (H METHOD_PUT)
        | by eapply (H METHOD_DELETE) | by eapply (H METHOD_OPTIONS) | by eapply (H METHOD_TRACE) | by eapply (H METHOD_CONNECT)]. }
    revert Hn. generalize kValidMethodNames as table. induction table as [|[m n] table IH]; intros Hn; [done|].
    apply Forall_cons in Hn as [Hn Hr]. cbn [method_loop]. rewrite bool_decide_eq_false_2 by done. by apply IH.
Qed.
(** The start line of a request, by its words. *)
Inductive request_line (ws : list bytes) (r0 : HttpRequest) : option ErrorCode → HttpRequest → Prop :=
  | line_incomplete : length ws ≠ 2%nat → length ws ≠ 3%nat → request_line ws r0 (Some ERROR_START_LINE_NOT_COMPLETE) r0
  | line_method w u vs : ws = w :: u :: vs → (length vs <= 1)%nat → no_method w →
      request_line ws r0 (Some ERROR_METHOD_NOT_FOUND) (SetMethod METHOD_UNKNOWN r0)
  | line_version w u v : ws = [w; u; v] → ¬ no_method w → ParseVersion v (request r0) = Some (false, request r0) →
      request_line ws r0 (Some ERROR_VERSION_UNSUPPORTED) (mkRequest (request r0) (GetMethodByName w) u)
  | line_short w u : ws = [w; u] → ¬ no_method w → request_line ws r0 None (mkRequest (request r0) (GetMethodByName w) u)
  | line_full w u v m : ws = [w; u; v] → ¬ no_method w → ParseVersion v (request r0) = Some (true, m) →
      request_line ws r0 None (mkRequest m (GetMethodByName w) u).

Lemma request_line_total s r0 : bytes_ok s → ∃ e r, Request_ParseStartLine s r0 = Some (e, r) ∧ request_line (words s) r0 e r.
Proof.
  intros Hs. unfold Request_ParseStartLine. change (str " ") with [32]. rewrite SplitString_char. fold (words s).
  pose proof (words_bytes (length s) s ltac:(lia) Hs) as Hw. cbn [mbind option_bind].
  destruct (words s) as [|w [|u [|v [|y ws]]]] eqn:E; cbn [length Nat.eqb negb andb lookup list_lookup mbind option_bind];
    try (eexists _, _; split; [done|]; constructor; cbn; lia).
  - case_bool_decide as Hm.
    + eexists _, _. split; [by rewrite Hm|]. eapply line_method; [done|cbn; lia|by apply GetMethodByName_unknown].
    + exists None, (mkRequest (request r0) (GetMethodByName w) u). split; [done|]. apply (line_short _ _ w u); [done|]. by rewrite <- GetMethodByName_unknown.
  - case_bool_decide as Hm.
    + eexists _, _. split; [by rewrite Hm|]. eapply line_method; [done|cbn; lia|by apply GetMethodByName_unknown].
    + rewrite !Forall_cons in Hw. destruct Hw as (_ & _ & [Hv _] & _).
      destruct (ParseVersion_total v (request r0) Hv) as (ok & m & Ev & Hok). cbn [SetUri SetMethod request m_method m_uri].
      rewrite Ev. cbn [mbind option_bind]. rewrite GetMethodByName_unknown in Hm. eexists _, _. split; [done|]. destruct ok.
      * by apply (line_full _ _ w u v m).
      * rewrite (Hok eq_refl) in *. by apply (line_version _ _ w u v).
Qed.
(** ** Properties *)

(** What a message prints it reads back.  A request with a method, a URI
    without spaces or line ends, any version and headers whose names and
    values are trimmed and on one line parses to its method, URI, version and
    headers (an empty version is not printed, and the reader keeps its own);
    a response to its status and headers, and to a version made of its major
    number twice, which is what is printed. *)
Theorem http_reads_back :
  (∀ r r0 : HttpRequest, request_ok r → ∃ text, HeadersToString r = Some text ∧
    ParseHeaders text r0 = Some (true, SUCCESS, mkRequest (mkMessage
      (if IsEmpty (m_version (request r)) then m_version (request r0) else m_version (request r))
      (m_headers (request r)) (m_body (request r0))) (m_method r) (m_uri r))) ∧
  (∀ r r0 : HttpResponse, response_ok r → ∃ text, HeadersToString r = Some text ∧
    ParseHeaders text r0 = Some (true, SUCCESS, mkResponse (mkMessage
      (printed_version (m_version (response r))) (m_headers (response r)) (m_body (response r0))) (m_status r))).
Proof.
  split; intros r r0 Hr.
  - destruct (request_start_line r Hr) as (s & Es & Hs & Hp). eexists. split; [by apply HeadersToString_text|].
    etransitivity; [exact (ParseHeaders_text s _ r0 _ Hs (ok_headers r Hr) (Hp r0))|].
    unfold with_start_line. by destruct (IsEmpty _).
  - destruct (response_start_line r Hr) as (s & Es & Hs & Hp). eexists. split; [by apply HeadersToString_text|].
    exact (ParseHeaders_text s _ r0 _ Hs (ok_response_headers r Hr) (Hp r0)).
Qed.

(** Parsing a request always returns, and the code it reports is exactly
    the first thing wrong with the text: no first line; not two or three words
    on it; an unknown method; a third word that is not a version; a header
    part that does not end in an empty line; an empty line before its end.
    Otherwise the method, the URI and the headers are those of the text. *)
Theorem http_parse_errors data (r0 : HttpRequest) : bytes_ok data →
  let ws := words (first_line data) in
  ∃ ok code r ls, ParseHeaders data r0 = Some (ok, code, r) ∧ SplitLines (after_first_line data) false = Some ls ∧
  (ok = true ↔ code = SUCCESS) ∧
  (code = ERROR_NO_START_LINE ↔ first_line data = []) ∧
  (code = ERROR_START_LINE_NOT_COMPLETE ↔ first_line data ≠ [] ∧ length ws ≠ 2%nat ∧ length ws ≠ 3%nat) ∧
  (code = ERROR_METHOD_NOT_FOUND ↔ ∃ w u vs, ws = w :: u :: vs ∧ (length vs <= 1)%nat ∧ no_method w) ∧
  (code = ERROR_VERSION_UNSUPPORTED ↔
     ∃ w u v, ws = [w; u; v] ∧ ¬ no_method w ∧ ParseVersion v (request r0) = Some (false, request r0)) ∧
  (code = ERROR_MESSAGE_NOT_COMPLETE → last ls ≠ Some []) ∧
  (code = ERROR_FIELD_NOT_COMPLETE → last ls = Some [] ∧ [] ∈ removelast ls) ∧
  (code = SUCCESS → last ls = Some [] ∧ [] ∉ removelast ls ∧ headers r = omap header_of (removelast ls) ∧
     ∃ w u vs, ws = w :: u :: vs ∧ m_method r = GetMethodByName w ∧ m_uri r = u).
Proof.
  intros Hd ws. destruct (Parse_total (after_first_line data)) as (ls & El & Eh). rewrite ParseHeaders_lines by done.
  destruct (decide (first_line data = [])) as [Hf|Hf].
  { eexists _, _, _, ls. split; [done|]. split; [done|]. unfold ws. rewrite Hf. cbn. naive_solver. }
  destruct (request_line_total _ r0 (first_line_bytes _ Hd)) as (e & r & Er & Hr). cbn [ParseStartLine Request_StartLine].
  rewrite Er. cbn [mbind option_bind]. fold ws in Hr. clear Er.
  clearbody ws. destruct Hr as [H2 H3|w u vs -> Hvs Hm|w u v -> Hm Hv|w u -> Hm|w u v m -> Hm Hv].
  1-3: eexists _, _, _, ls; split; [done|]; split; [done|]; cbn [length] in *; split_and!; try done; naive_solver lia.
  all: rewrite Eh; unfold headers_result; destruct (last ls) as [[|x l]|] eqn:Elast; [destruct (decide ([] ∈ removelast ls))|..];
    eexists _, _, _, ls; (split; [done|]); (split; [done|]); cbn [length] in *; rewrite ?Elast;
    split_and!; try done; naive_solver lia.
Qed.

(** The headers are a map from names without case to the lists of their
    values, in order: [Get] gives the first value, the other [Get] all, [Has]
    and [Remove] say whether there is any; [Add] puts a value last under its
    name, [Set] makes it the only one, [Remove] leaves none, and each leaves
    every other name alone. *)
Theorem http_headers_map name value h n :
  Headers.Get n h = Some (head (values n h)) ∧
  Headers.Get_all n h = Some (bool_decide (values n h ≠ []), values n h) ∧
  Headers.Has n h = Some (bool_decide (values n h ≠ [])) ∧
  values n (Headers.Add name value h) = values n h ++ (if decide (same_name n name) then [value] else []) ∧
  (∃ h', Headers.Set_ name value h = Some h' ∧
    values n h' = if decide (same_name n name) then [value] else values n h) ∧
  ∃ h', Headers.Remove name h = Some (bool_decide (values name h ≠ []), h') ∧
    values n h' = if decide (same_name n name) then [] else values n h.
Proof.
  assert (Hsym : same_name name n ↔ same_name n name) by (unfold same_name; split; congruence).
  assert (Hone : values n [(name, value)] = if decide (same_name n name) then [value] else []).
  { rewrite values_cons. by rewrite app_nil_r. }
  assert (Hoth : values n (others name h) = if decide (same_name n name) then [] else values n h).
  { rewrite values_others. destruct (decide (same_name name n)), (decide (same_name n name)); naive_solver. }
  split_and!; [apply Get_eq| |apply Has_eq|by unfold Headers.Add; rewrite values_app, Hone| |].
  - unfold Headers.Get_all. rewrite get_loop_eq. cbn [mbind option_bind app]. do 2 f_equal.
    destruct (values n h); [done|]. by rewrite bool_decide_eq_true_2.
  - unfold Headers.Set_. rewrite Remove_eq. eexists. split; [done|]. unfold Headers.Add. rewrite values_app, Hoth, Hone.
    destruct (decide (same_name n name)); [done|]. by rewrite app_nil_r.
  - rewrite Remove_eq. by eexists.
Qed.

End Messages.

#[local] Existing Instance digits_float.

Definition demo_request : HttpRequest :=
  mkRequest (mkMessage (new_HttpVersion 1 1) [(str "Host", str "localhost:80"); (str "accept", str "a b")] [])
    METHOD_GET (str "/index.html").

Lemma http_reads_back_witness :
  ∃ text, HeadersToString demo_request = Some text ∧ ParseHeaders text new_HttpRequest = Some (true, SUCCESS, demo_request).
Proof.
  refine (proj1 http_reads_back demo_request new_HttpRequest _). constructor.
  - by split.
  - split_and!; [done|repeat constructor; by vm_compute|..]; apply (bool_decide_unpack _); by vm_compute.
  - by vm_compute.
  - repeat constructor; first [by vm_compute | apply (bool_decide_unpack _); by vm_compute].
Defined.

Lemma http_parse_errors_witness : ∃ ok code r ls,
  ParseHeaders (str "GET / HTTP/one" ++ [13; 10; 13; 10]) new_HttpRequest = Some (ok, code, r) ∧
  SplitLines (after_first_line (str "GET / HTTP/one" ++ [13; 10; 13; 10])) false = Some ls ∧
  (ok = true ↔ code = SUCCESS) ∧ code = ERROR_VERSION_UNSUPPORTED.
Proof.
  destruct (http_parse_errors (str "GET / HTTP/one" ++ [13; 10; 13; 10]) new_HttpRequest)
    as (ok & code & r & ls & E & El & Hok & _ & _ & _ & Hv & _); [repeat constructor; by vm_compute|].
  exists ok, code, r, ls. split; [done|]. split; [done|]. split; [done|]. apply Hv.
  exists (str "GET"), (str "/"), (str "HTTP/one"). split_and!; [by vm_compute| |by vm_compute].
  intros H. by apply (H METHOD_GET (str "GET")).
Defined.

(** *** What the code does besides *)

(** A length is read in the base its prefix says. *)
Example content_length_octal :
  GetContentLength (AddHeader (str "Content-Length") (str "010") new_HttpRequest) = Some 8.
Proof. by vm_compute. Qed.

(** A minor version of more than 16 bits runs into the major version. *)
Example version_wraps : ParseVersion (str "HTTP/0.65537") new_HttpMessage = Some (true, set_version (new_HttpVersion 1 1) new_HttpMessage).
Proof. by vm_compute. Qed.

(** The page's title is opened by its closing tag. *)
Example html_title : m_body ∘ response <$> FillWithHtmlPage 404 [] (str "x") new_HttpResponse =
  Some (str "<html>" ++ newline ++ str "<head>" ++ newline ++ str "</title>HTTP 404 Not Found</title>" ++ newline ++
    str "</head>" ++ newline ++ str "<body>x</body>" ++ newline ++ str "</html>" ++ newline).
Proof. by vm_compute. Qed.

(** A message that was reset no longer prints a version. *)
Example reset_has_no_version : StartLine_ (SetMethod METHOD_GET (Request_Reset new_HttpRequest)) = Some (str "GET /").
Proof. by vm_compute. Qed.
