(* ===== verification/Path.v ===== *)
(** * Paths

    Model of storage/path/path.h and path.cpp.  A path is a byte string; the
    working directory, which [getcwd] asks the system for, is a parameter.
    Counts of components are not cut to [int].  [None] is undefined
    behaviour, as in the components called.

    The theorems give a path its meaning: where it leads from a directory,
    which is the list of the names on the way to it from the root, when ".."
    always leads back up (there are no links). *)

From S2P Require Import Prelude StringPiece StringAlgorithm.

Definition IsSeparator (ch : Z) : bool := ch =? chr "/".

(** [path.resize(path.size() - 1)] for one slash at the end. *)
Definition strip_slash (path : bytes) : bytes :=
  if ((1 <? length path)%nat && bool_decide (last path = Some (chr "/")))%bool
  then take (length path - 1) path else path.

Definition GetBaseName (filepath : bytes) : bytes :=
  let path := strip_slash filepath in
  let last_slash := match rfind_char path (chr "/") None with None => 0%nat | Some i => S i end in
  drop last_slash path.

Definition GetExtension (filepath : bytes) : bytes :=
  match rfind_char filepath (chr ".") None with None => [] | Some last_dot => drop last_dot filepath end.

Definition GetDirectory (filepath : bytes) : bytes :=
  let path := strip_slash filepath in
  match rfind_char path (chr "/") None with
  | None => str "."
  | Some O => str "/"
  | Some last_slash => take last_slash path
  end.

Definition IsAbsolute (filepath : bytes) : bool :=
  match filepath with [] => false | c :: _ => IsSeparator c end.
Definition IsRelative (filepath : bytes) : bool := negb (IsAbsolute filepath).

(** One round of the loop over the components; [new_comps.back()] is the last
    element. *)
Definition normalize_step (initial_slashes : nat) (new_comps : list bytes) (comp : bytes) : list bytes :=
  if (bool_decide (comp = []) || bool_decide (comp = str "."))%bool then new_comps
  else if (negb (bool_decide (comp = str ".."))
           || ((initial_slashes =? 0)%nat && bool_decide (new_comps = []))
           || (negb (bool_decide (new_comps = [])) && bool_decide (last new_comps = Some (str ".."))))%bool
  then new_comps ++ [comp]
  else if negb (bool_decide (new_comps = [])) then removelast new_comps
  else new_comps.

Definition Normalize (path : bytes) : option bytes :=
  match path with
  | [] => Some (str ".")
  | c :: _ =>
      let initial_slashes := if c =? chr "/" then 1%nat else 0%nat in
      initial_slashes ←
        (if (initial_slashes =? 0)%nat then Some 0%nat
         else
           two ← starts_with path (str "//");
           if (two : bool) then
             three ← starts_with path (str "///"); Some (if (three : bool) then initial_slashes else 2%nat)
           else Some initial_slashes);
      comps ← SplitStringKeepEmpty path (str "/");
      let comps := foldl (normalize_step initial_slashes) [] comps in
      let new_path := replicate initial_slashes (chr "/") ++ JoinStrings comps (str "/") in
      Some (if bool_decide (new_path = []) then str "." else new_path)
  end.

(** One round of [DoJoin]. *)
Definition join_step (result path : bytes) : bytes :=
  match path with
  | [] => result
  | c :: _ =>
      if c =? chr "/" then path
      else (if (negb (bool_decide (result = [])) && negb (bool_decide (last result = Some (chr "/"))))%bool
            then result ++ [chr "/"] else result) ++ path
  end.
(** The paths are at least one. *)
Definition DoJoin (path : bytes) (paths : list bytes) : bytes := foldl join_step path paths.
Definition Join (p1 p2 : bytes) : bytes := DoJoin p1 [p2].

Section Cwd.
(** What [getcwd] gives. *)
Context (cwd : bytes).

Definition GetCwd : bytes := cwd.

Definition ToAbsolute (filepath : bytes) : option bytes :=
  if IsAbsolute filepath then Normalize filepath else Normalize (Join cwd filepath).

(** The number of components two paths begin with together. *)
Fixpoint common_components (a b : list bytes) : nat :=
  match a, b with
  | x :: a, y :: b => if bool_decide (x = y) then S (common_components a b) else 0%nat
  | _, _ => 0%nat
  end.

Definition ToRelative (base_directory file_path : bytes) : option bytes :=
  absolute_base_directory ← ToAbsolute base_directory;
  absolute_file_path ← ToAbsolute file_path;
  base ← SplitString absolute_base_directory (str "/");
  file ← SplitString absolute_file_path (str "/");
  let i := common_components base file in
  let rest_size := (length base - i)%nat in
  Some match replicate rest_size (str "..") ++ drop i file with
       | [] => []
       | path :: paths => foldl Join path paths
       end.
End Cwd.

(** The examples of the header, and a directory with a dot. *)
Example normalize_examples : Normalize (str "A//B") = Some (str "A/B") ∧ Normalize (str "A/./B") = Some (str "A/B") ∧
  Normalize (str "A/foo/../B") = Some (str "A/B") ∧ Normalize (str "/../a") = Some (str "/a").
Proof. by vm_compute. Qed.
Example extension_with_dot : GetExtension (str "dir/name.ext") = str ".ext".
Proof. by vm_compute. Qed.
Example extension_of_directory : GetExtension (str "dir.d/name") = str ".d/name".
Proof. by vm_compute. Qed.

(** ** What a path means *)

(** A directory: the names from it up to the root. *)
Definition directory : Type := list bytes.

Definition cd (d : directory) (comp : bytes) : directory :=
  if (bool_decide (comp = []) || bool_decide (comp = str "."))%bool then d
  else if bool_decide (comp = str "..") then tail d
  else comp :: d.

Definition comps (path : bytes) : list bytes := cut [47] path.

(** Where a path leads from [d]. *)
Definition reach (d : directory) (path : bytes) : directory :=
  foldl cd (if IsAbsolute path then [] else d) (comps path).

(** A component that is a name or "..": what normalizing leaves. *)
Definition plain_comp (c : bytes) : Prop := c ≠ [] ∧ c ≠ str "." ∧ 47 ∉ c.

Lemma cd_plain d c : c ≠ [] → c ≠ str "." → cd d c = if decide (c = str "..") then tail d else c :: d.
Proof. intros H1 H2. unfold cd. rewrite !bool_decide_eq_false_2 by done. by repeat case_decide || case_bool_decide. Qed.

Lemma cd_skip d c : c = [] ∨ c = str "." → cd d c = d.
Proof. by intros [-> | ->]. Qed.

(** A stack of components normalizing builds: some ".." when the path is
    relative, then names. *)
Definition canonical (abs : bool) (l : list bytes) : Prop :=
  ∃ k names, l = replicate k (str "..") ++ names ∧ (abs = true → k = 0%nat) ∧
    Forall (λ c, plain_comp c ∧ c ≠ str "..") names.

Lemma canonical_nil abs : canonical abs [].
Proof. exists 0%nat, []. by split_and!. Qed.

Lemma dotdot_plain : plain_comp (str "..").
Proof. split_and!; [done|done|]. apply (bool_decide_unpack _). by vm_compute. Qed.

Lemma canonical_plain abs l : canonical abs l → Forall plain_comp l.
Proof.
  intros (k & names & -> & _ & Hn). apply Forall_app. split; [apply Forall_replicate, dotdot_plain|].
  eapply Forall_impl; [exact Hn|]. by intros c [].
Qed.

Lemma canonical_snoc abs l c : canonical abs l → plain_comp c → c ≠ str ".." → canonical abs (l ++ [c]).
Proof.
  intros (k & names & -> & Hk & Hn) Hc Hd. exists k, (names ++ [c]). rewrite <- (assoc_L (++)). split_and!; [done|done|].
  apply Forall_app. split; [done|]. apply Forall_cons. split; [done|by apply Forall_nil].
Qed.

(** What a round does to a canonical stack and to where it leads. *)
Lemma normalize_step_ok n abs d l c : (abs = negb (n =? 0)%nat) → (abs = true → d = []) → 47 ∉ c → canonical abs l →
  canonical abs (normalize_step n l c) ∧ foldl cd d (normalize_step n l c) = cd (foldl cd d l) c.
Proof.
  intros Ha Hd Hs Hl. unfold normalize_step.
  destruct (decide (c = [] ∨ c = str ".")) as [Hc|Hc].
  { rewrite cd_skip by done. assert ((bool_decide (c = []) || bool_decide (c = str "."))%bool = true) as ->; [|done].
    destruct Hc; [rewrite (bool_decide_eq_true_2 (c = [])) by done|rewrite (bool_decide_eq_true_2 (c = str ".")), orb_true_r by done]; done. }
  apply not_or_and_not in Hc as [Hc1 Hc2] || (apply Decidable.not_or in Hc as [Hc1 Hc2]).
  rewrite !(bool_decide_eq_false_2 (c = [])), !(bool_decide_eq_false_2 (c = str ".")) by done. cbn [orb].
  destruct (decide (c = str "..")) as [->|Hdd].
  2: { rewrite (bool_decide_eq_false_2 (c = str "..")) by done. cbn [negb orb]. split; [by apply canonical_snoc|]. by rewrite foldl_app. }
  rewrite (bool_decide_eq_true_2 (str ".." = str "..")) by done. cbn [negb orb].
  destruct Hl as (k & names & -> & Hk & Hn).
  destruct names as [|x names _] using rev_ind.
  - rewrite app_nil_r. destruct k as [|k].
    + cbn [replicate]. rewrite bool_decide_eq_true_2 by done. cbn [negb andb orb]. rewrite andb_true_r, orb_false_r.
      destruct (n =? 0)%nat eqn:En; cbn [negb] in *.
      * split; [|done]. exists 1%nat, []. split_and!; [done|by subst abs|constructor].
      * split; [apply canonical_nil|]. rewrite (Hd Ha). done.
    + rewrite (bool_decide_eq_false_2 (replicate (S k) _ = [])) by done.
      assert (Hlast : last (replicate (S k) (str "..")) = Some (str "..")) by by rewrite replicate_S_end, last_snoc.
      rewrite Hlast, (bool_decide_eq_true_2 (Some _ = Some _)), orb_true_r by done. cbn iota. split; [|by rewrite foldl_app].
      exists (S (S k)), []. rewrite app_nil_r, (replicate_S_end (S k)). split_and!; [done| |constructor].
      intros E. by specialize (Hk E).
  - apply Forall_app in Hn as [Hn [[Hx Hxd] _]%Forall_cons]. rewrite (assoc_L (++)).
    rewrite !(bool_decide_eq_false_2 (_ ++ [x] = [])) by by apply app_nil_not_snoc || (by destruct (replicate k (str "..") ++ names)).
    rewrite last_snoc, (bool_decide_eq_false_2 (Some x = Some _)) by congruence. rewrite andb_false_r. cbn [negb andb orb].
    rewrite removelast_last. split; [by exists k, names|]. rewrite (foldl_snoc cd d). destruct Hx as (H1 & H2 & _).
    rewrite (cd_plain _ x), decide_False by done. done.
Qed.

Lemma normalize_steps_ok n d cs l : (negb (n =? 0)%nat = true → d = []) → Forall (47 ∉.) cs → canonical (negb (n =? 0)%nat) l →
  canonical (negb (n =? 0)%nat) (foldl (normalize_step n) l cs) ∧
  foldl cd d (foldl (normalize_step n) l cs) = foldl cd (foldl cd d l) cs.
Proof.
  intros Hd Hs. revert l. induction Hs as [|c cs Hc Hs IH]; intros l Hl; [done|]. cbn [foldl].
  destruct (normalize_step_ok n _ d l c eq_refl Hd Hc Hl) as [H1 H2]. destruct (IH _ H1) as [H3 H4].
  split; [done|]. by rewrite H4, H2.
Qed.

Lemma normalize_step_dotdot n k : n = 0%nat → normalize_step n (replicate k (str "..")) (str "..") = replicate (S k) (str "..").
Proof.
  intros ->. destruct k as [|k]; [done|]. unfold normalize_step. cbn [Nat.eqb].
  rewrite (bool_decide_eq_false_2 (str ".." = [])), (bool_decide_eq_false_2 (str ".." = str ".")) by done. cbn [orb].
  rewrite (bool_decide_eq_true_2 (str ".." = str "..")) by done. cbn [negb orb andb].
  rewrite (bool_decide_eq_false_2 (replicate (S k) _ = [])), (replicate_S_end k), last_snoc by done.
  rewrite (bool_decide_eq_true_2 (Some _ = Some _)), orb_true_r by done. cbn iota. by rewrite (replicate_S_end (S k)), (replicate_S_end k).
Qed.

Lemma normalize_step_name n l c : plain_comp c → c ≠ str ".." → normalize_step n l c = l ++ [c].
Proof.
  intros (H1 & H2 & _) H3. unfold normalize_step.
  by rewrite (bool_decide_eq_false_2 _ H1), (bool_decide_eq_false_2 _ H2), (bool_decide_eq_false_2 _ H3).
Qed.

(** A canonical stack is left as it is. *)
Lemma normalize_canonical n l : canonical (negb (n =? 0)%nat) l → foldl (normalize_step n) [] l = l.
Proof.
  intros (k & names & -> & Hk & Hn). rewrite foldl_app.
  assert (Hd : foldl (normalize_step n) [] (replicate k (str "..")) = replicate k (str "..")).
  { destruct (decide (n = 0%nat)) as [->|Hnz]; [|rewrite Hk by (destruct n; done); done]. clear Hk.
    induction k as [|k IH]; [done|]. rewrite replicate_S_end at 1. rewrite foldl_snoc, IH. by apply normalize_step_dotdot. }
  rewrite Hd. generalize (replicate k (str "..")) as l. induction Hn as [|c names [Hc Hc'] Hn IH]; intros l; cbn [foldl]; [by rewrite app_nil_r|].
  rewrite normalize_step_name, IH by done. by rewrite <- (assoc_L (++)).
Qed.

(** ** What [Normalize] gives *)

Definition shown (initial_slashes : nat) (comps : list bytes) : bytes :=
  let new_path := replicate initial_slashes 47 ++ JoinStrings comps (str "/") in
  if bool_decide (new_path = []) then str "." else new_path.

(** One slash, two, or more than two, which count as one. *)
Definition slashes (path : bytes) : nat :=
  match path with
  | 47 :: 47 :: 47 :: _ => 1
  | 47 :: 47 :: _ => 2
  | 47 :: _ => 1
  | _ => 0
  end.

Lemma SplitStringKeepEmpty_slash path : path ≠ [] → SplitStringKeepEmpty path (str "/") = Some (comps path).
Proof.
  intros Hp. change (str "/") with [47]. unfold SplitStringKeepEmpty, SplitStringKeepEmpty_char. rewrite bool_decide_eq_false_2 by done.
  rewrite keep_empty_char_loop_eq, keep_empty_loop_eq by (done || lia). by rewrite drop_0.
Qed.

Lemma comps_slashless path : Forall (47 ∉.) (comps path).
Proof.
  eapply Forall_impl; [apply cut_pieces; done|]. intros p Hp Hin. apply list_elem_of_lookup in Hin as [j Hj].
  apply (Hp j). split; [apply lookup_lt_Some in Hj; cbn; lia|]. by rewrite (drop_S _ _ _ Hj).
Qed.

Lemma Normalize_eq path : bytes_ok path → path ≠ [] →
  Normalize path = Some (shown (slashes path) (foldl (normalize_step (slashes path)) [] (comps path))).
Proof.
  intros Hb Hp. unfold Normalize. rewrite SplitStringKeepEmpty_slash by done.
  rewrite !starts_with_spec by (done || (repeat constructor; vm_compute; done)).
  destruct path as [|c path]; [done|]. change (chr "/") with 47. change (str "//") with [47; 47]. change (str "///") with [47; 47; 47].
  cbn [length]. unfold shown. destruct (Z.eqb_spec c 47) as [->|Hc].
  - destruct path as [|c2 path]; [done|]. destruct (decide (c2 = 47)) as [->|H2].
    + destruct path as [|c3 path]; [done|]. destruct (decide (c3 = 47)) as [->|H3].
      * rewrite !(bool_decide_eq_true_2 (take _ _ = _)) by done. done.
      * rewrite (bool_decide_eq_true_2 (take 2 _ = _)), (bool_decide_eq_false_2 (take 3 _ = _)) by (done || (cbn; congruence)).
        assert (slashes (47 :: 47 :: c3 :: path) = 2%nat) as ->; [|done].
        unfold slashes. repeat (case_match; try done).
    + rewrite (bool_decide_eq_false_2 (take 2 _ = _)) by (cbn; congruence).
      assert (slashes (47 :: c2 :: path) = 1%nat) as ->; [|done]. unfold slashes. repeat (case_match; try done).
  - assert (slashes (c :: path) = 0%nat) as ->; [|done]. unfold slashes. repeat (case_match; try done).
Qed.

Lemma IsAbsolute_slashes path : IsAbsolute path = negb (slashes path =? 0)%nat.
Proof.
  destruct path as [|c path]; [done|]. unfold IsAbsolute, IsSeparator. change (chr "/") with 47.
  destruct (Z.eqb_spec c 47) as [->|Hc]; unfold slashes; repeat (case_match; try done).
Qed.

Lemma slashes_le path : (slashes path <= 2)%nat.
Proof. unfold slashes. repeat case_match; lia. Qed.

Lemma slashes_replicate n s : (n <= 2)%nat → IsAbsolute s = false → slashes (replicate n 47 ++ s) = n.
Proof.
  intros Hn Hs. assert (H0 : slashes s = 0%nat).
  { rewrite IsAbsolute_slashes in Hs. by destruct (slashes s). }
  destruct s as [|c s]; [by destruct n as [|[|[|]]]; [| | |lia]|].
  assert (Hc : c ≠ 47) by (intros ->; done).
  destruct n as [|[|[|]]]; [done| | |lia]; cbn [replicate app]; unfold slashes; repeat (case_match; try done).
Qed.

Lemma join_relative l : Forall plain_comp l → IsAbsolute (JoinStrings l (str "/")) = false.
Proof.
  intros [|c l' (Hc & _ & Hs) Hl]; [done|].
  assert (E : ∃ t, JoinStrings (c :: l') (str "/") = c ++ t).
  { destruct (decide (l' = [])) as [->|Hne]; [exists []; by rewrite app_nil_r|]. rewrite JoinStrings_cons by done. eauto. }
  destruct E as [t ->]. destruct c as [|x c]; [done|]. cbn. apply Z.eqb_neq. intros ->. apply Hs. by left.
Qed.

Lemma join_nil l : Forall plain_comp l → JoinStrings l (str "/") = [] → l = [].
Proof.
  intros [|c l' (Hc & _ & Hs) Hl]; [done|]. destruct (decide (l' = [])) as [->|Hne]; [done|].
  rewrite JoinStrings_cons by done. by destruct c.
Qed.

Lemma cut_join_plain l : l ≠ [] → Forall plain_comp l → comps (JoinStrings l (str "/")) = l.
Proof.
  intros Hne Hl. apply cut_join_char; [done|]. eapply Forall_impl; [exact Hl|]. intros p (_ & _ & Hp) j [Hj Ht].
  cbn in Hj. destruct (lookup_lt_is_Some_2 p j) as [x Hx]; [lia|]. rewrite (drop_S _ _ _ Hx) in Ht. injection Ht as ->.
  apply Hp. by eapply list_elem_of_lookup_2.
Qed.

(** Components that name no directory. *)
Definition skipped (c : bytes) : Prop := c = [] ∨ c = str ".".

Lemma comps_slashes n s : ∃ skips, Forall skipped skips ∧ comps (replicate n 47 ++ s) = skips ++ comps s.
Proof.
  exists (replicate n []). split; [apply Forall_replicate; by left|]. induction n as [|n IH]; [done|].
  cbn [replicate app]. rewrite <- IH. apply (cut_app_sep 47 []).
Qed.

Lemma comps_shown n l : Forall plain_comp l → ∃ skips, Forall skipped skips ∧ comps (shown n l) = skips ++ l.
Proof.
  intros Hl. unfold shown. case_bool_decide as E.
  - apply app_nil in E as [_ E]. apply join_nil in E as ->; [|done]. exists [str "."]. split; [by repeat constructor; right|done].
  - destruct (comps_slashes n (JoinStrings l (str "/"))) as (skips & Hs & ->). destruct (decide (l = [])) as [->|Hne].
    + exists (skips ++ [[]]). split; [apply Forall_app; split; [done|by repeat constructor]|]. by rewrite app_nil_r.
    + exists skips. by rewrite cut_join_plain.
Qed.

Lemma slashes_shown n l : (n <= 2)%nat → Forall plain_comp l → slashes (shown n l) = n.
Proof.
  intros Hn Hl. unfold shown. case_bool_decide as E.
  - apply app_nil in E as [E _]. by destruct n.
  - by apply slashes_replicate, join_relative.
Qed.

Lemma cd_skips d skips : Forall skipped skips → foldl cd d skips = d.
Proof. induction 1 as [|c skips Hc _ IH]; cbn; [done|]. by rewrite cd_skip. Qed.

Lemma normalize_skips n l skips : Forall skipped skips → foldl (normalize_step n) l skips = l.
Proof. induction 1 as [|c skips [-> | ->] _ IH]; cbn; done. Qed.

Lemma reach_shown d n l : (n <= 2)%nat → Forall plain_comp l →
  reach d (shown n l) = foldl cd (if (n =? 0)%nat then d else []) l.
Proof.
  intros Hn Hl. unfold reach. rewrite IsAbsolute_slashes, slashes_shown by done.
  destruct (comps_shown n l Hl) as (skips & Hs & ->). rewrite foldl_app, (cd_skips _ skips) by done. by destruct (n =? 0)%nat.
Qed.

(** A path as [Normalize] writes it. *)
Definition normal (path : bytes) : Prop :=
  ∃ n l, (n <= 2)%nat ∧ canonical (negb (n =? 0)%nat) l ∧ path = shown n l.

Lemma Normalize_normal path : bytes_ok path → normal path → Normalize path = Some path.
Proof.
  intros Hb (n & l & Hn & Hl & ->). pose proof (canonical_plain _ _ Hl) as Hp. rewrite Normalize_eq; [|done|].
  - rewrite slashes_shown by done. destruct (comps_shown n l Hp) as (skips & Hs & ->).
    by rewrite foldl_app, (normalize_skips _ _ skips), normalize_canonical.
  - unfold shown. by case_bool_decide.
Qed.

Lemma Normalize_ok path : bytes_ok path → ∃ path', Normalize path = Some path' ∧ normal path' ∧
  IsAbsolute path' = IsAbsolute path ∧ ∀ d, reach d path' = reach d path.
Proof.
  intros Hb. destruct (decide (path = [])) as [->|Hne].
  { exists (str "."). split_and!; [done| |done|done]. exists 0%nat, []. split_and!; [lia|apply canonical_nil|done]. }
  set (n := slashes path). set (l := foldl (normalize_step n) [] (comps path)).
  assert (Hst : ∀ d, (negb (n =? 0)%nat = true → d = []) → canonical (negb (n =? 0)%nat) l ∧ foldl cd d l = foldl cd d (comps path)).
  { intros d Hd. exact (normalize_steps_ok n d (comps path) [] Hd (comps_slashless path) (canonical_nil _)). }
  pose proof (slashes_le path) as Hn. destruct (Hst []) as [Hc _]; [done|]. pose proof (canonical_plain _ _ Hc) as Hp.
  exists (shown n l). rewrite Normalize_eq by done. split_and!; [done|by exists n, l|by rewrite !IsAbsolute_slashes, slashes_shown|].
  intros d. rewrite reach_shown by done. unfold reach. rewrite IsAbsolute_slashes. fold n.
  destruct (Nat.eqb_spec n 0) as [E|E]; cbn [negb]; by apply Hst.
Qed.

Lemma comps_bytes_ok path : bytes_ok path → Forall bytes_ok (comps path).
Proof.
  unfold comps. remember (length path) as n eqn:Hn. revert path Hn. induction (lt_wf n) as [n _ IH]. intros path -> Hb.
  destruct (split_at_first 47 path) as [Hp|(w & rest & -> & Hw)]; [rewrite cut_no by done; by constructor|].
  rewrite cut_first by done. apply bytes_ok_app in Hb as [Hb1 Hb2]. apply bytes_ok_cons in Hb2 as [_ Hb2].
  constructor; [done|]. eapply IH; [|done|done]. rewrite length_app. cbn. lia.
Qed.

Lemma steps_bytes_ok n cs l : Forall bytes_ok cs → Forall bytes_ok l → Forall bytes_ok (foldl (normalize_step n) l cs).
Proof.
  intros Hc. revert l. induction Hc as [|c cs Hc _ IH]; intros l Hl; [done|]. cbn [foldl]. apply IH. unfold normalize_step.
  repeat case_match; try done; [by apply Forall_app; split; [|constructor]|].
  destruct l as [|x l _] using rev_ind; [done|]. rewrite removelast_last. by apply Forall_app in Hl as [Hl _].
Qed.

Lemma shown_bytes_ok n l : Forall bytes_ok l → bytes_ok (shown n l).
Proof.
  intros Hl. unfold shown. case_bool_decide; [repeat constructor; vm_compute; done|]. apply bytes_ok_app.
  split; [apply Forall_replicate; vm_compute; done|]. clear -Hl. induction Hl as [|c l Hc Hl IH]; [constructor|].
  destruct (decide (l = [])) as [->|Hne]; [done|]. rewrite JoinStrings_cons by done. rewrite !bytes_ok_app.
  split_and!; [done|repeat constructor; vm_compute; done|done].
Qed.

Lemma Normalize_again path path' : bytes_ok path → Normalize path = Some path' → Normalize path' = Some path'.
Proof.
  intros Hb E. destruct (Normalize_ok path Hb) as (p & E' & Hn & _). rewrite E in E'. injection E' as <-.
  apply Normalize_normal; [|done]. destruct (decide (path = [])) as [->|Hne].
  - injection E as <-. repeat constructor; vm_compute; done.
  - rewrite Normalize_eq in E by done. injection E as <-. by apply shown_bytes_ok, steps_bytes_ok; [apply comps_bytes_ok|].
Qed.

(** ** Joining, and taking a path apart *)

Lemma reach_sep d p q : reach d (p ++ 47 :: q) = foldl cd (if decide (p = []) then [] else reach d p) (comps q).
Proof. unfold reach at 1, comps at 1. rewrite cut_app_sep, foldl_app. by destruct p. Qed.

Lemma reach_relative d q : IsAbsolute q = false → reach d q = foldl cd d (comps q).
Proof. intros H. unfold reach. by rewrite H. Qed.

Lemma reach_join d p q : reach d (Join p q) = if decide (q = []) then reach d p else reach (reach d p) q.
Proof.
  unfold Join, DoJoin. cbn [foldl]. unfold join_step. destruct q as [|c q]; [done|]. rewrite decide_False by done.
  change (chr "/") with 47. destruct (Z.eqb_spec c 47) as [->|Hc]; [done|].
  rewrite (reach_relative (reach d p) (c :: q)) by by apply Z.eqb_neq.
  destruct (decide (p = [])) as [->|Hp]; [by apply reach_relative, Z.eqb_neq|].
  rewrite (bool_decide_eq_false_2 (p = [])) by done. cbn [negb andb]. case_bool_decide as Hl; cbn [negb].
  - apply last_Some in Hl as [p' ->]. rewrite <- (assoc_L (++)). cbn [app]. by rewrite !reach_sep.
  - rewrite <- (assoc_L (++)). cbn [app]. by rewrite reach_sep, decide_False.
Qed.

Lemma rfind_None s c : rfind_char s c None = None → c ∉ s.
Proof.
  unfold rfind_char. destruct s as [|x s]; [set_solver|]. cbn [length Nat.eqb]. intros E Hin.
  pose proof (search_back_min (λ x, x =? c) (x :: s) None ltac:(cbn; lia)) as H. cbn [length] in H. rewrite E in H.
  apply list_elem_of_lookup in Hin as [j Hj]. apply (H j); [done|]. exists c. split; [done|apply Z.eqb_refl].
Qed.

Lemma rfind_Some s c i : rfind_char s c None = Some i → s = take i s ++ c :: drop (S i) s ∧ c ∉ drop (S i) s.
Proof.
  unfold rfind_char. destruct s as [|x s]; [done|]. cbn [length Nat.eqb]. intros E.
  pose proof (search_back_min (λ x, x =? c) (x :: s) None ltac:(cbn; lia)) as H. cbn [length] in H. rewrite E in H.
  destruct H as (_ & (y & Hy & ->%Z.eqb_eq) & H). split.
  - by rewrite <- (drop_S _ _ _ Hy), take_drop.
  - intros Hin. apply list_elem_of_lookup in Hin as [j Hj]. rewrite lookup_drop in Hj. apply (H (S i + j)%nat); [lia|done|].
    exists c. split; [done|apply Z.eqb_refl].
Qed.

Lemma reach_strip d path : reach d (strip_slash path) = reach d path.
Proof.
  unfold strip_slash. destruct (Nat.ltb_spec 1 (length path)) as [Hlen|]; [|done]. cbn [andb].
  case_bool_decide as Hl; [|done]. apply last_Some in Hl as [p ->]. rewrite length_app in *. cbn [length] in *.
  rewrite take_app_le, take_ge by lia. change (chr "/") with 47. rewrite reach_sep, decide_False by (intros ->; cbn in *; lia). done.
Qed.

(** The directory and the name of a path lead together where it does, and a
    name has no slash. *)
Lemma directory_base d path : reach d (Join (GetDirectory path) (GetBaseName path)) = reach d path ∧ 47 ∉ GetBaseName path.
Proof.
  rewrite <- (reach_strip d path), reach_join. unfold GetDirectory, GetBaseName. generalize (strip_slash path) as p. intros p.
  change (chr "/") with 47. destruct (rfind_char p 47 None) as [i|] eqn:E.
  - apply rfind_Some in E as [E Hn]. split; [|done]. set (b := drop (S i) p) in *. rewrite (f_equal (reach d) E), reach_sep.
    assert (Hb : IsAbsolute b = false) by (destruct b as [|y b]; [done|]; apply Z.eqb_neq; intros ->; apply Hn; by left).
    assert (Hd : reach d (match i with O => str "/" | S _ => take i p end) = if decide (take i p = []) then [] else reach d (take i p)).
    { destruct i; [by rewrite take_0|]. destruct p; [by apply (f_equal length) in E; rewrite length_app in E|done]. }
    rewrite <- Hd, (reach_relative _ b) by done. by destruct (decide (b = [])) as [->|].
  - apply rfind_None in E. rewrite drop_0. split; [|done]. by destruct (decide (p = [])) as [->|].
Qed.

(** ** Absolute and relative paths *)

Lemma bytes_ok_join p q : bytes_ok p → bytes_ok q → bytes_ok (Join p q).
Proof.
  intros Hp Hq. unfold Join, DoJoin. cbn [foldl]. unfold join_step. destruct q as [|c q]; [done|]. case_match; [done|].
  apply bytes_ok_app. split; [|done]. case_match; [|done]. apply bytes_ok_app. split; [done|]. repeat constructor; vm_compute; done.
Qed.

(** Names, none of them "..": a way down from the root. *)
Definition names (l : list bytes) : Prop := Forall (λ c, plain_comp c ∧ c ≠ str "..") l.

Lemma names_plain l : names l → Forall plain_comp l.
Proof. intros H. eapply Forall_impl; [exact H|]. by intros c []. Qed.

Lemma cd_names d l : names l → foldl cd d l = reverse l ++ d.
Proof.
  intros H. revert d. induction H as [|c l [(H1 & H2 & _) H3] _ IH]; intros d; cbn [foldl]; [done|].
  rewrite cd_plain, decide_False, IH by done. by rewrite reverse_cons, <- (assoc_L (++)).
Qed.

Lemma filter_all (l : list bytes) : Forall (.≠ []) l → filter (.≠ []) l = l.
Proof. induction 1 as [|c l Hc _ IH]; [done|]. by rewrite filter_cons_True, IH. Qed.

Lemma split_shown n l : n ≠ 0%nat → names l → SplitString (shown n l) (str "/") = Some l.
Proof.
  intros Hn Hl. apply names_plain in Hl. change (str "/") with [47]. rewrite SplitString_char. f_equal. unfold shown.
  rewrite bool_decide_eq_false_2 by by destruct n. destruct n as [|n]; [done|]. clear Hn. cbn [replicate app].
  assert (Hcut : ∀ s : bytes, filter (.≠ []) (cut [47] (47 :: s)) = filter (.≠ []) (cut [47] s)).
  { intros s. change (47 :: s) with ([] ++ 47 :: s). rewrite cut_app_sep. change (cut [47] []) with [@nil Z]. cbn [app]. by rewrite filter_cons_False by (intros []; done). }
  rewrite Hcut. induction n as [|n IH]; [|etransitivity; [apply Hcut|exact IH]]. cbn [replicate app].
  destruct (decide (l = [])) as [->|Hne]; [done|].
  change (cut [47] (JoinStrings l (str "/"))) with (comps (JoinStrings l (str "/"))). rewrite cut_join_plain by done.
  apply filter_all. eapply Forall_impl; [exact Hl|]. by intros c [].
Qed.

Section Cwd_facts.
Context (cwd : bytes) (Hcwd : bytes_ok cwd) (Habs : IsAbsolute cwd = true).

(** Where the process is. *)
Definition here : directory := reach [] cwd.

Lemma ToAbsolute_ok path : bytes_ok path → ∃ n l, ToAbsolute cwd path = Some (shown n l) ∧ n ≠ 0%nat ∧ names l ∧
  reach here path = reverse l.
Proof.
  intros Hb.
  assert (H : ∃ p, ToAbsolute cwd path = Normalize p ∧ bytes_ok p ∧ IsAbsolute p = true ∧ reach here path = reach [] p).
  { unfold ToAbsolute. destruct (IsAbsolute path) eqn:Ea.
    - exists path. split_and!; try done. unfold reach. by rewrite Ea.
    - exists (Join cwd path). split_and!; [done|by apply bytes_ok_join| |].
      + unfold Join, DoJoin. cbn [foldl]. unfold join_step. destruct path as [|c path]; [done|]. change (c =? chr "/") with (IsAbsolute (c :: path)).
        rewrite Ea. destruct cwd as [|c' cwd']; [done|]. by case_match.
      + rewrite reach_join. fold here. destruct (decide (path = [])) as [->|]; done. }
  destruct H as (p & -> & Hp & Hpa & ->). destruct (Normalize_ok p Hp) as (p' & -> & (n & l & Hn & Hl & ->) & Ha & Hr).
  pose proof (canonical_plain _ _ Hl) as Hpl. rewrite Hpa, IsAbsolute_slashes, slashes_shown in Ha by done.
  exists n, l. split; [done|]. rewrite Ha in Hl. destruct Hl as (k & ns & -> & Hk & Hns). rewrite Hk in * by done. cbn [replicate app] in *.
  split; [by intros ->|]. split; [done|]. rewrite <- Hr, reach_shown, cd_names by done.
  destruct (n =? 0)%nat; [done|]. apply app_nil_r.
Qed.

Lemma common_components_take b f : take (common_components b f) b = take (common_components b f) f ∧
  (common_components b f <= length b)%nat.
Proof.
  revert f. induction b as [|x b IH]; intros [|y f]; cbn; [split; [done|lia]..|]. case_bool_decide as E; [|split; [done|lia]].
  destruct (IH f) as [H1 H2]. cbn. rewrite H1, E. split; [done|lia].
Qed.

Lemma up_loop k l : (k <= length l)%nat → foldl cd (reverse l) (replicate k (str "..")) = reverse (take (length l - k) l).
Proof.
  revert l. induction k as [|k IH]; intros l Hk; cbn [replicate foldl]; [by rewrite take_ge by lia|].
  destruct l as [|x l _] using rev_ind; [cbn in Hk; lia|]. rewrite length_app in *. cbn [length] in *.
  rewrite cd_plain, decide_True by done. rewrite reverse_snoc. cbn [tail]. rewrite IH by lia.
  rewrite take_app_le by lia. f_equal. f_equal. lia.
Qed.

Lemma reach_plain d c : plain_comp c → reach d c = cd d c.
Proof.
  intros (H1 & H2 & H3). unfold reach, comps. rewrite cut_no by done. destruct c as [|x c]; [done|].
  assert (IsAbsolute (x :: c) = false) as -> by (apply Z.eqb_neq; intros ->; apply H3; by left). done.
Qed.

Lemma reach_joins d p ps : Forall plain_comp ps → reach d (foldl Join p ps) = foldl cd (reach d p) ps.
Proof.
  intros H. revert p. induction H as [|c ps Hc _ IH]; intros p; cbn [foldl]; [done|].
  rewrite IH, reach_join, decide_False, reach_plain by (done || apply Hc). done.
Qed.


End Cwd_facts.

(** [Normalize] gives a path that leads where the given one does from
    every directory, that is absolute when the given one is, and that
    normalizing again leaves as it is; and the directory of a path and its
    name, joined, lead there too, the name having no slash. *)
Theorem normalize_reaches path : bytes_ok path → ∃ path', Normalize path = Some path' ∧
  (∀ d, reach d path' = reach d path) ∧ IsAbsolute path' = IsAbsolute path ∧ Normalize path' = Some path' ∧
  (∀ d, reach d (Join (GetDirectory path) (GetBaseName path)) = reach d path) ∧ 47 ∉ GetBaseName path.
Proof.
  intros Hb. destruct (Normalize_ok path Hb) as (path' & E & _ & Ha & Hr). exists path'.
  split_and!; [done..|by eapply Normalize_again|intros d; apply directory_base|apply (directory_base [] path)].
Qed.

Lemma normalize_reaches_witness : bytes_ok (str "/a/./b//../c/") ∧
  ∃ path', Normalize (str "/a/./b//../c/") = Some path' ∧ ∀ d, reach d path' = reach d (str "/a/./b//../c/").
Proof.
  assert (H : bytes_ok (str "/a/./b//../c/")) by (repeat constructor; vm_compute; done). split; [done|].
  destruct (normalize_reaches (str "/a/./b//../c/") H) as (p & E & Hr & _). by exists p.
Defined.

