(* ===== verification/Murmur.v ===== *)
(** * MurmurHash

    Model of the functions of hash/murmur/, of hash/fingerprint64.cpp and of
    the sharding policy of storage/sharding/ that hashes with it.  A key is
    the bytes at the pointer, its length the [len] of the source: a [size_t],
    or an [int] for the functions called MurmurHash3, which a key of 2^31
    bytes or more does not fit.  Words are read on the little-endian target. *)

From S2P Require Import Prelude Coding BlockHash.

(** ** MurmurHash2 *)

Definition m : Z := 0x5bd1e995.
Definition r : Z := 24.

(** The macro [MIX], which the other files write out. *)
Definition MIX (h k : Z) : Z :=
  let k := u32 (k * m) in
  let k := Z.lxor k (Z.shiftr k r) in
  let k := u32 (k * m) in
  let h := u32 (h * m) in
  Z.lxor h k.

Definition at_ (data : bytes) (i : nat) : Z := nth i data 0.

(** The cases 3, 2 and 1, falling through, of a [switch] on the number of
    bytes [n], each joining a byte by [op]. *)
Definition switch_bytes (op : Z → Z → Z) (n : nat) (data : bytes) (h : Z) : Z :=
  let h := if (3 <=? n)%nat then op h (Z.shiftl (at_ data 2) 16) else h in
  let h := if (2 <=? n)%nat then op h (Z.shiftl (at_ data 1) 8) else h in
  if (1 <=? n)%nat then op h (at_ data 0) else h.

(** The cases end with a multiplication. *)
Definition tail_bytes (data : bytes) (h : Z) : Z :=
  if (length data =? 0)%nat then h else u32 (switch_bytes Z.lxor (length data) data h * m).

Definition final_mix (h : Z) : Z :=
  let h := Z.lxor h (Z.shiftr h 13) in
  let h := u32 (h * m) in
  Z.lxor h (Z.shiftr h 15).

(** [while (len >= 4)], with the word read by [read]. *)
Fixpoint mix_words (read : bytes → Z) (fuel : nat) (h : Z) (data : bytes) : Z * bytes :=
  match fuel with
  | O => (h, data)
  | S fuel =>
      if (4 <=? length data)%nat then mix_words read fuel (MIX h (read data)) (drop 4 data)
      else (h, data)
  end.

Definition MurmurHash2 (key : bytes) (seed : Z) : Z :=
  let h := u32 (Z.lxor seed (Z.of_nat (length key))) in
  let '(h, data) := mix_words load32 (length key) h key in
  final_mix (tail_bytes data h).

(** The word byte by byte. *)
Definition read_neutral (data : bytes) : Z :=
  let k := at_ data 0 in
  let k := Z.lor k (Z.shiftl (at_ data 1) 8) in
  let k := Z.lor k (Z.shiftl (at_ data 2) 16) in
  Z.lor k (u32 (Z.shiftl (at_ data 3) 24)).

Definition MurmurHashNeutral2 (key : bytes) (seed : Z) : Z :=
  let h := u32 (Z.lxor seed (Z.of_nat (length key))) in
  let '(h, data) := mix_words read_neutral (length key) h key in
  final_mix (tail_bytes data h).

(** ** MurmurHashAligned2 *)

(** [switch (align)] before the loop: the bytes up to the first whole word. *)
Definition preload (align : nat) (data : bytes) : Z :=
  let t := if (align <=? 1)%nat then Z.shiftl (at_ data 2) 16 else 0 in
  let t := if (align <=? 2)%nat then Z.lor t (Z.shiftl (at_ data 1) 8) else t in
  Z.lor t (at_ data 0).

(** [(t >> sr) | (d << sl)] *)
Definition shift_in (sl sr t d : Z) : Z := Z.lor (Z.shiftr t sr) (u32 (Z.shiftl d sl)).

Fixpoint mix_aligned (fuel : nat) (sl sr h t : Z) (data : bytes) : Z * Z * bytes :=
  match fuel with
  | O => (h, t, data)
  | S fuel =>
      if (4 <=? length data)%nat then
        let d := load32 data in
        mix_aligned fuel sl sr (MIX h (shift_in sl sr t d)) d (drop 4 data)
      else (h, t, data)
  end.

(** [align] is [(uintptr_t)data & 3]. *)
Definition MurmurHashAligned2 (align : nat) (key : bytes) (seed : Z) : Z :=
  let h := u32 (Z.lxor seed (Z.of_nat (length key))) in
  if (negb (align =? 0) && (4 <=? length key))%nat%bool then
    let t := u32 (Z.shiftl (preload align key) (8 * Z.of_nat align)) in
    let data := drop (4 - align) key in
    let sl := 8 * (4 - Z.of_nat align) in
    let sr := 8 * Z.of_nat align in
    let '(h, t, data) := mix_aligned (length key) sl sr h t data in
    let h :=
      if (align <=? length data)%nat then
        let d := switch_bytes Z.lor align data 0 in
        let h := MIX h (shift_in sl sr t d) in
        tail_bytes (drop align data) h
      else
        let d := switch_bytes Z.lor (length data) data 0 in
        u32 (Z.lxor h (shift_in sl sr t d) * m) in
    final_mix h
  else
    let '(h, data) := mix_words load32 (length key) h key in
    final_mix (tail_bytes data h).

Definition MurmurHash2A (key : bytes) (seed : Z) : Z :=
  let l := u32 (Z.of_nat (length key)) in
  let '(h, data) := mix_words load32 (length key) seed key in
  let t := switch_bytes Z.lxor (length data) data 0 in
  let h := MIX h t in
  let h := MIX h l in
  final_mix h.

(** ** The 64-bit versions *)

Definition load64 (p : bytes) : Z := Z.lor (load32 p) (Z.shiftl (load32 (drop 4 p)) 32).

Definition m64 : Z := 0xc6a4a7935bd1e995.
Definition r64 : Z := 47.

Fixpoint mix64_loop (words : nat) (h : Z) (data : bytes) : Z * bytes :=
  match words with
  | O => (h, data)
  | S words =>
      let k := load64 data in
      let k := u64 (k * m64) in
      let k := Z.lxor k (Z.shiftr k r64) in
      let k := u64 (k * m64) in
      let h := Z.lxor h k in
      let h := u64 (h * m64) in
      mix64_loop words h (drop 8 data)
  end.

(** The cases [n], [n - 1], ..., 1 of a [switch] on the length of [data], which
    join the bytes from [base] on. *)
Fixpoint xor_cases (n : nat) (base : nat) (data : bytes) (k : Z) : Z :=
  match n with
  | O => k
  | S n =>
      xor_cases n base data
        (if (base + n <? length data)%nat then Z.lxor k (Z.shiftl (at_ data (base + n)) (8 * Z.of_nat n)) else k)
  end.

Definition MurmurHash64A (key : bytes) (seed : Z) : Z :=
  let len := length key in
  let h := Z.lxor seed (u64 (Z.of_nat len * m64)) in
  let '(h, data2) := mix64_loop (len / 8) h key in
  let h := if (length data2 =? 0)%nat then h else u64 (xor_cases 7 0 data2 h * m64) in
  let h := Z.lxor h (Z.shiftr h r64) in
  let h := u64 (h * m64) in
  Z.lxor h (Z.shiftr h r64).

(** [while (len >= 8)] *)
Fixpoint mix64B_loop (fuel : nat) (h1 h2 : Z) (data : bytes) : Z * Z * bytes :=
  match fuel with
  | O => (h1, h2, data)
  | S fuel =>
      if (8 <=? length data)%nat then
        mix64B_loop fuel (MIX h1 (load32 data)) (MIX h2 (load32 (drop 4 data))) (drop 8 data)
      else (h1, h2, data)
  end.

Definition MurmurHash64B (key : bytes) (seed : Z) : Z :=
  let h1 := u32 (Z.lxor seed (Z.of_nat (length key))) in
  let h2 := 0 in
  let '(h1, h2, data) := mix64B_loop (length key) h1 h2 key in
  let '(h1, data) := if (4 <=? length data)%nat then (MIX h1 (load32 data), drop 4 data) else (h1, data) in
  let h2 := tail_bytes data h2 in
  let h1 := u32 (Z.lxor h1 (Z.shiftr h2 18) * m) in
  let h2 := u32 (Z.lxor h2 (Z.shiftr h1 22) * m) in
  let h1 := u32 (Z.lxor h1 (Z.shiftr h2 17) * m) in
  let h2 := u32 (Z.lxor h2 (Z.shiftr h1 19) * m) in
  Z.lor (Z.shiftl h1 32) h2.

(** ** Fingerprints and shards *)

Definition kFingerPrintSeed : Z := 19820125.
Definition Fingerprint64 (s : bytes) : Z := MurmurHash64A s kFingerPrintSeed.

Example fingerprint_test : Fingerprint64 (str "http://app.kid.qq.com/exam/5528/5528_103392.htm") = 17105673616436300159.
Proof. by vm_compute. Qed.

(** [FingerprintSharding]: the number of shards is an [int], the remainder is
    taken in 64 bits without sign, and [None] is a division by zero. *)
Definition new_shard_num : Z := 1.
Definition SetShardingNumber (shard_num : Z) (old : Z) : Z := shard_num.
Definition Shard (shard_num : Z) (key : bytes) : option Z :=
  if u64 shard_num =? 0 then None else Some (s32 (Fingerprint64 key mod u64 shard_num)).

(** ** MurmurHash3, 32-bit *)

Definition fmix32 (h : Z) : Z :=
  let h := Z.lxor h (Z.shiftr h 16) in
  let h := u32 (h * 0x85ebca6b) in
  let h := Z.lxor h (Z.shiftr h 13) in
  let h := u32 (h * 0xc2b2ae35) in
  Z.lxor h (Z.shiftr h 16).

(** [k *= c; k = _rotl(k, 11); k *= c'] *)
Definition scramble32 (k c c' : Z) : Z := u32 (rotl32 (u32 (k * c)) 11 * c').

(** [c1 = c1*5+0x7b7d159c; c2 = c2*5+0x6bce6396] *)
Definition next_c32 (c : Z * Z) : Z * Z := (u32 (c.1 * 5 + 0x7b7d159c), u32 (c.2 * 5 + 0x6bce6396)).

Definition bmix32 (h1 k1 : Z) (c : Z * Z) : Z * (Z * Z) :=
  let h1 := Z.lxor h1 (scramble32 k1 c.1 c.2) in
  (u32 (h1 * 3 + 0x52dce729), next_c32 c).

Definition c32 : Z * Z := (0x95543787, 0x2ad7eb25).

(** The loop over the whole blocks of [size] bytes. *)
Section Blocks.
Context {S : Type} (size : nat) (mix : S → bytes → S).
Fixpoint block_loop (nblocks : nat) (s : S) (data : bytes) : S * bytes :=
  match nblocks with
  | O => (s, data)
  | Datatypes.S nblocks => block_loop nblocks (mix s data) (drop size data)
  end.
End Blocks.

Definition MurmurHash3_x86_32 (key : bytes) (seed : Z) : Z :=
  let '((h1, c), tail) := block_loop 4 (λ '(h1, c) data, bmix32 h1 (load32 data) c) (length key / 4)
                            (Z.lxor 0x971e137b seed, c32) key in
  let k1 := xor_cases 3 0 tail 0 in
  let h1 := if (length tail =? 0)%nat then h1 else (bmix32 h1 k1 c).1 in
  fmix32 (Z.lxor h1 (Z.of_nat (length key))).

(** *** Two lanes *)

Definition bmix32_2 (h : Z * Z) (k : Z * Z) (c : Z * Z) : (Z * Z) * (Z * Z) :=
  let '(h1, h2) := h in let '(k1, k2) := k in
  let h1 := Z.lxor h1 (scramble32 k1 c.1 c.2) in
  let h1 := u32 (h1 + h2) in
  let h2 := rotl32 h2 17 in
  let h2 := Z.lxor h2 (scramble32 k2 c.2 c.1) in
  let h2 := u32 (h2 + h1) in
  (u32 (h1 * 3 + 0x52dce729), u32 (h2 * 3 + 0x38495ab5), next_c32 c).

Definition MurmurHash3_x86_64 (key : bytes) (seed : Z) : Z * Z :=
  let '((h, c), tail) := block_loop 8 (λ '(h, c) data, bmix32_2 h (load32 data, load32 (drop 4 data)) c) (length key / 8)
                           ((Z.lxor 0x8de1c3ac seed, Z.lxor 0xbab98226 seed), c32) key in
  let k2 := xor_cases 3 4 tail 0 in
  let k1 := xor_cases 4 0 tail 0 in
  let '(h1, h2) := if (length tail =? 0)%nat then h else (bmix32_2 h (k1, k2) c).1 in
  let h2 := Z.lxor h2 (Z.of_nat (length key)) in
  let h1 := u32 (h1 + h2) in let h2 := u32 (h2 + h1) in
  let h1 := fmix32 h1 in let h2 := fmix32 h2 in
  let h1 := u32 (h1 + h2) in let h2 := u32 (h2 + h1) in
  (h1, h2).

(** *** Four lanes *)

Definition words4 : Type := Z * Z * Z * Z.

Definition bmix32_4 (h k : words4) (c : Z * Z) : words4 * (Z * Z) :=
  let '(h1, h2, h3, h4) := h in let '(k1, k2, k3, k4) := k in
  let h1 := Z.lxor h1 (scramble32 k1 c.1 c.2) in
  let h1 := u32 (u32 (u32 (h1 + h2) + h3) + h4) in
  let h1 := rotl32 h1 17 in
  let h2 := Z.lxor h2 (scramble32 k2 c.2 c.1) in
  let h2 := u32 (h2 + h1) in
  let h1 := u32 (h1 * 3 + 0x52dce729) in
  let h2 := u32 (h2 * 3 + 0x38495ab5) in
  let c := next_c32 c in
  let h3 := Z.lxor h3 (scramble32 k3 c.1 c.2) in
  let h3 := u32 (h3 + h1) in
  let h4 := Z.lxor h4 (scramble32 k4 c.2 c.1) in
  let h4 := u32 (h4 + h1) in
  let h3 := u32 (h3 * 3 + 0x52dce729) in
  let h4 := u32 (h4 * 3 + 0x38495ab5) in
  (h1, h2, h3, h4, next_c32 c).

(** The sums of the finalization. *)
Definition spread4 (h : words4) : words4 :=
  let '(h1, h2, h3, h4) := h in
  let h1 := u32 (u32 (u32 (h1 + h2) + h3) + h4) in
  (h1, u32 (h2 + h1), u32 (h3 + h1), u32 (h4 + h1)).

Definition MurmurHash3_x86_128 (key : bytes) (seed : Z) : words4 :=
  let blocks data := (load32 data, load32 (drop 4 data), load32 (drop 8 data), load32 (drop 12 data)) in
  let '((h, c), tail) := block_loop 16 (λ '(h, c) data, bmix32_4 h (blocks data) c) (length key / 16)
    ((Z.lxor 0x8de1c3ac seed, Z.lxor 0xbab98226 seed, Z.lxor 0xfcba5b2d seed, Z.lxor 0x32452e3e seed), c32) key in
  let k4 := xor_cases 3 12 tail 0 in
  let k3 := xor_cases 4 8 tail 0 in
  let k2 := xor_cases 4 4 tail 0 in
  let k1 := xor_cases 4 0 tail 0 in
  let '(h1, h2, h3, h4) := if (length tail =? 0)%nat then h else (bmix32_4 h (k1, k2, k3, k4) c).1 in
  let h4 := Z.lxor h4 (Z.of_nat (length key)) in
  let '(h1, h2, h3, h4) := spread4 (h1, h2, h3, h4) in
  spread4 (fmix32 h1, fmix32 h2, fmix32 h3, fmix32 h4).

(** ** MurmurHash3, 64-bit *)

Definition rotl64 (w s : Z) : Z := Z.lor (u64 (Z.shiftl w s)) (Z.shiftr w (64 - s)).

Definition fmix64 (k : Z) : Z :=
  let k := Z.lxor k (Z.shiftr k 33) in
  let k := u64 (k * 0xff51afd7ed558ccd) in
  let k := Z.lxor k (Z.shiftr k 33) in
  let k := u64 (k * 0xc4ceb9fe1a85ec53) in
  Z.lxor k (Z.shiftr k 33).

Definition scramble64 (k c c' : Z) : Z := u64 (rotl64 (u64 (k * c)) 23 * c').
Definition next_c64 (c : Z * Z) : Z * Z := (u64 (c.1 * 5 + 0x7b7d159c), u64 (c.2 * 5 + 0x6bce6396)).

Definition bmix64 (h : Z * Z) (k : Z * Z) (c : Z * Z) : (Z * Z) * (Z * Z) :=
  let '(h1, h2) := h in let '(k1, k2) := k in
  let h1 := Z.lxor h1 (scramble64 k1 c.1 c.2) in
  let h1 := u64 (h1 + h2) in
  let h2 := rotl64 h2 41 in
  let h2 := Z.lxor h2 (scramble64 k2 c.2 c.1) in
  let h2 := u64 (h2 + h1) in
  (u64 (h1 * 3 + 0x52dce729), u64 (h2 * 3 + 0x38495ab5), next_c64 c).

Definition MurmurHash3_x64_128 (key : bytes) (seed : Z) : Z * Z :=
  let '((h, c), tail) := block_loop 16 (λ '(h, c) data, bmix64 h (load64 data, load64 (drop 8 data)) c) (length key / 16)
    ((Z.lxor 0x9368e53c2f6af274 seed, Z.lxor 0x586dcd208f7cd3fd seed), (0x87c37b91114253d5, 0x4cf5ad432745937f)) key in
  let k2 := xor_cases 7 8 tail 0 in
  let k1 := xor_cases 8 0 tail 0 in
  let '(h1, h2) := if (length tail =? 0)%nat then h else (bmix64 h (k1, k2) c).1 in
  let h2 := Z.lxor h2 (Z.of_nat (length key)) in
  let h1 := u64 (h1 + h2) in let h2 := u64 (h2 + h1) in
  let h1 := fmix64 h1 in let h2 := fmix64 h2 in
  let h1 := u64 (h1 + h2) in let h2 := u64 (h2 + h1) in
  (h1, h2).

(** The low word and the first half of the 128 bits. *)
Definition MurmurHash3_x64_32 (key : bytes) (seed : Z) : Z := u32 (MurmurHash3_x64_128 key seed).1.
Definition MurmurHash3_x64_64 (key : bytes) (seed : Z) : Z := (MurmurHash3_x64_128 key seed).1.
