(* ===== verification/MurmurFacts.v ===== *)
(** * MurmurHash: the variants agree

    MurmurHash2, the version that reads byte by byte and the version that
    reads only aligned words give the same hash, whatever the alignment of the
    key; every hash fits its width, and a fingerprint picks a shard. *)

From S2P Require Import Prelude Coding BlockHash Murmur.

(** ** Bytes as a number *)

Fixpoint le (p : bytes) : Z := match p with [] => 0 | b :: p => b + 256 * le p end.

Lemma le_bound p : bytes_ok p → 0 <= le p < 256 ^ Z.of_nat (length p).
Proof.
  induction 1 as [|b p Hb _ IH]; [done|]. cbn [le length]. rewrite Nat2Z.inj_succ, Z.pow_succ_r by lia. unfold is_byte in Hb. lia.
Qed.

Lemma le_app p q : le (p ++ q) = le p + 256 ^ Z.of_nat (length p) * le q.
Proof.
  induction p as [|b p IH]; cbn [app le length]; [lia|]. rewrite IH, Nat2Z.inj_succ, Z.pow_succ_r by lia. lia.
Qed.

Lemma pow_256 n : 256 ^ Z.of_nat n = 2 ^ (8 * Z.of_nat n).
Proof. rewrite Z.pow_mul_r by lia. done. Qed.

Lemma load32_le p q : bytes_ok p → length p = 4%nat → load32 (p ++ q) = le p.
Proof.
  destruct p as [|a [|b [|c [|d [|]]]]]; try done. intros H _. rewrite !bytes_ok_cons in H. destruct H as (Ha & Hb & Hc & Hd & _).
  cbn [load32 app le]. rewrite join4 by done. lia.
Qed.

Lemma read_neutral_load32 p : bytes_ok p → (4 <= length p)%nat → read_neutral p = load32 p.
Proof.
  destruct p as [|a [|b [|c [|d p]]]]; cbn [length]; try lia. intros H _. rewrite !bytes_ok_cons in H. destruct H as (Ha & Hb & Hc & Hd & _).
  unfold read_neutral, at_. cbn [nth load32]. rewrite u32_small; [done|]. unfold is_byte in Hd. rewrite Z.shiftl_mul_pow2; lia.
Qed.

(** The cases of the switch read the bytes as a number. *)
Lemma switch_or p : bytes_ok p → (length p <= 3)%nat → ∀ q, switch_bytes Z.lor (length p) (p ++ q) 0 = le p.
Proof.
  intros H Hl q. destruct p as [|a [|b [|c [|]]]]; cbn in Hl; try lia; rewrite ?bytes_ok_cons in H; unfold switch_bytes, at_; cbn [length Nat.leb nth app le].
  - done.
  - rewrite Z.lor_0_l. lia.
  - destruct H as (Ha & Hb & _). rewrite Z.lor_0_l, Z.lor_comm, lor_shiftl_add by (unfold is_byte in *; lia). lia.
  - destruct H as (Ha & Hb & Hc & _). rewrite Z.lor_0_l, <- Z.lor_comm, (Z.lor_comm (Z.shiftl c 16)), Z.lor_assoc.
    unfold is_byte in *. rewrite (lor_shiftl_add a b), lor_shiftl_add by lia. lia.
Qed.

Lemma switch_xor p h : bytes_ok p → (length p <= 3)%nat → switch_bytes Z.lxor (length p) p h = Z.lxor h (le p).
Proof.
  intros H Hl. destruct p as [|a [|b [|c [|]]]]; cbn in Hl; try lia; rewrite ?bytes_ok_cons in H; unfold switch_bytes, at_; cbn [length Nat.leb nth le].
  - by rewrite Z.lxor_0_r.
  - f_equal. lia.
  - destruct H as (Ha & Hb & _). unfold is_byte in *. rewrite Z.lxor_assoc. f_equal. rewrite Z.lxor_comm, lxor_shiftl_add by lia. lia.
  - destruct H as (Ha & Hb & Hc & _). unfold is_byte in *. rewrite !Z.lxor_assoc. f_equal.
    rewrite (Z.lxor_comm _ a), (Z.lxor_comm (Z.shiftl c 16)), (lxor_shiftl_add a b), lxor_shiftl_add by lia. lia.
Qed.

Lemma tail_le p h : bytes_ok p → (length p <= 3)%nat →
  tail_bytes p h = if (length p =? 0)%nat then h else u32 (Z.lxor h (le p) * m).
Proof. intros H Hl. unfold tail_bytes. by rewrite switch_xor. Qed.

(** ** The loops over words *)

Lemma mix_words_fuel read f f' h p : (length p <= f)%nat → (length p <= f')%nat → mix_words read f h p = mix_words read f' h p.
Proof.
  revert f' h p. induction f as [|f IH]; intros f' h p Hf Hf'.
  - destruct p; [|cbn in Hf; lia]. by destruct f'.
  - destruct f' as [|f']; [destruct p; [done|cbn in Hf'; lia]|]. cbn [mix_words]. destruct (Nat.leb_spec 4 (length p)); [|done].
    apply IH; rewrite length_drop; lia.
Qed.

Lemma mix_words_step read f h p : (length p <= f)%nat →
  mix_words read f h p = if (4 <=? length p)%nat then mix_words read f (MIX h (read p)) (drop 4 p) else (h, p).
Proof.
  intros Hf. rewrite (mix_words_fuel read f (S f)) by lia. cbn [mix_words]. done.
Qed.

Lemma mix_words_ext read read' f h p : (∀ q, bytes_ok q → (4 <= length q)%nat → read q = read' q) → bytes_ok p →
  mix_words read f h p = mix_words read' f h p.
Proof.
  intros Hr. revert h p. induction f as [|f IH]; intros h p Hp; [done|]. cbn [mix_words].
  destruct (Nat.leb_spec 4 (length p)); [|done]. rewrite Hr by done. by apply IH, Forall_drop.
Qed.

(** MurmurHash2 after the initialization. *)
Definition murmur2 (h : Z) (p : bytes) : Z := let '(h, p) := mix_words load32 (length p) h p in tail_bytes p h.

Lemma murmur2_word h w p : bytes_ok w → length w = 4%nat → murmur2 h (w ++ p) = murmur2 (MIX h (le w)) p.
Proof.
  intros Hw Hl. unfold murmur2. rewrite mix_words_step by done. rewrite length_app, Hl. cbn [Nat.add Nat.leb].
  rewrite load32_le, drop_app_exact by done. rewrite (mix_words_fuel _ _ (length p)) by lia. done.
Qed.

Lemma murmur2_tail h p : bytes_ok p → (length p <= 3)%nat →
  murmur2 h p = if (length p =? 0)%nat then h else u32 (Z.lxor h (le p) * m).
Proof.
  intros Hp Hl. unfold murmur2. rewrite mix_words_step by done. destruct (Nat.leb_spec 4 (length p)); [lia|]. by apply tail_le.
Qed.

(** ** Aligned reads *)

(** The bytes pending in [t] and those read into the high part of the word. *)
Lemma shift_in_le a p w t : (0 < a < 4)%nat → bytes_ok p → bytes_ok w → length p = (4 - a)%nat → (length w <= 4)%nat →
  Z.shiftr t (8 * Z.of_nat a) = le p →
  shift_in (8 * (4 - Z.of_nat a)) (8 * Z.of_nat a) t (le w) = le (p ++ take a w).
Proof.
  intros Ha Hp Hw Hl Hlw Ht. unfold shift_in. rewrite Ht. pose proof (le_bound p Hp) as Hb. rewrite Hl, pow_256 in Hb.
  replace (8 * Z.of_nat (4 - a)) with (8 * (4 - Z.of_nat a)) in Hb by lia. set (n := 8 * (4 - Z.of_nat a)) in *.
  assert (Hu : u32 (Z.shiftl (le w) n) = Z.shiftl (le (take a w)) n).
  { rewrite <- (take_drop a w) at 1. rewrite le_app, !Z.shiftl_mul_pow2 by lia. unfold u32.
    pose proof (le_bound (take a w) ltac:(by apply Forall_take)) as Hb'. rewrite length_take, pow_256 in Hb'.
    destruct (decide (a <= length w)%nat).
    - rewrite length_take, (Nat.min_l a) in * by lia. rewrite pow_256.
      assert (E : 2 ^ 32 = 2 ^ (8 * Z.of_nat a) * 2 ^ n) by (rewrite <- Z.pow_add_r by lia; f_equal; lia).
      replace ((le (take a w) + 2 ^ (8 * Z.of_nat a) * le (drop a w)) * 2 ^ n)
        with (le (take a w) * 2 ^ n + le (drop a w) * 2 ^ 32) by (rewrite E; lia).
      rewrite Z.mod_add by lia. apply Z.mod_small. rewrite E. nia.
    - rewrite (drop_ge w) by lia. cbn [le]. rewrite Z.mul_0_r, Z.add_0_r. apply Z.mod_small.
      assert (E : 2 ^ 32 = 2 ^ (8 * Z.of_nat a) * 2 ^ n) by (rewrite <- Z.pow_add_r by lia; f_equal; lia).
      assert (2 ^ (8 * Z.of_nat (a `min` length w)) <= 2 ^ (8 * Z.of_nat a)) by (apply Z.pow_le_mono_r; lia). rewrite E. nia. }
  rewrite Hu, lor_shiftl_add by lia. rewrite le_app, Hl, pow_256. replace (8 * Z.of_nat (4 - a)) with n by lia. lia.
Qed.

Lemma shiftr_le a w : bytes_ok w → (a <= length w)%nat → Z.shiftr (le w) (8 * Z.of_nat a) = le (drop a w).
Proof.
  intros Hw Ha. rewrite <- (take_drop a w) at 1. rewrite le_app, length_take, Nat.min_l, pow_256, Z.shiftr_div_pow2 by lia.
  pose proof (le_bound (take a w) ltac:(by apply Forall_take)) as Hb. rewrite length_take, Nat.min_l, pow_256 in Hb by lia.
  rewrite Z.mul_comm, Z.div_add, Z.div_small by lia. done.
Qed.

(** What follows the loop over aligned words. *)
Definition aligned_end (a : nat) (h t : Z) (data : bytes) : Z :=
  let sl := 8 * (4 - Z.of_nat a) in
  let sr := 8 * Z.of_nat a in
  if (a <=? length data)%nat then tail_bytes (drop a data) (MIX h (shift_in sl sr t (switch_bytes Z.lor a data 0)))
  else u32 (Z.lxor h (shift_in sl sr t (switch_bytes Z.lor (length data) data 0)) * m).

Lemma aligned_end_ok a h p t data : (0 < a < 4)%nat → bytes_ok p → bytes_ok data → length p = (4 - a)%nat → (length data < 4)%nat →
  Z.shiftr t (8 * Z.of_nat a) = le p → aligned_end a h t data = murmur2 h (p ++ data).
Proof.
  intros Ha Hp Hd Hl Hld Ht. unfold aligned_end. destruct (Nat.leb_spec a (length data)) as [Hle|Hlt].
  - assert (Ht' : bytes_ok (take a data)) by by apply Forall_take. assert (Hd' : bytes_ok (drop a data)) by by apply Forall_drop.
    assert (Hla : length (take a data) = a) by (rewrite length_take; lia).
    assert (Es : switch_bytes Z.lor a data 0 = le (take a data)).
    { rewrite <- (switch_or (take a data)) with (q := drop a data) by (done || lia). by rewrite take_drop, Hla. }
    rewrite Es, (shift_in_le a p) by (done || lia). rewrite take_take, Nat.min_id.
    rewrite <- (take_drop a data) at 3. rewrite (assoc_L (++)), murmur2_word; [|by apply bytes_ok_app|rewrite length_app; lia].
    rewrite murmur2_tail, tail_le by (done || rewrite length_drop; lia). done.
  - rewrite <- (app_nil_r data) at 2. rewrite switch_or by (done || lia). rewrite (shift_in_le a p) by (done || lia).
    rewrite (take_ge data) by lia. rewrite murmur2_tail; [|by apply bytes_ok_app|rewrite length_app; lia].
    rewrite length_app. destruct (Nat.eqb_spec (length p + length data) 0); [lia|done].
Qed.

Lemma mix_aligned_ok a f h p t data : (0 < a < 4)%nat → bytes_ok p → bytes_ok data → length p = (4 - a)%nat → (length data <= f)%nat →
  Z.shiftr t (8 * Z.of_nat a) = le p →
  (let '(h, t, data) := mix_aligned f (8 * (4 - Z.of_nat a)) (8 * Z.of_nat a) h t data in aligned_end a h t data) = murmur2 h (p ++ data).
Proof.
  intros Ha. revert h p t data. induction f as [|f IH]; intros h p t data Hp Hd Hl Hf Ht; cbn [mix_aligned].
  - apply aligned_end_ok; done || lia.
  - destruct (Nat.leb_spec 4 (length data)) as [H4|H4]; [|apply aligned_end_ok; done || lia].
    assert (Hw : bytes_ok (take 4 data)) by by apply Forall_take. assert (Hlw : length (take 4 data) = 4%nat) by (rewrite length_take; lia).
    assert (El : load32 data = le (take 4 data)) by (rewrite <- (take_drop 4 data) at 1; by apply load32_le).
    rewrite El, (shift_in_le a p) by (done || lia).
    rewrite (IH _ (drop a (take 4 data)) _ (drop 4 data)).
    + assert (E : p ++ data = (p ++ take a (take 4 data)) ++ drop a (take 4 data) ++ drop 4 data)
        by by rewrite <- (assoc_L (++)), (assoc_L (++) (take a _)), !take_drop.
      rewrite E, (murmur2_word h); [done| |]; [apply bytes_ok_app; split; [done|by apply Forall_take]|].
      rewrite length_app, length_take. lia.
    + by apply Forall_drop.
    + by apply Forall_drop.
    + rewrite length_drop. lia.
    + rewrite length_drop. lia.
    + apply shiftr_le; [done|lia].
Qed.

Lemma preload_le a p : (0 < a < 4)%nat → bytes_ok p → (4 <= length p)%nat → preload a p = le (take (4 - a) p).
Proof.
  intros Ha H Hl. destruct p as [|x [|y [|z p]]]; cbn in Hl; try lia. rewrite !bytes_ok_cons in H. destruct H as (Hx & Hy & Hz & _).
  unfold preload, at_, is_byte in *. cbn [nth].
  destruct a as [|[|[|[|]]]]; try lia; cbn [Nat.leb Nat.sub take le]; rewrite ?take_0; cbn [le].
  - rewrite (Z.lor_comm _ x), (Z.lor_comm (Z.shiftl z 16)), Z.lor_assoc, (lor_shiftl_add x y), lor_shiftl_add by lia. lia.
  - rewrite Z.lor_0_l, Z.lor_comm, lor_shiftl_add by lia. lia.
  - rewrite Z.lor_0_l. lia.
Qed.

Lemma aligned_murmur2 a key seed : (a < 4)%nat → bytes_ok key → MurmurHashAligned2 a key seed = MurmurHash2 key seed.
Proof.
  intros Ha Hk. unfold MurmurHashAligned2, MurmurHash2. set (h := u32 (Z.lxor seed _)).
  destruct (negb (a =? 0) && (4 <=? length key))%nat%bool eqn:E; [|done]. bool_to_prop.
  assert (Hp : bytes_ok (take (4 - a) key)) by by apply Forall_take.
  assert (Hl : length (take (4 - a) key) = (4 - a)%nat) by (rewrite length_take; lia).
  rewrite preload_le by (done || lia).
  pose proof (mix_aligned_ok a (length key) h (take (4 - a) key) (u32 (Z.shiftl (le (take (4 - a) key)) (8 * Z.of_nat a))) (drop (4 - a) key)) as Hm.
  rewrite take_drop in Hm. unfold murmur2 in Hm. destruct (mix_words _ _ h key) as [h' q].
  destruct (mix_aligned _ _ _ _ _ _) as [[h'' t'] q']. unfold aligned_end in Hm. rewrite <- Hm; try done.
  - lia.
  - by apply Forall_drop.
  - rewrite length_drop. lia.
  - pose proof (le_bound _ Hp) as Hb. rewrite Hl, pow_256 in Hb.
    assert (Hlt : le (take (4 - a) key) * 2 ^ (8 * Z.of_nat a) < 2 ^ 32).
    { replace (2 ^ 32) with (2 ^ (8 * Z.of_nat (4 - a)) * 2 ^ (8 * Z.of_nat a)) by (rewrite <- Z.pow_add_r by lia; f_equal; lia). nia. }
    rewrite Z.shiftl_mul_pow2, u32_small by nia. rewrite Z.shiftr_div_pow2, Z.div_mul by lia. done.
Qed.

(** The variants of MurmurHash2 compute one function.  For every key and
    seed the version that joins its words byte by byte gives the hash of the
    version that reads them whole, and so does the version that reads only at
    aligned addresses, wherever the key starts. *)
Theorem murmur2_variants key seed : bytes_ok key →
  MurmurHashNeutral2 key seed = MurmurHash2 key seed ∧
  ∀ align, (align < 4)%nat → MurmurHashAligned2 align key seed = MurmurHash2 key seed.
Proof.
  intros Hk. split; [|by intros; apply aligned_murmur2]. unfold MurmurHashNeutral2, MurmurHash2.
  by rewrite (mix_words_ext read_neutral load32) by (done || apply read_neutral_load32).
Qed.

Lemma murmur2_variants_witness : bytes_ok (str "unaligned keys") ∧
  MurmurHashAligned2 3 (str "unaligned keys") 7 = MurmurHash2 (str "unaligned keys") 7.
Proof.
  assert (H : bytes_ok (str "unaligned keys")) by (repeat constructor; vm_compute; done).
  split; [done|]. apply (murmur2_variants (str "unaligned keys") 7 H). lia.
Defined.
