(* ===== verification/Bloom.v ===== *)
(** * Bloom filters

    Model of container/bloom_filter.h and bloom_filter.cpp, over MurmurHash and
    the divisor.  A filter's bitmap is the bytes at the pointer: its own, or
    memory of the caller, which nothing else writes in the meantime.  [None]
    is undefined behaviour or a failed assertion.  The logarithms that choose
    the sizes are those of the C library, and whether [calloc] succeeds is
    the system's choice: parameters. *)

From S2P Require Import Prelude Coding BlockHash Divisor Murmur.

(** What the filters take from <math.h>: [exp(-log(2.0) * num_hashes)],
    [num_bits * log(2.0) / num_hashes], and the two numbers computed from a
    count of elements and a probability. *)
Class Libm := {
  real : Type;
  probability_one : real;
  probability_of : Z → real;
  elements_of : Z → Z → Z;
  hashes_of : real → Z;
  bits_of : Z → Z → Z
}.

Definition CHAR_BIT : Z := 8.
Definition UINT32_MAX : Z := 2 ^ 32 - 1.

(** How a call that may throw ends. *)
Inductive outcome := Returned | Threw_runtime_error | Threw_bad_alloc | Aborted.

Section BloomFilter.
Context {L : Libm} (calloc_succeeds : Z → bool).

Record BloomFilter := mkBloom {
  m_element_count : Z;
  m_false_positive_prob : real;
  m_num_hash_functions : Z;
  m_bitmap : option bytes;       (* [None] is NULL *)
  m_num_bits : Z;
  m_divisor : UInt32Divisor;
  m_own_bitmap : bool
}.

(** It leaves the divisor. *)
Definition InitialClear (f : BloomFilter) : BloomFilter := mkBloom 0 probability_one 0 None 0 (m_divisor f) false.
Definition new_BloomFilter : BloomFilter := mkBloom 0 probability_one 0 None 0 new_UInt32Divisor false.

(** Freeing its own bitmap leaves nothing to see. *)
Definition Destroy (f : BloomFilter) : BloomFilter := InitialClear f.

(** [false] is the exception. *)
Definition CheckBitmapSize (byte_size : Z) : bool := u64 (byte_size * CHAR_BIT) <? UINT32_MAX.

Definition UncheckedInitialize_bitmap (bitmap : bytes) (bitmap_byte_size num_hashes : Z) (f : BloomFilter) :
    option (outcome * BloomFilter) :=
  let num_bits := u64 (bitmap_byte_size * CHAR_BIT) in
  '(ok, divisor) ← SetValue (u32 num_bits) (m_divisor f);
  Some (if (ok : bool)
        then (Returned, mkBloom (elements_of num_bits num_hashes) (probability_of num_hashes) num_hashes
                (Some bitmap) num_bits divisor (m_own_bitmap f))
        else (Aborted, mkBloom (m_element_count f) (m_false_positive_prob f) num_hashes (Some bitmap) num_bits divisor (m_own_bitmap f))).

Definition own (r : outcome * BloomFilter) (copy : bool) : outcome * BloomFilter :=
  match r.1 with
  | Returned =>
      let f := r.2 in
      (Returned, mkBloom (m_element_count f) (m_false_positive_prob f) (m_num_hash_functions f) (m_bitmap f) (m_num_bits f) (m_divisor f) copy)
  | _ => r
  end.

Definition UncheckedInitialize (bitmap_byte_size num_hashes : Z) (f : BloomFilter) : option (outcome * BloomFilter) :=
  if calloc_succeeds bitmap_byte_size then
    r ← UncheckedInitialize_bitmap (replicate (Z.to_nat bitmap_byte_size) 0) bitmap_byte_size num_hashes f;
    Some (own r true)
  else Some (Threw_bad_alloc, f).

Definition Initialize (bitmap_byte_size num_hashes : Z) (f : BloomFilter) : option (outcome * BloomFilter) :=
  let f := Destroy f in
  if CheckBitmapSize bitmap_byte_size then UncheckedInitialize bitmap_byte_size num_hashes f
  else Some (Threw_runtime_error, f).

(** The number of hashes is an [int] on the way; [bitmap] has the size given. *)
Definition Initialize_bitmap (bitmap : bytes) (num_hashes : Z) (copy : bool) (f : BloomFilter) : option (outcome * BloomFilter) :=
  let bitmap_byte_size := Z.of_nat (length bitmap) in
  let f := Destroy f in
  if CheckBitmapSize bitmap_byte_size then
    if (copy && negb (calloc_succeeds bitmap_byte_size))%bool then Some (Threw_bad_alloc, f)
    else
      r ← UncheckedInitialize_bitmap bitmap bitmap_byte_size (u64 (s32 num_hashes)) f;
      Some (own r copy)
  else Some (Threw_runtime_error, f).

(** For a count of elements and a probability, rounded up to bytes. *)
Definition Initialize_for (element_count : Z) (false_positive_prob : real) (f : BloomFilter) : option (outcome * BloomFilter) :=
  let num_hash_functions := hashes_of false_positive_prob in
  let num_bits := bits_of element_count num_hash_functions in
  let num_bytes := u64 (num_bits + CHAR_BIT - 1) / CHAR_BIT in
  let num_bits := u64 (num_bytes * CHAR_BIT) in
  if num_bits =? 0 then Some (Threw_runtime_error, f) else Initialize num_bytes num_hash_functions f.

(** The constructors. *)
Definition BloomFilter_of (bitmap_byte_size num_hashes : Z) : option (outcome * BloomFilter) :=
  Initialize bitmap_byte_size num_hashes new_BloomFilter.
Definition BloomFilter_for (element_count : Z) (false_positive_prob : real) : option (outcome * BloomFilter) :=
  Initialize_for element_count false_positive_prob new_BloomFilter.
Definition BloomFilter_bitmap (bitmap : bytes) (num_hashes : Z) (copy : bool) : option (outcome * BloomFilter) :=
  Initialize_bitmap bitmap num_hashes copy new_BloomFilter.

Definition IsValid (f : BloomFilter) : bool := bool_decide (is_Some (m_bitmap f)).
Definition MemorySize (f : BloomFilter) : option Z :=
  if IsValid f then Some (u64 (m_num_bits f + CHAR_BIT - 1) / CHAR_BIT) else None.
Definition TotalBits (f : BloomFilter) : option Z := if IsValid f then Some (m_num_bits f) else None.
Definition HashNumber (f : BloomFilter) : option Z := if IsValid f then Some (u32 (m_num_hash_functions f)) else None.
Definition Capacity (f : BloomFilter) : option Z := if IsValid f then Some (m_element_count f) else None.
Definition IsOwnBitmap (f : BloomFilter) : bool := m_own_bitmap f.
Definition GetBitmap (f : BloomFilter) : option bytes := m_bitmap f.

(** ** Bits *)

Definition words_of (w : words4) : list Z := let '(w0, w1, w2, w3) := w in [w0; w1; w2; w3].
Definition digest_bytes (digest : list Z) : bytes := concat (store32 <$> digest).

(** The head of the loops: every fourth round hashes the key, then the digest
    itself.  The length is converted to [int]. *)
Definition next_digest (key : bytes) (i : nat) (digest : list Z) : option (list Z) :=
  if (i mod 4 =? 0)%nat then
    if negb (i =? 0)%nat then Some (words_of (MurmurHash3_x86_128 (digest_bytes digest) (u32 (Z.of_nat i))))
    else
      let len := s32 (Z.of_nat (length key)) in
      if len <? 0 then None else Some (words_of (MurmurHash3_x86_128 (take (Z.to_nat len) key) 0))
  else Some digest.

(** [m_divisor.Modulu(digest[i % 4])] with the assertion. *)
Definition bit_index_of (f : BloomFilter) (i : nat) (digest : list Z) : option Z :=
  let d := nth (i mod 4) digest 0 in
  bit_index ← Modulu d (m_divisor f);
  if bit_index =? d mod m_num_bits f then Some bit_index else None.

(** The byte with bit [bit_index], and the mask of the bit. *)
Definition byte_of (bitmap : bytes) (bit_index : Z) : option Z := bitmap !! Z.to_nat (bit_index / CHAR_BIT).
Definition mask_of (bit_index : Z) : Z := u8 (Z.shiftl 1 (bit_index mod CHAR_BIT)).
Definition set_bit (bitmap : bytes) (bit_index : Z) : option bytes :=
  byte ← byte_of bitmap bit_index; Some (<[Z.to_nat (bit_index / CHAR_BIT) := Z.lor byte (mask_of bit_index)]> bitmap).

Fixpoint insert_loop (f : BloomFilter) (key : bytes) (n i : nat) (digest : list Z) (bitmap : bytes) : option bytes :=
  match n with
  | O => Some bitmap
  | S n =>
      digest ← next_digest key i digest;
      bit_index ← bit_index_of f i digest;
      bitmap ← set_bit bitmap bit_index;
      insert_loop f key n (S i) digest bitmap
  end.

(** The bytes at the pointer, none at NULL, and after they were written. *)
Definition memory (f : BloomFilter) : bytes := default [] (m_bitmap f).
Definition set_bitmap (f : BloomFilter) (bitmap : bytes) : BloomFilter :=
  mkBloom (m_element_count f) (m_false_positive_prob f) (m_num_hash_functions f) ((λ _, bitmap) <$> m_bitmap f) (m_num_bits f) (m_divisor f) (m_own_bitmap f).

(** What the digest holds before the first round is not read. *)
Definition Insert (key : bytes) (f : BloomFilter) : option BloomFilter :=
  bitmap ← insert_loop f key (Z.to_nat (m_num_hash_functions f)) 0 [] (memory f);
  Some (set_bitmap f bitmap).

(** The instruction [bts] with a bit number in a register: the number is
    signed, and the 32-bit word of the bit is read and written.  Memory
    outside the bitmap is not the filter's. *)
Definition x86_test_and_set_bit (bitmap : bytes) (nr : Z) : option (bool * bytes) :=
  let nr := s32 nr in
  let word := Z.shiftr nr 5 in
  if ((0 <=? word) && (4 * word + 4 <=? Z.of_nat (length bitmap)))%bool then
    byte ← byte_of bitmap nr;
    bitmap ← set_bit bitmap nr;
    Some (Z.testbit byte (nr mod CHAR_BIT), bitmap)
  else None.

(** The other targets. *)
Definition test_and_set_bit (bitmap : bytes) (bit_index : Z) : option (bool * bytes) :=
  byte ← byte_of bitmap bit_index;
  bitmap ← set_bit bitmap bit_index;
  Some (negb (Z.land byte (mask_of bit_index) =? 0), bitmap).

Fixpoint unique_loop (test_and_set : bytes → Z → option (bool * bytes)) (f : BloomFilter) (key : bytes) (n i : nat)
    (digest : list Z) (bitmap : bytes) (exist_count : Z) : option (Z * bytes) :=
  match n with
  | O => Some (exist_count, bitmap)
  | S n =>
      digest ← next_digest key i digest;
      bit_index ← bit_index_of f i digest;
      '(old, bitmap) ← test_and_set bitmap bit_index;
      unique_loop test_and_set f key n (S i) digest bitmap (u32 (exist_count + Z.b2z old))
  end.

Definition InsertUnique_by (test_and_set : bytes → Z → option (bool * bytes)) (key : bytes) (f : BloomFilter) :
    option (bool * BloomFilter) :=
  '(exist_count, bitmap) ← unique_loop test_and_set f key (Z.to_nat (m_num_hash_functions f)) 0 [] (memory f) 0;
  Some (exist_count <? m_num_hash_functions f, set_bitmap f bitmap).
Definition InsertUnique : bytes → BloomFilter → option (bool * BloomFilter) := InsertUnique_by x86_test_and_set_bit.
Definition InsertUnique_other : bytes → BloomFilter → option (bool * BloomFilter) := InsertUnique_by test_and_set_bit.

Fixpoint contain_loop (f : BloomFilter) (key : bytes) (n i : nat) (digest : list Z) (bitmap : bytes) : option bool :=
  match n with
  | O => Some true
  | S n =>
      digest ← next_digest key i digest;
      bit_index ← bit_index_of f i digest;
      byte ← byte_of bitmap bit_index;
      if Z.land byte (mask_of bit_index) =? 0 then Some false else contain_loop f key n (S i) digest bitmap
  end.

Definition MayContain (key : bytes) (f : BloomFilter) : option bool :=
  contain_loop f key (Z.to_nat (m_num_hash_functions f)) 0 [] (memory f).

(** [memset(m_bitmap, 0, MemorySize())] *)
Definition Clear (f : BloomFilter) : option BloomFilter :=
  size ← MemorySize f;
  Some (set_bitmap f (memset0 (memory f) 0 (Z.to_nat size))).
End BloomFilter.

(** ** Filters with a bitmap for each hash *)

Record PartialBloomFilter := mkPartial {
  p_num_hash_functions : Z;
  p_num_bits : Z;
  p_bitmaps : list bytes
}.

(** What the logarithms give, the number of hashes and of bits, when it does
    not throw: each bitmap gets its bytes, all zero. *)
Definition Partial_Initialize (calloc_succeeds : Z → bool) (num_hash_functions total_bits single_bits : Z) :
    outcome * PartialBloomFilter :=
  let empty := mkPartial num_hash_functions 0 [] in
  if total_bits =? 0 then (Threw_runtime_error, empty)
  else if UINT32_MAX <=? single_bits then (Threw_runtime_error, empty)
  else
    let num_bytes := (single_bits + CHAR_BIT - 1) / CHAR_BIT in
    if ((0 <? num_hash_functions) && negb (calloc_succeeds num_bytes))%bool
    then (Threw_bad_alloc, mkPartial num_hash_functions single_bits [])
    else (Returned, mkPartial num_hash_functions single_bits (replicate (Z.to_nat num_hash_functions) (replicate (Z.to_nat num_bytes) 0))).

(** The loops go over the bitmaps with their hash, each the seed of the next.
    A modulo by 0 is [None]. *)
Definition partial_index (num_bits hash : Z) : option Z := if num_bits =? 0 then None else Some (hash mod num_bits).

Fixpoint partial_insert (num_bits : Z) (key : bytes) (hash : Z) (bitmaps : list bytes) : option (list bytes) :=
  match bitmaps with
  | [] => Some []
  | bitmap :: bitmaps =>
      let hash := MurmurHash2A key hash in
      bit_index ← partial_index num_bits hash;
      bitmap ← set_bit bitmap bit_index;
      bitmaps ← partial_insert num_bits key hash bitmaps;
      Some (bitmap :: bitmaps)
  end.
Definition Partial_Insert (key : bytes) (f : PartialBloomFilter) : option PartialBloomFilter :=
  bitmaps ← partial_insert (p_num_bits f) key 0 (p_bitmaps f);
  Some (mkPartial (p_num_hash_functions f) (p_num_bits f) bitmaps).

Fixpoint partial_contain (num_bits : Z) (key : bytes) (hash : Z) (bitmaps : list bytes) : option bool :=
  match bitmaps with
  | [] => Some true
  | bitmap :: bitmaps =>
      let hash := MurmurHash2A key hash in
      bit_index ← partial_index num_bits hash;
      byte ← byte_of bitmap bit_index;
      if Z.land byte (mask_of bit_index) =? 0 then Some false else partial_contain num_bits key hash bitmaps
  end.
Definition Partial_MayContain (key : bytes) (f : PartialBloomFilter) : option bool :=
  partial_contain (p_num_bits f) key 0 (p_bitmaps f).

Definition Partial_MemorySize (f : PartialBloomFilter) : Z :=
  u64 (p_num_hash_functions f * u64 (p_num_bits f + CHAR_BIT - 1)) / CHAR_BIT.

(** The product is rounded up, not the size of a bitmap: seven bitmaps of 12
    bits have two bytes each. *)
Example partial_memory_size : Partial_MemorySize (mkPartial 7 12 (replicate 7 [0; 0])) = 16.
Proof. by vm_compute. Qed.

