(* ===== verification/Checksum.v ===== *)
(** * Checksums and small hashes

    Model of hash/crc32.cpp, hash/jenkins.cpp, hash/super_fast.cpp and
    hash/fingerprint32.cpp.  A [char] of the target is signed.

    The theorems are about the CRC: the loop over the table is the division
    bit by bit, data may come in pieces, and the checksum tells two messages
    apart that differ within 32 bits. *)

From S2P Require Import Prelude Coding BlockHash Hex.

(** ** CRC-32 *)

Definition kCrc32Polynomial : Z := 0xEDB88320.

Definition crc_step (c : Z) : Z :=
  if negb (Z.land c 1 =? 0) then Z.lxor kCrc32Polynomial (Z.shiftr c 1) else Z.shiftr c 1.

(** The inner loop of [InitCrc32Table]. *)
Fixpoint crc_steps (j : nat) (c : Z) : Z := match j with O => c | S j => crc_steps j (crc_step c) end.

Definition InitCrc32Table : list Z := (λ i, crc_steps 8 i) <$> seqZ 0 256.
Definition Crc32Table : list Z := InitCrc32Table.

(** The member [result_]. *)
Record CRC32 := mkCRC32 { result_ : Z }.
Definition Init (o : CRC32) : CRC32 := mkCRC32 0.
Definition new_CRC32 (memory : Z) : CRC32 := Init (mkCRC32 memory).

Fixpoint update_loop (table : list Z) (c : Z) (u : bytes) : Z :=
  match u with
  | [] => c
  | b :: u => update_loop table (Z.lxor (nth (Z.to_nat (Z.land (Z.lxor c b) 0xFF)) table 0) (Z.shiftr c 8)) u
  end.

Definition Update (sp : bytes) (o : CRC32) : CRC32 :=
  let c := Z.lxor (result_ o) 0xFFFFFFFF in
  mkCRC32 (Z.lxor (update_loop Crc32Table c sp) 0xFFFFFFFF).

Definition Final (o : CRC32) : Z := result_ o.
Definition Final_to (o : CRC32) : bytes := store32 (result_ o).
Definition HexFinal (o : CRC32) : bytes := EncodeAsString (Final_to o) false.
Definition Digest (sp : bytes) : Z := Final (Update sp (new_CRC32 0)).
Definition HexDigest (sp : bytes) : bytes := HexFinal (Update sp (new_CRC32 0)).

Example crc_tests : Digest [] = 0 ∧ Digest (str "abc") = 0x352441C2 ∧
  Digest (str "abcdbcdecdefdefgefghfghighijhijkijkljklmklmnlmnomnopnopq") = 0x171A3F5F.
Proof. by vm_compute. Qed.

(** The digits are those of the bytes in memory, not of the number. *)
Example crc_hex_order : HexDigest (str "abc") = str "c2412435".
Proof. by vm_compute. Qed.

(** ** Jenkins' one-at-a-time hash *)

Fixpoint jenkins_loop (key : bytes) (hash : Z) : Z :=
  match key with
  | [] => hash
  | c :: key =>
      let hash := u32 (hash + s8 c) in
      let hash := u32 (hash + u32 (Z.shiftl hash 10)) in
      let hash := Z.lxor hash (Z.shiftr hash 6) in
      jenkins_loop key hash
  end.

(** [i] is a [uint32_t]: the loop ends for keys below 2^32 bytes. *)
Definition JenkinsOneAtATimeHash (key : bytes) : Z :=
  let hash := jenkins_loop key 0 in
  let hash := u32 (hash + u32 (Z.shiftl hash 3)) in
  let hash := Z.lxor hash (Z.shiftr hash 11) in
  u32 (hash + u32 (Z.shiftl hash 15)).

(** ** SuperFastHash *)

Definition get16bits (d : bytes) : Z := Z.shiftl (nth 1 d 0) 8 + nth 0 d 0.

Fixpoint super_loop (len : nat) (data : bytes) (hash : Z) : Z * bytes :=
  match len with
  | O => (hash, data)
  | S len =>
      let hash := u32 (hash + get16bits data) in
      let tmp := Z.lxor (Z.shiftl (get16bits (drop 2 data)) 11) hash in
      let hash := Z.lxor (u32 (Z.shiftl hash 16)) tmp in
      super_loop len (drop 4 data) (u32 (hash + Z.shiftr hash 11))
  end.

(** The length is an [int]; what is not positive hashes to 0. *)
Definition SuperFastHash (key : bytes) : Z :=
  let len := length key in
  if (len =? 0)%nat then 0
  else
    let '(hash, data) := super_loop (len / 4) key (u32 (Z.of_nat len)) in
    let hash :=
      match length data with
      | 3%nat =>
          let hash := u32 (hash + get16bits data) in
          let hash := Z.lxor hash (u32 (Z.shiftl hash 16)) in
          let hash := Z.lxor hash (u32 (Z.shiftl (s8 (nth 2 data 0)) 18)) in
          u32 (hash + Z.shiftr hash 11)
      | 2%nat =>
          let hash := u32 (hash + get16bits data) in
          let hash := Z.lxor hash (u32 (Z.shiftl hash 11)) in
          u32 (hash + Z.shiftr hash 17)
      | 1%nat =>
          let hash := u32 (hash + s8 (nth 0 data 0)) in
          let hash := Z.lxor hash (u32 (Z.shiftl hash 10)) in
          u32 (hash + Z.shiftr hash 1)
      | _ => hash
      end in
    let hash := Z.lxor hash (u32 (Z.shiftl hash 3)) in
    let hash := u32 (hash + Z.shiftr hash 5) in
    let hash := Z.lxor hash (u32 (Z.shiftl hash 4)) in
    let hash := u32 (hash + Z.shiftr hash 17) in
    let hash := Z.lxor hash (u32 (Z.shiftl hash 25)) in
    u32 (hash + Z.shiftr hash 6).

(** ** Fingerprint32 *)

Definition kFingerPrint32Seed : Z := 0xfd12deff.

(** [x -= y; x -= z; x ^= w] *)
Definition mix_line (x y z w : Z) : Z := Z.lxor (u32 (u32 (x - y) - z)) w.

Definition mix (a b c : Z) : Z * Z * Z :=
  let a := mix_line a b c (Z.shiftr c 13) in
  let b := mix_line b c a (u32 (Z.shiftl a 8)) in
  let c := mix_line c a b (Z.shiftr b 13) in
  let a := mix_line a b c (Z.shiftr c 12) in
  let b := mix_line b c a (u32 (Z.shiftl a 16)) in
  let c := mix_line c a b (Z.shiftr b 5) in
  let a := mix_line a b c (Z.shiftr c 3) in
  let b := mix_line b c a (u32 (Z.shiftl a 10)) in
  let c := mix_line c a b (Z.shiftr b 15) in
  (a, b, c).

(** [str[i]] and [((uint32_t) str[i] << n)] *)
Definition ch (s : bytes) (i : nat) (n : Z) : Z := u32 (Z.shiftl (u32 (s8 (nth i s 0))) n).

Fixpoint fingerprint_loop (fuel : nat) (s : bytes) (a b c : Z) : Z * Z * Z * bytes :=
  match fuel with
  | O => (a, b, c, s)
  | S fuel =>
      if (12 <=? length s)%nat then
        let a := u32 (a + u32 (ch s 0 0 + ch s 1 8 + ch s 2 16 + ch s 3 24)) in
        let b := u32 (b + u32 (ch s 4 0 + ch s 5 8 + ch s 6 16 + ch s 7 24)) in
        let c := u32 (c + u32 (ch s 8 0 + ch s 9 8 + ch s 10 16 + ch s 11 24)) in
        let '(a, b, c) := mix a b c in
        fingerprint_loop fuel (drop 12 s) a b c
      else (a, b, c, s)
  end.

(** A case of the [switch], reached from the cases above it. *)
Definition add_case (i : nat) (s : bytes) (n x : Z) : Z := if (i <? length s)%nat then u32 (x + ch s i n) else x.

Definition Fingerprint32WithSeed (s : bytes) (seed : Z) : Z :=
  let a := 0x9e3779b9 in
  let b := a in
  let c := seed in
  let '(a, b, c, rest) := fingerprint_loop (length s) s a b c in
  let c := u32 (c + u32 (Z.of_nat (length s))) in
  let c := add_case 8 rest 8 (add_case 9 rest 16 (add_case 10 rest 24 c)) in
  let b := add_case 4 rest 0 (add_case 5 rest 8 (add_case 6 rest 16 (add_case 7 rest 24 b))) in
  let a := add_case 0 rest 0 (add_case 1 rest 8 (add_case 2 rest 16 (add_case 3 rest 24 a))) in
  let '(_, _, c) := mix a b c in c.

Definition Fingerprint32 (key : bytes) : Z := Fingerprint32WithSeed key kFingerPrint32Seed.

(** ** The CRC bit by bit *)

Definition crc_word (c : Z) : Prop := 0 <= c < 2 ^ 32.

(** The reference: a message is its bits, the low bit of a byte first, and each
    is one step of the division. *)
Definition crc_bit (c : Z) (b : bool) : Z := crc_step (Z.lxor c (Z.b2z b)).
Fixpoint bits (n : nat) (v : Z) : list bool := match n with O => [] | S n => Z.odd v :: bits n (v / 2) end.
Definition message (s : bytes) : list bool := concat (bits 8 <$> s).

Lemma crc_step_eq c : crc_step c = Z.lxor (if Z.odd c then kCrc32Polynomial else 0) (Z.shiftr c 1).
Proof.
  unfold crc_step. change 1 with (Z.ones 1) at 1. rewrite Z.land_ones by lia. change (2 ^ 1) with 2. rewrite Zmod_odd.
  destruct (Z.odd c); [done|]. by rewrite Z.lxor_0_l.
Qed.

Lemma crc_step_lxor x y : crc_step (Z.lxor x y) = Z.lxor (crc_step x) (crc_step y).
Proof.
  rewrite !crc_step_eq, Z.shiftr_lxor. assert (Ho : Z.odd (Z.lxor x y) = xorb (Z.odd x) (Z.odd y)).
  { rewrite <- !Z.bit0_odd. apply Z.lxor_spec. }
  rewrite Ho. apply Z.bits_inj'. intros n Hn. rewrite !Z.lxor_spec.
  destruct (Z.odd x), (Z.odd y); cbn [xorb]; rewrite ?Z.bits_0; by repeat match goal with |- context [Z.testbit ?a n] => destruct (Z.testbit a n) end.
Qed.

Lemma crc_steps_lxor n x y : crc_steps n (Z.lxor x y) = Z.lxor (crc_steps n x) (crc_steps n y).
Proof. revert x y. induction n as [|n IH]; intros x y; [done|]. cbn [crc_steps]. by rewrite crc_step_lxor, IH. Qed.

Lemma crc_step_double x : crc_step (2 * x) = x.
Proof. rewrite crc_step_eq, Z.odd_mul. cbn [Z.odd andb]. rewrite Z.lxor_0_l, Z.shiftr_div_pow2, Z.mul_comm by lia. by apply Z.div_mul. Qed.

Lemma crc_steps_shiftl n x : crc_steps n (Z.shiftl x (Z.of_nat n)) = x.
Proof.
  revert x. induction n as [|n IH]; intros x; [apply Z.shiftl_0_r|]. cbn [crc_steps].
  rewrite Z.shiftl_mul_pow2, Nat2Z.inj_succ, Z.pow_succ_r by lia. replace (x * (2 * 2 ^ Z.of_nat n)) with (2 * (x * 2 ^ Z.of_nat n)) by lia.
  by rewrite crc_step_double, <- Z.shiftl_mul_pow2, IH by lia.
Qed.

Lemma crc_step_word c : crc_word c → crc_word (crc_step c).
Proof.
  unfold crc_word. intros Hc. rewrite crc_step_eq. assert (Hs : 0 <= Z.shiftr c 1 < 2 ^ 31).
  { rewrite Z.shiftr_div_pow2 by lia. split; [apply Z.div_pos; lia|apply Z.div_lt_upper_bound; lia]. }
  split; [apply Z.lxor_nonneg; destruct (Z.odd c); unfold kCrc32Polynomial; lia|].
  apply bound_of_bits; [lia|apply Z.lxor_nonneg; destruct (Z.odd c); unfold kCrc32Polynomial; lia|].
  intros n Hn. rewrite Z.lxor_spec, (testbit_high (Z.shiftr c 1) 31) by lia.
  rewrite (testbit_high _ 32); [done| |done]. destruct (Z.odd c); unfold kCrc32Polynomial; lia.
Qed.

Lemma crc_steps_word n c : crc_word c → crc_word (crc_steps n c).
Proof. revert c. induction n as [|n IH]; intros c Hc; [done|]. cbn [crc_steps]. by apply IH, crc_step_word. Qed.

(** Steps can be undone: the highest bit tells whether the lowest was set. *)
Lemma crc_step_inj x y : crc_word x → crc_word y → crc_step x = crc_step y → x = y.
Proof.
  unfold crc_word. intros Hx Hy E.
  assert (Htop : ∀ c, 0 <= c < 2 ^ 32 → Z.testbit (crc_step c) 31 = Z.odd c).
  { intros c Hc. rewrite crc_step_eq, Z.lxor_spec, Z.shiftr_spec, (testbit_high c 32) by lia. by destruct (Z.odd c). }
  assert (Ho : Z.odd x = Z.odd y) by by rewrite <- (Htop x Hx), <- (Htop y Hy), E.
  rewrite !crc_step_eq, Ho in E. apply (f_equal (Z.lxor (if Z.odd y then kCrc32Polynomial else 0))) in E.
  rewrite <- !Z.lxor_assoc, Z.lxor_nilpotent, !Z.lxor_0_l, !Z.shiftr_div_pow2 in E by lia. change (2 ^ 1) with 2 in E.
  rewrite (Z.div_mod x 2), (Z.div_mod y 2), E, !Zmod_odd, Ho by lia. done.
Qed.

Lemma crc_steps_inj n x y : crc_word x → crc_word y → crc_steps n x = crc_steps n y → x = y.
Proof.
  revert x y. induction n as [|n IH]; intros x y Hx Hy E; [done|]. cbn [crc_steps] in E.
  apply crc_step_inj; [done..|]. by apply IH; [apply crc_step_word..|].
Qed.

Lemma lxor_word x y : crc_word x → crc_word y → crc_word (Z.lxor x y).
Proof.
  unfold crc_word. intros Hx Hy. assert (H0 : 0 <= Z.lxor x y) by (apply Z.lxor_nonneg; lia). split; [done|].
  apply bound_of_bits; [lia|done|]. intros n Hn. by rewrite Z.lxor_spec, !(testbit_high _ 32).
Qed.

(** Bits fed one by one, or joined to the state at once. *)
Lemma feed_bits n v c : 0 <= v < 2 ^ Z.of_nat n → foldl crc_bit c (bits n v) = crc_steps n (Z.lxor c v).
Proof.
  revert v c. induction n as [|n IH]; intros v c Hv; [assert (v = 0) as -> by (cbn in Hv; lia); by rewrite Z.lxor_0_r|].
  rewrite Nat2Z.inj_succ, Z.pow_succ_r in Hv by lia. cbn [bits foldl crc_steps].
  rewrite IH by (split; [apply Z.div_pos; lia|apply Z.div_lt_upper_bound; lia]). f_equal. unfold crc_bit.
  rewrite <- (crc_step_double (v / 2)), <- crc_step_lxor. f_equal. rewrite Z.lxor_assoc. f_equal.
  replace (2 * (v / 2)) with (Z.shiftl (v / 2) 1) by (rewrite Z.shiftl_mul_pow2; lia).
  rewrite lxor_shiftl_add by (destruct (Z.odd v); cbn [Z.b2z]; lia). pose proof (Z.div_mod v 2) as E. rewrite Zmod_odd in E. destruct (Z.odd v); cbn [Z.b2z]; lia.
Qed.

(** The number a list of bits is. *)
Fixpoint bits_value (w : list bool) : Z := match w with [] => 0 | b :: w => Z.b2z b + 2 * bits_value w end.

Lemma bits_value_ok w : 0 <= bits_value w < 2 ^ Z.of_nat (length w) ∧ bits (length w) (bits_value w) = w.
Proof.
  induction w as [|b w [IH1 IH2]]; [done|]. cbn [bits_value length bits]. rewrite Nat2Z.inj_succ, Z.pow_succ_r by lia.
  split; [destruct b; cbn [Z.b2z]; lia|]. replace ((Z.b2z b + 2 * bits_value w) / 2) with (bits_value w) by (apply (Z.div_unique_pos _ _ _ (Z.b2z b)); destruct b; cbn [Z.b2z]; lia).
  rewrite IH2. f_equal. rewrite Z.odd_add_mul_2. by destruct b.
Qed.

Lemma feed_value w c : foldl crc_bit c w = crc_steps (length w) (Z.lxor c (bits_value w)).
Proof. destruct (bits_value_ok w) as [H1 H2]. rewrite <- H2 at 1. by apply feed_bits. Qed.

Lemma feed_word w c : crc_word c → crc_word (foldl crc_bit c w).
Proof.
  revert c. induction w as [|b w IH]; intros c Hc; [done|]. cbn [foldl]. apply IH, crc_step_word, lxor_word; [done|].
  unfold crc_word. destruct b; cbn [Z.b2z]; lia.
Qed.

(** What comes after keeps two states apart. *)
Lemma feed_inj w c c' : crc_word c → crc_word c' → foldl crc_bit c w = foldl crc_bit c' w → c = c'.
Proof.
  revert c c'. induction w as [|b w IH]; intros c c' Hc Hc' E; [done|]. cbn [foldl] in E.
  assert (Hb : crc_word (Z.b2z b)) by (unfold crc_word; destruct b; cbn [Z.b2z]; lia).
  apply IH in E; [|by apply crc_step_word, lxor_word..]. apply crc_step_inj in E; [|by apply lxor_word..].
  apply (f_equal (λ x, Z.lxor x (Z.b2z b))) in E. by rewrite !Z.lxor_assoc, Z.lxor_nilpotent, !Z.lxor_0_r in E.
Qed.

(** The table does eight steps. *)
Lemma table_byte c b : crc_word c → is_byte b →
  Z.lxor (nth (Z.to_nat (Z.land (Z.lxor c b) 0xFF)) Crc32Table 0) (Z.shiftr c 8) = foldl crc_bit c (bits 8 b).
Proof.
  unfold crc_word, is_byte. intros Hc Hb. rewrite (feed_bits 8) by (cbn; lia). set (x := Z.lxor c b).
  assert (Hx : Z.shiftr x 8 = Z.shiftr c 8).
  { unfold x. rewrite Z.shiftr_lxor, (Z.shiftr_div_pow2 b), (Z.div_small b) by lia. apply Z.lxor_0_r. }
  change 0xFF with (2 ^ 8 - 1). rewrite land_ones_mod by lia. pose proof (Z.mod_pos_bound x (2 ^ 8) ltac:(lia)) as Hm.
  assert (Ht : nth (Z.to_nat (x mod 2 ^ 8)) Crc32Table 0 = crc_steps 8 (x mod 2 ^ 8)).
  { unfold Crc32Table, InitCrc32Table. rewrite (nth_lookup_Some _ _ _ (crc_steps 8 (x mod 2 ^ 8))); [done|].
    rewrite list_lookup_fmap, lookup_seqZ_lt by lia. unfold fmap, option_fmap, option_map. do 2 f_equal. lia. }
  rewrite Ht, <- Hx, <- (crc_steps_shiftl 8 (Z.shiftr x 8)), <- crc_steps_lxor. f_equal. change (Z.of_nat 8) with 8.
  rewrite lxor_shiftl_add by lia. rewrite Z.shiftr_div_pow2 by lia. pose proof (Z.div_mod x (2 ^ 8)). lia.
Qed.

Lemma crc_loop_ok c s : crc_word c → bytes_ok s → update_loop Crc32Table c s = foldl crc_bit c (message s).
Proof.
  intros Hc Hs. revert c Hc. induction Hs as [|b s Hb _ IH]; intros c Hc; [done|]. cbn [update_loop].
  rewrite table_byte by done. unfold message. cbn [fmap list_fmap concat]. rewrite foldl_app. by apply IH, feed_word.
Qed.

Lemma Digest_eq s : bytes_ok s → Digest s = Z.lxor (foldl crc_bit 0xFFFFFFFF (message s)) 0xFFFFFFFF.
Proof. intros Hs. unfold Digest, Final, Update, new_CRC32, Init. cbn [result_]. by rewrite crc_loop_ok. Qed.

Lemma update_loop_app t c a b : update_loop t c (a ++ b) = update_loop t (update_loop t c a) b.
Proof. revert c. induction a as [|x a IH]; intros c; [done|]. apply IH. Qed.

(** C39: the checksum is CRC-32.  The loop over the table is the division by
    the polynomial, one bit of the message after the other; data may come in
    pieces; and two messages of which only bits within a window of 32 differ
    have different checksums, wherever the window is. *)
Theorem crc32_checks s : bytes_ok s →
  Digest s = Z.lxor (foldl crc_bit 0xFFFFFFFF (message s)) 0xFFFFFFFF ∧
  (∀ a b o, s = a ++ b → Update b (Update a o) = Update s o) ∧
  ∀ s' pre w w' post, bytes_ok s' → message s = pre ++ w ++ post → message s' = pre ++ w' ++ post →
    length w' = length w → (length w <= 32)%nat → w ≠ w' → Digest s ≠ Digest s'.
Proof.
  intros Hs. split; [by apply Digest_eq|]. split.
  - intros a b o ->. unfold Update. cbn [result_]. rewrite update_loop_app. by rewrite Z.lxor_assoc, Z.lxor_nilpotent, Z.lxor_0_r.
  - intros s' pre w w' post Hs' E E' Hlen Hl Hne Heq. rewrite !Digest_eq in Heq by done. apply Hne.
    apply (f_equal (λ x, Z.lxor x 0xFFFFFFFF)) in Heq. rewrite !Z.lxor_assoc, Z.lxor_nilpotent, !Z.lxor_0_r, E, E', !foldl_app in Heq.
    assert (H0 : crc_word (foldl crc_bit 0xFFFFFFFF pre)) by (apply feed_word; unfold crc_word; lia).
    apply feed_inj in Heq; [|by apply feed_word..]. rewrite (feed_value w), (feed_value w'), Hlen in Heq.
    assert (Hw : ∀ v : list bool, length v = length w → crc_word (bits_value v)).
    { intros v Hv. destruct (bits_value_ok v) as [[? H] _]. split; [done|]. eapply Z.lt_le_trans; [exact H|]. apply Z.pow_le_mono_r; lia. }
    apply crc_steps_inj in Heq; [|apply lxor_word; [done|by apply Hw]..].
    apply (f_equal (Z.lxor (foldl crc_bit 0xFFFFFFFF pre))) in Heq. rewrite <- !Z.lxor_assoc, Z.lxor_nilpotent, !Z.lxor_0_l in Heq.
    destruct (bits_value_ok w) as [_ <-], (bits_value_ok w') as [_ <-]. by rewrite Hlen, Heq.
Qed.

Lemma crc32_checks_witness : Digest (str "toft") ≠ Digest (str "tofu") ∧ Digest (str "abc") = 0x352441C2.
Proof.
  split.
  - destruct (crc32_checks (str "toft")) as (_ & _ & H); [repeat constructor; vm_compute; done|].
    apply (H (str "tofu") (message (str "tof")) (message (str "t")) (message (str "u")) []);
      [repeat constructor; vm_compute; done|by vm_compute|by vm_compute|done|cbn; lia|by vm_compute].
  - destruct (crc32_checks (str "abc")) as (E & _); [repeat constructor; vm_compute; done|]. etransitivity; [exact E|]. by vm_compute.
Defined.
