(* ===== verification/BloomFacts.v ===== *)
(** * Bloom filters: what they answer

    The reference for a filter is the list of the keys inserted since it was
    cleared: a key may be contained when each of its bits is a bit of one of
    those keys. *)

From S2P Require Import Prelude Coding BlockHash Divisor Murmur Bloom.

(** ** Bits of a bitmap *)

Definition bit_set (bitmap : bytes) (i : Z) : bool := Z.testbit (default 0 (bitmap !! Z.to_nat (i / 8))) (i mod 8).
Definition in_bitmap (bitmap : bytes) (i : Z) : Prop := 0 <= i < 8 * Z.of_nat (length bitmap).

Lemma byte_of_ok bitmap i : bytes_ok bitmap → in_bitmap bitmap i →
  ∃ byte, byte_of bitmap i = Some byte ∧ is_byte byte ∧ Z.testbit byte (i mod 8) = bit_set bitmap i.
Proof.
  unfold in_bitmap. intros Hb Hi. pose proof (Z.div_mod i 8). pose proof (Z.mod_pos_bound i 8).
  destruct (lookup_lt_is_Some_2 bitmap (Z.to_nat (i / 8))) as [b Eb]; [lia|].
  exists b. unfold byte_of, bit_set, CHAR_BIT. rewrite Eb. split_and!; [done| |done]. by eapply Forall_lookup_1 in Hb.
Qed.

Lemma mask_testbit i j : 0 <= j < 8 → Z.testbit (mask_of i) j = (j =? i mod 8).
Proof.
  intros Hj. unfold mask_of, CHAR_BIT. pose proof (Z.mod_pos_bound i 8). rewrite testbit_u8, testbit_shiftl_1 by lia.
  destruct (Z.ltb_spec j 8); [|lia]. by rewrite Z.eqb_sym.
Qed.

Lemma mask_land byte i : (Z.land byte (mask_of i) =? 0) = negb (Z.testbit byte (i mod 8)).
Proof.
  pose proof (Z.mod_pos_bound i 8 ltac:(lia)) as Hm. destruct (Z.testbit byte (i mod 8)) eqn:E; cbn [negb].
  - apply Z.eqb_neq. intros H. apply (f_equal (λ x, Z.testbit x (i mod 8))) in H.
    by rewrite Z.land_spec, mask_testbit, E, Z.eqb_refl, Z.bits_0 in H.
  - apply Z.eqb_eq, Z.bits_inj'. intros n Hn. rewrite Z.land_spec, Z.bits_0.
    destruct (Z.lt_ge_cases n 8).
    + rewrite mask_testbit by lia. destruct (Z.eqb_spec n (i mod 8)) as [->|]; [by rewrite E|apply andb_false_r].
    + rewrite (testbit_high (mask_of i) 8); [apply andb_false_r|apply u8_byte|done].
Qed.

Lemma set_bit_ok bitmap i : bytes_ok bitmap → in_bitmap bitmap i →
  ∃ bitmap', set_bit bitmap i = Some bitmap' ∧ bytes_ok bitmap' ∧ length bitmap' = length bitmap ∧
    ∀ j, in_bitmap bitmap j → bit_set bitmap' j = (bit_set bitmap j || (j =? i))%bool.
Proof.
  intros Hb Hi. destruct (byte_of_ok _ _ Hb Hi) as (b & Eb & Hbb & Hbit). unfold set_bit. rewrite Eb. cbn [mbind option_bind].
  eexists. split; [done|]. split.
  { apply Forall_insert; [done|]. unfold is_byte in *. assert (H0 : 0 <= mask_of i) by apply u8_byte. split; [apply Z.lor_nonneg; lia|].
    apply (bound_of_bits _ 8); [lia|apply Z.lor_nonneg; lia|]. intros n Hn.
    rewrite Z.lor_spec, (testbit_high b 8), (testbit_high (mask_of i) 8); [done|apply u8_byte|done..]. }
  split; [by rewrite length_insert|]. intros j Hj. unfold bit_set, byte_of, in_bitmap, CHAR_BIT in *.
  pose proof (Z.div_mod i 8). pose proof (Z.mod_pos_bound i 8). pose proof (Z.div_mod j 8). pose proof (Z.mod_pos_bound j 8).
  destruct (decide (j / 8 = i / 8)) as [E|E].
  - rewrite E, Eb, list_lookup_insert_eq by lia. cbn [default from_option id]. rewrite Z.lor_spec, mask_testbit by lia. f_equal.
    destruct (Z.eqb_spec (j mod 8) (i mod 8)), (Z.eqb_spec j i); try done; exfalso; lia.
  - rewrite list_lookup_insert_ne by lia. destruct (Z.eqb_spec j i) as [->|]; [done|]. by rewrite orb_false_r.
Qed.

(** ** The bits of a key *)

Definition next_words (key : bytes) (i : nat) (digest : list Z) : list Z :=
  if (i mod 4 =? 0)%nat then
    words_of (if (i =? 0)%nat then MurmurHash3_x86_128 key 0 else MurmurHash3_x86_128 (digest_bytes digest) (u32 (Z.of_nat i)))
  else digest.

Fixpoint hash_words (key : bytes) (n i : nat) (digest : list Z) : list Z :=
  match n with
  | O => []
  | S n => let digest := next_words key i digest in nth (i mod 4) digest 0 :: hash_words key n (S i) digest
  end.

Definition indices (num_bits num_hashes : Z) (key : bytes) : list Z :=
  (λ w, w mod num_bits) <$> hash_words key (Z.to_nat num_hashes) 0 [].

Definition short (key : bytes) : Prop := Z.of_nat (length key) < 2 ^ 31.
Definition word32 (w : Z) : Prop := 0 <= w < 2 ^ 32.

Lemma next_digest_ok key i digest : short key → next_digest key i digest = Some (next_words key i digest).
Proof.
  unfold short, next_digest, next_words. intros Hk. destruct (i mod 4 =? 0)%nat; [|done]. destruct (i =? 0)%nat; [|done]. cbn [negb].
  rewrite s32_small by lia. destruct (Z.ltb_spec (Z.of_nat (length key)) 0); [lia|]. by rewrite Nat2Z.id, firstn_all.
Qed.

Lemma u32_word x : word32 (u32 x).
Proof. apply Z.mod_pos_bound. lia. Qed.

(** Every word of a hash comes out of a sum. *)
Lemma murmur_words key seed : Forall word32 (words_of (MurmurHash3_x86_128 key seed)).
Proof.
  unfold MurmurHash3_x86_128. repeat case_match; unfold spread4, words_of;
    (do 4 (apply Forall_cons; split; [apply u32_word|])); by apply Forall_nil.
Qed.

Lemma next_words_ok key i digest : Forall word32 digest → Forall word32 (next_words key i digest).
Proof. intros H. unfold next_words. repeat case_match; try done; apply murmur_words. Qed.

Lemma nth_word digest i : Forall word32 digest → word32 (nth i digest 0).
Proof. intros H. revert i. induction H as [|x l Hx _ IH]; intros [|i]; try done; cbn [nth]; [by unfold word32; lia..|apply IH]. Qed.

(** ** One call *)

Section Calls.
Context {L : Libm}.

(** A filter that is initialized: its sizes agree and its divisor divides. *)
Record sound (f : BloomFilter) (bitmap : bytes) : Prop := {
  sound_bitmap : m_bitmap f = Some bitmap;
  sound_bytes : bytes_ok bitmap;
  sound_bits : m_num_bits f = 8 * Z.of_nat (length bitmap);
  sound_range : 0 < m_num_bits f < 2 ^ 32;
  sound_hashes : 0 <= m_num_hash_functions f < 2 ^ 32;
  sound_divisor : ∀ n, word32 n → Modulu n (m_divisor f) = Some (n mod m_num_bits f)
}.

Lemma sound_set f bitmap bitmap' : sound f bitmap → bytes_ok bitmap' → length bitmap' = length bitmap →
  sound (set_bitmap f bitmap') bitmap'.
Proof.
  intros [H1 H2 H3 H4 H5 H6] Hb Hl. split; cbn [set_bitmap m_bitmap m_num_bits m_num_hash_functions m_divisor]; try done.
  - by rewrite H1.
  - by rewrite H3, Hl.
Qed.

Section Loops.
Context (f : BloomFilter) (bitmap0 : bytes) (Hf : sound f bitmap0) (key : bytes) (Hkey : short key).

Lemma bit_index_ok i digest : Forall word32 digest → bit_index_of f i digest = Some (nth (i mod 4) digest 0 mod m_num_bits f).
Proof.
  intros Hd. unfold bit_index_of. rewrite (sound_divisor _ _ Hf) by by apply nth_word. cbn [mbind option_bind]. by rewrite Z.eqb_refl.
Qed.

Lemma index_in_bitmap w bitmap : length bitmap = length bitmap0 → in_bitmap bitmap (w mod m_num_bits f).
Proof.
  intros Hl. unfold in_bitmap. rewrite Hl, <- (sound_bits _ _ Hf). apply Z.mod_pos_bound. apply (sound_range _ _ Hf).
Qed.

Definition index_list (n i : nat) (digest : list Z) : list Z := (λ w, w mod m_num_bits f) <$> hash_words key n i digest.

Lemma insert_loop_ok n i digest bitmap : Forall word32 digest → bytes_ok bitmap → length bitmap = length bitmap0 →
  ∃ bitmap', insert_loop f key n i digest bitmap = Some bitmap' ∧ bytes_ok bitmap' ∧ length bitmap' = length bitmap0 ∧
    ∀ j, in_bitmap bitmap j → bit_set bitmap' j = (bit_set bitmap j || bool_decide (j ∈ index_list n i digest))%bool.
Proof.
  revert i digest bitmap. induction n as [|n IH]; intros i digest bitmap Hd Hb Hl; cbn [insert_loop].
  { exists bitmap. split_and!; [done..|]. intros j _. rewrite bool_decide_eq_false_2 by apply not_elem_of_nil. by rewrite orb_false_r. }
  rewrite next_digest_ok by done. cbn [mbind option_bind]. pose proof (next_words_ok key i digest Hd) as Hd'. set (digest' := next_words key i digest) in *.
  rewrite bit_index_ok by done. cbn [mbind option_bind]. set (k := nth (i mod 4) digest' 0 mod m_num_bits f).
  destruct (set_bit_ok bitmap k) as (b1 & E1 & Hb1 & Hl1 & H1); [done|by apply index_in_bitmap|]. rewrite E1. cbn [mbind option_bind].
  destruct (IH (S i) digest' b1) as (b2 & E2 & Hb2 & Hl2 & H2); [done|done|by rewrite Hl1|]. exists b2. split_and!; [done..|].
  intros j Hj. rewrite H2, H1 by (unfold in_bitmap in *; by rewrite ?Hl1). rewrite <- orb_assoc. f_equal.
  unfold index_list. cbn [hash_words fmap list_fmap]. fold digest' k.
  apply eq_bool_prop_intro. rewrite orb_True, !bool_decide_spec, elem_of_cons. unfold index_list.
  rewrite Is_true_true, Z.eqb_eq. done.
Qed.

Lemma contain_loop_ok n i digest bitmap : Forall word32 digest → bytes_ok bitmap → length bitmap = length bitmap0 →
  contain_loop f key n i digest bitmap = Some (forallb (bit_set bitmap) (index_list n i digest)).
Proof.
  intros Hd Hb Hl. revert i digest Hd. induction n as [|n IH]; intros i digest Hd; cbn [contain_loop]; [done|].
  rewrite next_digest_ok by done. cbn [mbind option_bind]. pose proof (next_words_ok key i digest Hd) as Hd'.
  unfold index_list. cbn [hash_words fmap list_fmap forallb]. set (digest' := next_words key i digest) in *.
  rewrite bit_index_ok by done. cbn [mbind option_bind]. set (k := nth (i mod 4) digest' 0 mod m_num_bits f).
  destruct (byte_of_ok bitmap k) as (b & Eb & _ & Hbit); [done|by apply index_in_bitmap|]. rewrite Eb. cbn [mbind option_bind].
  rewrite mask_land, Hbit. destruct (bit_set bitmap k); [|done]. cbn [negb andb]. by apply IH.
Qed.

(** Either instruction that tests and sets a bit. *)
Definition tests_and_sets (test_and_set : bytes → Z → option (bool * bytes)) : Prop :=
  ∀ bitmap i, bytes_ok bitmap → length bitmap = length bitmap0 → in_bitmap bitmap i →
    ∃ bitmap', test_and_set bitmap i = Some (bit_set bitmap i, bitmap') ∧ set_bit bitmap i = Some bitmap'.

(** The count is full exactly when every bit was there. *)
Lemma unique_loop_ok tas n i digest bitmap e : tests_and_sets tas → Forall word32 digest → bytes_ok bitmap →
  length bitmap = length bitmap0 → 0 <= e → e + Z.of_nat n < 2 ^ 32 →
  ∃ e' bitmap', unique_loop tas f key n i digest bitmap e = Some (e', bitmap') ∧
    insert_loop f key n i digest bitmap = Some bitmap' ∧ e <= e' <= e + Z.of_nat n ∧
    (e' = e + Z.of_nat n ↔ forallb (bit_set bitmap) (index_list n i digest) = true).
Proof.
  intros Ht. revert i digest bitmap e. induction n as [|n IH]; intros i digest bitmap e Hd Hb Hl He Hen.
  { exists e, bitmap. split_and!; [done|done|lia|lia|]. cbn. split; [done|lia]. }
  cbn [unique_loop insert_loop]. rewrite next_digest_ok by done. cbn [mbind option_bind].
  pose proof (next_words_ok key i digest Hd) as Hd'. unfold index_list. cbn [hash_words fmap list_fmap forallb].
  set (digest' := next_words key i digest) in *. rewrite bit_index_ok by done. cbn [mbind option_bind].
  set (k := nth (i mod 4) digest' 0 mod m_num_bits f). assert (Hk : in_bitmap bitmap k) by by apply index_in_bitmap.
  destruct (Ht bitmap k Hb Hl Hk) as (b1 & -> & E1). cbn [mbind option_bind].
  destruct (set_bit_ok bitmap k Hb Hk) as (b1' & E1' & Hb1 & Hl1 & H1). rewrite E1 in E1'. injection E1' as <-.
  rewrite E1. cbn [mbind option_bind].
  assert (Hold : 0 <= Z.b2z (bit_set bitmap k) <= 1) by (destruct (bit_set bitmap k); cbn; lia).
  rewrite u32_small by lia.
  destruct (IH (S i) digest' b1 (e + Z.b2z (bit_set bitmap k))) as (e' & b2 & -> & -> & Hr & Hiff); [done|done|by rewrite Hl1|lia|lia|].
  exists e', b2. split_and!; [done|done|lia|lia|]. destruct (bit_set bitmap k) eqn:Ek; cbn [Z.b2z andb] in *.
  - replace (e + Z.of_nat (S n)) with (e + 1 + Z.of_nat n) by lia. rewrite Hiff. unfold index_list.
    assert (Hsame : ∀ l, Forall (in_bitmap bitmap) l → forallb (bit_set b1) l = forallb (bit_set bitmap) l).
    { induction 1 as [|j l Hj _ IHl]; [done|]. cbn [forallb]. rewrite IHl, H1 by done. f_equal.
      destruct (Z.eqb_spec j k) as [->|]; [by rewrite Ek|by rewrite orb_false_r]. }
    rewrite Hsame; [done|]. apply Forall_fmap, Forall_true. intros w. by apply index_in_bitmap.
  - split; [lia|done].
Qed.
End Loops.

(** ** Sequences of calls *)

Inductive call := CInsert (key : bytes) | CInsertUnique (key : bytes) | CMayContain (key : bytes) | CClear.
Definition call_key (c : call) : bytes :=
  match c with CInsert key | CInsertUnique key | CMayContain key => key | CClear => [] end.

Section Runs.
Context (test_and_set : bytes → Z → option (bool * bytes)).

(** The answers, in order, and the filter. *)
Fixpoint run (calls : list call) (f : BloomFilter) : option (list bool * BloomFilter) :=
  match calls with
  | [] => Some ([], f)
  | CInsert key :: calls => f ← Insert key f; run calls f
  | CInsertUnique key :: calls =>
      '(b, f) ← InsertUnique_by test_and_set key f; '(bs, f) ← run calls f; Some (b :: bs, f)
  | CMayContain key :: calls => b ← MayContain key f; '(bs, f) ← run calls f; Some (b :: bs, f)
  | CClear :: calls => f ← Clear f; run calls f
  end.
End Runs.

(** Every bit of the key is a bit of a key inserted. *)
Definition covered (num_bits num_hashes : Z) (inserted : list bytes) (key : bytes) : bool :=
  forallb (λ i, existsb (λ k, bool_decide (i ∈ indices num_bits num_hashes k)) inserted) (indices num_bits num_hashes key).

(** The keys inserted, and the answers they call for. *)
Fixpoint inserted_by (calls : list call) (inserted : list bytes) : list bytes :=
  match calls with
  | [] => inserted
  | (CInsert key | CInsertUnique key) :: calls => inserted_by calls (key :: inserted)
  | CMayContain _ :: calls => inserted_by calls inserted
  | CClear :: calls => inserted_by calls []
  end.
Fixpoint answers (num_bits num_hashes : Z) (calls : list call) (inserted : list bytes) : list bool :=
  match calls with
  | [] => []
  | CInsert key :: calls => answers num_bits num_hashes calls (key :: inserted)
  | CInsertUnique key :: calls =>
      negb (covered num_bits num_hashes inserted key) :: answers num_bits num_hashes calls (key :: inserted)
  | CMayContain key :: calls => covered num_bits num_hashes inserted key :: answers num_bits num_hashes calls inserted
  | CClear :: calls => answers num_bits num_hashes calls []
  end.

(** The filter holds the bits of the keys inserted. *)
Definition holds (nb nh : Z) (f : BloomFilter) (inserted : list bytes) : Prop :=
  m_num_bits f = nb ∧ m_num_hash_functions f = nh ∧
  ∃ bitmap, sound f bitmap ∧
    ∀ j, in_bitmap bitmap j → bit_set bitmap j = existsb (λ k, bool_decide (j ∈ indices nb nh k)) inserted.

Lemma covered_inserted nb nh inserted key : key ∈ inserted → covered nb nh inserted key = true.
Proof.
  intros Hin. apply forallb_forall. intros i Hi. apply existsb_exists. exists key. split; [by apply list_elem_of_In|].
  apply bool_decide_eq_true_2. by apply list_elem_of_In.
Qed.

Section Held.
Context (nb nh : Z) (f : BloomFilter) (inserted : list bytes) (key : bytes) (Hkey : short key).
Context (Hh : holds nb nh f inserted).

Lemma covered_eq bitmap : sound f bitmap →
  (∀ j, in_bitmap bitmap j → bit_set bitmap j = existsb (λ k, bool_decide (j ∈ indices nb nh k)) inserted) →
  forallb (bit_set bitmap) (index_list f key (Z.to_nat (m_num_hash_functions f)) 0 []) = covered nb nh inserted key.
Proof.
  destruct Hh as (Enb & Enh & _). intros Hs Hb. unfold covered, indices, index_list. rewrite Enb, Enh.
  generalize (hash_words key (Z.to_nat nh) 0 []) as l. induction l as [|w l IH]; [done|]. cbn [fmap list_fmap forallb]. rewrite Hb; [by f_equal|].
  rewrite <- Enb. by apply (index_in_bitmap f bitmap).
Qed.

Lemma MayContain_ok : MayContain key f = Some (covered nb nh inserted key).
Proof.
  pose proof Hh as (_ & _ & bitmap & Hs & Hb). unfold MayContain, memory. rewrite (sound_bitmap _ _ Hs). cbn [default from_option id].
  rewrite (contain_loop_ok f bitmap) by (done || apply Forall_nil_2 || apply (sound_bytes _ _ Hs)). f_equal. by apply covered_eq.
Qed.

Lemma inserted_holds bitmap bitmap' : sound f bitmap → 
  (∀ j, in_bitmap bitmap j → bit_set bitmap j = existsb (λ k, bool_decide (j ∈ indices nb nh k)) inserted) →
  bytes_ok bitmap' → length bitmap' = length bitmap →
  (∀ j, in_bitmap bitmap j → bit_set bitmap' j =
    (bit_set bitmap j || bool_decide (j ∈ index_list f key (Z.to_nat (m_num_hash_functions f)) 0 []))%bool) →
  holds nb nh (set_bitmap f bitmap') (key :: inserted).
Proof.
  destruct Hh as (Enb & Enh & _). intros Hs Hb Hb' Hl Hj. split; [done|]. split; [done|]. exists bitmap'.
  split; [by apply (sound_set f bitmap)|]. intros j Hin. unfold in_bitmap in Hin. rewrite Hl in Hin. rewrite Hj, Hb by done. cbn [existsb].
  rewrite orb_comm. unfold indices, index_list. by rewrite Enb, Enh.
Qed.

Lemma Insert_ok : ∃ f', Insert key f = Some f' ∧ holds nb nh f' (key :: inserted).
Proof.
  pose proof Hh as (_ & _ & bitmap & Hs & Hb). unfold Insert, memory. rewrite (sound_bitmap _ _ Hs). cbn [default from_option id].
  destruct (insert_loop_ok f bitmap Hs key Hkey (Z.to_nat (m_num_hash_functions f)) 0 [] bitmap) as (b' & -> & Hb' & Hl & Hj);
    [apply Forall_nil_2|apply (sound_bytes _ _ Hs)|done|].
  eexists. split; [done|]. by apply (inserted_holds bitmap).
Qed.

Lemma InsertUnique_ok tas : (∀ bitmap, sound f bitmap → tests_and_sets bitmap tas) →
  ∃ f', InsertUnique_by tas key f = Some (negb (covered nb nh inserted key), f') ∧ holds nb nh f' (key :: inserted).
Proof.
  intros Ht. pose proof Hh as (_ & _ & bitmap & Hs & Hb). unfold InsertUnique_by, memory. rewrite (sound_bitmap _ _ Hs). cbn [default from_option id].
  pose proof (sound_hashes _ _ Hs) as Hn.
  destruct (unique_loop_ok f bitmap Hs key Hkey tas (Z.to_nat (m_num_hash_functions f)) 0 [] bitmap 0) as (e & b' & -> & E & He & Hiff);
    [by apply Ht|apply Forall_nil_2|apply (sound_bytes _ _ Hs)|done|lia|lia|]. cbn [mbind option_bind].
  destruct (insert_loop_ok f bitmap Hs key Hkey (Z.to_nat (m_num_hash_functions f)) 0 [] bitmap) as (b'' & E' & Hb' & Hl & Hj);
    [apply Forall_nil_2|apply (sound_bytes _ _ Hs)|done|]. rewrite E in E'. injection E' as <-.
  exists (set_bitmap f b'). split; [|by apply (inserted_holds bitmap)]. do 2 f_equal. rewrite Z2Nat.id in * by lia.
  rewrite covered_eq in Hiff by done. destruct (covered nb nh inserted key); cbn [negb].
  - apply Z.ltb_ge. destruct Hiff as [_ Hiff]. rewrite Hiff by done. lia.
  - apply Z.ltb_lt. destruct (decide (e = 0 + m_num_hash_functions f)) as [Ee|]; [|lia]. by apply Hiff in Ee.
Qed.

Lemma Clear_ok : ∃ f', Clear f = Some f' ∧ holds nb nh f' [].
Proof.
  pose proof Hh as (Enb & Enh & bitmap & Hs & _). unfold Clear, MemorySize, IsValid, memory. rewrite (sound_bitmap _ _ Hs).
  rewrite bool_decide_eq_true_2 by done. cbn [mbind option_bind default from_option id]. eexists. split; [done|].
  pose proof (sound_bits _ _ Hs) as El. pose proof (sound_range _ _ Hs) as Hr. unfold CHAR_BIT. rewrite u64_small by lia.
  assert (Esize : Z.to_nat ((m_num_bits f + 8 - 1) / 8) = length bitmap).
  { rewrite El. replace (8 * Z.of_nat (length bitmap) + 8 - 1) with (7 + Z.of_nat (length bitmap) * 8) by lia.
    rewrite Z.div_add by lia. change (7 / 8) with 0. lia. }
  assert (Em : memset0 bitmap 0 (length bitmap) = replicate (length bitmap) 0).
  { unfold memset0, memcpy. rewrite take_0, length_replicate, drop_ge, app_nil_r by lia. done. }
  rewrite Esize, Em. split; [done|]. split; [done|]. exists (replicate (length bitmap) 0).
  split; [apply (sound_set f bitmap); [done|by apply Forall_replicate|by rewrite length_replicate]|].
  intros j Hj. cbn [existsb]. unfold bit_set. destruct (replicate (length bitmap) 0 !! Z.to_nat (j / 8)) as [b|] eqn:E; [|apply Z.bits_0].
  apply lookup_replicate in E as [-> _]. apply Z.bits_0.
Qed.
End Held.

Lemma calls_ok tas nb nh calls f inserted : (∀ f bitmap, sound f bitmap → m_num_bits f = nb → tests_and_sets bitmap tas) →
  Forall (λ c, short (call_key c)) calls → holds nb nh f inserted →
  ∃ f', run tas calls f = Some (answers nb nh calls inserted, f') ∧ holds nb nh f' (inserted_by calls inserted).
Proof.
  intros Ht Hc. revert f inserted. induction Hc as [|c calls Hc _ IH]; intros f inserted Hh; [by exists f|].
  destruct c as [key|key|key|]; cbn [run answers inserted_by call_key] in *.
  - destruct (Insert_ok nb nh f inserted key Hc Hh) as (f1 & -> & H1). apply IH, H1.
  - destruct (InsertUnique_ok nb nh f inserted key Hc Hh tas) as (f1 & -> & H1).
    { intros bitmap Hs. eapply Ht; [exact Hs|apply Hh]. }
    cbn [mbind option_bind]. destruct (IH _ _ H1) as (f2 & -> & H2). by exists f2.
  - rewrite (MayContain_ok nb nh f inserted key Hc Hh). cbn [mbind option_bind]. destruct (IH _ _ Hh) as (f2 & -> & H2). by exists f2.
  - destruct (Clear_ok nb nh f inserted Hh) as (f1 & -> & H1). apply IH, H1.
Qed.

(** ** The two ways to test and set *)

Lemma test_and_set_ok bitmap0 : tests_and_sets bitmap0 test_and_set_bit.
Proof.
  intros bitmap i Hb Hl Hi. destruct (byte_of_ok bitmap i Hb Hi) as (b & Eb & _ & Ebit). destruct (set_bit_ok bitmap i Hb Hi) as (b' & E & _).
  exists b'. split; [|done]. unfold test_and_set_bit. rewrite Eb, E. cbn [mbind option_bind]. by rewrite mask_land, negb_involutive, Ebit.
Qed.

(** The instruction, on whole words and bit numbers that are not negative. *)
Lemma x86_test_and_set_ok bitmap0 : (4 | Z.of_nat (length bitmap0)) → 8 * Z.of_nat (length bitmap0) <= 2 ^ 31 →
  tests_and_sets bitmap0 x86_test_and_set_bit.
Proof.
  intros [q Hq] Hs bitmap i Hb Hl Hi. destruct (byte_of_ok bitmap i Hb Hi) as (b & Eb & _ & Ebit).
  destruct (set_bit_ok bitmap i Hb Hi) as (b' & E & _). exists b'. split; [|done]. unfold in_bitmap in Hi. rewrite Hl in Hi.
  unfold x86_test_and_set_bit. rewrite s32_small by lia. rewrite Z.shiftr_div_pow2 by lia. change (2 ^ 5) with 32. rewrite Hl.
  assert (0 <= i / 32) by (apply Z.div_pos; lia). assert (i / 32 < q) by (apply Z.div_lt_upper_bound; lia).
  destruct (Z.leb_spec 0 (i / 32)); [|lia]. destruct (Z.leb_spec (4 * (i / 32) + 4) (Z.of_nat (length bitmap0))); [|lia].
  cbn [andb]. rewrite Eb, E. cbn [mbind option_bind]. unfold CHAR_BIT. by rewrite Ebit.
Qed.

(** A bit number from 2^31 on is negative to the instruction. *)
Lemma x86_high_bit bitmap i : 2 ^ 31 <= i < 2 ^ 32 → x86_test_and_set_bit bitmap i = None.
Proof.
  intros Hi. unfold x86_test_and_set_bit. assert (E : s32 i = i - 2 ^ 32).
  { unfold s32. rewrite <- (Z.mod_add _ (-1)), Z.mod_small by lia. lia. }
  rewrite E, Z.shiftr_div_pow2 by lia. assert ((i - 2 ^ 32) / 2 ^ 5 < 0) by (apply Z.div_lt_upper_bound; lia).
  destruct (Z.leb_spec 0 ((i - 2 ^ 32) / 2 ^ 5)); [lia|done].
Qed.

(** A new filter holds no key. *)
Lemma new_filter_holds calloc size nh : 0 < size → 8 * size < 2 ^ 32 - 1 → calloc size = true → 0 <= nh < 2 ^ 32 →
  ∃ f, BloomFilter_of calloc size nh = Some (Returned, f) ∧ holds (8 * size) nh f [].
Proof.
  intros Hs Hb Hc Hn. unfold BloomFilter_of, Initialize, CheckBitmapSize, CHAR_BIT, UINT32_MAX.
  assert (E8 : u64 (size * 8) = 8 * size) by (rewrite u64_small; lia).
  rewrite E8. destruct (Z.ltb_spec (8 * size) (2 ^ 32 - 1)); [|lia].
  unfold UncheckedInitialize. rewrite Hc. unfold UncheckedInitialize_bitmap, CHAR_BIT. rewrite E8, u32_small by lia.
  set (f0 := Destroy _). destruct (SetValue_ok (8 * size) (m_divisor f0)) as (o & Eo & Ed & Hdiv); [lia|]. rewrite Eo. cbn [mbind option_bind].
  eexists. split; [done|]. unfold own. cbn [fst snd]. split; [done|]. split; [done|].
  exists (replicate (Z.to_nat size) 0). split.
  - split; cbn; try done; [by apply Forall_replicate|rewrite length_replicate; lia|lia|].
    intros n Hw. unfold Modulu. rewrite Hdiv by done. cbn [mbind option_bind]. rewrite Ed. f_equal.
    pose proof (Z.div_mod n (8 * size) ltac:(lia)). pose proof (Z.mod_pos_bound n (8 * size) ltac:(lia)).
    pose proof (Z.div_pos n (8 * size)). unfold word32 in Hw. rewrite (u32_small (n / (8 * size) * (8 * size))) by lia. rewrite u32_small; lia.
  - intros j Hj. cbn [existsb]. unfold bit_set. destruct (replicate (Z.to_nat size) 0 !! Z.to_nat (j / 8)) as [b|] eqn:E; [|apply Z.bits_0].
    apply lookup_replicate in E as [-> _]. apply Z.bits_0.
Qed.

End Calls.

(** Logarithms for a filter made by its size. *)
#[local] Instance demo_libm : Libm := {|
  real := Z; probability_one := 1; probability_of := λ n, - n; elements_of := λ b n, b / (n + 1);
  hashes_of := λ p, p; bits_of := λ c n, c * n
|}.

Definition demo_calls : list call :=
  [CInsertUnique (str "toft"); CInsertUnique (str "toft"); CInsert (str "bloom"); CMayContain (str "bloom"); CMayContain (str "none")].


(** ** Filters with a bitmap for each hash *)

Definition partial_sound (num_bits : Z) (bitmaps : list bytes) : Prop :=
  0 < num_bits ∧ Forall (λ b, bytes_ok b ∧ num_bits <= 8 * Z.of_nat (length b)) bitmaps.

Lemma partial_contain_cons nb key hash b bs : partial_sound nb (b :: bs) →
  partial_contain nb key hash (b :: bs) =
    if bit_set b (MurmurHash2A key hash mod nb) then partial_contain nb key (MurmurHash2A key hash) bs else Some false.
Proof.
  intros [Hn [[Hb Hl] _]%Forall_cons]. cbn [partial_contain]. unfold partial_index. destruct (Z.eqb_spec nb 0); [lia|]. cbn [mbind option_bind].
  pose proof (Z.mod_pos_bound (MurmurHash2A key hash) nb Hn).
  destruct (byte_of_ok b (MurmurHash2A key hash mod nb)) as (x & -> & _ & Hx); [done|unfold in_bitmap; lia|]. cbn [mbind option_bind].
  rewrite mask_land, Hx. by destruct (bit_set b _).
Qed.

(** Inserting is defined, the key may then be contained, and a key that might
    be before still may. *)
Lemma partial_insert_ok nb key hash bs : partial_sound nb bs →
  ∃ bs', partial_insert nb key hash bs = Some bs' ∧ partial_sound nb bs' ∧ partial_contain nb key hash bs' = Some true ∧
    ∀ key' hash', partial_contain nb key' hash' bs = Some true → partial_contain nb key' hash' bs' = Some true.
Proof.
  revert hash. induction bs as [|b bs IH]; intros hash Hs; [by exists []|]. pose proof Hs as [Hn [[Hb Hl] Hbs]%Forall_cons].
  cbn [partial_insert]. unfold partial_index. destruct (Z.eqb_spec nb 0); [lia|]. cbn [mbind option_bind].
  pose proof (Z.mod_pos_bound (MurmurHash2A key hash) nb Hn) as Hr.
  destruct (set_bit_ok b (MurmurHash2A key hash mod nb)) as (b' & -> & Hb' & Hl' & Hbits); [done|unfold in_bitmap; lia|]. cbn [mbind option_bind].
  destruct (IH (MurmurHash2A key hash)) as (bs' & -> & Hs' & Hin & Hkeep); [done|]. exists (b' :: bs').
  assert (Hs2 : partial_sound nb (b' :: bs')) by (split; [done|constructor; [by rewrite Hl'|apply Hs']]). split_and!; [done|done| |].
  - rewrite partial_contain_cons, Hbits by (done || unfold in_bitmap; lia). by rewrite Z.eqb_refl, orb_true_r.
  - intros key' hash'. rewrite !partial_contain_cons by done. pose proof (Z.mod_pos_bound (MurmurHash2A key' hash') nb Hn).
    rewrite Hbits by (unfold in_bitmap; lia). destruct (bit_set b _); [|done]. cbn [orb]. apply Hkeep.
Qed.

Theorem partial_filter_keeps f key : partial_sound (p_num_bits f) (p_bitmaps f) →
  ∃ f', Partial_Insert key f = Some f' ∧ partial_sound (p_num_bits f') (p_bitmaps f') ∧ Partial_MayContain key f' = Some true ∧
    ∀ key', Partial_MayContain key' f = Some true → Partial_MayContain key' f' = Some true.
Proof.
  intros Hs. unfold Partial_Insert, Partial_MayContain. destruct (partial_insert_ok _ key 0 _ Hs) as (bs & -> & Hs' & Hin & Hk).
  eexists. split; [done|]. cbn. split_and!; [done|done|]. intros key'. apply Hk.
Qed.
