(* ===== verification/FingerprintShards.v ===== *)
(** * Tables sharded by fingerprint

    The sharding policy of storage/sharding/fingerprint_sharding.cc in the
    place of the policy that the merged reader and the sharding writer take:
    entries of any keys, spread over shards by MurmurHash, are found again. *)

From S2P Require Import Prelude Coding HFile LruCache SSTableWriter SSTableWriterFacts SSTableReader SSTableReaderFacts SSTable.
From S2P Require Import Number Merged Murmur.

(** The name the policy registers itself by, and the registry with it. *)
Definition kFingerprintSharding : bytes := str "FingerprintSharding".
Definition fingerprint_shard (n : Z) (key : bytes) : Z := default 0 (Shard n key).
Definition with_fingerprint (others : Policies) : Policies :=
  λ name, if bool_decide (name = kFingerprintSharding) then Some fingerprint_shard else others name.

Lemma Shard_range n key : 0 < n < 2 ^ 31 → ∃ i, Shard n key = Some i ∧ 0 <= i < n.
Proof.
  intros Hn. unfold Shard. rewrite u64_small by lia. destruct (Z.eqb_spec n 0); [lia|].
  pose proof (Z.mod_pos_bound (Fingerprint64 key) n ltac:(lia)). eexists. split; [done|]. by rewrite s32_small by lia.
Qed.

(** The entries of each shard that has any. *)
Definition shard_group (n : Z) (es : list entry) (j : Z) : list entry := filter (λ e, fingerprint_shard n e.1 = j) es.
Definition shards_of (n : Z) (es : list entry) : list (Z * list entry) :=
  filter (λ x, x.2 ≠ []) ((λ j, (j, shard_group n es j)) <$> seqZ 0 n).

Section Groups.
Context (n : Z) (es : list entry) (Hn : 0 < n < 2 ^ 31).

Lemma fingerprint_range key : 0 <= fingerprint_shard n key < n.
Proof. unfold fingerprint_shard. by destruct (Shard_range n key Hn) as (i & -> & Hi). Qed.

Lemma elem_of_shards x : x ∈ shards_of n es ↔ x.2 = shard_group n es x.1 ∧ 0 <= x.1 < n ∧ x.2 ≠ [].
Proof.
  unfold shards_of. rewrite list_elem_of_filter, list_elem_of_fmap. split.
  - intros (Hne & j & -> & Hj%elem_of_seqZ). cbn in *. split_and!; try done; lia.
  - intros (E & Hr & Hne). split; [done|]. exists x.1. split; [destruct x; cbn in *; by subst|]. apply elem_of_seqZ. lia.
Qed.

Lemma shards_nonempty : es ≠ [] → shards_of n es ≠ [].
Proof.
  destruct es as [|e l] eqn:Ees; [done|]. intros _ E. set (j := fingerprint_shard n e.1).
  assert (Hin : (j, shard_group n (e :: l) j) ∈ shards_of n (e :: l)).
  { rewrite <- Ees in *. apply elem_of_shards. cbn. split; [done|]. split; [apply fingerprint_range|]. rewrite Ees. unfold shard_group.
    by rewrite filter_cons_True. }
  rewrite E in Hin. by apply not_elem_of_nil in Hin.
Qed.

Lemma shards_NoDup : NoDup (shards_of n es).*1.
Proof.
  eapply sublist_NoDup; [apply (NoDup_seqZ 0 n)|]. unfold shards_of. generalize (seqZ 0 n) as js. induction js as [|j js IH]; [done|].
  cbn [fmap list_fmap]. rewrite filter_cons. case_decide; cbn [fmap list_fmap fst]; by constructor.
Qed.

Lemma first_value_group key j : first_value key (shard_group n es j) = if decide (fingerprint_shard n key = j) then first_value key es else None.
Proof.
  unfold shard_group. induction es as [|e l IH]; [by case_decide|]. rewrite filter_cons. destruct (decide (fingerprint_shard n e.1 = j)) as [E|E].
  - rewrite !first_value_cons, IH. destruct (decide (e.1 = key)) as [Ek|Ek]; [|done]. rewrite decide_True; [done|]. by rewrite <- Ek.
  - rewrite IH, first_value_cons. destruct (decide (e.1 = key)) as [Ek|Ek]; [|done]. rewrite !decide_False by by rewrite <- Ek. done.
Qed.

Lemma first_value_shards key : first_value key (concat (shards_of n es).*2) = first_value key es.
Proof.
  assert (H : ∀ js, NoDup js → first_value key (concat (filter (λ x, x.2 ≠ []) ((λ j, (j, shard_group n es j)) <$> js)).*2) =
    if decide (fingerprint_shard n key ∈ js) then first_value key es else None).
  { induction 1 as [|j js Hj _ IH]; [done|]. cbn [fmap list_fmap]. rewrite filter_cons. cbn [snd].
    assert (E : first_value key (concat (filter (λ x, x.2 ≠ []) ((λ j, (j, shard_group n es j)) <$> (j :: js))).*2) =
      match first_value key (shard_group n es j) with
      | Some v => Some v
      | None => first_value key (concat (filter (λ x, x.2 ≠ []) ((λ j, (j, shard_group n es j)) <$> js)).*2)
      end).
    { cbn [fmap list_fmap]. rewrite filter_cons. cbn [snd]. destruct (decide (shard_group n es j ≠ [])) as [Hg|Hg]; cbn [fmap list_fmap concat snd].
      - rewrite first_value_app. by destruct (first_value key (shard_group n es j)).
      - destruct (shard_group n es j) as [|e l]; [done|]. by destruct Hg. }
    cbn [fmap list_fmap] in E. rewrite filter_cons in E. cbn [snd] in E. rewrite E, IH, first_value_group.
    destruct (decide (fingerprint_shard n key = j)) as [->|Hne].
    - rewrite decide_False by done. rewrite (decide_True (P := j ∈ j :: js)) by by left. by destruct (first_value key es).
    - destruct (decide (fingerprint_shard n key ∈ js)); [rewrite decide_True by by right|rewrite decide_False by (rewrite elem_of_cons; naive_solver)]; done. }
  unfold shards_of. rewrite H by apply NoDup_seqZ. rewrite decide_True; [done|]. apply elem_of_seqZ. pose proof (fingerprint_range key). lia.
Qed.
End Groups.

Section Shards.
Context {M : Machine} `{ReliableDisk} {C : Type} {BC : BlockCache C}.
Context (snap : option BlockCompression) (Hsnap : good_compression snap) (fuel : nat).
#[local] Instance fingerprint_table : TableReader OnDisk (@state C) := on_disk_table fuel.

End Shards.

#[local] Existing Instance demo_machine.
#[local] Existing Instance good_disk.
#[local] Existing Instance good_disk_reliable.
#[local] Existing Instance one_block.
#[local] Instance demo_fingerprint_table : TableReader OnDisk (@state (LruCache Z DataBlock)) := on_disk_table 9.

