(* ===== verification/QueryParams.v ===== *)
(** * Query parameters

    Model of net/uri/query_params.h and query_params.cpp: the parameters of a
    query in their order, parsed from a query or from a URI and printed.  A
    function that returns a reference or a pointer to a parameter returns its
    index or its value. *)

From S2P Require Import Prelude CType ByteSet AsciiTable Percent Uri UriParser Number StringPiece StringAlgorithm.

Record QueryParam := mkParam { name : bytes; value : bytes }.
Abbreviation QueryParams := (list QueryParam).

(** The loop over the pieces, with the parameters so far.  [false] leaves the
    parameter whose value does not decode, as the decoder left it. *)
Fixpoint parse_loop (splited : list bytes) (params : QueryParams) : bool * QueryParams :=
  match splited with
  | [] => (true, params)
  | s :: splited =>
      match find_char s (chr "=") 0 with
      | Some pos =>
          let '(ok, v) := Decode (drop (pos + 1) s) in
          let params := params ++ [mkParam (take pos s) v] in
          if ok then parse_loop splited params else (false, params)
      | None => parse_loop splited (params ++ [mkParam s []])
      end
  end.

Definition Parse (params : bytes) (old : QueryParams) : option (bool * QueryParams) :=
  splited ← SplitString params (str "&");
  Some (parse_loop splited []).

Definition ParseFromUrl (url : bytes) (old : QueryParams) : option (bool * QueryParams) :=
  let '(ok, uri) := UriParser.Parse url new_URI in
  if (negb ok || negb (m_has_query uri))%bool then Some (false, old) else Parse (m_query uri) old.

(** A parameter without a name is left out; the separator follows unless the
    parameter is the last one. *)
Fixpoint append_loop (params : QueryParams) (target : bytes) : bytes :=
  match params with
  | [] => target
  | p :: params =>
      append_loop params
        (if bool_decide (name p = []) then target
         else target ++ name p ++ [chr "="] ++ Encode (value p) ++ (if bool_decide (params = []) then [] else [chr "&"]))
  end.
Definition AppendToString (params : QueryParams) (target : bytes) : bytes := append_loop params target.
Definition WriteToString (params : QueryParams) : bytes := AppendToString params [].
Definition ToString (params : QueryParams) : bytes := AppendToString params [].

(** The index of the first parameter of the name. *)
Fixpoint Find_index (params : QueryParams) (n : bytes) : option nat :=
  match params with
  | [] => None
  | p :: params => if bool_decide (name p = n) then Some 0%nat else S <$> Find_index params n
  end.
Definition Find (params : QueryParams) (n : bytes) : option QueryParam := i ← Find_index params n; params !! i.

(** [at] throws when the index is out of range. *)
Definition Get (params : QueryParams) (index : nat) : option QueryParam := params !! index.
Definition GetValue (params : QueryParams) (n : bytes) : option bytes := value <$> Find params n.
Definition GetValue_int (params : QueryParams) (n : bytes) : option Z := p ← Find params n; StringToNumber t_int (value p).
Definition GetOrDefaultValue (params : QueryParams) (n default_value : bytes) : bytes :=
  match Find params n with Some p => value p | None => default_value end.
Definition Count (params : QueryParams) : nat := length params.
Definition Clear (params : QueryParams) : QueryParams := [].
Definition Add_param (p : QueryParam) (params : QueryParams) : QueryParams := params ++ [p].
Definition Add (n v : bytes) (params : QueryParams) : QueryParams := params ++ [mkParam n v].
Definition Set_ (n v : bytes) (params : QueryParams) : QueryParams :=
  match Find_index params n with
  | Some i => alter (λ p, mkParam (name p) v) i params
  | None => Add n v params
  end.
Fixpoint Remove (n : bytes) (params : QueryParams) : bool * QueryParams :=
  match params with
  | [] => (false, [])
  | p :: rest => if bool_decide (name p = n) then (true, rest) else let '(b, r) := Remove n rest in (b, p :: r)
  end.

Example parse_test : Parse (str "a=1&b=2&c=%FF%FE&d") [] =
  Some (true, [mkParam (str "a") (str "1"); mkParam (str "b") (str "2"); mkParam (str "c") [255; 254]; mkParam (str "d") []]).
Proof. by vm_compute. Qed.
Example parse_fails : fst <$> Parse (str "a=1&&b=%a") [] = Some false ∧ fst <$> Parse (str "a=1&&b=%km") [] = Some false.
Proof. by vm_compute. Qed.

(** ** Round trip *)

(** A name that can be printed: not empty, and without the separators. *)
Definition printable_name (n : bytes) : Prop := n ≠ [] ∧ chr "&" ∉ n ∧ chr "=" ∉ n.

Definition item (p : QueryParam) : bytes := name p ++ [chr "="] ++ Encode (value p).

Lemma encode_no_separators v : bytes_ok v → chr "&" ∉ Encode v.
Proof.
  intros Hv. unfold Encode, EncodeAppend. rewrite DoEncodeAppend_flat. cbn [app]. induction Hv as [|c v Hc _ IH]; [apply not_elem_of_nil|].
  cbn [flat_map]. rewrite not_elem_of_app. split; [|exact IH].
  assert (H : forallb (λ c, negb (bool_decide (chr "&" ∈ encode_byte unchanged_escape c))) (seqZ 0 256) = true) by by vm_compute.
  pose proof (byte_forall _ H c Hc) as Hb. cbn beta in Hb. by apply negb_true_iff, bool_decide_eq_false in Hb.
Qed.

Lemma append_loop_join ps target : Forall (λ p, name p ≠ []) ps →
  append_loop ps target = target ++ JoinStrings (item <$> ps) (str "&").
Proof.
  intros H. revert target. induction H as [|p ps Hp _ IH]; intros target; [by rewrite app_nil_r|]. cbn [append_loop fmap list_fmap].
  rewrite bool_decide_eq_false_2, IH by done. rewrite <- (assoc_L (++)). f_equal. change [chr "&"] with (str "&").
  destruct ps as [|q ps]; [by rewrite bool_decide_eq_true_2, !app_nil_r by done|].
  rewrite bool_decide_eq_false_2 by done. cbn [fmap list_fmap]. rewrite (JoinStrings_cons (item p)) by done. change (item p) with (name p ++ [chr "="] ++ Encode (value p)).
  by rewrite <- !(assoc_L (++)).
Qed.

(** What the values become: a plus sign is not escaped, and reads as a space. *)
Definition spaced (p : QueryParam) : QueryParam := mkParam (name p) (decoded unchanged_escape <$> value p).

Lemma parse_item p rest params : printable_name (name p) → bytes_ok (value p) →
  parse_loop (item p :: rest) params = parse_loop rest (params ++ [spaced p]).
Proof.
  intros (_ & _ & Hn) Hv. cbn [parse_loop]. unfold item at 1. cbn [app]. rewrite find_char_first by done.
  assert (Ed : drop (length (name p) + 1) (item p) = Encode (value p)).
  { unfold item. rewrite drop_app_ge by lia. replace (length (name p) + 1 - length (name p))%nat with 1%nat by lia. done. }
  assert (Et : take (length (name p)) (item p) = name p) by (unfold item; apply take_app_length).
  rewrite Ed, Et, Decode_in_place. destruct (decode_encode 0 (value p) Hv) as (Hall & _).
  specialize (Hall unchanged_escape ltac:(by vm_compute)). unfold Encode, EncodeAppend. rewrite Hall. done.
Qed.

(** C30: the parameters of a query are read back.  Parameters with names that
    are not empty and hold no separator, and any values, parse from what they
    print as, in their order, with each plus sign of a value turned into a
    space, which the encoder does not escape; without plus signs they are the
    same parameters. *)
Theorem query_reads_back ps old : Forall (λ p, printable_name (name p) ∧ bytes_ok (value p)) ps →
  Parse (ToString ps) old = Some (true, spaced <$> ps) ∧
  (Parse (ToString ps) old = Some (true, ps) ↔ Forall (λ p, chr "+" ∉ value p) ps).
Proof.
  intros Hps.
  assert (E : Parse (ToString ps) old = Some (true, spaced <$> ps)).
  { unfold Parse, ToString, AppendToString. rewrite append_loop_join by (eapply Forall_impl; [exact Hps|by intros p [[? _] _]]).
    cbn [app]. change (str "&") with [38]. rewrite SplitString_char. cbn [mbind option_bind]. destruct ps as [|p0 ps0] eqn:Eps; [done|]. rewrite <- Eps in *.
    rewrite cut_join_char; [|by subst|].
    - rewrite filter_every.
      + f_equal. assert (H : ∀ params, parse_loop (item <$> ps) params = (true, params ++ (spaced <$> ps))); [|apply H].
        clear -Hps. induction Hps as [|p ps [Hp Hv] _ IH]; intros params; [by rewrite app_nil_r|]. cbn [fmap list_fmap].
        rewrite parse_item, IH by done. by rewrite <- (assoc_L (++)).
      + apply Forall_fmap. eapply Forall_impl; [exact Hps|]. intros p [(Hp & _) _]. cbn. unfold item. by destruct (name p).
    - apply Forall_fmap. eapply Forall_impl; [exact Hps|]. intros p [(_ & Hp & _) Hv] j [Hj Ht]. cbn in Hj.
      destruct (lookup_lt_is_Some_2 (item p) j) as [x Hx]; [lia|]. rewrite (drop_S _ _ _ Hx) in Ht. injection Ht as ->.
      apply list_elem_of_lookup_2 in Hx. unfold item in Hx. rewrite !elem_of_app, list_elem_of_singleton in Hx.
      destruct Hx as [Hx|[Hx|Hx]]; [done|done|]. by apply (encode_no_separators (value p) Hv). }
  split; [done|]. rewrite E. clear -Hps. split.
  - intros [= H]. revert H. induction Hps as [|p ps _ _ IH]; [by constructor|]. cbn [fmap list_fmap]. intros [= Hp Hrest].
    constructor; [|by apply IH]. apply (f_equal value) in Hp. cbn in Hp. revert Hp. generalize (value p) as v.
    induction v as [|c v IHv]; [intros _; apply not_elem_of_nil|]. cbn [fmap list_fmap]. intros [= Hc Hv]. apply not_elem_of_cons.
    split; [|by apply IHv]. intros <-. by vm_compute in Hc.
  - intros H. do 2 f_equal. induction H as [|p ps Hp _ IH]; [done|]. cbn [fmap list_fmap]. apply Forall_cons in Hps as [_ Hps]. rewrite IH by done. f_equal.
    destruct p as [n v]. unfold spaced. cbn [name value] in *. f_equal. clear -Hp. induction v as [|c v IH]; [done|].
    apply not_elem_of_cons in Hp as [Hc Hv]. cbn [fmap list_fmap]. rewrite IH by done. f_equal. unfold decoded.
    by destruct (Z.eqb_spec c (chr "+")); [congruence|].
Qed.

Definition demo_params : QueryParams := [mkParam (str "q") (str "a+b & c"); mkParam (str "lang") []].

Lemma query_reads_back_witness :
  ToString demo_params = str "q=a+b%20%26%20c&lang=" ∧
  Parse (ToString demo_params) [] = Some (true, [mkParam (str "q") (str "a b & c"); mkParam (str "lang") []]).
Proof.
  split; [by vm_compute|]. destruct (query_reads_back demo_params []) as [E _]; [|etransitivity; [exact E|by vm_compute]].
  repeat constructor; try done; apply (bool_decide_unpack _); by vm_compute.
Defined.

(** ** Operations *)

Lemma Find_index_Some ps n i : Find_index ps n = Some i ↔
  ∃ p, ps !! i = Some p ∧ name p = n ∧ ∀ j q, (j < i)%nat → ps !! j = Some q → name q ≠ n.
Proof.
  revert i. induction ps as [|p ps IH]; intros i; cbn [Find_index]; [split; [done|by intros (p & Hp & _)]|]. case_bool_decide as E.
  - split.
    + intros [= <-]. exists p. split_and!; [done|done|]. intros j q Hj. lia.
    + intros (q & Hq & Hn & Hmin). destruct i as [|i]; [done|]. by destruct (Hmin 0%nat p ltac:(lia) eq_refl).
  - destruct (Find_index ps n) as [k|] eqn:Ek; cbn; split.
    + intros [= <-]. destruct (proj1 (IH k) eq_refl) as (q & Hq & Hn & Hmin). exists q. split_and!; [done|done|].
      intros [|j] q' Hj Hq'; [by injection Hq' as <-|]. eapply Hmin; [|exact Hq']. lia.
    + intros (q & Hq & Hn & Hmin). destruct i as [|i]; [by injection Hq as <-|]. f_equal. f_equal.
      assert (Some k = Some i) as [= ->]; [|done]. apply IH. exists q. split_and!; [done|done|]. intros j q' Hj Hq'. apply (Hmin (S j) q'); [lia|done].
    + done.
    + intros (q & Hq & Hn & Hmin). destruct i as [|i]; [by injection Hq as <-|]. exfalso.
      assert (None = Some i); [|done]. apply IH. exists q. split_and!; [done|done|]. intros j q' Hj Hq'. apply (Hmin (S j) q'); [lia|done].
Qed.

(** The parameters are an ordered multimap of which the first of a name counts. *)
Theorem query_operations n v n' ps :
  GetValue (Set_ n v ps) n' = (if decide (n' = n) then Some v else GetValue ps n') ∧
  GetValue (Add n v ps) n' = (match GetValue ps n' with Some x => Some x | None => if decide (n' = n) then Some v else None end) ∧
  (Remove n ps).1 = bool_decide (is_Some (GetValue ps n)) ∧
  (n' ≠ n → GetValue (Remove n ps).2 n' = GetValue ps n').
Proof.
  assert (Hcons : ∀ p l k, GetValue (p :: l) k = if bool_decide (name p = k) then Some (value p) else GetValue l k).
  { intros p l k. unfold GetValue, Find. cbn [Find_index]. case_bool_decide; [done|]. by destruct (Find_index l k). }
  assert (Hadd : ∀ k, GetValue (Add n v ps) k = (match GetValue ps k with Some x => Some x | None => if decide (k = n) then Some v else None end)).
  { intros k. unfold Add. induction ps as [|p l IH]; cbn [app]; rewrite !Hcons.
    - cbn [name value]. case_bool_decide; [by rewrite decide_True|]. by rewrite decide_False.
    - case_bool_decide; [done|]. apply IH. }
  split_and!; [|apply Hadd| |].
  - unfold Set_. destruct (Find_index ps n) as [i|] eqn:Ei.
    + revert i Ei. clear Hadd. induction ps as [|p l IH]; intros i Ei; [done|]. cbn [Find_index] in Ei. case_bool_decide as En.
      * injection Ei as <-. cbn [alter list_alter]. rewrite !Hcons. cbn [name value]. rewrite En.
        destruct (decide (n' = n)) as [->|Hne]; [by rewrite bool_decide_eq_true_2|]. by rewrite bool_decide_eq_false_2.
      * destruct (Find_index l n) as [k|]; [|done]. injection Ei as <-. cbn [alter list_alter]. change (list_alter ?f k l) with (alter f k l).
        rewrite !Hcons, IH by done. case_bool_decide as E2; [|done]. rewrite decide_False by congruence. done.
    + rewrite Hadd. destruct (decide (n' = n)) as [->|]; [|by destruct (GetValue ps n')].
      unfold GetValue, Find. by rewrite Ei.
  - clear Hadd. induction ps as [|p l IH]; [done|]. cbn [Remove]. rewrite Hcons. destruct (bool_decide (name p = n)); [by rewrite (bool_decide_eq_true_2 (is_Some (Some _)))|].
    destruct (Remove n l) as [b r]. exact IH.
  - intros Hne. clear Hadd. induction ps as [|p l IH]; [done|]. cbn [Remove]. rewrite (Hcons p l). case_bool_decide as E.
    + cbn [snd]. by rewrite bool_decide_eq_false_2 by congruence.
    + destruct (Remove n l) as [b r]. cbn [snd] in *. by rewrite Hcons, IH.
Qed.
