(* ===== verification/SeqFile.v ===== *)
(** * Sequence files

    Model of storage/seqfile/data_input_buffer.h, local_sequence_file_reader
    and local_sequence_file_writer: Hadoop's files of keys and values, with a
    marker after the header and after every hundred records.

    A reader's file is its bytes; how many of them a call of [Read] gives is
    the system's choice, a parameter.  A [StringPiece] into the buffer is its
    bytes.  A call either is undefined or aborts ([None]), or returns false, or
    gives a value; the monad [M] threads the object through. *)

From S2P Require Import Prelude Coding BlockHash SSTableWriter.

Definition M (S A : Type) : Type := S → option (option A * S).
#[export] Instance M_ret S : MRet (M S) := λ A a s, Some (Some a, s).
#[export] Instance M_bind S : MBind (M S) := λ A B k m s,
  match m s with
  | None => None
  | Some (Some a, s) => k a s
  | Some (None, s) => Some (None, s)
  end.
Definition fail {S A} : M S A := λ s, Some (None, s).
Definition undefined {S A} : M S A := λ s, None.
Definition get {S} : M S S := λ s, Some (Some s, s).
Definition put {S} (s : S) : M S unit := λ _, Some (Some tt, s).
Definition modify {S} (f : S → S) : M S unit := λ s, Some (Some tt, f s).

(** ** The buffer of the reader *)

(** [File::Read] at a position for a number of bytes: how many it gives. *)
Class Source := { source : bytes; read_count : nat → Z → Z; seek_ok : Z → bool }.

(** The bytes of [m_buffer] below [m_size]; [m_pos] is where the file is. *)
Record DataInputBuffer := mkInput {
  m_pos : nat;
  m_open : bool;
  m_buffer : bytes;
  m_buffer_size : Z;
  m_offset : nat;
  m_is_finished : bool;
  m_err : bytes
}.

Definition DEFAULT_BUFFER_SIZE : Z := 65536.

Section DataInputBuffer.
Context {F : Source}.

Definition new_DataInputBuffer : DataInputBuffer := mkInput 0 true [] DEFAULT_BUFFER_SIZE 0 false [].
Definition Reset (d : DataInputBuffer) : DataInputBuffer := mkInput (m_pos d) false [] (m_buffer_size d) 0 false (m_err d).
Definition ResetBuffer (d : DataInputBuffer) : DataInputBuffer :=
  mkInput (m_pos d) (m_open d) [] (m_buffer_size d) 0 (m_is_finished d) (m_err d).

Definition Data (d : DataInputBuffer) : bytes := drop (m_offset d) (m_buffer d).
Definition Tell_input (d : DataInputBuffer) : Z := Z.of_nat (m_pos d) - (Z.of_nat (length (m_buffer d)) - Z.of_nat (m_offset d)).

Definition advance (n : nat) (d : DataInputBuffer) : DataInputBuffer :=
  mkInput (m_pos d) (m_open d) (m_buffer d) (m_buffer_size d) (m_offset d + n) (m_is_finished d) (m_err d).
Definition set_err (e : bytes) (d : DataInputBuffer) : DataInputBuffer :=
  mkInput (m_pos d) (m_open d) (m_buffer d) (m_buffer_size d) (m_offset d) (m_is_finished d) e.

(** The data moved to the start of the buffer, then as much as fits. *)
Definition LoadMoreContent : M DataInputBuffer unit := λ d,
  if m_open d then
    let buffer := if (m_offset d =? 0)%nat then m_buffer d else Data d in
    let empty_buffer_size := s32 (m_buffer_size d - Z.of_nat (length buffer)) in
    let ret := read_count (m_pos d) empty_buffer_size in
    if ret <=? 0 then Some (None, mkInput (m_pos d) true buffer (m_buffer_size d) 0 true (str "Read SequenceFile Failed"))
    else
      let more := take (Z.to_nat ret) (drop (m_pos d) source) in
      Some (Some tt, mkInput (m_pos d + Z.to_nat ret) true (buffer ++ more) (m_buffer_size d) 0 (m_is_finished d) (m_err d))
  else None.

(** [while (m_size - m_offset < n)] *)
Fixpoint load_loop (fuel : nat) (n : Z) : M DataInputBuffer unit :=
  d ← get;
  if Z.of_nat (length (Data d)) <? n then
    match fuel with O => undefined | S fuel => _ ← LoadMoreContent; load_loop fuel n end
  else mret tt.

(** A buffer that is too small is replaced; its new size is an [int]. *)
Definition grow (n : Z) : M DataInputBuffer unit := λ d,
  if m_buffer_size d <? n then
    let new_buffer_size := s32 (Z.max n (m_buffer_size d * 2)) in
    if new_buffer_size <? 0 then None
    else Some (Some tt, mkInput (m_pos d) (m_open d) (Data d) new_buffer_size 0 (m_is_finished d) (m_err d))
  else Some (Some tt, d).

Definition LoadAtLeast (n : Z) : M DataInputBuffer unit :=
  _ ← grow n; load_loop (S (length source)) n.

(** The version is read from the start of the buffer. *)
Definition ReadVersion : M DataInputBuffer bytes :=
  _ ← LoadAtLeast 4; d ← get; _ ← modify (advance 4); mret (take 4 (m_buffer d)).

(** [n] bytes at the offset, behind which the offset moves. *)
Definition read_bytes (n : nat) : M DataInputBuffer bytes :=
  _ ← LoadAtLeast (Z.of_nat n); d ← get; _ ← modify (advance n); mret (take n (Data d)).

Definition ReadByte : M DataInputBuffer Z := b ← read_bytes 1; mret (s8 (nth 0 b 0)).

(** [ntohl] on the little-endian target. *)
Definition ntohl (x : Z) : Z := load32 (reverse (store32 (u32 x))).
Definition s16 (x : Z) : Z := (x + 2 ^ 15) mod 2 ^ 16 - 2 ^ 15.

(** Two bytes as a [short], swapped as an [int]. *)
Definition ReadShort : M DataInputBuffer Z :=
  b ← read_bytes 2; mret (s16 (ntohl (s16 (nth 0 b 0 + 256 * nth 1 b 0)))).
Definition ReadInt : M DataInputBuffer Z := b ← read_bytes 4; mret (s32 (ntohl (load32 b))).
Definition ReadBuffer (size : nat) : M DataInputBuffer bytes := read_bytes size.

(** A negative size throws in [assign]. *)
Definition ReadString (size : Z) : M DataInputBuffer bytes :=
  if size <? 0 then undefined else read_bytes (Z.to_nat size).

(** Negative lengths make pieces of a negative size. *)
Definition ReadKeyValue (key_len value_len : Z) : M DataInputBuffer (bytes * bytes) :=
  if ((key_len <? 0) || (value_len <? 0) || (2 ^ 31 <=? key_len + value_len))%bool then undefined
  else
    _ ← LoadAtLeast (key_len + value_len);
    d ← get;
    _ ← modify (advance (Z.to_nat (key_len + value_len)));
    mret (take (Z.to_nat key_len) (Data d), take (Z.to_nat value_len) (drop (Z.to_nat key_len) (Data d))).

Definition Seek_input (offset : Z) : M DataInputBuffer unit := λ d,
  if ((0 <=? offset) && seek_ok offset)%bool
  then Some (Some tt, ResetBuffer (mkInput (Z.to_nat offset) (m_open d) (m_buffer d) (m_buffer_size d) (m_offset d) (m_is_finished d) (m_err d)))
  else Some (None, set_err (str "Seek to offset failed") d).

(** An offset inside the buffer only moves there. *)
Definition Seek2 (offset : Z) : M DataInputBuffer unit := λ d,
  let file_offset := Z.of_nat (m_pos d) in
  let buffer_start_offset := file_offset - Z.of_nat (length (m_buffer d)) in
  if ((buffer_start_offset <=? offset) && (offset <? file_offset))%bool
  then Some (Some tt, mkInput (m_pos d) (m_open d) (m_buffer d) (m_buffer_size d) (Z.to_nat (offset - buffer_start_offset)) (m_is_finished d) (m_err d))
  else Seek_input offset d.

(** [while (m_offset + sync_size <= m_size)]: whether the marker was found. *)
Fixpoint find_sync_loop (fuel : nat) (sync : bytes) : M DataInputBuffer bool :=
  d ← get;
  if (m_offset d + length sync <=? length (m_buffer d))%nat then
    if bool_decide (take (length sync) (Data d) = sync) then _ ← modify (advance (length sync)); mret true
    else match fuel with O => undefined | S fuel => _ ← modify (advance 1); find_sync_loop fuel sync end
  else mret false.
Definition FindSync (sync : bytes) : M DataInputBuffer bool := d ← get; find_sync_loop (length (m_buffer d)) sync.

Definition DecodeVIntSize (value : Z) : Z := if -112 <=? value then 1 else if value <? -120 then -119 - value else -111 - value.
Definition IsNegativeVInt (value : Z) : bool := ((value <? -120) || ((-112 <=? value) && (value <? 0)))%bool.

(** [i = i << 8; i = i | (b & 0xFF)] in 64 bits. *)
Definition vint_bytes (b : bytes) : Z := fold_left (λ i b, s64 (Z.lor (Z.shiftl i 8) (Z.land b 0xFF))) b 0.

(** [*m_err = e] on the way out. *)
Definition or_err {A} (e : bytes) (m : M DataInputBuffer A) : M DataInputBuffer A := λ d,
  match m d with Some (None, d) => Some (None, set_err e d) | r => r end.

Definition ReadVInt : M DataInputBuffer Z :=
  first ← or_err (str "ReadVint at least size == 1") (read_bytes 1);
  let first_byte := s8 (nth 0 first 0) in
  let len := DecodeVIntSize first_byte in
  if len =? 1 then mret first_byte
  else
    b ← or_err (str "ReadVInt at least len") (read_bytes (Z.to_nat (len - 1)));
    let i := vint_bytes b in
    mret (s32 (if IsNegativeVInt first_byte then Z.lxor i (-1) else i)).

(** A length that is negative is refused. *)
Definition ReadText : M DataInputBuffer bytes :=
  length ← ReadVInt; if length <? 0 then fail else ReadString length.

(** To the end and back. *)
Definition GetFileSize_input (d : DataInputBuffer) : Z * DataInputBuffer :=
  let size := Z.of_nat (length source) in
  if seek_ok size then
    if seek_ok (Z.of_nat (m_pos d)) then (size, d)
    else (-1, mkInput (length source) (m_open d) (m_buffer d) (m_buffer_size d) (m_offset d) (m_is_finished d) (m_err d))
  else (-1, d).
End DataInputBuffer.

(** ** The reader *)

Record LocalSequenceFileReader := mkReader {
  m_data_input : DataInputBuffer;
  m_is_head_parsed : bool;
  m_decompress : bool;
  m_block_decompress : bool;
  m_sync : bytes;
  m_has_sync : bool;
  m_version : Z;
  m_key_class_name : bytes;
  m_value_class_name : bytes
}.

Definition SYNC_ESCAPE : Z := -1.
Definition SYNC_HASH_SIZE : nat := 16.
Definition HAS_SYNC_VERSION : Z := 1.
Definition HAS_COMPRESS_VERSION : Z := 2.
Definition BLOCK_COMPRESS_VERSION : Z := 4.
Definition VERSION_WITH_METADATA : Z := 6.
Definition VERSION : bytes := str "SEQ".

Section Reader.
Context {F : Source}.

(** [memory] is what [m_sync] holds before it is read. *)
Definition new_Reader (memory : bytes) : LocalSequenceFileReader :=
  mkReader new_DataInputBuffer false false false memory false (-1) [] [].

Definition set_input (d : DataInputBuffer) (r : LocalSequenceFileReader) : LocalSequenceFileReader :=
  mkReader d (m_is_head_parsed r) (m_decompress r) (m_block_decompress r) (m_sync r) (m_has_sync r) (m_version r)
    (m_key_class_name r) (m_value_class_name r).
Definition set_parsed (b : bool) (r : LocalSequenceFileReader) : LocalSequenceFileReader :=
  mkReader (m_data_input r) b (m_decompress r) (m_block_decompress r) (m_sync r) (m_has_sync r) (m_version r)
    (m_key_class_name r) (m_value_class_name r).
Definition set_version (v : Z) (r : LocalSequenceFileReader) : LocalSequenceFileReader :=
  mkReader (m_data_input r) (m_is_head_parsed r) (m_decompress r) (m_block_decompress r) (m_sync r) (m_has_sync r) v
    (m_key_class_name r) (m_value_class_name r).
Definition set_names (names : bytes * bytes) (r : LocalSequenceFileReader) : LocalSequenceFileReader :=
  mkReader (m_data_input r) (m_is_head_parsed r) (m_decompress r) (m_block_decompress r) (m_sync r) (m_has_sync r) (m_version r)
    names.1 names.2.
Definition set_compress (c b : bool) (r : LocalSequenceFileReader) : LocalSequenceFileReader :=
  mkReader (m_data_input r) (m_is_head_parsed r) c b (m_sync r) (m_has_sync r) (m_version r)
    (m_key_class_name r) (m_value_class_name r).
Definition set_sync (s : bytes) (r : LocalSequenceFileReader) : LocalSequenceFileReader :=
  mkReader (m_data_input r) (m_is_head_parsed r) (m_decompress r) (m_block_decompress r) s true (m_version r)
    (m_key_class_name r) (m_value_class_name r).

(** A call on the buffer, and a failure with its message. *)
Definition input {A} (m : M DataInputBuffer A) : M LocalSequenceFileReader A := λ r,
  match m (m_data_input r) with
  | None => None
  | Some (a, d) => Some (a, set_input d r)
  end.
Definition fail_with {A} (e : bytes) : M LocalSequenceFileReader A := λ r, Some (None, set_input (set_err e (m_data_input r)) r).
Definition input_or {A} (m : M DataInputBuffer A) (e : bytes) : M LocalSequenceFileReader A := input (or_err e m).

(** [SequenceFileUtil] *)
Definition ParseTextKeyValueClassName : M LocalSequenceFileReader (bytes * bytes) :=
  key_class_name_len ← input_or ReadVInt (str "Read KeyClassNameLen Failed");
  key_class_name ← input_or (ReadString key_class_name_len) (str "Read KeyClassName Failed");
  value_class_name_len ← input_or ReadVInt (str "Read ValueClassNameLen Failed");
  value_class_name ← input_or (ReadString value_class_name_len) (str "Read ValueClassName Failed");
  mret (key_class_name, value_class_name).

Definition ParseUTF8KeyValueClassName : M LocalSequenceFileReader (bytes * bytes) :=
  key_class_name_len ← input_or ReadShort (str "Can't load KeyClassName Len");
  key_class_name ← input_or (ReadString key_class_name_len) (str "Can't load KeyClassName");
  value_class_name_len ← input_or ReadShort (str "Can't load ValueClassName Len");
  value_class_name ← input_or (ReadString value_class_name_len) (str "Can't load ValueClassName");
  mret (key_class_name, value_class_name).

(** A pair needs two bytes at least: a file has no more pairs than bytes. *)
Fixpoint metadata_loop (fuel : nat) (num : Z) : M LocalSequenceFileReader unit :=
  if 0 <? num then
    match fuel with O => undefined | S fuel => _ ← ParseTextKeyValueClassName; metadata_loop fuel (num - 1) end
  else mret tt.
Definition ParseMetadata : M LocalSequenceFileReader unit :=
  num ← input_or ReadInt (str "ParseMetadata num Failed");
  metadata_loop (S (length source)) num.

(** The version is a [char]. *)
Definition CheckSequenceFileVersion : M LocalSequenceFileReader unit :=
  version_string ← input ReadVersion;
  if bool_decide (take 3 version_string = VERSION) then
    let version := s8 (nth 3 version_string 0) in
    _ ← modify (set_version version);
    if VERSION_WITH_METADATA <? version then fail_with (str "SequenceFileHeader Version > 6") else mret tt
  else fail_with (str "SequenceFileHeader Not SEQ").

Definition LoadKeyValueClassName : M LocalSequenceFileReader unit :=
  r ← get;
  names ← (if m_version r <=? BLOCK_COMPRESS_VERSION then ParseUTF8KeyValueClassName else ParseTextKeyValueClassName);
  modify (set_names names).

Definition LoadCompressInfo : M LocalSequenceFileReader unit :=
  r ← get;
  decompress ← (if HAS_COMPRESS_VERSION <? m_version r then c ← input ReadByte; mret (negb (c =? 0)) else mret false);
  _ ← modify (set_compress decompress (m_block_decompress r));
  block_decompress ← (if BLOCK_COMPRESS_VERSION <? m_version r then c ← input ReadByte; mret (negb (c =? 0)) else mret false);
  _ ← modify (set_compress decompress block_decompress);
  if (decompress : bool) then fail_with (str "Decompress is not supported in this parser")
  else if (block_decompress : bool) then fail_with (str "BlockDecompress is not supported in this parser")
  else mret tt.

Definition LoadMetadata : M LocalSequenceFileReader unit :=
  r ← get; if m_version r <? VERSION_WITH_METADATA then mret tt else ParseMetadata.

Definition LoadSync : M LocalSequenceFileReader unit :=
  r ← get;
  if m_version r <=? HAS_SYNC_VERSION then mret tt
  else sync ← input (ReadBuffer SYNC_HASH_SIZE); modify (set_sync sync).

Definition LoadSequenceFileHeader : M LocalSequenceFileReader unit :=
  _ ← CheckSequenceFileVersion; _ ← LoadKeyValueClassName; _ ← LoadCompressInfo; _ ← LoadMetadata; LoadSync.

(** [if (!m_is_head_parsed)], with which the calls begin. *)
Definition Init : M LocalSequenceFileReader unit :=
  r ← get;
  if m_is_head_parsed r then mret tt else _ ← LoadSequenceFileHeader; modify (set_parsed true).

Definition Close (r : LocalSequenceFileReader) : LocalSequenceFileReader := set_parsed false (set_input (Reset (m_data_input r)) r).

Definition LoadRecordLen : M LocalSequenceFileReader Z :=
  length ← input ReadInt;
  r ← get;
  if ((HAS_SYNC_VERSION <? m_version r) && m_has_sync r && (length =? SYNC_ESCAPE))%bool then
    sync_check ← input (ReadBuffer SYNC_HASH_SIZE);
    if bool_decide (m_sync r = sync_check) then input ReadInt else fail_with (str "Check Sync Failed")
  else mret length.

Definition ReadRecord : M LocalSequenceFileReader (bytes * bytes) :=
  _ ← Init;
  record_len ← LoadRecordLen;
  key_len ← input ReadInt;
  input (ReadKeyValue key_len (record_len - key_len)).

Inductive ReadRecordWithMaxSizeRetCode := READ_SUCCESS (record : bytes * bytes) | READ_FAILED | READ_TOO_LONG_MESSAGE.

(** [false] becomes a code. *)
Definition or_failed (m : M LocalSequenceFileReader ReadRecordWithMaxSizeRetCode) : M LocalSequenceFileReader ReadRecordWithMaxSizeRetCode := λ r,
  match m r with Some (None, r) => Some (Some READ_FAILED, r) | x => x end.
Definition ReadRecordWithMaxSize (max_size : Z) : M LocalSequenceFileReader ReadRecordWithMaxSizeRetCode :=
  or_failed
    (_ ← Init;
     record_len ← LoadRecordLen;
     if max_size <? record_len then mret READ_TOO_LONG_MESSAGE
     else
       key_len ← input ReadInt;
       let value_len := s32 (record_len - key_len) in
       if ((key_len <? 0) || (max_size <? key_len) || (value_len <? 0) || (max_size <? value_len))%bool then mret READ_TOO_LONG_MESSAGE
       else record ← input (ReadKeyValue key_len value_len); mret (READ_SUCCESS record)).

(** Seeking to a marker: the offset behind it. *)
Fixpoint skip_loop (fuel : nat) (sync : bytes) (returned_offset : Z) : M DataInputBuffer Z :=
  _ ← LoadAtLeast (Z.of_nat SYNC_HASH_SIZE);
  old ← get;
  found ← FindSync sync;
  d ← get;
  let offset := returned_offset + (Z.of_nat (m_offset d) - Z.of_nat (m_offset old)) in
  if (found : bool) then mret offset
  else match fuel with O => undefined | S fuel => skip_loop fuel sync offset end.

Definition SkipToSync (offset : Z) : M LocalSequenceFileReader Z :=
  _ ← Init;
  r ← get;
  input (_ ← Seek_input offset; skip_loop (S (length source)) (m_sync r) offset).

Definition Seek (offset : Z) : M LocalSequenceFileReader unit := o ← SkipToSync offset; if o =? -1 then fail else mret tt.
Definition RealSeek (offset : Z) : M LocalSequenceFileReader unit := input (Seek2 offset).
Definition Tell (r : LocalSequenceFileReader) : Z := Tell_input (m_data_input r).
Definition GetFileSize : M LocalSequenceFileReader Z := λ r,
  let '(size, d) := GetFileSize_input (m_data_input r) in Some (Some size, set_input d r).

(** [OffsetKeeper]: the last offsets pushed, at most so many. *)
Definition PushBack (keep : nat) (offset : Z) (offsets : list Z) : list Z :=
  let offsets := offsets ++ [offset] in if (length offsets =? S keep)%nat then tail offsets else offsets.

(** [while (ReadRecord(&key, &value))]: a record has eight bytes at least. *)
Fixpoint keep_loop (fuel : nat) (keep : nat) (offsets : list Z) : M LocalSequenceFileReader (list Z) := λ r,
  match fuel with
  | O => None
  | S fuel =>
      match ReadRecord r with
      | None => None
      | Some (None, r) => Some (Some offsets, r)
      | Some (Some _, r) => keep_loop fuel keep (PushBack keep (Tell r) offsets) r
      end
  end.

(** The offset is an [int] on the way. *)
Definition FindLastNthRecordOffset (try_offset n : Z) : M LocalSequenceFileReader (bool * Z) :=
  let try_offset := s32 try_offset in
  _ ← Seek try_offset;
  r ← get;
  let keep := Z.to_nat (n + 1) in
  offsets ← keep_loop (S (length source)) keep (PushBack keep (Tell r) []);
  mret (((try_offset =? 0) || (Z.of_nat (length offsets) =? n + 1))%bool, default (-1) (head offsets)).

Definition kStep : Z := 128 * 1024.

(** Further and further back from the end, until enough records follow. *)
Fixpoint tail_loop (fuel : nat) (retry_offset n : Z) : M LocalSequenceFileReader unit := λ r,
  match fuel with
  | O => None
  | S fuel =>
      let retry_offset := Z.max 0 (retry_offset - kStep) in
      match FindLastNthRecordOffset retry_offset n r with
      | None => None
      | Some (Some (true, offset), r) => input (Seek_input offset) r
      | Some (_, r) => tail_loop fuel retry_offset n r
      end
  end.
Definition SeekToTail (n : Z) : M LocalSequenceFileReader unit :=
  let n := Z.max 0 n in
  file_size ← GetFileSize;
  if file_size =? -1 then fail else tail_loop (S (length source)) file_size n.
End Reader.

(** ** The writer *)

Definition kKeyClassName : bytes := str "org.apache.hadoop.io.BytesWritable".
Definition kValueClassName : bytes := str "org.apache.hadoop.io.BytesWritable".
Definition kMaxHeaderLen : Z := 10240.
Definition kSyncInterval : Z := 100.
Definition kSyncEscape : Z := -1.

(** [m_file] with its bytes; it is NULL when closed. *)
Record LocalSequenceFileWriter := mkWriter {
  w_file : option bytes;
  w_sync : bytes;
  w_version : Z;
  w_key_class_name : bytes;
  w_value_class_name : bytes;
  m_records_written_after_sync : Z
}.

Definition big32 (i : Z) : bytes := reverse (store32 (u32 i)).
(** [htonl], copied: the bytes in network order. *)
Definition WriteInt (i : Z) : bytes := big32 i.

(** [while (tmp != 0) { tmp = tmp >> 8; len--; }] for what is not negative. *)
Fixpoint vlong_len (fuel : nat) (tmp len : Z) : Z :=
  match fuel with O => len | S fuel => if tmp =? 0 then len else vlong_len fuel (Z.shiftr tmp 8) (len - 1) end.

(** The bytes [n], ..., 1 from the top. *)
Fixpoint vlong_bytes (n : nat) (i : Z) : bytes :=
  match n with O => [] | S n => u8 (Z.shiftr i (8 * Z.of_nat n)) :: vlong_bytes n i end.

Definition WriteVLong (i : Z) : bytes :=
  if ((-112 <=? i) && (i <=? 127))%bool then [u8 i]
  else
    let '(i, len) := if i <? 0 then (Z.lxor i (-1), -120) else (i, -112) in
    let len := vlong_len 8 i len in
    u8 len :: vlong_bytes (Z.to_nat (if len <? -120 then - (len + 120) else - (len + 112))) i.

Section Writer.
Context {D : Disk} (flush_ok : bytes → bool).

Definition new_Writer (file memory : bytes) : LocalSequenceFileWriter := mkWriter (Some file) memory 0 [] [] 0.

Definition set_file (f : option bytes) (w : LocalSequenceFileWriter) : LocalSequenceFileWriter :=
  mkWriter f (w_sync w) (w_version w) (w_key_class_name w) (w_value_class_name w) (m_records_written_after_sync w).
Definition set_written (n : Z) (w : LocalSequenceFileWriter) : LocalSequenceFileWriter :=
  mkWriter (w_file w) (w_sync w) (w_version w) (w_key_class_name w) (w_value_class_name w) n.

(** A write that is short fails; [None] is a write to a closed file. *)
Definition Write (addr : bytes) (w : LocalSequenceFileWriter) : option (bool * LocalSequenceFileWriter) :=
  f ← w_file w;
  let '(n, f) := File_Write addr f in
  Some ((n =? Z.of_nat (length addr)) && flush_ok f, set_file (Some f) w)%bool.

Definition WriteSequenceFileVersion : bytes := VERSION ++ [VERSION_WITH_METADATA].
Definition WriteKeyValueClassName : bytes :=
  WriteVLong (Z.of_nat (length kKeyClassName)) ++ kKeyClassName ++
  WriteVLong (Z.of_nat (length kValueClassName)) ++ kValueClassName.
Definition WriteCompressInfo : bytes := [0; 0].
Definition WriteMetadata : bytes := [0; 0; 0; 0].
Definition WriteSync (w : LocalSequenceFileWriter) : bytes := w_sync w.
Definition WriteSyncToBuf (w : LocalSequenceFileWriter) : bytes := WriteInt kSyncEscape ++ WriteSync w.

Definition header_bytes (sync : bytes) : bytes :=
  WriteSequenceFileVersion ++ WriteKeyValueClassName ++ WriteCompressInfo ++ WriteMetadata ++ sync.
Definition WriteHeader (w : LocalSequenceFileWriter) : option (bool * LocalSequenceFileWriter) :=
  let header := header_bytes (WriteSync w) in
  let w := mkWriter (w_file w) (w_sync w) VERSION_WITH_METADATA kKeyClassName kValueClassName (m_records_written_after_sync w) in
  if Z.of_nat (length header) <=? kMaxHeaderLen then Write header w else None.

(** [rand_r] of the C library: a number and the next seed. *)
Fixpoint sync_loop (rand_r : Z → Z * Z) (n : nat) (seed : Z) : bytes :=
  match n with O => [] | S n => let '(r, seed) := rand_r seed in u8 (Z.rem r 256) :: sync_loop rand_r n seed end.
Definition GenerateSync (rand_r : Z → Z * Z) (now_and_pid : Z) (w : LocalSequenceFileWriter) : LocalSequenceFileWriter :=
  mkWriter (w_file w) (sync_loop rand_r SYNC_HASH_SIZE (u32 now_and_pid)) (w_version w) (w_key_class_name w)
    (w_value_class_name w) (m_records_written_after_sync w).

(** The header of the file that is there, read by a reader of its own. *)
Definition TryingToLoadHeader (read_count : nat → Z → Z) (memory : bytes) (w : LocalSequenceFileWriter) :
    option (bool * LocalSequenceFileWriter) :=
  f ← w_file w;
  let src := {| source := f; read_count := read_count; seek_ok := λ _, true |} in
  '(ok, reader) ← @Init src (new_Reader memory);
  match ok with
  | None => Some (false, w)
  | Some _ =>
      if (negb (m_has_sync reader) || m_decompress reader || m_block_decompress reader)%bool then Some (false, w)
      else Some (true, mkWriter (w_file w) (m_sync reader) (m_version reader) (m_key_class_name reader) (m_value_class_name reader)
                         (m_records_written_after_sync w))
  end.

(** [append] is whether the mode of the file has an [a]. *)
Definition Init_writer (append : bool) (read_count : nat → Z → Z) (memory : bytes) (rand_r : Z → Z * Z) (now_and_pid : Z)
    (w : LocalSequenceFileWriter) : option (bool * LocalSequenceFileWriter) :=
  '(loaded, w) ← (if append then TryingToLoadHeader read_count memory w else Some (false, w));
  if (loaded : bool) then Some (true, w) else WriteHeader (GenerateSync rand_r now_and_pid w).

Definition IsDefaultHeader (w : LocalSequenceFileWriter) : bool :=
  ((w_version w =? VERSION_WITH_METADATA) && bool_decide (w_key_class_name w = kKeyClassName) &&
   bool_decide (w_value_class_name w = kValueClassName))%bool.

Definition Close_writer (close_ok : bool) (w : LocalSequenceFileWriter) : bool * LocalSequenceFileWriter :=
  match w_file w with None => (true, w) | Some _ => (close_ok, set_file None w) end.

Definition record_bytes (key value : bytes) : bytes :=
  WriteInt (Z.of_nat (length key + length value)) ++ WriteInt (Z.of_nat (length key)) ++ key ++ value.

(** The sizes are [int]; a size that is not is undefined. *)
Definition WriteRecord (key value : bytes) (w : LocalSequenceFileWriter) : option (bool * LocalSequenceFileWriter) :=
  let record_size := Z.of_nat (length key) + Z.of_nat (length value) in
  let size := 8 + record_size in
  let '(data, w) :=
    if kSyncInterval <=? m_records_written_after_sync w then (WriteSyncToBuf w, set_written 0 w) else ([], w) in
  if 2 ^ 31 <=? size + Z.of_nat (length data) then None
  else
    let data := data ++ record_bytes key value in
    '(ok, w) ← Write data w;
    Some (if (ok : bool) then (true, set_written (m_records_written_after_sync w + 1) w) else (false, w)).
End Writer.

(** ** The Hadoop library *)

(** [SequenceFile::CreateWriter]: the cases of the switch fall through. *)
Inductive CompressionType := NONE | RECORD | BLOCK.
Definition compression_type_name (type : CompressionType) : bytes :=
  let none := str "NONE" in
  let block := str "BLOCK" in
  let record := str "RECORD" in
  match type with
  | NONE => let compression_type := none in let compression_type := record in let compression_type := block in none
  | RECORD => let compression_type := record in let compression_type := block in none
  | BLOCK => let compression_type := block in none
  end.
