(* ===== verification/SeqFileFacts.v ===== *)
(** * Sequence files: what was written is read

    The buffer is transparent: whatever number of bytes each call of [Read]
    gives, reading goes through the file from the offset of the buffer.  On it
    rest the theorems: the records of any number of appending sessions are
    read back, and skipping to a marker finds the first one. *)

From S2P Require Import Prelude Coding BlockHash StringPiece SSTableWriter SSTableWriterFacts SeqFile.

(** ** The buffer *)

(** A file gives what it is asked for or less, but something before its end. *)
Class GoodSource `{Source} := {
  read_some pos n : (pos < length source)%nat → 0 < n → 0 < read_count pos n <= Z.min n (Z.of_nat (length source) - Z.of_nat pos);
  read_end pos n : (length source <= pos)%nat → 0 < n → read_count pos n <= 0;
  seeks o : seek_ok o = true
}.

Section Buffer.
Context `{GoodSource}.

(** The buffer holds the bytes before the position of the file. *)
Record wf (d : DataInputBuffer) : Prop := {
  wf_open : m_open d = true;
  wf_offset : (m_offset d <= length (m_buffer d))%nat;
  wf_pos : (length (m_buffer d) <= m_pos d)%nat;
  wf_data : m_buffer d = take (length (m_buffer d)) (drop (m_pos d - length (m_buffer d)) source);
  wf_fits : Z.of_nat (length (m_buffer d)) <= m_buffer_size d;
  wf_size : 0 < m_buffer_size d < 2 ^ 31
}.

(** Where the next byte comes from, and the bytes from there on. *)
Definition at_ (d : DataInputBuffer) : nat := m_pos d - length (m_buffer d) + m_offset d.
Definition stream (d : DataInputBuffer) : bytes := drop (at_ d) source.

Lemma Data_length d : length (Data d) = (length (m_buffer d) - m_offset d)%nat.
Proof. unfold Data. apply length_drop. Qed.

Lemma Data_stream d : wf d → Data d = take (length (Data d)) (stream d).
Proof.
  intros [_ Ho Hp Hd _ _]. rewrite Data_length. unfold Data, stream, at_. rewrite Hd at 1.
  rewrite skipn_firstn_comm, drop_drop. done.
Qed.

(** The end of the data is the position of the file. *)
Lemma at_end d : wf d → (at_ d + length (Data d) = m_pos d)%nat.
Proof. intros [_ Ho Hp _ _ _]. rewrite Data_length. unfold at_. lia. Qed.

Lemma wf_advance n d : wf d → (n <= length (Data d))%nat → wf (advance n d) ∧ at_ (advance n d) = (at_ d + n)%nat.
Proof.
  intros [H1 H2 H3 H4 H5 H6] Hn. rewrite Data_length in Hn. split; [|unfold at_; cbn; lia]. split; cbn; try done. lia.
Qed.

Lemma wf_set_err e d : wf d → wf (set_err e d) ∧ at_ (set_err e d) = at_ d.
Proof. intros [H1 H2 H3 H4 H5 H6]. done. Qed.

(** The data at the start of the buffer. *)
Definition compact (d : DataInputBuffer) (size : Z) : DataInputBuffer :=
  mkInput (m_pos d) (m_open d) (Data d) size 0 (m_is_finished d) (m_err d).

Lemma wf_compact d size : wf d → m_buffer_size d <= size < 2 ^ 31 → wf (compact d size) ∧ at_ (compact d size) = at_ d ∧ Data (compact d size) = Data d.
Proof.
  intros Hd Hs. pose proof (at_end d Hd) as He. pose proof (Data_stream d Hd) as Es. pose proof Hd as [H1 H2 H3 H4 H5 H6]. pose proof (Data_length d) as El.
  split; [|split; [unfold at_ in *; cbn; lia|unfold Data; cbn; by rewrite drop_0]].
  split; cbn; try done; try lia. rewrite Es at 1. unfold stream. do 2 f_equal. lia.
Qed.

Lemma Load_ok d : wf d → Z.of_nat (length (Data d)) < m_buffer_size d → ∃ r d', LoadMoreContent d = Some (r, d') ∧
  wf d' ∧ at_ d' = at_ d ∧ m_buffer_size d' = m_buffer_size d ∧
  match r with
  | None => (length source <= m_pos d)%nat ∧ m_is_finished d' = true
  | Some _ => (m_pos d < m_pos d' <= length source)%nat ∧ (length (Data d) < length (Data d'))%nat
  end.
Proof.
  intros Hd Hlen. unfold LoadMoreContent. rewrite (wf_open d Hd).
  assert (Eb : (if (m_offset d =? 0)%nat then m_buffer d else Data d) = Data d).
  { destruct (Nat.eqb_spec (m_offset d) 0) as [E|]; [|done]. unfold Data. by rewrite E, drop_0. }
  rewrite Eb. destruct (wf_compact d (m_buffer_size d) Hd) as (Hc & Hat & Hdata); [pose proof (wf_size d Hd); lia|].
  pose proof (wf_size d Hd) as Hs. rewrite s32_small by lia.
  pose proof (at_end d Hd) as He. pose proof Hc as [H1 H2 H3 H4 H5 H6]. cbn [compact m_open m_buffer m_offset m_pos m_buffer_size] in *.
  destruct (decide (m_pos d < length source)%nat) as [Hin|Hout].
  - pose proof (read_some (m_pos d) (m_buffer_size d - Z.of_nat (length (Data d))) Hin ltac:(lia)) as Hr.
    set (n := read_count (m_pos d) _) in *. destruct (Z.leb_spec n 0); [lia|].
    assert (Hl : length (take (Z.to_nat n) (drop (m_pos d) source)) = Z.to_nat n) by (rewrite length_take, length_drop; lia).
    eexists _, _. split; [done|]. split; [|split; [unfold at_; cbn; rewrite length_app, Hl; unfold at_ in *; cbn in *; lia|]].
    + split; cbn; rewrite ?length_app, ?Hl; try done; try lia.
      replace (m_pos d + Z.to_nat n - (length (Data d) + Z.to_nat n))%nat with (m_pos d - length (Data d))%nat by lia.
      rewrite <- (take_take_drop _ (length (Data d)) (Z.to_nat n)), <- H4. f_equal. rewrite drop_drop. do 2 f_equal. lia.
    + split; [done|]. split; [cbn; lia|]. unfold Data at 2. cbn. rewrite drop_0, length_app, Hl. lia.
  - pose proof (read_end (m_pos d) (m_buffer_size d - Z.of_nat (length (Data d))) ltac:(lia) ltac:(lia)) as Hr.
    destruct (Z.leb_spec (read_count (m_pos d) (m_buffer_size d - Z.of_nat (length (Data d)))) 0); [|lia].
    eexists _, _. split; [done|]. split; [split; cbn; done|]. split; [exact Hat|]. split; [done|]. split; [lia|done].
Qed.

Lemma load_loop_ok fuel n d : wf d → 0 <= n <= m_buffer_size d → (length source - m_pos d < fuel)%nat → ∃ d', wf d' ∧ at_ d' = at_ d ∧
  load_loop fuel n d = (if (Z.to_nat n <=? length (stream d))%nat then Some (Some tt, d') else Some (None, d')) ∧
  (if (Z.to_nat n <=? length (stream d))%nat then n <= Z.of_nat (length (Data d')) else m_is_finished d' = true).
Proof.
  revert d. induction fuel as [|fuel IH]; intros d Hd Hn Hf; [lia|]. pose proof (at_end d Hd) as He.
  cbn [load_loop]. unfold get, mbind at 1, M_bind.
  assert (Hs : length (stream d) = (length source - at_ d)%nat) by (unfold stream; apply length_drop).
  destruct (Z.ltb_spec (Z.of_nat (length (Data d))) n) as [Hlt|Hge].
  - destruct (Load_ok d Hd ltac:(lia)) as (r & d1 & E & Hd1 & Hat & Hsz & Hr). unfold mbind, M_bind. rewrite E. destruct r as [[]|].
    + destruct Hr as [Hp Hl]. destruct (IH d1 Hd1) as (d' & Hd' & Hat' & E' & H'); [lia|lia|]. exists d'.
      unfold stream in *. rewrite Hat in *. by split_and!.
    + destruct Hr as [Hp Hfin]. exists d1. split; [done|]. split; [done|].
      destruct (Nat.leb_spec (Z.to_nat n) (length (stream d))); [lia|done].
  - exists d. split; [done|]. split; [done|].
    assert (Hle : (length (Data d) <= length (stream d))%nat).
    { pose proof (Data_stream d Hd) as Ed. apply (f_equal length) in Ed. rewrite length_take in Ed. lia. }
    destruct (Nat.leb_spec (Z.to_nat n) (length (stream d))); [done|lia].
Qed.

(** At least [n] bytes in the buffer, if the file has them. *)
Lemma LoadAtLeast_ok n d : wf d → 0 <= n <= 2 ^ 30 → ∃ d', wf d' ∧ at_ d' = at_ d ∧
  LoadAtLeast n d = (if (Z.to_nat n <=? length (stream d))%nat then Some (Some tt, d') else Some (None, d')) ∧
  (if (Z.to_nat n <=? length (stream d))%nat then n <= Z.of_nat (length (Data d')) else m_is_finished d' = true).
Proof.
  intros Hd Hn. unfold LoadAtLeast, grow, mbind, M_bind. pose proof (wf_size d Hd) as Hs.
  assert (Hfuel : (length source - m_pos d < S (length source))%nat) by lia.
  destruct (Z.ltb_spec (m_buffer_size d) n) as [Hlt|Hge].
  - rewrite s32_small by lia. destruct (Z.ltb_spec (Z.max n (m_buffer_size d * 2)) 0); [lia|].
    destruct (wf_compact d (Z.max n (m_buffer_size d * 2)) Hd) as (Hc & Hat & _); [lia|].
    destruct (load_loop_ok (S (length source)) n _ Hc) as (d' & Hd' & Hat' & E & H'); [cbn; lia|done|].
    exists d'. unfold stream in *. rewrite Hat in *. by split_and!.
  - apply load_loop_ok; [done|lia|done].
Qed.

(** A reading takes the bytes at the offset, or fails at the end. *)
Definition takes {A} (m : M DataInputBuffer A) (k : nat) (a : A) (o : nat) : Prop :=
  ∀ d, wf d → at_ d = o → ∃ d', m d = Some (Some a, d') ∧ wf d' ∧ at_ d' = (o + k)%nat.
Definition runs_out {A} (m : M DataInputBuffer A) (o : nat) : Prop :=
  ∀ d, wf d → at_ d = o → ∃ d', m d = Some (None, d') ∧ wf d' ∧ m_is_finished d' = true.

Lemma Data_take d n : wf d → (n <= length (Data d))%nat → take n (Data d) = take n (stream d).
Proof. intros Hd Hn. rewrite (Data_stream d Hd) at 1. rewrite take_take. f_equal. lia. Qed.

Lemma read_bytes_takes n o : Z.of_nat n <= 2 ^ 30 → (o + n <= length source)%nat → takes (read_bytes n) n (take n (drop o source)) o.
Proof.
  intros Hn Ho d Hd <-. destruct (LoadAtLeast_ok (Z.of_nat n) d Hd) as (d' & Hd' & Hat & E & Hl); [lia|].
  unfold read_bytes, mbind, M_bind. rewrite E. clear E. rewrite Nat2Z.id in *. unfold stream in *. rewrite length_drop in *.
  destruct (Nat.leb_spec n (length source - at_ d)); [|lia]. unfold get, modify, mret, M_ret.
  destruct (wf_advance n d' Hd') as [Hw Ha]; [lia|]. exists (advance n d'). split; [|split; [done|by rewrite Ha, Hat]].
  do 3 f_equal. rewrite Data_take by (done || lia). unfold stream. by rewrite Hat.
Qed.

Lemma read_bytes_out n o : Z.of_nat n <= 2 ^ 30 → (length source < o + n)%nat → (0 < n)%nat → runs_out (read_bytes n) o.
Proof.
  intros Hn Ho Hpos d Hd <-. destruct (LoadAtLeast_ok (Z.of_nat n) d Hd) as (d' & Hd' & Hat & E & Hl); [lia|].
  unfold read_bytes, mbind, M_bind. rewrite E. rewrite Nat2Z.id in *. unfold stream in *. rewrite length_drop in *.
  destruct (Nat.leb_spec n (length source - at_ d)); [lia|]. by exists d'.
Qed.

Lemma takes_bind {A B} (m : M DataInputBuffer A) (k : A → M DataInputBuffer B) n n' a b o :
  takes m n a o → takes (k a) n' b (o + n)%nat → takes (x ← m; k x) (n + n') b o.
Proof.
  intros Hm Hk d Hd Ho. destruct (Hm d Hd Ho) as (d1 & E & Hd1 & Ho1). unfold mbind, M_bind. rewrite E.
  destruct (Hk d1 Hd1 Ho1) as (d2 & E2 & Hd2 & Ho2). exists d2. split_and!; [done..|lia].
Qed.

Lemma takes_ret {A} (a : A) o : takes (mret a) 0 a o.
Proof. intros d Hd Ho. exists d. split_and!; [done..|lia]. Qed.

Lemma takes_fmap {A B} (m : M DataInputBuffer A) (f : A → B) n a b o : takes m n a o → f a = b → takes (x ← m; mret (f x)) n b o.
Proof. intros Hm <-. rewrite <- (Nat.add_0_r n). eapply takes_bind; [exact Hm|]. apply takes_ret. Qed.

Lemma takes_or_err {A} (m : M DataInputBuffer A) e n a o : takes m n a o → takes (or_err e m) n a o.
Proof. intros Hm d Hd Ho. destruct (Hm d Hd Ho) as (d' & E & Hd'). exists d'. unfold or_err. by rewrite E. Qed.

Lemma runs_out_bind {A B} (m : M DataInputBuffer A) (k : A → M DataInputBuffer B) o : runs_out m o → runs_out (x ← m; k x) o.
Proof. intros Hm d Hd Ho. destruct (Hm d Hd Ho) as (d' & E & Hd'). exists d'. unfold mbind, M_bind. by rewrite E. Qed.

(** The source at an offset. *)
Lemma source_app o p q : drop o source = p ++ q → take (length p) (drop o source) = p ∧ drop (o + length p) source = q ∧
  (p ≠ [] → (o + length p <= length source)%nat).
Proof.
  intros E. split_and!; [rewrite E; apply take_app_length|rewrite <- drop_drop, E; apply drop_app_length|].
  intros Hp. apply (f_equal length) in E. rewrite length_drop, length_app in E. destruct p; [done|]. cbn in *. lia.
Qed.

Lemma read_bytes_app p q o : Z.of_nat (length p) <= 2 ^ 30 → drop o source = p ++ q → (o <= length source)%nat →
  takes (read_bytes (length p)) (length p) p o.
Proof.
  intros Hl E Ho. destruct (source_app o p q E) as (Et & _ & Hle). rewrite <- Et at 3. apply read_bytes_takes; [done|].
  destruct p; [cbn; lia|]. by apply Hle.
Qed.

(** ** Integers *)

Lemma int_round i : - 2 ^ 31 <= i < 2 ^ 31 → s32 (ntohl (load32 (WriteInt i))) = i ∧ length (WriteInt i) = 4%nat.
Proof.
  intros Hi. unfold WriteInt, big32. assert (Hu : 0 <= u32 i < 2 ^ 32) by (apply Z.mod_pos_bound; lia).
  destruct (store32_words (u32 i) Hu) as (a & b & c & d & E & Hb & Ev). rewrite E. split; [|done]. cbn [reverse rev_append].
  change (reverse [a; b; c; d]) with [d; c; b; a]. assert (Hb' : bytes_ok [d; c; b; a]).
  { rewrite !bytes_ok_cons in *. tauto. }
  unfold ntohl. rewrite (u32_small (load32 _)).
  - rewrite store32_load32 by done. change (reverse [d; c; b; a]) with [a; b; c; d]. rewrite <- E, load32_store32 by done.
    rewrite s32_u32. by apply s32_small.
  - rewrite load32_words by done. rewrite !bytes_ok_cons in Hb'. unfold is_byte in Hb'. lia.
Qed.

Lemma WriteInt_takes i q o : - 2 ^ 31 <= i < 2 ^ 31 → drop o source = WriteInt i ++ q → (o <= length source)%nat → takes ReadInt 4 i o.
Proof.
  intros Hi E Ho. destruct (int_round i Hi) as [Ei El]. unfold ReadInt.
  eapply (takes_fmap _ (λ b, s32 (ntohl (load32 b)))); [|exact Ei]. rewrite <- El at 1 2. eapply read_bytes_app; [by rewrite El|exact E|done].
Qed.

(** ** The reader *)

Definition reader_at (r : LocalSequenceFileReader) (o : nat) : Prop := wf (m_data_input r) ∧ at_ (m_data_input r) = o.

Lemma input_takes {A} (m : M DataInputBuffer A) n a o r : takes m n a o → reader_at r o →
  ∃ d, input m r = Some (Some a, set_input d r) ∧ wf d ∧ at_ d = (o + n)%nat.
Proof. intros Hm [Hw Ho]. destruct (Hm _ Hw Ho) as (d & E & Hd). exists d. unfold input. by rewrite E. Qed.

Lemma input_out {A} (m : M DataInputBuffer A) o r : runs_out m o → reader_at r o →
  ∃ d, input m r = Some (None, set_input d r) ∧ wf d ∧ m_is_finished d = true.
Proof. intros Hm [Hw Ho]. destruct (Hm _ Hw Ho) as (d & E & Hd). exists d. unfold input. by rewrite E. Qed.

(** A reader of a header with the marker given. *)
Definition parsed (sync : bytes) (r : LocalSequenceFileReader) : Prop :=
  m_is_head_parsed r = true ∧ m_version r = 6 ∧ m_has_sync r = true ∧ m_sync r = sync ∧ m_decompress r = false ∧
  m_block_decompress r = false ∧ m_key_class_name r = kKeyClassName ∧ m_value_class_name r = kValueClassName.

Lemma new_input_wf : wf new_DataInputBuffer ∧ at_ new_DataInputBuffer = 0%nat.
Proof. split; [|done]. by split; cbn; try lia. Qed.

(** Loading leaves the data at the start of the buffer. *)
Lemma load_loop_offset fuel n d r d' : m_offset d = 0%nat → load_loop fuel n d = Some (r, d') → m_offset d' = 0%nat.
Proof.
  revert d. induction fuel as [|fuel IH]; intros d Hd; cbn [load_loop]; unfold get, mbind, M_bind; destruct (_ <? n); try done; try (by intros [= _ <-]).
  unfold LoadMoreContent. destruct (m_open d); [|done]. destruct (_ <=? 0); [by intros [= _ <-]|]. by apply IH.
Qed.

Lemma ReadVersion_takes v q : drop 0 source = v ++ q → length v = 4%nat → ∃ d, ReadVersion new_DataInputBuffer = Some (Some v, d) ∧
  wf d ∧ at_ d = 4%nat.
Proof.
  intros E Hv. destruct new_input_wf as [Hw Ha]. destruct (LoadAtLeast_ok 4 _ Hw) as (d & Hd & Hat & El & Hl); [lia|].
  unfold stream in *. rewrite Ha, E, length_app, Hv in *. destruct (Nat.leb_spec (Z.to_nat 4) (4 + length q)); [|lia].
  unfold ReadVersion, mbind, M_bind. rewrite El. unfold get, modify, mret, M_ret.
  destruct (wf_advance 4 d Hd) as [Hw' Ha']; [lia|]. exists (advance 4 d). split; [|split; [done|by rewrite Ha', Hat]].
  assert (Hoff : m_offset d = 0%nat) by (eapply load_loop_offset; [|exact El]; done).
  do 3 f_equal. assert (Eb : m_buffer d = Data d) by (unfold Data; by rewrite Hoff, drop_0).
  rewrite Eb, Data_take by (done || lia). unfold stream. rewrite Hat, E. rewrite <- Hv. apply take_app_length.
Qed.

(** ** Integers of variable length *)

Lemma vlong_len_ok k fuel tmp len : (k <= fuel)%nat → 0 <= tmp < 256 ^ Z.of_nat k → ((0 < k)%nat → 256 ^ (Z.of_nat k - 1) <= tmp) →
  vlong_len fuel tmp len = len - Z.of_nat k.
Proof.
  revert fuel tmp len. induction k as [|k IH]; intros fuel tmp len Hk Ht Hlow.
  - assert (tmp = 0) as -> by (cbn in Ht; lia). destruct fuel; cbn; lia.
  - destruct fuel as [|fuel]; [lia|]. specialize (Hlow ltac:(lia)). cbn [vlong_len]. rewrite Nat2Z.inj_succ, Z.pow_succ_r in Ht by lia.
    replace (Z.of_nat (S k) - 1) with (Z.of_nat k) in Hlow by lia. pose proof (Z.pow_pos_nonneg 256 (Z.of_nat k) ltac:(lia) ltac:(lia)).
    destruct (Z.eqb_spec tmp 0); [lia|]. rewrite Z.shiftr_div_pow2 by lia. change (2 ^ 8) with 256. rewrite IH; [lia|lia| |].
    + split; [apply Z.div_pos; lia|apply Z.div_lt_upper_bound; lia].
    + intros Hpos. apply Z.div_le_lower_bound; [lia|]. replace (256 * 256 ^ (Z.of_nat k - 1)) with (256 ^ Z.of_nat k); [done|].
      rewrite <- Z.pow_succ_r by lia. f_equal. lia.
Qed.

Lemma vlong_bytes_length k i : length (vlong_bytes k i) = k.
Proof. induction k; cbn; congruence. Qed.

Lemma vint_bytes_ok k i acc : (k <= 7)%nat → 0 <= acc → acc * 256 ^ Z.of_nat k + 256 ^ Z.of_nat k <= 2 ^ 63 →
  fold_left (λ i b, s64 (Z.lor (Z.shiftl i 8) (Z.land b 0xFF))) (vlong_bytes k i) acc = acc * 256 ^ Z.of_nat k + i mod 256 ^ Z.of_nat k.
Proof.
  revert acc. induction k as [|k IH]; intros acc Hk Ha Hb; [cbn; rewrite Z.mod_1_r; lia|]. cbn [vlong_bytes fold_left].
  rewrite Nat2Z.inj_succ, Z.pow_succ_r in * by lia. pose proof (Z.pow_pos_nonneg 256 (Z.of_nat k) ltac:(lia) ltac:(lia)) as Hp.
  set (b := u8 (Z.shiftr i (8 * Z.of_nat k))). assert (Hbb : 0 <= b < 256) by apply u8_byte.
  assert (El : Z.lor (Z.shiftl acc 8) (Z.land b 0xFF) = acc * 256 + b).
  { change 0xFF with (2 ^ 8 - 1). rewrite land_ones_mod, Z.mod_small, Z.lor_comm, lor_shiftl_add by lia. lia. }
  rewrite El, s64_small by nia. rewrite IH by nia.
  assert (Eb : b = i / 256 ^ Z.of_nat k mod 256).
  { unfold b, u8. rewrite Z.shiftr_div_pow2 by lia. rewrite Z.pow_mul_r by lia. done. }
  rewrite (Z.mul_comm 256 (256 ^ Z.of_nat k)), (Z.rem_mul_r i) by lia. rewrite <- Eb. lia.
Qed.

Lemma small_bytes i : 0 <= i < 2 ^ 31 → ∃ k, (k <= 4)%nat ∧ 0 <= i < 256 ^ Z.of_nat k ∧ ((0 < k)%nat → 256 ^ (Z.of_nat k - 1) <= i) ∧ (0 < i → (0 < k)%nat).
Proof.
  intros Hi. destruct (decide (i = 0)) as [->|]; [exists 0%nat; cbn; lia|].
  destruct (decide (i < 256)); [exists 1%nat; cbn; lia|]. destruct (decide (i < 65536)); [exists 2%nat; cbn; lia|].
  destruct (decide (i < 16777216)); [exists 3%nat; cbn; lia|exists 4%nat; cbn; lia].
Qed.

Lemma ReadVInt_takes i q o : - 2 ^ 31 <= i < 2 ^ 31 → drop o source = WriteVLong i ++ q → (o <= length source)%nat →
  takes ReadVInt (length (WriteVLong i)) i o.
Proof.
  intros Hi E Ho. unfold WriteVLong in *. destruct ((-112 <=? i) && (i <=? 127))%bool eqn:Es.
  - bool_to_prop. unfold ReadVInt. change (length [u8 i]) with (1 + 0)%nat. eapply takes_bind; [apply takes_or_err; eapply (read_bytes_app [u8 i]); [cbn; lia|exact E|done]|].
    cbn [nth]. rewrite s8_u8 by lia. unfold DecodeVIntSize. destruct (Z.leb_spec (-112) i); [|lia]. apply takes_ret.
  - set (neg := i <? 0) in *. assert (Hneg : (if neg then (Z.lxor i (-1), -120) else (i, -112)) = (if neg then - i - 1 else i, if neg then -120 else -112)).
    { destruct neg; [|done]. f_equal. rewrite Z.lxor_m1_r. unfold Z.lnot, Z.pred. lia. }
    rewrite Hneg in *. set (v := if neg then - i - 1 else i) in *. set (base := if neg then -120 else -112) in *.
    assert (Hv : 0 <= v < 2 ^ 31) by (unfold v, neg; destruct (Z.ltb_spec i 0); lia).
    destruct (small_bytes v Hv) as (k & Hk & Hkv & Hlow & Hpos). assert (Hk0 : (0 < k)%nat).
    { apply Hpos. apply andb_false_iff in Es. unfold v, neg. destruct (Z.ltb_spec i 0), Es; bool_to_prop; lia. }
    rewrite (vlong_len_ok k) in * by (done || lia). assert (Hbase : base = -120 ∧ neg = true ∨ base = -112 ∧ neg = false) by (unfold base; destruct neg; tauto).
    assert (Hn : Z.to_nat (if base - Z.of_nat k <? -120 then - (base - Z.of_nat k + 120) else - (base - Z.of_nat k + 112)) = k).
    { destruct Hbase as [[-> _]|[-> _]], (Z.ltb_spec (-120 - Z.of_nat k) (-120)), (Z.ltb_spec (-112 - Z.of_nat k) (-120)); lia. }
    rewrite Hn in *. change (length (?x :: ?l)) with (1 + length l)%nat. unfold ReadVInt.
    eapply takes_bind; [apply takes_or_err; eapply (read_bytes_app [_]); [cbn; lia|exact E|done]|].
    cbn [nth]. rewrite s8_u8 by lia.
    assert (Hd : DecodeVIntSize (base - Z.of_nat k) = Z.of_nat k + 1).
    { unfold DecodeVIntSize. destruct (Z.leb_spec (-112) (base - Z.of_nat k)), (Z.ltb_spec (base - Z.of_nat k) (-120)); lia. }
    rewrite Hd. destruct (Z.eqb_spec (Z.of_nat k + 1) 1); [lia|]. replace (Z.to_nat (Z.of_nat k + 1 - 1)) with k by lia.
    destruct (source_app o [u8 (base - Z.of_nat k)] _ E) as (_ & Eq & Hle). specialize (Hle ltac:(done)).
    rewrite <- (vlong_bytes_length k v) at 1. eapply takes_fmap; [apply takes_or_err; eapply read_bytes_app; [rewrite vlong_bytes_length; lia|exact Eq|done]|].
    cbn beta. unfold vint_bytes. rewrite vint_bytes_ok by (lia || (pose proof (Z.pow_le_mono_r 256 (Z.of_nat k) 4 ltac:(lia) ltac:(lia)); lia)).
    rewrite Z.mod_small, Z.add_0_l by done. unfold IsNegativeVInt.
    destruct Hbase as [[Eb En]|[Eb En]]; rewrite Eb; unfold v; rewrite En.
    + destruct (Z.ltb_spec (-120 - Z.of_nat k) (-120)); [|lia]. cbn [orb]. rewrite Z.lxor_m1_r. unfold Z.lnot, Z.pred. rewrite s32_small; lia.
    + destruct (Z.ltb_spec (-112 - Z.of_nat k) (-120)), (Z.leb_spec (-112) (-112 - Z.of_nat k)); try lia. cbn [orb andb]. apply s32_small. lia.
Qed.

(** ** The header *)

Lemma ReadString_takes p q o : Z.of_nat (length p) <= 2 ^ 30 → drop o source = p ++ q → (o <= length source)%nat →
  takes (ReadString (Z.of_nat (length p))) (length p) p o.
Proof.
  intros Hl E Ho. unfold ReadString. destruct (Z.ltb_spec (Z.of_nat (length p)) 0); [lia|]. rewrite Nat2Z.id. by eapply read_bytes_app.
Qed.

(** One step of a reader: a call on the buffer that takes bytes. *)
Lemma input_bind {A B} (m : M DataInputBuffer A) (k : A → M LocalSequenceFileReader B) n a o r (P : option (option B * LocalSequenceFileReader) → Prop) :
  takes m n a o → reader_at r o → (∀ d, wf d → at_ d = (o + n)%nat → P (k a (set_input d r))) → P ((x ← input m; k x) r).
Proof.
  intros Hm Hr HP. destruct (input_takes m n a o r Hm Hr) as (d & E & Hd & Ho). unfold mbind, M_bind. rewrite E. by apply HP.
Qed.

Lemma reader_set d r o : wf d → at_ d = o → reader_at (set_input d r) o.
Proof. done. Qed.

Lemma ParseText_ok k v q o r : drop o source = WriteVLong (Z.of_nat (length k)) ++ k ++ WriteVLong (Z.of_nat (length v)) ++ v ++ q →
  (o <= length source)%nat → Z.of_nat (length k) <= 2 ^ 30 → Z.of_nat (length v) <= 2 ^ 30 → reader_at r o →
  ∃ d, ParseTextKeyValueClassName r = Some (Some (k, v), set_input d r) ∧ wf d ∧ drop (at_ d) source = q ∧ (at_ d <= length source)%nat.
Proof.
  intros E Ho Hk Hv Hr.
  assert (Hne : ∀ i, WriteVLong i ≠ []) by (intros i; unfold WriteVLong; repeat case_match; done).
  destruct (source_app _ _ _ E) as (_ & E1 & L1). specialize (L1 (Hne _)).
  destruct (source_app _ _ _ E1) as (_ & E2 & _). assert (L2 : (o + length (WriteVLong (Z.of_nat (length k))) + length k <= length source)%nat).
  { apply (f_equal length) in E1. rewrite length_drop, !length_app in E1. lia. }
  destruct (source_app _ _ _ E2) as (_ & E3 & L3). specialize (L3 (Hne _)).
  destruct (source_app _ _ _ E3) as (_ & E4 & _).
  assert (L4 : (o + length (WriteVLong (Z.of_nat (length k))) + length k + length (WriteVLong (Z.of_nat (length v))) + length v <= length source)%nat).
  { apply (f_equal length) in E3. rewrite length_drop, !length_app in E3. lia. }
  unfold ParseTextKeyValueClassName, input_or.
  eapply input_bind; [apply takes_or_err; eapply (ReadVInt_takes (Z.of_nat (length k))); [lia|exact E|done]|exact Hr|]. intros d1 Hw1 Ha1.
  eapply input_bind; [apply takes_or_err; eapply (ReadString_takes k); [lia|exact E1|done]|by apply reader_set|]. intros d2 Hw2 Ha2.
  eapply input_bind; [apply takes_or_err; eapply (ReadVInt_takes (Z.of_nat (length v))); [lia|exact E2|done]|by apply reader_set|]. intros d3 Hw3 Ha3.
  eapply input_bind; [apply takes_or_err; eapply (ReadString_takes v); [lia|exact E3|done]|by apply reader_set|]. intros d4 Hw4 Ha4.
  exists d4. split; [done|]. split; [done|]. by rewrite Ha4.
Qed.

Section Header.
Context (sync body memory : bytes) (Hsync : length sync = 16%nat) (Hsource : source = header_bytes sync ++ body).

Lemma reader_Init_ok : ∃ r, Init (new_Reader memory) = Some (Some tt, r) ∧ parsed sync r ∧ wf (m_data_input r) ∧
  drop (at_ (m_data_input r)) source = body ∧ (at_ (m_data_input r) <= length source)%nat.
Proof.
  assert (E0 : drop 0 source = WriteSequenceFileVersion ++ WriteKeyValueClassName ++ WriteCompressInfo ++ WriteMetadata ++ sync ++ body).
  { rewrite drop_0, Hsource. unfold header_bytes. by rewrite <- !(assoc_L (++)). }
  assert (Hlen : length source = (4 + 70 + 2 + 4 + 16 + length body)%nat).
  { rewrite Hsource, length_app. unfold header_bytes. rewrite !length_app, Hsync. reflexivity. }
  destruct (ReadVersion_takes _ _ E0 eq_refl) as (d0 & Ev & Hw0 & Ha0).
  destruct (source_app _ _ _ E0) as (_ & E1 & _). change (0 + length WriteSequenceFileVersion)%nat with 4%nat in E1.
  unfold Init. unfold mbind at 1, M_bind at 1, get. cbn [m_is_head_parsed new_Reader].
  assert (H1 : CheckSequenceFileVersion (new_Reader memory) = Some (Some tt, set_version 6 (set_input d0 (new_Reader memory)))).
  { unfold CheckSequenceFileVersion, mbind, M_bind, input. cbn [m_data_input new_Reader]. rewrite Ev. reflexivity. }
  set (r0 := set_version 6 (set_input d0 (new_Reader memory))) in *. assert (Hr0 : reader_at r0 4) by done.
  destruct (ParseText_ok kKeyClassName kValueClassName (WriteCompressInfo ++ WriteMetadata ++ sync ++ body) 4 r0) as (d1 & E2 & Hw1 & Eq1 & L1);
    [rewrite E1; unfold WriteKeyValueClassName; by rewrite <- !(assoc_L (++))|lia|cbn; lia|cbn; lia|done|].
  assert (H2 : LoadKeyValueClassName r0 = Some (Some tt, set_names (kKeyClassName, kValueClassName) (set_input d1 r0))).
  { unfold LoadKeyValueClassName, mbind, M_bind, get. cbn [m_version r0 set_version]. change (6 <=? BLOCK_COMPRESS_VERSION) with false. cbn beta iota.
    rewrite E2. reflexivity. }
  set (r1 := set_names (kKeyClassName, kValueClassName) (set_input d1 r0)) in *. set (o1 := at_ d1) in *. assert (Hr1 : reader_at r1 o1) by done.
  destruct (source_app o1 [0] ([0] ++ WriteMetadata ++ sync ++ body) Eq1) as (_ & Eq2 & L2). specialize (L2 ltac:(done)).
  destruct (source_app _ [0] (WriteMetadata ++ sync ++ body) Eq2) as (_ & Eq3 & L3). specialize (L3 ltac:(done)).
  destruct (source_app _ WriteMetadata (sync ++ body) Eq3) as (_ & Eq4 & L4). specialize (L4 ltac:(done)).
  destruct (source_app _ sync body Eq4) as (_ & Eq5 & _). cbn [length WriteMetadata] in *.
  destruct (input_takes ReadByte 1 0 o1 r1) as (d2 & E3 & Hw2 & Ha2); [eapply (takes_fmap _ _ 1 [0]); [eapply (read_bytes_app [0]); [cbn; lia|exact Eq1|done]|done]|done|].
  destruct (input_takes ReadByte 1 0 (o1 + 1) (set_compress false (m_block_decompress r1) (set_input d2 r1))) as (d3 & E4 & Hw3 & Ha3);
    [eapply (takes_fmap _ _ 1 [0]); [eapply (read_bytes_app [0]); [cbn; lia|exact Eq2|lia]|done]|done|].
  assert (H3 : LoadCompressInfo r1 = Some (Some tt, set_compress false false (set_input d3 r1))).
  { unfold LoadCompressInfo, mbind, M_bind, get. change (m_version r1) with 6. change (HAS_COMPRESS_VERSION <? 6) with true.
    change (BLOCK_COMPRESS_VERSION <? 6) with true. cbn beta iota. rewrite E3. unfold mret, M_ret, modify. change (negb (0 =? 0)) with false. cbn beta iota. rewrite E4. reflexivity. }
  set (r2 := set_compress false false (set_input d3 r1)) in *.
  destruct (input_takes (or_err (str "ParseMetadata num Failed") ReadInt) 4 0 (o1 + 1 + 1) r2) as (d4 & E5 & Hw4 & Ha4);
    [apply takes_or_err; apply (WriteInt_takes 0 (sync ++ body)); [lia|exact Eq3|lia]|done|].
  assert (H4 : LoadMetadata r2 = Some (Some tt, set_input d4 r2)).
  { unfold LoadMetadata, mbind, M_bind, get. change (m_version r2) with 6. change (6 <? VERSION_WITH_METADATA) with false. cbn beta iota.
    unfold ParseMetadata, mbind, M_bind, input_or. cbn beta. rewrite E5. reflexivity. }
  set (r3 := set_input d4 r2) in *.
  destruct (input_takes (ReadBuffer SYNC_HASH_SIZE) 16 sync (o1 + 1 + 1 + 4) r3) as (d5 & E6 & Hw5 & Ha5);
    [unfold ReadBuffer, SYNC_HASH_SIZE; rewrite <- Hsync; eapply read_bytes_app; [rewrite Hsync; lia|exact Eq4|lia]|done|].
  assert (H5 : LoadSync r3 = Some (Some tt, set_sync sync (set_input d5 r3))).
  { unfold LoadSync, mbind, M_bind, get. change (m_version r3) with 6. change (6 <=? HAS_SYNC_VERSION) with false. cbn beta iota. rewrite E6. reflexivity. }
  exists (set_parsed true (set_sync sync (set_input d5 r3))). split; [|split; [by split_and!|split; [done|]]].
  - unfold LoadSequenceFileHeader, mbind, M_bind. by rewrite H1, H2, H3, H4, H5.
  - cbn. rewrite Ha5. split; [by rewrite <- Eq5, Hsync|].
    apply (f_equal length) in Eq4. rewrite length_drop, length_app, Hsync in Eq4. lia.
Qed.
End Header.

(** ** Records *)

(** Records with the markers between them, [c] records after the last. *)
Fixpoint body (sync : bytes) (c : Z) (rs : list (bytes * bytes)) : bytes :=
  match rs with
  | [] => []
  | (k, v) :: rs =>
      if kSyncInterval <=? c then WriteInt kSyncEscape ++ sync ++ record_bytes k v ++ body sync 1 rs
      else record_bytes k v ++ body sync (c + 1) rs
  end.

Definition small (r : bytes * bytes) : Prop := Z.of_nat (length r.1 + length r.2) <= 2 ^ 30.

Section Records.
Context (sync : bytes) (Hsync : length sync = 16%nat).

(** A reader behind the header, with the bytes ahead of it. *)
Definition ahead (r : LocalSequenceFileReader) (s : bytes) : Prop :=
  parsed sync r ∧ wf (m_data_input r) ∧ drop (at_ (m_data_input r)) source = s ∧ (at_ (m_data_input r) <= length source)%nat.

Lemma ahead_input {A} (m : M DataInputBuffer A) a p s r : ahead r (p ++ s) → (∀ o, drop o source = p ++ s → (o <= length source)%nat → takes m (length p) a o) →
  ∃ d, input m r = Some (Some a, set_input d r) ∧ ahead (set_input d r) s.
Proof.
  intros (Hp & Hw & Es & Hl) Hm. destruct (input_takes m (length p) a _ r (Hm _ Es Hl) (conj Hw eq_refl)) as (d & E & Hd & Ha).
  exists d. split; [done|]. split; [exact Hp|]. split; [done|]. cbn. rewrite Ha. split; [by eapply source_app|].
  apply (f_equal length) in Es. rewrite length_drop, length_app in Es. lia.
Qed.

Lemma Init_parsed r : parsed sync r → Init r = Some (Some tt, r).
Proof. intros (H1 & _). unfold Init, mbind, M_bind, get. by rewrite H1. Qed.

Lemma ReadKeyValue_takes k v q o : small (k, v) → drop o source = (k ++ v) ++ q → (o <= length source)%nat →
  takes (ReadKeyValue (Z.of_nat (length k)) (Z.of_nat (length v))) (length (k ++ v)) (k, v) o.
Proof.
  unfold small. cbn. intros Hs E Ho d Hd <-.
  destruct (LoadAtLeast_ok (Z.of_nat (length k) + Z.of_nat (length v)) d Hd) as (d' & Hd' & Hat & El & Hl); [lia|].
  unfold stream in *. rewrite E, !length_app in *. destruct (Nat.leb_spec (Z.to_nat (Z.of_nat (length k) + Z.of_nat (length v))) (length k + length v + length q)); [|lia].
  unfold ReadKeyValue. destruct (Z.ltb_spec (Z.of_nat (length k)) 0), (Z.ltb_spec (Z.of_nat (length v)) 0), (Z.leb_spec (2 ^ 31) (Z.of_nat (length k) + Z.of_nat (length v))); try lia.
  cbn [orb]. unfold mbind, M_bind. rewrite El. unfold get, modify, mret, M_ret. rewrite !Nat2Z.id.
  replace (Z.to_nat (Z.of_nat (length k) + Z.of_nat (length v))) with (length k + length v)%nat by lia.
  destruct (wf_advance (length k + length v) d' Hd') as [Hw Ha]; [lia|]. exists (advance (length k + length v) d').
  split; [|split; [done|by rewrite Ha, Hat]].
  assert (Et : take (length k + length v) (Data d') = k ++ v).
  { rewrite Data_take by (done || lia). unfold stream. rewrite Hat, E, <- length_app. apply take_app_length. }
  assert (E1 : take (length k) (Data d') = k).
  { rewrite <- (take_app_length k v), <- Et, take_take. f_equal. rewrite length_take. lia. }
  assert (E2 : take (length v) (drop (length k) (Data d')) = v).
  { rewrite <- (drop_app_length k v) at 2. rewrite <- Et, skipn_firstn_comm. f_equal. lia. }
  by rewrite E1, E2.
Qed.

Lemma WriteInt_length i : length (WriteInt i) = 4%nat.
Proof. unfold WriteInt, big32. by rewrite length_reverse. Qed.

(** The length, with the marker in front or not. *)
Lemma LoadRecordLen_ok (marked : bool) n s r : 0 <= n < 2 ^ 31 →
  ahead r ((if marked then WriteInt kSyncEscape ++ sync else []) ++ WriteInt n ++ s) →
  ∃ r', LoadRecordLen r = Some (Some n, r') ∧ ahead r' s.
Proof.
  intros Hn Hr.
  assert (Hint : ∀ i t q, - 2 ^ 31 <= i < 2 ^ 31 → ahead q (WriteInt i ++ t) → ∃ d, input ReadInt q = Some (Some i, set_input d q) ∧ ahead (set_input d q) t).
  { intros i t q Hi Hq. eapply ahead_input; [exact Hq|]. intros o Eo Ho. rewrite WriteInt_length. by eapply WriteInt_takes. }
  unfold LoadRecordLen, mbind, M_bind. destruct marked.
  - rewrite <- !(assoc_L (++)) in Hr. destruct (Hint kSyncEscape _ r ltac:(unfold kSyncEscape; lia) Hr) as (d1 & E1 & H1). rewrite E1. unfold get.
    pose proof H1 as ((_ & Hv & Hs & Hsy & _) & _). rewrite Hv, Hs. cbn [andb]. change (HAS_SYNC_VERSION <? 6) with true. change (kSyncEscape =? SYNC_ESCAPE) with true. cbn [andb].
    destruct (ahead_input (ReadBuffer SYNC_HASH_SIZE) sync sync (WriteInt n ++ s) _ H1) as (d2 & E2 & H2).
    { intros o Eo Ho. unfold ReadBuffer, SYNC_HASH_SIZE. rewrite <- Hsync at 1. eapply read_bytes_app; [rewrite Hsync; lia|exact Eo|done]. }
    rewrite E2. rewrite bool_decide_eq_true_2 by (cbn in Hsy |- *; exact Hsy).
    destruct (Hint n s _ ltac:(lia) H2) as (d3 & E3 & H3). eexists. split; [exact E3|exact H3].
  - cbn [app] in Hr. destruct (Hint n s r ltac:(lia) Hr) as (d1 & E1 & H1). rewrite E1. unfold get.
    assert (E : (n =? SYNC_ESCAPE) = false) by (apply Z.eqb_neq; unfold SYNC_ESCAPE; lia). rewrite E, andb_false_r. by eexists.
Qed.

Lemma ReadRecord_ok (marked : bool) k v s r : small (k, v) →
  ahead r ((if marked then WriteInt kSyncEscape ++ sync else []) ++ record_bytes k v ++ s) →
  ∃ r', ReadRecord r = Some (Some (k, v), r') ∧ ahead r' s.
Proof.
  intros Hs Hr. unfold small in Hs. cbn in Hs. unfold record_bytes in Hr. rewrite <- !(assoc_L (++)) in Hr.
  unfold ReadRecord, mbind, M_bind. rewrite Init_parsed by apply Hr.
  destruct (LoadRecordLen_ok marked (Z.of_nat (length k + length v)) (WriteInt (Z.of_nat (length k)) ++ k ++ v ++ s) r) as (r1 & -> & H1);
    [lia|exact Hr|].
  destruct (ahead_input ReadInt (Z.of_nat (length k)) _ _ _ H1) as (d2 & E2 & H2).
  { intros o Eo Ho. rewrite WriteInt_length. eapply WriteInt_takes; [lia|exact Eo|done]. }
  rewrite E2. rewrite (assoc_L (++)) in H2.
  destruct (ahead_input (ReadKeyValue (Z.of_nat (length k)) (Z.of_nat (length v))) (k, v) _ _ _ H2) as (d3 & E3 & H3).
  { intros o Eo Ho. by eapply ReadKeyValue_takes. }
  replace (Z.of_nat (length k + length v) - Z.of_nat (length k)) with (Z.of_nat (length v)) by lia. by eexists.
Qed.

(** At the end of the file a record fails. *)
Lemma ReadRecord_end r : ahead r [] → ∃ r', ReadRecord r = Some (None, r') ∧ m_is_finished (m_data_input r') = true.
Proof.
  intros (Hp & Hw & Es & Hl). unfold ReadRecord, mbind, M_bind. rewrite (Init_parsed r Hp).
  assert (Hout : runs_out (read_bytes 4) (at_ (m_data_input r))).
  { apply (f_equal length) in Es. rewrite length_drop in Es. cbn in Es. apply read_bytes_out; [cbn; lia|lia|lia]. }
  destruct (input_out ReadInt _ r (runs_out_bind (read_bytes 4) (λ b, mret (s32 (ntohl (load32 b)))) _ Hout) (conj Hw eq_refl)) as (d & E & _ & Hfin).
  unfold LoadRecordLen, mbind, M_bind. rewrite E. by eexists.
Qed.

(** [while (reader.ReadRecord(&key, &value))] *)
Fixpoint read_all (fuel : nat) : M LocalSequenceFileReader (list (bytes * bytes)) := λ r,
  match fuel with
  | O => None
  | S fuel =>
      match ReadRecord r with
      | None => None
      | Some (None, r) => Some (Some [], r)
      | Some (Some x, r) =>
          match read_all fuel r with Some (Some l, r) => Some (Some (x :: l), r) | y => y end
      end
  end.

Lemma read_body c rs rest r : Forall small rs → ahead r (body sync c rs ++ rest) →
  ∃ r', ahead r' rest ∧ ∀ fuel, read_all (length rs + fuel) r =
    match read_all fuel r' with Some (Some l, q) => Some (Some (rs ++ l), q) | y => y end.
Proof.
  intros Hs. revert c r. induction Hs as [|[k v] rs Hkv Hs IH]; intros c r Hr.
  { exists r. split; [done|]. intros fuel. cbn [length Nat.add app]. by destruct (read_all fuel r) as [[[]]|]. }
  assert (Hone : ∃ c', ahead r ((if kSyncInterval <=? c then WriteInt kSyncEscape ++ sync else []) ++ record_bytes k v ++ body sync c' rs ++ rest)).
  { cbn [body] in Hr. destruct (kSyncInterval <=? c); [exists 1|exists (c + 1)]; rewrite <- !(assoc_L (++)) in *; exact Hr. }
  destruct Hone as [c' Hone]. destruct (ReadRecord_ok _ k v _ r Hkv Hone) as (r1 & E & H1). destruct (IH c' r1 H1) as (r' & Hr' & Hread).
  exists r'. split; [done|]. intros fuel. cbn [length Nat.add read_all]. rewrite E, Hread. by destruct (read_all fuel r') as [[[]]|].
Qed.

Lemma read_sessions ss r : Forall (Forall small) ss → ahead r (concat (body sync 0 <$> ss)) →
  ∃ r', read_all (S (length (concat ss))) r = Some (Some (concat ss), r') ∧ m_is_finished (m_data_input r') = true.
Proof.
  intros Hs. revert r. induction Hs as [|rs ss Hrs Hs IH]; intros r Hr; cbn [fmap list_fmap concat] in *.
  - destruct (ReadRecord_end r Hr) as (r' & E & Hf). exists r'. split; [|done]. cbn [length read_all]. by rewrite E.
  - destruct (read_body 0 rs _ r Hrs Hr) as (r1 & H1 & Hread). destruct (IH r1 H1) as (r' & E & Hf). exists r'. split; [|done].
    rewrite length_app, <- Nat.add_succ_r, Hread. by rewrite E.
Qed.
End Records.
End Buffer.

(** ** The writer *)

Definition source_of (rc : bytes → nat → Z → Z) (f : bytes) : Source := {| source := f; read_count := rc f; seek_ok := λ _, true |}.

Section Writer.
Context `{ReliableDisk}.

Fixpoint write_all (rs : list (bytes * bytes)) (w : LocalSequenceFileWriter) : option (bool * LocalSequenceFileWriter) :=
  match rs with
  | [] => Some (true, w)
  | (k, v) :: rs => '(ok, w) ← WriteRecord (λ _, true) k v w; if (ok : bool) then write_all rs w else Some (false, w)
  end.

Lemma Write_all s f w : w_file w = Some f → Write (λ _, true) s w = Some (true, set_file (Some (f ++ s)) w).
Proof.
  intros Hf. unfold Write, File_Write. rewrite Hf. cbn [mbind option_bind]. pose proof (fwrite_all f s) as Hn.
  rewrite Nat.min_r by done. destruct (Nat.ltb_spec (length s) (length s)); [lia|]. rewrite Z.eqb_refl, firstn_all. done.
Qed.

(** One record, behind a marker when a hundred were written. *)
Lemma WriteRecord_ok k v w f : small (k, v) → length (w_sync w) = 16%nat → w_file w = Some f → 
  let marked := kSyncInterval <=? m_records_written_after_sync w in
  ∃ w', WriteRecord (λ _, true) k v w = Some (true, w') ∧ w_sync w' = w_sync w ∧
    w_file w' = Some (f ++ (if marked then WriteInt kSyncEscape ++ w_sync w else []) ++ record_bytes k v) ∧
    m_records_written_after_sync w' = (if marked then 1 else m_records_written_after_sync w + 1).
Proof.
  intros Hkv Hsync Hf. unfold small in Hkv. cbn [fst snd] in Hkv. unfold WriteRecord. cbv zeta.
  assert (Hlen : length (WriteInt kSyncEscape ++ w_sync w) = 20%nat) by (rewrite length_app, Hsync, WriteInt_length; done).
  destruct (kSyncInterval <=? m_records_written_after_sync w).
  - unfold WriteSyncToBuf, WriteSync. rewrite Hlen.
    destruct (Z.leb_spec (2 ^ 31) (8 + (Z.of_nat (length k) + Z.of_nat (length v)) + Z.of_nat 20)); [lia|].
    rewrite (Write_all _ f) by exact Hf. eexists. by split_and!.
  - change (length []) with 0%nat. destruct (Z.leb_spec (2 ^ 31) (8 + (Z.of_nat (length k) + Z.of_nat (length v)) + Z.of_nat 0)); [lia|].
    rewrite (Write_all _ f) by exact Hf. eexists. by split_and!.
Qed.

Lemma write_all_ok rs w f c : Forall small rs → length (w_sync w) = 16%nat → w_file w = Some f → m_records_written_after_sync w = c →
  ∃ w', write_all rs w = Some (true, w') ∧ w_file w' = Some (f ++ body (w_sync w) c rs).
Proof.
  intros Hs. revert w f c. induction Hs as [|[k v] rs Hkv Hs IH]; intros w f c Hsync Hf Hc; cbn [write_all body].
  { exists w. split; [done|]. by rewrite app_nil_r. }
  destruct (WriteRecord_ok k v w f Hkv Hsync Hf) as (w1 & E & Es & Ef & Ec). rewrite E. cbn [mbind option_bind].
  rewrite <- Es in Hsync. destruct (IH w1 _ _ Hsync Ef Ec) as (w' & E' & Ef'). exists w'. split; [exact E'|].
  rewrite Ef', Es, Hc. f_equal. destruct (kSyncInterval <=? c); by rewrite <- !(assoc_L (++)).
Qed.

Lemma sync_loop_length rand n seed : length (sync_loop rand n seed) = n.
Proof. revert seed. induction n as [|n IH]; intros seed; [done|]. cbn. destruct (rand seed). cbn. by rewrite IH. Qed.

Section Sessions.
Context (rc : bytes → nat → Z → Z) (Hrc : ∀ f, @GoodSource (source_of rc f)).
Context (memory : bytes) (rand_r : Z → Z * Z).

(** A session opens the file to append, writes records and closes it. *)
Definition write_session (now_and_pid : Z) (rs : list (bytes * bytes)) (f : bytes) : option bytes :=
  '(ok, w) ← Init_writer (λ _, true) true (rc f) memory rand_r now_and_pid (new_Writer f memory);
  if (ok : bool) then '(ok, w) ← write_all rs w; if (ok : bool) then w_file w else None else None.
Fixpoint write_sessions (ss : list (Z * list (bytes * bytes))) (f : bytes) : option bytes :=
  match ss with [] => Some f | (now, rs) :: ss => f ← write_session now rs f; write_sessions ss f end.

(** The first session writes the header. *)
Lemma first_session now rs : Forall small rs → ∃ sync, length sync = 16%nat ∧
  write_session now rs [] = Some (header_bytes sync ++ body sync 0 rs).
Proof.
  intros Hs. set (sync := sync_loop rand_r SYNC_HASH_SIZE (u32 now)). assert (Hsync : length sync = 16%nat) by apply sync_loop_length.
  exists sync. split; [done|]. unfold write_session, Init_writer, TryingToLoadHeader. cbn [w_file new_Writer mbind option_bind].
  change {| source := []; read_count := rc []; seek_ok := λ _, true |} with (source_of rc []).
  assert (Hinit : ∃ r, @Init (source_of rc []) (new_Reader memory) = Some (None, r)).
  { unfold Init, LoadSequenceFileHeader, CheckSequenceFileVersion, ReadVersion, input, mbind, M_bind, get. cbn [m_is_head_parsed new_Reader m_data_input].
    destruct (@new_input_wf (source_of rc [])) as [Hw Ha].
    destruct (@LoadAtLeast_ok (source_of rc []) (Hrc []) 4 _ Hw) as (d & _ & _ & E & _); [lia|]. unfold stream in E. rewrite Ha in E. cbn in E. rewrite E. by eexists. }
  destruct Hinit as [r ->]. cbn [mbind option_bind]. unfold WriteHeader, GenerateSync. cbn [w_sync WriteSync].
  fold sync. assert (Hl : length (header_bytes sync) = 96%nat) by (unfold header_bytes; rewrite !length_app, Hsync; done).
  rewrite Hl. change (Z.of_nat 96 <=? kMaxHeaderLen) with true. cbn iota.
  rewrite (Write_all _ []) by done. cbn [mbind option_bind app].
  set (w := set_file _ _). edestruct (write_all_ok rs w (header_bytes sync) 0 Hs) as (w' & E & Hw'); [exact Hsync|done|done|].
  rewrite E. cbn [mbind option_bind]. exact Hw'.
Qed.

(** A later session reads it and appends. *)
Lemma next_session now rs sync b : Forall small rs → length sync = 16%nat →
  write_session now rs (header_bytes sync ++ b) = Some (header_bytes sync ++ b ++ body sync 0 rs).
Proof.
  intros Hs Hsync. set (f := header_bytes sync ++ b). unfold write_session, Init_writer, TryingToLoadHeader. cbn [w_file new_Writer mbind option_bind].
  change {| source := f; read_count := rc f; seek_ok := λ _, true |} with (source_of rc f).
  destruct (@reader_Init_ok (source_of rc f) (Hrc f) sync b memory Hsync eq_refl) as (r & -> & (_ & _ & Hhs & Hsy & Hd & Hb & _) & _ & _ & _).
  cbn [mbind option_bind]. rewrite Hhs, Hd, Hb, Hsy. cbn [negb orb].
  set (w := mkWriter _ _ _ _ _ _). edestruct (write_all_ok rs w f 0 Hs) as (w' & E & Hw'); [exact Hsync|done|done|].
  cbn [mbind option_bind]. rewrite E. cbn [mbind option_bind]. rewrite Hw'. unfold f. f_equal. symmetry. apply (assoc_L (++)).
Qed.

Lemma next_sessions ss sync b : Forall (λ s, Forall small s.2) ss → length sync = 16%nat →
  write_sessions ss (header_bytes sync ++ b) = Some (header_bytes sync ++ b ++ concat (body sync 0 <$> ss.*2)).
Proof.
  intros Hs Hsync. revert b. induction Hs as [|[now rs] ss Hrs Hs IH]; intros b; cbn [write_sessions fmap list_fmap concat]; [by rewrite app_nil_r|].
  rewrite next_session by done. cbn [mbind option_bind]. rewrite IH. by rewrite <- (assoc_L (++)).
Qed.

End Sessions.
End Writer.

(** Two sessions over a file that gives one byte at a time. *)
#[local] Instance whole_disk : Disk := { fwrite_count _ s := length s; open_ok := true; rename_ok := true }.
#[local] Instance whole_disk_reliable : ReliableDisk.
Proof. by split. Qed.

Definition one_byte (f : bytes) (pos : nat) (n : Z) : Z := if (pos <? length f)%nat then 1 else 0.
Lemma one_byte_good f : @GoodSource (source_of one_byte f).
Proof.
  split; [| |done]; cbn; intros pos n Hp Hn; unfold one_byte.
  - destruct (Nat.ltb_spec pos (length f)); lia.
  - destruct (Nat.ltb_spec pos (length f)); lia.
Qed.
Definition demo_rand (seed : Z) : Z * Z := (seed, (seed * 5 + 3) mod 2 ^ 32).

