(* ===== verification/IntrusiveList.v ===== *)
(** * Intrusive lists

    Model of base/intrusive_list.h: lists whose links are members of the
    elements.  The nodes live in a shared store, from addresses to their two
    pointers; an element is identified with its node, a list with its head
    node.  [None] is a failed assertion or a node that does not exist.

    A store is a set of rings ([rings] below): the head of each list with its
    elements, a node that is in no list being a ring by itself.  The operations
    act on the rings as on sequences, and the rings that an operation does not
    name keep theirs. *)

From S2P Require Import Prelude.

Abbreviation loc := positive.
Record list_node := Node { prev : loc; next : loc }.
Abbreviation store := (gmap loc list_node).

(** ** Nodes *)

Definition prev_of (h : store) (n : loc) : option loc := prev <$> h !! n.
Definition next_of (h : store) (n : loc) : option loc := next <$> h !! n.

(** Assignments to the pointers of a node. *)
Definition set_prev (n p : loc) (h : store) : option store := x ← h !! n; Some (<[n := Node p (next x)]> h).
Definition set_next (n p : loc) (h : store) : option store := x ← h !! n; Some (<[n := Node (prev x) p]> h).

(** [init] also makes the node; copies of nodes are nodes of their own. *)
Definition init (n : loc) (h : store) : store := <[n := Node n n]> h.

(** [next->prev = prev; prev->next = next; init();] *)
Definition unlink (n : loc) (h : store) : option store :=
  x ← next_of h n; p ← prev_of h n;
  h ← set_prev x p h;
  p ← prev_of h n; x ← next_of h n;
  h ← set_next p x h;
  Some (init n h).

Definition is_linked (n : loc) (h : store) : option bool :=
  x ← h !! n; Some (negb (bool_decide (prev x = n)) || negb (bool_decide (next x = n)))%bool.

(** ** Lists *)

Definition new_list (head : loc) (h : store) : store := init head h.

Definition empty (head : loc) (h : store) : option bool :=
  x ← h !! head; Some (bool_decide (next x = head) && bool_decide (next x = prev x))%bool.

(** An iterator is the address of a node. *)
Definition begin (head : loc) (h : store) : option loc := next_of h head.
Definition end_ (head : loc) : loc := head.
Definition increment (i : loc) (h : store) : option loc := next_of h i.
Definition decrement (i : loc) (h : store) : option loc := prev_of h i.

(** [std::distance]: a ring has no more nodes than the store. *)
Fixpoint distance (fuel : nat) (first last : loc) (h : store) : option nat :=
  if bool_decide (first = last) then Some 0%nat
  else match fuel with O => None | S fuel => first ← increment first h; n ← distance fuel first last h; Some (S n) end.
Definition size (head : loc) (h : store) : option nat :=
  first ← begin head h; distance (base.size h) first (end_ head) h.

(** The elements an iteration visits, from the front and from the back. *)
Fixpoint walk (step : loc → store → option loc) (fuel : nat) (i last : loc) (h : store) : option (list loc) :=
  if bool_decide (i = last) then Some []
  else match fuel with O => None | S fuel => j ← step i h; l ← walk step fuel j last h; Some (i :: l) end.

(** [assert(!empty())] *)
Definition assert_not_empty (head : loc) (h : store) : option unit := b ← empty head h; if (b : bool) then None else Some tt.
Definition front (head : loc) (h : store) : option loc := _ ← assert_not_empty head h; next_of h head.
Definition back (head : loc) (h : store) : option loc := _ ← assert_not_empty head h; prev_of h head.

Definition add (node p n : loc) (h : store) : option store :=
  h ← set_prev n node h;
  h ← set_next node n h;
  h ← set_prev node p h;
  set_next p node h.

Definition push_front (element head : loc) (h : store) : option store := n ← next_of h head; add element head n h.
Definition push_back (element head : loc) (h : store) : option store := p ← prev_of h head; add element p head h.

Definition erase (n : loc) (h : store) : option store := unlink n h.
Definition pop_front (head : loc) (h : store) : option store :=
  _ ← assert_not_empty head h; n ← front head h; erase n h.
Definition pop_back (head : loc) (h : store) : option store :=
  _ ← assert_not_empty head h; n ← back head h; erase n h.

(** [for (i = begin(); i != end_iter;) erase(i++);] *)
Fixpoint clear_loop (fuel : nat) (i end_iter : loc) (h : store) : option store :=
  if bool_decide (i = end_iter) then Some h
  else match fuel with O => None | S fuel => j ← increment i h; h ← erase i h; clear_loop fuel j end_iter h end.
Definition clear (head : loc) (h : store) : option store :=
  i ← begin head h; clear_loop (base.size h) i (end_ head) h.

(** ** Rings *)

(** The nodes [l] are linked one after the other between [a] and [b]. *)
Fixpoint chain (h : store) (a : loc) (l : list loc) (b : loc) : Prop :=
  match l with
  | [] => next_of h a = Some b ∧ prev_of h b = Some a
  | x :: l => next_of h a = Some x ∧ prev_of h x = Some a ∧ chain h x l b
  end.

Definition ring_nodes (r : loc * list loc) : list loc := r.1 :: r.2.
Definition nodes (W : list (loc * list loc)) : list loc := W ≫= ring_nodes.

(** Heads with their elements, apart from one another. *)
Definition rings (h : store) (W : list (loc * list loc)) : Prop :=
  Forall (λ r, chain h r.1 r.2 r.1) W ∧ NoDup (nodes W).

#[export] Instance nodes_Permutation : Proper (Permutation ==> Permutation) nodes.
Proof. intros W W' HW. unfold nodes. by rewrite HW. Qed.

#[export] Instance rings_Permutation h : Proper (Permutation ==> iff) (rings h).
Proof. intros W W' HW. unfold rings. by rewrite HW. Qed.

Lemma chain_app h a l x m b : chain h a (l ++ x :: m) b ↔ chain h a l x ∧ chain h x m b.
Proof. revert a. induction l as [|y l IH]; intros a; cbn; [tauto|]. rewrite IH. tauto. Qed.

Lemma chain_frame h h' a l b :
  (∀ x, x ∈ a :: l → next_of h' x = next_of h x) → (∀ x, x ∈ l ++ [b] → prev_of h' x = prev_of h x) →
  chain h a l b → chain h' a l b.
Proof.
  revert a. induction l as [|y l IH]; intros a Hn Hp; cbn.
  - rewrite Hn, Hp by set_solver. done.
  - intros (E1 & E2 & Hc). rewrite Hn, Hp by set_solver. split_and!; [done..|].
    apply IH; [set_solver..|done].
Qed.

(** Both ends of a chain and its nodes are in the store. *)
Lemma chain_next h a l b x : chain h a l b → x ∈ a :: l → is_Some (h !! x).
Proof.
  revert a. induction l as [|y l IH]; intros a; cbn.
  - intros [E _] Hx. apply list_elem_of_singleton in Hx as ->. unfold next_of in E. by destruct (h !! a).
  - intros (E & _ & Hc) Hx. apply elem_of_cons in Hx as [->|Hx]; [unfold next_of in E; by destruct (h !! a)|by eapply IH].
Qed.

Lemma rings_cons h r W : rings h (r :: W) ↔ chain h r.1 r.2 r.1 ∧ NoDup (ring_nodes r) ∧
  (∀ x, x ∈ ring_nodes r → x ∉ nodes W) ∧ rings h W.
Proof.
  unfold rings. rewrite Forall_cons. change (nodes (r :: W)) with (ring_nodes r ++ nodes W). rewrite NoDup_app. naive_solver.
Qed.

(** The rings whose nodes were left alone. *)
Lemma rings_frame h h' W : (∀ x, x ∈ nodes W → h' !! x = h !! x) → rings h W → rings h' W.
Proof.
  intros Hx [Hc Hn]. split; [|done]. rewrite Forall_forall in *. intros r Hr. specialize (Hc r Hr).
  assert (Hin : ∀ x, x ∈ ring_nodes r → x ∈ nodes W) by (intros x H; apply list_elem_of_bind; by exists r).
  unfold ring_nodes in Hin. eapply chain_frame; [| |exact Hc]; intros x H; unfold next_of, prev_of; rewrite Hx; set_solver.
Qed.

(** ** Cutting and joining chains *)

Definition last_of (a : loc) (l : list loc) : loc := default a (last l).
Definition first_of (l : list loc) (b : loc) : loc := default b (head l).

Lemma last_of_cons a y l : last_of a (y :: l) = last_of y l.
Proof. unfold last_of. rewrite last_cons. by destruct (last l). Qed.

Lemma last_of_elem a l : last_of a l ∈ a :: l.
Proof. revert a. induction l as [|y l IH]; intros a; [by left|]. rewrite last_of_cons. right. apply IH. Qed.

Lemma first_of_elem l b : first_of l b ∈ l ++ [b].
Proof. destruct l; by left. Qed.

Lemma chain_ends h a l b : chain h a l b → next_of h a = Some (first_of l b) ∧ prev_of h b = Some (last_of a l).
Proof.
  revert a. induction l as [|y l IH]; intros a; cbn [chain]; [done|]. intros (E & _ & Hc). split; [done|].
  rewrite last_of_cons. by apply IH.
Qed.

(** The last link of a chain led elsewhere. *)
Lemma chain_retarget h h' a l b b' : chain h a l b → NoDup (a :: l) →
  (∀ x, x ∈ a :: l → x ≠ last_of a l → next_of h' x = next_of h x) → (∀ x, x ∈ l → prev_of h' x = prev_of h x) →
  next_of h' (last_of a l) = Some b' → prev_of h' b' = Some (last_of a l) → chain h' a l b'.
Proof.
  revert a. induction l as [|y l IH]; intros a Hc Hd Hn Hp E1 E2; cbn [chain] in *; [done|].
  rewrite last_of_cons in *. destruct Hc as (N & P & Hc). apply NoDup_cons in Hd as [Ha Hd].
  pose proof (last_of_elem y l) as Hl. rewrite Hn, Hp by (set_solver || (intros ->; set_solver)).
  split_and!; [done..|]. apply IH; try done; [intros x Hx; apply Hn; set_solver|intros x Hx; apply Hp; set_solver].
Qed.

(** A chain at a point between its nodes. *)
Lemma chain_cut h a l m b : chain h a (l ++ m) b → chain h a l (first_of m b).
Proof. destruct m as [|x m]; [by rewrite app_nil_r|]. rewrite chain_app. by intros [H _]. Qed.

(** Two chains with a node between them, or none. *)
Lemma chain_join h a l m b : chain h a l (first_of m b) →
  (∀ x m', m = x :: m' → chain h x m' b) → chain h a (l ++ m) b.
Proof. destruct m as [|x m]; cbn; intros Hl Hm; [by rewrite app_nil_r|]. apply chain_app. split; [done|]. by apply (Hm x m). Qed.

(** ** The steps on pointers *)

Lemma set_prev_ok n p h : is_Some (h !! n) → ∃ h', set_prev n p h = Some h' ∧ (∀ x, next_of h' x = next_of h x) ∧
  (∀ x, prev_of h' x = if decide (x = n) then Some p else prev_of h x) ∧ (∀ x, x ≠ n → h' !! x = h !! x) ∧ dom h' = dom h.
Proof.
  intros [y E]. unfold set_prev. rewrite E. cbn [mbind option_bind]. eexists. split; [done|]. unfold next_of, prev_of.
  split_and!; [| |intros x Hx; by rewrite lookup_insert_ne|rewrite dom_insert_lookup_L; [done|by exists y]]; intros x; destruct (decide (x = n)) as [->|Hx];
    rewrite ?lookup_insert_eq, ?lookup_insert_ne by done; rewrite ?E; done.
Qed.

Lemma set_next_ok n p h : is_Some (h !! n) → ∃ h', set_next n p h = Some h' ∧ (∀ x, prev_of h' x = prev_of h x) ∧
  (∀ x, next_of h' x = if decide (x = n) then Some p else next_of h x) ∧ (∀ x, x ≠ n → h' !! x = h !! x) ∧ dom h' = dom h.
Proof.
  intros [y E]. unfold set_next. rewrite E. cbn [mbind option_bind]. eexists. split; [done|]. unfold next_of, prev_of.
  split_and!; [| |intros x Hx; by rewrite lookup_insert_ne|rewrite dom_insert_lookup_L; [done|by exists y]]; intros x; destruct (decide (x = n)) as [->|Hx];
    rewrite ?lookup_insert_eq, ?lookup_insert_ne by done; rewrite ?E; done.
Qed.

Lemma in_dom (h h' : store) x : dom h' = dom h → is_Some (h !! x) → is_Some (h' !! x).
Proof. intros E Hx. apply elem_of_dom. rewrite E. by apply elem_of_dom. Qed.

Lemma next_in h x y : next_of h x = Some y → is_Some (h !! x).
Proof. unfold next_of. by destruct (h !! x). Qed.
Lemma prev_in h x y : prev_of h x = Some y → is_Some (h !! x).
Proof. unfold prev_of. by destruct (h !! x). Qed.

Lemma init_next n h x : next_of (init n h) x = if decide (x = n) then Some n else next_of h x.
Proof. unfold next_of, init. destruct (decide (x = n)) as [->|Hx]; by rewrite ?lookup_insert_eq, ?lookup_insert_ne by done. Qed.
Lemma init_prev n h x : prev_of (init n h) x = if decide (x = n) then Some n else prev_of h x.
Proof. unfold prev_of, init. destruct (decide (x = n)) as [->|Hx]; by rewrite ?lookup_insert_eq, ?lookup_insert_ne by done. Qed.

(** ** Taking a node out and putting one in *)

Lemma unlink_ok h a l n m b : chain h a (l ++ n :: m) b → NoDup (a :: l ++ n :: m) → b ∉ l ++ n :: m →
  ∃ h', unlink n h = Some h' ∧ chain h' a (l ++ m) b ∧ chain h' n [] n ∧
    (∀ x, x ∉ a :: b :: l ++ n :: m → h' !! x = h !! x).
Proof.
  intros Hc Hd Hb. pose proof (proj1 (chain_app _ _ _ _ _ _) Hc) as [Hl Hm].
  pose proof (chain_ends _ _ _ _ Hl) as [_ Hp]. pose proof (chain_ends _ _ _ _ Hm) as [Hx Hpb].
  pose proof (last_of_elem a l) as Hpl. pose proof (first_of_elem m b) as Hql.
  rewrite !NoDup_cons, NoDup_app, NoDup_cons in Hd. destruct Hd as (Ha & Hdl & Hlm & Hnm & Hdm).
  assert (Hdal : NoDup (a :: l)) by (apply NoDup_cons; split; [set_solver|done]).
  assert (HL : ∀ x, x ∈ a :: l → x ≠ n ∧ x ∉ m) by set_solver.
  assert (HM : ∀ x, x ∈ m ++ [b] → x ≠ n ∧ x ∉ l) by set_solver.
  remember (last_of a l) as p eqn:Ep. remember (first_of m b) as q eqn:Eq.
  destruct (HL p Hpl) as [Hpn Hpm]. destruct (HM q Hql) as [Hqn Hqnl].
  assert (Hcp : is_Some (h !! p)) by (eapply chain_next; [exact Hl|exact Hpl]).
  assert (Hcq : is_Some (h !! q)).
  { apply elem_of_app in Hql as [Hq|Hq%list_elem_of_singleton]; [eapply chain_next; [exact Hm|by right]|]. rewrite Hq. by eapply prev_in. }
  unfold unlink. rewrite Hx, Hp. cbn [mbind option_bind].
  destruct (set_prev_ok q p h Hcq) as (h1 & -> & N1 & P1 & F1 & D1). cbn [mbind option_bind].
  rewrite P1, N1, decide_False, Hp, Hx by done. cbn [mbind option_bind].
  destruct (set_next_ok p q h1 (in_dom _ _ _ D1 Hcp)) as (h2 & -> & P2 & N2 & F2 & D2). cbn [mbind option_bind].
  eexists. split; [done|].
  assert (N : ∀ x, next_of (init n h2) x = if decide (x = n) then Some n else if decide (x = p) then Some q else next_of h x).
  { intros x. by rewrite init_next, N2, N1. }
  assert (P : ∀ x, prev_of (init n h2) x = if decide (x = n) then Some n else if decide (x = q) then Some p else prev_of h x).
  { intros x. by rewrite init_prev, P2, P1. }
  split_and!.
  - apply chain_join.
    + rewrite <- Eq. apply (chain_retarget h _ a l n q Hl Hdal); rewrite <- ?Ep.
      * intros x Hxl Hne. by rewrite N, !decide_False by (done || by apply HL).
      * intros x Hxl. rewrite P, !decide_False; [done|intros ->; done|apply HL; by right].
      * by rewrite N, decide_False, decide_True.
      * by rewrite P, decide_False, decide_True.
    + intros x m' ->. cbn in Eq. subst q. cbn [chain] in Hm. destruct Hm as (_ & _ & Hm). eapply chain_frame; [..|exact Hm].
      * intros y Hy. rewrite N, !decide_False; [done|intros ->; done|apply HM; set_solver].
      * apply NoDup_cons in Hdm as [Hxm Hdm]. intros y Hy. rewrite P, !decide_False; [done|set_solver|apply HM; set_solver].
  - split; [rewrite N|rewrite P]; by rewrite decide_True.
  - clear N P. intros x Hx'. unfold init. rewrite lookup_insert_ne by set_solver. rewrite F2, F1; [done|..]; set_solver.
Qed.

Lemma add_ok h a l m b n : chain h a (l ++ m) b → chain h n [] n → NoDup (a :: n :: l ++ m) → n ≠ b → b ∉ l ++ m →
  ∃ h', add n (last_of a l) (first_of m b) h = Some h' ∧ chain h' a (l ++ n :: m) b ∧
    (∀ x, x ∉ a :: b :: l ++ n :: m → h' !! x = h !! x).
Proof.
  intros Hc Hn Hd Hnb Hb. pose proof (chain_cut _ _ _ _ _ Hc) as Hl.
  pose proof (last_of_elem a l) as Hpl. pose proof (first_of_elem m b) as Hql. pose proof (chain_ends _ _ _ _ Hl) as [Hx Hp].
  rewrite !NoDup_cons, NoDup_app in Hd. destruct Hd as (Ha & Hnl & Hdl & Hlm & Hdm).
  assert (Hdal : NoDup (a :: l)) by (apply NoDup_cons; split; [set_solver|done]).
  assert (HL : ∀ x, x ∈ a :: l → x ≠ n ∧ x ∉ m) by set_solver.
  assert (HM : ∀ x, x ∈ m ++ [b] → x ≠ n ∧ x ∉ l) by set_solver.
  remember (last_of a l) as p eqn:Ep. remember (first_of m b) as q eqn:Eq.
  destruct (HL p Hpl) as [Hpn Hpm]. destruct (HM q Hql) as [Hqn Hqnl].
  assert (Hcp : is_Some (h !! p)) by (eapply chain_next; [exact Hl|exact Hpl]).
  pose proof (prev_in _ _ _ Hp) as Hcq. pose proof (next_in _ _ _ (proj1 Hn)) as Hcn. unfold add.
  destruct (set_prev_ok q n h Hcq) as (h1 & -> & N1 & P1 & F1 & D1). cbn [mbind option_bind].
  destruct (set_next_ok n q h1 (in_dom _ _ _ D1 Hcn)) as (h2 & -> & P2 & N2 & F2 & D2). cbn [mbind option_bind]. rewrite D1 in D2.
  destruct (set_prev_ok n p h2 (in_dom _ _ _ D2 Hcn)) as (h3 & -> & N3 & P3 & F3 & D3). cbn [mbind option_bind]. rewrite D2 in D3.
  destruct (set_next_ok p n h3 (in_dom _ _ _ D3 Hcp)) as (h4 & -> & P4 & N4 & F4 & D4).
  eexists. split; [done|].
  assert (N : ∀ x, next_of h4 x = if decide (x = p) then Some n else if decide (x = n) then Some q else next_of h x).
  { intros x. by rewrite N4, N3, N2, N1. }
  assert (P : ∀ x, prev_of h4 x = if decide (x = n) then Some p else if decide (x = q) then Some n else prev_of h x).
  { intros x. by rewrite P4, P3, P2, P1. }
  split.
  - apply chain_app. split.
    + apply (chain_retarget h _ a l q n Hl Hdal); rewrite <- ?Ep.
      * intros x Hxl Hne. by rewrite N, !decide_False by (done || by apply HL).
      * intros x Hxl. rewrite P, !decide_False; [done|intros ->; done|apply HL; by right].
      * by rewrite N, decide_True.
      * by rewrite P, decide_True.
    + apply (chain_join _ n [] m b).
      * rewrite <- Eq. split; [by rewrite N, decide_False, decide_True|]. rewrite P, decide_False, decide_True; done.
      * intros x m' ->. cbn in Eq. subst q. apply chain_app in Hc as [_ Hm]. eapply chain_frame; [..|exact Hm].
        -- intros y Hy. rewrite N, !decide_False; [done|apply HM; set_solver|intros ->; done].
        -- apply NoDup_cons in Hdm as [Hxm Hdm]. intros y Hy. rewrite P, !decide_False; [done|set_solver|apply HM; set_solver].
  - clear N P. intros x Hx'. rewrite F4, F3, F2, F1; [done|..]; set_solver.
Qed.

(** ** The operations on rings *)

Lemma rings_chain h head l W : rings h ((head, l) :: W) → chain h head l head ∧ NoDup (head :: l) ∧ head ∉ l.
Proof. rewrite rings_cons. intros (Hc & Hd & _). split_and!; [done..|]. by apply NoDup_cons in Hd as [? _]. Qed.

Lemma ring_middle (head : loc) l n m : head :: l ++ n :: m ≡ₚ n :: head :: l ++ m.
Proof. rewrite <- Permutation_middle. apply Permutation_swap. Qed.

Lemma rings_erase h head l n m W : rings h ((head, l ++ n :: m) :: W) →
  ∃ h', erase n h = Some h' ∧ rings h' ((head, l ++ m) :: (n, []) :: W).
Proof.
  intros Hr. destruct (rings_chain _ _ _ _ Hr) as (Hc & Hd & Hb). rewrite rings_cons in Hr. destruct Hr as (_ & _ & Hx & Hw).
  destruct (unlink_ok h head l n m head Hc Hd Hb) as (h' & E & Hc' & Hn & Hf). exists h'. split; [exact E|].
  unfold ring_nodes in Hx. cbn [fst snd] in Hx. rewrite ring_middle, NoDup_cons in Hd. destruct Hd as (Hnl & Hd).
  assert (Hx' : ∀ x, x ∈ n :: head :: l ++ m → x ∉ nodes W) by (intros x; rewrite <- ring_middle; apply Hx).
  rewrite !rings_cons. split_and!; [exact Hc'|exact Hd| |exact Hn|by apply NoDup_singleton| |].
  - unfold ring_nodes. cbn [fst snd]. intros x Hin. change (nodes ((n, []) :: W)) with (n :: nodes W).
    apply not_elem_of_cons. split; [by intros ->|]. apply Hx'. by right.
  - intros x Hin%list_elem_of_singleton. apply Hx'. rewrite Hin. by left.
  - eapply rings_frame; [|exact Hw]. intros x Hin. apply Hf. intros [->|[->|Hin']%elem_of_cons]%elem_of_cons;
      [apply (Hx head); [by left|done]..|]. apply (Hx x); [by right|done].
Qed.

Lemma rings_add h head l m n W : rings h ((head, l ++ m) :: (n, []) :: W) →
  ∃ h', add n (last_of head l) (first_of m head) h = Some h' ∧ rings h' ((head, l ++ n :: m) :: W).
Proof.
  intros Hr. destruct (rings_chain _ _ _ _ Hr) as (Hc & Hd & Hb). rewrite !rings_cons in Hr.
  destruct Hr as (_ & _ & Hx & Hn & _ & Hnw & Hw). change (nodes ((n, []) :: W)) with (n :: nodes W) in Hx.
  unfold ring_nodes in Hx, Hnw. cbn [fst snd] in Hx, Hnw, Hn.
  assert (Hnn : n ∉ head :: l ++ m) by (intros Hin; apply (Hx n Hin); by left).
  assert (Hd' : NoDup (n :: head :: l ++ m)) by by apply NoDup_cons.
  destruct (add_ok h head l m head n Hc Hn) as (h' & E & Hc' & Hf); [|intros ->; apply Hnn; by left|done|].
  { by rewrite Permutation_swap. }
  assert (Hx' : ∀ x, x ∈ head :: l ++ n :: m → x ∉ nodes W).
  { intros x. rewrite ring_middle. intros [->|Hin]%elem_of_cons; [apply Hnw; by left|]. intros Hxw. apply (Hx x Hin). by right. }
  exists h'. split; [exact E|]. rewrite rings_cons. split_and!; [exact Hc'| |exact Hx'|].
  - unfold ring_nodes. cbn [fst snd]. by rewrite ring_middle.
  - eapply rings_frame; [|exact Hw]. intros x Hin. apply Hf. intros [->|[->|Hin']%elem_of_cons]%elem_of_cons;
      [apply (Hx' head); [by left|done]..|]. apply (Hx' x); [by right|done].
Qed.

Lemma rings_push_front h head l n W : rings h ((head, l) :: (n, []) :: W) →
  ∃ h', push_front n head h = Some h' ∧ rings h' ((head, n :: l) :: W).
Proof.
  intros Hr. unfold push_front. destruct (rings_chain _ _ _ _ Hr) as (Hc & _). rewrite (proj1 (chain_ends _ _ _ _ Hc)).
  by apply (rings_add h head [] l n W).
Qed.

Lemma rings_push_back h head l n W : rings h ((head, l) :: (n, []) :: W) →
  ∃ h', push_back n head h = Some h' ∧ rings h' ((head, l ++ [n]) :: W).
Proof.
  intros Hr. unfold push_back. destruct (rings_chain _ _ _ _ Hr) as (Hc & _). rewrite (proj2 (chain_ends _ _ _ _ Hc)).
  apply (rings_add h head l [] n W). by rewrite app_nil_r.
Qed.

(** A node that is not in the store is a ring of its own. *)
Lemma rings_init h n W : h !! n = None → rings h W → rings (init n h) ((n, []) :: W).
Proof.
  intros Hn Hr. assert (Hin : ∀ x, x ∈ nodes W → x ≠ n).
  { intros x Hx ->. destruct Hr as [Hc _]. rewrite Forall_forall in Hc. apply list_elem_of_bind in Hx as (r & Hx & Hrw).
    destruct (chain_next _ _ _ _ _ (Hc r Hrw) Hx). congruence. }
  rewrite rings_cons. split_and!.
  - split; rewrite ?init_next, ?init_prev; by rewrite decide_True.
  - by apply NoDup_singleton.
  - intros x Hx%list_elem_of_singleton Hw. cbn in Hx. by apply (Hin x).
  - eapply rings_frame; [|exact Hr]. intros x Hx. unfold init. apply lookup_insert_ne. intros ->. by apply (Hin x).
Qed.

(** ** Looking at a list *)

Lemma lookup_ends h x p n : next_of h x = Some n → prev_of h x = Some p → h !! x = Some (Node p n).
Proof. unfold next_of, prev_of. destruct (h !! x) as [[]|]; cbn; congruence. Qed.

Lemma ring_head h head l : chain h head l head → h !! head = Some (Node (last_of head l) (first_of l head)).
Proof. intros Hc. apply lookup_ends; by apply chain_ends in Hc as []. Qed.

Lemma empty_ok h head l : chain h head l head → head ∉ l → empty head h = Some (bool_decide (l = [])).
Proof.
  intros Hc Hh. unfold empty. rewrite (ring_head _ _ _ Hc). cbn [mbind option_bind next prev]. f_equal. destruct l as [|x l].
  - cbn. by rewrite !bool_decide_eq_true_2.
  - rewrite (bool_decide_eq_false_2 (x :: l = [])) by done. cbn. rewrite bool_decide_eq_false_2; [done|]. set_solver.
Qed.

Lemma walk_forward h a l b fuel : chain h a l b → b ∉ l → (length l <= fuel)%nat → walk increment fuel (first_of l b) b h = Some l.
Proof.
  revert a fuel. induction l as [|x l IH]; intros a fuel Hc Hb Hf.
  - destruct fuel; cbn; by rewrite bool_decide_eq_true_2.
  - cbn in Hf. destruct fuel as [|fuel]; [lia|]. cbn [walk]. apply not_elem_of_cons in Hb as [Hbx Hb].
    cbn in Hc. destruct Hc as (_ & _ & Hc). change (first_of (x :: l) b) with x. rewrite bool_decide_eq_false_2 by done.
    change (increment x h) with (next_of h x). rewrite (proj1 (chain_ends _ _ _ _ Hc)). cbn [mbind option_bind]. by rewrite (IH x fuel Hc Hb) by lia.
Qed.

Lemma walk_backward h a l b fuel : chain h a l b → a ∉ l → (length l <= fuel)%nat → walk decrement fuel (last_of a l) a h = Some (reverse l).
Proof.
  revert b fuel. induction l as [|x l IH] using rev_ind; intros b fuel Hc Ha Hf.
  - destruct fuel; cbn; by rewrite bool_decide_eq_true_2.
  - rewrite length_app in Hf. cbn in Hf. destruct fuel as [|fuel]; [lia|]. apply chain_app in Hc as [Hc _].
    assert (El : last_of a (l ++ [x]) = x) by (unfold last_of; by rewrite last_snoc). rewrite El. cbn [walk].
    rewrite bool_decide_eq_false_2 by set_solver. change (decrement x h) with (prev_of h x). rewrite (proj2 (chain_ends _ _ _ _ Hc)). cbn [mbind option_bind].
    rewrite (IH x fuel Hc) by (lia || set_solver). cbn. by rewrite reverse_app.
Qed.

Lemma distance_walk fuel i last h : distance fuel i last h = length <$> walk increment fuel i last h.
Proof.
  revert i. induction fuel as [|fuel IH]; intros i; cbn [distance walk]; case_bool_decide; try done.
  destruct (increment i h) as [j|]; cbn [mbind option_bind]; [|done]. rewrite IH. by destruct (walk increment fuel j last h).
Qed.

Lemma length_size (h : store) l : NoDup l → (∀ x, x ∈ l → is_Some (h !! x)) → (length l <= base.size h)%nat.
Proof.
  intros Hd Hin. rewrite <- size_dom, <- (size_list_to_set (C := gset loc)) by done. apply subseteq_size.
  intros x Hx%elem_of_list_to_set. apply elem_of_dom. by apply Hin.
Qed.

Lemma ring_size h head l : chain h head l head → NoDup (head :: l) → (length l <= base.size h)%nat.
Proof. intros Hc Hd. enough (length (head :: l) <= base.size h)%nat by (cbn in *; lia). apply length_size; [done|]. intros x Hx. by eapply chain_next. Qed.

Lemma size_ok h head l : chain h head l head → NoDup (head :: l) → size head h = Some (length l).
Proof.
  intros Hc Hd. pose proof (ring_size _ _ _ Hc Hd) as Hs. apply NoDup_cons in Hd as [Hh _]. unfold size, begin, end_.
  rewrite (proj1 (chain_ends _ _ _ _ Hc)). cbn [mbind option_bind]. by rewrite distance_walk, (walk_forward _ _ _ _ _ Hc Hh Hs).
Qed.

Lemma first_of_head l b : l ≠ [] → Some (first_of l b) = hd_error l.
Proof. by destruct l. Qed.
Lemma last_of_last a l : l ≠ [] → Some (last_of a l) = last l.
Proof. intros Hl. unfold last_of. destruct (last l) eqn:E; [done|]. by apply last_None in E. Qed.

Lemma front_ok h head l : chain h head l head → head ∉ l → front head h = hd_error l ∧ back head h = last l.
Proof.
  intros Hc Hh. unfold front, back, assert_not_empty. rewrite (empty_ok _ _ _ Hc Hh). destruct (chain_ends _ _ _ _ Hc) as [En Ep].
  destruct (decide (l = [])) as [->|Hl]; [done|]. rewrite bool_decide_eq_false_2 by done. cbn [mbind option_bind].
  by rewrite En, Ep, first_of_head, last_of_last.
Qed.

Lemma is_linked_alone h n : chain h n [] n → is_linked n h = Some false.
Proof. intros Hc. unfold is_linked. rewrite (ring_head _ _ _ Hc). cbn. by rewrite bool_decide_eq_true_2. Qed.

Lemma is_linked_in h head l n : chain h head l head → NoDup (head :: l) → n ∈ l → is_linked n h = Some true.
Proof.
  intros Hc Hd Hn. apply list_elem_of_split in Hn as (l1 & l2 & ->). apply chain_app in Hc as [_ Hc].
  destruct (chain_next _ _ _ _ n Hc) as [[p x] E]; [by left|]. unfold is_linked. rewrite E. cbn [mbind option_bind prev next].
  apply chain_ends in Hc as [En _]. unfold next_of in En. rewrite E in En. cbn in En. injection En as ->.
  assert (first_of l2 head ≠ n).
  { intros Ex. pose proof (first_of_elem l2 head) as Hx. rewrite Ex in Hx. rewrite ring_middle, NoDup_cons in Hd. set_solver. }
  by rewrite (bool_decide_eq_false_2 (first_of l2 head = n)), orb_true_r by done.
Qed.

Definition alone (l : list loc) : list (loc * list loc) := (λ n, (n, [])) <$> l.

Lemma clear_loop_ok fuel h head l W : rings h ((head, l) :: W) → (length l <= fuel)%nat →
  ∃ h', clear_loop fuel (first_of l head) head h = Some h' ∧ rings h' ((head, []) :: alone l ++ W).
Proof.
  revert fuel h W. induction l as [|n l IH]; intros fuel h W Hr Hf.
  - exists h. split; [|done]. destruct fuel; cbn; by rewrite bool_decide_eq_true_2.
  - cbn in Hf. destruct fuel as [|fuel]; [lia|]. destruct (rings_chain _ _ _ _ Hr) as (Hc & _ & Hh). cbn [clear_loop].
    change (first_of (n :: l) head) with n. rewrite bool_decide_eq_false_2 by set_solver.
    cbn in Hc. destruct Hc as (_ & _ & Hc). change (increment n h) with (next_of h n). rewrite (proj1 (chain_ends _ _ _ _ Hc)). cbn [mbind option_bind].
    destruct (rings_erase h head [] n l W Hr) as (h1 & -> & Hr1). cbn [mbind option_bind app] in *.
    destruct (IH fuel h1 ((n, []) :: W) Hr1) as (h' & E & Hr'); [lia|]. exists h'. split; [exact E|].
    cbn [alone fmap list_fmap app]. by rewrite Permutation_middle.
Qed.

(** C12: an intrusive list is the sequence of its elements.  Whatever other
    lists and nodes share the store, the size, both directions of iteration,
    the ends and the test of emptiness are those of the sequence; pushing a
    node that is in no list, erasing an element, popping and clearing change
    the sequence so and free the elements taken out, and every other list stays
    as it was; the ends of an empty list are a failed assertion. *)
Theorem intrusive_list_sequences h head l W : rings h ((head, l) :: W) →
  empty head h = Some (bool_decide (l = [])) ∧ size head h = Some (length l) ∧
  (∃ i, begin head h = Some i ∧ walk increment (length l) i (end_ head) h = Some l) ∧
  (∃ i, decrement (end_ head) h = Some i ∧ walk decrement (length l) i (end_ head) h = Some (reverse l)) ∧
  front head h = hd_error l ∧ back head h = last l ∧
  (∀ n, n ∈ l → is_linked n h = Some true) ∧
  (∃ h', clear head h = Some h' ∧ rings h' ((head, []) :: alone l ++ W)) ∧
  (∀ l1 n l2, l = l1 ++ n :: l2 → ∃ h', erase n h = Some h' ∧ rings h' ((head, l1 ++ l2) :: (n, []) :: W)) ∧
  (l = [] → pop_front head h = None ∧ pop_back head h = None) ∧
  (∀ n l', l = n :: l' → ∃ h', pop_front head h = Some h' ∧ rings h' ((head, l') :: (n, []) :: W)) ∧
  (∀ n l', l = l' ++ [n] → ∃ h', pop_back head h = Some h' ∧ rings h' ((head, l') :: (n, []) :: W)) ∧
  (∀ n W', W ≡ₚ (n, []) :: W' → is_linked n h = Some false ∧
    (∃ h', push_front n head h = Some h' ∧ rings h' ((head, n :: l) :: W')) ∧
    (∃ h', push_back n head h = Some h' ∧ rings h' ((head, l ++ [n]) :: W'))) ∧
  (∀ n, h !! n = None → rings (init n h) ((n, []) :: (head, l) :: W)).
Proof.
  intros Hr. destruct (rings_chain _ _ _ _ Hr) as (Hc & Hd & Hh). destruct (chain_ends _ _ _ _ Hc) as [En Ep].
  destruct (front_ok _ _ _ Hc Hh) as [Ef Eb]. pose proof (empty_ok _ _ _ Hc Hh) as Ee.
  assert (Hne : l ≠ [] → assert_not_empty head h = Some tt).
  { intros Hl. unfold assert_not_empty. rewrite Ee, bool_decide_eq_false_2 by done. done. }
  split_and!; [done|by apply size_ok| | |done|done|by intros n; apply (is_linked_in h head)| | | | | | |].
  - exists (first_of l head). split; [exact En|]. by apply (walk_forward h head).
  - exists (last_of head l). split; [exact Ep|]. by apply (walk_backward h head l head).
  - unfold clear, begin, end_. rewrite En. cbn [mbind option_bind]. apply clear_loop_ok; [done|]. by apply (ring_size h head).
  - intros l1 n l2 ->. by apply rings_erase.
  - intros ->. unfold pop_front, pop_back, assert_not_empty. by rewrite Ee.
  - intros n l' ->. unfold pop_front. rewrite Hne, Ef by done. by apply (rings_erase h head [] n l').
  - intros n l' ->. unfold pop_back. rewrite Hne, Eb, last_snoc by (by destruct l'). cbn [mbind option_bind].
    destruct (rings_erase h head l' n [] W Hr) as (h' & E & Hr'). rewrite app_nil_r in Hr'. by exists h'.
  - intros n W' HW. rewrite HW in Hr. split_and!; [|by apply rings_push_front|by apply rings_push_back].
    apply is_linked_alone. rewrite !rings_cons in Hr. apply Hr.
  - intros n Hn. by apply rings_init.
Qed.

(** Two lists in a store: an element of the second is erased, the first is
    iterated. *)
Definition demo_store : option store :=
  let h := foldr init ∅ [1; 2; 3; 4; 5; 6]%positive in
  h ← push_back 3 1 h; h ← push_front 4 1 h; h ← push_back 5 2 h; push_back 6 2 h.

Lemma demo_rings h : demo_store = Some h → rings h [(1, [4; 3]); (2, [5; 6])]%positive.
Proof. vm_compute. intros [= <-]. split; [repeat constructor|]. apply (bool_decide_unpack _). vm_compute. exact I. Qed.

Example intrusive_list_sequences_witness : ∃ h h', demo_store = Some h ∧ size 1 h = Some 2%nat ∧
  erase 5 h = Some h' ∧ rings h' [(2, [6]); (5, []); (1, [4; 3])]%positive.
Proof.
  destruct demo_store as [h|] eqn:E; [|vm_compute in E; discriminate].
  pose proof (demo_rings h E) as Hr. destruct (intrusive_list_sequences h 1 [4; 3] [(2, [5; 6])] Hr)%positive as (_ & Es & _).
  assert (Hr2 : rings h [(2, [5; 6]); (1, [4; 3])]%positive) by (rewrite Permutation_swap; exact Hr).
  destruct (intrusive_list_sequences h 2 [5; 6] [(1, [4; 3])] Hr2)%positive as (_ & _ & _ & _ & _ & _ & _ & _ & Herase & _).
  destruct (Herase [] 5 [6] eq_refl)%positive as (h' & Ee & Hr'). exists h, h'. split; [exact eq_refl|]. split; [exact Es|]. split; [exact Ee|exact Hr'].
Defined.
