(* ===== verification/Occurrences.v ===== *)
(** * Counting occurrences

    Elements that move between lists and the values of a map: how many times
    each occurs is linear arithmetic, which the invariants of the concurrent
    components are stated in. *)

From S2P Require Import Prelude.

Section Occurrences.
Context {X : Type} `{EqDecision X}.

Definition count (x : X) (l : list X) : nat := count_occ (decide_rel (=)) l x.

Lemma count_nil x : count x [] = 0%nat.
Proof. done. Qed.
Lemma count_app x l m : count x (l ++ m) = (count x l + count x m)%nat.
Proof. apply count_occ_app. Qed.
Lemma count_cons x y l : count x (y :: l) = ((if decide (y = x) then 1 else 0) + count x l)%nat.
Proof. unfold count. cbn. destruct (decide_rel (=) y x), (decide (y = x)); done. Qed.

Lemma count_Permutation l m : (∀ x, count x l = count x m) → l ≡ₚ m.
Proof. apply (Permutation_count_occ (decide_rel (=))). Qed.
Lemma count_NoDup l : (∀ x, (count x l <= 1)%nat) → NoDup l.
Proof. intros H. apply NoDup_ListNoDup. by apply (NoDup_count_occ (decide_rel (=))). Qed.
Lemma count_in x l : (0 < count x l)%nat ↔ x ∈ l.
Proof. unfold count. rewrite list_elem_of_In. symmetry. apply count_occ_In. Qed.

(** What the values of a map hold together. *)
Context {K : Type} `{Countable K} {A : Type}.
Definition total (f : A → list X) (m : gmap K A) : list X := map_to_list m ≫= λ p, f p.2.

Lemma count_bind x (f : K * A → list X) l m : l ≡ₚ m → count x (l ≫= f) = count x (m ≫= f).
Proof. intros Hp. unfold count. apply Permutation_count_occ. by rewrite Hp. Qed.

Lemma count_total_delete x f (m : gmap K A) k a : m !! k = Some a → count x (total f m) = (count x (f a) + count x (total f (delete k m)))%nat.
Proof.
  intros E. unfold total. rewrite (count_bind x _ _ ((k, a) :: map_to_list (delete k m))) by by rewrite map_to_list_delete.
  by rewrite bind_cons, count_app.
Qed.

Lemma count_total_insert x f (m : gmap K A) k a : count x (total f (<[k := a]> m)) = (count x (f a) + count x (total f (delete k m)))%nat.
Proof. rewrite (count_total_delete x f _ k a) by apply lookup_insert_eq. by rewrite delete_insert_eq. Qed.

Lemma total_delete_None f (m : gmap K A) k : m !! k = None → total f (delete k m) = total f m.
Proof. intros E. by rewrite delete_id. Qed.

Lemma total_empty f : total f (∅ : gmap K A) = [].
Proof. done. Qed.

Lemma count_total_mono x f g (m : gmap K A) : (∀ a, (count x (f a) <= count x (g a))%nat) → (count x (total f m) <= count x (total g m))%nat.
Proof.
  intros Hfg. unfold total. induction (map_to_list m) as [|[k a] l IH]; [done|]. rewrite !bind_cons, !count_app. specialize (Hfg a). cbn. lia.
Qed.

Lemma count_total_le x f (m : gmap K A) k a : m !! k = Some a → (count x (f a) <= count x (total f m))%nat.
Proof. intros E. rewrite (count_total_delete x f m k a E). lia. Qed.
End Occurrences.

#[global] Arguments count {_ _} _ _ : simpl never.
#[global] Arguments total {_ _ _ _ _} _ _ : simpl never.

Lemma count_filter_ne {X} `{EqDecision X} (x y : X) l : count x (filter (λ n, n ≠ y) l) = if decide (x = y) then 0%nat else count x l.
Proof.
  induction l as [|z l IH]; [by destruct (decide (x = y))|]. rewrite filter_cons. destruct (decide (z ≠ y)) as [Hz|Hz]; rewrite !count_cons, ?IH;
    repeat case_decide; subst; try done; by destruct Hz.
Qed.

(** How many values of a map are so. *)
Definition ones (b : bool) : list unit := if b then [tt] else [].
Definition number {K A} `{Countable K} (f : A → bool) (m : gmap K A) : nat := count tt (total (λ a, ones (f a)) m).

Lemma number_delete {K A} `{Countable K} f (m : gmap K A) k a : m !! k = Some a → number f m = ((if f a then 1 else 0) + number f (delete k m))%nat.
Proof. intros E. unfold number. rewrite (count_total_delete _ _ m k a E). by destruct (f a). Qed.
Lemma number_insert {K A} `{Countable K} f (m : gmap K A) k a : number f (<[k := a]> m) = ((if f a then 1 else 0) + number f (delete k m))%nat.
Proof. unfold number. rewrite count_total_insert. by destruct (f a). Qed.
Lemma number_ext {K A} `{Countable K} (f g : A → bool) (m : gmap K A) : (∀ k a, m !! k = Some a → f a = g a) → number f m = number g m.
Proof.
  intros E. unfold number, total. assert (Hl : ∀ p, p ∈ map_to_list m → f p.2 = g p.2).
  { intros [k a] Hp%elem_of_map_to_list. by eapply E. }
  induction (map_to_list m) as [|p l IH]; [done|]. rewrite !bind_cons, !count_app, Hl by by left. f_equal. apply IH. intros q Hq. apply Hl. by right.
Qed.
Lemma number_fmap {K A} `{Countable K} (f : A → bool) g (m : gmap K A) : number f (g <$> m) = number (λ a, f (g a)) m.
Proof. unfold number, total. rewrite map_to_list_fmap. induction (map_to_list m) as [|p l IH]; [done|]. rewrite fmap_cons, !bind_cons, !count_app, IH. done. Qed.
Lemma number_0 {K A} `{Countable K} (f : A → bool) (m : gmap K A) : number f m = 0%nat ↔ map_Forall (λ _ a, f a = false) m.
Proof.
  split.
  - intros E k a Ha. rewrite (number_delete f m k a Ha) in E. by destruct (f a).
  - intros Hf. rewrite (number_ext f (λ _, false)) by exact Hf. unfold number, total. induction (map_to_list m) as [|p l IH]; [done|]. by rewrite bind_cons.
Qed.
#[global] Arguments number {_ _ _ _} _ _ : simpl never.

Create Rewrite HintDb counts.
#[export] Hint Rewrite @count_nil @count_app @count_cons @fmap_app @fmap_cons @fmap_nil @bind_app @bind_cons
  @count_total_insert @number_insert @app_nil_r @length_app : counts.
