(* ===== verification/ThreadPool.v ===== *)
(** * The thread pool

    Model of system/threading/thread_pool: tasks in a queue, run by threads
    that are started when tasks come and leave when they wait too long.

    The pool is shared by its threads and by the threads that call it.  A step
    of one of them is what it does between two points where the others can see
    it: one critical section of [m_mutex_task], one read or write of an atomic
    counter, one operation of an event; the section of [m_mutex_thread] that
    starts or retires a thread is several steps, in which it is locked.  A run
    is any sequence of steps of any threads, each named by an [event].

    The four intrusive lists are sequences, as [IntrusiveList] proves them to
    be.  [None] is a step that cannot be made: a lock that is held, a [Join] of
    a thread that still runs, a failed CHECK, a thread that is not there.
    Memory that [new] gives is not in use, and the counters do not overflow. *)

From S2P Require Import Prelude.

(** ** Tasks and threads *)

(** A closure or a function is a number. *)
Record TaskNode := mkTask { address : positive; callback : option nat; function : option nat }.

(** [Task::Run]: what it calls. *)
Definition Task_Run (t : TaskNode) : list nat :=
  match callback t with
  | Some c => [c]
  | None => match function t with Some f => [f] | None => [] end
  end.

(** What [m_mutex_task] guards, and the next address that [new] gives. *)
Record Tasks := mkTasks {
  m_pending_tasks : list TaskNode;
  m_completed_tasks : list TaskNode;
  m_pending_task_num : Z;
  new_task : positive
}.

(** What [m_mutex_thread] guards, whether it is locked, and the counters. *)
Record Threads := mkThreads {
  m_working_threads : list positive;
  m_idle_threads : list positive;
  m_cur_thread_num : Z;
  m_cur_busy_thread_num : Z;
  m_mutex_thread : bool;
  new_thread : positive
}.

Record ThreadPool := mkPool {
  tasks : Tasks;
  threads : Threads;
  m_min_thread_num : Z;
  m_max_thread_num : Z;
  m_event_new_task : bool;
  m_event_relase_all_task : bool;
  m_exited : bool
}.

(** The constructor; a negative minimum fails its CHECK. *)
Definition new_ThreadPool (min_thread_num max_thread_num : Z) : option ThreadPool :=
  if min_thread_num <? 0 then None
  else
    let max_thread_num := if max_thread_num <? 0 then min_thread_num + 1 else max_thread_num in
    let max_thread_num := if max_thread_num <? min_thread_num then min_thread_num else max_thread_num in
    Some (mkPool (mkTasks [] [] 0 1) (mkThreads [] [] 0 0 false 1) min_thread_num max_thread_num false false false).

Definition set_tasks (t : Tasks) (p : ThreadPool) : ThreadPool :=
  mkPool t (threads p) (m_min_thread_num p) (m_max_thread_num p) (m_event_new_task p) (m_event_relase_all_task p) (m_exited p).
Definition set_threads (t : Threads) (p : ThreadPool) : ThreadPool :=
  mkPool (tasks p) t (m_min_thread_num p) (m_max_thread_num p) (m_event_new_task p) (m_event_relase_all_task p) (m_exited p).
Definition set_events (new_task relase_all_task : bool) (p : ThreadPool) : ThreadPool :=
  mkPool (tasks p) (threads p) (m_min_thread_num p) (m_max_thread_num p) new_task relase_all_task (m_exited p).
Definition set_exited (p : ThreadPool) : ThreadPool :=
  mkPool (tasks p) (threads p) (m_min_thread_num p) (m_max_thread_num p) (m_event_new_task p) (m_event_relase_all_task p) true.

Definition set_cur (n : Z) (t : Threads) : Threads :=
  mkThreads (m_working_threads t) (m_idle_threads t) n (m_cur_busy_thread_num t) (m_mutex_thread t) (new_thread t).
Definition set_busy (n : Z) (t : Threads) : Threads :=
  mkThreads (m_working_threads t) (m_idle_threads t) (m_cur_thread_num t) n (m_mutex_thread t) (new_thread t).
Definition set_lists (working idle : list positive) (t : Threads) : Threads :=
  mkThreads working idle (m_cur_thread_num t) (m_cur_busy_thread_num t) (m_mutex_thread t) (new_thread t).
Definition unlock (t : Threads) : Threads :=
  mkThreads (m_working_threads t) (m_idle_threads t) (m_cur_thread_num t) (m_cur_busy_thread_num t) false (new_thread t).
Definition lock (t : Threads) : option Threads :=
  if m_mutex_thread t then None
  else Some (mkThreads (m_working_threads t) (m_idle_threads t) (m_cur_thread_num t) (m_cur_busy_thread_num t) true (new_thread t)).

(** ** The critical sections of the tasks *)

Definition AddPendingTask (task_node : TaskNode) (is_priority : bool) (t : Tasks) : Tasks :=
  mkTasks (if is_priority then task_node :: m_pending_tasks t else m_pending_tasks t ++ [task_node])
    (m_completed_tasks t) (m_pending_task_num t + 1) (new_task t).

Definition AddCompleteTask (task_node : TaskNode) (t : Tasks) : Tasks :=
  mkTasks (m_pending_tasks t) (m_completed_tasks t ++ [task_node]) (m_pending_task_num t) (new_task t).

Definition ReleaseAllCompleteTasks (t : Tasks) : Tasks :=
  mkTasks (m_pending_tasks t) [] (m_pending_task_num t) (new_task t).

(** The tasks released, and what is left. *)
Definition ReleaseAllPendingTasks (t : Tasks) : list TaskNode * Tasks :=
  (m_pending_tasks t,
   mkTasks [] (m_completed_tasks t) (m_pending_task_num t - Z.of_nat (length (m_pending_tasks t))) (new_task t)).

Definition PickPendingTask (t : Tasks) : option TaskNode * Tasks :=
  match m_pending_tasks t with
  | [] => (None, t)
  | task_node :: rest => (Some task_node, mkTasks rest (m_completed_tasks t) (m_pending_task_num t - 1) (new_task t))
  end.

(** A node to use again, or a new one. *)
Definition PickCompleteTask (t : Tasks) : TaskNode * Tasks :=
  match m_completed_tasks t with
  | [] => (mkTask (new_task t) None None, mkTasks (m_pending_tasks t) [] (m_pending_task_num t) (Pos.succ (new_task t)))
  | task_node :: rest => (task_node, mkTasks (m_pending_tasks t) rest (m_pending_task_num t) (new_task t))
  end.

(** ** The threads of the pool *)

(** Where a thread of the pool is, in [ThreadRunner] and [ThreadRuntine]. *)
Inductive worker :=
  | Starting              (* m_cur_busy_thread_num++ *)
  | Looping               (* while (!m_exited) *)
  | Picking               (* PickPendingTask() *)
  | Running (t : TaskNode)
  | Completing (t : TaskNode)
  | NoTask                (* m_cur_busy_thread_num-- *)
  | Waiting               (* m_event_new_task.TimedWait *)
  | CheckPending          (* m_pending_tasks.empty() *)
  | CheckThreads          (* m_cur_thread_num > m_min_thread_num *)
  | Woken                 (* m_cur_busy_thread_num++ *)
  | Leaving               (* MutexLocker, the lists *)
  | LeavingBusy           (* m_cur_busy_thread_num-- *)
  | LeavingCur            (* m_cur_thread_num-- *)
  | LeavingSet            (* if (m_cur_thread_num == 0), and unlocked *)
  | Finished.

(** A step of a thread: where it is then, the pool, and what it has run. *)
Definition worker_step (me : positive) (w : worker) (p : ThreadPool) : option (worker * ThreadPool * list nat) :=
  let t := threads p in
  match w with
  | Starting => Some (Looping, set_threads (set_busy (m_cur_busy_thread_num t + 1) t) p, [])
  | Looping => Some (if m_exited p then Leaving else Picking, p, [])
  | Picking =>
      let '(task_node, tasks) := PickPendingTask (tasks p) in
      Some (match task_node with Some task_node => Running task_node | None => NoTask end, set_tasks tasks p, [])
  | Running task_node => Some (Completing task_node, p, Task_Run task_node)
  | Completing task_node => Some (Looping, set_tasks (AddCompleteTask task_node (tasks p)) p, [])
  | NoTask => Some (Waiting, set_threads (set_busy (m_cur_busy_thread_num t - 1) t) p, [])
  | Waiting =>
      if m_event_new_task p then Some (Woken, set_events false (m_event_relase_all_task p) p, [])
      else Some (CheckPending, p, [])
  | CheckPending => Some (if bool_decide (m_pending_tasks (tasks p) = []) then CheckThreads else Woken, p, [])
  | CheckThreads => Some (if m_min_thread_num p <? m_cur_thread_num t then Leaving else Woken, p, [])
  | Woken => Some (Looping, set_threads (set_busy (m_cur_busy_thread_num t + 1) t) p, [])
  | Leaving =>
      t ← lock t;
      Some (LeavingBusy, set_threads (set_lists (filter (λ n, n ≠ me) (m_working_threads t)) (m_idle_threads t ++ [me]) t) p, [])
  | LeavingBusy => Some (LeavingCur, set_threads (set_busy (m_cur_busy_thread_num t - 1) t) p, [])
  | LeavingCur => Some (LeavingSet, set_threads (set_cur (m_cur_thread_num t - 1) t) p, [])
  | LeavingSet =>
      Some (Finished, set_threads (unlock t)
              (if m_cur_thread_num t =? 0 then set_events (m_event_new_task p) true p else p), [])
  | Finished => None
  end.

(** ** The callers *)

(** Where a caller is: in [AddTaskInternal] with [NeedNewThread] and
    [AddThreadNodeToList], or in [Terminate]. *)
Inductive caller :=
  | Checking (is_priority : bool) (callback function : option nat)
  | PickingNode (is_priority : bool) (callback function : option nat)
  | AddingPending (is_priority : bool) (task_node : TaskNode)
  | NeedMax                 (* m_cur_thread_num >= m_max_thread_num *)
  | NeedMin                 (* m_cur_thread_num < m_min_thread_num *)
  | NeedBusy                (* m_cur_busy_thread_num, to compare *)
  | NeedCur (busy : Z)      (* with m_cur_thread_num *)
  | Creating                (* MutexLocker, the lists *)
  | Joining (node : positive)
  | Working (node : positive)
  | Counting (node : positive)
  | StartingThread (node : positive)
  | SettingEvent
  | TerminateStart (is_wait : bool)
  | TerminateWait           (* while (m_pending_task_num > 0) *)
  | TerminateExit
  | TerminateLoop           (* while (m_cur_thread_num > 0) *)
  | TerminateSet (i : Z)    (* i < m_cur_thread_num *)
  | TerminateTimedWait
  | ReleasingComplete
  | ReleasingPending
  | TerminateLock
  | TerminateJoin.

Definition has_finished (ws : gmap positive worker) (node : positive) : bool :=
  match ws !! node with Some Finished => true | _ => false end.

(** A step of a caller: where it is then ([None] has returned), the pool, its
    threads and the tasks it has released. *)
Definition caller_step (c : caller) (p : ThreadPool) (ws : gmap positive worker) :
    option (option caller * ThreadPool * gmap positive worker * list TaskNode) :=
  let t := threads p in
  match c with
  | Checking is_priority callback function =>
      if m_exited p then None else Some (Some (PickingNode is_priority callback function), p, ws, [])
  | PickingNode is_priority callback function =>
      let '(task_node, tasks) := PickCompleteTask (tasks p) in
      Some (Some (AddingPending is_priority (mkTask (address task_node) callback function)), set_tasks tasks p, ws, [])
  | AddingPending is_priority task_node =>
      Some (Some NeedMax, set_tasks (AddPendingTask task_node is_priority (tasks p)) p, ws, [])
  | NeedMax => Some (Some (if m_max_thread_num p <=? m_cur_thread_num t then SettingEvent else NeedMin), p, ws, [])
  | NeedMin => Some (Some (if m_cur_thread_num t <? m_min_thread_num p then Creating else NeedBusy), p, ws, [])
  | NeedBusy => Some (Some (NeedCur (m_cur_busy_thread_num t)), p, ws, [])
  | NeedCur busy => Some (Some (if busy =? m_cur_thread_num t then Creating else SettingEvent), p, ws, [])
  | Creating =>
      t ← lock t;
      match m_idle_threads t with
      | node :: idle => Some (Some (Joining node), set_threads (set_lists (m_working_threads t) idle t) p, ws, [])
      | [] =>
          let t' := mkThreads (m_working_threads t) [] (m_cur_thread_num t) (m_cur_busy_thread_num t) (m_mutex_thread t) (Pos.succ (new_thread t)) in
          Some (Some (Working (new_thread t)), set_threads t' p, ws, [])
      end
  | Joining node => if has_finished ws node then Some (Some (Working node), p, delete node ws, []) else None
  | Working node =>
      Some (Some (Counting node), set_threads (set_lists (m_working_threads t ++ [node]) (m_idle_threads t) t) p, ws, [])
  | Counting node => Some (Some (StartingThread node), set_threads (set_cur (m_cur_thread_num t + 1) t) p, ws, [])
  | StartingThread node => Some (Some SettingEvent, set_threads (unlock t) p, <[node := Starting]> ws, [])
  | SettingEvent => Some (None, set_events true (m_event_relase_all_task p) p, ws, [])
  | TerminateStart is_wait =>
      Some (Some (if m_exited p then TerminateLoop else if is_wait then TerminateWait else TerminateExit), p, ws, [])
  | TerminateWait => Some (Some (if 0 <? m_pending_task_num (tasks p) then TerminateWait else TerminateExit), p, ws, [])
  | TerminateExit => Some (Some TerminateLoop, set_exited p, ws, [])
  | TerminateLoop => Some (Some (if 0 <? m_cur_thread_num t then TerminateSet 0 else ReleasingComplete), p, ws, [])
  | TerminateSet i =>
      if i <? m_cur_thread_num t then Some (Some (TerminateSet (i + 1)), set_events true (m_event_relase_all_task p) p, ws, [])
      else Some (Some TerminateTimedWait, p, ws, [])
  | TerminateTimedWait => Some (Some TerminateLoop, set_events (m_event_new_task p) false p, ws, [])
  | ReleasingComplete => Some (Some ReleasingPending, set_tasks (ReleaseAllCompleteTasks (tasks p)) p, ws, [])
  | ReleasingPending =>
      let '(released, tasks) := ReleaseAllPendingTasks (tasks p) in
      Some (Some TerminateLock, set_tasks tasks p, ws, released)
  | TerminateLock => t ← lock t; Some (Some TerminateJoin, set_threads t p, ws, [])
  | TerminateJoin =>
      match m_idle_threads t with
      | [] => Some (None, set_threads (unlock t) p, ws, [])
      | node :: idle =>
          if has_finished ws node then Some (Some TerminateJoin, set_threads (set_lists (m_working_threads t) idle t) p, delete node ws, [])
          else None
      end
  end.

(** ** Runs *)

(** A call is what a caller begins. *)
Inductive call :=
  | AddTask_closure (closure : nat) | AddTask_function (f : nat)
  | AddPriorityTask_closure (closure : nat) | AddPriorityTask_function (f : nat)
  | Terminate (is_wait : bool).
Definition begins (c : call) : caller :=
  match c with
  | AddTask_closure c => Checking false (Some c) None
  | AddTask_function f => Checking false None (Some f)
  | AddPriorityTask_closure c => Checking true (Some c) None
  | AddPriorityTask_function f => Checking true None (Some f)
  | Terminate is_wait => TerminateStart is_wait
  end.
Definition adds (c : call) : list nat :=
  match c with
  | AddTask_closure n | AddTask_function n | AddPriorityTask_closure n | AddPriorityTask_function n => [n]
  | Terminate _ => []
  end.

(** The pool with its threads and its callers, and what has been added, run and
    released without being run, in order. *)
Record System := mkSystem {
  pool : ThreadPool;
  workers : gmap positive worker;
  callers : gmap nat caller;
  added : list nat;
  ran : list nat;
  released : list TaskNode
}.

Inductive event := Call (who : nat) (c : call) | Caller (who : nat) | Worker (who : positive).

Definition step (e : event) (s : System) : option System :=
  match e with
  | Call who c =>
      match callers s !! who with
      | Some _ => None
      | None => Some (mkSystem (pool s) (workers s) (<[who := begins c]> (callers s)) (added s ++ adds c) (ran s) (released s))
      end
  | Caller who =>
      c ← callers s !! who;
      '(c, p, ws, out) ← caller_step c (pool s) (workers s);
      Some (mkSystem p ws (match c with Some c => <[who := c]> (callers s) | None => delete who (callers s) end)
              (added s) (ran s) (released s ++ out))
  | Worker who =>
      w ← workers s !! who;
      '(w, p, out) ← worker_step who w (pool s);
      Some (mkSystem p (<[who := w]> (workers s)) (callers s) (added s) (ran s ++ out) (released s))
  end.

Fixpoint run (es : list event) (s : System) : option System :=
  match es with [] => Some s | e :: es => s ← step e s; run es s end.

Definition new_System (p : ThreadPool) : System := mkSystem p ∅ ∅ [] [] [].
Definition reachable (min_thread_num max_thread_num : Z) (s : System) : Prop :=
  ∃ p es, new_ThreadPool min_thread_num max_thread_num = Some p ∧ run es (new_System p) = Some s.
