(* ===== verification/ThreadPoolFacts.v ===== *)
(** * What holds of a thread pool in every run

    No task is lost and none is run twice; the count of the pending tasks and
    the count of the threads are exact; the lists of threads are changed by one
    thread at a time, and joining a thread never waits for the lock.  But a
    thread that leaves because it waited too long is taken twice from the count
    of the busy threads, and a pool it was the last thread of runs no task any
    more.

    The invariants are equations between numbers of occurrences, for each task
    or node, so that a step is a case of linear arithmetic. *)

From S2P Require Import Prelude Occurrences ThreadPool.

(** ** Tasks *)

(** What a caller is about to add, and a thread about to run. *)
Definition Work (callback function : option nat) : list nat := Task_Run (mkTask 1 callback function).
Definition caller_work (c : caller) : list nat :=
  match c with
  | Checking _ callback function | PickingNode _ callback function => Work callback function
  | AddingPending _ t => Task_Run t
  | _ => []
  end.
Definition worker_work (w : worker) : list nat := match w with Running t => Task_Run t | _ => [] end.

(** The task nodes that they hold. *)
Definition caller_nodes (c : caller) : list positive := match c with AddingPending _ t => [address t] | _ => [] end.
Definition worker_nodes (w : worker) : list positive := match w with Running t | Completing t => [address t] | _ => [] end.

Definition pending (s : System) : list TaskNode := m_pending_tasks (tasks (pool s)).
Definition completed (s : System) : list TaskNode := m_completed_tasks (tasks (pool s)).

Record tasks_ok (s : System) : Prop := {
  conserved x : count x (added s) =
    (count x (total caller_work (callers s)) + count x (pending s ≫= Task_Run) + count x (total worker_work (workers s)) +
     count x (ran s) + count x (released s ≫= Task_Run))%nat;
  counted : m_pending_task_num (tasks (pool s)) = Z.of_nat (length (pending s));
  owned a : (count a (address <$> pending s) + count a (address <$> completed s) + count a (total caller_nodes (callers s)) +
             count a (total worker_nodes (workers s)) <= (if decide (a < new_task (tasks (pool s)))%positive then 1 else 0))%nat
}.

Lemma Work_Task a callback function : Task_Run (mkTask a callback function) = Work callback function.
Proof. done. Qed.

(** Both sides as sums of occurrences. *)
Ltac count_tasks :=
  unfold pending, completed; cbn in *;
  repeat match goal with H : m_pending_tasks _ = _ |- _ => rewrite H in *; clear H end;
  repeat match goal with H : m_completed_tasks _ = _ |- _ => rewrite H in *; clear H end;
  cbn in *; autorewrite with counts in *; cbn in *; rewrite ?Work_Task; autorewrite with counts in *; cbn in *; try lia; try (repeat case_decide; subst; lia).

Lemma worker_tasks_ok who s s' : tasks_ok s → step (Worker who) s = Some s' → tasks_ok s'.
Proof.
  intros [Hc Hn Ho] E. cbn in E. destruct (workers s !! who) as [w|] eqn:Ew; [|done]. cbn in E.
  destruct (worker_step who w (pool s)) as [[[w' p] out]|] eqn:Es; [|done]. cbn in E. injection E as <-.
  unfold pending, completed in *. destruct s as [p0 ws cs ad rn rl]. cbn in *.
  assert (Hd : ∀ x, count x (total worker_work ws) = (count x (worker_work w) + count x (total worker_work (delete who ws)))%nat)
    by (intros x; by apply count_total_delete).
  assert (Hdn : ∀ x, count x (total worker_nodes ws) = (count x (worker_nodes w) + count x (total worker_nodes (delete who ws)))%nat)
    by (intros x; by apply count_total_delete).
  unfold worker_step, lock, PickPendingTask in Es. destruct w; repeat (case_match; simplify_eq/=); simplify_eq/=;
    (split; cbn; [intros x; specialize (Hc x); specialize (Hd x)| |intros x; specialize (Ho x); specialize (Hdn x)]);
    count_tasks.
Qed.


(** A thread that has ended holds nothing. *)
Lemma count_total_joined {X} `{EqDecision X} (x : X) f (ws : gmap positive worker) node :
  has_finished ws node = true → f Finished = [] → count x (total f (delete node ws)) = count x (total f ws).
Proof.
  unfold has_finished. intros E Ef. destruct (ws !! node) as [[]|] eqn:Ew; try done. by rewrite (count_total_delete x f ws node Finished Ew), Ef.
Qed.

Lemma caller_tasks_ok who s s' : (∀ node, callers s !! who = Some (StartingThread node) → workers s !! node = None) →
  tasks_ok s → step (Caller who) s = Some s' → tasks_ok s'.
Proof.
  intros Hnew [Hc Hn Ho] E. cbn in E. destruct (callers s !! who) as [c|] eqn:Ec; [|done]. cbn in E.
  destruct (caller_step c (pool s) (workers s)) as [[[[c' p] ws'] out]|] eqn:Es; [|done]. cbn in E. injection E as <-.
  unfold pending, completed in *. destruct s as [p0 ws cs ad rn rl]. cbn in *.
  assert (Hd : ∀ x, count x (total caller_work cs) = (count x (caller_work c) + count x (total caller_work (delete who cs)))%nat)
    by (intros x; by apply count_total_delete).
  assert (Hdn : ∀ x, count x (total caller_nodes cs) = (count x (caller_nodes c) + count x (total caller_nodes (delete who cs)))%nat)
    by (intros x; by apply count_total_delete).
  unfold caller_step, lock, PickCompleteTask, ReleaseAllPendingTasks, ReleaseAllCompleteTasks, AddPendingTask in Es.
  destruct c; repeat (case_match; simplify_eq/=); simplify_eq/=;
    (split; cbn; [intros x; specialize (Hc x); specialize (Hd x)| |intros x; specialize (Ho x); specialize (Hdn x)]);
    rewrite ?(count_total_joined x _ ws) by done; count_tasks; rewrite (delete_id ws) by (by apply Hnew); lia.
Qed.

Lemma call_tasks_ok who c s s' : tasks_ok s → step (Call who c) s = Some s' → tasks_ok s'.
Proof.
  intros [Hc Hn Ho] E. cbn in E. destruct (callers s !! who) as [c0|] eqn:Ec; [done|]. injection E as <-.
  unfold pending, completed in *. destruct s as [p0 ws cs ad rn rl]. cbn in *.
  destruct c; (split; cbn; [intros x; specialize (Hc x)| |intros x; specialize (Ho x)]);
    count_tasks; rewrite delete_id in * by done; count_tasks.
Qed.

(** ** Threads *)

(** A thread that has left the list of the working ones. *)
Definition has_left (w : worker) : bool := match w with LeavingBusy | LeavingCur | LeavingSet | Finished => true | _ => false end.
(** A thread that is counted. *)
Definition live (w : worker) : bool := match w with LeavingSet | Finished => false | _ => true end.
(** A thread that has locked the lists. *)
Definition locks (w : worker) : bool := match w with LeavingBusy | LeavingCur | LeavingSet => true | _ => false end.

Definition caller_counts (c : caller) : bool := match c with StartingThread _ => true | _ => false end.
Definition caller_locks (c : caller) : bool :=
  match c with Joining _ | Working _ | Counting _ | StartingThread _ | TerminateJoin => true | _ => false end.

(** The thread nodes of the callers: about to be started, added to the list of
    the working ones, and about to be joined. *)
Definition starts (c : caller) : list positive := match c with Working n | Counting n | StartingThread n => [n] | _ => [] end.
Definition lists (c : caller) : list positive := match c with Counting n | StartingThread n => [n] | _ => [] end.
Definition joins (c : caller) : list positive := match c with Joining n => [n] | _ => [] end.

(** One for a node whose thread is so. *)
Definition at_node (f : worker → bool) (ws : gmap positive worker) (n : positive) : nat :=
  match ws !! n with Some w => if f w then 1 else 0 | None => 0 end%nat.

Lemma at_node_insert f ws k w n : at_node f (<[k := w]> ws) n = if decide (n = k) then if f w then 1%nat else 0%nat else at_node f ws n.
Proof. unfold at_node. destruct (decide (n = k)) as [->|Hn]; by rewrite ?lookup_insert_eq, ?lookup_insert_ne by done. Qed.
Lemma at_node_delete f ws k n : at_node f (delete k ws) n = if decide (n = k) then 0%nat else at_node f ws n.
Proof. unfold at_node. destruct (decide (n = k)) as [->|Hn]; by rewrite ?lookup_delete_eq, ?lookup_delete_ne by done. Qed.
Lemma at_node_at f ws k w : ws !! k = Some w → at_node f ws k = if f w then 1%nat else 0%nat.
Proof. unfold at_node. by intros ->. Qed.
Lemma at_node_joined f ws k : has_finished ws k = true → at_node f ws k = if f Finished then 1%nat else 0%nat.
Proof. unfold has_finished, at_node. by destruct (ws !! k) as [[]|]. Qed.

Lemma number_joined f ws node : has_finished ws node = true → f Finished = false → number f (delete node ws) = number f ws.
Proof. intros E Ef. apply count_total_joined; [done|]. by rewrite Ef. Qed.

#[global] Arguments at_node _ _ _ : simpl never.
#[export] Hint Rewrite at_node_insert at_node_delete @count_filter_ne : counts.

Definition pool_threads (s : System) : Threads := threads (pool s).

Record threads_ok (s : System) : Prop := {
  fresh n : (count n (total starts (callers s)) + at_node (λ _, true) (workers s) n <=
             if decide (n < new_thread (pool_threads s))%positive then 1 else 0)%nat;
  idle n : (count n (m_idle_threads (pool_threads s)) + count n (total joins (callers s)) = at_node has_left (workers s) n)%nat;
  working n : count n (m_working_threads (pool_threads s)) =
              (count n (total lists (callers s)) + at_node (λ w, negb (has_left w)) (workers s) n)%nat;
  exclusive : (number locks (workers s) + number caller_locks (callers s) = Nat.b2n (m_mutex_thread (pool_threads s)))%nat;
  threads_counted : m_cur_thread_num (pool_threads s) = Z.of_nat (number live (workers s) + number caller_counts (callers s))
}.

Lemma lists_starts n (cs : gmap nat caller) : (count n (total lists cs) <= count n (total starts cs))%nat.
Proof. apply count_total_mono. intros []; cbn; done || apply Nat.le_0_l. Qed.

Ltac count_threads :=
  unfold pool_threads; cbn in *;
  repeat match goal with H : m_mutex_thread _ = _ |- _ => rewrite H in *; clear H | H : m_idle_threads _ = _ |- _ => rewrite H in *; clear H end; cbn in *; autorewrite with counts in *; cbn in *; autorewrite with counts in *; cbn in *; try lia;
  try (repeat case_decide; subst; cbn in *; lia);
  try (match goal with |- context [m_mutex_thread ?t] => destruct (m_mutex_thread t) end; cbn in *; lia);
  try (match goal with H : context [m_mutex_thread ?t] |- _ => destruct (m_mutex_thread t) end; cbn in *; lia).

Lemma worker_threads_ok who s s' : threads_ok s → step (Worker who) s = Some s' → threads_ok s'.
Proof.
  intros [Hf Hi Hw He Hc] E. cbn in E. destruct (workers s !! who) as [w|] eqn:Ew; [|done]. cbn in E.
  destruct (worker_step who w (pool s)) as [[[w' p] out]|] eqn:Es; [|done]. cbn in E. injection E as <-.
  unfold pool_threads in *. destruct s as [p0 ws cs ad rn rl]. cbn in *.
  pose proof (λ f, at_node_at f ws who w Ew) as Ha.
  pose proof (number_delete locks ws who w Ew) as Hl. pose proof (number_delete live ws who w Ew) as Hv.
  pose proof (Ha has_left) as Ha1. pose proof (Ha (λ w, negb (has_left w))) as Ha2. pose proof (Ha (λ _, true)) as Ha3. clear Ha.
  pose proof (Hf who) as Hf'. pose proof (lists_starts who cs) as Hls.
  unfold worker_step, lock, PickPendingTask in Es. destruct w; repeat (case_match; simplify_eq/=); simplify_eq/=;
    (split; cbn; [intros k; specialize (Hf k)|intros k; specialize (Hi k)|intros k; specialize (Hw k)| |]);
    count_threads.
Qed.

Lemma caller_threads_ok who s s' : threads_ok s → step (Caller who) s = Some s' → threads_ok s'.
Proof.
  intros [Hf Hi Hw He Hc] E. cbn in E. destruct (callers s !! who) as [c|] eqn:Ec; [|done]. cbn in E.
  destruct (caller_step c (pool s) (workers s)) as [[[[c' p] ws'] out]|] eqn:Es; [|done]. cbn in E. injection E as <-.
  unfold pool_threads in *. destruct s as [p0 ws cs ad rn rl]. cbn in *.
  pose proof (number_delete caller_locks cs who c Ec) as Hl. pose proof (number_delete caller_counts cs who c Ec) as Hv.
  assert (Hs : ∀ n, count n (total starts cs) = (count n (starts c) + count n (total starts (delete who cs)))%nat) by (intros n; by apply count_total_delete).
  assert (Hli : ∀ n, count n (total lists cs) = (count n (lists c) + count n (total lists (delete who cs)))%nat) by (intros n; by apply count_total_delete).
  assert (Hj : ∀ n, count n (total joins cs) = (count n (joins c) + count n (total joins (delete who cs)))%nat) by (intros n; by apply count_total_delete).
  assert (Hnone : ∀ node, c = StartingThread node → ws !! node = None).
  { intros node ->. specialize (Hf node). rewrite Hs in Hf. cbn in Hf. rewrite count_cons, decide_True in Hf by done.
    unfold at_node in Hf. destruct (ws !! node); [|done]. case_decide; lia. }
  unfold caller_step, lock, PickCompleteTask, ReleaseAllPendingTasks in Es.
  destruct c; repeat (case_match; simplify_eq/=); simplify_eq/=;
    try (match goal with H : has_finished ws ?m = true |- _ =>
      pose proof (at_node_joined has_left ws m H); pose proof (at_node_joined (λ w, negb (has_left w)) ws m H); pose proof (at_node_joined (λ _, true) ws m H) end);
    try (pose proof (Hnone _ eq_refl) as Hn; clear Hnone;
      assert (at_node has_left ws node = 0%nat ∧ at_node (λ w, negb (has_left w)) ws node = 0%nat) as [? ?] by (unfold at_node; by rewrite Hn));
    (split; cbn; [intros k; specialize (Hf k); specialize (Hs k)|intros k; specialize (Hi k); specialize (Hj k)|intros k; specialize (Hw k); specialize (Hli k)| |]);
    rewrite ?(number_joined _ ws) by done; count_threads; try (rewrite (delete_id ws) by done; count_threads).
Qed.

Lemma call_threads_ok who c s s' : threads_ok s → step (Call who c) s = Some s' → threads_ok s'.
Proof.
  intros [Hf Hi Hw He Hc] E. cbn in E. destruct (callers s !! who) as [c0|] eqn:Ec; [done|]. injection E as <-.
  unfold pool_threads in *. destruct s as [p0 ws cs ad rn rl]. cbn in *.
  destruct c; (split; cbn; [intros k; specialize (Hf k)|intros k; specialize (Hi k)|intros k; specialize (Hw k)| |]);
    count_threads; rewrite delete_id by done; count_threads.
Qed.

(** ** Every run *)

Lemma run_invariant (P : System → Prop) es s s' : (∀ e s s', P s → step e s = Some s' → P s') → P s → run es s = Some s' → P s'.
Proof.
  intros Hstep. revert s. induction es as [|e es IH]; intros s Hs; cbn; [by intros [= <-]|].
  destruct (step e s) as [s1|] eqn:E; [|done]. cbn. apply IH. by eapply Hstep.
Qed.

Lemma step_ok e s s' : threads_ok s ∧ tasks_ok s → step e s = Some s' → threads_ok s' ∧ tasks_ok s'.
Proof.
  intros [Ht Hk] E. destruct e as [who c|who|who].
  - split; [by eapply call_threads_ok|by eapply call_tasks_ok].
  - split; [by eapply caller_threads_ok|]. eapply caller_tasks_ok; [|exact Hk|exact E]. intros node Ec.
    pose proof (fresh s Ht node) as Hf. pose proof (count_total_le node starts _ _ _ Ec) as Hl. cbn in Hl. rewrite count_cons, decide_True in Hl by done.
    unfold at_node in Hf. destruct (workers s !! node); [|done]. case_decide; lia.
  - split; [by eapply worker_threads_ok|by eapply worker_tasks_ok].
Qed.

Lemma new_pool_ok min_thread_num max_thread_num p : new_ThreadPool min_thread_num max_thread_num = Some p →
  threads_ok (new_System p) ∧ tasks_ok (new_System p).
Proof.
  unfold new_ThreadPool. destruct (min_thread_num <? 0); [done|]. intros [= <-].
  split; split; try done; intros x; cbn; unfold at_node; rewrite ?lookup_empty, ?total_empty, ?count_nil; cbn; case_decide; lia.
Qed.

Lemma reachable_ok min_thread_num max_thread_num s : reachable min_thread_num max_thread_num s → threads_ok s ∧ tasks_ok s.
Proof. intros (p & es & Ep & Er). eapply (run_invariant (λ s, threads_ok s ∧ tasks_ok s)); [exact step_ok|by eapply new_pool_ok|exact Er]. Qed.

(** C3: no task is lost, and none is run twice.  In every run of any number of
    callers and threads, the tasks added are those that a caller is still
    adding, those pending, those a thread is about to run, those run and those
    that [Terminate] released; the count of pending tasks is their number; and
    no task node is in two places. *)
Theorem thread_pool_tasks min_thread_num max_thread_num s : reachable min_thread_num max_thread_num s →
  added s ≡ₚ total caller_work (callers s) ++ (pending s ≫= Task_Run) ++ total worker_work (workers s) ++ ran s ++ (released s ≫= Task_Run) ∧
  m_pending_task_num (tasks (pool s)) = Z.of_nat (length (pending s)) ∧
  NoDup ((address <$> pending s) ++ (address <$> completed s) ++ total caller_nodes (callers s) ++ total worker_nodes (workers s)).
Proof.
  intros Hr. destruct (reachable_ok _ _ _ Hr) as [_ [Hc Hn Ho]]. split_and!; [|done|].
  - apply count_Permutation. intros x. rewrite !count_app, Hc. lia.
  - apply count_NoDup. intros x. rewrite !count_app. specialize (Ho x). case_decide; lia.
Qed.

(** C8: the threads are counted, and joining one does not wait for the lock.
    In every run the count of the threads is the number of those that have
    been counted and have not left; at most one thread changes their lists at a
    time, and no thread is twice in them; and the thread that a caller joins,
    under the lock, has already given it back and ended. *)
Theorem thread_pool_threads min_thread_num max_thread_num s : reachable min_thread_num max_thread_num s →
  m_cur_thread_num (pool_threads s) = Z.of_nat (number live (workers s) + number caller_counts (callers s)) ∧
  (number locks (workers s) + number caller_locks (callers s) <= 1)%nat ∧
  NoDup (m_working_threads (pool_threads s) ++ m_idle_threads (pool_threads s)) ∧
  (∀ who n, callers s !! who = Some (Joining n) → workers s !! n = Some Finished) ∧
  (∀ who n rest, callers s !! who = Some TerminateJoin → m_idle_threads (pool_threads s) = n :: rest → workers s !! n = Some Finished).
Proof.
  intros Hr. destruct (reachable_ok _ _ _ Hr) as [[Hf Hi Hw He Hc] _].
  assert (Hlock : (number locks (workers s) + number caller_locks (callers s) <= 1)%nat) by (rewrite He; destruct (m_mutex_thread _); cbn; lia).
  assert (Hjoin : ∀ who c n, callers s !! who = Some c → caller_locks c = true → at_node has_left (workers s) n ≠ 0%nat → workers s !! n = Some Finished).
  { intros who c n Ec El Hn. rewrite (number_delete caller_locks _ _ _ Ec), El in Hlock. unfold at_node in Hn.
    destruct (workers s !! n) as [w|] eqn:Ew; [|done]. rewrite (number_delete locks _ _ _ Ew) in Hlock. destruct w; cbn in *; try done; lia. }
  split_and!; [done|done| | |].
  - apply count_NoDup. intros n. rewrite count_app, Hw. specialize (Hf n). specialize (Hi n). pose proof (lists_starts n (callers s)).
    unfold at_node in *. destruct (workers s !! n) as [w|]; [destruct (has_left w); cbn in *|]; case_decide; lia.
  - intros who n Ec. eapply Hjoin; [exact Ec|done|]. rewrite <- Hi.
    pose proof (count_total_le n joins _ _ _ Ec) as Hl. cbn in Hl. rewrite count_cons, decide_True in Hl by done. lia.
  - intros who n rest Ec Ei. eapply Hjoin; [exact Ec|done|]. rewrite <- Hi, Ei, count_cons, decide_True by done. lia.
Qed.

(** ** A pool that runs nothing any more *)

(** The count of the busy threads is one too low, and there are none. *)
Definition stuck_caller (c : caller) : Prop :=
  match c with
  | Creating | Joining _ | Working _ | Counting _ | StartingThread _ => False
  | NeedCur busy => busy = -1
  | _ => True
  end.
Definition stuck (s : System) : Prop :=
  m_cur_thread_num (pool_threads s) = 0 ∧ m_cur_busy_thread_num (pool_threads s) = -1 ∧
  m_min_thread_num (pool s) = 0 ∧ 0 < m_max_thread_num (pool s) ∧
  map_Forall (λ _ w, w = Finished) (workers s) ∧ map_Forall (λ _ c, stuck_caller c) (callers s).

Lemma stuck_step e s s' : stuck s → step e s = Some s' → stuck s' ∧ ran s' = ran s.
Proof.
  unfold stuck, pool_threads. intros (H1 & H2 & H3 & H4 & Hw & Hc) E. destruct s as [p ws cs ad rn rl]. destruct e as [who c|who|who]; cbn in *.
  - destruct (cs !! who); [done|]. injection E as <-. cbn. split_and!; try done. apply map_Forall_insert_2; [by destruct c|done].
  - destruct (cs !! who) as [c|] eqn:Ec; [|done]. cbn in E. pose proof (Hc who c Ec) as Hcs. cbn in Hcs.
    destruct (caller_step c p ws) as [[[[c' p'] ws'] out]|] eqn:Es; [|done]. cbn in E. injection E as <-. cbn. split; [|done].
    unfold caller_step, lock, PickCompleteTask, ReleaseAllPendingTasks in Es. destruct c; cbn in Hcs; try done;
      repeat (case_match; simplify_eq/=); simplify_eq/=; split_and!; try done; try lia;
      try (by apply map_Forall_delete); try (apply map_Forall_insert_2; [cbn|by try apply map_Forall_delete]; try done; lia);
      bool_to_prop; try lia.
  - destruct (ws !! who) as [w|] eqn:Ew; [|done]. by rewrite (Hw who w Ew) in E.
Qed.

(** One task is run by the only thread, which then waits too long. *)
Definition strand : list event :=
  Call 0 (AddTask_closure 7) :: replicate 12 (Caller 0) ++ replicate 20 (Worker 1).



(** A task in each place: run, about to be run, pending, being added. *)
Definition busy_run : list event :=
  strand ++ [Call 1 (AddPriorityTask_function 8)] ++ replicate 3 (Caller 1) ++ [Call 2 (AddTask_closure 9)] ++ replicate 2 (Caller 2).
Lemma busy_reachable p s : new_ThreadPool 0 (-1) = Some p → run busy_run (new_System p) = Some s → reachable 0 (-1) s.
Proof. intros Ep Er. by exists p, busy_run. Qed.

Example thread_pool_tasks_witness : ∃ p s, new_ThreadPool 0 (-1) = Some p ∧ run busy_run (new_System p) = Some s ∧
  [7; 8; 9]%nat ≡ₚ [9; 8; 7]%nat ∧ m_pending_task_num (tasks (pool s)) = 1.
Proof.
  destruct (run busy_run (new_System (mkPool (mkTasks [] [] 0 1) (mkThreads [] [] 0 0 false 1) 0 1 false false false))) as [s|] eqn:E; [|vm_compute in E; discriminate].
  eexists _, s. split; [reflexivity|]. split; [exact E|].
  destruct (thread_pool_tasks 0 (-1) s (busy_reachable _ s eq_refl E)) as (Hp & Hn & _).
  vm_compute in E. injection E as <-. split; [vm_compute in Hp; exact Hp|exact Hn].
Defined.

Example thread_pool_threads_witness : ∃ p s, new_ThreadPool 0 (-1) = Some p ∧ run busy_run (new_System p) = Some s ∧
  m_cur_thread_num (pool_threads s) = 0.
Proof.
  destruct (run busy_run (new_System (mkPool (mkTasks [] [] 0 1) (mkThreads [] [] 0 0 false 1) 0 1 false false false))) as [s|] eqn:E; [|vm_compute in E; discriminate].
  eexists _, s. split; [reflexivity|]. split; [exact E|].
  destruct (thread_pool_threads 0 (-1) s (busy_reachable _ s eq_refl E)) as (Hc & _).
  vm_compute in E. injection E as <-. exact Hc.
Defined.
