(* ===== verification/BlockingQueue.v ===== *)
(** * Blocking queues

    Model of container/blocking_queue.h, a bounded queue with two condition
    variables that are signalled ([Bounded]), and container/blocking_queue.hpp,
    an unbounded one whose condition variable is broadcast ([Unbounded]).

    What a thread does under the mutex, up to where it waits or unlocks, is one
    step; the signal after it is another.  A condition variable is the set of
    the threads that wait on it.  A signal wakes one of them, which one the run
    says, a broadcast all; a thread may also wake by itself, as POSIX allows and
    as a time limit makes it.  A thread that woke goes on when it has the mutex
    again.  A run is any sequence of steps of any threads.

    The first header does not compile against the [ConditionVariable] of the
    repository, which knows its mutex; [Wait(m_mutex)] is taken for what it
    was written for, waiting with the mutex given back. *)

From S2P Require Import Prelude Occurrences.

Inductive direction := Front | Back.

(** ** The bounded queue *)

Module Bounded.
Section Queue.
Context {T : Type}.

Record BlockingQueue := mkQueue { m_max_elements : Z; m_queue : list T }.

(** The constructor, with its assertion; the default is [(size_t)-1]. *)
Definition new_BlockingQueue (max_elements : Z) : option BlockingQueue :=
  if 0 <? max_elements then Some (mkQueue max_elements []) else None.

Definition UnlockedIsFull (q : BlockingQueue) : bool := m_max_elements q <=? Z.of_nat (length (m_queue q)).
Definition Size (q : BlockingQueue) : nat := length (m_queue q).
Definition IsEmpty (q : BlockingQueue) : bool := bool_decide (length (m_queue q) = 0%nat).
Definition IsFull (q : BlockingQueue) : bool := UnlockedIsFull q.

Definition set_queue (l : list T) (q : BlockingQueue) : BlockingQueue := mkQueue (m_max_elements q) l.
Definition push (d : direction) (v : T) (l : list T) : list T := match d with Front => v :: l | Back => l ++ [v] end.
Definition pop (d : direction) (l : list T) : option (T * list T) :=
  match d with
  | Front => match l with [] => None | v :: l => Some (v, l) end
  | Back => match reverse l with [] => None | v :: r => Some (v, reverse r) end
  end.

(** The methods: [PushFront] is [Push Front], and so on. *)
Inductive method :=
  | Push (d : direction) (v : T) | TimedPush (d : direction) (v : T)
  | Pop (d : direction) | TimedPop (d : direction)
  | PopAll | TimedPopAll | Clear.

Inductive condition := not_empty | not_full.

(** Where a thread is: before the mutex, waiting, woken and before the mutex
    again, at the signal or the broadcast after it, or back with a result. *)
Inductive thread :=
  | Entering (o : method)
  | Waiting (c : condition) (o : method)
  | Woken (o : method)
  | Signalling (c : condition) (success : bool) (values : list T)
  | Broadcasting (values : list T)
  | Returned (success : bool) (values : list T).

(** What a thread does under the mutex: it waits; or it leaves a queue, having
    broadcast [m_cond_not_full] or not, and goes on. *)
Inductive action :=
  | Waits (c : condition)
  | Leaves (l : list T) (broadcast : bool) (next : thread).

(** [woken] is whether it has waited: a method with a time limit waits once. *)
Definition under_mutex (woken : bool) (o : method) (q : BlockingQueue) : action :=
  let l := m_queue q in
  match o with
  | Push d v => if UnlockedIsFull q then Waits not_full else Leaves (push d v l) false (Signalling not_empty true [])
  | TimedPush d v =>
      if UnlockedIsFull q then if woken then Leaves l false (Returned false []) else Waits not_full
      else Leaves (push d v l) false (Signalling not_empty true [])
  | Pop d =>
      match pop d l with
      | None => Waits not_empty
      | Some (v, l) => Leaves l false (Signalling not_full true [v])
      end
  | TimedPop d =>
      match pop d l with
      | None => if woken then Leaves l false (Returned false []) else Waits not_empty
      | Some (v, l) => Leaves l false (Signalling not_full true [v])
      end
  | PopAll => match l with [] => Waits not_empty | _ => Leaves [] false (Broadcasting l) end
  | TimedPopAll =>
      match l with
      | [] => if woken then Leaves l false (Returned false []) else Waits not_empty
      | _ => Leaves [] true (Signalling not_full true l)
      end
  | Clear => Leaves [] true (Returned true [])
  end.

(** What it adds to the queue, and takes out of it. *)
Definition pushes (o : method) (a : action) : list T :=
  match o, a with Push _ v, Leaves _ _ (Signalling _ _ _) | TimedPush _ v, Leaves _ _ (Signalling _ _ _) => [v] | _, _ => [] end.
Definition takes (o : method) (q : BlockingQueue) (a : action) : list T :=
  match o, a with
  | Clear, _ => m_queue q
  | _, Leaves _ _ (Signalling _ _ l) | _, Leaves _ _ (Broadcasting l) => l
  | _, _ => []
  end.

(** [Broadcast]: everyone who waits on the variable is woken. *)
Definition wake (c : condition) (t : thread) : thread :=
  match t, c with
  | Waiting not_empty o, not_empty | Waiting not_full o, not_full => Woken o
  | _, _ => t
  end.
Definition waits_on (c : condition) (t : thread) : bool :=
  match t, c with Waiting not_empty _, not_empty | Waiting not_full _, not_full => true | _, _ => false end.

(** The queue with its threads, and what was put in and taken out, in order. *)
Record System := mkSystem { queue : BlockingQueue; threads : gmap nat thread; pushed : list T; popped : list T }.

(** A call; a step of a thread, with the thread that its signal wakes; and a
    thread that wakes by itself. *)
Inductive event := Call (who : nat) (o : method) | Step (who : nat) (wakes : option nat) | Wakes (who : nat).

Definition critical (who : nat) (woken : bool) (o : method) (s : System) : System :=
  let a := under_mutex woken o (queue s) in
  match a with
  | Waits c => mkSystem (queue s) (<[who := Waiting c o]> (threads s)) (pushed s) (popped s)
  | Leaves l broadcast next =>
      mkSystem (set_queue l (queue s))
        (<[who := next]> (if broadcast then wake not_full <$> threads s else threads s))
        (pushed s ++ pushes o a) (popped s ++ takes o (queue s) a)
  end.

(** [Signal] wakes a thread that waits, if there is one. *)
Definition signal (c : condition) (wakes : option nat) (ts : gmap nat thread) : option (gmap nat thread) :=
  match wakes with
  | None => if bool_decide (map_Forall (λ _ t, waits_on c t = false) ts) then Some ts else None
  | Some w => t ← ts !! w; if waits_on c t then Some (<[w := wake c t]> ts) else None
  end.

Definition step (e : event) (s : System) : option System :=
  match e with
  | Call who o =>
      match threads s !! who with
      | None | Some (Returned _ _) => Some (mkSystem (queue s) (<[who := Entering o]> (threads s)) (pushed s) (popped s))
      | _ => None
      end
  | Step who wakes =>
      t ← threads s !! who;
      match t with
      | Entering o => Some (critical who false o s)
      | Woken o => Some (critical who true o s)
      | Signalling c success values =>
          ts ← signal c wakes (<[who := Returned success values]> (threads s));
          Some (mkSystem (queue s) ts (pushed s) (popped s))
      | Broadcasting values =>
          Some (mkSystem (queue s) (<[who := Returned true values]> (wake not_full <$> threads s)) (pushed s) (popped s))
      | Waiting _ _ | Returned _ _ => None
      end
  | Wakes who =>
      t ← threads s !! who;
      match t with
      | Waiting c o => Some (mkSystem (queue s) (<[who := Woken o]> (threads s)) (pushed s) (popped s))
      | _ => None
      end
  end.

Fixpoint run (es : list event) (s : System) : option System :=
  match es with [] => Some s | e :: es => s ← step e s; run es s end.

Definition new_System (q : BlockingQueue) : System := mkSystem q ∅ [] [].
Definition reachable (max_elements : Z) (s : System) : Prop :=
  ∃ q es, new_BlockingQueue max_elements = Some q ∧ run es (new_System q) = Some s.
End Queue.
End Bounded.

(** ** The unbounded queue *)

Module Unbounded.
Section Queue.
Context {T : Type}.

Definition Size (q : list T) : Z := s32 (Z.of_nat (length q)).
Definition Front (q : list T) : option T := hd_error q.
Definition Back (q : list T) : option T := last q.

Inductive method := Push (e : T) | Pop | TimedPop.
Inductive thread :=
  | Entering (o : method) | Waiting (o : method) | Woken (o : method) | Broadcasting | Returned (success : bool) (value : option T).

Record System := mkSystem { queue : list T; threads : gmap nat thread; pushed : list T; popped : list T }.

(** What a thread does under the mutex. *)
Definition critical (who : nat) (woken : bool) (o : method) (s : System) : System :=
  match o with
  | Push e => mkSystem (queue s ++ [e]) (<[who := Broadcasting]> (threads s)) (pushed s ++ [e]) (popped s)
  | Pop | TimedPop =>
      match queue s with
      | e :: q => mkSystem q (<[who := Returned true (Some e)]> (threads s)) (pushed s) (popped s ++ [e])
      | [] =>
          let t := match o, woken with TimedPop, true => Returned false None | _, _ => Waiting o end in
          mkSystem [] (<[who := t]> (threads s)) (pushed s) (popped s)
      end
  end.

Definition wake (t : thread) : thread := match t with Waiting o => Woken o | _ => t end.

Inductive event := Call (who : nat) (o : method) | Step (who : nat) | Wakes (who : nat).

Definition step (e : event) (s : System) : option System :=
  match e with
  | Call who o =>
      match threads s !! who with
      | None | Some (Returned _ _) => Some (mkSystem (queue s) (<[who := Entering o]> (threads s)) (pushed s) (popped s))
      | _ => None
      end
  | Step who =>
      t ← threads s !! who;
      match t with
      | Entering o => Some (critical who false o s)
      | Woken o => Some (critical who true o s)
      | Broadcasting => Some (mkSystem (queue s) (<[who := Returned true None]> (wake <$> threads s)) (pushed s) (popped s))
      | Waiting _ | Returned _ _ => None
      end
  | Wakes who =>
      t ← threads s !! who;
      match t with
      | Waiting o => Some (mkSystem (queue s) (<[who := Woken o]> (threads s)) (pushed s) (popped s))
      | _ => None
      end
  end.

Fixpoint run (es : list event) (s : System) : option System :=
  match es with [] => Some s | e :: es => s ← step e s; run es s end.
Definition new_System : System := mkSystem [] ∅ [] [].
End Queue.
End Unbounded.
