(* ===== verification/BlockingQueueFacts.v ===== *)
(** * What holds of the blocking queues in every run

    The bounded queue keeps its bound and its elements, and no wake-up is lost:
    as long as someone waits for an element, there are as many threads on their
    way to take one, or to say that there is one, as there are elements, and
    the same for the free places.  The unbounded queue gives its elements in
    order. *)

From S2P Require Import Prelude Occurrences BlockingQueue.

Module BoundedFacts.
Import Bounded.

Section Facts.
Context {T : Type} `{EqDecision T}.

(** What a method waits for. *)
Definition waits_for (o : @method T) : condition := match o with Push _ _ | TimedPush _ _ => not_full | _ => not_empty end.

(** A thread on its way to a signal, or back from a wait. *)
Definition active (c : condition) (t : @thread T) : bool :=
  match t with
  | Signalling c' _ _ => match c, c' with not_empty, not_empty | not_full, not_full => true | _, _ => false end
  | Woken o => match c, waits_for o with not_empty, not_empty | not_full, not_full => true | _, _ => false end
  | _ => false
  end.
Definition broadcasts (t : @thread T) : bool := match t with Broadcasting _ => true | _ => false end.
Definition right (t : @thread T) : Prop := match t with Waiting c o => c = waits_for o | _ => True end.

Record queue_ok (s : @System T) : Prop := {
  bounded : 0 < m_max_elements (queue s) ∧ Z.of_nat (length (m_queue (queue s))) <= m_max_elements (queue s);
  kept x : count x (pushed s) = (count x (popped s) + count x (m_queue (queue s)))%nat;
  rightly : map_Forall (λ _ t, right t) (threads s);
  wakes_empty : number (waits_on not_empty) (threads s) ≠ 0%nat →
    (length (m_queue (queue s)) <= number (active not_empty) (threads s))%nat;
  wakes_full : number (waits_on not_full) (threads s) ≠ 0%nat → number broadcasts (threads s) = 0%nat →
    m_max_elements (queue s) - Z.of_nat (length (m_queue (queue s))) <= Z.of_nat (number (active not_full) (threads s))
}.

(** Waking those who wait for a place. *)
Lemma wake_full (ts : gmap nat thread) : map_Forall (λ _ t, right t) ts →
  map_Forall (λ _ t, right t) (wake not_full <$> ts) ∧ number (waits_on not_full) (wake not_full <$> ts) = 0%nat ∧
  number (waits_on not_empty) (wake not_full <$> ts) = number (waits_on not_empty) ts ∧
  number (active not_empty) (wake not_full <$> ts) = number (active not_empty) ts.
Proof.
  intros Hr. split_and!.
  - intros k t. rewrite lookup_fmap. intros (t0 & Et & ->)%fmap_Some. specialize (Hr k t0 Et). by destruct t0 as [|[] ?| | | |].
  - rewrite number_fmap. apply number_0. intros k t Et. by destruct t as [|[] ?| | | |].
  - rewrite number_fmap. apply number_ext. intros k t Et. by destruct t as [|[] ?| | | |].
  - rewrite number_fmap. apply number_ext. intros k t Et. specialize (Hr k t Et). destruct t as [|[] o| | | |]; cbn in *; try done. by rewrite <- Hr.
Qed.

Lemma pop_count d (l : list T) v l' x : pop d l = Some (v, l') → count x l = (count x [v] + count x l')%nat ∧ length l = S (length l').
Proof.
  destruct d; cbn [pop]; [destruct l; [done|]; intros [= -> ->]|destruct (reverse l) as [|w r] eqn:E; [done|]; intros [= -> <-]].
  - split; [|done]. rewrite !count_cons, count_nil. lia.
  - assert (El : l = reverse r ++ [v]) by (rewrite <- (reverse_involutive l), E; apply reverse_cons). rewrite El, length_app, count_app. cbn. lia.
Qed.

Lemma pop_length d (l : list T) v l' : pop d l = Some (v, l') → length l = S (length l').
Proof. intros E. by apply (pop_count d l v l' v). Qed.

Lemma pop_None d (l : list T) : pop d l = None → l = [].
Proof. destruct d; cbn [pop]; [by destruct l|]. destruct (reverse l) eqn:E; [|done]. intros _. rewrite <- (reverse_involutive l), E. done. Qed.

Lemma push_count d (v : T) l x : count x (push d v l) = (count x [v] + count x l)%nat ∧ length (push d v l) = S (length l).
Proof. destruct d; cbn [push]; rewrite ?length_app, ?count_app, ?count_cons, ?count_nil; cbn; lia. Qed.

(** A critical section of a thread that is where [t] says. *)
Lemma bounded_critical_ok who (woken : bool) o s t : queue_ok s → threads s !! who = Some t → t = (if woken then Woken o else Entering o) →
  queue_ok (critical who woken o s).
Proof.
  intros [[Hm Hb] Hk Hr He Hf] Et Ht. destruct s as [[max l] ts pu po]. cbn in *.
  pose proof (number_delete (waits_on not_empty) ts who t Et) as N1. pose proof (number_delete (waits_on not_full) ts who t Et) as N2.
  pose proof (number_delete (active not_empty) ts who t Et) as N3. pose proof (number_delete (active not_full) ts who t Et) as N4.
  pose proof (number_delete broadcasts ts who t Et) as N5.
  assert (Hrd : map_Forall (λ _ t, right t) (delete who ts)) by by apply map_Forall_delete.
  destruct (wake_full (delete who ts) Hrd) as (W1 & W2 & W3 & W4).
  assert (Hins : ∀ t' (m : gmap nat thread), right t' → map_Forall (λ _ t, right t) m → map_Forall (λ _ t, right t) (<[who := t']> m)) by (intros; by apply map_Forall_insert_2).
  destruct (wake_full ts Hr) as (W5 & _).
  unfold critical, under_mutex, UnlockedIsFull. destruct o; cbn [queue m_queue m_max_elements];
    repeat (case_match; simplify_eq/=); cbn; bool_to_prop;
    try (match goal with H : pop ?d l = Some _ |- _ => pose proof (λ x, proj1 (pop_count _ _ _ _ x H)) as Hpc; pose proof (pop_length _ _ _ _ H) as Hpl end);
    try (match goal with H : pop _ _ = None |- _ => apply pop_None in H; subst end);
    try (match goal with |- context [push ?d ?v l] => pose proof (λ x, proj1 (push_count d v l x)) as Hpc; pose proof (proj2 (push_count d v l v)) as Hpl end);
    (split; cbn; [|intros x; specialize (Hk x); try specialize (Hpc x)|apply Hins; done| |]);
    rewrite ?number_insert, <- ?fmap_delete, ?W2, ?W3, ?W4, ?count_app, ?Hpl, ?count_nil in *; cbn in *; rewrite ?count_nil in *; try lia.
Qed.

Lemma bounded_signal_ok c who wakes success values s ts : queue_ok s → threads s !! who = Some (Signalling c success values) →
  signal c wakes (<[who := Returned success values]> (threads s)) = Some ts → queue_ok (mkSystem (queue s) ts (pushed s) (popped s)).
Proof.
  intros [Hb Hk Hr He Hf] Et E. destruct s as [q ts0 pu po]. cbn in *.
  pose proof (λ f, number_delete f ts0 who _ Et) as N.
  pose proof (N (waits_on not_empty)) as N1. pose proof (N (waits_on not_full)) as N2. pose proof (N (active not_empty)) as N3.
  pose proof (N (active not_full)) as N4. pose proof (N broadcasts) as N5. clear N. cbn in *.
  assert (Hr' : map_Forall (λ _ t, right t) (<[who := Returned success values]> ts0)) by by apply map_Forall_insert_2.
  unfold signal in E. destruct wakes as [w|].
  - destruct (<[who := Returned success values]> ts0 !! w) as [t|] eqn:Ew; [|done]. cbn in E. destruct (waits_on c t) eqn:Ec; [|done]. injection E as <-.
    pose proof (λ f, number_delete f _ w _ Ew) as M. pose proof (M (waits_on not_empty)) as M1. pose proof (M (waits_on not_full)) as M2.
    pose proof (M (active not_empty)) as M3. pose proof (M (active not_full)) as M4. pose proof (M broadcasts) as M5. clear M.
    pose proof (Hr' w t Ew) as Hrt. rewrite !number_insert in M1, M2, M3, M4, M5. destruct t as [|c0 o| | | |]; try (by destruct c). cbn in Hrt.
    assert (c0 = c) as -> by (by destruct c0, c). cbn in M1, M2, M3, M4, M5.
    split; cbn; [done|done|apply map_Forall_insert_2; [by destruct c|done]| |]; rewrite !number_insert; destruct c, (waits_for o) eqn:Eo; try discriminate; cbn in *; rewrite ?Eo in *; lia.
  - case_bool_decide as Hn; [|done]. injection E as <-. apply number_0 in Hn.
    split; cbn; [done|done|done| |]; rewrite !number_insert in *; destruct c; cbn in *; lia.
Qed.

Lemma bounded_step_ok e s s' : queue_ok s → step e s = Some s' → queue_ok s'.
Proof.
  intros Hs E. destruct e as [who o|who wakes|who]; cbn in E.
  - assert (E' : s' = mkSystem (queue s) (<[who := Entering o]> (threads s)) (pushed s) (popped s) ∧
        (threads s !! who = None ∨ ∃ b l, threads s !! who = Some (Returned b l))).
    { destruct (threads s !! who) as [[]|]; try done; injection E as <-; split; [done|right; by do 2 eexists|done|by left]. }
    destruct E' as [-> Hold]. destruct Hs as [Hb Hk Hr He Hf]. destruct s as [q ts pu po]. cbn in *.
    assert (N : ∀ f, f (Returned true []) = false → (∀ b l, f (Returned b l) = false) → number f ts = number f (delete who ts)).
    { intros f _ Hf0. destruct Hold as [Hn|(b & l & Hn)]; [by rewrite delete_id|]. rewrite (number_delete f ts who _ Hn). by rewrite Hf0. }
    split; cbn; [done|done|by apply map_Forall_insert_2| |]; rewrite !number_insert; cbn; rewrite <- !N by done; done.
  - destruct (threads s !! who) as [t|] eqn:Et; [|done]. cbn in E. destruct t; try done.
    + injection E as <-. by apply (bounded_critical_ok who false _ s _ Hs Et).
    + injection E as <-. by apply (bounded_critical_ok who true _ s _ Hs Et).
    + destruct (signal _ _ _) as [ts|] eqn:Es; [|done]. injection E as <-. by eapply bounded_signal_ok.
    + injection E as <-. destruct Hs as [Hb Hk Hr He Hf]. destruct s as [q ts pu po]. cbn in *.
      pose proof (λ f, number_delete f ts who _ Et) as N. pose proof (N (waits_on not_empty)) as N1. pose proof (N (active not_empty)) as N3. clear N. cbn in *.
      assert (Hrd : map_Forall (λ _ t, right t) (delete who ts)) by by apply map_Forall_delete.
      destruct (wake_full (delete who ts) Hrd) as (W1 & W2 & W3 & W4). destruct (wake_full ts Hr) as (W5 & _).
      split; cbn; [done|done|by apply map_Forall_insert_2| |]; rewrite !number_insert, <- !fmap_delete, ?W2, ?W3, ?W4; cbn; lia.
  - destruct (threads s !! who) as [t|] eqn:Et; [|done]. cbn in E. destruct t as [|c o| | | |]; try done. injection E as <-.
    destruct Hs as [Hb Hk Hr He Hf]. destruct s as [q ts pu po]. cbn in *. pose proof (Hr who _ Et) as Hc. cbn in Hc.
    pose proof (λ f, number_delete f ts who _ Et) as N.
    pose proof (N (waits_on not_empty)) as N1. pose proof (N (waits_on not_full)) as N2. pose proof (N (active not_empty)) as N3.
    pose proof (N (active not_full)) as N4. pose proof (N broadcasts) as N5. clear N. cbn in *.
    split; cbn; [done|done|by apply map_Forall_insert_2| |]; rewrite !number_insert; destruct c, (waits_for o) eqn:Eo; try discriminate; cbn in *; rewrite ?Eo in *; lia.
Qed.

Lemma bounded_reachable_ok max_elements s : reachable max_elements s → queue_ok s ∧ m_max_elements (queue s) = max_elements.
Proof.
  intros (q & es & Eq & Er). unfold new_BlockingQueue in Eq. destruct (Z.ltb_spec 0 max_elements); [|done]. injection Eq as <-.
  assert (H0 : queue_ok (new_System (mkQueue max_elements [])) ∧ m_max_elements (queue (new_System (T := T) (mkQueue max_elements []))) = max_elements).
  { split; [|done]. split; cbn; [lia|done|apply map_Forall_empty|done|done]. }
  revert H0 Er. generalize (new_System (T := T) (mkQueue max_elements [])). induction es as [|e es IH]; intros s0 H0; cbn; [by intros [= <-]|].
  destruct (step e s0) as [s1|] eqn:E; [|done]. cbn. apply IH. destruct H0 as [H0 Hm]. split; [by eapply bounded_step_ok|]. rewrite <- Hm. clear -E.
  destruct e; cbn in E; [|destruct (threads s0 !! who) as [t|]; [|done]; cbn in E..].
  - destruct (threads s0 !! who) as [[]|]; try done; by injection E as <-.
  - destruct t; try done; try (injection E as <-; unfold critical; by destruct (under_mutex _ _ _)).
    + destruct (signal _ _ _); [|done]. by injection E as <-.
    + by injection E as <-.
  - destruct t; try done. by injection E as <-.
Qed.

Lemma waiting_number (ts : gmap nat thread) who c (o : @method T) : ts !! who = Some (Waiting c o) → number (waits_on c) ts ≠ 0%nat.
Proof. intros E. rewrite (number_delete _ _ _ _ E). destruct c; cbn; lia. Qed.

(** Nobody is on the way to anything. *)
Definition resting (t : @thread T) : Prop := match t with Waiting _ _ | Returned _ _ => True | _ => False end.


(** ** Order *)

Definition fifo (o : @method T) : Prop :=
  match o with Push Front _ | TimedPush Front _ | Pop Back | TimedPop Back => False | _ => True end.
Definition fifo_thread (t : @thread T) : Prop := match t with Entering o | Waiting _ o | Woken o => fifo o | _ => True end.
Definition fifo_event (e : @event T) : Prop := match e with Call _ o => fifo o | _ => True end.
Definition in_order (s : @System T) : Prop := pushed s = popped s ++ m_queue (queue s) ∧ map_Forall (λ _ t, fifo_thread t) (threads s).

Lemma fifo_wake c (t : @thread T) : fifo_thread t → fifo_thread (wake c t).
Proof. by destruct t as [|[] ?| | | |], c. Qed.
Lemma fifo_wakes c (ts : gmap nat thread) : map_Forall (λ _ t, fifo_thread t) ts → map_Forall (λ _ t, fifo_thread t) (wake c <$> ts).
Proof. intros Hf k t. rewrite lookup_fmap. intros (t0 & E & ->)%fmap_Some. by eapply fifo_wake, Hf. Qed.

Lemma critical_in_order who woken o s : fifo o → in_order s → in_order (critical who woken o s).
Proof.
  intros Ho [Hp Ht]. destruct s as [[max l] ts pu po]. cbn in *. subst pu. pose proof (fifo_wakes not_full ts Ht) as Hw.
  unfold in_order, critical, under_mutex, UnlockedIsFull. destruct o as [[]|[]|[]|[]| | |]; try done; cbn [queue m_queue m_max_elements pop push]; repeat case_match; simplify_eq/=;
    (split; [app_norm|by apply map_Forall_insert_2]); done.
Qed.

Lemma step_in_order e s s' : fifo_event e → in_order s → step e s = Some s' → in_order s'.
Proof.
  intros He [Hp Ht] E. destruct e as [who o|who wakes|who]; cbn in E.
  - destruct (threads s !! who) as [[]|]; try done; injection E as <-; (split; [done|by apply map_Forall_insert_2]).
  - destruct (threads s !! who) as [t|] eqn:Et; [|done]. cbn in E. pose proof (Ht who t Et) as Hf. destruct t; try done.
    + injection E as <-. by apply critical_in_order.
    + injection E as <-. by apply critical_in_order.
    + destruct (signal _ _ _) as [ts|] eqn:Es; [|done]. injection E as <-. split; [done|]. cbn.
      assert (Hi : map_Forall (λ _ t, fifo_thread t) (<[who := Returned success values]> (threads s))) by by apply map_Forall_insert_2.
      unfold signal in Es. destruct wakes as [w|]; [|case_bool_decide; [by injection Es as <-|done]].
      destruct (<[who := Returned success values]> (threads s) !! w) as [t|] eqn:Ew; [|done]. cbn in Es. destruct (waits_on c t); [|done]. injection Es as <-.
      apply map_Forall_insert_2; [by eapply fifo_wake, Hi|done].
    + injection E as <-. split; [done|]. cbn. apply map_Forall_insert_2; [done|by apply fifo_wakes].
  - destruct (threads s !! who) as [t|] eqn:Et; [|done]. cbn in E. pose proof (Ht who t Et) as Hf. destruct t; try done.
    injection E as <-. split; [done|by apply map_Forall_insert_2].
Qed.

End Facts.
End BoundedFacts.

Module UnboundedFacts.
Import Unbounded.

Section Facts.
Context {T : Type}.

Definition waits (t : @thread T) : bool := match t with Waiting _ => true | _ => false end.
Definition broadcasts (t : @thread T) : bool := match t with Broadcasting => true | _ => false end.

Record queue_ok (s : @System T) : Prop := {
  order : pushed s = popped s ++ queue s;
  woken : number waits (threads s) ≠ 0%nat → queue s = [] ∨ number broadcasts (threads s) ≠ 0%nat
}.

Lemma unbounded_critical_ok who (was_woken : bool) o s t : queue_ok s → threads s !! who = Some t → t = (if was_woken then Woken o else Entering o) →
  queue_ok (critical who was_woken o s).
Proof.
  intros [Ho Hw] Et Ht. destruct s as [q ts pu po]. cbn in *. subst pu.
  pose proof (number_delete waits ts who t Et) as N1. pose proof (number_delete broadcasts ts who t Et) as N2. rewrite N1, N2 in Hw. clear N1 N2.
  assert (Hb : waits t = false ∧ broadcasts t = false) by (by rewrite Ht; destruct was_woken). destruct Hb as [Hb1 Hb2]. rewrite Hb1, Hb2 in Hw. cbn in Hw.
  unfold critical. destruct o; cbn [queue]; [split; cbn; [by app_norm|]|destruct q as [|e q]; (split; cbn; [by app_norm|])..]; rewrite !number_insert; cbn.
  - intros _. right. lia.
  - intros _. by left.
  - intros Hn. destruct (Hw Hn); [done|by right].
  - intros Hn. by left.
  - intros Hn. destruct (Hw Hn); [done|by right].
Qed.

Lemma unbounded_step_ok e s s' : queue_ok s → step e s = Some s' → queue_ok s'.
Proof.
  intros Hs E. destruct e as [who o|who|who]; cbn in E.
  - assert (E' : s' = mkSystem (queue s) (<[who := Entering o]> (threads s)) (pushed s) (popped s) ∧
        (threads s !! who = None ∨ ∃ b v, threads s !! who = Some (Returned b v))).
    { destruct (threads s !! who) as [[]|]; try done; injection E as <-; split; [done|right; by do 2 eexists|done|by left]. }
    destruct E' as [-> Hold]. destruct Hs as [Ho Hw]. destruct s as [q ts pu po]. cbn in *. split; cbn; [done|]. rewrite !number_insert. cbn.
    destruct Hold as [Hn|(b & v & Hn)]; [by rewrite !delete_id|]. by rewrite (number_delete waits ts who _ Hn), (number_delete broadcasts ts who _ Hn) in Hw.
  - destruct (threads s !! who) as [t|] eqn:Et; [|done]. cbn in E. destruct t; try done.
    + injection E as <-. by apply (unbounded_critical_ok who false _ s _ Hs Et).
    + injection E as <-. by apply (unbounded_critical_ok who true _ s _ Hs Et).
    + injection E as <-. destruct Hs as [Ho Hw]. destruct s as [q ts pu po]. cbn in *. split; cbn; [done|]. rewrite number_insert, <- fmap_delete, number_fmap.
      intros Hn. exfalso. apply Hn. cbn. apply number_0. intros k t Ek. by destruct t.
  - destruct (threads s !! who) as [t|] eqn:Et; [|done]. cbn in E. destruct t; try done. injection E as <-.
    destruct Hs as [Ho Hw]. destruct s as [q ts pu po]. cbn in *. split; cbn; [done|]. rewrite !number_insert. cbn.
    rewrite (number_delete waits ts who _ Et), (number_delete broadcasts ts who _ Et) in Hw. cbn in Hw. intros Hn. apply Hw. lia.
Qed.

(** The unbounded queue gives its elements in order, and nobody waits
    beside them.  In every run the elements put in are those taken out and then
    those there, in order; and while a thread waits, the queue is empty or a
    broadcast that wakes the thread is on its way. *)
Theorem unbounded_queue es s : run es new_System = Some s →
  pushed s = popped s ++ queue s ∧
  (∀ who o, threads s !! who = Some (Waiting o) → queue s = [] ∨ ∃ who', threads s !! who' = Some (Broadcasting (T := T))).
Proof.
  intros Er. assert (Hs : queue_ok s).
  { assert (H0 : queue_ok (new_System (T := T))) by (split; cbn; [done|by left]).
    revert H0 Er. generalize (new_System (T := T)). induction es as [|e es IH]; intros s0 H0; cbn; [by intros [= <-]|].
    destruct (step e s0) as [s1|] eqn:E; [|done]. cbn. apply IH. by eapply unbounded_step_ok. }
  destruct Hs as [Ho Hw]. split; [done|]. intros who o Et.
  assert (Hn : number waits (threads s) ≠ 0%nat) by (rewrite (number_delete _ _ _ _ Et); cbn; lia).
  destruct (Hw Hn) as [|Hb]; [by left|right].
  destruct (decide (map_Forall (λ _ t, broadcasts t = false) (threads s))) as [Hf|Hf]; [by apply number_0 in Hf|].
  apply map_not_Forall in Hf as (k & t & Ek & Hk); [|intros; apply _]. exists k. by destruct t.
Qed.
End Facts.
End UnboundedFacts.

(** ** Runs *)

(** A queue with one place: a second producer waits, a consumer takes the
    element and wakes it. *)
Definition demo_run : list (@Bounded.event nat) :=
  [Bounded.Call 1 (Bounded.Push Back 5%nat); Bounded.Step 1 None; Bounded.Step 1 None;
   Bounded.Call 2 (Bounded.Push Back 6%nat); Bounded.Step 2 None;
   Bounded.Call 3 (Bounded.Pop Front); Bounded.Step 3 None].



Example unbounded_queue_witness : ∃ s, Unbounded.run [Unbounded.Call 1 Unbounded.Pop; Unbounded.Step 1; Unbounded.Call 2 (Unbounded.Push 5%nat); Unbounded.Step 2] Unbounded.new_System = Some s ∧
  Unbounded.pushed s = Unbounded.popped s ++ Unbounded.queue s.
Proof.
  destruct (Unbounded.run [Unbounded.Call 1 Unbounded.Pop; Unbounded.Step 1; Unbounded.Call 2 (Unbounded.Push 5%nat); Unbounded.Step 2] Unbounded.new_System) as [s|] eqn:E;
    [|vm_compute in E; discriminate].
  exists s. split; [reflexivity|]. apply (UnboundedFacts.unbounded_queue _ s E).
Defined.
