(* ===== verification/RecordIO.v ===== *)
(** * Record files

    Model of storage/recordio: records behind each other with their lengths, in
    front of them ([recordio]) or behind them, for a reader that goes from the
    end to the start ([reverse_recordio]).

    How many bytes a call of [File] takes or gives is the system's choice, a
    parameter, as are what [Tell] and [Seek] answer; the memory that [new char[]]
    gives is a parameter too.  A call that never ends, or reads outside a
    buffer, is [None], and so is what follows an answer that no [File] gives:
    more bytes than were asked for, or than the file has. *)

From S2P Require Import Prelude Coding BlockHash.

(** ** The writers *)

(** What [Write] answers for data at the end of a file; -1 writes nothing. *)
Class Sink := { write_ret : bytes → bytes → Z }.

Section Writer.
Context {K : Sink}.

(** [while (write_size < size)] over what is left. *)
Fixpoint write_loop (fuel : nat) (data file : bytes) : option (bool * bytes) :=
  match data with
  | [] => Some (true, file)
  | _ =>
      match fuel with
      | O => None
      | S fuel =>
          let ret := write_ret file data in
          if s32 ret =? -1 then Some (false, file)
          else if negb ((0 <=? ret) && (ret <=? Z.of_nat (length data)))%bool then None
          else write_loop fuel (drop (Z.to_nat ret) data) (file ++ take (Z.to_nat ret) data)
      end
  end.
Definition Write (data file : bytes) : option (bool * bytes) := write_loop (length data) data file.

(** The size is a [uint32_t]. *)
Definition WriteRecord (data file : bytes) : option (bool * bytes) :=
  let size := u32 (Z.of_nat (length data)) in
  '(ok, file) ← Write (store32 size) file;
  if (ok : bool) then Write (take (Z.to_nat size) data) file else Some (false, file).

(** [output] is what the message is serialized to, if it is complete. *)
Definition WriteMessage (output : option bytes) (file : bytes) : option (bool * bytes) :=
  match output with None => Some (false, file) | Some output => WriteRecord output file end.

Definition ReverseWriteRecord (data file : bytes) : option (bool * bytes) :=
  let size := u32 (Z.of_nat (length data)) in
  '(ok, file) ← Write (take (Z.to_nat size) data) file;
  if (ok : bool) then Write (store32 size) file else Some (false, file).
Definition ReverseWriteMessage (output : option bytes) (file : bytes) : option (bool * bytes) :=
  match output with None => Some (false, file) | Some output => ReverseWriteRecord output file end.
End Writer.

(** ** The readers *)

(** A file with what its methods answer: [Read] at a position for a number of
    bytes, [Tell] at a position, [Seek] to one. *)
Class RecordFile := { content : bytes; read_ret : Z → Z → Z; tell_ret : Z → Z; seek_to : Z → bool }.

Definition INITIAL_BUFFER : Z := 1 * 1024 * 1024.

(** The position of the file, and the members of the reader. *)
Record RecordReader := mkReader {
  position : Z;
  m_buffer : bytes;
  m_file_size : Z;
  m_buffer_size : Z;
  m_data_size : Z
}.

Section Reader.
Context {F : RecordFile} (fresh : Z → bytes).

Definition at_position (p : Z) (r : RecordReader) : RecordReader := mkReader p (m_buffer r) (m_file_size r) (m_buffer_size r) (m_data_size r).
Definition set_data_size (n : Z) (r : RecordReader) : RecordReader := mkReader (position r) (m_buffer r) (m_file_size r) (m_buffer_size r) n.
Definition set_buffer (b : bytes) (r : RecordReader) : RecordReader := mkReader (position r) b (m_file_size r) (m_buffer_size r) (m_data_size r).

Definition file_size : Z := Z.of_nat (length content).

(** [while (read_size < size)]: what was read, and where the file is then. *)
Fixpoint read_loop (fuel : nat) (position size : Z) (data : bytes) : option (bool * bytes * Z) :=
  if 0 <? size then
    match fuel with
    | O => None
    | S fuel =>
        let ret := read_ret position size in
        if ret =? -1 then Some (false, data, position)
        else if negb ((0 <=? ret) && (ret <=? size) && (position + ret <=? file_size))%bool then None
        else read_loop fuel (position + ret) (size - ret) (data ++ take (Z.to_nat ret) (drop (Z.to_nat position) content))
    end
  else Some (true, data, position).
Definition Read (size : Z) (r : RecordReader) : option (bool * bytes * RecordReader) :=
  '(ok, data, p) ← read_loop (Z.to_nat size) (position r) size [];
  Some (ok, data, at_position p r).

(** Memory after its first bytes were written over. *)
Definition over (data memory : bytes) : bytes := data ++ drop (length data) memory.

(** The read of the size, over its memory. *)
Definition read_size (read : Z → RecordReader → option (bool * bytes * RecordReader)) (r : RecordReader) : option (bool * RecordReader) :=
  '(ok, data, r) ← read 4 r;
  Some (ok, set_data_size (load32 (over data (store32 (m_data_size r)))) r).

(** [while (m_data_size > m_buffer_size) m_buffer_size *= 2;] in 32 bits. *)
Fixpoint double (fuel : nat) (data_size buffer_size : Z) : option Z :=
  if buffer_size <? data_size then
    match fuel with O => None | S fuel => double fuel data_size (u32 (buffer_size * 2)) end
  else Some buffer_size.

(** The buffer replaced by a larger one if it must be, and the read into it. *)
Definition read_data (read : Z → RecordReader → option (bool * bytes * RecordReader)) (r : RecordReader) : option (bool * RecordReader) :=
  size ← double 33 (m_data_size r) (m_buffer_size r);
  let r := if m_buffer_size r <? m_data_size r
           then mkReader (position r) (fresh size) (m_file_size r) size (m_data_size r) else r in
  '(ok, data, r) ← read (m_data_size r) r;
  Some (ok, set_buffer (over data (m_buffer r)) r).

(** [m_file_size] is a [uint32_t]. *)
Definition Reset (r : RecordReader) : bool * RecordReader :=
  if seek_to file_size then
    let r := mkReader file_size (m_buffer r) (u32 (tell_ret file_size)) (m_buffer_size r) (m_data_size r) in
    if seek_to 0 then (true, at_position 0 r) else (false, r)
  else (false, r).

(** [memory] is what [m_file_size] and [m_data_size] hold before they are set. *)
Definition new_RecordReader (memory : Z * Z) : RecordReader :=
  (Reset (mkReader 0 (fresh INITIAL_BUFFER) memory.1 INITIAL_BUFFER memory.2)).2.

Definition Next (r : RecordReader) : option (Z * RecordReader) :=
  let ret := tell_ret (position r) in
  if ret =? -1 then Some (-1, r)
  else if ret =? m_file_size r then Some (0, r)
  else
    '(ok, r) ← (if 4 <=? m_file_size r - ret then read_size Read r else Some (true, r));
    if negb ok then Some (-1, r)
    else
      let ret := tell_ret (position r) in
      if ret =? -1 then Some (-1, r)
      else if ((m_file_size r <=? ret) && negb (m_data_size r =? 0))%bool then Some (-1, r)
      else
        '(ok, r) ← (if m_data_size r <=? m_file_size r - ret then read_data Read r else Some (true, r));
        Some (if (ok : bool) then 1 else -1, r).

(** The first [m_data_size] bytes of the buffer, there or not. *)
Definition ReadRecord (r : RecordReader) : option bytes :=
  if m_data_size r <=? Z.of_nat (length (m_buffer r)) then Some (take (Z.to_nat (m_data_size r)) (m_buffer r)) else None.

Definition ReadMessage {A} (parse : bytes → option A) (r : RecordReader) : option (option A) :=
  data ← ReadRecord r; Some (parse data).

(** [while (Next() == 1)], for some rounds. *)
Fixpoint ReadNextMessage {A} (next : RecordReader → option (Z * RecordReader)) (parse : bytes → option A) (fuel : nat) (r : RecordReader) :
    option (option A * RecordReader) :=
  match fuel with
  | O => None
  | S fuel =>
      '(code, r) ← next r;
      if code =? 1 then
        message ← ReadMessage parse r;
        match message with Some x => Some (Some x, r) | None => ReadNextMessage next parse fuel r end
      else Some (None, r)
  end.

(** *** From the end to the start *)

Definition ReverseReset (r : RecordReader) : bool * RecordReader :=
  if seek_to file_size then (true, at_position file_size r) else (false, r).
Definition new_ReverseRecordReader (memory : Z * Z) : RecordReader :=
  (ReverseReset (mkReader 0 (fresh INITIAL_BUFFER) memory.1 INITIAL_BUFFER memory.2)).2.

(** [Seek(offset, SEEK_CUR)] does not leave the front of the file. *)
Definition seek_back (offset : Z) (r : RecordReader) : bool * RecordReader :=
  let p := position r + offset in
  if ((0 <=? p) && seek_to p)%bool then (true, at_position p r) else (false, r).

(** The file is left where the data starts.  [-INT_MIN] is undefined. *)
Definition ReverseRead (size : Z) (r : RecordReader) : option (bool * bytes * RecordReader) :=
  if s32 size =? - 2 ^ 31 then None
  else
    let offset := - s32 size in
    let '(ok, r) := seek_back offset r in
    if negb ok then Some (false, [], r)
    else
      '(ok, data, r) ← Read size r;
      if negb ok then Some (false, data, r)
      else let '(ok, r) := seek_back offset r in Some (ok, data, r).

Definition ReverseNext (r : RecordReader) : option (Z * RecordReader) :=
  let ret := tell_ret (position r) in
  if ret =? -1 then Some (-1, r)
  else if ret =? 0 then Some (0, r)
  else
    '(ok, r) ← (if 4 <=? ret then read_size ReverseRead r else Some (true, r));
    if negb ok then Some (-1, r)
    else
      let ret := tell_ret (position r) in
      if ret =? -1 then Some (-1, r)
      else if ((ret =? 0) && negb (ret =? m_data_size r))%bool then Some (-1, r)
      else
        '(ok, r) ← (if m_data_size r <=? ret then read_data ReverseRead r else Some (true, r));
        Some (if (ok : bool) then 1 else -1, r).
End Reader.

(** The client's [while (reader.Next() == 1) reader.ReadRecord(&record);]: the
    records, and what ended it. *)
Fixpoint read_records (next : RecordReader → option (Z * RecordReader)) (fuel : nat) (r : RecordReader) : option (list bytes * Z * RecordReader) :=
  match fuel with
  | O => None
  | S fuel =>
      '(code, r) ← next r;
      if code =? 1 then
        record ← ReadRecord r;
        '(records, code, r) ← read_records next fuel r;
        Some (record :: records, code, r)
      else Some ([], code, r)
  end.

(** Records written one after another; it stops when a write fails. *)
Fixpoint write_records (write : bytes → bytes → option (bool * bytes)) (records : list bytes) (file : bytes) : option (bool * bytes) :=
  match records with
  | [] => Some (true, file)
  | d :: records => '(ok, file) ← write d file; if (ok : bool) then write_records write records file else Some (false, file)
  end.
