(* ===== verification/RecordIOFacts.v ===== *)
(** * Record files: what was written is read, and what a torn file does

    Any good file, however many bytes each of its calls takes or gives.  The
    records come back in their order from [recordio], and in the opposite one
    from [reverse_recordio]; a file that was cut inside a record is not always
    an error. *)

From S2P Require Import Prelude Coding BlockHash RecordIO.

(** ** The writers *)

(** A call of [Write] takes some of its data. *)
Class GoodSink `{Sink} := { takes_some file data : data ≠ [] → 0 < write_ret file data <= Z.of_nat (length data) }.

Definition fits (d : bytes) : Prop := Z.of_nat (length d) < 2 ^ 31.
Definition encode (d : bytes) : bytes := store32 (Z.of_nat (length d)) ++ d.
Definition encode_back (d : bytes) : bytes := d ++ store32 (Z.of_nat (length d)).

Lemma store32_length x : length (store32 x) = 4%nat.
Proof. unfold store32. by rewrite !little_bytes_S, little_bytes_0. Qed.

Section Writer.
Context `{GoodSink}.

Lemma Write_ok data file : fits data → Write data file = Some (true, file ++ data).
Proof.
  unfold Write, fits. assert (Hle : (length data <= length data)%nat) by lia. revert Hle. generalize (length data) at 2 4 as n.
  intros n. revert data file.
  induction n as [|n IH]; intros data file Hle Hf.
  - destruct data; [cbn; by rewrite app_nil_r|cbn in Hle; lia].
  - destruct data as [|b data]; [cbn; by rewrite app_nil_r|]. cbn [write_loop].
    pose proof (takes_some file (b :: data) ltac:(done)) as Hret. set (ret := write_ret file (b :: data)) in *.
    rewrite s32_small by lia. destruct (Z.eqb_spec ret (-1)); [lia|].
    rewrite (proj2 (Z.leb_le 0 ret)), (proj2 (Z.leb_le ret _)) by lia. cbn [andb negb].
    assert (Hd : (length (drop (Z.to_nat ret) (b :: data)) <= n)%nat) by (rewrite length_drop; lia).
    rewrite IH; [by rewrite <- app_assoc, take_drop|lia|rewrite length_drop; lia].
Qed.

Lemma small_size d : fits d → u32 (Z.of_nat (length d)) = Z.of_nat (length d) ∧ take (Z.to_nat (Z.of_nat (length d))) d = d.
Proof. intros Hd. unfold fits in Hd. rewrite u32_small by lia. split; [done|]. apply firstn_all2. lia. Qed.

Lemma fits_size x : fits (store32 x).
Proof. unfold fits. rewrite store32_length. done. Qed.

Lemma write_one_ok d file : fits d → WriteRecord d file = Some (true, file ++ encode d).
Proof.
  intros Hd. unfold WriteRecord, encode. destruct (small_size d Hd) as [-> ->]. rewrite Write_ok by apply fits_size. cbn.
  by rewrite Write_ok, <- app_assoc.
Qed.

Lemma write_back_one_ok d file : fits d → ReverseWriteRecord d file = Some (true, file ++ encode_back d).
Proof.
  intros Hd. unfold ReverseWriteRecord, encode_back. destruct (small_size d Hd) as [-> ->]. rewrite Write_ok by done. cbn [mbind option_bind].
  by rewrite Write_ok, <- app_assoc by apply fits_size.
Qed.

Lemma write_records_ok write (enc : bytes → bytes) rs file : (∀ d file, fits d → write d file = Some (true, file ++ enc d)) →
  Forall fits rs → write_records write rs file = Some (true, file ++ concat (enc <$> rs)).
Proof.
  intros Hw Hrs. revert file. induction Hrs as [|d rs Hd _ IH]; intros file; cbn; [by rewrite app_nil_r|].
  rewrite Hw by done. cbn. by rewrite IH, <- app_assoc.
Qed.
End Writer.

(** ** The readers *)

(** A file of less than 4 GiB whose calls succeed, and [Read] gives some of what
    is there. *)
Class GoodFile `{RecordFile} := {
  file_small : file_size < 2 ^ 32;
  tells p : 0 <= p <= file_size → tell_ret p = p;
  seeks p : 0 <= p <= file_size → seek_to p = true;
  reads_some p n : 0 <= p → 0 < n → p + n <= file_size → 0 < read_ret p n <= n
}.

Section Reader.
Context `{GoodFile} (fresh : Z → bytes) (fresh_length : ∀ n, length (fresh n) = Z.to_nat n).

Lemma read_loop_ok fuel p size data : 0 <= p → 0 <= size → p + size <= file_size → (Z.to_nat size <= fuel)%nat →
  read_loop fuel p size data = Some (true, data ++ take (Z.to_nat size) (drop (Z.to_nat p) content), p + size).
Proof.
  revert p size data. induction fuel as [|fuel IH]; intros p size data Hp Hs Hf Hn; cbn [read_loop].
  { replace size with 0 by lia. cbn. by rewrite take_0, app_nil_r, Z.add_0_r. }
  destruct (Z.ltb_spec 0 size); [|replace size with 0 by lia; cbn; by rewrite take_0, app_nil_r, Z.add_0_r].
  pose proof (reads_some p size Hp ltac:(lia) Hf) as Hret. set (ret := read_ret p size) in *.
  destruct (Z.eqb_spec ret (-1)); [lia|].
  rewrite (proj2 (Z.leb_le 0 ret)), (proj2 (Z.leb_le ret _)), (proj2 (Z.leb_le (p + ret) _)) by lia. cbn [andb negb].
  rewrite IH by lia. f_equal. f_equal; [|lia]. f_equal. rewrite <- app_assoc. f_equal.
  replace (Z.to_nat (p + ret)) with (Z.to_nat p + Z.to_nat ret)%nat by lia. rewrite <- drop_drop.
  rewrite take_take_drop. f_equal. lia.
Qed.

(** A file in three parts, read at the middle one. *)
Lemma Read_middle pre data post r : content = pre ++ data ++ post → position r = Z.of_nat (length pre) →
  Read (Z.of_nat (length data)) r = Some (true, data, at_position (Z.of_nat (length (pre ++ data))) r).
Proof.
  intros Hc Hp. unfold Read.
  rewrite read_loop_ok by (rewrite ?Hp; unfold file_size; rewrite ?Hc, ?length_app; lia). cbn [mbind option_bind].
  rewrite Hp, !Nat2Z.id, Hc, drop_app_length, take_app_length, length_app. repeat f_equal. cbn. lia.
Qed.

Lemma ReverseRead_middle pre data post r : content = pre ++ data ++ post → position r = Z.of_nat (length (pre ++ data)) → fits data →
  ReverseRead (Z.of_nat (length data)) r = Some (true, data, at_position (Z.of_nat (length pre)) r).
Proof.
  intros Hc Hp Hf. unfold fits in Hf. unfold ReverseRead. rewrite length_app in Hp. rewrite s32_small by lia. destruct (Z.eqb_spec (Z.of_nat (length data)) (- 2 ^ 31)); [lia|].
  assert (Hs : Z.of_nat (length pre) <= file_size) by (unfold file_size; rewrite Hc, length_app; lia).
  assert (Hb : ∀ r', position r' = Z.of_nat (length pre) + Z.of_nat (length data) →
    seek_back (- Z.of_nat (length data)) r' = (true, at_position (Z.of_nat (length pre)) r')).
  { intros r' Hp'. unfold seek_back. rewrite Hp'. replace (_ + _ + - _) with (Z.of_nat (length pre)) by lia. rewrite seeks by lia.
    by rewrite (proj2 (Z.leb_le 0 _)) by lia. }
  rewrite Hb by lia. cbn [negb]. rewrite (Read_middle pre data post) by done. cbn [mbind option_bind negb].
  rewrite Hb by (cbn; rewrite length_app; lia). done.
Qed.

(** *** The buffer *)

(** It has its size, a power of two. *)
Record good_buffer (r : RecordReader) : Prop := {
  buffer_length : Z.of_nat (length (m_buffer r)) = m_buffer_size r;
  buffer_power : ∃ j, 20 <= j <= 31 ∧ m_buffer_size r = 2 ^ j
}.

Lemma double_ok fuel j size : 20 <= j <= 31 → size <= 2 ^ 31 → (Z.to_nat (31 - j) < fuel)%nat →
  ∃ j', 20 <= j' <= 31 ∧ double fuel size (2 ^ j) = Some (2 ^ j') ∧ size <= 2 ^ j'.
Proof.
  revert j. induction fuel as [|fuel IH]; intros j Hj Hs Hf; [lia|]. cbn [double].
  destruct (Z.ltb_spec (2 ^ j) size) as [Hlt|Hle]; [|by exists j].
  assert (Hj' : j < 31) by (destruct (Z.eq_dec j 31) as [->|]; lia).
  pose proof (Z.pow_le_mono_r 2 (j + 1) 31 ltac:(lia) ltac:(lia)). rewrite Z.pow_add_r, Z.pow_1_r in * by lia.
  rewrite u32_small by lia. replace (2 ^ j * 2) with (2 ^ (j + 1)) by (rewrite Z.pow_add_r; lia). apply IH; lia.
Qed.

Lemma read_data_ok read d p r : good_buffer r → fits d → m_data_size r = Z.of_nat (length d) →
  (∀ r', position r' = position r → read (m_data_size r) r' = Some (true, d, at_position p r')) →
  ∃ r', read_data fresh read r = Some (true, r') ∧ good_buffer r' ∧ position r' = p ∧ m_file_size r' = m_file_size r ∧
    ReadRecord r' = Some d.
Proof.
  intros [Hl (j & Hj & Hp)] Hd Hs Hr. unfold fits in Hd. unfold read_data. rewrite Hp.
  destruct (double_ok 33 j (m_data_size r) Hj ltac:(lia) ltac:(lia)) as (j' & Hj' & -> & Hle). cbn [mbind option_bind].
  assert (Hover : ∀ buffer, Z.of_nat (length d) <= Z.of_nat (length buffer) → length (over d buffer) = length buffer).
  { intros b Hb. unfold over. rewrite length_app, length_drop. lia. }
  assert (Hrec : ∀ b, ReadRecord (mkReader p (over d b) (m_file_size r) (2 ^ j') (m_data_size r)) = Some d).
  { intros b. unfold ReadRecord. cbn. rewrite Hs. unfold over at 1. rewrite length_app, (proj2 (Z.leb_le _ _)) by lia.
    unfold over. by rewrite Nat2Z.id, take_app_length. }
  destruct (Z.ltb_spec (2 ^ j) (m_data_size r)) as [Hlt|Hge].
  - rewrite Hr by done. cbn [mbind option_bind]. eexists. split; [done|]. split; [|split; [done|]; split; [done|exact (Hrec _)]].
    split; cbn; [|by exists j']. rewrite Hover, fresh_length; [lia|]. rewrite fresh_length. lia.
  - rewrite Hr by done. cbn [mbind option_bind]. eexists. split; [done|]. split; [|split; [done|]; split; [done|exact (Hrec _)]].
    split; cbn; [|by exists j]. rewrite Hover; lia.
Qed.

Lemma read_size_ok read x p r : 0 <= x < 2 ^ 32 → read 4 r = Some (true, store32 x, at_position p r) →
  read_size read r = Some (true, set_data_size x (at_position p r)).
Proof.
  intros Hx Hr. unfold read_size. rewrite Hr. cbn [mbind option_bind]. unfold over.
  rewrite (drop_ge (store32 (m_data_size r))) by (rewrite !store32_length; lia). by rewrite app_nil_r, load32_store32.
Qed.

(** *** One record *)

Lemma Next_record pre d post r : content = pre ++ encode d ++ post → fits d → good_buffer r →
  position r = Z.of_nat (length pre) → m_file_size r = file_size →
  ∃ r', Next fresh r = Some (1, r') ∧ good_buffer r' ∧ position r' = Z.of_nat (length (pre ++ encode d)) ∧ m_file_size r' = file_size ∧
    ReadRecord r' = Some d.
Proof.
  intros Hc Hd Hb Hp Hs. assert (Hlen : file_size = Z.of_nat (length pre) + 4 + Z.of_nat (length d) + Z.of_nat (length post)).
  { unfold file_size, encode in *. rewrite Hc, !length_app, store32_length. lia. }
  unfold Next. rewrite Hp, Hs, tells by lia.
  destruct (Z.eqb_spec (Z.of_nat (length pre)) (-1)); [lia|]. destruct (Z.eqb_spec (Z.of_nat (length pre)) file_size); [lia|].
  rewrite (proj2 (Z.leb_le 4 _)) by lia. unfold encode in Hc. rewrite <- app_assoc in Hc.
  pose proof (Read_middle pre _ _ r Hc Hp) as Hr. rewrite store32_length in Hr.
  assert (Hx : 0 <= Z.of_nat (length d) < 2 ^ 32) by (unfold fits in Hd; lia).
  rewrite (read_size_ok _ _ _ _ Hx Hr). cbn [mbind option_bind negb]. cbn [position at_position set_data_size].
  rewrite length_app, store32_length, tells by lia. cbn [m_file_size m_data_size set_data_size at_position]. rewrite Hs.
  destruct (Z.eqb_spec (Z.of_nat (length pre + 4)) (-1)); [lia|].
  replace ((file_size <=? _) && _)%bool with false.
  2: { symmetry. destruct (Z.leb_spec file_size (Z.of_nat (length pre + 4))); [|done]. by replace (Z.of_nat (length d)) with 0 by lia. }
  rewrite (proj2 (Z.leb_le (Z.of_nat (length d)) _)) by lia.
  edestruct (read_data_ok Read d (Z.of_nat (length (pre ++ store32 (Z.of_nat (length d)) ++ d)))) as (r' & -> & Hb' & Hp' & Hs' & Hd').
  4: { intros r' Hr'. cbn in Hr' |- *. rewrite (Read_middle (pre ++ store32 (Z.of_nat (length d))) d post); [by rewrite <- app_assoc|by rewrite <- app_assoc|].
       by rewrite Hr', length_app, store32_length. }
  - by destruct Hb.
  - done.
  - done.
  - exists r'. split; [done|]. split; [done|]. split; [by rewrite Hp'|]. split; [by rewrite Hs'|done].
Qed.

Lemma ReverseNext_record pre d post r : content = pre ++ encode_back d ++ post → fits d → good_buffer r →
  position r = Z.of_nat (length (pre ++ encode_back d)) →
  ∃ r', ReverseNext fresh r = Some (1, r') ∧ good_buffer r' ∧ position r' = Z.of_nat (length pre) ∧ ReadRecord r' = Some d.
Proof.
  intros Hc Hd Hb Hp. assert (Hx : 0 <= Z.of_nat (length d) < 2 ^ 32) by (unfold fits in Hd; lia). unfold encode_back in *.
  assert (Hlen : position r = Z.of_nat (length pre) + Z.of_nat (length d) + 4).
  { rewrite Hp, !length_app, store32_length. lia. }
  assert (Hfile : position r <= file_size) by (rewrite Hp; unfold file_size; rewrite Hc, !length_app; lia).
  unfold ReverseNext. rewrite tells by lia.
  destruct (Z.eqb_spec (position r) (-1)); [lia|]. destruct (Z.eqb_spec (position r) 0); [lia|].
  rewrite (proj2 (Z.leb_le 4 _)) by lia. rewrite app_assoc in Hp. rewrite <- app_assoc, app_assoc in Hc.
  pose proof (ReverseRead_middle (pre ++ d) _ post r Hc Hp (fits_size _)) as Hr. rewrite store32_length in Hr.
  rewrite (read_size_ok _ _ _ _ Hx Hr). cbn [mbind option_bind negb]. cbn [position at_position set_data_size].
  rewrite length_app, tells by lia. cbn [m_data_size set_data_size].
  destruct (Z.eqb_spec (Z.of_nat (length pre + length d)) (-1)); [lia|].
  replace ((Z.of_nat (length pre + length d) =? 0) && _)%bool with false.
  2: { symmetry. destruct (Z.eqb_spec (Z.of_nat (length pre + length d)) 0) as [E|]; [|done]. rewrite E. by replace (Z.of_nat (length d)) with 0 by lia. }
  rewrite (proj2 (Z.leb_le (Z.of_nat (length d)) _)) by lia.
  edestruct (read_data_ok ReverseRead d (Z.of_nat (length pre))) as (r' & -> & Hb' & Hp' & _ & Hd').
  4: { intros r' Hr'. cbn in Hr' |- *. apply (ReverseRead_middle pre d (store32 (Z.of_nat (length d)) ++ post)); [by rewrite app_assoc|by rewrite Hr', length_app|done]. }
  - by destruct Hb.
  - done.
  - done.
  - by exists r'.
Qed.

Lemma good_start p q : good_buffer (mkReader p (fresh INITIAL_BUFFER) q.1 INITIAL_BUFFER q.2).
Proof.
  split; cbn [m_buffer m_buffer_size].
  - rewrite fresh_length. apply Z2Nat.id. unfold INITIAL_BUFFER. lia.
  - exists 20. split; [lia|reflexivity].
Qed.

Lemma new_reader memory : let r := new_RecordReader fresh memory in
  good_buffer r ∧ position r = 0 ∧ m_file_size r = file_size.
Proof.
  pose proof file_small. assert (0 <= file_size) by (unfold file_size; lia). unfold new_RecordReader, Reset. rewrite !seeks by lia. cbn [snd at_position position m_file_size m_buffer_size m_data_size m_buffer].
  rewrite tells, u32_small by lia. split; [|done]. exact (good_start 0 (file_size, memory.2)).
Qed.

Lemma new_reverse_reader memory : let r := new_ReverseRecordReader fresh memory in good_buffer r ∧ position r = file_size.
Proof.
  assert (0 <= file_size) by (unfold file_size; lia). unfold new_ReverseRecordReader, ReverseReset. rewrite seeks by lia. split; [|done]. exact (good_start file_size memory).
Qed.

(** *** All records *)

Definition before (rs : list bytes) (out : option (list bytes * Z * RecordReader)) : option (list bytes * Z * RecordReader) :=
  '(records, code, r) ← out; Some (rs ++ records, code, r).

(** The reader after the records between [pre] and [post]. *)
Lemma Next_records rs pre post r : content = pre ++ concat (encode <$> rs) ++ post → Forall fits rs → good_buffer r →
  position r = Z.of_nat (length pre) → m_file_size r = file_size →
  ∃ r', good_buffer r' ∧ position r' = Z.of_nat (length (pre ++ concat (encode <$> rs))) ∧ m_file_size r' = file_size ∧
    (rs = [] → r' = r) ∧ (∀ d, last rs = Some d → ReadRecord r' = Some d) ∧
    ∀ more, read_records (Next fresh) (length rs + more) r = before rs (read_records (Next fresh) more r').
Proof.
  revert pre r. induction rs as [|d rs IH]; intros pre r Hc Hrs Hb Hp Hs; cbn [length Nat.add].
  { exists r. cbn. rewrite app_nil_r. do 5 (split; [done|]). intros more. by destruct (read_records _ _ _) as [[[? ?] ?]|]. }
  apply Forall_cons_1 in Hrs as [Hd Hrs]. cbn [fmap list_fmap concat] in Hc |- *. rewrite <- app_assoc in Hc.
  destruct (Next_record pre d _ r Hc Hd Hb Hp Hs) as (r1 & Hn & Hb1 & Hp1 & Hs1 & Hd1).
  rewrite app_assoc in Hc. destruct (IH _ r1 Hc Hrs Hb1 Hp1 Hs1) as (r' & Hb' & Hp' & Hs' & He & Hl & Hk).
  exists r'. split; [done|]. split; [by rewrite app_assoc|]. split; [done|]. split; [done|]. split.
  { intros d' Hd'. destruct rs as [|d2 rs]; [|by apply Hl]. rewrite He by done. cbn in Hd'. by simplify_eq. }
  intros more. cbn [read_records]. rewrite Hn. cbn [mbind option_bind].
  change (1 =? 1) with true. cbn match. rewrite Hd1. cbn [mbind option_bind]. rewrite Hk. by destruct (read_records _ _ _) as [[[? ?] ?]|].
Qed.

Lemma ReverseNext_records rs pre post r : content = pre ++ concat (encode_back <$> rs) ++ post → Forall fits rs → good_buffer r →
  position r = Z.of_nat (length (pre ++ concat (encode_back <$> rs))) → 
  ∃ r', good_buffer r' ∧ position r' = Z.of_nat (length pre) ∧
    ∀ more, read_records (ReverseNext fresh) (length rs + more) r = before (reverse rs) (read_records (ReverseNext fresh) more r').
Proof.
  revert post r. induction rs as [|d rs IH] using rev_ind; intros post r Hc Hrs Hb Hp.
  { exists r. cbn in *. rewrite app_nil_r in Hp. do 2 (split; [done|]). intros more. by destruct (read_records _ _ _) as [[[? ?] ?]|]. }
  apply Forall_app in Hrs as [Hrs Hd]. apply Forall_cons_1 in Hd as [Hd _]. rewrite fmap_app, concat_app in Hc, Hp. cbn in Hc, Hp.
  rewrite app_nil_r in Hc, Hp. rewrite app_assoc in Hp. rewrite <- app_assoc, app_assoc in Hc.
  destruct (ReverseNext_record _ d post r Hc Hd Hb Hp) as (r1 & Hn & Hb1 & Hp1 & Hd1).
  rewrite <- app_assoc in Hc. destruct (IH _ r1 Hc Hrs Hb1 Hp1) as (r' & Hb' & Hp' & Hk).
  exists r'. split; [done|]. split; [done|]. intros more. rewrite length_app, Nat.add_1_r, reverse_app. cbn [Nat.add read_records].
  rewrite Hn. cbn [mbind option_bind]. change (1 =? 1) with true. cbn match. rewrite Hd1. cbn [mbind option_bind].
  rewrite Hk. by destruct (read_records _ _ _) as [[[? ?] ?]|].
Qed.

Lemma Next_end r : position r = file_size → m_file_size r = file_size → read_records (Next fresh) 1 r = Some ([], 0, r).
Proof.
  intros Hp Hs. assert (0 <= file_size) by (unfold file_size; lia). cbn. unfold Next. rewrite Hp, Hs, tells by lia.
  destruct (Z.eqb_spec file_size (-1)); [lia|]. by rewrite Z.eqb_refl.
Qed.

Lemma ReverseNext_end r : position r = 0 → read_records (ReverseNext fresh) 1 r = Some ([], 0, r).
Proof. intros Hp. assert (0 <= file_size) by (unfold file_size; lia). cbn. unfold ReverseNext. by rewrite Hp, tells by lia. Qed.

Lemma read_all rs memory : content = concat (encode <$> rs) → Forall fits rs →
  ∃ r, read_records (Next fresh) (S (length rs)) (new_RecordReader fresh memory) = Some (rs, 0, r).
Proof.
  intros Hc Hrs. destruct (new_reader memory) as (Hb & Hp & Hs).
  destruct (Next_records rs [] [] _ (eq_trans Hc (eq_sym (app_nil_r _))) Hrs Hb Hp Hs) as (r' & _ & Hp' & Hs' & _ & _ & Hk).
  exists r'. rewrite <- Nat.add_1_r, Hk, Next_end; [cbn; by rewrite app_nil_r| |done]. rewrite Hp'. cbn. by rewrite <- Hc.
Qed.

Lemma read_all_back rs memory : content = concat (encode_back <$> rs) → Forall fits rs →
  ∃ r, read_records (ReverseNext fresh) (S (length rs)) (new_ReverseRecordReader fresh memory) = Some (reverse rs, 0, r).
Proof.
  intros Hc Hrs. destruct (new_reverse_reader memory) as (Hb & Hp).
  assert (Hp0 : position (new_ReverseRecordReader fresh memory) = Z.of_nat (length ([] ++ concat (encode_back <$> rs)))).
  { rewrite Hp. cbn. by rewrite <- Hc. }
  destruct (ReverseNext_records rs [] [] _ (eq_trans Hc (eq_sym (app_nil_r _))) Hrs Hb Hp0) as (r' & _ & Hp' & Hk).
  exists r'. rewrite <- Nat.add_1_r, Hk, ReverseNext_end by done. cbn. by rewrite app_nil_r.
Qed.

(** *** A file cut inside its last record *)

(** The reader after the whole records. *)
Lemma torn rs tail memory : content = concat (encode <$> rs) ++ tail → Forall fits rs →
  ∃ r, position r = Z.of_nat (length (concat (encode <$> rs))) ∧ m_file_size r = file_size ∧ (∀ d, last rs = Some d → ReadRecord r = Some d) ∧
    ∀ more, read_records (Next fresh) (length rs + more) (new_RecordReader fresh memory) = before rs (read_records (Next fresh) more r).
Proof.
  intros Hc Hrs. destruct (new_reader memory) as (Hb & Hp & Hs).
  destruct (Next_records rs [] tail _ Hc Hrs Hb Hp Hs) as (r & _ & Hp' & Hs' & _ & Hl & Hk). by exists r.
Qed.

(** Too few bytes for a size, and the last record larger than they are. *)
Lemma Next_stuck pre tail d r : content = pre ++ tail → tail ≠ [] → (length tail < 4)%nat → (length tail < length d)%nat → fits d →
  position r = Z.of_nat (length pre) → m_file_size r = file_size → ReadRecord r = Some d → Next fresh r = Some (1, r).
Proof.
  intros Hc Ht Hlt Hd Hf Hp Hs Hr. assert (Hlen : file_size = Z.of_nat (length pre) + Z.of_nat (length tail)) by (unfold file_size; rewrite Hc, length_app; lia).
  assert (0 < length tail)%nat by (destruct tail; [done|cbn; lia]).
  assert (Hds : m_data_size r = Z.of_nat (length d) ∨ m_data_size r < 0).
  { unfold ReadRecord in Hr. destruct (Z.leb_spec (m_data_size r) (Z.of_nat (length (m_buffer r)))); [|done]. simplify_eq. rewrite length_take. lia. }
  unfold Next. rewrite Hp, Hs, tells by lia.
  destruct (Z.eqb_spec (Z.of_nat (length pre)) (-1)); [lia|]. destruct (Z.eqb_spec (Z.of_nat (length pre)) file_size); [lia|].
  rewrite (proj2 (Z.leb_gt 4 _)) by lia. cbn [mbind option_bind negb]. rewrite Hp, tells by lia.
  destruct (Z.eqb_spec (Z.of_nat (length pre)) (-1)); [lia|]. rewrite Hs, (proj2 (Z.leb_gt file_size _)) by lia. cbn [andb].
  destruct Hds as [->|]; [rewrite (proj2 (Z.leb_gt (Z.of_nat (length d)) _)) by lia; done|].
  unfold ReadRecord in Hr. destruct (Z.leb_spec (m_data_size r) (Z.of_nat (length (m_buffer r)))); [|done].
  replace (Z.to_nat (m_data_size r)) with 0%nat in Hr by lia. rewrite take_0 in Hr. simplify_eq. cbn in Hd. lia.
Qed.

(** A size, and fewer bytes of data than it says. *)
Lemma Next_torn pre x part r : content = pre ++ store32 x ++ part → 0 <= x < 2 ^ 32 → Z.of_nat (length part) < x →
  position r = Z.of_nat (length pre) → m_file_size r = file_size →
  Next fresh r = Some (if decide (part = []) then -1 else 1, set_data_size x (at_position (Z.of_nat (length (pre ++ store32 x))) r)).
Proof.
  intros Hc Hx Hd Hp Hs. assert (Hlen : file_size = Z.of_nat (length pre) + 4 + Z.of_nat (length part)).
  { unfold file_size. rewrite Hc, !length_app, store32_length. lia. }
  unfold Next. rewrite Hp, Hs, tells by lia.
  destruct (Z.eqb_spec (Z.of_nat (length pre)) (-1)); [lia|]. destruct (Z.eqb_spec (Z.of_nat (length pre)) file_size); [lia|].
  rewrite (proj2 (Z.leb_le 4 _)) by lia. pose proof (Read_middle pre _ _ r Hc Hp) as Hr. rewrite store32_length in Hr.
  rewrite (read_size_ok _ _ _ _ Hx Hr). cbn [mbind option_bind negb]. cbn [position at_position set_data_size].
  rewrite length_app, store32_length, tells by lia. cbn [m_file_size m_data_size set_data_size at_position]. rewrite Hs.
  destruct (Z.eqb_spec (Z.of_nat (length pre + 4)) (-1)); [lia|].
  rewrite (proj2 (Z.leb_gt x _)) by lia. destruct (decide (part = [])) as [->|Hn].
  - rewrite (proj2 (Z.leb_le file_size _)) by (cbn in Hlen; lia). destruct (Z.eqb_spec x 0); [cbn in Hd; lia|done].
  - assert (0 < length part)%nat by (destruct part; [done|cbn; lia]). by rewrite (proj2 (Z.leb_gt file_size _)) by lia.
Qed.

Lemma read_records_stuck d r fuel : Next fresh r = Some (1, r) → ReadRecord r = Some d → read_records (Next fresh) fuel r = None.
Proof. intros Hn Hr. induction fuel as [|fuel IH]; cbn; [done|]. rewrite Hn. cbn. rewrite Hr. cbn. by rewrite IH. Qed.
End Reader.

Lemma read_records_more next fuel more r out : read_records next fuel r = Some out → read_records next (fuel + more) r = Some out.
Proof.
  revert r out. induction fuel as [|fuel IH]; intros r out E; [done|]. cbn in *. destruct (next r) as [[code r1]|]; [|done]. cbn in *.
  destruct (code =? 1); [|done]. destruct (ReadRecord r1); [|done]. cbn in *.
  destruct (read_records next fuel r1) as [[[rs c] r2]|] eqn:E1; [|done]. by rewrite (IH _ _ E1).
Qed.

(** ** The theorems *)

(** C18: record files, whatever number of bytes each call of [Write] takes and
    of [Read] gives.  Writing records of less than 2 GiB succeeds, and a reader
    of a file below 4 GiB with what was written gives the records, in order,
    and then says that there are no more; the reverse writer's file is read by
    the reverse reader in the opposite order.  So every loop of the writers and
    the readers ends, and the buffer always holds the record. *)
Theorem records_read_back `{GoodSink} (fresh : Z → bytes) (fresh_length : ∀ n, length (fresh n) = Z.to_nat n) (records : list bytes) :
  Forall fits records →
  (∃ file, write_records WriteRecord records [] = Some (true, file) ∧
    ∀ `{GoodFile} memory, content = file →
      ∃ r, read_records (Next fresh) (S (length records)) (new_RecordReader fresh memory) = Some (records, 0, r)) ∧
  (∃ file, write_records ReverseWriteRecord records [] = Some (true, file) ∧
    ∀ `{GoodFile} memory, content = file →
      ∃ r, read_records (ReverseNext fresh) (S (length records)) (new_ReverseRecordReader fresh memory) = Some (reverse records, 0, r)).
Proof.
  intros Hr. split.
  - exists (concat (encode <$> records)). split; [by apply (write_records_ok _ encode); [intros; by apply write_one_ok|]|].
    intros F HF memory Hc. by apply read_all.
  - exists (concat (encode_back <$> records)). split; [by apply (write_records_ok _ encode_back); [intros; by apply write_back_one_ok|]|].
    intros F HF memory Hc. by apply read_all_back.
Qed.

(** C32: a record file cut inside its last record, after whole ones.  If one to
    three bytes of its size are left and the record before is longer than they
    are, [Next] answers 1 with that record for ever, so that the client's loop
    does not end.  If only its size is left, [Next] fails.  If some of its data
    is left, [Next] answers 1 and the record is what the buffer happens to
    hold, or reaches outside it. *)
Theorem torn_record `{GoodFile} (fresh : Z → bytes) (fresh_length : ∀ n, length (fresh n) = Z.to_nat n) (records : list bytes) tail memory :
  Forall fits records → content = concat (encode <$> records) ++ tail →
  ∃ r, (∀ more, read_records (Next fresh) (length records + more) (new_RecordReader fresh memory) = before records (read_records (Next fresh) more r)) ∧
    (∀ d, last records = Some d → (0 < length tail < 4)%nat → (length tail < length d)%nat →
      Next fresh r = Some (1, r) ∧ ReadRecord r = Some d ∧ ∀ fuel, read_records (Next fresh) fuel (new_RecordReader fresh memory) = None) ∧
    (∀ x part, tail = store32 x ++ part → Z.of_nat (length part) < x < 2 ^ 32 →
      ∃ r', Next fresh r = Some (if decide (part = []) then -1 else 1, r') ∧
        ReadRecord r' = if x <=? Z.of_nat (length (m_buffer r)) then Some (take (Z.to_nat x) (m_buffer r)) else None).
Proof.
  intros Hr Hc. destruct (torn fresh fresh_length records tail memory Hc Hr) as (r & Hp & Hs & Hl & Hk). exists r. split; [done|]. split.
  - intros d Hd Ht Htd. assert (Hd' := Hl d Hd).
    assert (Hf : fits d) by (rewrite Forall_forall in Hr; apply Hr; by apply last_Some_elem_of).
    assert (Hn : Next fresh r = Some (1, r)) by (apply (Next_stuck fresh (concat (encode <$> records)) tail d); try done; [intros ->; cbn in Ht; lia|lia]).
    split; [done|]. split; [done|]. intros fuel. destruct (read_records _ fuel _) as [out|] eqn:E; [|done].
    apply (read_records_more _ _ (length records)) in E. rewrite Nat.add_comm, Hk, (read_records_stuck fresh d) in E by done. done.
  - intros x part -> Hx. rewrite (Next_torn fresh (concat (encode <$> records)) x part) by (done || lia). eexists. split; [done|]. done.
Qed.

(** *** Witnesses *)

Definition one_byte_sink : Sink := {| write_ret _ _ := 1 |}.
Definition memory_file (p : bytes) : RecordFile := {| content := p; read_ret _ _ := 1; tell_ret p := p; seek_to _ := true |}.
Definition zeroed (n : Z) : bytes := replicate (Z.to_nat n) 0.

Lemma one_byte_takes : @GoodSink one_byte_sink.
Proof. split. intros file [|b data]; [done|]. cbn. lia. Qed.

Lemma memory_good p : Z.of_nat (length p) < 2 ^ 32 → @GoodFile (memory_file p).
Proof. intros Hp. split; cbn; (done || lia). Qed.

Lemma zeroed_length n : length (zeroed n) = Z.to_nat n.
Proof. apply length_replicate. Qed.

Lemma records_read_back_witness : Forall fits [str "one"; []; str "three"] ∧ 
  ∃ file, write_records (@WriteRecord one_byte_sink) [str "one"; []; str "three"] [] = Some (true, file) ∧
    ∃ r, read_records (@Next (memory_file file) zeroed) 4 (@new_RecordReader (memory_file file) zeroed (7, 9)) = Some ([str "one"; []; str "three"], 0, r).
Proof.
  assert (Hf : Forall fits [str "one"; []; str "three"]) by (repeat constructor).
  split; [done|]. destruct (@records_read_back one_byte_sink one_byte_takes zeroed zeroed_length _ Hf) as [(file & Hw & Hr) _].
  exists file. split; [done|]. apply (Hr (memory_file file)); [|done]. apply memory_good. 
  assert (E : file = concat (encode <$> [str "one"; []; str "three"])) by (vm_compute in Hw |- *; by simplify_eq). rewrite E. vm_compute. done.
Defined.

Lemma torn_record_witness : ∃ r, let file := encode (str "three") ++ [3; 0] in
  @Next (memory_file file) zeroed r = Some (1, r) ∧ ReadRecord r = Some (str "three") ∧
  ∀ fuel, read_records (@Next (memory_file file) zeroed) fuel (@new_RecordReader (memory_file file) zeroed (7, 9)) = None.
Proof.
  set (file := encode (str "three") ++ [3; 0]).
  destruct (@torn_record (memory_file file) (memory_good file ltac:(vm_compute; done)) zeroed zeroed_length [str "three"] [3; 0] (7, 9)) as (r & _ & Hr & _).
  - by repeat constructor.
  - done.
  - exists r. apply (Hr (str "three")); [done|cbn; lia|cbn; lia].
Defined.
