(* ===== verification/Print.v ===== *)
(** * Formatted output

    Model of base/string/format/print_arg.cpp, print_targets, vprint.cpp and of
    [StringPrintTo], [StringPrintAppend] and [StringPrint] of print.cpp, whose
    overloads put their arguments into an array: here a list.

    What [snprintf] makes of a floating-point number or of a pointer is the C
    library's, a parameter.  A call that is undefined, or throws, is [None];
    [LOG(DFATAL)] only logs.  The text a target has no room for is lost. *)

From S2P Require Import Prelude CType ByteSet Number Specification Scan.

(** ** Targets *)

Class FormatPrintTarget (T : Type) := {
  WriteChar : Z → T → T;
  DoWriteChars : Z → Z → T → T;
  DoWriteString : bytes → T → T
}.

Section Target.
Context `{FormatPrintTarget T}.
Definition WriteChars (c count : Z) (t : T) : T := if count =? 0 then t else DoWriteChars c count t.
Definition target_WriteString (s : bytes) (t : T) : T := match s with [] => t | _ => DoWriteString s t end.
End Target.

(** [StringFormatPrintTarget] *)
#[export] Instance string_target : FormatPrintTarget bytes := {
  WriteChar c s := s ++ [c];
  DoWriteChars c count s := s ++ replicate (Z.to_nat count) c;
  DoWriteString str s := s ++ str
}.

(** [BufferFormatPrintTarget]: the bytes written so far, and the size. *)
Record BufferFormatPrintTarget := mkBuffer { m_buffer : bytes; m_size : Z }.

Definition FreeSize (b : BufferFormatPrintTarget) : Z :=
  if 0 <? m_size b then m_size b - Z.of_nat (length (m_buffer b)) - 1 else 0.
Definition WritableSize (expected : Z) (b : BufferFormatPrintTarget) : Z := Z.min (FreeSize b) expected.

#[export] Instance buffer_target : FormatPrintTarget BufferFormatPrintTarget := {
  WriteChar c b := if 0 <? FreeSize b then mkBuffer (m_buffer b ++ [c]) (m_size b) else b;
  DoWriteChars c count b := mkBuffer (m_buffer b ++ replicate (Z.to_nat (WritableSize count b)) c) (m_size b);
  DoWriteString s b := mkBuffer (m_buffer b ++ take (Z.to_nat (WritableSize (Z.of_nat (length s)) b)) s) (m_size b)
}.

(** The destructor ends the text. *)
Definition closed (b : BufferFormatPrintTarget) : bytes :=
  if Z.of_nat (length (m_buffer b)) <? m_size b then m_buffer b ++ [0] else m_buffer b.

(** ** Arguments *)

Class PrintLibrary := {
  print_float : Type;
  float_less_0 : print_float → bool;
  snprintf_float : bytes → float_type → print_float → bytes;
  snprintf_pointer : Z → bytes
}.

Section Print.
Context {L : PrintLibrary}.

(** A [const char*] is its address and the bytes it may read. *)
Inductive print_arg := PBool (b : bool) | PChar (c : Z) | PInt (t : int_type) (n : Z) | PFloat (k : float_type) (x : print_float)
  | PText (address : Z) (s : bytes) | PString (s : bytes) | PPointer (n : Z).

Section Write.
Context `{FormatPrintTarget T}.

Definition WriteString (target : T) (spec : PrintSpecification) (text : bytes) : Z * T :=
  let size := Z.of_nat (length text) in
  if (negb (has_width (print_base spec)) || (width (print_base spec) <=? size))%bool
  then (size, target_WriteString text target)
  else
    let padding := width (print_base spec) - size in
    let target :=
      if left (flags spec) then WriteChars (chr " ") padding (target_WriteString text target)
      else target_WriteString text (WriteChars (chr " ") padding target) in
    (width (print_base spec), target).

Definition write_sign (sign : Z) (t : T) : T := if sign =? 0 then t else WriteChar sign t.

Definition WriteNumberString (target : T) (spec : PrintSpecification) (sign : Z) (prefix : bytes) (leading_zeros : Z)
    (digits : bytes) (padding_zeros : Z) (exp : bytes) : Z * T :=
  let num_size := (if sign =? 0 then 0 else 1) + Z.of_nat (length prefix) + leading_zeros + Z.of_nat (length digits) +
    padding_zeros + Z.of_nat (length exp) in
  let number zeros t :=
    target_WriteString exp (WriteChars (chr "0") padding_zeros (target_WriteString digits
      (WriteChars (chr "0") zeros (target_WriteString prefix (write_sign sign t))))) in
  if (negb (has_width (print_base spec)) || (width (print_base spec) <=? num_size))%bool
  then (num_size, number leading_zeros target)
  else
    let fill_count := width (print_base spec) - num_size in
    let target :=
      if left (flags spec) then WriteChars (chr " ") fill_count (number leading_zeros target)
      else if zero (flags spec) then number (fill_count + leading_zeros) target
      else number leading_zeros (WriteChars (chr " ") fill_count target) in
    (width (print_base spec), target).

(** The digits from the last to the first; 64 are enough for 64 bits. *)
Fixpoint unsigned_loop (fuel : nat) (base value : Z) (digits_table : bytes) : bytes :=
  match fuel with
  | O => []
  | S fuel =>
      default 0 (digits_table !! Z.to_nat (value mod base)) ::
        (if value / base =? 0 then [] else unsigned_loop fuel base (value / base) digits_table)
  end.
Definition UnsignedToString (base value : Z) (digits_table : bytes) : bytes := reverse (unsigned_loop 64 base value digits_table).

(** What [snprintf] leaves in a buffer. *)
Definition snprintf_buffer (size : nat) (text : bytes) : bytes := take (size - 1) text ++ [0].

Definition WriteVoidPtr (target : T) (spec : PrintSpecification) (value : Z) : option (Z * T) :=
  if negb (SpecifierMatch (print_base spec) (chr "p")) then Some (0, target)
  else if value =? 0 then Some (WriteString target spec (str "(null)"))
  else
    let text := snprintf_pointer value in
    if (32 <? length text)%nat then None
    else Some (WriteString target spec (take (length text) (snprintf_buffer 32 text))).

Definition WriteBool (target : T) (spec : PrintSpecification) (value : bool) : option (Z * T) :=
  if negb (SpecifierMatch (print_base spec) (chr "b")) then Some (0, target)
  else Some (WriteString target spec (if value then str "true" else str "false")).

Definition WriteCharValue (target : T) (spec : PrintSpecification) (value : Z) : option (Z * T) :=
  if negb (SpecifierMatch (print_base spec) (chr "c")) then Some (0, target)
  else Some (WriteString target spec [value]).

(** [strlen], and [strnlen] when [n] is not [None]. *)
Fixpoint strnlen (n : option nat) (s : bytes) : option nat :=
  match n with
  | Some O => Some 0%nat
  | _ =>
      match s with
      | [] => None
      | c :: s => if c =? 0 then Some 0%nat else S <$> strnlen (pred <$> n) s
      end
  end.

(** A negative precision is a [size_t] greater than any string. *)
Definition WriteText (target : T) (spec : PrintSpecification) (address : Z) (value : bytes) : option (Z * T) :=
  if negb (SpecifierMatch_any (print_base spec) (str "sp")) then Some (0, target)
  else if specifier (print_base spec) =? chr "p" then WriteVoidPtr target spec address
  else if address =? 0 then None
  else
    n ← strnlen (if (has_precision spec && (0 <=? precision spec))%bool then Some (Z.to_nat (precision spec)) else None) value;
    Some (WriteString target spec (take n value)).

(** A negative size is a [size_t] that [append] throws at. *)
Definition WriteStdString (target : T) (spec : PrintSpecification) (value : bytes) : option (Z * T) :=
  if negb (SpecifierMatch (print_base spec) (chr "s")) then Some (0, target)
  else
    let length := Z.of_nat (length value) in
    let length := if (has_precision spec && (precision spec <? length))%bool then precision spec else length in
    if length <? 0 then None else Some (WriteString target spec (take (Z.to_nat length) value)).

Definition PrefixOf (spec : PrintSpecification) (is_zero : bool) : bytes :=
  if (negb is_zero && sharp (flags spec))%bool then
    let c := specifier (print_base spec) in
    if c =? chr "o" then str "0" else if c =? chr "x" then str "0x" else if c =? chr "X" then str "0X" else []
  else [].

Definition SignOf (spec : PrintSpecification) (neg : bool) : Z :=
  if neg then chr "-" else if sign (flags spec) then chr "+" else if space (flags spec) then chr " " else 0.

(** The type an argument of an arithmetic operation has. *)
Definition promoted (t : int_type) : int_type := if bits t <? 32 then t_int else t.
Definition ToUnsigned (t : int_type) (n : Z) : Z := n mod 2 ^ bits (promoted t).

Definition leading_zeros (spec : PrintSpecification) (n : nat) : Z :=
  if (has_precision spec && (Z.of_nat n <? precision spec))%bool then precision spec - Z.of_nat n else 0.

Definition among (spec : PrintSpecification) (cs : bytes) : bool := bool_decide (specifier (print_base spec) ∈ cs).

(** The digits in [buf] of a value of an unsigned type. *)
Definition unsigned_digits (spec : PrintSpecification) (value : Z) : bytes :=
  if among spec (str "x") then UnsignedToString 16 value (str "0123456789abcdef")
  else if among spec (str "X") then UnsignedToString 16 value (str "0123456789ABCDEF")
  else if among spec (str "o") then UnsignedToString 8 value (str "01234567")
  else [].

(** Digits without any when the value and the precision are 0. *)
Definition with_precision (spec : PrintSpecification) (value : Z) (digits : bytes) : bytes :=
  if (has_precision spec && (value =? 0) && (precision spec =? 0))%bool then [] else digits.

Definition WriteSigned (t : int_type) (target : T) (spec : PrintSpecification) (value : Z) : option (Z * T) :=
  if negb (SpecifierMatch_any (print_base spec) (str "idxXo")) then Some (-1, target)
  else
    let digits :=
      if among spec (str "idv") then
        let buf := WriteIntegerToBuffer (promoted t) value in
        match buf with c :: rest => if c =? chr "-" then rest else buf | [] => buf end
      else unsigned_digits spec (ToUnsigned t value) in
    let digits := with_precision spec value digits in
    Some (WriteNumberString target spec (SignOf spec (value <? 0)) (PrefixOf spec (value =? 0))
      (leading_zeros spec (length digits)) digits 0 []).

Definition WriteUnsigned (t : int_type) (target : T) (spec : PrintSpecification) (value : Z) : option (Z * T) :=
  if negb (SpecifierMatch_any (print_base spec) (str "uidxXo")) then Some (-1, target)
  else
    let digits :=
      if among spec (str "iduv") then WriteIntegerToBuffer (promoted t) value else unsigned_digits spec value in
    let digits := with_precision spec value digits in
    Some (WriteNumberString target spec 0 (PrefixOf spec (value =? 0)) (leading_zeros spec (length digits)) digits 0 []).

Definition float_length (k : float_type) : bytes := match k with Float => [] | Double => str "l" | LongDouble => str "L" end.

(** [digits] is computed, and [buf] is written. *)
Definition WriteFloat (k : float_type) (target : T) (spec : PrintSpecification) (value : print_float) : option (Z * T) :=
  if negb (SpecifierMatch_any (print_base spec) (str "aefgAEFG")) then Some (-1, target)
  else
    let c := if specifier (print_base spec) =? chr "v" then chr "g" else specifier (print_base spec) in
    let format :=
      str "%" ++ (if has_precision spec then str "." ++ signed_decimal (Z.min (precision spec) 16)
                  else if sharp (flags spec) then str ".6" else []) ++ float_length k ++ [c] in
    let text := snprintf_float format k value in
    let buf := snprintf_buffer 4096 text in
    let n := match buf with b :: _ => if b =? chr "-" then (length text - 1)%nat else length text | [] => length text end in
    if (4096 <? n)%nat then None
    else Some (WriteNumberString target spec (SignOf spec (float_less_0 value)) [] 0 (take n buf) 0 []).

(** [PrintValueWriter<T>::Write], which [m_write] points to. *)
Definition FormatPrintArg_Write (a : print_arg) (target : T) (spec : PrintSpecification) : option (Z * T) :=
  match a with
  | PBool b => WriteBool target spec b
  | PChar c => WriteCharValue target spec c
  | PInt t n => if signed t then WriteSigned t target spec n else WriteUnsigned t target spec n
  | PFloat k x => WriteFloat k target spec x
  | PText p s => WriteText target spec p s
  | PString s => WriteStdString target spec s
  | PPointer p => WriteVoidPtr target spec p
  end.
End Write.

(** An argument as a width or precision. *)
Definition AsInt (a : print_arg) : option Z :=
  let spec := mkPrintSpecification (set_specifier (chr "d") new_FormatSpecification) (flags new_PrintSpecification) (-1) in
  '(n, t) ← FormatPrintArg_Write a (mkBuffer [] 32) spec;
  Some (if n <=? 0 then -1 else match StringToNumber t_int (closed t) with Some n => n | None => -1 end).

(** ** Formats *)

Section Format.
Context `{FormatPrintTarget T}.

(** The position of [ch] or of the NUL. *)
Fixpoint strchrnul (s : bytes) (ch : Z) : option nat :=
  match s with [] => None | c :: s => if ((c =? 0) || (c =? ch))%bool then Some 0%nat else S <$> strchrnul s ch end.

Definition DoFillSpeciationFromArg (value : Z) (args : list print_arg) (arg_index : nat) : option (bool * Z * nat) :=
  match args !! arg_index with
  | None => Some (false, value, arg_index)
  | Some a => n ← AsInt a; Some (if n <? - chr "*" then (false, n, arg_index) else (true, n, S arg_index))
  end.
Definition FillSpeciationFromArg (value : Z) (args : list print_arg) (arg_index : nat) : option (bool * Z * nat) :=
  if value =? - chr "*" then DoFillSpeciationFromArg value args arg_index else Some (true, value, arg_index).

Fixpoint vprint_loop (fuel : nat) (f : bytes) (args : list print_arg) (ai : nat) (total_printed : Z) (target : T) : option (Z * T) :=
  match fuel with
  | O => None
  | S fuel =>
      c ← f !! 0%nat;
      if c =? 0 then Some (total_printed, target)
      else
        p ← strchrnul f (chr "%");
        let target := target_WriteString (take p f) target in
        let total_printed := total_printed + Z.of_nat p in
        let f := drop p f in
        c ← f !! 0%nat;
        if c =? 0 then vprint_loop fuel f args ai total_printed target
        else
          d ← f !! 1%nat;
          if d =? 0 then Some (-1, target)
          else if d =? chr "%" then vprint_loop fuel (drop 2 f) args ai (total_printed + 1) (WriteChar (chr "%") target)
          else
            '(n, spec) ← PrintSpecification_Parse (drop 1 f) new_PrintSpecification;
            if (n =? 0)%nat then Some (-1, target)
            else
              '(ok, w, ai) ← FillSpeciationFromArg (width (print_base spec)) args ai;
              if negb ok then Some (-1, target)
              else
                '(ok, p, ai) ← FillSpeciationFromArg (precision spec) args ai;
                if negb ok then Some (-1, target)
                else
                  match args !! ai with
                  | None => Some (-1, target)
                  | Some a =>
                      '(printed, target) ← FormatPrintArg_Write a target
                        (mkPrintSpecification (set_width w (print_base spec)) (flags spec) p);
                      if printed <? 0 then Some (-1, target)
                      else vprint_loop fuel (drop (1 + n) f) args (S ai) (total_printed + printed) target
                  end
  end.

(** Every round moves [f] on.  Arguments that are left over are only logged. *)
Definition VFormatPrint (target : T) (format : bytes) (args : list print_arg) : option (Z * T) :=
  vprint_loop (S (length format)) format args 0 0 target.
End Format.

Definition StringVPrintAppend (target format : bytes) (args : list print_arg) : option (Z * bytes) :=
  VFormatPrint target (c_string_of format) args.
Definition StringVPrintTo (target format : bytes) (args : list print_arg) : option (Z * bytes) := StringVPrintAppend [] format args.
Definition StringVPrint (format : bytes) (args : list print_arg) : option bytes := snd <$> StringVPrintAppend [] format args.

Definition StringPrintTo (out format : bytes) (args : list print_arg) := StringVPrintTo out format args.
Definition StringPrintAppend (out format : bytes) (args : list print_arg) := StringVPrintAppend out format args.
Definition StringPrint (format : bytes) (args : list print_arg) := StringVPrint format args.
End Print.

(** ** Examples *)

(** A library that prints numbers in thousandths, and addresses in hexadecimal. *)
Definition thousandths (format : bytes) (k : float_type) (x : Z) : bytes :=
  (if x <? 0 then str "-" else []) ++ decimal (Z.abs x / 1000) ++ str "." ++ drop 1 (decimal (1000 + Z.abs x mod 1000)).

#[local] Instance thousandths_library : PrintLibrary := {
  print_float := Z; float_less_0 x := x <? 0; snprintf_float := thousandths;
  snprintf_pointer p := str "0x" ++ UnsignedToString 16 p (str "0123456789abcdef")
}.

Example print_example :
  StringPrint (str "%-6s|%+05d|%#x|%*.*d|%c%%|%b") [PString (str "abc"); PInt t_int 42; PInt t_uint 255; PInt t_int 6; PInt t_short 3; PInt t_long (-7); PChar (chr "!"); PBool true] =
    Some (str "abc   |+0042|0xff|  -007|!%|true").
Proof. by vm_compute. Qed.

(** The sign of a negative number is printed twice, and its last digit is not. *)
Example print_negative_float : StringPrint (str "%f") [PFloat Double (-1500)] = Some (str "--1.50").
Proof. by vm_compute. Qed.

(** A negative number in hexadecimal has a sign besides its complement. *)
Example print_negative_hex : StringPrint (str "%x") [PInt t_int (-1)] = Some (str "-ffffffff").
Proof. by vm_compute. Qed.

(** An argument of the wrong type is left out. *)
Example print_mismatch : StringPrintTo [] (str "<%d>") [PString (str "x")] = Some (2, str "<>").
Proof. by vm_compute. Qed.
