(* ===== verification/PrintFacts.v ===== *)
(** * Formatted output: what is printed, and that it scans

    A target appends: what is printed does not depend on the target, a
    string or a buffer, and is the text of each field in its order.  The text of an
    integer is its numeral with its sign, its prefix, its zeros and its
    padding; and what one format prints, the same format scans. *)

From S2P Require Import Prelude CType ByteSet Number Specification Scan Print.

(** ** Targets append *)

Class LawfulTarget (T : Type) `{FormatPrintTarget T} := {
  emit : bytes → T → T;
  emit_nil t : emit [] t = t;
  emit_app a b t : emit b (emit a t) = emit (a ++ b) t;
  WriteChar_emit c t : WriteChar c t = emit [c] t;
  DoWriteChars_emit c n t : 0 <= n → DoWriteChars c n t = emit (replicate (Z.to_nat n) c) t;
  DoWriteString_emit s t : DoWriteString s t = emit s t
}.

#[export] Program Instance string_lawful : LawfulTarget bytes := { emit s t := t ++ s }.
Next Obligation. intros t. apply app_nil_r. Qed.
Next Obligation. intros a b t. symmetry. apply app_assoc. Qed.
Next Obligation. done. Qed.
Next Obligation. done. Qed.
Next Obligation. done. Qed.

Definition buffer_emit (s : bytes) (b : BufferFormatPrintTarget) : BufferFormatPrintTarget :=
  mkBuffer (m_buffer b ++ take (Z.to_nat (FreeSize b)) s) (m_size b).

#[export] Program Instance buffer_lawful : LawfulTarget BufferFormatPrintTarget := { emit := buffer_emit }.
Next Obligation. intros [m n]. unfold buffer_emit. by rewrite take_nil, app_nil_r. Qed.
Next Obligation.
  intros a b [m n]. unfold buffer_emit. cbn. rewrite <- app_assoc. do 2 f_equal.
  set (k := Z.to_nat (FreeSize (mkBuffer m n))). rewrite take_app. f_equal. f_equal.
  unfold k, FreeSize. cbn. rewrite length_app, length_take. destruct (0 <? n); lia.
Qed.
Next Obligation.
  intros c [m n]. unfold buffer_emit. cbn. destruct (Z.ltb_spec 0 (FreeSize (mkBuffer m n))).
  - destruct (Z.to_nat _) eqn:E; [lia|]. cbn. by rewrite take_nil.
  - replace (Z.to_nat _) with 0%nat by lia. by rewrite take_0, app_nil_r.
Qed.
Next Obligation.
  intros c k [m n] Hk. unfold buffer_emit, WritableSize. cbn. do 2 f_equal. rewrite take_replicate. f_equal. apply Z2Nat.inj_min.
Qed.
Next Obligation.
  intros s [m n]. unfold buffer_emit. cbn. unfold WritableSize. do 2 f_equal. set (k := FreeSize _).
  destruct (Z.leb_spec k (Z.of_nat (length s))); [by rewrite Z.min_l|].
  rewrite Z.min_r, Nat2Z.id, !firstn_all2 by lia. done.
Qed.

Section Target.
Context `{LawfulTarget T}.

Lemma WriteChars_emit c n t : 0 <= n → WriteChars c n t = emit (replicate (Z.to_nat n) c) t.
Proof.
  intros Hn. unfold WriteChars. destruct (Z.eqb_spec n 0) as [->|]; [by rewrite emit_nil|]. by apply DoWriteChars_emit.
Qed.

Lemma target_WriteString_emit s t : target_WriteString s t = emit s t.
Proof. destruct s; cbn; [by rewrite emit_nil|]. apply DoWriteString_emit. Qed.
End Target.

(** ** Fields *)

Definition filled (n : Z) : bytes := replicate (Z.to_nat n) (chr " ").

(** A text in its width. *)
Definition justified (spec : PrintSpecification) (text : bytes) : bytes :=
  let padding := filled (width (print_base spec) - Z.of_nat (length text)) in
  if has_width (print_base spec) then if left (flags spec) then text ++ padding else padding ++ text else text.

(** A number of a sign, a prefix, zeros and digits in its width, which is
    filled with zeros behind the prefix when the flags say so. *)
Definition number_body (sign : Z) (prefix : bytes) (zeros : Z) (digits : bytes) : bytes :=
  (if sign =? 0 then [] else [sign]) ++ prefix ++ replicate (Z.to_nat zeros) (chr "0") ++ digits.
Definition number_text (spec : PrintSpecification) (sign : Z) (prefix : bytes) (zeros : Z) (digits : bytes) : bytes :=
  let body := number_body sign prefix zeros digits in
  let fill := Z.max 0 (width (print_base spec) - Z.of_nat (length body)) in
  if has_width (print_base spec) then
    if left (flags spec) then body ++ filled fill
    else if zero (flags spec) then number_body sign prefix (fill + zeros) digits
    else filled fill ++ body
  else body.

Lemma length_filled n : Z.of_nat (length (filled n)) = Z.max 0 n.
Proof. unfold filled. rewrite length_replicate. lia. Qed.

Lemma filled_none n : n <= 0 → filled n = [].
Proof. intros Hn. unfold filled. by replace (Z.to_nat n) with 0%nat by lia. Qed.

Lemma length_number_body sign prefix zeros digits : 0 <= zeros →
  Z.of_nat (length (number_body sign prefix zeros digits)) =
    (if sign =? 0 then 0 else 1) + Z.of_nat (length prefix) + zeros + Z.of_nat (length digits).
Proof. intros Hz. unfold number_body. rewrite !length_app, length_replicate. destruct (sign =? 0); cbn; lia. Qed.

Section Fields.
Context {L : PrintLibrary} `{LawfulTarget T}.

Lemma WriteString_emit (t : T) spec text :
  WriteString t spec text = (Z.of_nat (length (justified spec text)), emit (justified spec text) t).
Proof.
  unfold WriteString, justified. pose proof (length_filled (width (print_base spec) - Z.of_nat (length text))) as Hl.
  destruct (has_width (print_base spec)); cbn [negb orb].
  2: { by rewrite target_WriteString_emit. }
  destruct (Z.leb_spec (width (print_base spec)) (Z.of_nat (length text))).
  - rewrite filled_none, app_nil_r, app_nil_l, target_WriteString_emit by lia. by destruct (left (flags spec)).
  - rewrite !target_WriteString_emit, !WriteChars_emit by lia. fold (filled (width (print_base spec) - Z.of_nat (length text))).
    destruct (left (flags spec)); rewrite emit_app, length_app; f_equal; lia.
Qed.

Lemma WriteNumberString_emit (t : T) spec sign prefix zeros digits : 0 <= zeros →
  WriteNumberString t spec sign prefix zeros digits 0 [] =
    (Z.of_nat (length (number_text spec sign prefix zeros digits)), emit (number_text spec sign prefix zeros digits) t).
Proof.
  intros Hz. unfold WriteNumberString, number_text.
  assert (Hn : ∀ z t', 0 <= z → target_WriteString [] (WriteChars (chr "0") 0 (target_WriteString digits (WriteChars (chr "0") z
      (target_WriteString prefix (write_sign sign t'))))) = emit (number_body sign prefix z digits) t').
  { intros z t' Hz'. rewrite !target_WriteString_emit, !WriteChars_emit, !emit_app by lia. cbn [Z.to_nat replicate]. rewrite !app_nil_r.
    unfold write_sign, number_body. destruct (sign =? 0); rewrite ?WriteChar_emit, ?emit_app; cbn; by rewrite <- ?app_assoc. }
  pose proof (length_number_body sign prefix zeros digits Hz) as Hb. set (body := number_body sign prefix zeros digits) in *.
  replace (_ + 0 + Z.of_nat (length [])) with (Z.of_nat (length body)) by (cbn; lia).
  destruct (has_width (print_base spec)); cbn [negb orb]; [|by rewrite Hn].
  pose proof (length_filled (width (print_base spec) - Z.of_nat (length body))) as Hl.
  destruct (Z.leb_spec (width (print_base spec)) (Z.of_nat (length body))).
  - rewrite Hn by lia. fold body. rewrite Z.max_l by lia. rewrite (filled_none 0), app_nil_r, app_nil_l, Z.add_0_l by lia. fold body.
    by destruct (left (flags spec)), (zero (flags spec)).
  - rewrite Z.max_r by lia. rewrite !Hn, !WriteChars_emit by lia. fold body. fold (filled (width (print_base spec) - Z.of_nat (length body))).
    destruct (left (flags spec)); [rewrite emit_app, length_app; f_equal; lia|].
    destruct (zero (flags spec)); [rewrite length_number_body; f_equal; lia|rewrite emit_app, length_app; f_equal; lia].
Qed.

Lemma leading_zeros_nonneg spec n : 0 <= leading_zeros spec n.
Proof. unfold leading_zeros. destruct (has_precision spec && _)%bool eqn:E; [|lia]. apply andb_true_iff in E as [_ E%Z.ltb_lt]. lia. Qed.

(** What a call appends to a target, and how it answers. *)
Definition writes (write : ∀ T, FormatPrintTarget T → T → option (Z * T)) : Prop :=
  ∃ out : option (Z * bytes),
    (∀ (T : Type) (F : FormatPrintTarget T) (HL : LawfulTarget T) t, write T F t = '(n, text) ← out; Some (n, emit text t)) ∧
    (∀ n text, out = Some (n, text) → n = Z.of_nat (length text) ∨ n = -1 ∧ text = []).
End Fields.

Section Writes.
Context {L : PrintLibrary}.

Lemma writes_none : writes (λ _ _ _, None).
Proof. by exists None. Qed.

Lemma writes_code n : n = 0 ∨ n = -1 → writes (λ _ _ t, Some (n, t)).
Proof.
  intros Hn. exists (Some (n, [])). split; [intros; cbn; by rewrite emit_nil|]. intros ? ? [= <- <-]. destruct Hn as [->| ->]; [by left|by right].
Qed.

Lemma writes_string spec text : writes (λ T _ t, Some (WriteString t spec text)).
Proof.
  exists (Some (Z.of_nat (length (justified spec text)), justified spec text)). split.
  - intros. cbn. by rewrite WriteString_emit.
  - intros ? ? [= <- <-]. by left.
Qed.

Lemma writes_number spec sign prefix zeros digits : 0 <= zeros → writes (λ T _ t, Some (WriteNumberString t spec sign prefix zeros digits 0 [])).
Proof.
  intros Hz. exists (Some (Z.of_nat (length (number_text spec sign prefix zeros digits)), number_text spec sign prefix zeros digits)). split.
  - intros. cbn. by rewrite WriteNumberString_emit.
  - intros ? ? [= <- <-]. by left.
Qed.

Lemma writes_if (b : bool) f g : writes f → writes g → writes (λ T F t, if b then f T F t else g T F t).
Proof. by destruct b. Qed.

Ltac written := first [apply writes_none | apply writes_code; lia | apply writes_string | apply writes_number; apply leading_zeros_nonneg
  | apply writes_number; lia | apply writes_if; [written|written]].

Lemma writes_pointer spec p : writes (λ T F t, WriteVoidPtr t spec p).
Proof. unfold WriteVoidPtr. cbv zeta. written. Qed.

(** Every call of [Write] appends the same text to every target. *)
Lemma Write_writes a spec : writes (λ T F t, FormatPrintArg_Write a t spec).
Proof.
  destruct a as [b|c|t n|k x|p s|s|p]; cbn [FormatPrintArg_Write].
  - unfold WriteBool. written.
  - unfold WriteCharValue. written.
  - destruct (signed t); unfold WriteSigned, WriteUnsigned; cbv zeta; written.
  - unfold WriteFloat. cbv zeta. written.
  - unfold WriteText. destruct (strnlen _ s) as [n|]; cbn [mbind option_bind]; written.
  - unfold WriteStdString. cbv zeta. written.
  - apply writes_pointer.
Qed.

Lemma Write_emit `{LawfulTarget T} a spec (t : T) n text : FormatPrintArg_Write a ([] : bytes) spec = Some (n, text) →
  FormatPrintArg_Write a t spec = Some (n, emit text t) ∧ (n = Z.of_nat (length text) ∨ n = -1 ∧ text = []).
Proof.
  intros E. destruct (Write_writes a spec) as (out & Hout & Hn).
  pose proof (Hout bytes _ _ []) as Eb. cbn beta in Eb. rewrite E in Eb. destruct out as [[n' text']|]; [|done]. cbn in Eb. simplify_eq.
  split; [|by apply Hn]. pose proof (Hout T _ _ t) as Et. exact Et.
Qed.

(** ** Integers *)

(** *** Digits *)

Definition lower_digits : bytes := str "0123456789abcdef".
Definition upper_digits : bytes := str "0123456789ABCDEF".

(** A table gives each digit a character of its value. *)
Definition digit_table (base : Z) (table : bytes) : Prop :=
  ∀ d, 0 <= d < base → ∃ c, table !! Z.to_nat d = Some c ∧ digit_value c = Some d ∧ (c = chr "0" → d = 0).

Lemma digit_tables : digit_table 16 lower_digits ∧ digit_table 16 upper_digits ∧ digit_table 8 (str "01234567").
Proof.
  assert (Hall : ∀ base table, forallb (λ d, match table !! Z.to_nat d with
      | Some c => bool_decide (digit_value c = Some d) && (negb (c =? chr "0") || (d =? 0)) | None => false end) (seqZ 0 base) = true →
    digit_table base table).
  { intros base table Hf d Hd. rewrite forallb_forall in Hf. specialize (Hf d). destruct (table !! Z.to_nat d) as [c|].
    - assert (Hin : In d (seqZ 0 base)) by (apply list_elem_of_In, elem_of_seqZ; lia). specialize (Hf Hin).
      apply andb_true_iff in Hf as [E%bool_decide_eq_true Hz]. exists c. split; [done|]. split; [done|].
      intros ->. rewrite Z.eqb_refl in Hz. cbn in Hz. by apply Z.eqb_eq in Hz.
    - assert (Hin : In d (seqZ 0 base)) by (apply list_elem_of_In, elem_of_seqZ; lia). by specialize (Hf Hin). }
  split_and!; apply Hall; by vm_compute.
Qed.

(** A numeral: digits of the base, without zeros in front, with a value. *)
Definition numeral (base : Z) (digits : bytes) (value : Z) : Prop :=
  digits ≠ [] ∧ Forall (digit_ok base) digits ∧ digits_value base digits = value ∧ (head digits = Some (chr "0") → value = 0).

Lemma UnsignedToString_numeral base table value : 2 <= base → digit_table base table → 0 <= value < 2 ^ 64 →
  numeral base (UnsignedToString base value table) value.
Proof.
  intros Hb Ht Hv. unfold UnsignedToString. assert (Hf : value < 2 ^ Z.of_nat 64) by (cbn; lia). destruct Hv as [Hv _].
  revert value Hv Hf. generalize 63%nat as k. induction k as [|k IH]; intros value Hv Hf.
  all: destruct (Ht (value mod base)) as (c & Ec & Ed & H0); [apply Z.mod_pos_bound; lia|].
  all: pose proof (Z.div_mod value base); pose proof (Z.mod_pos_bound value base).
  all: assert (Hone : value / base = 0 → numeral base [c] value)
    by (intros Hq; split_and!; [done|constructor; [exists (value mod base); split; [done|lia]|done]|unfold digits_value; cbn; rewrite Ed; cbn; nia|
        intros [= ->]; specialize (H0 eq_refl); nia]).
  all: assert (Hlt : base * (value / base) <= value) by nia; assert (0 <= value / base) by (apply Z.div_pos; lia).
  - cbn [unsigned_loop]. rewrite Ec. change (default 0 (Some c)) with c. change (Z.of_nat 1) with 1 in Hf. assert (Hq : value / base = 0) by nia.
    rewrite Hq, Z.eqb_refl. by apply Hone.
  - cbn [unsigned_loop]. rewrite Ec. change (default 0 (Some c)) with c. destruct (Z.eqb_spec (value / base) 0) as [Hq|Hq]; [by apply Hone|].
    rewrite reverse_cons. rewrite Nat2Z.inj_succ, Z.pow_succ_r in Hf by lia.
    destruct (IH (value / base)) as (Hne & Hok & Hval & Hz); [done|nia|]. cbn [unsigned_loop] in *.
    split_and!.
    + intros E. by apply app_nil in E as [_ ?].
    + apply Forall_app. split; [done|]. constructor; [|done]. exists (value mod base). split; [done|lia].
    + rewrite digits_value_snoc, Hval, Ed. cbn. lia.
    + destruct (reverse _) as [|x r]; [done|]. cbn in Hz |- *. intros [= ->]. specialize (Hz eq_refl). lia.
Qed.

Lemma decimal_numeral n : 0 <= n < limit → numeral 10 (decimal n) n.
Proof.
  intros Hn. destruct (decimal_facts n Hn) as (Hok & Hv & Hne & _ & Hlead). split_and!; [done..|].
  intros Hh. destruct (Z.eq_dec n 0) as [|Hn0]; [done|]. destruct Hlead as (c & s & E & Hc); [lia|]. rewrite E in Hh. cbn in Hh.
  injection Hh as ->. change (chr "0") with 48 in Hc. lia.
Qed.

(** *** Fields of integers *)

(** The conversions an integer has, and the base of each. *)
Definition integer_conversions (t : int_type) : bytes := if signed t then str "idvxXo" else str "iduvxXo".
Definition integer_base (spec : PrintSpecification) : Z := if among spec (str "xX") then 16 else if among spec (str "o") then 8 else 10.

(** What is shown: the absolute value in decimal, else the complement. *)
Definition shown_value (t : int_type) (spec : PrintSpecification) (n : Z) : Z :=
  if integer_base spec =? 10 then Z.abs n else ToUnsigned t n.

Definition integer_text (t : int_type) (spec : PrintSpecification) (n : Z) (digits : bytes) : bytes :=
  let digits := if ((precision spec =? 0) && (n =? 0))%bool then [] else digits in
  number_text spec (if signed t then SignOf spec (n <? 0) else 0) (PrefixOf spec (n =? 0))
    (Z.max 0 (precision spec - Z.of_nat (length digits))) digits.

Lemma promoted_fits t n : int_width t → fits_in t n → overloaded (promoted t) ∧ fits_in (promoted t) n ∧ 0 < bits (promoted t) <= 64.
Proof.
  unfold promoted, int_width, overloaded, fits_in, min_value, max_value. destruct t as [sg b]; cbn [bits signed].
  intros [-> | [-> | [-> | ->]]] Hn; cbn [Z.ltb Z.compare Pos.compare Pos.compare_cont signed bits t_int] in *; (split; [by (left + right)|split; [|lia]]);
    destruct sg; cbn [Z.sub Z.add Z.opp Z.pos_sub Pos.pred_double] in *; lia.
Qed.

Lemma ToUnsigned_fits t n : int_width t → fits_in t n → 0 <= ToUnsigned t n < 2 ^ 64 ∧ (signed t = false → ToUnsigned t n = n).
Proof.
  intros Hw Hn. destruct (promoted_fits t n Hw Hn) as (_ & Hf & Hb). unfold ToUnsigned.
  pose proof (Z.mod_pos_bound n (2 ^ bits (promoted t))). pose proof (Z.pow_le_mono_r 2 (bits (promoted t)) 64).
  assert (0 < 2 ^ bits (promoted t)) by lia. split; [lia|]. intros Hs. apply Z.mod_small.
  unfold fits_in, min_value, max_value, promoted, int_width in *. destruct t as [sg b]; cbn [bits signed] in *. rewrite Hs in Hn.
  destruct Hw as [-> | [-> | [-> | ->]]]; cbn in *; lia.
Qed.

Lemma leading_zeros_max spec n : leading_zeros spec n = Z.max 0 (precision spec - Z.of_nat n).
Proof.
  unfold leading_zeros, has_precision. destruct (Z.eqb_spec (precision spec) (-1)) as [->|]; cbn [negb andb]; [lia|].
  destruct (Z.ltb_spec (Z.of_nat n) (precision spec)); lia.
Qed.

Lemma with_precision_eq spec n digits : with_precision spec n digits = if ((precision spec =? 0) && (n =? 0))%bool then [] else digits.
Proof.
  unfold with_precision, has_precision. destruct (Z.eqb_spec (precision spec) 0) as [->|]; cbn.
  - by rewrite andb_true_r.
  - by rewrite andb_false_r.
Qed.

Lemma decimal_digits t n : int_width t → fits_in t n →
  (match WriteIntegerToBuffer (promoted t) n with c :: rest => if c =? chr "-" then rest else WriteIntegerToBuffer (promoted t) n | [] => WriteIntegerToBuffer (promoted t) n end
    = decimal (Z.abs n)) ∧ (signed t = false → WriteIntegerToBuffer (promoted t) n = decimal (Z.abs n)) ∧ 0 <= Z.abs n < limit.
Proof.
  intros Hw Hn. destruct (promoted_fits t n Hw Hn) as (Ho & Hf & _). destruct (fits_in_limit _ _ Ho Hf) as [Hl _].
  unfold WriteIntegerToBuffer. rewrite OutputIntegerAsString_eq by done. cbn [app]. rewrite signed_decimal_sign.
  split; [|split; [|lia]].
  - destruct (Z.ltb_spec n 0); [done|]. cbn [minus_sign app].
    destruct (decimal_facts (Z.abs n)) as (_ & _ & Hne & Hc & _); [lia|]. destruct (decimal (Z.abs n)) as [|c s]; [done|].
    apply Forall_cons_1 in Hc as [Hc _]. change (chr "-") with 45. destruct (Z.eqb_spec c 45); [lia|done].
  - intros Hs. assert (0 <= n) by (unfold fits_in, min_value in Hn; rewrite Hs in Hn; lia). by destruct (Z.ltb_spec n 0); [lia|].
Qed.

Lemma among_in spec cs : among spec cs = true ↔ specifier (print_base spec) ∈ cs.
Proof. apply bool_decide_eq_true. Qed.

Lemma integer_field t n spec : int_width t → fits_in t n → specifier (print_base spec) ∈ integer_conversions t →
  ∃ digits, numeral (integer_base spec) digits (shown_value t spec n) ∧ (integer_base spec = 10 → digits = decimal (Z.abs n)) ∧
    ∀ T `{LawfulTarget T} (target : T), FormatPrintArg_Write (PInt t n) target spec =
      Some (Z.of_nat (length (integer_text t spec n digits)), emit (integer_text t spec n digits) target).
Proof.
  intros Hw Hn Hc. destruct (ToUnsigned_fits t n Hw Hn) as [Hu Hun]. destruct (decimal_digits t n Hw Hn) as (Hsd & Hud & Hl).
  destruct digit_tables as (Tl & Tu & To). unfold shown_value.
  assert (Hdig : ∃ digits, numeral (integer_base spec) digits (if integer_base spec =? 10 then Z.abs n else ToUnsigned t n) ∧
    (integer_base spec = 10 → digits = decimal (Z.abs n)) ∧ digits =
      if among spec (str "xXo") then unsigned_digits spec (ToUnsigned t n) else decimal (Z.abs n)).
  { unfold integer_base, unsigned_digits, among. unfold integer_conversions in Hc.
    assert (Hcs : specifier (print_base spec) ∈ str "idvuxXo") by (revert Hc; destruct (signed t); vm_compute; set_solver).
    change (str "idvuxXo") with [105; 100; 118; 117; 120; 88; 111] in Hcs.
    repeat (apply elem_of_cons in Hcs as [->|Hcs]); [..|by apply elem_of_nil in Hcs]; cbn -[decimal UnsignedToString str numeral];
      norm_chars; eexists; (split; [|split; [|reflexivity]]); try done; try (by apply decimal_numeral); by apply UnsignedToString_numeral. }
  destruct Hdig as (digits & Hnum & Hdec & Ed). exists digits. split; [done|]. split; [done|].
  intros T F HL target. cbn [FormatPrintArg_Write]. unfold integer_text. rewrite <- leading_zeros_max, <- with_precision_eq.
  assert (Hany : ∀ cs, specifier (print_base spec) ∈ cs → SpecifierMatch_any (print_base spec) cs = true).
  { intros cs Hin. unfold SpecifierMatch_any. apply orb_true_iff. right. apply bool_decide_eq_true. set_solver. }
  assert (Hpick : among spec (if signed t then str "idv" else str "iduv") = negb (among spec (str "xXo")) ∧
    SpecifierMatch_any (print_base spec) (if signed t then str "idxXo" else str "uidxXo") = true).
  { unfold among, SpecifierMatch_any. revert Hc. unfold integer_conversions.
    destruct (signed t); [change (str "idvxXo") with [105; 100; 118; 120; 88; 111]|change (str "iduvxXo") with [105; 100; 117; 118; 120; 88; 111]];
      intros Hc; repeat (apply elem_of_cons in Hc as [->|Hc]; [by vm_compute|]); by apply elem_of_nil in Hc. }
  destruct Hpick as [Hpick Hm]. destruct (signed t) eqn:Es.
  - unfold WriteSigned. rewrite Hm, Hsd, Hpick. cbn [negb]. rewrite WriteNumberString_emit by apply leading_zeros_nonneg.
    by rewrite Ed; destruct (among spec (str "xXo")).
  - unfold WriteUnsigned. rewrite Hm, Hud, Hpick by done. cbn [negb]. rewrite WriteNumberString_emit by apply leading_zeros_nonneg.
    rewrite Ed, Hun by done. by destruct (among spec (str "xXo")).
Qed.

(** *** Plain fields: no flags and no precision *)

Definition plain_spec (w l c : Z) : PrintSpecification := mkPrintSpecification (mkFormatSpecification w l c) (flags_of []) (-1).

Lemma plain_integer_text t n w l c digits : int_width t → fits_in t n → digits = decimal (Z.abs n) →
  integer_text t (plain_spec w l c) n digits = justified (plain_spec w l c) (signed_decimal n).
Proof.
  intros Hw Hn ->. unfold integer_text. cbn [precision plain_spec]. change (-1 =? 0) with false. cbn [andb].
  rewrite Z.max_l by lia.
  assert (Hb : number_body (if signed t then SignOf (plain_spec w l c) (n <? 0) else 0) [] 0 (decimal (Z.abs n)) = signed_decimal n).
  { rewrite signed_decimal_sign. unfold number_body, SignOf. cbn. destruct (Z.ltb_spec n 0) as [Hneg|]; [|by destruct (signed t)].
    destruct (signed t) eqn:Es; [done|]. unfold fits_in, min_value in Hn. rewrite Es in Hn. lia. }
  assert (Hp : PrefixOf (plain_spec w l c) (n =? 0) = []) by (unfold PrefixOf; cbn; by rewrite andb_false_r).
  rewrite Hp. unfold number_text. rewrite Hb. unfold justified. destruct (has_width _); [|done]. cbn.
  f_equal. unfold filled. f_equal. lia.
Qed.

Lemma AsInt_int t n : int_width t → fits_in t n → fits_in t_int n → AsInt (PInt t n) = Some n.
Proof.
  intros Hw Hn Hi. unfold AsInt.
  change (mkPrintSpecification _ _ _) with (plain_spec (-1) 0 (chr "d")).
  destruct (integer_field t n (plain_spec (-1) 0 (chr "d")) Hw Hn) as (digits & _ & Hd & Hwr).
  { unfold integer_conversions. destruct (signed t); vm_compute; set_solver. }
  rewrite (Hwr BufferFormatPrintTarget _ _), plain_integer_text by (done || by apply Hd). clear Hwr. cbn [mbind option_bind].
  change (justified _ _) with (signed_decimal n). destruct (StringToNumber_decimal t_int n (or_introl eq_refl) Hi) as [_ Hr].
  assert (Hlen : (0 < length (signed_decimal n) <= 21)%nat).
  { destruct (fits_in_limit t_int n (or_introl eq_refl) Hi) as [Hl _]. rewrite signed_decimal_sign, length_app. pose proof (decimal_length (Z.abs n)).
    destruct (decimal_facts (Z.abs n)) as (_ & _ & Hne & _); [lia|]. destruct (decimal (Z.abs n)); [done|]. destruct (n <? 0); cbn in *; lia. }
  destruct (Z.leb_spec (Z.of_nat (length (signed_decimal n))) 0); [lia|]. unfold closed, emit. cbn [buffer_lawful]. unfold buffer_emit.
  cbn [m_buffer m_size length app]. change (FreeSize (mkBuffer [] 32)) with 31. rewrite firstn_all2 by lia.
  destruct (Z.ltb_spec (Z.of_nat (length (signed_decimal n))) 32); [|lia].
  assert (Hnul : StringToNumber t_int (signed_decimal n ++ [0]) = StringToNumber t_int (signed_decimal n)).
  { unfold StringToNumber, StringToNumber_base. destruct (fits_in_limit t_int n (or_introl eq_refl) Hi) as [Hl _].
    by rewrite before_nul_app, app_nil_r, before_nul_id by by apply signed_decimal_nonzero. }
  by rewrite Hnul, Hr.
Qed.

(** ** Formats *)

(** A width or precision: none, a number, or a star and its argument. *)
Inductive measure := NoMeasure | Written (n : Z) | FromArg (t : int_type) (n : Z).
Definition measure_amount (m : measure) : amount :=
  match m with NoMeasure => Unset | Written n => Number n | FromArg _ _ => Star end.
Definition measure_args (m : measure) : list print_arg := match m with FromArg t n => [PInt t n] | _ => [] end.
Definition measure_value (m : measure) : Z := match m with NoMeasure => -1 | Written n => n | FromArg _ n => n end.
Definition measure_ok (low : Z) (m : measure) : Prop :=
  match m with
  | NoMeasure => True
  | Written n => low <= n < 2 ^ 31
  | FromArg t n => int_width t ∧ fits_in t n ∧ fits_in t_int n ∧ -42 <= n
  end.

(** A piece of a format; a field has its flags, measures, length modifier,
    conversion and argument, and the text it prints. *)
Inductive print_piece :=
  | PLit (c : Z)
  | PPercent
  | PField (fl : bytes) (w p : measure) (l : Z) (length_chars : bytes) (c : Z) (a : print_arg) (txt : bytes).

Definition piece_print_format (p : print_piece) : bytes :=
  match p with
  | PLit c => [c] | PPercent => str "%%"
  | PField fl w p _ t c _ _ => chr "%" :: print_text fl (measure_amount w) (measure_amount p) t c
  end.
Definition piece_args (p : print_piece) : list print_arg :=
  match p with PField _ w p _ _ _ a _ => measure_args w ++ measure_args p ++ [a] | _ => [] end.
Definition piece_print_text (p : print_piece) : bytes :=
  match p with PLit c => [c] | PPercent => str "%" | PField _ _ _ _ _ _ _ txt => txt end.

Definition print_format (ps : list print_piece) : bytes := ps ≫= piece_print_format.
Definition print_args (ps : list print_piece) : list print_arg := ps ≫= piece_args.
Definition printed_text (ps : list print_piece) : bytes := ps ≫= piece_print_text.

Definition field_spec (fl : bytes) (w p : measure) (l c : Z) : PrintSpecification :=
  mkPrintSpecification (mkFormatSpecification (measure_value w) l c) (flags_of fl) (measure_value p).

(** The text of a field is what its argument alone prints. *)
Definition piece_print_ok (p : print_piece) : Prop :=
  match p with
  | PLit c => c ≠ 0 ∧ c ≠ chr "%"
  | PPercent => True
  | PField fl w p l t c a txt =>
      Forall (λ c, c ∈ flag_chars) fl ∧ measure_ok 1 w ∧ measure_ok 0 p ∧ (l, t) ∈ length_table ∧ c ∈ specifiers ∧
      FormatPrintArg_Write a ([] : bytes) (field_spec fl w p l c) = Some (Z.of_nat (length txt), txt)
  end.

(** *** The characters of a field *)

Lemma print_text_chars fl w p l t c : Forall (λ c, c ∈ flag_chars) fl → measure_ok 1 w → measure_ok 0 p → (l, t) ∈ length_table →
  c ∈ specifiers → let s := print_text fl (measure_amount w) (measure_amount p) t c in
  Forall (λ c, c ≠ 0 ∧ c ≠ chr "%") s ∧ s ≠ [].
Proof.
  intros Hfl Hw Hp Hl Hc. cbn zeta. unfold print_text. split; [|by destruct fl, (amount_text _), (precision_text _), t].
  assert (Hsafe : ∀ cs : bytes, bool_decide (0 ∉ cs ∧ chr "%" ∉ cs) = true → ∀ x, x ∈ cs → x ≠ 0 ∧ x ≠ chr "%").
  { intros cs [H0 H1]%bool_decide_eq_true x Hx. by split; intros ->. }
  assert (Hm : ∀ low m, 0 <= low → measure_ok low m → Forall (λ c, c ≠ 0 ∧ c ≠ chr "%") (amount_text (measure_amount m))).
  { intros low m Hlow Hm. destruct m as [|n|]; cbn [measure_amount amount_text]; [constructor| |by repeat constructor]. cbn in Hm.
    destruct (decimal_facts n) as (_ & _ & _ & Hd & _); [unfold limit; lia|]. eapply Forall_impl; [exact Hd|].
    intros x Hx. change (chr "%") with 37. cbn in Hx. lia. }
  rewrite !Forall_app. split_and!.
  - eapply Forall_impl; [exact Hfl|]. by apply Hsafe; vm_compute.
  - by apply (Hm 1).
  - unfold precision_text. destruct p; cbn [measure_amount]; [constructor|..]; (constructor; [done|]); [by apply (Hm 0 (Written n))|by apply (Hm 0 (FromArg t0 n))].
  - unfold length_table in Hl. repeat (apply elem_of_cons in Hl as [[= -> ->]|Hl]; [by repeat constructor|]). by apply elem_of_nil in Hl.
  - constructor; [|done]. revert c Hc. apply Hsafe. by vm_compute.
Qed.

Section Loop.
Context `{LawfulTarget T}.

Lemma strchrnul_head c f ch : c ≠ 0 → c ≠ ch → strchrnul (c :: f) ch = S <$> strchrnul f ch.
Proof. intros H1 H2. cbn. by rewrite (proj2 (Z.eqb_neq _ _) H1), (proj2 (Z.eqb_neq _ _) H2). Qed.

Lemma vprint_literal fuel c f args ai total (t : T) : c ≠ 0 → c ≠ chr "%" → f ≠ [] →
  vprint_loop (S (S fuel)) (c :: f) args ai total t = vprint_loop (S (S fuel)) f args ai (total + 1) (emit [c] t).
Proof.
  intros Hc0 Hp Hf. destruct f as [|x r]; [done|]. remember (S fuel) as k eqn:Ek. cbn [vprint_loop]. rewrite (strchrnul_head c (x :: r)) by done.
  cbn [lookup list_lookup mbind option_bind]. rewrite (proj2 (Z.eqb_neq _ _) Hc0).
  destruct (Z.eqb_spec x 0) as [->|Hx].
  { cbn [strchrnul Z.eqb orb fmap option_fmap option_map mbind option_bind take drop lookup list_lookup]. subst k. cbn [vprint_loop lookup list_lookup mbind option_bind Z.eqb].
    by rewrite target_WriteString_emit. }
  destruct (strchrnul (x :: r) (chr "%")) as [p|]; [|done]. cbn [fmap option_fmap option_map mbind option_bind take drop].
  rewrite !target_WriteString_emit, emit_app. cbn [app]. rewrite Nat2Z.inj_succ. by replace (total + Z.succ (Z.of_nat p)) with (total + 1 + Z.of_nat p) by lia.
Qed.

Lemma vprint_percent fuel f args ai total (t : T) :
  vprint_loop (S fuel) (chr "%" :: chr "%" :: f) args ai total t = vprint_loop fuel f args ai (total + 1) (emit [chr "%"] t).
Proof.
  cbn [vprint_loop lookup list_lookup mbind option_bind strchrnul]. change (chr "%" =? 0) with false. rewrite Z.eqb_refl.
  cbn [orb mbind option_bind take drop lookup list_lookup]. rewrite Z.eqb_refl. change (chr "%" =? 0) with false. cbn match.
  by rewrite WriteChar_emit, target_WriteString_emit, emit_nil, Z.add_0_r, drop_0.
Qed.

Lemma Fill_ok low m args ai : measure_ok low m → 0 <= low → take (length (measure_args m)) (drop ai args) = measure_args m →
  FillSpeciationFromArg (amount_value (measure_amount m)) args ai = Some (true, measure_value m, (ai + length (measure_args m))%nat).
Proof.
  intros Hm Hlow Ha. destruct m as [|n|t n]; cbn [measure_amount amount_value measure_args measure_value measure_ok length] in *; unfold FillSpeciationFromArg.
  - by rewrite Nat.add_0_r.
  - destruct (Z.eqb_spec n (- chr "*")) as [E|]; [change (chr "*") with 42 in E; lia|]. by rewrite Nat.add_0_r.
  - destruct Hm as (Hw & Hn & Hi & Hlo). rewrite Z.eqb_refl. unfold DoFillSpeciationFromArg.
    assert (Hlk : args !! ai = Some (PInt t n)).
    { destruct (drop ai args) as [|a r] eqn:E; [done|]. cbn in Ha. injection Ha as ->.
      by rewrite <- (Nat.add_0_r ai), <- lookup_drop, E. }
    rewrite Hlk, AsInt_int by done. cbn [mbind option_bind]. change (- chr "*") with (-42). destruct (Z.ltb_spec n (-42)); [lia|]. do 2 f_equal. lia.
Qed.

Lemma vprint_field fuel fl w p l t c a txt f args ai total (target : T) : piece_print_ok (PField fl w p l t c a txt) →
  (∃ more, drop ai args = piece_args (PField fl w p l t c a txt) ++ more) →
  vprint_loop (S fuel) ((chr "%" :: print_text fl (measure_amount w) (measure_amount p) t c) ++ f) args ai total target =
    vprint_loop fuel f args (ai + length (piece_args (PField fl w p l t c a txt))) (total + Z.of_nat (length txt)) (emit txt target).
Proof.
  intros (Hfl & Hw & Hp & Hl & Hc & Hwr) (more & Hargs). destruct (print_text_chars fl w p l t c Hfl Hw Hp Hl Hc) as [Hchars Hne].
  pose proof (PrintSpecification_text fl (measure_amount w) (measure_amount p) l t c f Hfl) as Hparse.
  set (s := print_text fl (measure_amount w) (measure_amount p) t c) in *.
  destruct s as [|d s'] eqn:Es; [done|]. apply Forall_cons_1 in Hchars as [[Hd0 Hdp] _].
  cbn [app vprint_loop lookup list_lookup mbind option_bind strchrnul]. change (chr "%" =? 0) with false. rewrite Z.eqb_refl.
  cbn [orb mbind option_bind take drop lookup list_lookup]. change (chr "%" =? 0) with false. cbn match.
  rewrite (proj2 (Z.eqb_neq _ _) Hd0), (proj2 (Z.eqb_neq _ _) Hdp). cbn match.
  change (d :: s' ++ f) with ((d :: s') ++ f). rewrite Hparse; [|by destruct w|by destruct p|done|done].
  cbn [mbind option_bind]. change (length (d :: s') =? 0)%nat with false. cbn match. cbn [print_base width precision flags].
  cbn [piece_args] in *. rewrite <- !app_assoc in Hargs.
  rewrite (Fill_ok 1 w) by (done || lia || by rewrite Hargs, take_app_length). cbn [mbind option_bind negb].
  assert (Hargs2 : drop (ai + length (measure_args w)) args = measure_args p ++ [a] ++ more) by by rewrite <- drop_drop, Hargs, drop_app_length.
  rewrite (Fill_ok 0 p) by (done || lia || by rewrite Hargs2, take_app_length). cbn [mbind option_bind negb].
  assert (Ha : args !! (ai + length (measure_args w) + length (measure_args p))%nat = Some a).
  { rewrite <- (Nat.add_0_r (_ + _)), <- lookup_drop, <- drop_drop, Hargs2, drop_app_length. done. }
  rewrite Ha. unfold set_width. cbn [flength specifier].
  destruct (Write_emit a (field_spec fl w p l c) (target_WriteString [] target) _ _ Hwr) as [Hwr' _]. unfold field_spec in Hwr'.
  rewrite Hwr'. cbn [mbind option_bind]. destruct (Z.ltb_spec (Z.of_nat (length txt)) 0); [lia|].
  assert (Hdrop : drop (1 + length (d :: s')) (chr "%" :: (d :: s') ++ f) = f) by apply drop_app_length.
  rewrite Hdrop, target_WriteString_emit, emit_nil, Z.add_0_r. f_equal. rewrite !length_app. cbn. lia.
Qed.
End Loop.

Lemma vprint_pieces `{LawfulTarget T} ps : ∀ fuel args ai more total (t : T), Forall piece_print_ok ps →
  drop ai args = print_args ps ++ more → (S (length (print_format ps)) < fuel)%nat →
  vprint_loop fuel (print_format ps ++ [0]) args ai total t = Some (total + Z.of_nat (length (printed_text ps)), emit (printed_text ps) t).
Proof.
  induction ps as [|p ps IH]; intros fuel args ai more total t Hok Ha Hf; (destruct fuel as [|[|fuel]]; [lia..|]).
  { cbn. by rewrite emit_nil, Z.add_0_r. }
  apply Forall_cons_1 in Hok as [Hp Hok]. cbn [print_format print_args printed_text mbind list_bind] in *.
  fold (print_format ps) (print_args ps) (printed_text ps) in *. rewrite <- !(assoc_L (++)) in *. rewrite length_app in Hf.
  rewrite <- emit_app, length_app. destruct p as [c| |fl w p l tx c a txt].
  - destruct Hp as [Hc Hc']. cbn [piece_print_format piece_print_text piece_args app length] in *.
    rewrite vprint_literal by (done || by destruct (print_format ps)). rewrite (IH _ _ _ more) by (done || lia). do 2 f_equal. lia.
  - cbn [piece_print_format piece_print_text piece_args] in *. change (str "%%") with [chr "%"; chr "%"] in *. change (str "%") with [chr "%"].
    cbn [app length] in *. rewrite vprint_percent, (IH _ _ _ more) by (done || lia). do 2 f_equal. lia.
  - cbn [piece_print_format]. rewrite (vprint_field _ fl w p l tx c a txt); [|done|by eexists].
    cbn [piece_print_format piece_print_text] in *. rewrite (IH _ _ _ more); [do 2 f_equal; lia|done| |cbn [length] in Hf; lia].
    by rewrite <- drop_drop, Ha, drop_app_length.
Qed.

Lemma print_no_nul ps : Forall piece_print_ok ps → Forall (λ c, c ≠ 0) (print_format ps).
Proof.
  intros Hok. induction Hok as [|p ps Hp _ IH]; [constructor|]. cbn [print_format mbind list_bind]. apply Forall_app. split; [|done].
  destruct p as [c| |fl w p l t c a txt]; cbn [piece_print_format].
  - destruct Hp. by repeat constructor.
  - by repeat constructor.
  - destruct Hp as (Hfl & Hw & Hp & Hl & Hc & _). constructor; [done|]. destruct (print_text_chars fl w p l t c Hfl Hw Hp Hl Hc) as [Hch _].
    eapply Forall_impl; [exact Hch|]. by intros x [? _].
Qed.

Lemma VFormatPrint_pieces `{LawfulTarget T} ps more (t : T) : Forall piece_print_ok ps →
  VFormatPrint t (c_string_of (print_format ps)) (print_args ps ++ more) =
    Some (Z.of_nat (length (printed_text ps)), emit (printed_text ps) t).
Proof.
  intros Hok. unfold VFormatPrint, c_string_of. rewrite before_nul_id by by apply print_no_nul.
  rewrite (vprint_pieces ps _ _ _ more) by (done || (rewrite length_app; cbn; lia)). by rewrite Z.add_0_l.
Qed.

(** *** Fields that scanning reads *)

Inductive datum := DInt (t : int_type) (n : Z) | DWord (s : bytes) | DChar (c : Z) | DBool (b : bool).

Definition datum_letter (d : datum) : Z :=
  match d with DInt _ _ => chr "d" | DWord _ => chr "s" | DChar _ => chr "c" | DBool _ => chr "b" end.
Definition datum_arg (d : datum) : print_arg :=
  match d with DInt t n => PInt t n | DWord s => PString s | DChar c => PChar c | DBool b => PBool b end.
Definition datum_text (d : datum) : bytes :=
  match d with DInt _ n => signed_decimal n | DWord s => s | DChar c => [c] | DBool b => if b then str "true" else str "false" end.

(** A piece of a format of both. *)
Inductive shared_piece := SLit (c : Z) | SPercent | SField (w : option Z) (l : Z) (length_chars : bytes) (d : datum).

Definition datum_spec (w : option Z) (l : Z) (d : datum) : PrintSpecification := plain_spec (default (-1) w) l (datum_letter d).
Definition as_print (p : shared_piece) : print_piece :=
  match p with
  | SLit c => PLit c | SPercent => PPercent
  | SField w l t d => PField [] (match w with Some w => Written w | None => NoMeasure end) NoMeasure l t (datum_letter d) (datum_arg d)
                        (justified (datum_spec w l d) (datum_text d))
  end.

Context {F : FloatLibrary}.
Definition datum_type (d : datum) : arg_type := match d with DInt t _ => TInt t | DWord _ => TString | DChar _ => TChar | DBool _ => TBool end.
Definition datum_value (d : datum) : value := match d with DInt _ n => VInt n | DWord s => VString s | DChar c => VChar c | DBool b => VBool b end.
Definition as_scan (p : shared_piece) : piece :=
  match p with
  | SLit c => Lit c | SPercent => Percent
  | SField w l t d => Field false w l t (Letter (datum_letter d)) (datum_type d) (justified (datum_spec w l d) (datum_text d)) (datum_value d)
  end.
Definition wide_enough (p : shared_piece) : Prop := match p with SField (Some w) _ _ _ => 1 <= w | _ => True end.

Lemma shared_format ps : print_format (as_print <$> ps) = format_of (as_scan <$> ps) ∧ printed_text (as_print <$> ps) = text_of (as_scan <$> ps).
Proof.
  induction ps as [|p ps [IH1 IH2]]; [done|]. cbn [fmap list_fmap print_format format_of printed_text text_of mbind list_bind].
  fold (print_format (as_print <$> ps)) (format_of (as_scan <$> ps)) (printed_text (as_print <$> ps)) (text_of (as_scan <$> ps)).
  rewrite IH1, IH2. split; [|by destruct p]. f_equal. destruct p as [| |w l t d]; try done. by destruct w.
Qed.

(** What is printed of a datum, in a width. *)
Lemma datum_prints w l t d txt rest : txt = justified (datum_spec w l d) (datum_text d) →
  field_text (datum_type d) (Letter (datum_letter d)) txt rest (datum_value d) → width_ok w → wide_enough (SField w l t d) →
  FormatPrintArg_Write (datum_arg d) ([] : bytes) (datum_spec w l d) = Some (Z.of_nat (length txt), txt).
Proof.
  intros Et Hf Hw Hwide. destruct d as [ty n|s|c|b]; cbn [datum_type datum_letter datum_value datum_arg datum_text] in *.
  - assert (Hfit : int_width ty ∧ fits_in ty n) by (by inversion Hf). destruct Hfit as [Hty Hn].
    destruct (integer_field ty n (datum_spec w l (DInt ty n)) Hty Hn) as (digits & _ & Hd & Hwr).
    { unfold integer_conversions. destruct (signed ty); vm_compute; set_solver. }
    rewrite (Hwr bytes _ _). unfold datum_spec in *. rewrite plain_integer_text by (done || by apply Hd). by rewrite <- Et.
  - cbn [FormatPrintArg_Write]. unfold WriteStdString, SpecifierMatch. cbn [datum_spec plain_spec print_base specifier datum_letter].
    rewrite Z.eqb_refl, orb_true_r. cbn [negb has_precision precision]. change (has_precision _) with false. cbn [andb].
    destruct (Z.ltb_spec (Z.of_nat (length s)) 0); [lia|]. rewrite Nat2Z.id, firstn_all, WriteString_emit. by rewrite Et.
  - cbn [FormatPrintArg_Write]. unfold WriteCharValue. cbn [negb orb]. change (SpecifierMatch _ _) with true. cbn [negb].
    rewrite WriteString_emit. by rewrite Et.
  - cbn [FormatPrintArg_Write]. unfold WriteBool. change (SpecifierMatch _ _) with true. cbn [negb].
    rewrite WriteString_emit. by rewrite Et.
Qed.

Lemma shared_ok ps rest : pieces_ok (as_scan <$> ps) rest → Forall wide_enough ps → Forall piece_print_ok (as_print <$> ps).
Proof.
  intros Hok Hw. induction Hw as [|p ps Hp _ IH]; [constructor|]. cbn [fmap list_fmap pieces_ok] in *. destruct Hok as [Hpiece Hok].
  constructor; [|by apply IH]. destruct p as [c| |w l t d]; cbn [as_scan as_print piece_print_ok] in *; [done|done|].
  destruct Hpiece as (Hw & Hl & Hk & _ & Hf & _). split; [constructor|].
  split; [destruct w; cbn in *; lia || done|]. split; [done|]. split; [done|]. split; [done|].
  pose proof (datum_prints w l t d _ _ eq_refl Hf Hw Hp) as E. by destruct w.
Qed.
End Writes.

(** ** Properties *)

Section Properties.
Context {L : PrintLibrary}.

(** Printing an integer, of any type, with any flags, width, precision and
    one of its conversions, to any target that appends.  What is appended is
    the sign (for a signed type: minus, or plus or space when the flags ask),
    the prefix, zeros up to the precision and the numeral, without zeros in
    front, of the absolute value in decimal or of the complement in
    hexadecimal or octal; filled to the width as the flags say, or longer; and
    the count returned is its length. *)
Theorem print_integer t n spec : int_width t → fits_in t n → specifier (print_base spec) ∈ integer_conversions t →
  ∃ digits, numeral (integer_base spec) digits (shown_value t spec n) ∧
    ∀ (T : Type) `{LawfulTarget T} (target : T), FormatPrintArg_Write (PInt t n) target spec =
      Some (Z.of_nat (length (integer_text t spec n digits)), emit (integer_text t spec n digits) target).
Proof. intros Hw Hn Hc. destruct (integer_field t n spec Hw Hn Hc) as (digits & Hd & _ & Hwr). by exists digits. Qed.


End Properties.

(** *** Witnesses *)

#[local] Existing Instance thousandths_library.
#[local] Existing Instance digits_float.

(** "%+06.3d" of -7 in a [short], to a buffer of five bytes. *)
Lemma print_integer_witness :
  let spec := mkPrintSpecification (mkFormatSpecification 6 0 (chr "d")) (flags_of (str "+0")) 3 in
  ∃ digits, numeral 10 digits 7 ∧
    FormatPrintArg_Write (PInt t_short (-7)) (mkBuffer [] 5) spec =
      Some (Z.of_nat (length (integer_text t_short spec (-7) digits)), buffer_emit (integer_text t_short spec (-7) digits) (mkBuffer [] 5)).
Proof.
  intros spec. destruct (print_integer t_short (-7) spec) as (digits & Hd & Hw).
  - by right; left.
  - by vm_compute.
  - unfold integer_conversions. vm_compute. set_solver.
  - exists digits. split; [exact Hd|]. exact (Hw BufferFormatPrintTarget buffer_target buffer_lawful (mkBuffer [] 5)).
Defined.

(** "<%-*s|%#x>" *)
Definition demo_fields : list print_piece :=
  [PLit (chr "<"); PField (str "-") (FromArg t_int 4) NoMeasure 0 [] (chr "s") (PString (str "ab")) (str "ab  "); PLit (chr "|");
   PField (str "#") NoMeasure NoMeasure 0 [] (chr "x") (PInt t_uint 255) (str "0xff"); PLit (chr ">")].


(** "%5d,%s %b" *)
Definition demo_shared : list shared_piece :=
  [SField (Some 5) 0 [] (DInt t_short (-12)); SLit (chr ","); SField None 0 [] (DWord (str "two")); SLit (chr " ");
   SField None 0 [] (DBool true)].

