(* ===== verification/Timer.v ===== *)
(** * Timers

    Model of system/timer/timer_manager: timers that a thread of the manager
    runs when they are due, once or again and again.

    What a method does under [m_mutex] is one step, of any thread, or of the
    thread of the manager when a closure that it runs calls the method.  The
    steps of the manager's own thread are those of [Entry] and [Dispatch].  A
    run is any sequence of steps, with the clock going on in between.

    A closure is a number.  A closure of a timer that runs once deletes itself
    when it runs; [delete] and such a run are recorded.  The priority queue
    gives an element of the least time, which one is its choice: the step says.
    [None] is a step that cannot be made, or a failed assertion.  Identifiers
    do not run out; other managers take some of them. *)

From S2P Require Import Prelude.

(** ** The state *)

Record TimerEntry := mkEntry {
  closure : option nat;
  interval : Z;
  is_enabled : bool;
  is_period : bool;
  revision : Z
}.

Record Timeout := mkTimeout { time : Z; timeout_id : Z; timeout_revision : Z }.

Record Manager := mkManager {
  m_timers : gmap Z TimerEntry;
  m_timeouts : list Timeout;
  m_running_timer : Z;
  timer_id : Z
}.

Definition set_timers (ts : gmap Z TimerEntry) (m : Manager) : Manager := mkManager ts (m_timeouts m) (m_running_timer m) (timer_id m).
Definition set_timeouts (ts : list Timeout) (m : Manager) : Manager := mkManager (m_timers m) ts (m_running_timer m) (timer_id m).
Definition set_running (id : Z) (m : Manager) : Manager := mkManager (m_timers m) (m_timeouts m) id (timer_id m).

Definition set_closure (c : option nat) (e : TimerEntry) : TimerEntry := mkEntry c (interval e) (is_enabled e) (is_period e) (revision e).
Definition set_interval (i : Z) (e : TimerEntry) : TimerEntry := mkEntry (closure e) i (is_enabled e) (is_period e) (revision e).
Definition set_enabled (b : bool) (e : TimerEntry) : TimerEntry := mkEntry (closure e) (interval e) b (is_period e) (revision e).
(** [revision++] of a [uint8_t]. *)
Definition next_revision (e : TimerEntry) : TimerEntry := mkEntry (closure e) (interval e) (is_enabled e) (is_period e) (u8 (revision e + 1)).

Definition new_Manager : Manager := mkManager ∅ [] 0 0.

(** [delete] of what may be NULL. *)
Definition held (c : option nat) : list nat := match c with Some c => [c] | None => [] end.

(** ** The timeouts *)

Definition PushNextTimeout (id interval revision now : Z) (m : Manager) : Manager :=
  set_timeouts (m_timeouts m ++ [mkTimeout (now + interval) id revision]) m.

Fixpoint least_time (ts : list Timeout) : option Z :=
  match ts with
  | [] => None
  | t :: ts => Some (match least_time ts with Some n => Z.min (time t) n | None => time t end)
  end.
Definition GetLatestTime (m : Manager) : option Z := least_time (m_timeouts m).

(** In an [int]. *)
Definition GetLatestTimeout (now : Z) (m : Manager) : option Z :=
  latest ← GetLatestTime m; Some (if now <? latest then s32 (latest - now) else 0).

(** [self]: in the thread of the manager.  With whether the thread is signalled. *)
Definition SetNextTimeout (self : bool) (id interval revision now : Z) (m : Manager) : Manager * bool :=
  let m' := PushNextTimeout id interval revision now m in
  if self then (m', false)
  else match GetLatestTime m, GetLatestTime m' with
       | Some prev_top_time, Some new_top_time => (m', new_top_time <? prev_top_time)
       | _, _ => (m', true)
       end.

(** ** The methods, under the mutex

    The result, the state, whether the thread is signalled, and what was
    deleted. *)

Definition AddTimer (self : bool) (interval : Z) (is_period : bool) (closure : option nat) (now : Z) (m : Manager) :
    option (Z * Manager * bool) :=
  if interval <? 0 then None
  else
    let id := timer_id m + 1 in
    let m := mkManager (<[id := mkEntry closure interval true is_period 0]> (m_timers m)) (m_timeouts m) (m_running_timer m) id in
    let '(m, signal) := SetNextTimeout self id interval 0 now m in
    Some (id, m, signal).

Definition FindEntry (id : Z) (m : Manager) : option TimerEntry := m_timers m !! id.

(** What both overloads of [ModifyTimer] do with the entry. *)
Definition modify_entry (self : bool) (id : Z) (e : TimerEntry) (now : Z) (m : Manager) : Manager * bool :=
  let e := next_revision e in
  let m := set_timers (<[id := e]> (m_timers m)) m in
  if is_enabled e then SetNextTimeout self id (interval e) (revision e) now m else (m, false).

Definition ModifyTimer_closure (self : bool) (id interval : Z) (c : option nat) (now : Z) (m : Manager) : bool * Manager * bool * list nat :=
  match FindEntry id m with
  | Some e =>
      let differs := negb (bool_decide (closure e = c)) in
      let e' := set_interval interval (if differs then set_closure c e else e) in
      let '(m, signal) := modify_entry self id e' now m in
      (true, m, signal, if differs then held (closure e) else [])
  | None => (false, m, false, [])
  end.

Definition ModifyTimer (self : bool) (id interval : Z) (now : Z) (m : Manager) : bool * Manager * bool :=
  match FindEntry id m with
  | Some e => let '(m, signal) := modify_entry self id (set_interval interval e) now m in (true, m, signal)
  | None => (false, m, false)
  end.

Definition AsyncRemoveTimerNoLock (id : Z) (m : Manager) : bool * Manager * list nat :=
  match m_timers m !! id with
  | Some e => (true, set_timers (delete id (m_timers m)) m, held (closure e))
  | None => (false, m, [])
  end.

(** One round; [None] sleeps and tries again. *)
Definition RemoveTimer (self : bool) (id : Z) (m : Manager) : option bool * Manager * list nat :=
  if id =? 0 then (Some false, m, [])
  else if (self || negb (id =? m_running_timer m))%bool then
    let '(b, m, out) := AsyncRemoveTimerNoLock id m in (Some b, m, out)
  else (None, m, []).

Definition DisableTimer (id : Z) (m : Manager) : bool * Manager :=
  match FindEntry id m with
  | Some e => (true, set_timers (<[id := next_revision (set_enabled false e)]> (m_timers m)) m)
  | None => (false, m)
  end.

Definition EnableTimer (self : bool) (id now : Z) (m : Manager) : bool * Manager * bool :=
  match FindEntry id m with
  | Some e =>
      let m := set_timers (<[id := set_enabled true e]> (m_timers m)) m in
      let '(m, signal) := SetNextTimeout self id (interval e) (revision e) now m in
      (true, m, signal)
  | None => (false, m, false)
  end.

Definition closures (ts : gmap Z TimerEntry) : list nat := map_to_list ts ≫= λ p, held (closure p.2).
Definition Clear (m : Manager) : Manager * list nat := (set_timeouts [] (set_timers ∅ m), closures (m_timers m)).

(** ** The thread *)

(** One round of [DequeueTimeoutEntry], with the index of the element on top. *)
Inductive dequeued := Nothing | Again | Dequeued (id : Z) (e : TimerEntry).
Definition DequeueTimeoutEntry (top : nat) (now : Z) (m : Manager) : option (dequeued * Manager) :=
  match GetLatestTime m with
  | None => Some (Nothing, m)
  | Some latest =>
      if now <? latest then Some (Nothing, m)
      else
        t ← m_timeouts m !! top;
        if negb (time t =? latest) then None
        else
          let m := set_timeouts (delete top (m_timeouts m)) m in
          match m_timers m !! timeout_id t with
          | None => Some (Again, m)
          | Some e =>
              if (negb (is_enabled e) || negb (timeout_revision t =? revision e))%bool then Some (Again, m)
              else
                let timers :=
                  if is_period e then <[timeout_id t := set_closure None e]> (m_timers m) else delete (timeout_id t) (m_timers m) in
                Some (Dequeued (timeout_id t) e, set_running (timeout_id t) (set_timers timers m))
          end
  end.

(** What [Dispatch] does after the closure has run. *)
Definition after_run (id : Z) (e : TimerEntry) (now : Z) (m : Manager) : Manager * list nat :=
  let m := set_running 0 m in
  if is_period e then
    match m_timers m !! id with
    | Some x =>
        let '(x, out) :=
          match closure e with
          | None => (x, [])
          | Some c => match closure x with None => (set_closure (Some c) x, []) | Some _ => (x, [c]) end
          end in
        let m := set_timers (<[id := x]> (m_timers m)) m in
        ((if is_enabled x then fst (SetNextTimeout true id (interval x) (revision x) now m) else m), out)
    | None => (m, held (closure e))
    end
  else (m, []).

(** Where the thread is: in [Entry], waiting until a time or a signal, and
    whether it was signalled, in [Dispatch], before the closure, in the
    closure, at its end, and joined. *)
Inductive dispatcher :=
  | Looping
  | Waiting (deadline : option Z) (signalled : bool)
  | Dispatching
  | Starting (id : Z) (e : TimerEntry)
  | Running (id : Z) (e : TimerEntry)
  | Ended
  | Joined.

(** [m_cond.Signal()] *)
Definition signal_thread (signal : bool) (t : dispatcher) : dispatcher :=
  match t with Waiting deadline signalled => Waiting deadline (signalled || signal) | _ => t end.

(** ** Runs *)

(** The manager with its thread and the clock; the closures given, deleted, and
    deleted by themselves; and the timers and closures that were run. *)
Record System := mkSystem {
  manager : Manager;
  thread : dispatcher;
  stop_requested : bool;
  now : Z;
  given : list nat;
  deleted : list nat;
  spent : list nat;
  ran : list (Z * nat)
}.

Inductive method :=
  | Add (interval : Z) (is_period : bool) (c : option nat)
  | Modify (id interval : Z) (c : option nat)
  | ModifyInterval (id interval : Z)
  | Remove (id : Z)
  | AsyncRemove (id : Z)
  | Disable (id : Z)
  | Enable (id : Z)
  | ClearAll.

(** The closures that the manager takes; a timer that is not found takes none. *)
Definition gives (o : method) (m : Manager) : list nat :=
  match o with
  | Add _ _ c => held c
  | Modify id _ c => match FindEntry id m with Some _ => held c | None => [] end
  | _ => []
  end.

(** A method: the state, whether the thread is signalled, and what was deleted. *)
Definition call (self : bool) (o : method) (now : Z) (m : Manager) : option (Manager * bool * list nat) :=
  match o with
  | Add interval is_period c => '(_, m, signal) ← AddTimer self interval is_period c now m; Some (m, signal, [])
  | Modify id interval c => let '(_, m, signal, out) := ModifyTimer_closure self id interval c now m in Some (m, signal, out)
  | ModifyInterval id interval => let '(_, m, signal) := ModifyTimer self id interval now m in Some (m, signal, [])
  | Remove id => let '(_, m, out) := RemoveTimer self id m in Some (m, false, out)
  | AsyncRemove id => let '(_, m, out) := AsyncRemoveTimerNoLock id m in Some (m, false, out)
  | Disable id => let '(_, m) := DisableTimer id m in Some (m, false, [])
  | Enable id => let '(_, m, signal) := EnableTimer self id now m in Some (m, signal, [])
  | ClearAll => let '(m, out) := Clear m in Some (m, false, out)
  end.

Inductive event :=
  | Tick (ms : Z) | OtherManager
  | Call (self : bool) (o : method)
  | StopRequest | StopJoin
  | Loop | Wake | Dequeue (top : nat) | Start | Return.

Definition with_thread (t : dispatcher) (s : System) : System :=
  mkSystem (manager s) t (stop_requested s) (now s) (given s) (deleted s) (spent s) (ran s).

Definition is_running (t : dispatcher) : bool := match t with Running _ _ => true | _ => false end.
Definition is_joined (t : dispatcher) : bool := match t with Joined => true | _ => false end.

Definition step (e : event) (s : System) : option System :=
  match e with
  | Tick ms =>
      if ms <? 0 then None
      else Some (mkSystem (manager s) (thread s) (stop_requested s) (now s + ms) (given s) (deleted s) (spent s) (ran s))
  | OtherManager =>
      let m := manager s in
      Some (mkSystem (mkManager (m_timers m) (m_timeouts m) (m_running_timer m) (timer_id m + 1)) (thread s) (stop_requested s) (now s)
              (given s) (deleted s) (spent s) (ran s))
  | Call self o =>
      if (is_joined (thread s) || self && negb (is_running (thread s)))%bool then None
      else
        '(m, signal, out) ← call self o (now s) (manager s);
        Some (mkSystem m (signal_thread signal (thread s)) (stop_requested s) (now s) (given s ++ gives o (manager s)) (deleted s ++ out) (spent s) (ran s))
  | StopRequest =>
      if is_joined (thread s) then Some s
      else Some (mkSystem (manager s) (signal_thread true (thread s)) true (now s) (given s) (deleted s) (spent s) (ran s))
  | StopJoin =>
      match thread s with
      | Ended => let '(m, out) := Clear (manager s) in Some (mkSystem m Joined true (now s) (given s) (deleted s ++ out) (spent s) (ran s))
      | _ => None
      end
  | Loop =>
      match thread s with
      | Looping =>
          Some (with_thread (if stop_requested s then Ended
            else Waiting (timeout ← GetLatestTimeout (now s) (manager s); Some (now s + timeout)) false) s)
      | _ => None
      end
  | Wake => match thread s with Waiting _ _ => Some (with_thread Dispatching s) | _ => None end
  | Dequeue top =>
      match thread s with
      | Dispatching =>
          '(d, m) ← DequeueTimeoutEntry top (now s) (manager s);
          Some (mkSystem m (match d with Nothing => Looping | Again => Dispatching | Dequeued id e => Starting id e end)
                  (stop_requested s) (now s) (given s) (deleted s) (spent s) (ran s))
      | _ => None
      end
  | Start =>
      match thread s with
      | Starting id e =>
          Some (mkSystem (manager s) (Running id e) (stop_requested s) (now s) (given s) (deleted s)
                  (spent s ++ (if is_period e then [] else held (closure e))) (ran s ++ ((λ c, (id, c)) <$> held (closure e))))
      | _ => None
      end
  | Return =>
      match thread s with
      | Running id e =>
          let '(m, out) := after_run id e (now s) (manager s) in
          Some (mkSystem m Dispatching (stop_requested s) (now s) (given s) (deleted s ++ out) (spent s) (ran s))
      | _ => None
      end
  end.

Fixpoint run (es : list event) (s : System) : option System :=
  match es with [] => Some s | e :: es => s ← step e s; run es s end.

(** [start] is the clock when the manager is made. *)
Definition new_System (start : Z) : System := mkSystem new_Manager Looping false start [] [] [] [].
Definition reachable (s : System) : Prop := ∃ start es, run es (new_System start) = Some s.

(** ** Examples *)

Definition periodic : list event := [Call false (Add 10 true (Some 7%nat)); Loop; Tick 10; Wake; Dequeue 0; Start].

(** A timer that changes its interval in its closure has two timeouts
    afterwards, and runs twice in each interval. *)
Example modified_in_closure :
  (λ s, (m_timeouts (manager s), ran s)) <$>
    run (periodic ++ [Call true (ModifyInterval 1 20); Return; Tick 20; Dequeue 0; Start; Return; Dequeue 0; Start; Return]) (new_System 0) =
    Some ([mkTimeout 50 1 1; mkTimeout 50 1 1], [(1, 7%nat); (1, 7%nat); (1, 7%nat)]).
Proof. by vm_compute. Qed.

(** So does one that is enabled twice. *)
Example enabled_twice :
  (λ s, m_timeouts (manager s)) <$> run [Call false (Add 10 true (Some 7%nat)); Call false (Enable 1)] (new_System 0) =
    Some [mkTimeout 10 1 0; mkTimeout 10 1 0].
Proof. by vm_compute. Qed.

(** A closure that gives itself to its timer is deleted, and stays there. *)
Example modified_with_itself :
  (λ s, (deleted s, closures (m_timers (manager s)))) <$> run (periodic ++ [Call true (Modify 1 20 (Some 7%nat)); Return]) (new_System 0) =
    Some ([7%nat], [7%nat]).
Proof. by vm_compute. Qed.

(** A timer with an interval of 0 is due again when it has run: the thread goes
    round and does not see the request to stop. *)
Example never_stops :
  let s := run [Call false (Add 0 true (Some 7%nat)); Loop; StopRequest; Wake] (new_System 0) in
  (λ s, (manager s, thread s)) <$> s = (λ s, (manager s, thread s)) <$> (s ≫= run [Dequeue 0; Start; Return]).
Proof. by vm_compute. Qed.
