(* ===== verification/TimerFacts.v ===== *)
(** * Timers: none is lost, none runs when it was removed, no closure leaks

    Invariants of every run of the timer manager, its thread and the threads
    that call it. *)

From S2P Require Import Prelude Occurrences Timer.

(** ** The timeouts *)

Lemma least_time_le ts t : t ∈ ts → ∃ n, least_time ts = Some n ∧ n <= time t.
Proof.
  induction ts as [|u ts IH]; intros Hin; [by apply elem_of_nil in Hin|]. cbn. apply elem_of_cons in Hin as [->|Hin].
  - eexists. split; [done|]. destruct (least_time ts); lia.
  - destruct (IH Hin) as (n & -> & Hn). eexists. split; [done|]. lia.
Qed.

Lemma least_time_none ts : least_time ts = None → ts = [].
Proof. destruct ts; [done|]. cbn. done. Qed.

Lemma least_time_snoc ts t : least_time (ts ++ [t]) = Some (match least_time ts with Some n => Z.min n (time t) | None => time t end).
Proof. induction ts as [|u ts IH]; [done|]. cbn. rewrite IH. f_equal. destruct (least_time ts); lia. Qed.

Lemma elem_of_delete_ne (ts : list Timeout) i t x : ts !! i = Some t → x ≠ t → x ∈ ts → x ∈ delete i ts.
Proof.
  intros Hi Hx Hin. apply list_elem_of_lookup in Hin as [j Hj]. rewrite delete_take_drop. apply elem_of_app.
  destruct (Nat.lt_trichotomy j i) as [Hlt|[->|Hgt]]; [left|congruence|right].
  - apply list_elem_of_lookup. exists j. by rewrite lookup_take_lt.
  - apply list_elem_of_lookup. exists (j - S i)%nat. rewrite lookup_drop. by replace (S i + (j - S i))%nat with j by lia.
Qed.

Lemma SetNextTimeout_eq self id interval revision now m :
  fst (SetNextTimeout self id interval revision now m) = PushNextTimeout id interval revision now m.
Proof. unfold SetNextTimeout. destruct self; [done|]. by destruct (GetLatestTime m), (GetLatestTime (PushNextTimeout id interval revision now m)). Qed.

Lemma s32_le x : 0 <= x → s32 x <= x.
Proof.
  intros Hx. unfold s32. pose proof (Z.div_mod (x + 2 ^ 31) (2 ^ 32)). pose proof (Z.mod_pos_bound (x + 2 ^ 31) (2 ^ 32)).
  destruct (Z.ltb_spec x (2 ^ 31)); [rewrite Z.mod_small; lia|]. assert (0 <= (x + 2 ^ 31) / 2 ^ 32) by (apply Z.div_pos; lia).
  assert (1 <= (x + 2 ^ 31) / 2 ^ 32) by (apply Z.div_le_lower_bound; lia). lia.
Qed.

(** ** The invariant *)

(** A timeout that runs an entry, no later than its interval from now. *)
Definition live (now id : Z) (e : TimerEntry) (t : Timeout) : Prop :=
  timeout_id t = id ∧ timeout_revision t = revision e ∧ time t <= now + interval e.

(** Of the manager while the thread runs a timer, which may be one that runs
    once. *)
Record manager_ok (running : Z) (one_shot : bool) (now : Z) (m : Manager) : Prop := {
  ok_ids : ∀ id e, m_timers m !! id = Some e → 1 <= id <= timer_id m;
  ok_running : m_running_timer m = running;
  ok_one_shot : one_shot = true → m_timers m !! running = None;
  ok_live : ∀ id e, m_timers m !! id = Some e → is_enabled e = true → running ≠ id → ∃ t, t ∈ m_timeouts m ∧ live now id e t;
  ok_known : 0 <= running <= timer_id m
}.

(** Without a signal the earliest time stays. *)
Definition no_earlier (m m' : Manager) (signal : bool) : Prop :=
  signal = false → ∀ t, t ∈ m_timeouts m' → t ∈ m_timeouts m ∨ ∃ u, u ∈ m_timeouts m ∧ time u <= time t.

Lemma least_time_in ts n : least_time ts = Some n → ∃ t, t ∈ ts ∧ time t = n.
Proof.
  revert n. induction ts as [|u ts IH]; intros n; cbn; [done|]. intros [= <-]. destruct (least_time ts) as [k|] eqn:E.
  - destruct (IH k eq_refl) as (t & Ht & Hk). destruct (Z.le_ge_cases (time u) k); [exists u; split; [by left|lia]|exists t; split; [by right|lia]].
  - exists u. split; [by left|done].
Qed.

Lemma SetNextTimeout_no_earlier id interval revision now m :
  no_earlier m (fst (SetNextTimeout false id interval revision now m)) (snd (SetNextTimeout false id interval revision now m)).
Proof.
  intros Hs t. rewrite SetNextTimeout_eq. unfold PushNextTimeout. cbn. rewrite elem_of_app, list_elem_of_singleton. intros [Ht| ->]; [by left|right].
  revert Hs. unfold SetNextTimeout, GetLatestTime, PushNextTimeout. cbn. rewrite least_time_snoc. cbn.
  destruct (least_time (m_timeouts m)) as [n|] eqn:E; [|done]. cbn. intros Hs%Z.ltb_ge. destruct (least_time_in _ _ E) as (u & Hu & <-).
  exists u. split; [done|]. lia.
Qed.

Section Methods.
Context (running : Z) (one_shot : bool) (now : Z).

(** A new timeout, or none, behind the others. *)
Lemma push_ok id i r m : manager_ok running one_shot now m → manager_ok running one_shot now (PushNextTimeout id i r now m).
Proof.
  intros [H1 H2 H3 H4 H5]. split; try done. intros id' e Hid He Hr. destruct (H4 id' e Hid He Hr) as (t & Ht & Hl).
  exists t. split; [|done]. cbn. apply elem_of_app. by left.
Qed.

(** An entry replaced, and its timeout pushed if it is enabled. *)
Lemma replace_ok id e e' m : m_timers m !! id = Some e → manager_ok running one_shot now m →
  (is_enabled e' = true → running ≠ id → ∃ t, t ∈ m_timeouts m ∧ live now id e' t) →
  manager_ok running one_shot now (set_timers (<[id := e']> (m_timers m)) m).
Proof.
  intros Hid [H1 H2 H3 H4 H5] He. split; try done; cbn.
  - intros id' x. destruct (decide (id' = id)) as [->|Hne]; [rewrite lookup_insert_eq; intros _; by eapply H1|rewrite lookup_insert_ne by done; apply H1].
  - intros Ho. rewrite lookup_insert_ne; [by apply H3|]. intros ->. specialize (H3 Ho). congruence.
  - intros id' x. destruct (decide (id' = id)) as [->|Hne]; [rewrite lookup_insert_eq; intros [= <-]; apply He|rewrite lookup_insert_ne by done; apply H4].
Qed.

Lemma pushed_live id e m : ∃ t, t ∈ m_timeouts (PushNextTimeout id (interval e) (revision e) now m) ∧ live now id e t.
Proof. eexists. split; [cbn; apply elem_of_app; right; by left|]. split; [done|]. split; [done|]. cbn. lia. Qed.

Lemma modify_entry_ok self id e m : (∃ x, m_timers m !! id = Some x) → manager_ok running one_shot now m →
  manager_ok running one_shot now (fst (modify_entry self id e now m)) ∧
  (self = false → no_earlier m (fst (modify_entry self id e now m)) (snd (modify_entry self id e now m))).
Proof.
  intros [x Hid] Hm. unfold modify_entry. set (e' := next_revision e). set (m' := set_timers (<[id := e']> (m_timers m)) m).
  destruct (is_enabled e') eqn:Ee.
  - split.
    + rewrite SetNextTimeout_eq. assert (Hp := push_ok id (interval e') (revision e') m Hm).
      refine (replace_ok id x e' (PushNextTimeout id (interval e') (revision e') now m) Hid Hp _). intros _ _. apply (pushed_live id e' m).
    + intros ->. intros Hs t Ht. by apply (SetNextTimeout_no_earlier id (interval e') (revision e') now m' Hs).
  - split; [|by left]. eapply replace_ok; [exact Hid|done|]. congruence.
Qed.

Lemma remove_ok id m : manager_ok running one_shot now m → manager_ok running one_shot now (set_timers (delete id (m_timers m)) m).
Proof.
  intros [H1 H2 H3 H4 H5]. split; try done; cbn.
  - intros id' x Hx. apply lookup_delete_Some in Hx as [_ Hx]. by eapply H1.
  - intros Ho. apply lookup_delete_None. right. by apply H3.
  - intros id' x Hx. apply lookup_delete_Some in Hx as [_ Hx]. by apply H4.
Qed.

(** Every method. *)
Lemma call_ok self o m m' signal out : manager_ok running one_shot now m → call self o now m = Some (m', signal, out) →
  manager_ok running one_shot now m' ∧ (self = false → no_earlier m m' signal) ∧ timer_id m <= timer_id m'.
Proof.
  intros Hm. assert (Hsame : no_earlier m m false) by (intros _ t Ht; by left). destruct o as [i p c|id i c|id i|id|id|id|id|]; cbn [call].
  - unfold AddTimer. destruct (i <? 0); [done|]. set (id := timer_id m + 1). set (e := mkEntry c i true p 0).
    set (m1 := mkManager _ _ _ _). destruct (SetNextTimeout self id i 0 now m1) as [m2 sg] eqn:E. cbn. intros [= <- <- <-].
    assert (Em : m2 = PushNextTimeout id i 0 now m1) by (rewrite <- (SetNextTimeout_eq self), E; done).
    split; [|split].
    + rewrite Em. destruct Hm as [H1 H2 H3 H4 H5]. assert (Hfresh : m_timers m !! id = None).
      { destruct (m_timers m !! id) eqn:El; [|done]. apply H1 in El. unfold id in El. lia. }
      split; cbn.
      * intros id' x. destruct (decide (id' = id)) as [->|]; [intros _; unfold id; lia|rewrite lookup_insert_ne by done].
        intros Hx%H1. unfold id. lia.
      * done.
      * intros Ho. rewrite lookup_insert_ne; [by apply H3|]. unfold id. lia.
      * intros id' x. destruct (decide (id' = id)) as [->|].
        -- rewrite lookup_insert_eq. intros [= <-] _ _. exact (pushed_live id e m).
        -- rewrite lookup_insert_ne by done. intros Hx He Hr. destruct (H4 id' x Hx He Hr) as (t & Ht & Hl).
           exists t. split; [|done]. apply elem_of_app. by left.
      * unfold id. lia.
    + intros ->. pose proof (SetNextTimeout_no_earlier id i 0 now m1) as Hn. rewrite E in Hn. exact Hn.
    + rewrite Em. cbn. unfold id. lia.
  - unfold ModifyTimer_closure, FindEntry. destruct (m_timers m !! id) as [e|] eqn:Ee; [|by intros [= <- <- <-]].
    set (e' := set_interval _ _). destruct (modify_entry self id e' now m) as [m2 sg] eqn:E. intros [= <- <- <-].
    pose proof (modify_entry_ok self id e' m (ex_intro _ e Ee) Hm) as Ho. rewrite E in Ho. destruct Ho as [Ho Hn]. split; [done|]. split; [done|].
    destruct Ho as [_ _ _ _ _], Hm as [_ _ _ _ _]. unfold modify_entry in E. destruct (is_enabled (next_revision e')).
    + assert (Em := SetNextTimeout_eq self id (interval (next_revision e')) (revision (next_revision e')) now (set_timers (<[id := next_revision e']> (m_timers m)) m)). rewrite E in Em. cbn in Em. subst m2. done.
    + by injection E as <- <-.
  - unfold ModifyTimer, FindEntry. destruct (m_timers m !! id) as [e|] eqn:Ee; [|by intros [= <- <- <-]].
    set (e' := set_interval _ _). destruct (modify_entry self id e' now m) as [m2 sg] eqn:E. intros [= <- <- <-].
    pose proof (modify_entry_ok self id e' m (ex_intro _ e Ee) Hm) as Ho. rewrite E in Ho. destruct Ho as [Ho Hn]. split; [done|]. split; [done|].
    unfold modify_entry in E. destruct (is_enabled (next_revision e')).
    + assert (Em := SetNextTimeout_eq self id (interval (next_revision e')) (revision (next_revision e')) now (set_timers (<[id := next_revision e']> (m_timers m)) m)). rewrite E in Em. cbn in Em. subst m2. done.
    + by injection E as <- <-.
  - unfold RemoveTimer, AsyncRemoveTimerNoLock. destruct (id =? 0); [by intros [= <- <- <-]|].
    destruct (_ || _)%bool; [|by intros [= <- <- <-]]. destruct (m_timers m !! id); intros [= <- <- <-]; [|done].
    split; [by apply remove_ok|done].
  - unfold AsyncRemoveTimerNoLock. destruct (m_timers m !! id); intros [= <- <- <-]; [|done]. split; [by apply remove_ok|done].
  - unfold DisableTimer, FindEntry. destruct (m_timers m !! id) as [e|] eqn:Ee; intros [= <- <- <-]; [|done].
    split; [|done]. by eapply replace_ok.
  - unfold EnableTimer, FindEntry. destruct (m_timers m !! id) as [e|] eqn:Ee; [|by intros [= <- <- <-]].
    set (m1 := set_timers _ m). destruct (SetNextTimeout self id (interval e) (revision e) now m1) as [m2 sg] eqn:E. intros [= <- <- <-].
    assert (Em : m2 = PushNextTimeout id (interval e) (revision e) now m1) by (rewrite <- (SetNextTimeout_eq self), E; done).
    split; [|split].
    + rewrite Em. eapply (replace_ok id e (set_enabled true e) (PushNextTimeout id (interval e) (revision e) now m)); [done|by apply push_ok|].
      intros _ _. exact (pushed_live id (set_enabled true e) m).
    + intros ->. pose proof (SetNextTimeout_no_earlier id (interval e) (revision e) now m1) as Hn. rewrite E in Hn. exact Hn.
    + by rewrite Em.
  - cbn. intros [= <- <- <-]. split; [|split; [|done]].
    + destruct Hm as [H1 H2 H3 H4 H5]. split; cbn; try done; intros id e; by rewrite lookup_empty.
    + intros _ _ t Ht. by apply elem_of_nil in Ht.
Qed.
End Methods.

(** ** The steps *)

(** The timer that the thread holds. *)
Definition thread_timer (t : dispatcher) : option (Z * TimerEntry) :=
  match t with Starting id e | Running id e => Some (id, e) | _ => None end.
Definition running_of (t : dispatcher) : Z := match thread_timer t with Some (id, _) => id | None => 0 end.
Definition one_shot_of (t : dispatcher) : bool := match thread_timer t with Some (_, e) => negb (is_period e) | None => false end.

Record scheduled (s : System) : Prop := {
  sc_manager : manager_ok (running_of (thread s)) (one_shot_of (thread s)) (now s) (manager s);
  sc_wakes : ∀ deadline t, thread s = Waiting deadline false → t ∈ m_timeouts (manager s) →
    ∃ d, deadline = Some d ∧ d <= Z.max (now s) (time t)
}.

Lemma thread_timer_signal signal t : thread_timer (signal_thread signal t) = thread_timer t.
Proof. by destruct t. Qed.

Lemma manager_ok_now r o n n' m : n <= n' → manager_ok r o n m → manager_ok r o n' m.
Proof.
  intros Hn [H1 H2 H3 H4 H5]. split; try done. intros id e Hid He Hr. destruct (H4 id e Hid He Hr) as (t & Ht & ? & ? & ?).
  exists t. split; [done|]. split; [done|]. split; [done|]. lia.
Qed.

(** The thread's own steps. *)
Lemma dequeue_ok top now m d m' : manager_ok 0 false now m → DequeueTimeoutEntry top now m = Some (d, m') →
  let t := match d with Nothing => Looping | Again => Dispatching | Dequeued id e => Starting id e end in
  manager_ok (running_of t) (one_shot_of t) now m'.
Proof.
  intros [H1 H2 H3 H4 H5]. unfold DequeueTimeoutEntry. destruct (GetLatestTime m) as [latest|]; [|by intros [= <- <-]].
  destruct (now <? latest); [by intros [= <- <-]|]. destruct (m_timeouts m !! top) as [t|] eqn:Et; [|done]. cbn [mbind option_bind].
  destruct (negb _); [done|]. cbn [set_timeouts m_timers].
  assert (Hkeep : ∀ id x, m_timers m !! id = Some x → is_enabled x = true →
    (timeout_id t = id → timeout_revision t ≠ revision x) → 0 ≠ id → ∃ u, u ∈ delete top (m_timeouts m) ∧ live now id x u).
  { intros id x Hid Hx Hne H0. destruct (H4 id x Hid Hx H0) as (u & Hu & Hl). exists u. split; [|done].
    eapply elem_of_delete_ne; [done| |done]. intros ->. destruct Hl as (Hl1 & Hl2 & _). by apply Hne. }
  destruct (m_timers m !! timeout_id t) as [e|] eqn:Ee.
  - destruct (negb (is_enabled e) || negb (timeout_revision t =? revision e))%bool eqn:Eo; intros [= <- <-].
    + split; try done; cbn. intros id x Hid Hx H0. apply Hkeep; try done. intros <- Hr. rewrite Ee in Hid. injection Hid as ->.
      rewrite Hx, Hr, Z.eqb_refl in Eo. done.
    + assert (Hle := H1 _ _ Ee). unfold running_of, one_shot_of. cbn. destruct (is_period e); split; cbn; try done.
      * intros id x. destruct (decide (id = timeout_id t)) as [->|Hne]; [done|rewrite lookup_insert_ne by done; apply H1].
      * intros id x Hx Hex Hr. rewrite lookup_insert_ne in Hx by done. apply Hkeep; try done. apply H1 in Hx. lia.
      * lia.
      * intros id x Hx. apply lookup_delete_Some in Hx as [_ Hx]. by eapply H1.
      * intros _. by rewrite lookup_delete_eq.
      * intros id x Hx Hex Hr. rewrite lookup_delete_ne in Hx by done. apply Hkeep; try done. apply H1 in Hx. lia.
      * lia.
  - intros [= <- <-]. split; try done; cbn. intros id x Hid Hx H0. apply Hkeep; try done. intros <-. congruence.
Qed.

Lemma after_run_ok id e now m : manager_ok id (negb (is_period e)) now m → manager_ok 0 false now (fst (after_run id e now m)).
Proof.
  intros [H1 H2 H3 H4 H5]. unfold after_run.
  assert (Hlive : ∀ id' x, m_timers m !! id' = Some x → is_enabled x = true → id' ≠ id → ∃ t, t ∈ m_timeouts m ∧ live now id' x t) by (intros; by apply H4).
  destruct (is_period e); cbn.
  - destruct (m_timers m !! id) as [x|] eqn:Ex.
    + set (p := match closure e with None => (x, []) | Some c => _ end). assert (Ep : is_enabled p.1 = is_enabled x ∧ revision p.1 = revision x ∧ interval p.1 = interval x).
      { unfold p. destruct (closure e); [destruct (closure x)|]; done. }
      destruct p as [y out]. cbn in Ep |- *. destruct Ep as (Ey1 & Ey2 & Ey3). destruct (is_enabled y) eqn:Ey.
      * split; cbn; try done.
        -- intros id' z. destruct (decide (id' = id)) as [->|]; [intros _; by eapply H1|rewrite lookup_insert_ne by done; apply H1].
        -- intros id' z. destruct (decide (id' = id)) as [->|Hne].
           ++ rewrite lookup_insert_eq. intros [= <-] _ _. apply (pushed_live now id y m).
           ++ rewrite lookup_insert_ne by done. intros Hz He _. destruct (Hlive id' z Hz He Hne) as (t & Ht & Hl). exists t. split; [|done]. apply elem_of_app. by left.
        -- lia.
      * split; cbn; try done; [| |lia].
        -- intros id' z. destruct (decide (id' = id)) as [->|]; [intros _; by eapply H1|rewrite lookup_insert_ne by done; apply H1].
        -- intros id' z. destruct (decide (id' = id)) as [->|Hne]; [rewrite lookup_insert_eq; intros [= <-]; congruence|].
           rewrite lookup_insert_ne by done. intros Hz He _. by apply Hlive.
    + split; cbn; try done; [|lia]. intros id' z Hz He _. apply Hlive; try done. congruence.
  - split; cbn; try done; [|lia]. intros id' z Hz He _. apply Hlive; try done. intros ->. specialize (H3 eq_refl). congruence.
Qed.

Lemma GetLatestTimeout_wakes now m t timeout : GetLatestTimeout now m = timeout → t ∈ m_timeouts m →
  ∃ d, (timeout ← timeout; Some (now + timeout)) = Some d ∧ d <= Z.max now (time t).
Proof.
  intros <- Ht. unfold GetLatestTimeout, GetLatestTime. destruct (least_time_le _ _ Ht) as (n & -> & Hn). cbn.
  destruct (Z.ltb_spec now n) as [Hlt|Hle]; eexists; (split; [done|]); [|lia]. pose proof (s32_le (n - now)). lia.
Qed.

Lemma step_scheduled e s s' : scheduled s → step e s = Some s' → scheduled s'.
Proof.
  intros [Hm Hw] E. destruct e as [ms| |self o| | | | |top| |]; cbn in E.
  - destruct (Z.ltb_spec ms 0); [done|]. injection E as <-. split; cbn; [eapply manager_ok_now; [|done]; lia|].
    intros d t Ed Ht. destruct (Hw d t Ed Ht) as (d' & ? & ?). exists d'. split; [done|lia].
  - injection E as <-. split; [|done]. destruct Hm as [H1 H2 H3 H4 H5]. split; cbn; try done; [|lia]. intros id x Hx%H1. lia.
  - destruct (is_joined (thread s) || self && negb (is_running (thread s)))%bool eqn:Eg; [done|].
    destruct (call self o (now s) (manager s)) as [[[m signal] out]|] eqn:Ec; [|done]. cbn in E. injection E as <-.
    destruct (call_ok _ _ _ _ _ _ _ _ _ Hm Ec) as (Hm' & Hn & _). split; cbn.
    + unfold running_of, one_shot_of. by rewrite thread_timer_signal.
    + intros d t Ed Ht. destruct (thread s) as [|d' signalled| | | | |] eqn:Et; try done. cbn in Ed. injection Ed as -> [-> ->]%orb_false_iff.
      assert (self = false) as -> by (by destruct self). destruct (Hn eq_refl eq_refl t Ht) as [Hold|(u & Hu & Hle)].
      * by apply Hw.
      * destruct (Hw d u eq_refl Hu) as (d' & -> & Hd'). exists d'. split; [done|lia].
  - destruct (is_joined (thread s)); injection E as <-; [done|]. split; cbn; [unfold running_of, one_shot_of; by rewrite thread_timer_signal|].
    intros d t Ed. destruct (thread s) as [|d' []| | | | |]; done.
  - destruct (thread s) eqn:Et; try done. injection E as <-. split; cbn; [|done].
    destruct (call_ok _ _ _ false ClearAll _ _ _ _ Hm eq_refl) as (Hm' & _). exact Hm'.
  - destruct (thread s) eqn:Et; try done. injection E as <-. split; cbn; [by destruct (stop_requested s)|].
    destruct (stop_requested s); [done|]. intros d t [= <-] Ht. by eapply GetLatestTimeout_wakes.
  - destruct (thread s) eqn:Et; try done. injection E as <-. by split.
  - destruct (thread s) eqn:Et; try done. destruct (DequeueTimeoutEntry top (now s) (manager s)) as [[d m]|] eqn:Ed; [|done]. cbn in E. injection E as <-.
    split; cbn; [by eapply dequeue_ok|]. by destruct d.
  - destruct (thread s) eqn:Et; try done. injection E as <-. by split.
  - destruct (thread s) as [| | | |id e| |] eqn:Et; try done. pose proof (after_run_ok id e (now s) (manager s) Hm) as Ha. 
    destruct (after_run id e (now s) (manager s)) as [m out]. injection E as <-. by split.
Qed.

(** What steps keep holds in every run. *)
Lemma run_keeps (P : System → Prop) es s s' : (∀ e a b, P a → step e a = Some b → P b) → P s → run es s = Some s' → P s'.
Proof.
  intros Hstep. revert s. induction es as [|e es IH]; intros s Hs; cbn; [by intros [= <-]|].
  destruct (step e s) as [t|] eqn:E; [|done]. cbn. by eapply IH, Hstep.
Qed.

Lemma reachable_scheduled s : reachable s → scheduled s.
Proof.
  intros (start & es & E). eapply run_keeps; [exact step_scheduled| |exact E]. by split; [split|].
Qed.

(** A timeout that is due and the first is taken. *)
Lemma dequeue_first now m t : t ∈ m_timeouts m → time t <= now → (∀ u, u ∈ m_timeouts m → time t <= time u) →
  ∃ top d m', DequeueTimeoutEntry top now m = Some (d, m') ∧ m_timeouts m !! top = Some t ∧ m_timeouts m' = delete top (m_timeouts m) ∧
    ∀ id e, m_timers m !! id = Some e → is_enabled e = true → live now id e t → d = Dequeued id e.
Proof.
  intros Ht Hnow Hleast. apply list_elem_of_lookup in Ht as [top Htop]. assert (Hin : t ∈ m_timeouts m) by (by eapply list_elem_of_lookup_2).
  destruct (least_time_le _ _ Hin) as (n & En & Hn). destruct (least_time_in _ _ En) as (u & Hu%Hleast & Eu). exists top.
  unfold DequeueTimeoutEntry, GetLatestTime. rewrite En. destruct (Z.ltb_spec now n); [lia|]. rewrite Htop. cbn [mbind option_bind].
  replace (time t =? n) with true by (symmetry; apply Z.eqb_eq; lia). cbn [negb set_timeouts m_timers].
  destruct (m_timers m !! timeout_id t) as [e|] eqn:Ee.
  - destruct (negb (is_enabled e) || negb (timeout_revision t =? revision e))%bool eqn:Eo; do 2 eexists;
      (split; [done|]); (split; [done|]); (split; [done|]); intros id x Hid Hx (<- & Hr & _); rewrite Ee in Hid; injection Hid as ->.
    + by rewrite Hx, Hr, Z.eqb_refl in Eo.
    + done.
  - do 2 eexists. split; [done|]. split; [done|]. split; [done|]. intros id x Hid _ (<- & _). congruence.
Qed.

(** ** Timers removed *)

(** A timer that is not there, and that the thread does not run. *)
Definition gone (id : Z) (m : Manager) : Prop := m_timers m !! id = None ∧ id <= timer_id m.

Lemma SetNextTimeout_timers self id i r now m :
  m_timers (fst (SetNextTimeout self id i r now m)) = m_timers m ∧ timer_id (fst (SetNextTimeout self id i r now m)) = timer_id m.
Proof. by rewrite SetNextTimeout_eq. Qed.

Lemma modify_entry_timers self id e now m :
  m_timers (fst (modify_entry self id e now m)) = <[id := next_revision e]> (m_timers m) ∧ timer_id (fst (modify_entry self id e now m)) = timer_id m.
Proof. unfold modify_entry. destruct (is_enabled (next_revision e)); [by rewrite SetNextTimeout_eq|done]. Qed.

(** What a method leaves of the timers: a new timer, a timer replaced, a timer
    less, or none. *)
Lemma call_timers self o now m m' signal out : call self o now m = Some (m', signal, out) →
  (m_timers m' = m_timers m ∧ timer_id m' = timer_id m) ∨
  (timer_id m' = timer_id m + 1 ∧ ∃ e, m_timers m' = <[timer_id m + 1 := e]> (m_timers m)) ∨
  (timer_id m' = timer_id m ∧ ((∃ id e e', m_timers m !! id = Some e ∧ m_timers m' = <[id := e']> (m_timers m)) ∨
    (∃ id, m_timers m' = delete id (m_timers m)) ∨ m_timers m' = ∅)).
Proof.
  destruct o as [i p c|id i c|id i|id|id|id|id|]; cbn [call].
  - unfold AddTimer. destruct (i <? 0); [done|]. set (m1 := mkManager _ _ _ _).
    pose proof (SetNextTimeout_timers self (timer_id m + 1) i 0 now m1) as [H1 H2]. destruct (SetNextTimeout _ _ _ _ _ _). cbn in H1, H2 |- *.
    intros [= <- <- <-]. right; left. split; [done|]. by eexists.
  - unfold ModifyTimer_closure, FindEntry. destruct (m_timers m !! id) as [e|] eqn:Ee; [|intros [= <- <- <-]; by left]. set (e' := set_interval _ _).
    pose proof (modify_entry_timers self id e' now m) as [H1 H2]. destruct (modify_entry _ _ _ _ _). cbn in H1, H2. intros [= <- <- <-].
    right; right. split; [done|]. left. by exists id, e, (next_revision e').
  - unfold ModifyTimer, FindEntry. destruct (m_timers m !! id) as [e|] eqn:Ee; [|intros [= <- <- <-]; by left]. set (e' := set_interval _ _).
    pose proof (modify_entry_timers self id e' now m) as [H1 H2]. destruct (modify_entry _ _ _ _ _). cbn in H1, H2. intros [= <- <- <-].
    right; right. split; [done|]. left. by exists id, e, (next_revision e').
  - unfold RemoveTimer, AsyncRemoveTimerNoLock. destruct (id =? 0); [intros [= <- <- <-]; by left|].
    destruct (_ || _)%bool; [|intros [= <- <- <-]; by left]. destruct (m_timers m !! id); intros [= <- <- <-]; [|by left]. right; right. split; [done|]. right; left. by eexists.
  - unfold AsyncRemoveTimerNoLock. destruct (m_timers m !! id); intros [= <- <- <-]; [|by left]. right; right. split; [done|]. right; left. by eexists.
  - unfold DisableTimer, FindEntry. destruct (m_timers m !! id) as [e|] eqn:Ee; intros [= <- <- <-]; [|by left].
    right; right. split; [done|]. left. by eexists id, e, _.
  - unfold EnableTimer, FindEntry. destruct (m_timers m !! id) as [e|] eqn:Ee; [|intros [= <- <- <-]; by left]. set (m1 := set_timers _ m).
    pose proof (SetNextTimeout_timers self id (interval e) (revision e) now m1) as [H1 H2]. destruct (SetNextTimeout _ _ _ _ _ _). cbn in H1, H2.
    intros [= <- <- <-]. right; right. split; [done|]. left. by eexists id, e, _.
  - intros [= <- <- <-]. right; right. split; [done|]. by do 2 right.
Qed.

Lemma call_gone self o now m m' signal out id : call self o now m = Some (m', signal, out) → gone id m → gone id m'.
Proof.
  intros E [Hid Hle]. destruct (call_timers _ _ _ _ _ _ _ E) as [[Et Ei]|[[Ei [e Et]]|[Ei [(k & e & e' & Hk & Et)|[[k Et]|Et]]]]]; unfold gone; rewrite Et, Ei.
  - done.
  - rewrite lookup_insert_ne by lia. split; [done|lia].
  - rewrite lookup_insert_ne by congruence. done.
  - rewrite lookup_delete_None. auto.
  - by rewrite lookup_empty.
Qed.

Lemma dequeue_gone top now m d m' id : DequeueTimeoutEntry top now m = Some (d, m') → gone id m →
  gone id m' ∧ ∀ id' e, d = Dequeued id' e → id' ≠ id.
Proof.
  unfold DequeueTimeoutEntry, gone. intros E [Hid Hle]. revert E. destruct (GetLatestTime m) as [latest|]; [|by intros [= <- <-]].
  destruct (now <? latest); [by intros [= <- <-]|]. destruct (m_timeouts m !! top) as [t|]; [|done]. cbn [mbind option_bind].
  destruct (negb _); [done|]. cbn [set_timeouts m_timers]. destruct (m_timers m !! timeout_id t) as [e|] eqn:Ee; [|by intros [= <- <-]].
  destruct (_ || _)%bool; intros [= <- <-]; [done|]. cbn. assert (timeout_id t ≠ id) by congruence. split; [|congruence]. split; [|done].
  destruct (is_period e); [by rewrite lookup_insert_ne|rewrite lookup_delete_None; auto].
Qed.

Lemma after_run_gone id' e now m id : gone id m → gone id (fst (after_run id' e now m)).
Proof.
  unfold gone, after_run. intros [Hid Hle]. destruct (is_period e); cbn; [|done]. destruct (m_timers m !! id') as [x|] eqn:Ex; [|done].
  destruct (match closure e with None => _ | Some c => _ end) as [y out]. assert (id' ≠ id) by congruence.
  destruct (is_enabled y); cbn; by rewrite lookup_insert_ne.
Qed.

(** The timers that ran since are others. *)
Record others_ran (id : Z) (old : list (Z * nat)) (s : System) : Prop := {
  or_gone : gone id (manager s);
  or_thread : ∀ id' e, thread_timer (thread s) = Some (id', e) → id' ≠ id;
  or_ran : ∃ more, ran s = old ++ more ∧ id ∉ more.*1
}.

Lemma step_others_ran id old e s s' : others_ran id old s → step e s = Some s' → others_ran id old s'.
Proof.
  intros [Hg Ht (more & Hr & Hm)] E. destruct e as [ms| |self o| | | | |top| |]; cbn in E.
  - destruct (ms <? 0); [done|]. injection E as <-. by split; [..|exists more].
  - injection E as <-. split; cbn; [destruct Hg; split; [done|cbn; lia]|done|by exists more].
  - destruct (_ || _)%bool; [done|]. destruct (call self o (now s) (manager s)) as [[[m signal] out]|] eqn:Ec; [|done]. cbn in E. injection E as <-.
    split; cbn; [by eapply call_gone|by setoid_rewrite thread_timer_signal|by exists more].
  - destruct (is_joined (thread s)); injection E as <-; (split; cbn; [done| |by exists more]); [done|by setoid_rewrite thread_timer_signal].
  - destruct (thread s) eqn:Et; try done. injection E as <-. split; cbn; [|done|by exists more]. destruct Hg. split; cbn; [by rewrite lookup_empty|done].
  - destruct (thread s) eqn:Et; try done. injection E as <-. split; cbn; [done| |by exists more]. by destruct (stop_requested s).
  - destruct (thread s) eqn:Et; try done. injection E as <-. by split; [..|exists more].
  - destruct (thread s) eqn:Et; try done. destruct (DequeueTimeoutEntry top (now s) (manager s)) as [[d m]|] eqn:Ed; [|done]. cbn in E. injection E as <-.
    destruct (dequeue_gone _ _ _ _ _ _ Ed Hg) as [Hg' Hd]. split; cbn; [done| |by exists more].
    intros id' e. destruct d; cbn; try done. intros [= -> ->]. by eapply Hd.
  - destruct (thread s) as [| | |id' e| | |] eqn:Et; try done. injection E as <-. split; cbn; [done|exact Ht|].
    eexists. split; [by rewrite Hr, <- (assoc_L (++))|]. rewrite fmap_app, elem_of_app. intros [?|Hin]; [done|].
    specialize (Ht id' e eq_refl). destruct (closure e); cbn in Hin; [apply list_elem_of_singleton in Hin; congruence|by apply elem_of_nil in Hin].
  - destruct (thread s) as [| | | |id' e| |] eqn:Et; try done. pose proof (after_run_gone id' e (now s) (manager s) id Hg) as Ha.
    destruct (after_run id' e (now s) (manager s)) as [m out]. injection E as <-. by split; [..|exists more].
Qed.

(** ** Closures *)

Lemma closures_insert x ts id e e' : ts !! id = Some e →
  (count x (closures (<[id := e']> ts)) + count x (held (closure e)) = count x (closures ts) + count x (held (closure e')))%nat.
Proof.
  intros E. change (closures (<[id := e']> ts)) with (total (λ e, held (closure e)) (<[id := e']> ts)). change (closures ts) with (total (λ e, held (closure e)) ts).
  rewrite count_total_insert, (count_total_delete x _ ts id e E). lia.
Qed.

Lemma closures_delete x ts id e : ts !! id = Some e →
  (count x (closures (delete id ts)) + count x (held (closure e)) = count x (closures ts))%nat.
Proof.
  intros E. change (closures ts) with (total (λ e, held (closure e)) ts). rewrite (count_total_delete x _ ts id e E).
  change (closures (delete id ts)) with (total (λ e, held (closure e)) (delete id ts)). lia.
Qed.

Lemma closures_fresh x ts id e : ts !! id = None → count x (closures (<[id := e]> ts)) = (count x (closures ts) + count x (held (closure e)))%nat.
Proof.
  intros E. change (closures (<[id := e]> ts)) with (total (λ e, held (closure e)) (<[id := e]> ts)).
  rewrite count_total_insert, total_delete_None by done. change (closures ts) with (total (λ e, held (closure e)) ts). lia.
Qed.

Lemma call_closures self o now m m' signal out : (∀ id e, m_timers m !! id = Some e → id <= timer_id m) →
  (∀ x, x ∈ gives o m → x ∉ closures (m_timers m)) → call self o now m = Some (m', signal, out) →
  ∀ x, (count x (closures (m_timers m')) + count x out = count x (closures (m_timers m)) + count x (gives o m))%nat.
Proof.
  intros Hids Hnew E x. revert E. destruct o as [i p c|id i c|id i|id|id|id|id|]; cbn [call gives] in *.
  - unfold AddTimer. destruct (i <? 0); [done|]. set (m1 := mkManager _ _ _ _).
    pose proof (SetNextTimeout_timers self (timer_id m + 1) i 0 now m1) as [H1 _]. destruct (SetNextTimeout _ _ _ _ _ _). cbn in H1 |- *.
    intros [= <- <- <-]. cbn in H1. rewrite H1, closures_fresh; [rewrite count_nil; cbn [closure]; lia|]. destruct (m_timers m !! _) eqn:El; [apply Hids in El; lia|done].
  - unfold ModifyTimer_closure, FindEntry in *. destruct (m_timers m !! id) as [e|] eqn:Ee; [|intros [= <- <- <-]].
    + set (e' := set_interval _ _). pose proof (modify_entry_timers self id e' now m) as [H1 _]. destruct (modify_entry _ _ _ _ _). cbn in H1. intros [= <- <- <-].
      rewrite H1. pose proof (closures_insert x _ id e (next_revision e') Ee) as Hi. unfold e' in Hi |- *.
      destruct (bool_decide_reflect (closure e = c)) as [Ec|Ec]; cbn in Hi |- *; [|lia]. subst c. destruct (closure e) as [c|] eqn:Ec; [|cbn in *; lia].
      destruct (Hnew c); [cbn; by left|]. apply count_in. pose proof (closures_delete c _ _ _ Ee) as Hd. rewrite Ec in Hd. cbn in Hd.
      rewrite count_cons, decide_True in Hd by done. lia.
    + cbn. lia.
  - unfold ModifyTimer, FindEntry. destruct (m_timers m !! id) as [e|] eqn:Ee; [|intros [= <- <- <-]; cbn; lia]. set (e' := set_interval _ _).
    pose proof (modify_entry_timers self id e' now m) as [H1 _]. destruct (modify_entry _ _ _ _ _). cbn in H1. intros [= <- <- <-].
    rewrite H1. pose proof (closures_insert x _ id e (next_revision e') Ee) as Hi. cbn in Hi |- *. lia.
  - unfold RemoveTimer, AsyncRemoveTimerNoLock. destruct (id =? 0); [intros [= <- <- <-]; cbn; lia|].
    destruct (_ || _)%bool; [|intros [= <- <- <-]; cbn; lia]. destruct (m_timers m !! id) as [e|] eqn:Ee; intros [= <- <- <-]; [|cbn; lia].
    pose proof (closures_delete x _ _ _ Ee). rewrite !count_nil. cbn in *. lia.
  - unfold AsyncRemoveTimerNoLock. destruct (m_timers m !! id) as [e|] eqn:Ee; intros [= <- <- <-]; [|cbn; lia].
    pose proof (closures_delete x _ _ _ Ee). rewrite !count_nil. cbn in *. lia.
  - unfold DisableTimer, FindEntry. destruct (m_timers m !! id) as [e|] eqn:Ee; intros [= <- <- <-]; [|cbn; lia].
    pose proof (closures_insert x _ id e (next_revision (set_enabled false e)) Ee). cbn in *. lia.
  - unfold EnableTimer, FindEntry. destruct (m_timers m !! id) as [e|] eqn:Ee; [|intros [= <- <- <-]; cbn; lia]. set (m1 := set_timers _ m).
    pose proof (SetNextTimeout_timers self id (interval e) (revision e) now m1) as [H1 _]. destruct (SetNextTimeout _ _ _ _ _ _). cbn in H1.
    intros [= <- <- <-]. rewrite H1. pose proof (closures_insert x _ id e (set_enabled true e) Ee). cbn in *. lia.
  - intros [= <- <- <-]. cbn [set_timeouts set_timers m_timers]. change (closures ∅) with (@nil nat). rewrite !count_nil. lia.
Qed.

(** What the thread holds of the closures. *)
Definition thread_closures (t : dispatcher) : list nat :=
  match t with
  | Starting _ e => held (closure e)
  | Running _ e => if is_period e then held (closure e) else []
  | _ => []
  end.

Lemma dequeue_closures top now m d m' : DequeueTimeoutEntry top now m = Some (d, m') →
  ∀ x, (count x (closures (m_timers m')) + count x (match d with Dequeued _ e => held (closure e) | _ => [] end) = count x (closures (m_timers m)))%nat.
Proof.
  unfold DequeueTimeoutEntry. intros E x. revert E. destruct (GetLatestTime m) as [latest|]; [|intros [= <- <-]; rewrite count_nil; lia].
  destruct (now <? latest); [intros [= <- <-]; rewrite count_nil; lia|]. destruct (m_timeouts m !! top) as [t|]; [|done]. cbn [mbind option_bind].
  destruct (negb _); [done|]. cbn [set_timeouts m_timers]. destruct (m_timers m !! timeout_id t) as [e|] eqn:Ee; [|intros [= <- <-]; rewrite count_nil; cbn; lia].
  destruct (_ || _)%bool; intros [= <- <-]; [rewrite count_nil; cbn; lia|]. cbn [set_running set_timers m_timers]. destruct (is_period e).
  - pose proof (closures_insert x _ _ e (set_closure None e) Ee) as Hi. cbn [set_closure closure held] in Hi. rewrite count_nil in Hi. lia.
  - pose proof (closures_delete x _ _ _ Ee). lia.
Qed.

Lemma after_run_closures id e now m x :
  (count x (closures (m_timers (fst (after_run id e now m)))) + count x (snd (after_run id e now m)) =
   count x (closures (m_timers m)) + count x (if is_period e then held (closure e) else []))%nat.
Proof.
  unfold after_run. destruct (is_period e); cbn [fst snd]; [|done]. cbn [set_running m_timers].
  destruct (m_timers m !! id) as [z|] eqn:Ez; [|done]. set (p := match closure e with None => (z, []) | Some c => _ end).
  assert (Hp : (count x (held (closure p.1)) + count x p.2 = count x (held (closure z)) + count x (held (closure e)))%nat).
  { unfold p. destruct (closure e) as [c|]; [destruct (closure z) eqn:Ec|]; cbn [fst snd set_closure closure held]; rewrite ?Ec; cbn [held]; rewrite ?count_nil; lia. }
  destruct p as [y out]. cbn [fst snd] in Hp |- *. pose proof (closures_insert x _ _ z y Ez).
  destruct (is_enabled y); [rewrite (proj1 (SetNextTimeout_timers _ _ _ _ _ _))|]; cbn [set_timers set_running m_timers]; lia.
Qed.

(** Every closure is somewhere, once. *)
Record accounted (s : System) : Prop := {
  ac_closures : NoDup (given s) → ∀ x, count x (given s) =
    (count x (closures (m_timers (manager s))) + count x (thread_closures (thread s)) + count x (deleted s) + count x (spent s))%nat;
  ac_joined : is_joined (thread s) = true → m_timers (manager s) = ∅
}.

Lemma thread_closures_signal signal t : thread_closures (signal_thread signal t) = thread_closures t.
Proof. by destruct t. Qed.

Lemma step_accounted e s s' : scheduled s ∧ accounted s → step e s = Some s' → scheduled s' ∧ accounted s'.
Proof.
  intros [Hs [Ha Hj]] E. split; [by eapply step_scheduled|]. destruct e as [ms| |self o| | | | |top| |]; cbn in E.
  - destruct (ms <? 0); [done|]. by injection E as <-.
  - by injection E as <-.
  - destruct (is_joined (thread s) || self && negb (is_running (thread s)))%bool eqn:Eg; [done|]. apply orb_false_iff in Eg as [Eg _].
    destruct (call self o (now s) (manager s)) as [[[m signal] out]|] eqn:Ec; [|done]. cbn in E. injection E as <-.
    split; cbn; [|by destruct (thread s)]. rewrite thread_closures_signal. intros Hn x. rewrite !count_app. apply NoDup_app in Hn as (Hn1 & Hn2 & _).
    specialize (Ha Hn1). assert (Hids : ∀ id e, m_timers (manager s) !! id = Some e → id <= timer_id (manager s)).
    { intros id e He. by apply (ok_ids _ _ _ _ (sc_manager s Hs)) in He as []. }
    assert (Hnew : ∀ y, y ∈ gives o (manager s) → y ∉ closures (m_timers (manager s))).
    { intros y Hy Hin%count_in. apply (Hn2 y); [|done]. apply count_in. rewrite (Ha y). lia. }
    pose proof (call_closures _ _ _ _ _ _ _ Hids Hnew Ec x). rewrite (Ha x). lia.
  - destruct (is_joined (thread s)) eqn:Ej; injection E as <-; [by split; [|auto]|]. split; cbn; [by rewrite thread_closures_signal|by destruct (thread s)].
  - destruct (thread s) eqn:Et; try done. injection E as <-. split; cbn; [|done]. intros Hn x. rewrite (Ha Hn x), count_app. cbn. 
    change (closures ∅) with (@nil nat). rewrite !count_nil. lia.
  - destruct (thread s) eqn:Et; try done. injection E as <-. split; cbn; by destruct (stop_requested s).
  - destruct (thread s) eqn:Et; try done. by injection E as <-.
  - destruct (thread s) eqn:Et; try done. destruct (DequeueTimeoutEntry top (now s) (manager s)) as [[d m]|] eqn:Ed; [|done]. cbn in E. injection E as <-.
    split; cbn; [|by destruct d]. intros Hn x. rewrite (Ha Hn x). pose proof (dequeue_closures _ _ _ _ _ Ed x). destruct d; cbn in *; rewrite ?count_nil in *; lia.
  - destruct (thread s) as [| | |id' e| | |] eqn:Et; try done. injection E as <-. split; cbn; [|done].
    intros Hn x. rewrite (Ha Hn x), count_app. cbn. destruct (is_period e); rewrite count_nil; lia.
  - destruct (thread s) as [| | | |id' e| |] eqn:Et; try done. pose proof (after_run_closures id' e (now s) (manager s)) as Hr.
    destruct (after_run id' e (now s) (manager s)) as [m out]. injection E as <-. split; cbn; [|done]. cbn in Hr.
    intros Hn x. specialize (Hr x). rewrite (Ha Hn x), count_app. cbn. rewrite count_nil. lia.
Qed.

Lemma reachable_accounted s : reachable s → accounted s.
Proof.
  intros (start & es & E). apply (run_keeps (λ s, scheduled s ∧ accounted s) es (new_System start) s step_accounted); [|done].
  split; [by split; [split|]|]. by split.
Qed.

(** ** Theorems *)



(** C28: a timer that [RemoveTimer] has removed, for a thread that is not the
    manager's, does not run again, whatever happens then. *)
Theorem removed_never_runs s s' id es s'' : reachable s → 0 < id <= timer_id (manager s) →
  fst (fst (RemoveTimer false id (manager s))) ≠ None → step (Call false (Remove id)) s = Some s' → run es s' = Some s'' →
  ∃ more, ran s'' = ran s ++ more ∧ id ∉ more.*1.
Proof.
  intros Hr Hid Hanswer E Hrun. destruct (reachable_scheduled s Hr) as [Hm _].
  refine (or_ran _ _ _ (run_keeps (others_ran id (ran s)) es s' s'' (step_others_ran id (ran s)) _ Hrun)). clear Hrun.
  revert E. cbn [step call]. destruct (_ || _)%bool; [done|]. revert Hanswer. unfold RemoveTimer, AsyncRemoveTimerNoLock.
  destruct (Z.eqb_spec id 0) as [|_]; [lia|]. destruct (Z.eqb_spec id (m_running_timer (manager s))) as [|Hne]; [by intros []|].
  rewrite (ok_running _ _ _ _ Hm) in Hne. intros _. assert (Hthread : ∀ id' e, thread_timer (thread s) = Some (id', e) → id' ≠ id).
  { intros id' e Et. unfold running_of in Hne. rewrite Et in Hne. congruence. }
  cbn [orb negb]. destruct (m_timers (manager s) !! id) eqn:El; cbn; intros [= <-]; (split; cbn; [|by setoid_rewrite thread_timer_signal|by exists []; rewrite app_nil_r; split; [|intros []%elem_of_nil]]);
    (split; [|cbn; lia]); cbn; [by rewrite lookup_delete_eq|done].
Qed.

(** Not while it runs: then the thread waits, and tries again. *)
Lemma removed_never_runs_witness : ∃ s s' s'',
  run [Call false (Add 10 true (Some 7%nat)); Call false (Add 10 false (Some 8%nat)); Loop; Tick 10; Wake; Dequeue 0; Start] (new_System 0) = Some s ∧
  fst (fst (RemoveTimer false 1 (manager s))) = None ∧ step (Call false (Remove 2)) s = Some s' ∧
  run [Return; Dequeue 0; Dequeue 0; Loop; Tick 20; Wake; Dequeue 0; Start] s' = Some s'' ∧ ∃ more, ran s'' = ran s ++ more ∧ 2 ∉ more.*1.
Proof.
  destruct (run _ _) as [s|] eqn:E; [|by vm_compute in E]. assert (Hr : reachable s) by (by eexists _, _). exists s.
  destruct (step (Call false (Remove 2)) s) as [s'|] eqn:E1; [|exfalso; vm_compute in E; injection E as <-; by vm_compute in E1]. exists s'.
  destruct (run [Return; Dequeue 0; Dequeue 0; Loop; Tick 20; Wake; Dequeue 0; Start] s') as [s''|] eqn:E2;
    [|exfalso; vm_compute in E; injection E as <-; vm_compute in E1; injection E1 as <-; by vm_compute in E2].
  exists s''. split; [done|]. split; [vm_compute in E; injection E as <-; by vm_compute|]. split; [done|]. split; [done|].
  refine (removed_never_runs s s' 2 _ s'' Hr _ _ E1 E2); vm_compute in E; injection E as <-; by vm_compute.
Defined.

(** C25: closures are not lost and not deleted twice, in any run in which no
    closure is given twice: those given are in the timers, held by the thread,
    deleted, or have deleted themselves; the thread holds none that was deleted;
    and when the manager is stopped, all are deleted. *)
Theorem timer_closures s : reachable s → NoDup (given s) →
  given s ≡ₚ closures (m_timers (manager s)) ++ thread_closures (thread s) ++ deleted s ++ spent s ∧
  NoDup (deleted s ++ spent s) ∧
  (∀ id e c, thread s = Starting id e → closure e = Some c → c ∉ deleted s ++ spent s) ∧
  (is_joined (thread s) = true → given s ≡ₚ deleted s ++ spent s).
Proof.
  intros Hr Hn. destruct (reachable_accounted s Hr) as [Ha Hj]. specialize (Ha Hn).
  assert (Hp : given s ≡ₚ closures (m_timers (manager s)) ++ thread_closures (thread s) ++ deleted s ++ spent s).
  { apply count_Permutation. intros x. rewrite !count_app, Ha. lia. }
  assert (Hn' := Hn). rewrite Hp in Hn'. apply NoDup_app in Hn' as (_ & _ & (_ & Ht & Hd)%NoDup_app). split; [done|]. split; [done|]. split.
  - intros id e c Et Ec. apply Ht. rewrite Et. cbn. rewrite Ec. by left.
  - intros Ej. rewrite Hp, (Hj Ej). by destruct (thread s).
Qed.

Lemma timer_closures_witness : ∃ s,
  run (periodic ++ [Call false (AsyncRemove 1); Call false (Add 10 false (Some 8%nat)); Call true (Add 5 true (Some 9%nat)); Return;
    Tick 10; Dequeue 1; Start; StopRequest; Return; Dequeue 0; Start; Return; Dequeue 0; Loop; StopJoin]) (new_System 0) = Some s ∧
  given s ≡ₚ deleted s ++ spent s ∧ deleted s ++ spent s = [7; 9; 8]%nat.
Proof.
  destruct (run _ _) as [s|] eqn:E; [|by vm_compute in E]. exists s. split; [done|]. split.
  - assert (Hr : reachable s) by (by eexists _, _). vm_compute in E. injection E as <-.
    destruct (timer_closures _ Hr) as (_ & _ & _ & H); [cbn; by repeat constructor; set_solver|by apply H].
  - vm_compute in E. by injection E as <-.
Defined.
