(* ===== verification/Socket.v ===== *)
(** * Stream sockets

    Model of the transfer of data in system/net/socket: sending, receiving,
    waiting and connecting.  The system calls are the class [SocketSystem]: a
    call answers a result or an error number, which goes to [errno].

    Loops that the system can keep going for ever carry fuel; [None] is fuel
    that runs out.  [size_t] sizes of buffers that exist are natural numbers. *)

From S2P Require Import Prelude.

(** What a system call answers. *)
Inductive answer (A : Type) := Got (a : A) | Error (errno : Z).
Arguments Got {_} _.
Arguments Error {_} _.

(** Of Linux. *)
Definition EINTR : Z := 4.
Definition EWOULDBLOCK : Z := 11.
Definition ECONNRESET : Z := 104.
Definition EINPROGRESS : Z := 115.

(** One connected socket, or one to be connected.  [recv] has the size, and
    whether MSG_PEEK and MSG_WAITALL are set; a timeout of [poll] is in
    milliseconds. *)
Class SocketSystem := {
  kernel : Type;
  socket_address : Type;
  recv : nat → bool → bool → kernel → answer bytes * kernel;
  send : bytes → kernel → answer nat * kernel;
  poll_readable : option Z → kernel → answer Z * kernel;
  poll_writeable : option Z → kernel → answer Z * kernel;
  connect : socket_address → kernel → answer unit * kernel;
  get_nonblocking : kernel → answer bool;
  set_nonblocking : bool → kernel → answer unit * kernel;
  so_error : kernel → answer Z * kernel
}.

Section Socket.
Context {K : SocketSystem}.

(** The system and [errno]. *)
Record World := mkWorld { system : kernel; last_error : Z }.

Definition SetLastError (e : Z) (w : World) : World := mkWorld (system w) e.

(** A system call: the result, or NULL for -1. *)
Definition syscall {A} (f : kernel → answer A * kernel) (w : World) : option A * World :=
  match f (system w) with
  | (Got a, k) => (Some a, mkWorld k (last_error w))
  | (Error e, k) => (None, mkWorld k e)
  end.

Definition IsInterruptedAndRestart (restart : bool) (w : World) : bool := (restart && (last_error w =? EINTR))%bool.

(** ** Waiting *)

Definition timeout_of (tv : option (Z * Z)) : option Z := (λ '(sec, usec), sec * 1000 + usec `quot` 1000) <$> tv.

(** [WaitReadable] and [WaitWriteable] differ in the call of [poll]. *)
Fixpoint wait_loop (fuel : nat) (poll : kernel → answer Z * kernel) (restart : bool) (w : World) : option (bool * World) :=
  match fuel with
  | O => None
  | S fuel =>
      match syscall poll w with
      | (Some n, w) => Some (0 <? n, w)
      | (None, w) => if negb (IsInterruptedAndRestart restart w) then Some (false, w) else wait_loop fuel poll restart w
      end
  end.
Definition WaitReadable (fuel : nat) (tv : option (Z * Z)) (restart : bool) (w : World) : option (bool * World) :=
  wait_loop fuel (poll_readable (timeout_of tv)) restart w.
Definition WaitWriteable (fuel : nat) (tv : option (Z * Z)) (restart : bool) (w : World) : option (bool * World) :=
  wait_loop fuel (poll_writeable (timeout_of tv)) restart w.

(** ** Data sockets *)

Definition SetBlocking (value : bool) (w : World) : bool * World :=
  let '(r, w) := syscall (set_nonblocking (negb value)) w in (bool_decide (is_Some r), w).
(** [value] is turned around even when the call fails. *)
Definition GetBlocking (value : bool) (w : World) : bool * bool * World :=
  match get_nonblocking (system w) with
  | Got nonblocking => (true, negb nonblocking, w)
  | Error e => (false, negb value, SetLastError e w)
  end.

Definition Connect (address : socket_address) (w : World) : bool * World :=
  match syscall (connect address) w with
  | (Some _, w) => (true, w)
  | (None, w) =>
      let e := last_error w in
      if ((e =? EINTR) || (e =? EWOULDBLOCK))%bool then (true, w)
      else if e =? EINPROGRESS then let '(ok, blocking, w) := GetBlocking true w in ((ok && negb blocking)%bool, w)
      else (false, w)
  end.

(** [TOFT_EINTR_IGNORED] *)
Fixpoint eintr_ignored {A} (fuel : nat) (f : kernel → answer A * kernel) (w : World) : option (option A * World) :=
  match fuel with
  | O => None
  | S fuel =>
      match syscall f w with
      | (Some a, w) => Some (Some a, w)
      | (None, w) => if last_error w =? EINTR then eintr_ignored fuel f w else Some (None, w)
      end
  end.

Definition Connect_timeout (fuel : nat) (address : socket_address) (timeout_ms : Z) (w : World) : option (bool * World) :=
  if timeout_ms <? 0 then Some (Connect address w)
  else
    let '(ok, init_block, w) := GetBlocking false w in
    if negb ok then Some (false, w)
    else
      let '(ok, w) := if init_block then SetBlocking false w else (true, w) in
      if negb ok then Some (false, w)
      else
        '(rv, w) ← eintr_ignored fuel (connect address) w;
        '(ret, w) ←
          match rv with
          | Some _ => Some (true, w)
          | None =>
              if ((last_error w =? EWOULDBLOCK) || (last_error w =? EINPROGRESS))%bool then
                '(writeable, w) ← WaitWriteable fuel (Some (timeout_ms `quot` 1000, timeout_ms `rem` 1000 * 1000)) true w;
                if (writeable : bool) then
                  let '(error, w) := syscall so_error w in
                  Some (bool_decide (error = Some 0), w)
                else Some (false, w)
              else Some (false, w)
          end;
        Some (ret, if init_block then snd (SetBlocking true w) else w).

(** With [*sent_length]. *)
Fixpoint Send (fuel : nat) (buffer : bytes) (auto_restart : bool) (w : World) : option (bool * nat * World) :=
  match fuel with
  | O => None
  | S fuel =>
      match syscall (send buffer) w with
      | (Some n, w) => Some (true, n, w)
      | (None, w) => if negb (IsInterruptedAndRestart auto_restart w) then Some (false, 0%nat, w) else Send fuel buffer auto_restart w
      end
  end.

(** With what was received, whose length is [*received_size]. *)
Fixpoint Receive (fuel : nat) (buffer_size : nat) (peek waitall auto_restart : bool) (w : World) : option (bool * bytes * World) :=
  match fuel with
  | O => None
  | S fuel =>
      match syscall (recv buffer_size peek waitall) w with
      | (Some s, w) => Some ((0 <? length s)%nat, s, w)
      | (None, w) =>
          if negb (IsInterruptedAndRestart auto_restart w) then Some (false, [], w)
          else Receive fuel buffer_size peek waitall auto_restart w
      end
  end.

Definition Receive_timeout (fuel : nat) (buffer_size : nat) (timeout : option (Z * Z)) (peek waitall auto_restart : bool) (w : World) :
    option (bool * bytes * World) :=
  '(readable, w) ← WaitReadable fuel timeout auto_restart w;
  if (readable : bool) then Receive fuel buffer_size peek waitall auto_restart w else Some (false, [], w).

(** ** Stream sockets *)

Fixpoint ReceiveAll (fuel : nat) (buffer_size : nat) (auto_restart : bool) (received : bytes) (w : World) : option (bool * bytes * World) :=
  match buffer_size with
  | O => Some (true, received, w)
  | _ =>
      match fuel with
      | O => None
      | S fuel =>
          '(ok, s, w) ← Receive fuel buffer_size false true auto_restart w;
          if (ok : bool) then
            if (length s =? 0)%nat then Some (false, received, SetLastError ECONNRESET w)
            else ReceiveAll fuel (buffer_size - length s) auto_restart (received ++ s) w
          else Some (false, received, w)
      end
  end.

Fixpoint ReceiveAll_timeout (fuel : nat) (buffer_size : nat) (timeout : option (Z * Z)) (auto_restart : bool) (received : bytes) (w : World) :
    option (bool * bytes * World) :=
  match buffer_size with
  | O => Some (true, received, w)
  | _ =>
      match fuel with
      | O => None
      | S fuel =>
          '(readable, w) ← WaitReadable fuel timeout auto_restart w;
          if (readable : bool) then
            '(ok, s, w) ← Receive fuel buffer_size false true auto_restart w;
            if (ok : bool) then
              if (length s =? 0)%nat then Some (false, received, SetLastError ECONNRESET w)
              else ReceiveAll_timeout fuel (buffer_size - length s) timeout auto_restart (received ++ s) w
            else ReceiveAll_timeout fuel buffer_size timeout auto_restart received w
          else Some (false, received, w)
      end
  end.

(** [memchr]: how many bytes there are up to the character, with it. *)
Fixpoint memchr (s : bytes) (c : Z) : option nat :=
  match s with [] => None | x :: s => if x =? c then Some 1%nat else S <$> memchr s c end.

(** Into a buffer, with what it holds. *)
Fixpoint ReceiveLine_buffer (fuel : nat) (buffer_size max_peek_size : nat) (received : bytes) (w : World) : option (bool * bytes * World) :=
  match buffer_size with
  | O => Some (false, received, w)
  | _ =>
      match fuel with
      | O => None
      | S fuel =>
          let peek_size := if (max_peek_size <? buffer_size)%nat then max_peek_size else buffer_size in
          '(ok, s, w) ← Receive fuel peek_size true false true w;
          if (ok && (0 <? length s)%nat)%bool then
            match memchr s 10 with
            | Some p => '(result, t, w) ← ReceiveAll fuel p true [] w; Some (result, received ++ t, w)
            | None =>
                '(result, t, w) ← ReceiveAll fuel (length s) true [] w;
                if negb result then Some (false, received ++ t, w)
                else ReceiveLine_buffer fuel (buffer_size - length t) max_peek_size (received ++ t) w
            end
          else Some (false, received, w)
      end
  end.

Definition kMaxPeekSize : nat := 1024.

Fixpoint receive_line_loop (fuel peek_size : nat) (line : bytes) (w : World) : option (bool * bytes * World) :=
  match fuel with
  | O => None
  | S fuel =>
      '(ok, s, w) ← Receive fuel peek_size true false true w;
      if (ok && (0 <? length s)%nat)%bool then
        match memchr s 10 with
        | Some p => '(result, t, w) ← ReceiveAll fuel p true [] w; Some (result, line ++ t, w)
        | None =>
            '(result, t, w) ← ReceiveAll fuel (length s) true [] w;
            if negb result then Some (false, line ++ t, w) else receive_line_loop fuel peek_size (line ++ t) w
        end
      else Some (false, line, w)
  end.
Definition ReceiveLine (fuel peek_size : nat) (w : World) : option (bool * bytes * World) :=
  receive_line_loop fuel (if (kMaxPeekSize <? peek_size)%nat then kMaxPeekSize else peek_size) [] w.

(** With [*sent_size]. *)
Fixpoint SendAll (fuel : nat) (buffer : bytes) (auto_restart : bool) (sent : nat) (w : World) : option (bool * nat * World) :=
  match buffer with
  | [] => Some (true, sent, w)
  | _ =>
      match fuel with
      | O => None
      | S fuel =>
          '(ok, n, w) ← Send fuel buffer auto_restart w;
          if (ok : bool) then SendAll fuel (drop n buffer) auto_restart (sent + n) w else Some (false, sent, w)
      end
  end.

Fixpoint SendAll_timeout (fuel : nat) (buffer : bytes) (tv : option (Z * Z)) (auto_restart : bool) (sent : nat) (w : World) :
    option (bool * nat * World) :=
  match buffer with
  | [] => Some (true, sent, w)
  | _ =>
      match fuel with
      | O => None
      | S fuel =>
          '(writeable, w) ← WaitWriteable fuel tv auto_restart w;
          if (writeable : bool) then
            '(ok, n, w) ← Send fuel buffer auto_restart w;
            if (ok : bool) then SendAll_timeout fuel (drop n buffer) tv auto_restart (sent + n) w else Some (false, sent, w)
          else Some (false, sent, w)
      end
  end.
End Socket.

(** ** Examples *)

(** A connection that follows a plan: what a call transfers at most, or an
    interruption; afterwards calls transfer all they can. *)
Record pipe := mkPipe { pipe_in : bytes; pipe_out : bytes; plan : list (option nat) }.

Definition pipe_call {A} (f : nat → pipe → answer A * pipe) (k : pipe) : answer A * pipe :=
  match plan k with
  | None :: ps => (Error EINTR, mkPipe (pipe_in k) (pipe_out k) ps)
  | Some n :: ps => f (S n) (mkPipe (pipe_in k) (pipe_out k) ps)
  | [] => f (length (pipe_in k) + length (pipe_out k) + 1)%nat k
  end.

#[export] Instance pipe_system : SocketSystem := {
  kernel := pipe;
  socket_address := unit;
  recv size peek waitall := pipe_call (λ n k, let s := take (Nat.min n size) (pipe_in k) in
    (Got s, if peek then k else mkPipe (drop (length s) (pipe_in k)) (pipe_out k) (plan k)));
  send s := pipe_call (λ n k, let t := take n s in (Got (length t), mkPipe (pipe_in k) (pipe_out k ++ t) (plan k)));
  poll_readable _ k := (Got 1, k);
  poll_writeable _ k := (Got 1, k);
  connect _ k := (Got tt, k);
  get_nonblocking _ := Got false;
  set_nonblocking _ k := (Got tt, k);
  so_error k := (Got 0, k)
}.

Example receive_line_example :
  (λ r, (r.1, pipe_in (system r.2))) <$> ReceiveLine 20 4 (mkWorld (mkPipe (str "header" ++ [10] ++ str "body") [] [Some 2%nat; None; Some 0%nat; None]) 0) =
    Some (true, str "header" ++ [10], str "body").
Proof. by vm_compute. Qed.

(** The end of the stream is an error, and leaves [errno] as it was. *)
Example receive_at_end : Receive 5 10 false false true (mkWorld (mkPipe [] [] []) 0) = Some (false, [], mkWorld (mkPipe [] [] []) 0).
Proof. by vm_compute. Qed.
