(* ===== verification/SocketFacts.v ===== *)
(** * Stream sockets: all the data, in order, whatever the pieces

    [GoodStream] is what the system promises of a connection that is not
    broken: calls transfer a piece of what is left, or are interrupted, not for
    ever. *)

From S2P Require Import Prelude Socket.

Class GoodStream `{SocketSystem} := {
  incoming : kernel → bytes;
  outgoing : kernel → bytes;
  patience : kernel → nat;
  recv_good size peek waitall k : (0 < size)%nat →
    let '(r, k') := recv size peek waitall k in
    outgoing k' = outgoing k ∧
    match r with
    | Got s => s = take (length s) (incoming k) ∧ (length s <= size)%nat ∧ (s = [] → incoming k = []) ∧
        incoming k' = (if peek then incoming k else drop (length s) (incoming k)) ∧ (patience k' <= patience k)%nat
    | Error e => e = EINTR ∧ incoming k' = incoming k ∧ (patience k' < patience k)%nat
    end;
  send_good s k : s ≠ [] →
    let '(r, k') := send s k in
    incoming k' = incoming k ∧
    match r with
    | Got n => (0 < n <= length s)%nat ∧ outgoing k' = outgoing k ++ take n s ∧ (patience k' <= patience k)%nat
    | Error e => e = EINTR ∧ outgoing k' = outgoing k ∧ (patience k' < patience k)%nat
    end
}.

Section Stream.
Context {K : SocketSystem} {G : GoodStream}.

Definition in_ (w : World) : bytes := incoming (system w).
Definition out (w : World) : bytes := outgoing (system w).
Definition wait (w : World) : nat := patience (system w).

(** ** One call *)

Lemma Receive_good fuel size peek waitall w : (wait w < fuel)%nat → (0 < size)%nat →
  ∃ s w', Receive fuel size peek waitall true w = Some ((0 <? length s)%nat, s, w') ∧
    s = take (length s) (in_ w) ∧ (length s <= size)%nat ∧ (s = [] → in_ w = []) ∧
    in_ w' = (if peek then in_ w else drop (length s) (in_ w)) ∧ out w' = out w ∧ (wait w' <= wait w)%nat.
Proof.
  unfold wait, in_, out. revert w. induction fuel as [|fuel IH]; intros w Hf Hs; [lia|]. cbn [Receive]. unfold syscall.
  pose proof (recv_good size peek waitall (system w) Hs) as H. destruct (recv size peek waitall (system w)) as [[s|e] k].
  - destruct H as (? & ? & ? & ? & ? & ?). by exists s, (mkWorld k (last_error w)).
  - destruct H as (Ho & -> & Hi & Hp). cbn. destruct (IH (mkWorld k EINTR)) as (s & w' & E & ?); cbn; [lia..|]. exists s, w'.
    split; [exact E|]. cbn in *. rewrite Hi, Ho in *. split_and!; try tauto. destruct_and!. lia.
Qed.

Lemma Send_good fuel s w : (wait w < fuel)%nat → s ≠ [] →
  ∃ n w', Send fuel s true w = Some (true, n, w') ∧ (0 < n <= length s)%nat ∧ in_ w' = in_ w ∧ out w' = out w ++ take n s ∧ (wait w' <= wait w)%nat.
Proof.
  unfold wait, in_, out. revert w. induction fuel as [|fuel IH]; intros w Hf Hs; [lia|]. cbn [Send]. unfold syscall.
  pose proof (send_good s (system w) Hs) as H. destruct (send s (system w)) as [[n|e] k].
  - destruct H as (? & ? & ? & ?). by exists n, (mkWorld k (last_error w)).
  - destruct H as (Hi & -> & Ho & Hp). cbn. destruct (IH (mkWorld k EINTR)) as (n & w' & E & ?); cbn; [lia|done|]. exists n, w'.
    split; [exact E|]. cbn in *. rewrite Hi, Ho in *. split_and!; try tauto; destruct_and!; lia.
Qed.

(** ** All of it *)

Lemma ReceiveAll_good fuel size received w : (size + wait w < fuel)%nat →
  ∃ w', ReceiveAll fuel size true received w = Some ((size <=? length (in_ w))%nat, received ++ take size (in_ w), w') ∧
    in_ w' = drop size (in_ w) ∧ out w' = out w ∧ (wait w' <= wait w)%nat.
Proof.
  revert size received w. induction fuel as [|fuel IH]; intros size received w Hf; [lia|]. destruct size as [|size].
  { exists w. cbn. by rewrite take_0, app_nil_r, drop_0. }
  cbn [ReceiveAll]. destruct (Receive_good fuel (S size) false true w) as (s & w1 & -> & Es & Hl & Hn & Hi & Ho & Hp); [lia..|]. cbn [mbind option_bind].
  destruct (Nat.ltb_spec 0 (length s)) as [Hs|Hs].
  - destruct (Nat.eqb_spec (length s) 0); [lia|]. destruct (IH (S size - length s)%nat (received ++ s) w1) as (w' & -> & Hi' & Ho' & Hp'); [lia|].
    assert (Hle : (length s <= length (in_ w))%nat) by (rewrite Es, length_take; lia).
    rewrite Hi in *. exists w'. rewrite drop_drop in Hi'. split.
    + assert (E1 : (S size - length s <=? length (in_ w) - length s)%nat = (S size <=? length (in_ w))%nat)
        by (destruct (Nat.leb_spec (S size - length s) (length (in_ w) - length s)), (Nat.leb_spec (S size) (length (in_ w))); done || lia).
      assert (E2 : s ++ take (S size - length s) (drop (length s) (in_ w)) = take (S size) (in_ w)).
      { rewrite Es at 1. rewrite take_take_drop. f_equal. lia. }
      by rewrite length_drop, E1, <- (assoc_L (++)), E2.
    + split; [|split; [congruence|lia]]. rewrite Hi'. f_equal. lia.
  - assert (s = []) as -> by (destruct s; [done|cbn in Hs; lia]). specialize (Hn eq_refl). exists w1. rewrite Hi, Hn. cbn. by rewrite app_nil_r.
Qed.

Lemma SendAll_good fuel s sent w : (length s + wait w < fuel)%nat →
  ∃ w', SendAll fuel s true sent w = Some (true, (sent + length s)%nat, w') ∧ in_ w' = in_ w ∧ out w' = out w ++ s ∧ (wait w' <= wait w)%nat.
Proof.
  revert s sent w. induction fuel as [|fuel IH]; intros s sent w Hf; [lia|]. destruct s as [|c s].
  { exists w. cbn. by rewrite app_nil_r, Nat.add_0_r. }
  set (t := c :: s) in *. unfold SendAll; fold SendAll. 
  destruct (Send_good fuel t w) as (n & w1 & E & Hn & Hi & Ho & Hp); [cbn in Hf; lia|done|].
  change (match t with [] => Some (true, sent, w) | _ :: _ => '(ok, n, w) ← Send fuel t true w; if (ok : bool) then SendAll fuel (drop n t) true (sent + n) w else Some (false, sent, w) end)
    with ('(ok, n, w) ← Send fuel t true w; if (ok : bool) then SendAll fuel (drop n t) true (sent + n) w else Some (false, sent, w)).
  rewrite E. cbn [mbind option_bind]. destruct (IH (drop n t) (sent + n)%nat w1) as (w' & -> & Hi' & Ho' & Hp'); [rewrite length_drop; lia|].
  exists w'. split; [|split; [congruence|split; [|lia]]].
  - rewrite length_drop. by replace (sent + n + (length t - n))%nat with (sent + length t)%nat by lia.
  - rewrite Ho', Ho, <- (assoc_L (++)). by rewrite take_drop.
Qed.

(** ** Lines *)

Lemma memchr_spec s c : match memchr s c with
  | Some p => ∃ l t, s = l ++ c :: t ∧ c ∉ l ∧ p = S (length l)
  | None => c ∉ s
  end.
Proof.
  induction s as [|x s IH]; cbn; [by intros ?%elem_of_nil|]. destruct (Z.eqb_spec x c) as [->|Hne].
  - exists [], s. split; [done|]. split; [by intros ?%elem_of_nil|done].
  - destruct (memchr s c) as [p|]; cbn.
    + destruct IH as (l & t & -> & Hl & ->). exists (x :: l), t. split; [done|]. split; [|done]. rewrite elem_of_cons. intros [->|]; done.
    + rewrite elem_of_cons. intros [->|]; done.
Qed.

(** What a line of a stream is: up to its end, or all of it. *)
Definition first_line (s : bytes) : bytes := match memchr s 10 with Some p => take p s | None => s end.

Lemma first_line_app a b : 10 ∉ a → first_line (a ++ b) = a ++ first_line b.
Proof.
  unfold first_line. induction a as [|x a IH]; intros Ha; [done|]. cbn. rewrite elem_of_cons in Ha.
  destruct (Z.eqb_spec x 10) as [->|Hne]; [destruct Ha; by left|].
  specialize (IH (λ H, Ha (or_intror H))). destruct (memchr (a ++ b) 10) as [p|]; cbn; by rewrite IH.
Qed.

Lemma receive_line_good fuel peek_size line w : (0 < peek_size)%nat → (2 * length (in_ w) + wait w + 2 < fuel)%nat →
  ∃ w', receive_line_loop fuel peek_size line w = Some (bool_decide (10 ∈ in_ w), line ++ first_line (in_ w), w') ∧
    in_ w' = drop (length (first_line (in_ w))) (in_ w) ∧ out w' = out w ∧ (wait w' <= wait w)%nat.
Proof.
  intros Hpeek. revert line w. induction fuel as [|fuel IH]; intros line w Hf; [lia|]. cbn [receive_line_loop].
  destruct (Receive_good fuel peek_size true false w) as (s & w1 & -> & Es & Hl & Hn & Hi & Ho & Hp); [lia..|]. cbn [mbind option_bind].
  rewrite andb_diag. destruct (Nat.ltb_spec 0 (length s)) as [Hs|Hs].
  - assert (Hle : (length s <= length (in_ w))%nat) by (rewrite Es, length_take; lia).
    assert (Ein : in_ w = s ++ drop (length s) (in_ w)) by (rewrite Es at 1; by rewrite take_drop).
    pose proof (memchr_spec s 10) as Hm. destruct (memchr s 10) as [p|] eqn:Em.
    + destruct Hm as (l & t & E & Hl10 & ->). destruct (ReceiveAll_good fuel (S (length l)) [] w1) as (w' & -> & Hi' & Ho' & Hp').
      { rewrite E, length_app in Hle. cbn in Hle. lia. }
      rewrite Hi in *. rewrite E in Ein. rewrite <- (assoc_L (++)) in Ein. cbn [app] in Ein. set (rest := t ++ drop (length s) (in_ w)) in *.
      assert (Efl : first_line (in_ w) = l ++ [10]). { rewrite Ein, first_line_app by done. done. }
      assert (Etake : take (S (length l)) (in_ w) = l ++ [10]).
      { rewrite Ein, take_app_ge by lia. f_equal. by replace (S (length l) - length l)%nat with 1%nat by lia. }
      exists w'. cbn [mbind option_bind]. split; [|split; [|split; [congruence|lia]]].
      * rewrite Efl, Etake. cbn [app]. rewrite bool_decide_eq_true_2 by (rewrite Ein; apply elem_of_app; right; by left).
        by rewrite (proj2 (Nat.leb_le _ _)) by (rewrite Ein, length_app; cbn; lia).
      * rewrite Hi', Efl, length_app. f_equal. cbn. lia.
    + destruct (ReceiveAll_good fuel (length s) [] w1) as (w2 & -> & Hi' & Ho' & Hp'); [lia|]. rewrite Hi in *.
      replace (length s <=? length (in_ w))%nat with true by (symmetry; by apply Nat.leb_le). cbn [negb mbind option_bind app].
      replace (take (length s) (in_ w)) with s.
      destruct (IH (line ++ s) w2) as (w' & -> & Hi2 & Ho2 & Hp2); [rewrite Hi', length_drop; lia|]. rewrite Hi' in *.
      assert (Efl : first_line (in_ w) = s ++ first_line (drop (length s) (in_ w))) by (rewrite <- first_line_app by done; by rewrite <- Ein).
      assert (Emem : bool_decide (10 ∈ in_ w) = bool_decide (10 ∈ drop (length s) (in_ w))).
      { apply bool_decide_ext. rewrite Ein at 1. rewrite elem_of_app. tauto. }
      exists w'. rewrite Efl, Emem, <- (assoc_L (++)). split; [done|]. split; [|split; [congruence|lia]].
      rewrite Hi2, length_app, drop_drop. done.
  - assert (s = []) as -> by (destruct s; [done|cbn in Hs; lia]). specialize (Hn eq_refl). exists w1. rewrite Hi, Hn. cbn.
    by rewrite app_nil_r.
Qed.
End Stream.

(** ** Lines, one after another *)

Section Lines.
Context {K : SocketSystem} {G : GoodStream}.

Fixpoint receive_lines (fuel peek_size n : nat) (w : World) : option (list bytes * World) :=
  match n with
  | O => Some ([], w)
  | S n =>
      '(ok, l, w) ← ReceiveLine fuel peek_size w;
      if (ok : bool) then '(ls, w) ← receive_lines fuel peek_size n w; Some (l :: ls, w) else None
  end.

Lemma ReceiveLine_good fuel peek_size w : (0 < peek_size)%nat → (2 * length (in_ w) + wait w + 2 < fuel)%nat →
  ∃ w', ReceiveLine fuel peek_size w = Some (bool_decide (10 ∈ in_ w), first_line (in_ w), w') ∧
    in_ w' = drop (length (first_line (in_ w))) (in_ w) ∧ out w' = out w ∧ (wait w' <= wait w)%nat.
Proof.
  intros Hp Hf. unfold ReceiveLine. destruct (kMaxPeekSize <? peek_size)%nat; apply (receive_line_good fuel _ [] w); try done.
  unfold kMaxPeekSize. lia.
Qed.

Lemma receive_lines_good fuel peek_size ls rest w : (0 < peek_size)%nat → Forall (λ l, 10 ∉ l) ls →
  in_ w = concat ((λ l, l ++ [10]) <$> ls) ++ rest → (2 * length (in_ w) + wait w + 2 < fuel)%nat →
  ∃ w', receive_lines fuel peek_size (length ls) w = Some ((λ l, l ++ [10]) <$> ls, w') ∧ in_ w' = rest.
Proof.
  intros Hp Hls. revert w. induction Hls as [|l ls Hl Hls IH]; intros w Ein Hf; [by exists w|]. cbn [length receive_lines].
  cbn in Ein. rewrite <- !(assoc_L (++)) in Ein. cbn in Ein.
  destruct (ReceiveLine_good fuel peek_size w Hp Hf) as (w1 & -> & Hi & _ & Hw). cbn [mbind option_bind].
  assert (Efl : first_line (in_ w) = l ++ [10]) by (rewrite Ein, first_line_app by done; done).
  rewrite bool_decide_eq_true_2 by (rewrite Ein; apply elem_of_app; right; by left). rewrite Efl in *.
  assert (Hi' : in_ w1 = concat ((λ l, l ++ [10]) <$> ls) ++ rest).
  { rewrite Hi, Ein. replace (l ++ 10 :: concat ((λ l, l ++ [10]) <$> ls) ++ rest) with ((l ++ [10]) ++ concat ((λ l, l ++ [10]) <$> ls) ++ rest)
      by (by rewrite <- (assoc_L (++))). by rewrite drop_app_length. }
  destruct (IH w1 Hi') as (w' & -> & Hw'); [rewrite Hi, length_drop; lia|]. by exists w'.
Qed.
End Lines.

(** ** The pipe of [Socket] is such a system *)

Lemma take_piece m (s : bytes) : take m s = take (length (take m s)) s.
Proof. rewrite length_take. destruct (Nat.le_ge_cases m (length s)); [by rewrite Nat.min_l|rewrite Nat.min_r by done; by rewrite !take_ge]. Qed.

Lemma take_nothing m (s : bytes) : (0 < m)%nat → take m s = [] → s = [].
Proof. destruct m, s; done || lia. Qed.

#[export] Program Instance pipe_good : GoodStream (H := pipe_system) := {
  incoming := pipe_in; outgoing := pipe_out; patience k := length (plan k)
}.
Next Obligation.
  intros size peek waitall [i o [|[n|] p]] Hs; cbn -[Nat.min take drop]; [| |by split_and!; try done; lia];
    (split; [by destruct peek|]); (split; [apply take_piece|]); (split; [rewrite length_take; lia|]);
    (split; [apply take_nothing; lia|]); destruct peek; cbn; split; done || lia.
Qed.
Next Obligation.
  intros s [i o [|[n|] p]] Hs; cbn -[take drop]; (split; [done|]); [| |by split_and!; try done; cbn; lia];
    assert (0 < length s)%nat by (destruct s; [done|cbn; lia]); rewrite length_take; (split; [lia|]); (split; [|cbn; lia]);
    f_equal; rewrite <- length_take; apply take_piece.
Qed.

(** ** Theorems *)

Section Theorems.
Context {K : SocketSystem} {G : GoodStream}.

(** C27: a stream socket transfers everything, in order, in whatever pieces the
    system does it and however often it is interrupted: [ReceiveAll] gets the
    next bytes, or what there is and fails when it is less; [SendAll] sends all;
    [ReceiveLine], into a string and into a buffer that is long enough, takes
    what is up to the end of the line and leaves the rest. *)
Theorem stream_transfers fuel w :
  (∀ size, (size + wait w < fuel)%nat → ∃ w', ReceiveAll fuel size true [] w = Some ((size <=? length (in_ w))%nat, take size (in_ w), w') ∧
    in_ w' = drop size (in_ w) ∧ out w' = out w) ∧
  (∀ s, (length s + wait w < fuel)%nat → ∃ w', SendAll fuel s true 0 w = Some (true, length s, w') ∧ out w' = out w ++ s ∧ in_ w' = in_ w) ∧
  (∀ peek_size ls rest, (0 < peek_size)%nat → Forall (λ l, 10 ∉ l) ls → in_ w = concat ((λ l, l ++ [10]) <$> ls) ++ rest →
    (2 * length (in_ w) + wait w + 2 < fuel)%nat →
    ∃ w', receive_lines fuel peek_size (length ls) w = Some ((λ l, l ++ [10]) <$> ls, w') ∧ in_ w' = rest).
Proof.
  split; [|split].
  - intros size Hf. destruct (ReceiveAll_good fuel size [] w Hf) as (w' & E & Hi & Ho & _). by exists w'.
  - intros s Hf. destruct (SendAll_good fuel s 0 w Hf) as (w' & E & Hi & Ho & _). by exists w'.
  - intros peek_size ls rest. apply receive_lines_good.
Qed.

(** At the end of the stream the overload with a timeout does not end: the
    socket is readable, and nothing is received. *)
Lemma receive_all_spins fuel n timeout received w :
  (∀ t k, incoming k = [] → ∃ m k', poll_readable t k = (Got m, k') ∧ 0 < m ∧ incoming k' = []) → in_ w = [] →
  ReceiveAll_timeout fuel (S n) timeout true received w = None.
Proof.
  intros Hpoll. revert w. induction fuel as [|fuel IH]; intros w Hw; [done|]. cbn [ReceiveAll_timeout].
  destruct fuel as [|fuel']; [done|]. destruct (Hpoll (timeout_of timeout) (system w) Hw) as (m & k & E & Hm & Hk). unfold WaitReadable. cbn [wait_loop]. unfold syscall. rewrite E. cbn [mbind option_bind].
  apply Z.ltb_lt in Hm as ->. destruct (Receive (S fuel') (S n) false true true (mkWorld k (last_error w))) as [[[ok s] w1]|] eqn:Er; [|done]. cbn [mbind option_bind].
  assert (ok = false ∧ in_ w1 = []) as [-> Hw1].
  { revert Er. generalize (S fuel'). intros fu. assert (Hk' : in_ (mkWorld k (last_error w)) = []) by done. revert Hk'. generalize (mkWorld k (last_error w)). intros v Hv.
    revert v Hv. clear -G. induction fu as [|fu IHf]; intros v Hv; [done|]. cbn [Receive]. unfold syscall. pose proof (recv_good (S n) false true (system v) (Nat.lt_0_succ _)) as H.
    destruct (recv (S n) false true (system v)) as [[t|e] k']; destruct H as (_ & H).
    - destruct H as (Et & _ & _ & Hi & _). unfold in_ in Hv. rewrite Hv in Et, Hi. rewrite take_nil in Et. subst t. intros [= <- <- <-]. split; [done|]. unfold in_. cbn. by rewrite Hi.
    - destruct H as (-> & Hi & _). cbn. apply IHf. unfold in_ in *. cbn. congruence. }
  by apply IH.
Qed.
End Theorems.

Lemma stream_transfers_witness :
  let w := mkWorld (mkPipe (str "one" ++ [10] ++ str "two" ++ [10] ++ str "left") [] [Some 1%nat; None; Some 0%nat; None]) 0 in
  ∃ w1 w2, SendAll 20 (str "hello") true 0 w = Some (true, 5%nat, w1) ∧ pipe_out (system w1) = str "hello" ∧
    receive_lines (K := pipe_system) 40 80 2 w = Some ([str "one" ++ [10]; str "two" ++ [10]], w2) ∧ pipe_in (system w2) = str "left".
Proof.
  intros w. destruct (stream_transfers (G := pipe_good) 40 w) as (_ & _ & Hl). destruct (stream_transfers (G := pipe_good) 20 w) as (_ & Hs & _).
  destruct (Hs (str "hello")) as (w1 & E1 & O1 & _); [cbn; lia|].
  destruct (Hl 80%nat [str "one"; str "two"] (str "left")) as (w2 & E2 & I2); [lia| |done|cbn; lia|].
  - repeat constructor; apply (bool_decide_unpack _); by vm_compute.
  - exists w1, w2. exact (conj E1 (conj O1 (conj E2 I2))).
Defined.
