(* ===== verification/HttpClient.v ===== *)
(** * The HTTP client

    Model of net/http/http_client.cpp: a request is sent to the server of a
    URI, or to a proxy, and its response received into a buffer of a given
    size, with a body of a given length, in chunks, or up to the end of the
    connection.

    The client reads and writes with the sockets of [Socket], parses with [Http]
    and [UriParser].  The name server is a parameter.  [None] is fuel of the
    sockets that runs out, an exception, or undefined behaviour of a component
    called. *)

From S2P Require Import Prelude CType Number StringPiece Specification Scan Uri UriParser Http Socket.

Module Client.

Inductive ErrorCode := SUCCESS | ERROR_INVALID_URI_ADDRESS | ERROR_INVALID_PROXY_ADDRESS | ERROR_INVALID_RESPONSE_HEADER
  | ERROR_FAIL_TO_RESOLVE_ADDRESS | ERROR_FAIL_TO_SEND_REQUEST | ERROR_FAIL_TO_GET_RESPONSE | ERROR_FAIL_TO_CONNECT_SERVER
  | ERROR_FAIL_TO_READ_CHUNKSIZE | ERROR_PROTOCAL_NOT_SUPPORTED | ERROR_CONTENT_TYPE_NOT_SUPPORTED | ERROR_HTTP_STATUS_CODE
  | ERROR_TOO_MANY_REDIRECTS.

#[export] Instance ErrorCode_eq_dec : EqDecision ErrorCode.
Proof. solve_decision. Defined.

Definition GetErrorMessage (error_code : ErrorCode) : bytes :=
  match error_code with
  | SUCCESS => str "Success"
  | ERROR_INVALID_URI_ADDRESS => str "Invalid URI address"
  | ERROR_INVALID_PROXY_ADDRESS => str "Invalid proxy address"
  | ERROR_INVALID_RESPONSE_HEADER => str "Invalid response header"
  | ERROR_FAIL_TO_RESOLVE_ADDRESS => str "Failed to resolve address"
  | ERROR_FAIL_TO_SEND_REQUEST => str "Failed to send request"
  | ERROR_FAIL_TO_GET_RESPONSE => str "Failed to get response"
  | ERROR_FAIL_TO_CONNECT_SERVER => str "Failed to connect to server"
  | ERROR_FAIL_TO_READ_CHUNKSIZE => str "Failed to read chunk size"
  | ERROR_PROTOCAL_NOT_SUPPORTED => str "Protocal is not supported"
  | ERROR_CONTENT_TYPE_NOT_SUPPORTED => str "Content type is not supported yet"
  | ERROR_HTTP_STATUS_CODE => str "Error http status code"
  | ERROR_TOO_MANY_REDIRECTS => str "Too many redirections"
  end.

(** ** The options and the client *)

Record Options := mkOptions { options_headers : HttpHeaders; m_max_response_length : nat }.
Definition new_Options : Options := mkOptions [] 0.
Definition Options_AddHeader (name value : bytes) (o : Options) : Options :=
  mkOptions (Headers.Add name value (options_headers o)) (m_max_response_length o).
Definition SetMaxResponseLength (length : nat) (o : Options) : Options := mkOptions (options_headers o) length.

Record HttpClient := mkClient { m_proxy : bytes; m_user_agent : bytes }.
Definition new_HttpClient : HttpClient := mkClient [] (str "SosoDownloader/1.0(compatible; MSIE 7.0; Windows NT 5.1)").
Definition SetProxy (proxy : bytes) (c : HttpClient) : HttpClient := mkClient proxy (m_user_agent c).
Definition SetUserAgent (user_agent : bytes) (c : HttpClient) : HttpClient := mkClient (m_proxy c) user_agent.

Definition kHttpScheme : bytes := str "http".
Definition kDefaultPath : bytes := str "/".
Definition kDefaultHttpPort : bytes := str "80".
Definition kDefaultMaxResponseLength : nat := 1024 * 1024 * 2.

(** The name server, and the addresses it gives with a port. *)
Class DomainResolver `{SocketSystem} := {
  ip_address : Type;
  resolve_ip_address : bytes → option (list ip_address);
  socket_address_inet4 : ip_address → Z → socket_address
}.

(** [strstr] *)
Definition strstr (s x : bytes) : option nat := find (before_nul s) x 0.

Definition CRLF : bytes := [13; 10].

(** [sscanf(s, "%x", &n)] into an [int] *)
Definition sscanf_hex (s : bytes) : option Z :=
  let '(v, n, _) := strtoul (before_nul s) 16 in if (n =? 0)%nat then None else Some (s32 v).

Definition ResponseStatusHasContent (http_status : Z) : bool :=
  ((200 <=? http_status) && negb (http_status =? 204) && negb (http_status =? 304))%bool.

Section Client.
Context {F : FloatLibrary} {K : SocketSystem} {R : DomainResolver (H := K)}.

(** Each address has the port. *)
Definition ResolveAddress (host : bytes) (port : Z) : option (list socket_address) :=
  match resolve_ip_address host with
  | Some ipaddr => Some (map (λ ip, socket_address_inet4 ip port) ipaddr)
  | None => None
  end.

(** The headers from [k] on; what [GetAt] does not set is empty. *)
Fixpoint append_headers (k count : nat) (headers : HttpHeaders) (request : HttpRequest) : option HttpRequest :=
  match count with
  | O => Some request
  | S count =>
      header ← Headers.GetAt (Z.of_nat k) headers;
      let header := default ([], []) header in
      append_headers (S k) count headers (AddHeader header.1 header.2 request)
  end.
Definition AppendHeaderToRequest (headers : HttpHeaders) (request : HttpRequest) : option HttpRequest :=
  append_headers 0 (Headers.Count headers) headers request.

(** ** A download

    The connection, [m_response], and [m_error_code]; [fuel] is that of the
    sockets. *)
Record DownloadTask := mkTask { m_connector : World; m_response : HttpResponse; m_error_code : ErrorCode }.

Definition fails (e : ErrorCode) (t : DownloadTask) : DownloadTask := mkTask (m_connector t) (m_response t) e.
Definition at_ (w : World) (t : DownloadTask) : DownloadTask := mkTask w (m_response t) (m_error_code t).
Definition with_response (r : HttpResponse) (t : DownloadTask) : DownloadTask := mkTask (m_connector t) r (m_error_code t).
Definition with_body (body : bytes) (t : DownloadTask) : DownloadTask :=
  with_response (mkResponse (SetBody body (response (m_response t))) (m_status (m_response t))) t.

Definition SendRequest (fuel : nat) (request : HttpRequest) (t : DownloadTask) : option (bool * DownloadTask) :=
  headers ← HeadersToString request;
  let headers := headers ++ m_body (message request) in
  '(ok, _, w) ← SendAll fuel headers true 0 (m_connector t);
  let t := at_ w t in
  Some (if (ok : bool) then (true, t) else (false, fails ERROR_FAIL_TO_SEND_REQUEST t)).

(** The buffer is what was received of it, and [end_] its size less one. *)
Fixpoint receive_headers (fuel end_ : nat) (buff : bytes) (t : DownloadTask) : option (option nat * bytes * DownloadTask) :=
  match fuel with
  | O => None
  | S fuel =>
      '(ok, s, w) ← Receive fuel (end_ - length buff) false false true (m_connector t);
      let t := at_ w t in
      if (negb ok || (length s =? 0)%nat)%bool then Some (None, buff, fails ERROR_FAIL_TO_GET_RESPONSE t)
      else
        let buff := buff ++ s in
        match strstr buff (CRLF ++ CRLF) with
        | Some p => Some (Some (p + 4)%nat, buff, t)
        | None =>
            if (0 <? end_ - length buff)%nat then receive_headers fuel end_ buff t
            else Some (None, buff, fails ERROR_INVALID_RESPONSE_HEADER t)
        end
  end.

Definition ReceiveBodyWithContentLength (fuel end_ : nat) (begin : nat) (buff : bytes) (t : DownloadTask) : option DownloadTask :=
  let body := drop begin buff in
  length_ ← GetContentLength (m_response t);
  let content_length := length_ mod 2 ^ 64 in
  if Z.of_nat (length body) <? content_length then
    let buf_len := (end_ - length buff)%nat in
    let download := Z.to_nat (Z.min (Z.of_nat buf_len) (content_length - Z.of_nat (length body))) in
    '(ok, received, w) ← ReceiveAll fuel download true [] (m_connector t);
    let t := at_ w t in
    let t := if negb ok then fails ERROR_FAIL_TO_GET_RESPONSE t else t in
    Some (with_body (body ++ received) t)
  else Some (with_body body t).

(** [data] is what was received from [begin] on, and [buffer_length] what is
    free behind it: [begin < end] is that there is either. *)
Fixpoint chunk_loop (fuel : nat) (data : bytes) (buffer_length : Z) (body : bytes) (t : DownloadTask) : option DownloadTask :=
  match fuel with
  | O => None
  | S fuel =>
      if Z.of_nat (length data) + buffer_length <=? 0 then Some t
      else
        match strstr data CRLF with
        | Some p =>
            match sscanf_hex data with
            | None => Some (fails ERROR_FAIL_TO_READ_CHUNKSIZE t)
            | Some chunk_size =>
                let data := drop (p + 2) data in
                if chunk_size =? 0 then Some (with_body body t)
                else if negb (chunk_size + 2 <? 2 ^ 31) then None
                else
                  let chunk_size := Z.min (chunk_size + 2) buffer_length in
                  let downloaded := Z.of_nat (length data) in
                  '(ok, received, w) ←
                    (if downloaded <? chunk_size then ReceiveAll fuel (Z.to_nat (chunk_size - downloaded)) true [] (m_connector t)
                     else Some (true, [], m_connector t));
                  let t := at_ w t in
                  if negb ok then Some (fails ERROR_FAIL_TO_GET_RESPONSE t)
                  else if chunk_size - 2 <? 0 then None
                  else
                    let data := data ++ received in
                    chunk_loop fuel (drop (Z.to_nat chunk_size) data) (buffer_length - Z.of_nat (length received))
                      (body ++ take (Z.to_nat (chunk_size - 2)) data) t
            end
        | None =>
            '(ok, received, w) ← Receive fuel (Z.to_nat buffer_length) false false true (m_connector t);
            let t := at_ w t in
            if negb ok then Some (fails ERROR_FAIL_TO_GET_RESPONSE t)
            else chunk_loop fuel (data ++ received) (buffer_length - Z.of_nat (length received)) body t
        end
  end.
Definition ReceiveBodyWithChunks (fuel end_ : nat) (begin : nat) (buff : bytes) (t : DownloadTask) : option DownloadTask :=
  chunk_loop fuel (drop begin buff) (Z.of_nat (end_ - length buff)) [] t.

Definition ReceiveBodyWithConnectionReset (fuel end_ : nat) (begin : nat) (buff : bytes) (t : DownloadTask) : option DownloadTask :=
  '(ok, received, w) ← ReceiveAll fuel (end_ - length buff) true [] (m_connector t);
  let t := at_ w t in
  Some (if (ok || (last_error w =? ECONNRESET))%bool then with_body (drop begin buff ++ received) t else t).

(** [HasHeader(name) && ...GetHeader(name)...] *)
Definition header_and (name : bytes) (test : bytes → bool) (r : HttpResponse) : option bool :=
  has ← HasHeader name r;
  if (has : bool) then test <$> GetHeader_value name r else Some false.

Definition is_chunked (r : HttpResponse) : option bool :=
  header_and (str "Transfer-Encoding") (λ v, negb (bool_decide (v = str "identity"))) r.

(** With the response of the caller, which is exchanged for [m_response]. *)
Definition ReceiveResponse (fuel max_response_length : nat) (response : HttpResponse) (t : DownloadTask) :
    option (bool * HttpResponse * DownloadTask) :=
  let end_ := (max_response_length - 1)%nat in
  '(p, buff, t) ← receive_headers fuel end_ [] t;
  match p with
  | None => Some (false, response, t)
  | Some p =>
      '(ok, _, r) ← ParseHeaders (take p buff) (m_response t);
      let t := with_response r t in
      if negb ok then Some (false, response, fails ERROR_INVALID_RESPONSE_HEADER t)
      else
        let finish (t : DownloadTask) : bool * HttpResponse * DownloadTask :=
          let r := m_response t in
          let t := with_response response t in
          (true, r, if m_status r =? 200 then t else fails ERROR_HTTP_STATUS_CODE t) in
        if negb (ResponseStatusHasContent (m_status r)) then Some (finish t)
        else
          chunked ← is_chunked r;
          if (chunked : bool) then finish <$> ReceiveBodyWithChunks fuel end_ p buff t
          else
            has_length ← HasHeader (str "Content-Length") r;
            if (has_length : bool) then finish <$> ReceiveBodyWithContentLength fuel end_ p buff t
            else
              multipart ← header_and (str "Content-Type") (λ v, bool_decide (v = str "multipart/byteranges")) r;
              if (multipart : bool) then Some (false, response, fails ERROR_CONTENT_TYPE_NOT_SUPPORTED t)
              else finish <$> ReceiveBodyWithConnectionReset fuel end_ p buff t
  end.

(** The overload for one address. *)
Definition ProcessRequest_address (fuel max_response_length : nat) (addr : socket_address) (request : HttpRequest) (response : HttpResponse)
    (t : DownloadTask) : option (bool * HttpResponse * DownloadTask) :=
  let '(ok, w) := Connect addr (m_connector t) in
  let t := at_ w t in
  if negb ok then Some (false, response, fails ERROR_FAIL_TO_CONNECT_SERVER t)
  else
    '(ok, t) ← SendRequest fuel request t;
    if (ok : bool) then ReceiveResponse fuel max_response_length response t else Some (false, response, t).

Fixpoint try_addresses (fuel max_response_length : nat) (sa : list socket_address) (request : HttpRequest) (response : HttpResponse)
    (t : DownloadTask) : option (bool * HttpResponse * DownloadTask) :=
  match sa with
  | [] => Some (false, response, t)
  | addr :: sa =>
      '(ok, response, t) ← ProcessRequest_address fuel max_response_length addr request response t;
      if (ok : bool) then Some (true, response, t) else try_addresses fuel max_response_length sa request response t
  end.

(** Up to the addresses: the request to be sent, the host, and the port. *)
Definition prepare (client : HttpClient) (url : bytes) (options : Options) (request : HttpRequest) :
    option (HttpRequest * bytes * Z + ErrorCode) :=
  let '(ok, uri) := Parse url new_URI in
  if negb ok then Some (inr ERROR_INVALID_URI_ADDRESS)
  else
    request ← AppendHeaderToRequest (options_headers options) request;
    let path_and_query := PathAndQuery uri in
    let host := Host uri in
    request ← SetHeader (str "User-Agent") (m_user_agent client) request;
    request ← SetHeader (str "Host") host request;
    let proxy := Parse (m_proxy client) new_URI in
    let use_proxy := negb (bool_decide (m_proxy client = [])) in
    if (use_proxy && negb (fst proxy))%bool then Some (inr ERROR_INVALID_PROXY_ADDRESS)
    else
      let uri := if use_proxy then snd proxy else uri in
      let path_and_query := if use_proxy then url else path_and_query in
      let request := SetUri (if bool_decide (path_and_query = []) then kDefaultPath else path_and_query) request in
      match
        (if HasPort uri then Some (Port uri)
         else if (bool_decide (m_scheme uri = []) || bool_decide (m_scheme uri = kHttpScheme))%bool then Some kDefaultHttpPort
         else None)
      with
      | None => Some (inr ERROR_PROTOCAL_NOT_SUPPORTED)
      | Some port_str =>
          Some (match StringToNumber t_uint port_str with
                | Some port => inl (request, host, u16 port)
                | None => inr SUCCESS
                end)
      end.

Definition response_limit (options : Options) : nat :=
  if (m_max_response_length options =? 0)%nat then kDefaultMaxResponseLength else m_max_response_length options.

(** A port that is not a number leaves the error code as it was. *)
Definition ProcessRequest (fuel : nat) (client : HttpClient) (url : bytes) (options : Options) (request : HttpRequest)
    (response : HttpResponse) (t : DownloadTask) : option (bool * HttpResponse * DownloadTask) :=
  p ← prepare client url options request;
  match p with
  | inr e => Some (false, response, fails e t)
  | inl (request, host, port) =>
      match ResolveAddress host port with
      | None => Some (false, response, fails ERROR_FAIL_TO_RESOLVE_ADDRESS t)
      | Some sa => try_addresses fuel (response_limit options) sa request response t
      end
  end.

(** ** Requests *)

Definition new_DownloadTask (w : World) : DownloadTask := mkTask w new_HttpResponse SUCCESS.

Definition new_request (method : MethodType) (data : bytes) : option HttpRequest :=
  let request := SetMethod method new_HttpRequest in
  let request := mkRequest (SetBody data (message request)) (m_method request) (m_uri request) in
  SetHeader (str "Content-Length") (IntegerToString t_ulong (Z.of_nat (length data))) request.

(** With [*response], [*error] and the state of the sockets. *)
Definition Request (fuel : nat) (method : MethodType) (url data : bytes) (options : Options) (client : HttpClient) (response : HttpResponse)
    (w : World) : option (bool * HttpResponse * ErrorCode * World) :=
  request ← new_request method data;
  '(ret, response, t) ← ProcessRequest fuel client url options request response (new_DownloadTask w);
  Some ((ret && bool_decide (m_error_code t = SUCCESS))%bool, response, m_error_code t, m_connector t).

Definition Get (fuel : nat) (url : bytes) (options : Options) := Request fuel METHOD_GET url [] options.
Definition Post (fuel : nat) (url data : bytes) (options : Options) := Request fuel METHOD_POST url data options.
Definition Put (fuel : nat) (url data : bytes) (options : Options) := Request fuel METHOD_PUT url data options.
Definition Delete (fuel : nat) (url : bytes) (options : Options) := Request fuel METHOD_DELETE url [] options.
End Client.
End Client.

(** ** Examples: a server at the end of a pipe *)

#[export] Instance pipe_resolver : Client.DomainResolver (H := pipe_system) := {
  ip_address := bytes;
  resolve_ip_address host := Some [host];
  socket_address_inet4 _ _ := tt
}.

Section Examples.
Context {F : FloatLibrary}.

Definition text_lines (ls : list bytes) : bytes := ls ≫= (.++ Client.CRLF).
Definition get (server : bytes) (p : list (option nat)) : option (bool * bytes * Client.ErrorCode * bytes) :=
  '(ok, r, e, w) ← Client.Get 200 (str "http://host/a?b") (Client.mkOptions [] 200) (Client.mkClient [] (str "me")) new_HttpResponse
    (mkWorld (mkPipe server [] p) 0);
  Some (ok, m_body (response r), e, pipe_out (system w)).

Example get_example :
  get (text_lines [str "HTTP/1.1 200 OK"; str "Content-Length: 5"; []] ++ str "hello") [None; Some 400%nat; Some 20%nat; None; Some 21%nat] =
    Some (true, str "hello", Client.SUCCESS,
          text_lines [str "GET /a?b HTTP/1.1"; str "Content-Length: 0"; str "User-Agent: me"; str "Host: host"; []]).
Proof. by vm_compute. Qed.

Example chunks_example :
  fst <$> (fst <$> get (text_lines [str "HTTP/1.1 200 OK"; str "Transfer-Encoding: chunked"; []; str "5"; str "hello"; str "6;x"; str " world"; str "0"; []]) []) =
    Some (true, str "hello world").
Proof. by vm_compute. Qed.

(** A chunk that is there is cut to the room behind it. *)
Example chunk_cut :
  (λ r, (r.1.1.1, r.1.2)) <$> get (text_lines [str "HTTP/1.1 200 OK"; str "Transfer-Encoding: chunked"; []; str "83"; replicate 131 120; str "0"; []]) [] =
    Some (false, Client.ERROR_FAIL_TO_READ_CHUNKSIZE).
Proof. by vm_compute. Qed.

(** Without a length, what comes up to the end of the connection is lost. *)
Example unbounded_body :
  get (text_lines [str "HTTP/1.1 200 OK"; []] ++ str "hello") [] ≫= (λ r, Some r.1) = Some (true, [], Client.SUCCESS).
Proof. by vm_compute. Qed.

(** The proxy's port is looked up at the server's address. *)
Example proxy_address :
  (λ p, match p with inl (r, host, port) => Some (m_uri r, host, port) | inr _ => None end) <$>
    Client.prepare (Client.mkClient (str "http://proxy:3128") []) (str "http://host/a") Client.new_Options (SetMethod METHOD_GET new_HttpRequest) =
    Some (Some (str "http://host/a", str "host", 3128)).
Proof. by vm_compute. Qed.
End Examples.
