(* ===== verification/HttpClientFacts.v ===== *)
(** * The HTTP client: the server gets the request, the client the response

    The client's sockets are any that satisfy [GoodStream]; the messages are
    those that [HttpFacts] reads back. *)

From S2P Require Import Prelude CType Number StringPiece Specification Scan Uri UriParser Http HttpFacts Socket SocketFacts HttpClient.
Import Client.

(** ** The end of the headers *)

Definition blank : bytes := CRLF ++ CRLF.

(** Messages of lines that are not empty, and an empty line. *)
Definition head_lines (ls : list bytes) : Prop := ls ≠ [] ∧ Forall (λ l, 10 ∉ l ∧ l ≠ []) ls.

Lemma occurs_lookup x s i j c : occurs x s i → x !! j = Some c → s !! (i + j)%nat = Some c.
Proof.
  intros [_ E] Hj. assert (Hl : (j < length x)%nat) by by eapply lookup_lt_Some. rewrite <- E in Hj.
  rewrite lookup_take_lt, lookup_drop in Hj by done. done.
Qed.

Lemma lookup_of_occurs x s i : (∀ j, (j < length x)%nat → s !! (i + j)%nat = x !! j) → (0 < length x)%nat → occurs x s i.
Proof.
  intros H Hx. assert (Hlen : (i + length x <= length s)%nat).
  { destruct (lookup_lt_is_Some_2 x (length x - 1)) as [c Hc]; [lia|]. specialize (H (length x - 1)%nat ltac:(lia)).
    rewrite Hc in H. apply lookup_lt_Some in H. lia. }
  split; [done|]. apply list_eq. intros j. destruct (Nat.lt_ge_cases j (length x)).
  - rewrite lookup_take_lt, lookup_drop by done. by apply H.
  - rewrite lookup_take_ge by done. symmetry. by apply lookup_ge_None.
Qed.

(** The first empty line of a message is its own. *)
Lemma blank_first ls b i : head_lines ls → occurs blank (lines_text ls ++ CRLF ++ b) i → (length (lines_text ls) <= i + 2)%nat.
Proof.
  intros [Hne Hls]. revert i Hne. induction Hls as [|l ls [Hl Hln] Hls IH]; intros i Hne Hi; [done|].
  set (s := lines_text ls ++ CRLF ++ b). assert (Es : lines_text (l :: ls) ++ CRLF ++ b = l ++ 13 :: 10 :: s).
  { cbn [lines_text]. unfold ended, s. by rewrite <- !(assoc_L (++)). }
  rewrite Es in Hi. assert (H0 := occurs_lookup _ _ _ 0 13 Hi eq_refl). assert (H1 := occurs_lookup _ _ _ 1 10 Hi eq_refl).
  assert (H3 := occurs_lookup _ _ _ 3 10 Hi eq_refl). cbn [lines_text]. unfold ended. rewrite !length_app. cbn [length].
  assert (Hafter : ∀ k, (l ++ 13 :: 10 :: s) !! (length l + k)%nat = (13 :: 10 :: s) !! k) by (intros k; rewrite lookup_app_r by lia; f_equal; lia).
  destruct (Nat.lt_trichotomy i (length l)) as [Hlt|[->|Hgt]].
  - exfalso. destruct (Nat.lt_ge_cases (i + 1) (length l)) as [Hlt'|Hge].
    + rewrite lookup_app_l in H1 by done. apply Hl. by eapply list_elem_of_lookup_2.
    + replace (i + 1)%nat with (length l + 0)%nat in H1 by lia. by rewrite Hafter in H1.
  - rewrite (Hafter 3%nat) in H3. cbn in H3. destruct Hls as [|l2 ls [Hl2 Hln2] Hls]; [cbn; lia|]. exfalso.
    assert (H2 := occurs_lookup _ _ _ 2 13 Hi eq_refl). rewrite (Hafter 2%nat) in H2. cbn in H2.
    unfold s in H3, H2. cbn [lines_text] in H3, H2. unfold ended in H3, H2. rewrite <- !(assoc_L (++)) in H3. 
    destruct l2 as [|c l2]; [done|]. cbn in H3. destruct l2 as [|d l2]; cbn in H3; [done|]. injection H3 as ->. apply Hl2. right. by left.
  - destruct (decide (i = length l + 1)%nat) as [->|Hne2]; [rewrite Nat.add_0_r, (Hafter 1%nat) in H0; done|].
    assert (Hs : occurs blank s (i - (length l + 2))).
    { apply lookup_of_occurs; [|cbn; lia]. intros j Hj. destruct (lookup_lt_is_Some_2 blank j Hj) as [c Hc]. rewrite Hc.
      pose proof (occurs_lookup _ _ _ j c Hi Hc) as H. replace (i + j)%nat with (length l + (2 + (i - (length l + 2) + j)))%nat in H by lia.
      by rewrite Hafter in H. }
    destruct ls as [|l2 ls]; [cbn; lia|]. specialize (IH _ ltac:(done) Hs). lia.
Qed.

Lemma blank_there ls b : ls ≠ [] → occurs blank (lines_text ls ++ CRLF ++ b) (length (lines_text ls) - 2).
Proof.
  intros Hne. assert (∃ s, lines_text ls = s ++ CRLF) as [s ->].
  { induction ls as [|l ls IH]; [done|]. destruct ls as [|l2 ls]; [exists l; cbn; by rewrite app_nil_r|]. destruct (IH ltac:(done)) as [s Es].
    exists (ended l ++ s). cbn [lines_text] in *. rewrite Es. by rewrite (assoc_L (++)). }
  rewrite length_app. change (length CRLF) with 2%nat. replace (length s + 2 - 2)%nat with (length s) by lia.
  split; [rewrite !length_app; cbn; lia|]. rewrite <- (assoc_L (++)), drop_app_length. done.
Qed.

Lemma before_nul_before s b : 0 ∉ s → before_nul (s ++ b) = s ++ before_nul b.
Proof.
  induction s as [|c s IH]; intros H; [done|]. rewrite elem_of_cons in H. cbn. destruct (Z.eqb_spec c 0) as [->|]; [destruct H; by left|].
  f_equal. apply IH. auto.
Qed.

(** [strstr] on what was received of a message. *)
Lemma strstr_blank ls b n : head_lines ls → 0 ∉ lines_text ls ++ CRLF →
  strstr (take n ((lines_text ls ++ CRLF) ++ b)) blank =
    if (length (lines_text ls ++ CRLF) <=? n)%nat then Some (length (lines_text ls) - 2)%nat else None.
Proof.
  intros Hls H0. set (text := lines_text ls ++ CRLF) in *. unfold strstr. destruct (Nat.leb_spec (length text) n) as [Hle|Hlt].
  - rewrite take_app_ge, before_nul_before by done. set (c := before_nul _). pose proof (find_spec (text ++ c) blank 0) as Hf.
    unfold text in *. rewrite <- (assoc_L (++)) in *. pose proof (blank_there ls c (proj1 Hls)) as Ht.
    destruct (find _ _ _) as [i|]; [|by destruct (Hf _ (Nat.le_0_l _) Ht)]. destruct Hf as (_ & Hi & Hmin).
    pose proof (blank_first ls c i Hls Hi). f_equal. destruct (Nat.lt_trichotomy i (length (lines_text ls) - 2)) as [|[|]]; [lia|done|].
    exfalso. apply (Hmin (length (lines_text ls) - 2)%nat); [lia|exact Ht].
  - rewrite take_app_le by lia. assert (Hn : 0 ∉ take n text).
    { intros H. apply H0. apply (subseteq_take n text 0 H). }
    rewrite <- (app_nil_r (take n text)), before_nul_before by done. cbn [before_nul]. rewrite app_nil_r.
    pose proof (find_spec (take n text) blank 0) as Hf. destruct (find _ _ _) as [i|]; [|done]. exfalso. destruct Hf as (_ & Hi & _).
    assert (Hi' : occurs blank (lines_text ls ++ CRLF ++ []) i).
    { rewrite app_nil_r. fold text. apply lookup_of_occurs; [|cbn; lia]. intros j Hj. destruct (lookup_lt_is_Some_2 blank j Hj) as [c Hc].
      rewrite Hc. apply (prefix_lookup_Some (take n text) text); [exact (occurs_lookup _ _ _ j c Hi Hc)|apply prefix_take]. }
    apply blank_first in Hi'; [|done]. destruct Hi as [Hi _]. rewrite length_take in Hi. unfold text in *. rewrite length_app in Hlt, Hi.
    change (length blank) with 4%nat in Hi. change (length CRLF) with 2%nat in *. lia.
Qed.

(** ** Receiving the headers *)

Section Client.
Context {F : FloatLibrary} {K : SocketSystem} {G : GoodStream} {R : DomainResolver (H := K)}.

Definition t_in (t : DownloadTask) : bytes := in_ (m_connector t).
Definition t_out (t : DownloadTask) : bytes := out (m_connector t).
Definition t_wait (t : DownloadTask) : nat := wait (m_connector t).

(** The task but for the connection. *)
Definition same_but_connection (t t' : DownloadTask) : Prop := m_response t' = m_response t ∧ m_error_code t' = m_error_code t ∧ t_out t' = t_out t.

Lemma receive_headers_good ls b fuel end_ buff t : head_lines ls → let text := lines_text ls ++ CRLF in 0 ∉ text →
  buff ++ t_in t = text ++ b → (length buff < length text)%nat → (length text <= end_)%nat → (length text - length buff + t_wait t < fuel)%nat →
  ∃ buff' t', receive_headers fuel end_ buff t = Some (Some (length text), buff', t') ∧ buff' ++ t_in t' = text ++ b ∧
    (length text <= length buff' <= end_)%nat ∧ same_but_connection t t' ∧ (t_wait t' <= t_wait t)%nat.
Proof.
  intros Hls text H0. revert buff t. induction fuel as [|fuel IH]; intros buff t Es Hl He Hf; [lia|]. cbn [receive_headers].
  destruct (Receive_good fuel (end_ - length buff) false false (m_connector t)) as (s & w & -> & Et & Hle & Hn & Hi & Ho & Hp); [unfold t_wait in Hf; lia..|].
  cbn [mbind option_bind]. fold (t_in t) (t_out t) (t_wait t) in *.
  assert (Hs : (0 < length s)%nat).
  { destruct s; [|cbn; lia]. specialize (Hn eq_refl). rewrite Hn, app_nil_r in Es. rewrite Es, length_app in Hl. lia. }
  apply Nat.ltb_lt in Hs as Hs'. rewrite Hs'. destruct (Nat.eqb_spec (length s) 0); [lia|]. cbn [negb orb].
  assert (Ebs : (buff ++ s) ++ in_ w = text ++ b) by (rewrite Hi, <- (assoc_L (++)); rewrite Et at 1; by rewrite take_drop).
  assert (Etake : buff ++ s = take (length (buff ++ s)) (text ++ b)) by (by rewrite <- Ebs, take_app_length).
  rewrite Etake. change (CRLF ++ CRLF) with blank. unfold text. rewrite strstr_blank by done. fold text. rewrite <- Etake.
  assert (Hlt : (2 <= length (lines_text ls))%nat).
  { destruct ls; [by destruct Hls|]. cbn. unfold ended. rewrite !length_app. cbn. lia. }
  assert (Htext : length text = (length (lines_text ls) + 2)%nat) by (unfold text; rewrite length_app; cbn; lia).
  destruct (Nat.leb_spec (length text) (length (buff ++ s))) as [Hge|Hlt'].
  - exists (buff ++ s), (at_ w t). split; [repeat f_equal; lia|]. split; [done|]. split; [rewrite length_app in *; lia|]. by repeat split.
  - rewrite length_app in Hlt'. rewrite length_app. destruct (Nat.ltb_spec 0 (end_ - (length buff + length s))); [|lia].
    destruct (IH (buff ++ s) (at_ w t)) as (buff' & t' & -> & E' & Hl' & (Hr & He' & Ho') & Hw'); rewrite ?length_app; unfold t_wait in *; cbn in *; try done; try lia.
    exists buff', t'. split; [done|]. split; [done|]. split; [done|]. split; [|lia]. split; [done|]. split; [done|]. unfold t_out in *. cbn in Ho'. congruence.
Qed.

(** ** Bodies *)

Lemma content_length_good fuel end_ begin buff b t :
  GetContentLength (m_response t) = Some (Z.of_nat (length b)) → drop begin buff ++ t_in t = b → (length buff + length (t_in t) <= end_)%nat →
  Z.of_nat (length b) < 2 ^ 64 → (length b + t_wait t < fuel)%nat →
  ∃ t', ReceiveBodyWithContentLength fuel end_ begin buff t = Some (with_body b t') ∧ t_in t' = [] ∧ same_but_connection t t'.
Proof.
  intros Hc Eb He Hb Hf. unfold ReceiveBodyWithContentLength. rewrite Hc. cbn [mbind option_bind]. rewrite Z.mod_small by lia.
  assert (Hlen : length b = (length (drop begin buff) + length (t_in t))%nat) by (by rewrite <- Eb, length_app).
  destruct (Z.ltb_spec (Z.of_nat (length (drop begin buff))) (Z.of_nat (length b))).
  - rewrite Z.min_r by lia. replace (Z.to_nat (Z.of_nat (length b) - Z.of_nat (length (drop begin buff)))) with (length (t_in t)) by lia.
    destruct (ReceiveAll_good fuel (length (t_in t)) [] (m_connector t)) as (w & -> & Hi & Ho & Hp); [unfold t_wait in Hf; lia|].
    fold (t_in t) in *. rewrite Nat.leb_refl, firstn_all. cbn [mbind option_bind negb app]. rewrite Eb. exists (at_ w t). split; [done|].
    split; [unfold t_in; cbn; by rewrite Hi, drop_all|]. by repeat split.
  - assert (t_in t = []) as En by (apply nil_length_inv; lia). rewrite En, app_nil_r in Eb. rewrite Eb. exists t. by repeat split.
Qed.

(** [errno] changes to EINTR at most. *)
Lemma Receive_errno fuel size peek waitall w r : (0 < size)%nat → Receive fuel size peek waitall true w = Some r →
  last_error r.2 = last_error w ∨ last_error r.2 = EINTR.
Proof.
  intros Hs. revert w. induction fuel as [|fuel IH]; intros w; [done|]. cbn [Receive]. unfold syscall.
  pose proof (recv_good size peek waitall (system w) Hs) as H. destruct (recv size peek waitall (system w)) as [[s|e] k]; [intros [= <-]; by left|].
  destruct H as (_ & -> & _). cbn. intros E. right. by destruct (IH _ E) as [-> | ->].
Qed.

Lemma ReceiveAll_errno fuel size received w r : ReceiveAll fuel size true received w = Some r →
  last_error r.2 = last_error w ∨ last_error r.2 = EINTR.
Proof.
  revert size received w. induction fuel as [|fuel IH]; intros [|size] received w; [by intros [= <-]; left|done|by intros [= <-]; left|].
  cbn [ReceiveAll]. destruct (Receive fuel (S size) false true true w) as [[[ok s] w1]|] eqn:E; [|done]. cbn [mbind option_bind].
  assert (Hok : ok = true → length s ≠ 0%nat).
  { intros ->. revert E. clear. revert w. induction fuel as [|fuel IHf]; intros w; [done|]. cbn [Receive]. destruct (syscall _ w) as [[t|] w']; [intros [= E <- <-]|destruct (negb _); [done|apply IHf]].
    apply Nat.ltb_lt in E. lia. }
  apply Receive_errno in E; [|lia]. cbn in E. destruct ok; [|intros [= <-]; done]. destruct (Nat.eqb_spec (length s) 0); [by destruct (Hok eq_refl)|].
  intros H. apply IH in H as [-> | ->]; [exact E|by right].
Qed.

(** What ends with the connection is lost, if it does not fill the buffer. *)
Lemma connection_reset_good fuel end_ begin buff t : (length buff + length (t_in t) < end_)%nat → (end_ + t_wait t < fuel)%nat →
  last_error (m_connector t) ≠ ECONNRESET →
  ∃ t', ReceiveBodyWithConnectionReset fuel end_ begin buff t = Some t' ∧ t_in t' = [] ∧ same_but_connection t t'.
Proof.
  intros Hl Hf He. unfold ReceiveBodyWithConnectionReset. destruct (ReceiveAll_good fuel (end_ - length buff) [] (m_connector t)) as (w & E & Hi & Ho & Hp); [unfold t_wait in Hf; lia|].
  rewrite E. apply ReceiveAll_errno in E. cbn in E.
  fold (t_in t) in *. destruct (Nat.leb_spec (end_ - length buff) (length (t_in t))); [lia|]. cbn [mbind option_bind orb app].
  destruct (Z.eqb_spec (last_error w) ECONNRESET) as [Ew|_]; [rewrite Ew in E; destruct E as [E|E]; [by destruct He|discriminate E]|].
  exists (at_ w t). split; [done|]. split; [unfold t_in; cbn; by rewrite Hi, drop_ge by (fold (t_in t); lia)|]. by repeat split.
Qed.

(** *** Chunks *)

(** A size in hexadecimal. *)
Definition size_text (h : bytes) (n : Z) : Prop := Forall (λ c, digit_ok 16 c ∧ 48 <= c) h ∧ h ≠ [] ∧ digits_value 16 h = n.

Definition chunk_text (c : bytes * bytes) : bytes := c.1 ++ CRLF ++ c.2 ++ CRLF.
Definition chunk_ok (room : nat) (c : bytes * bytes) : Prop :=
  size_text c.1 (Z.of_nat (length c.2)) ∧ c.2 ≠ [] ∧ (length c.2 + 2 <= room)%nat ∧ Z.of_nat (length c.2) + 2 < 2 ^ 31.

Lemma size_text_chars h n : size_text h n → Forall (λ c, c ≠ 0 ∧ c ≠ 10 ∧ c ≠ 13) h.
Proof. intros [H _]. eapply Forall_impl; [exact H|]. cbn. intros c [_ Hc]. lia. Qed.

Lemma size_text_reads h n more : size_text h n → n < 2 ^ 31 → sscanf_hex (h ++ CRLF ++ more) = Some n.
Proof.
  intros Hh Hn. assert (Hc := size_text_chars h n Hh). destruct Hh as (Hd & Hne & Hv). assert (Hpos := digits_value_nonneg 16 h ltac:(lia)).
  unfold sscanf_hex, strtoul. rewrite before_nul_before by (intros H0; rewrite Forall_forall in Hc; by apply Hc in H0 as []).
  rewrite (before_nul_before CRLF) by (apply (bool_decide_unpack _); by vm_compute). set (junk := CRLF ++ before_nul more).
  assert (Hx : hex_prefix (h ++ junk) = false).
  { destruct h as [|a [|b h]]; [done| |].
    - unfold junk. cbn. by rewrite andb_false_r.
    - apply Forall_cons in Hd as [_ Hd]. apply Forall_cons in Hd as [[(d & Ed & Hlt) _] _]. change ((a :: b :: h) ++ junk) with (a :: b :: (h ++ junk)).
      generalize (h ++ junk). intros [|x rest]; [done|]. cbn [hex_prefix].
      destruct (Z.eqb_spec b 120) as [->|_]; [vm_compute in Ed; injection Ed as <-; lia|].
      destruct (Z.eqb_spec b 88) as [->|_]; [vm_compute in Ed; injection Ed as <-; lia|]. cbn [orb]. by rewrite andb_false_r. }
  pose proof (scan_number_digits 16 false h junk) as E. cbn [minus_sign app length Nat.add] in E. change (base_of 16 h) with 16 in E.
  rewrite E; [|eapply Forall_impl; [exact Hd|by intros ? []]|done|eapply Forall_impl; [exact Hd|by intros ? []]| |by rewrite Hx, andb_false_r].
  - rewrite Hv. destruct (Z.leb_spec (2 ^ 64) n); [lia|]. destruct (Nat.eqb_spec (length h) 0); [by destruct h|]. by rewrite s32_small by lia.
  - unfold junk. cbn. by intros (d & Ed & _).
Qed.

Lemma strstr_size h n m more : size_text h n →
  strstr (take m (h ++ CRLF ++ more)) CRLF = if (length h + 2 <=? m)%nat then Some (length h) else None.
Proof.
  intros Hh. assert (Hc := size_text_chars h n Hh). rewrite Forall_forall in Hc. unfold strstr.
  destruct (Nat.leb_spec (length h + 2) m) as [Hle|Hlt].
  - assert (∃ k, before_nul (take m (h ++ CRLF ++ more)) = h ++ CRLF ++ k) as [k Ek].
    { rewrite take_app_ge, before_nul_before by (lia || (intros H0; by apply Hc in H0 as [])). rewrite take_app_ge by (cbn; lia).
      rewrite (before_nul_before CRLF) by (apply (bool_decide_unpack _); by vm_compute). by eexists. }
    rewrite Ek. pose proof (find_spec (h ++ CRLF ++ k) CRLF 0) as Hf.
    assert (Hat : occurs CRLF (h ++ CRLF ++ k) (length h)) by (split; [rewrite !length_app; lia|by rewrite drop_app_length]).
    destruct (find _ _ _) as [i|]; [|by destruct (Hf _ (Nat.le_0_l _) Hat)]. destruct Hf as (_ & Hi & Hmin). f_equal.
    destruct (Nat.lt_trichotomy i (length h)) as [Hl|[|Hl]]; [|done|by destruct (Hmin (length h) ltac:(lia))].
    exfalso. assert (H := occurs_lookup _ _ _ 0 13 Hi eq_refl). rewrite Nat.add_0_r, lookup_app_l in H by done.
    apply list_elem_of_lookup_2 in H. by apply Hc in H as (_ & _ & []).
  - pose proof (find_spec (before_nul (take m (h ++ CRLF ++ more))) CRLF 0) as Hf. destruct (find _ _ _) as [i|]; [|done]. exfalso.
    destruct Hf as (_ & Hi & _). assert (Hn : (∀ c, c ∈ take m (h ++ CRLF ++ more) → c ≠ 0)).
    { intros c Hin. assert (Hin' : c ∈ h ++ [13]).
      { assert (E : take m (h ++ CRLF ++ more) = take m (h ++ [13])).
        { change (h ++ CRLF ++ more) with (h ++ [13] ++ 10 :: more). rewrite (assoc_L (++)), (take_app_le (h ++ [13])) by (rewrite length_app; cbn; lia). done. }
        rewrite E in Hin. by apply (subseteq_take m). }
      apply elem_of_app in Hin' as [?|?%list_elem_of_singleton]; [by apply Hc|by subst]. }
    rewrite before_nul_id in Hi by (by apply Forall_forall).
    assert (H10 := occurs_lookup _ _ _ 1 10 Hi eq_refl). rewrite lookup_take_lt in H10 by (apply lookup_lt_Some in H10; rewrite length_take in H10; lia).
    assert (Hi' : (i + 1 < m)%nat) by (destruct Hi as [Hi _]; rewrite length_take in Hi; change (length CRLF) with 2%nat in Hi; lia).
    destruct (Nat.eq_dec (i + 1)%nat (length h)) as [Eh|Hne].
    + rewrite Eh, lookup_app_r in H10 by lia. by rewrite Nat.sub_diag in H10.
    + rewrite lookup_app_l in H10 by lia. apply list_elem_of_lookup_2 in H10. by apply Hc in H10 as (_ & [] & _).
Qed.

Lemma app_split (a b c d : bytes) : a ++ b = c ++ d → (length c <= length a)%nat → ∃ m, a = c ++ m ∧ m ++ b = d.
Proof.
  revert a. induction c as [|x c IH]; intros a E Hl; [by exists a|]. destruct a as [|y a]; [cbn in Hl; lia|]. injection E as -> E.
  destruct (IH a E) as (m & -> & Em); [cbn in Hl; lia|]. by exists m.
Qed.

(** Receiving what is missing of a chunk. *)
Lemma fill_good fuel size data t : (size <= length data + length (t_in t))%nat → (size + t_wait t < fuel)%nat →
  ∃ received w, (if Z.of_nat (length data) <? Z.of_nat size then ReceiveAll fuel (Z.to_nat (Z.of_nat size - Z.of_nat (length data))) true [] (m_connector t)
      else Some (true, [], m_connector t)) = Some (true, received, w) ∧
    received ++ in_ w = t_in t ∧ (size <= length (data ++ received))%nat ∧ out w = t_out t ∧ (wait w <= t_wait t)%nat.
Proof.
  intros Hs Hf. destruct (Z.ltb_spec (Z.of_nat (length data)) (Z.of_nat size)).
  - replace (Z.to_nat (Z.of_nat size - Z.of_nat (length data))) with (size - length data)%nat by lia.
    destruct (ReceiveAll_good fuel (size - length data) [] (m_connector t)) as (w & -> & Hi & Ho & Hp); [unfold t_wait in Hf; lia|].
    fold (t_in t) in *. destruct (Nat.leb_spec (size - length data) (length (t_in t))); [|lia]. cbn [app]. do 2 eexists. split; [done|].
    split; [by rewrite Hi, take_drop|]. split; [rewrite length_app, length_take; lia|done].
  - exists [], (m_connector t). split; [done|]. split; [done|]. split; [rewrite app_nil_r; lia|done].
Qed.

Definition chunks_text (cs : list (bytes * bytes)) (h0 rest : bytes) : bytes := concat (chunk_text <$> cs) ++ h0 ++ CRLF ++ rest.

Lemma chunk_loop_good fuel room cs h0 rest data free body t : Forall (chunk_ok room) cs → size_text h0 0 → (0 < room)%nat →
  data ++ t_in t = chunks_text cs h0 rest → Z.of_nat (length (t_in t)) + Z.of_nat room <= free →
  (length data + 2 * length (t_in t) + t_wait t + 2 < fuel)%nat →
  ∃ t', chunk_loop fuel data free body t = Some (with_body (body ++ concat (snd <$> cs)) t') ∧ same_but_connection t t'.
Proof.
  intros Hcs H0 Hroom. revert cs Hcs data free body t. induction fuel as [|fuel IH]; intros cs Hcs data free body t Es Hfree Hf; [lia|].
  cbn [chunk_loop]. destruct (Z.leb_spec (Z.of_nat (length data) + free) 0) as [|_]; [lia|].
  set (h := match cs with [] => h0 | c :: _ => c.1 end). set (n := match cs with [] => 0 | c :: _ => Z.of_nat (length c.2) end).
  set (tail := match cs with [] => rest | c :: cs => c.2 ++ CRLF ++ chunks_text cs h0 rest end).
  assert (Hh : size_text h n ∧ n < 2 ^ 31) by (destruct Hcs as [|c cs (? & _ & _ & ?) _]; cbn; [done|split; [done|lia]]). destruct Hh as [Hh Hn].
  assert (Es' : data ++ t_in t = h ++ CRLF ++ tail).
  { rewrite Es. unfold chunks_text, h, tail. destruct cs as [|c cs]; [done|]. cbn [fmap list_fmap concat]. unfold chunk_text at 1. by rewrite <- !(assoc_L (++)). }
  assert (Ed : data = take (length data) (h ++ CRLF ++ tail)) by (by rewrite <- Es', take_app_length).
  assert (Estr : strstr data CRLF = if (length h + 2 <=? length data)%nat then Some (length h) else None) by (rewrite Ed at 1; by eapply strstr_size).
  rewrite Estr. destruct (Nat.leb_spec (length h + 2) (length data)) as [Hle|Hlt].
  - assert (∃ more, data = h ++ CRLF ++ more ∧ more ++ t_in t = tail) as (more & -> & Em).
    { destruct (app_split data (t_in t) (h ++ CRLF) tail) as (more & -> & Em); [by rewrite Es', <- (assoc_L (++))|rewrite length_app; cbn; lia|].
      exists more. by rewrite (assoc_L (++)). }
    rewrite size_text_reads with (n := n) by done. 
    assert (Edrop : drop (length h + 2) (h ++ CRLF ++ more) = more) by (rewrite (assoc_L (++)); apply drop_app_length'; rewrite length_app; cbn; lia).
    rewrite Edrop. rewrite !length_app in Hf. change (length CRLF) with 2%nat in Hf. destruct Hcs as [|c cs (_ & Hne & Hr & Hmax) Hcs].
    + cbn. exists t. rewrite app_nil_r. by repeat split.
    + clear Hh Hn Es Es' Ed Estr Hle Edrop. subst h n tail. cbn [fmap list_fmap concat]. assert (Hc0 : length c.2 ≠ 0%nat) by (by destruct c.2).
      destruct (Z.eqb_spec (Z.of_nat (length c.2)) 0); [lia|]. destruct (Z.ltb_spec (Z.of_nat (length c.2) + 2) (2 ^ 31)); [|lia]. cbn [negb].
      rewrite Z.min_l by lia. replace (Z.of_nat (length c.2) + 2) with (Z.of_nat (length c.2 + 2)) by lia.
      assert (Hlen : (length c.2 + 2 <= length more + length (t_in t))%nat) by (rewrite <- length_app, Em, !length_app; cbn; lia).
      destruct (fill_good fuel (length c.2 + 2) more t Hlen) as (received & w & -> & Ei & Hfill & Ho & Hw).
      { lia. }
      cbn [mbind option_bind negb]. destruct (Z.ltb_spec (Z.of_nat (length c.2 + 2) - 2) 0); [lia|].
      rewrite Nat2Z.id. replace (Z.to_nat (Z.of_nat (length c.2 + 2) - 2)) with (length c.2) by lia.
      assert (Etail : (more ++ received) ++ in_ w = (c.2 ++ CRLF) ++ chunks_text cs h0 rest) by (by rewrite <- !(assoc_L (++)), Ei, Em).
      destruct (app_split (more ++ received) (in_ w) (c.2 ++ CRLF) (chunks_text cs h0 rest)) as (data' & Edata & Etail'); [done|rewrite length_app; cbn; lia|].
      rewrite Edata. replace (drop (length c.2 + 2) ((c.2 ++ CRLF) ++ data')) with data' by (symmetry; apply drop_app_length'; rewrite length_app; cbn; lia).
      assert (Hin : length (t_in t) = (length received + length (in_ w))%nat) by (by rewrite <- Ei, length_app).
      assert (Hsum : (length more + length received = length c.2 + 2 + length data')%nat).
      { apply (f_equal length) in Edata. rewrite !length_app in Edata. cbn in Edata. lia. }
      destruct (IH cs Hcs data' (free - Z.of_nat (length received)) (body ++ c.2) (at_ w t)) as (t' & E & Hsame); unfold t_in, t_wait in *; cbn in *; try done; try lia.
      exists t'. rewrite <- (assoc_L (++) c.2), take_app_length, E, <- (assoc_L (++)). split; [done|].
      destruct Hsame as (S1 & S2 & S3). split; [done|]. split; [done|]. unfold t_out in *. cbn in S3. congruence.
  - destruct (Receive_good fuel (Z.to_nat free) false false (m_connector t)) as (s & w & -> & Et & Hsz & Hnil & Hi & Ho & Hp); [unfold t_wait in Hf; lia..|].
    cbn [mbind option_bind]. fold (t_in t) in *. 
    assert (Hs : (0 < length s)%nat).
    { destruct s; [|cbn; lia]. specialize (Hnil eq_refl). rewrite Hnil, app_nil_r in Es'. apply (f_equal length) in Es'. rewrite !length_app in Es'. cbn in Es'. lia. }
    apply Nat.ltb_lt in Hs as Hs'. rewrite Hs'. cbn [negb].
    assert (Ei : s ++ in_ w = t_in t) by (rewrite Hi, Et at 1; by rewrite take_drop).
    assert (Hin : length (t_in t) = (length s + length (in_ w))%nat) by (by rewrite <- Ei, length_app).
    destruct (IH cs Hcs (data ++ s) (free - Z.of_nat (length s)) body (at_ w t)) as (t' & E & Hsame); rewrite ?length_app; unfold t_in, t_wait in *; cbn in *; try lia.
    { by rewrite <- (assoc_L (++)), Ei. }
    exists t'. split; [done|]. destruct Hsame as (S1 & S2 & S3). split; [done|]. split; [done|]. unfold t_out in *. cbn in S3. congruence.
Qed.
End Client.

(** ** The exchange *)

Section Exchange.
Context {F : FloatLibrary} {K : SocketSystem} {G : GoodStream} {R : DomainResolver (H := K)}.

(** What a reader that held [r0] makes of the headers of [r]. *)
Definition received (r r0 : HttpResponse) : HttpResponse :=
  mkResponse (mkMessage (printed_version (m_version (response r))) (m_headers (response r)) (m_body (response r0))) (m_status r).

Lemma response_text r : response_ok r → ∃ ls, HeadersToString r = Some (lines_text ls ++ CRLF) ∧ head_lines ls ∧
  ∀ r0, ParseHeaders (lines_text ls ++ CRLF) r0 = Some (true, Http.SUCCESS, received r r0).
Proof.
  intros Hr. destruct (response_start_line r Hr) as (s & Es & Hs & Hp). exists (s :: (header_text <$> m_headers (response r))).
  assert (E : lines_text (s :: (header_text <$> m_headers (response r))) ++ CRLF = ended s ++ Headers.ToString (headers r) ++ [13; 10]).
  { cbn [lines_text]. unfold Headers.ToString. rewrite Headers_AppendToString_eq, <- (assoc_L (++)). done. }
  rewrite E. split; [by apply HeadersToString_text|]. split; [split; [done|]|].
  - destruct Hs as (_ & Hne & H10 & _). constructor; [done|]. apply Forall_fmap. eapply Forall_impl; [exact (ok_response_headers r Hr)|].
    intros x Hx. destruct (header_line_ok x Hx) as [[Hx10 _] Hxne]. done.
  - intros r0. exact (ParseHeaders_text s _ r0 _ Hs (ok_response_headers r Hr) (Hp r0)).
Qed.

(** What may follow the headers of a response, and the body it stands for. *)
Inductive carries (r : HttpResponse) (room : nat) : bytes → bytes → Prop :=
  | no_content b : ResponseStatusHasContent (m_status r) = false → carries r room b []
  | counted b : ResponseStatusHasContent (m_status r) = true →
      is_chunked r = Some false →
      HasHeader (str "Content-Length") r = Some true → GetContentLength r = Some (Z.of_nat (length b)) → carries r room b b
  | chunked cs h0 rest : ResponseStatusHasContent (m_status r) = true →
      is_chunked r = Some true →
      Forall (chunk_ok room) cs → size_text h0 0 → carries r room (chunks_text cs h0 rest) (concat (snd <$> cs)).

Definition status_error (status : Z) (e : ErrorCode) : ErrorCode := if status =? 200 then e else ERROR_HTTP_STATUS_CODE.

Lemma ReceiveResponse_good r room b body ls fuel limit other t : response_ok r → HeadersToString r = Some (lines_text ls ++ CRLF) → head_lines ls →
  (∀ r0, ParseHeaders (lines_text ls ++ CRLF) r0 = Some (true, Http.SUCCESS, received r r0)) → 0 ∉ lines_text ls ++ CRLF →
  carries r room b body → t_in t = (lines_text ls ++ CRLF) ++ b → (0 < room)%nat → (length (t_in t) + room < limit)%nat → Z.of_nat limit < 2 ^ 63 →
  m_body (response (m_response t)) = [] → (2 * limit + t_wait t + 2 < fuel)%nat →
  ∃ t', ReceiveResponse fuel limit other t =
      Some (true, mkResponse (SetBody body (response (received r new_HttpResponse))) (m_status r), t') ∧
    m_error_code t' = status_error (m_status r) (m_error_code t) ∧ t_out t' = t_out t.
Proof.
  intros Hr Et Hls Hparse H0 Hb Ein Hroom Hlimit Hmax Hbody Hf. unfold ReceiveResponse. set (text := lines_text ls ++ CRLF) in *.
  assert (Hlen : length (t_in t) = (length text + length b)%nat) by (by rewrite Ein, length_app).
  destruct (receive_headers_good ls b fuel (limit - 1) [] t Hls H0) as (buff & t1 & E & Es & Hbuff & (Hr1 & He1 & Ho1) & Hw1); fold text; cbn; try done; try lia.
  { unfold text. rewrite length_app. cbn. lia. }
  fold text in E, Es, Hbuff. rewrite E. cbn [mbind option_bind].
  destruct (app_split buff (t_in t1) text b) as (m & -> & Em); [done|lia|]. rewrite take_app_length, Hparse. cbn [mbind option_bind negb].
  set (r1 := received r (m_response t1)). assert (Er1 : r1 = received r new_HttpResponse) by (unfold r1, received; by rewrite Hr1, Hbody).
  set (t2 := with_response r1 t1). 
  assert (Hin : (length m + length (t_in t1) = length b)%nat) by (rewrite <- Em, length_app; lia). rewrite length_app in Hbuff.
  assert (Hdone : ∀ t3, same_but_connection t2 t3 → ∀ body,
    ∃ t', Some (true, m_response (with_body body t3), if m_status (m_response (with_body body t3)) =? 200 then with_response other (with_body body t3)
        else fails ERROR_HTTP_STATUS_CODE (with_response other (with_body body t3))) =
      Some (true, mkResponse (SetBody body (response (received r new_HttpResponse))) (m_status r), t') ∧
      m_error_code t' = status_error (m_status r) (m_error_code t) ∧ t_out t' = t_out t).
  { intros t3 (S1 & S2 & S3) bd. unfold with_body at 1 2. cbn [with_response m_response]. rewrite S1. cbn [t2 with_response m_response]. rewrite Er1. cbn [m_status received].
    eexists. split; [done|]. unfold status_error. destruct (m_status r =? 200); cbn; (split; [|unfold t_out in *; cbn in *; congruence]); cbn in S2; congruence. }
  destruct Hb as [b Hs|b Hs Hte Hcl Hgl|cs h0 rest Hs Hte Hcs Hz].
  - change (m_status r1) with (m_status r). rewrite Hs. cbn [negb]. assert (Ew : with_body [] t2 = t2).
    { unfold with_body, t2. cbn [with_response m_response m_connector m_error_code]. rewrite Er1. done. }
    assert (Hsame : same_but_connection t2 t2) by (by repeat split). specialize (Hdone t2 Hsame []). rewrite Ew in Hdone. exact Hdone.
  - change (m_status r1) with (m_status r). rewrite Hs. cbn [negb].
    change (is_chunked r1) with (is_chunked r).
    rewrite Hte. cbn [mbind option_bind]. match goal with |- context [HasHeader ?n r1] => change (HasHeader n r1) with (HasHeader (str "Content-Length") r) end.
    rewrite Hcl. cbn [mbind option_bind].
    destruct (content_length_good fuel (limit - 1) (length text) (text ++ m) b t2) as (t3 & -> & _ & Hsame).
    + exact Hgl.
    + by rewrite drop_app_length.
    + rewrite length_app. change (t_in t2) with (t_in t1). lia.
    + lia.
    + change (t_wait t2) with (t_wait t1). lia.
    + cbn [fmap option_fmap option_map]. by apply Hdone.
  - change (m_status r1) with (m_status r). rewrite Hs. cbn [negb].
    change (is_chunked r1) with (is_chunked r).
    rewrite Hte. cbn [mbind option_bind]. unfold ReceiveBodyWithChunks. rewrite drop_app_length.
    destruct (chunk_loop_good fuel room cs h0 rest m (Z.of_nat (limit - 1 - length (text ++ m))) [] t2) as (t3 & -> & Hsame); try done.
    + rewrite length_app. change (t_in t2) with (t_in t1). lia.
    + change (t_in t2) with (t_in t1). change (t_wait t2) with (t_wait t1). lia.
    + cbn [fmap option_fmap option_map app]. by apply Hdone.
Qed.

(** What [prepare] keeps of the request. *)
Definition keeps (r r' : HttpRequest) : Prop := m_method r' = m_method r ∧ m_body (message r') = m_body (message r) ∧ m_version (message r') = m_version (message r).

Lemma SetHeader_keeps name value r r' : SetHeader name value r = Some r' → keeps r r'.
Proof. unfold SetHeader. destruct (Headers.Set_ name value (headers r)); [|done]. by intros [= <-]. Qed.

Lemma append_headers_keeps k count h r r' : append_headers k count h r = Some r' → keeps r r'.
Proof.
  revert k r. induction count as [|count IH]; intros k r; cbn; [by intros [= <-]|]. destruct (Headers.GetAt (Z.of_nat k) h); [|done]. apply IH.
Qed.

Lemma keeps_trans a b c : keeps a b → keeps b c → keeps a c.
Proof. intros (? & ? & ?) (? & ? & ?). repeat split; congruence. Qed.

Lemma prepare_keeps client url options r r' host port : prepare client url options r = Some (inl (r', host, port)) → keeps r r'.
Proof.
  unfold prepare. destruct (Parse url new_URI) as [[] uri]; [|done]. cbn [negb]. destruct (AppendHeaderToRequest _ r) as [r1|] eqn:E1; [|done]. cbn [mbind option_bind].
  destruct (SetHeader _ _ r1) as [r2|] eqn:E2; [|done]. cbn [mbind option_bind]. destruct (SetHeader _ _ r2) as [r3|] eqn:E3; [|done]. cbn [mbind option_bind].
  destruct (_ && _)%bool; [done|]. destruct (if HasPort _ then _ else _) as [port_str|]; [|done]. destruct (StringToNumber _ _) as [n|]; [|done].
  intros [= <- _ _]. apply append_headers_keeps in E1. apply SetHeader_keeps in E2, E3.
  apply (keeps_trans _ _ _ E1), (keeps_trans _ _ _ E2). exact E3.
Qed.

Lemma new_request_keeps method data r : new_request method data = Some r → m_method r = method ∧ m_body (message r) = data.
Proof. intros E. apply SetHeader_keeps in E as (-> & -> & _). done. Qed.

End Exchange.

#[local] Existing Instance digits_float.

Definition demo_options : Options := mkOptions [(str "Accept", str "*/*")] 200.
Definition demo_client : HttpClient := SetUserAgent (str "me") new_HttpClient.
Definition demo_new : HttpRequest := default new_HttpRequest (new_request METHOD_POST (str "data")).
Definition demo_sent : HttpRequest :=
  mkRequest (mkMessage (new_HttpVersion 1 1)
    [(str "Content-Length", str "4"); (str "Accept", str "*/*"); (str "User-Agent", str "me"); (str "Host", str "host")] (str "data")) METHOD_POST (str "/a?b").
Definition demo_response : HttpResponse :=
  mkResponse (mkMessage (new_HttpVersion 1 1) [(str "Transfer-Encoding", str "chunked")] []) 200.
Definition demo_chunks : list (bytes * bytes) := [(str "5", str "hello"); (str "6", str " world")].
Definition demo_text : bytes := default [] (HeadersToString demo_response).
Definition demo_connection : World :=
  mkWorld (mkPipe (demo_text ++ chunks_text demo_chunks (str "0") CRLF) [] [None; Some 3%nat; Some 60%nat; None; Some 2%nat; Some 0%nat]) 0.

Lemma demo_size h n : bool_decide (Forall (λ c, is_Some (digit_value c) ∧ (default 16 (digit_value c) < 16) ∧ 48 <= c) h) = true → h ≠ [] →
  digits_value 16 h = n → size_text h n.
Proof.
  intros H%bool_decide_eq_true Hne Hv. split; [|done]. eapply Forall_impl; [exact H|]. cbn. intros c ([d Ed] & Hd & Hc). rewrite Ed in Hd. split; [by exists d|done].
Qed.

