(* ===== verification/Int128.v ===== *)
(** * Unsigned integers of 128 bits

    Model of base/int128: two words of 64 bits with the operators that the
    class defines, and that they are those of numbers modulo 2^128. *)

From S2P Require Import Prelude.

Record UInt128 := mkUInt128 { hi_ : Z; lo_ : Z }.

Definition UInt128_of_uint64 (bottom : Z) : UInt128 := mkUInt128 0 bottom.
(** From an [int], whose sign is extended. *)
Definition UInt128_of_int (bottom : Z) : UInt128 := mkUInt128 (if bottom <? 0 then u64 (0 - 1) else 0) (u64 bottom).
Definition kUInt128Max : UInt128 := mkUInt128 (2 ^ 64 - 1) (2 ^ 64 - 1).

Definition eq (a b : UInt128) : bool := ((lo_ a =? lo_ b) && (hi_ a =? hi_ b))%bool.
Definition ne (a b : UInt128) : bool := negb (eq a b).
(** [CMP128(op)] *)
Definition compare (op : Z → Z → bool) (a b : UInt128) : bool := if hi_ a =? hi_ b then op (lo_ a) (lo_ b) else op (hi_ a) (hi_ b).
Definition lt := compare Z.ltb.
Definition gt := compare Z.gtb.
Definition ge := compare Z.geb.
Definition le := compare Z.leb.

Definition not (a : UInt128) : UInt128 := mkUInt128 (u64 (Z.lnot (hi_ a))) (u64 (Z.lnot (lo_ a))).
(** [LOGIC128(op)] *)
Definition logic (op : Z → Z → Z) (a b : UInt128) : UInt128 := mkUInt128 (op (hi_ a) (hi_ b)) (op (lo_ a) (lo_ b)).
Definition or := logic Z.lor.
Definition and := logic Z.land.
Definition xor := logic Z.lxor.

(** [+=] and [-=] with another object, and with them [+] and [-]. *)
Definition add (a b : UInt128) : UInt128 :=
  let hi := u64 (hi_ a + hi_ b) in
  let lo := u64 (lo_ a + lo_ b) in
  mkUInt128 (if lo <? lo_ b then u64 (hi + 1) else hi) lo.
Definition sub (a b : UInt128) : UInt128 :=
  let hi := u64 (hi_ a - hi_ b) in
  mkUInt128 (if lo_ a <? lo_ b then u64 (hi - 1) else hi) (u64 (lo_ a - lo_ b)).
(** [a += a]: the operand changes with the object, and so the carry is lost. *)
Definition add_to_itself (a : UInt128) : UInt128 :=
  let hi := u64 (hi_ a + hi_ a) in
  let lo := u64 (lo_ a + lo_ a) in
  mkUInt128 (if lo <? lo then u64 (hi + 1) else hi) lo.
Example carry_lost : let a := mkUInt128 0 (2 ^ 63) in (add_to_itself a, add a a) = (mkUInt128 0 0, mkUInt128 1 0).
Proof. by vm_compute. Qed.
Definition increment (a : UInt128) : UInt128 := add a (UInt128_of_int 1).
Definition decrement (a : UInt128) : UInt128 := sub a (UInt128_of_int 1).

(** A negative amount is a failed DCHECK. *)
Definition shl (a : UInt128) (amount : Z) : option UInt128 :=
  if amount <? 0 then None
  else Some (
    if amount <? 64 then
      if amount =? 0 then a
      else mkUInt128 (Z.lor (u64 (Z.shiftl (hi_ a) amount)) (Z.shiftr (lo_ a) (64 - amount))) (u64 (Z.shiftl (lo_ a) amount))
    else if amount <? 128 then mkUInt128 (u64 (Z.shiftl (lo_ a) (amount - 64))) 0
    else mkUInt128 0 0).
Definition shr (a : UInt128) (amount : Z) : option UInt128 :=
  if amount <? 0 then None
  else Some (
    if amount <? 64 then
      if amount =? 0 then a
      else mkUInt128 (Z.shiftr (hi_ a) amount) (Z.lor (Z.shiftr (lo_ a) amount) (u64 (Z.shiftl (hi_ a) (64 - amount))))
    else if amount <? 128 then mkUInt128 0 (Z.shiftr (hi_ a) (amount - 64))
    else mkUInt128 0 0).

(** ** The number that the words denote *)

Definition value (a : UInt128) : Z := hi_ a * 2 ^ 64 + lo_ a.
Definition word (x : Z) : Prop := 0 <= x < 2 ^ 64.
Definition words (a : UInt128) : Prop := word (hi_ a) ∧ word (lo_ a).
Definition u128 (x : Z) : Z := x mod 2 ^ 128.

Lemma u64_word x : word (u64 x).
Proof. apply Z.mod_pos_bound. lia. Qed.

Lemma value_bound a : words a → 0 <= value a < 2 ^ 128.
Proof. unfold words, word, value. intros []. change (2 ^ 128) with (2 ^ 64 * 2 ^ 64). nia. Qed.

Lemma u128_unique x v k : 0 <= v < 2 ^ 128 → x = v + k * 2 ^ 128 → v = u128 x.
Proof. intros Hv ->. unfold u128. by rewrite Z.mod_add, Z.mod_small by lia. Qed.

(** Bits of words and of what they denote. *)
Lemma word_testbit x m : word x → 64 <= m → Z.testbit x m = false.
Proof.
  intros Hx Hm. destruct (Z.eq_dec x 0) as [->|]; [apply Z.testbit_0_l|]. apply Z.bits_above_log2; [apply Hx|].
  assert (Z.log2 x < 64); [|lia]. apply Z.log2_lt_pow2; unfold word in Hx; lia.
Qed.

Lemma testbit_words a m : words a → 0 <= m → Z.testbit (value a) m = if m <? 64 then Z.testbit (lo_ a) m else Z.testbit (hi_ a) (m - 64).
Proof.
  intros [Hh Hl] Hm. assert (E : value a = Z.lor (Z.shiftl (hi_ a) 64) (lo_ a)).
  { unfold value. rewrite Z.lor_comm, lor_shiftl_add by (unfold word in *; lia). lia. }
  rewrite E, Z.lor_spec, Z.shiftl_spec by done. destruct (Z.ltb_spec m 64).
  - by rewrite (Z.testbit_neg_r (hi_ a)) by lia.
  - by rewrite (word_testbit (lo_ a)), orb_false_r by done.
Qed.

Lemma bits_equal a x : words a → 0 <= x → (∀ m, 0 <= m → (if m <? 64 then Z.testbit (lo_ a) m else Z.testbit (hi_ a) (m - 64)) = Z.testbit x m) → value a = x.
Proof. intros Ha Hx H. apply Z.bits_inj'. intros m Hm. by rewrite testbit_words, H. Qed.

Lemma u64_parts x : ∃ k, x = u64 x + k * 2 ^ 64.
Proof. exists (x / 2 ^ 64). unfold u64. pose proof (Z.div_mod x (2 ^ 64)). lia. Qed.

Lemma add_value a b : words a → words b → words (add a b) ∧ value (add a b) = u128 (value a + value b).
Proof.
  intros [Ha1 Ha2] [Hb1 Hb2]. unfold add. pose proof (u64_word (hi_ a + hi_ b)) as Hh. pose proof (u64_word (lo_ a + lo_ b)) as Hl.
  pose proof (u64_word (u64 (hi_ a + hi_ b) + 1)) as Hh1. destruct (u64_parts (hi_ a + hi_ b)) as [k Ek]. destruct (u64_parts (lo_ a + lo_ b)) as [j Ej].
  destruct (u64_parts (u64 (hi_ a + hi_ b) + 1)) as [i Ei]. set (h := u64 (hi_ a + hi_ b)) in *. set (l := u64 (lo_ a + lo_ b)) in *. set (h1 := u64 (h + 1)) in *.
  assert (Hw : words (mkUInt128 (if l <? lo_ b then h1 else h) l)) by (split; cbn; [by destruct (l <? lo_ b)|done]). split; [done|].
  pose proof (value_bound _ Hw) as Hv. unfold value in *. cbn in *. unfold word in *. clearbody h l h1. destruct (Z.ltb_spec l (lo_ b)).
  - assert (j = 1) as -> by nia. apply (u128_unique _ _ (k + i) Hv). change (2 ^ 128) with (2 ^ 64 * 2 ^ 64). lia.
  - assert (j = 0) as -> by nia. apply (u128_unique _ _ k Hv). change (2 ^ 128) with (2 ^ 64 * 2 ^ 64). lia.
Qed.

Lemma sub_value a b : words a → words b → words (sub a b) ∧ value (sub a b) = u128 (value a - value b).
Proof.
  intros [Ha1 Ha2] [Hb1 Hb2]. unfold sub. pose proof (u64_word (hi_ a - hi_ b)) as Hh. pose proof (u64_word (lo_ a - lo_ b)) as Hl.
  pose proof (u64_word (u64 (hi_ a - hi_ b) - 1)) as Hh1. destruct (u64_parts (hi_ a - hi_ b)) as [k Ek]. destruct (u64_parts (lo_ a - lo_ b)) as [j Ej].
  destruct (u64_parts (u64 (hi_ a - hi_ b) - 1)) as [i Ei]. set (h := u64 (hi_ a - hi_ b)) in *. set (l := u64 (lo_ a - lo_ b)) in *. set (h1 := u64 (h - 1)) in *.
  assert (Hw : words (mkUInt128 (if lo_ a <? lo_ b then h1 else h) l)) by (split; cbn; [by destruct (lo_ a <? lo_ b)|done]). split; [done|].
  pose proof (value_bound _ Hw) as Hv. unfold value in *. cbn in *. unfold word in *. clearbody h l h1. destruct (Z.ltb_spec (lo_ a) (lo_ b)).
  - assert (j = -1) as -> by nia. apply (u128_unique _ _ (k + i) Hv). change (2 ^ 128) with (2 ^ 64 * 2 ^ 64). lia.
  - assert (j = 0) as -> by nia. apply (u128_unique _ _ k Hv). change (2 ^ 128) with (2 ^ 64 * 2 ^ 64). lia.
Qed.

Lemma word_intro x : 0 <= x → (∀ m, 64 <= m → Z.testbit x m = false) → word x.
Proof.
  intros Hx H. split; [done|]. destruct (Z.eq_dec x 0) as [->|]; [lia|]. apply Z.log2_lt_pow2; [lia|].
  destruct (Z.lt_ge_cases (Z.log2 x) 64) as [|Hge]; [done|]. specialize (H _ Hge). rewrite Z.bit_log2 in H by lia. done.
Qed.

(** An operator on bits that keeps 0 is one on words and on numbers. *)
Lemma logic_value op f a b : (∀ x y m, 0 <= m → Z.testbit (op x y) m = f (Z.testbit x m) (Z.testbit y m)) → f false false = false →
  (∀ x y, 0 <= x → 0 <= y → 0 <= op x y) → words a → words b → words (logic op a b) ∧ value (logic op a b) = op (value a) (value b).
Proof.
  intros Hop Hf Hpos Ha Hb. assert (Hw : words (logic op a b)).
  { destruct Ha as [Ha1 Ha2], Hb as [Hb1 Hb2]. split; cbn; (apply word_intro; [apply Hpos; unfold word in *; lia|]); intros m Hm;
      rewrite Hop, !word_testbit by (done || lia); done. }
  split; [done|]. apply bits_equal; [done|apply Hpos; by apply value_bound|]. intros m Hm. rewrite Hop, !testbit_words by done. cbn.
  destruct (Z.ltb_spec m 64); rewrite Hop by lia; done.
Qed.

Lemma not_value a : words a → words (not a) ∧ value (not a) = u128 (Z.lnot (value a)).
Proof.
  intros [Ha1 Ha2]. split; [split; apply u64_word|]. unfold value, not, Z.lnot. cbn. unfold word in *.
  assert (E : ∀ x, 0 <= x < 2 ^ 64 → u64 (Z.pred (- x)) = 2 ^ 64 - 1 - x).
  { intros x Hx. unfold u64. rewrite <- (Z.mod_add _ 1), Z.mod_small by lia. lia. }
  rewrite !E by done. apply (u128_unique _ _ (-1)); change (2 ^ 128) with (2 ^ 64 * 2 ^ 64); nia.
Qed.

Lemma shl_value a n : words a → 0 <= n → ∃ c, shl a n = Some c ∧ words c ∧ value c = u128 (Z.shiftl (value a) n).
Proof.
  intros Ha Hn. destruct (Ha) as [Ha1 Ha2]. unfold shl. destruct (Z.ltb_spec n 0); [lia|]. eexists. split; [done|].
  assert (Hbits : ∀ c, words c → (∀ m, 0 <= m < 128 → (if m <? 64 then Z.testbit (lo_ c) m else Z.testbit (hi_ c) (m - 64)) = Z.testbit (value a) (m - n)) →
    words c ∧ value c = u128 (Z.shiftl (value a) n)).
  { intros c Hc H'. split; [done|]. apply bits_equal; [done|apply Z.mod_pos_bound; lia|]. intros m Hm. unfold u128.
    destruct (Z.lt_ge_cases m 128).
    - rewrite H', Z.mod_pow2_bits_low, Z.shiftl_spec by lia. done.
    - rewrite Z.mod_pow2_bits_high by lia. destruct (Z.ltb_spec m 64); [lia|]. apply word_testbit; [apply Hc|lia]. }
  apply Hbits.
  - destruct (Z.ltb_spec n 64); [destruct (n =? 0)|destruct (n <? 128)]; (split; cbn; try done; try apply u64_word; try (by unfold word)).
    apply word_intro; [apply Z.lor_nonneg; split; [apply u64_word|apply Z.shiftr_nonneg, Ha2]|]. intros m Hm.
    rewrite Z.lor_spec, (word_testbit (u64 _)), Z.shiftr_spec, word_testbit by (apply u64_word || done || lia). done.
  - intros m Hm. destruct (Z.ltb_spec n 64); [destruct (Z.eqb_spec n 0) as [->|]|destruct (Z.ltb_spec n 128)]; cbn.
    + rewrite Z.sub_0_r, testbit_words by (done || lia). done.
    + destruct (Z.ltb_spec m 64).
      * unfold u64. rewrite Z.mod_pow2_bits_low, Z.shiftl_spec by lia. destruct (Z.lt_ge_cases m n); [by rewrite !Z.testbit_neg_r by lia|].
        rewrite testbit_words by (done || lia). by destruct (Z.ltb_spec (m - n) 64); [|lia].
      * unfold u64. rewrite Z.lor_spec, Z.mod_pow2_bits_low, Z.shiftl_spec, Z.shiftr_spec, testbit_words by (done || lia). destruct (Z.ltb_spec (m - n) 64).
        -- rewrite (Z.testbit_neg_r (hi_ a)) by lia. cbn. f_equal. lia.
        -- rewrite (word_testbit (lo_ a)), orb_false_r by (done || lia). f_equal. lia.
    + destruct (Z.ltb_spec m 64); [by rewrite Z.testbit_0_l, Z.testbit_neg_r by lia|].
      unfold u64. rewrite Z.mod_pow2_bits_low, Z.shiftl_spec by lia. destruct (Z.lt_ge_cases m n); [by rewrite !Z.testbit_neg_r by lia|].
      rewrite testbit_words by (done || lia). destruct (Z.ltb_spec (m - n) 64); [f_equal; lia|lia].
    + rewrite (Z.testbit_neg_r (value a)) by lia. by destruct (m <? 64); rewrite Z.testbit_0_l.
Qed.

Lemma shr_value a n : words a → 0 <= n → ∃ c, shr a n = Some c ∧ words c ∧ value c = Z.shiftr (value a) n.
Proof.
  intros Ha Hn. destruct (Ha) as [Ha1 Ha2]. unfold shr. destruct (Z.ltb_spec n 0); [lia|]. eexists. split; [done|].
  assert (Hshr : ∀ x k, 0 <= k → word x → word (Z.shiftr x k)).
  { intros x k Hk Hx. apply word_intro; [apply Z.shiftr_nonneg, Hx|]. intros m Hm. rewrite Z.shiftr_spec, word_testbit by (done || lia). done. }
  set (c := if n <? 64 then _ else _). assert (Hc : words c).
  { unfold c. destruct (Z.ltb_spec n 64); [destruct (n =? 0)|destruct (Z.ltb_spec n 128)]; (split; cbn; try done; try (apply Hshr; done || lia); try (by unfold word)).
    apply word_intro; [apply Z.lor_nonneg; split; [apply Z.shiftr_nonneg, Ha2|apply u64_word]|]. intros m Hm.
    rewrite Z.lor_spec, (word_testbit (u64 _)), (word_testbit (Z.shiftr _ _)) by (apply u64_word || (apply Hshr; done) || done || lia). done. }
  split; [done|]. apply bits_equal; [done|apply Z.shiftr_nonneg; by apply value_bound|]. intros m Hm. rewrite Z.shiftr_spec, testbit_words by (done || lia).
  unfold c. destruct (Z.ltb_spec n 64); [destruct (Z.eqb_spec n 0) as [->|]|destruct (Z.ltb_spec n 128)]; cbn.
  - by rewrite Z.add_0_r.
  - destruct (Z.ltb_spec m 64).
    + unfold u64. rewrite Z.lor_spec, Z.shiftr_spec, Z.mod_pow2_bits_low, Z.shiftl_spec by lia. destruct (Z.ltb_spec (m + n) 64).
      * rewrite (Z.testbit_neg_r (hi_ a)), orb_false_r by lia. done.
      * rewrite (word_testbit (lo_ a)) by (done || lia). cbn. f_equal. lia.
    + rewrite Z.shiftr_spec by lia. destruct (Z.ltb_spec (m + n) 64); [lia|]. f_equal. lia.
  - destruct (Z.ltb_spec (m + n) 64); [lia|]. destruct (Z.ltb_spec m 64); [rewrite Z.shiftr_spec by lia; f_equal; lia|].
    rewrite Z.testbit_0_l, word_testbit by (done || lia). done.
  - destruct (Z.ltb_spec (m + n) 64); [lia|]. rewrite (word_testbit (hi_ a)) by (done || lia). by destruct (m <? 64); rewrite Z.testbit_0_l.
Qed.

Lemma compare_value a b : words a → words b →
  lt a b = (value a <? value b) ∧ gt a b = (value b <? value a) ∧ le a b = (value a <=? value b) ∧ ge a b = (value b <=? value a) ∧
  eq a b = (value a =? value b).
Proof.
  intros [Ha1 Ha2] [Hb1 Hb2]. unfold lt, gt, le, ge, eq, compare, value, word in *. rewrite !Z.gtb_ltb, !Z.geb_leb.
  assert (Hc : hi_ a < hi_ b → hi_ a * 2 ^ 64 + lo_ a < hi_ b * 2 ^ 64 + lo_ b) by nia.
  assert (Hc' : hi_ b < hi_ a → hi_ b * 2 ^ 64 + lo_ b < hi_ a * 2 ^ 64 + lo_ a) by nia.
  destruct (Z.eqb_spec (hi_ a) (hi_ b)) as [E|E].
  - rewrite E in *. split_and!; apply eq_true_iff_eq; rewrite ?andb_true_iff, ?Z.ltb_lt, ?Z.leb_le, ?Z.eqb_eq; lia.
  - rewrite andb_false_r. split_and!; apply eq_true_iff_eq; rewrite ?Z.ltb_lt, ?Z.leb_le, ?Z.eqb_eq; split; intros; try done; lia.
Qed.

(** The operators are those of numbers modulo 2^128: sums, differences and left
    shifts wrap, right shifts and comparisons are exact, and the operators on
    bits act on the bits of the number. *)
Theorem uint128_operators a b n : words a → words b →
  value (add a b) = u128 (value a + value b) ∧ value (sub a b) = u128 (value a - value b) ∧
  value (increment a) = u128 (value a + 1) ∧ value (decrement a) = u128 (value a - 1) ∧
  value (or a b) = Z.lor (value a) (value b) ∧ value (and a b) = Z.land (value a) (value b) ∧
  value (xor a b) = Z.lxor (value a) (value b) ∧ value (not a) = u128 (Z.lnot (value a)) ∧
  (lt a b = (value a <? value b) ∧ gt a b = (value b <? value a) ∧ le a b = (value a <=? value b) ∧ ge a b = (value b <=? value a) ∧
   eq a b = (value a =? value b)) ∧
  (0 <= n → ∃ l r, shl a n = Some l ∧ value l = u128 (Z.shiftl (value a) n) ∧ shr a n = Some r ∧ value r = Z.shiftr (value a) n).
Proof.
  intros Ha Hb. assert (H1 : words (UInt128_of_int 1)) by by split.
  split; [by apply add_value|]. split; [by apply sub_value|]. split; [by apply (add_value a (UInt128_of_int 1))|]. split; [by apply (sub_value a (UInt128_of_int 1))|].
  split; [apply (logic_value Z.lor orb); try done; [intros; by apply Z.lor_spec|intros; by apply Z.lor_nonneg]|].
  split; [apply (logic_value Z.land andb); try done; [intros; by apply Z.land_spec|intros; apply Z.land_nonneg; by left]|].
  split; [apply (logic_value Z.lxor xorb); try done; [intros; by apply Z.lxor_spec|intros; by apply Z.lxor_nonneg]|].
  split; [by apply not_value|]. split; [by apply compare_value|]. intros Hn.
  destruct (shl_value a n Ha Hn) as (l & El & _ & Hl), (shr_value a n Ha Hn) as (r & Er & _ & Hr). by exists l, r.
Qed.

Lemma uint128_operators_witness : let a := mkUInt128 3 (2 ^ 64 - 1) in
  value (add a (mkUInt128 (2 ^ 64 - 4) 1)) = 0 ∧ ∃ l, shl a 60 = Some l ∧ value l = u128 (Z.shiftl (value a) 60).
Proof.
  intros a. destruct (uint128_operators a (mkUInt128 (2 ^ 64 - 4) 1) 60) as (H & _ & _ & _ & _ & _ & _ & _ & _ & Hs); [by split|by split|].
  split; [exact H|]. destruct Hs as (l & r & El & Hl & _); [done|]. by exists l.
Defined.
