(* ===== verification/MemPool.v ===== *)
(** * The pool of memory blocks

    Model of system/memory/mempool: blocks of sixteen sizes, of which some are
    kept when they are freed, and blocks of any larger size.

    The memory is a map from the addresses of blocks to their headers; a
    pointer that is given out is the block's address, and the bytes behind the
    header are not modelled.  A method is one step: what it does outside the
    lock touches its own block and counts only.  [None] is a failed
    assertion, or a header that is not there or has no room; the system is
    not out of memory. *)

From S2P Require Import Prelude Occurrences.

Record BLOCK_HEADER := mkHeader { Magic : bytes; Index : Z; Size : Z }.

Definition MIN_UNIT_SIZE : Z := 1024.
Definition MAX_UNIT_SIZE : Z := 16 * 2048 * MIN_UNIT_SIZE.
Definition MAX_INDEX : nat := 16.
Definition sizeof_BLOCK_HEADER : Z := 8.

(** The size and the number of blocks kept. *)
Definition s_BlockConfig : list (Z * nat) :=
  [(MIN_UNIT_SIZE, 50%nat); (2 * MIN_UNIT_SIZE, 50%nat); (4 * MIN_UNIT_SIZE, 50%nat); (8 * MIN_UNIT_SIZE, 50%nat); (16 * MIN_UNIT_SIZE, 50%nat);
   (32 * MIN_UNIT_SIZE, 50%nat); (64 * MIN_UNIT_SIZE, 50%nat); (128 * MIN_UNIT_SIZE, 8%nat); (256 * MIN_UNIT_SIZE, 4%nat); (512 * MIN_UNIT_SIZE, 2%nat);
   (1024 * MIN_UNIT_SIZE, 1%nat); (2048 * MIN_UNIT_SIZE, 1%nat); (4096 * MIN_UNIT_SIZE, 1%nat); (8192 * MIN_UNIT_SIZE, 1%nat);
   (16384 * MIN_UNIT_SIZE, 1%nat); (32768 * MIN_UNIT_SIZE, 1%nat)].

Record MemPool := mkMemPool {
  m_memPool : list (list positive);
  m_allocated_memory_size : Z;
  m_pooled_memory_size : Z;
  m_dwAllocateCount : Z;
  m_dwFreeCount : Z;
  m_dwNewCount : Z;
  m_dwDeleteCount : Z
}.

(** The pool and the memory, with the address that is next. *)
Record State := mkState { pool : MemPool; blocks : gmap positive BLOCK_HEADER; next : positive }.

Definition new_MemPool (dwMaxMemSize : Z) : option MemPool :=
  if ((MIN_UNIT_SIZE <=? dwMaxMemSize) && (dwMaxMemSize mod MIN_UNIT_SIZE =? 0) && (dwMaxMemSize <=? MAX_UNIT_SIZE))%bool
  then Some (mkMemPool (replicate MAX_INDEX []) 0 0 0 0 0 0) else None.

Definition IsValidMemoryBlock (h : BLOCK_HEADER) : bool :=
  if negb (bool_decide (Magic h = str "MP")) then false
  else if Index h =? -1 then MAX_UNIT_SIZE <? Size h
  else ((Index h <? Z.of_nat MAX_INDEX) && (Size h <=? MAX_UNIT_SIZE))%bool.

(** [std::lower_bound]: the first size that is not less. *)
Fixpoint lower_bound (configs : list (Z * nat)) (size : Z) : nat :=
  match configs with
  | [] => 0%nat
  | (s, _) :: configs => if s <? size then S (lower_bound configs size) else 0%nat
  end.
Definition GetUnitIndex (dwSize : Z) : nat := lower_bound s_BlockConfig dwSize.

Definition config_size (i : nat) : Z := default 0 (fst <$> s_BlockConfig !! i).
Definition cache_count (i : nat) : nat := default 0%nat (snd <$> s_BlockConfig !! i).

Definition set_queue (i : nat) (q : list positive) (pooled : Z) (p : MemPool) : MemPool :=
  mkMemPool (<[i := q]> (m_memPool p)) (m_allocated_memory_size p) pooled (m_dwAllocateCount p) (m_dwFreeCount p) (m_dwNewCount p) (m_dwDeleteCount p).

(** [operator new], which is counted. *)
Definition new_block (h : BLOCK_HEADER) (s : State) : positive * State :=
  let p := pool s in
  (next s, mkState (mkMemPool (m_memPool p) (m_allocated_memory_size p) (m_pooled_memory_size p) (m_dwAllocateCount p) (m_dwFreeCount p)
    (u64 (m_dwNewCount p + 1)) (m_dwDeleteCount p)) (<[next s := h]> (blocks s)) (Pos.succ (next s))).

(** The size is put into 32 bits. *)
Definition AllocateBlock (index : nat) (s : State) : positive * State :=
  new_block (mkHeader (str "MP") (Z.of_nat index) (u32 (config_size index))) s.
Definition AllocateLargeBlock (size : Z) (s : State) : option (positive * State) :=
  if u64 (sizeof_BLOCK_HEADER + size) <? sizeof_BLOCK_HEADER then None
  else Some (new_block (mkHeader (str "MP") (-1) (u32 size)) s).

Definition FreeBlock (b : positive) (s : State) : State :=
  let p := pool s in
  mkState (mkMemPool (m_memPool p) (m_allocated_memory_size p) (m_pooled_memory_size p) (m_dwAllocateCount p) (m_dwFreeCount p)
    (m_dwNewCount p) (u64 (m_dwDeleteCount p + 1))) (delete b (blocks s)) (next s).

(** Taking a block from a queue. *)
Definition take_block (i : nat) (s : State) : option positive * State :=
  match m_memPool (pool s) !! i with
  | Some (b :: q) => (Some b, mkState (set_queue i q (u64 (m_pooled_memory_size (pool s) - config_size i)) (pool s)) (blocks s) (next s))
  | _ => (None, s)
  end.

Definition Allocate (dwSize : Z) (s : State) : option (option positive * State) :=
  if dwSize =? 0 then Some (None, s)
  else
    let i := GetUnitIndex dwSize in
    '(b, s) ← (if (MAX_INDEX <=? i)%nat then AllocateLargeBlock dwSize s
               else Some match take_block i s with (Some b, s) => (b, s) | (None, s) => AllocateBlock i s end);
    h ← blocks s !! b;
    let p := pool s in
    Some (Some b, mkState (mkMemPool (m_memPool p) (u64 (m_allocated_memory_size p + Size h)) (m_pooled_memory_size p)
      (u64 (m_dwAllocateCount p + 1)) (m_dwFreeCount p) (m_dwNewCount p) (m_dwDeleteCount p)) (blocks s) (next s)).

Definition Free (p : option positive) (s : State) : option State :=
  match p with
  | None => Some s
  | Some b =>
      h ← blocks s !! b;
      if negb (IsValidMemoryBlock h) then None
      else
        s ← (if Index h =? -1 then Some (FreeBlock b s)
             else
               let i := Z.to_nat (Index h) in
               q ← (if Index h <? 0 then None else m_memPool (pool s) !! i);
               Some (if (length q <? cache_count i)%nat
                     then mkState (set_queue i (q ++ [b]) (u64 (m_pooled_memory_size (pool s) + config_size i)) (pool s)) (blocks s) (next s)
                     else FreeBlock b s));
        let p := pool s in
        Some (mkState (mkMemPool (m_memPool p) (u64 (m_allocated_memory_size p - Size h)) (m_pooled_memory_size p) (m_dwAllocateCount p)
          (u64 (m_dwFreeCount p + 1)) (m_dwNewCount p) (m_dwDeleteCount p)) (blocks s) (next s))
  end.

Definition GetBlockSize (ptr : option positive) (s : State) : option Z :=
  match ptr with Some b => Size <$> blocks s !! b | None => Some 0 end.
Definition GetAllocatedSize (s : State) : Z := m_allocated_memory_size (pool s).
Definition GetPooledSize (s : State) : Z := m_pooled_memory_size (pool s).

(** The destructor frees what is kept. *)
Definition Destroy (s : State) : State := foldr FreeBlock s (concat (m_memPool (pool s))).

(** The bound on the sizes is not kept. *)
Example max_size_ignored : (λ p, fst <$> Allocate (MAX_UNIT_SIZE + 1) (mkState p ∅ 1)) <$> new_MemPool MIN_UNIT_SIZE = Some (Some (Some 1%positive)).
Proof. by vm_compute. Qed.

(** A block of 4 GiB cannot be freed. *)
Example huge_block : (p ← new_MemPool MIN_UNIT_SIZE; '(b, s) ← Allocate (2 ^ 32) (mkState p ∅ 1); Free b s) = None.
Proof. by vm_compute. Qed.

(** The size of a block with its header wraps. *)
Example no_room : (p ← new_MemPool MIN_UNIT_SIZE; Allocate (2 ^ 64 - 8) (mkState p ∅ 1)) = None.
Proof. by vm_compute. Qed.

(** ** The invariant *)

Definition kept (s : State) : list positive := concat (m_memPool (pool s)).

(** What the blocks kept take, from the queue [i] on. *)
Fixpoint queues_size (i : nat) (qs : list (list positive)) : Z :=
  match qs with [] => 0 | q :: qs => Z.of_nat (length q) * config_size i + queues_size (S i) qs end.

Definition header_ok (h : BLOCK_HEADER) : Prop :=
  Magic h = str "MP" ∧ ((Index h = -1 ∧ MAX_UNIT_SIZE < Size h < 2 ^ 32) ∨ ∃ i, (i < MAX_INDEX)%nat ∧ Index h = Z.of_nat i ∧ Size h = config_size i).

Record pool_ok (s : State) : Prop := {
  ok_length : length (m_memPool (pool s)) = MAX_INDEX;
  ok_once : ∀ b, (count b (kept s) <= 1)%nat;
  ok_kept : ∀ i q b, m_memPool (pool s) !! i = Some q → b ∈ q → blocks s !! b = Some (mkHeader (str "MP") (Z.of_nat i) (config_size i));
  ok_quota : ∀ i q, m_memPool (pool s) !! i = Some q → (length q <= cache_count i)%nat;
  ok_next : ∀ b h, blocks s !! b = Some h → (b < next s)%positive;
  ok_headers : ∀ b h, blocks s !! b = Some h → header_ok h;
  ok_pooled : m_pooled_memory_size (pool s) = u64 (queues_size 0 (m_memPool (pool s)))
}.

(** The block of a request. *)
Definition unit_size (n : Z) : Z := if (GetUnitIndex n <? MAX_INDEX)%nat then config_size (GetUnitIndex n) else n.

(** A block that is given out. *)
Definition live (s : State) (b : positive) (h : BLOCK_HEADER) : Prop := blocks s !! b = Some h ∧ b ∉ kept s.

(** ** Sums *)

Lemma count_concat_insert (qs : list (list positive)) i q q' b : qs !! i = Some q →
  (count b (concat (<[i := q']> qs)) + count b q = count b (concat qs) + count b q')%nat.
Proof.
  revert i. induction qs as [|x qs IH]; intros [|i] E; try done.
  - injection E as ->. cbn. rewrite !count_app. lia.
  - change (concat (<[S i := q']> (x :: qs))) with (x ++ concat (<[i := q']> qs)). cbn [concat]. rewrite !count_app. specialize (IH i E). lia.
Qed.

Lemma queues_size_insert k qs i q q' : qs !! i = Some q →
  queues_size k (<[i := q']> qs) = queues_size k qs + (Z.of_nat (length q') - Z.of_nat (length q)) * config_size (k + i).
Proof.
  revert k i. induction qs as [|x qs IH]; intros k [|i] E; try done.
  - injection E as ->. cbn. rewrite Nat.add_0_r. lia.
  - change (<[S i := q']> (x :: qs)) with (x :: <[i := q']> qs). cbn [queues_size]. rewrite (IH (S k) i E). replace (k + S i)%nat with (S k + i)%nat by lia. lia.
Qed.

Lemma kept_queue s b : b ∈ kept s ↔ ∃ i q, m_memPool (pool s) !! i = Some q ∧ b ∈ q.
Proof.
  unfold kept. rewrite list_elem_of_In, in_concat. split.
  - intros (q & Hq%list_elem_of_In & Hb%list_elem_of_In). apply list_elem_of_lookup in Hq as [i Hi]. by exists i, q.
  - intros (i & q & Hi & Hb). exists q. split; apply list_elem_of_In; [by eapply list_elem_of_lookup_2|done].
Qed.

(** ** Allocating *)

Lemma lower_bound_spec configs n : (lower_bound configs n <= length configs)%nat ∧
  (∀ s c, configs !! lower_bound configs n = Some (s, c) → n <= s).
Proof.
  induction configs as [|[s c] configs [IH1 IH2]]; cbn; [done|]. destruct (Z.ltb_spec s n); cbn; [split; [lia|apply IH2]|].
  split; [lia|]. by intros ? ? [= <- <-].
Qed.

Lemma lower_bound_all configs n : lower_bound configs n = length configs → Forall (λ c, c.1 < n) configs.
Proof.
  induction configs as [|[s c] configs IH]; cbn; [constructor|]. destruct (Z.ltb_spec s n); [|done]. intros [= E]. constructor; [done|auto].
Qed.

Lemma GetUnitIndex_spec n : (GetUnitIndex n <= MAX_INDEX)%nat ∧ ((GetUnitIndex n < MAX_INDEX)%nat → n <= config_size (GetUnitIndex n)) ∧
  (GetUnitIndex n = MAX_INDEX → MAX_UNIT_SIZE < n).
Proof.
  destruct (lower_bound_spec s_BlockConfig n) as [H1 H2]. fold (GetUnitIndex n) in *. split; [exact H1|]. split.
  - intros Hl. destruct (lookup_lt_is_Some_2 s_BlockConfig (GetUnitIndex n)) as [[s c] E]; [exact Hl|]. unfold config_size. rewrite E. cbn. by eapply H2.
  - intros E. apply (lower_bound_all s_BlockConfig) in E. apply (Forall_lookup_1 _ _ 15 (MAX_UNIT_SIZE, 1%nat)) in E; [exact E|done].
Qed.

Lemma config_bounds i : (i < MAX_INDEX)%nat → 0 < config_size i <= MAX_UNIT_SIZE.
Proof.
  intros Hi. destruct (lookup_lt_is_Some_2 s_BlockConfig i) as [[n c] E]; [exact Hi|]. unfold config_size. rewrite E. cbn.
  assert (H : Forall (λ c, 0 < c.1 <= MAX_UNIT_SIZE) s_BlockConfig) by (apply (bool_decide_unpack _); by vm_compute).
  by apply (Forall_lookup_1 _ _ _ _ H) in E.
Qed.

Lemma config_u32 i : (i < MAX_INDEX)%nat → u32 (config_size i) = config_size i.
Proof. intros Hi. destruct (config_bounds i Hi). apply u32_small. unfold MAX_UNIT_SIZE, MIN_UNIT_SIZE in *. lia. Qed.

(** Calls counted, and nothing else. *)
Definition counted_allocation (h : BLOCK_HEADER) (s : State) : State :=
  let p := pool s in
  mkState (mkMemPool (m_memPool p) (u64 (m_allocated_memory_size p + Size h)) (m_pooled_memory_size p)
    (u64 (m_dwAllocateCount p + 1)) (m_dwFreeCount p) (m_dwNewCount p) (m_dwDeleteCount p)) (blocks s) (next s).

(** Sums modulo 2^64. *)
Lemma u64_add x y : u64 (u64 x + y) = u64 (x + y).
Proof. unfold u64. apply Z.add_mod_idemp_l. lia. Qed.
Lemma count_0 {X} `{EqDecision X} (x : X) l : x ∉ l → count x l = 0%nat.
Proof. intros H. destruct (count x l) eqn:E; [done|]. destruct H. apply count_in. lia. Qed.

Lemma new_block_ok h s : pool_ok s → header_ok h →
  let '(b, s1) := new_block h s in let s' := counted_allocation h s1 in
  pool_ok s' ∧ (∀ x, ¬ live s b x) ∧ live s' b h ∧ (∀ b' x, b' ≠ b → live s' b' x ↔ live s b' x).
Proof.
  intros [H1 H2 H3 H4 H5 H6 H7] Hh. cbn. set (b := next s). assert (Hb : blocks s !! b = None).
  { destruct (blocks s !! b) as [x|] eqn:E; [|done]. apply H5 in E. unfold b in E. lia. }
  assert (Hnk : b ∉ kept s). { intros (i & q & Hi & Hq)%kept_queue. rewrite (H3 i q b Hi Hq) in Hb. done. }
  split; [|split; [|split]].
  - split; cbn; try done.
    + intros i q x Hi Hx. rewrite lookup_insert_ne; [by apply (H3 i q)|]. intros <-. apply Hnk, kept_queue. by exists i, q.
    + intros x y. destruct (decide (x = b)) as [->|Hne]; [intros _; unfold b; lia|]. rewrite lookup_insert_ne by done. intros Hx%H5. lia.
    + intros x y. destruct (decide (x = b)) as [->|Hne]; [rewrite lookup_insert_eq; by intros [= <-]|]. rewrite lookup_insert_ne by done. apply H6.
  - intros x [Hx _]. congruence.
  - split; [apply lookup_insert_eq|exact Hnk].
  - intros b' x Hne. unfold live. cbn. by rewrite lookup_insert_ne by done.
Qed.

Lemma taken_ok i b q s : pool_ok s → m_memPool (pool s) !! i = Some (b :: q) →
  let s' := counted_allocation (mkHeader (str "MP") (Z.of_nat i) (config_size i))
    (mkState (set_queue i q (u64 (m_pooled_memory_size (pool s) - config_size i)) (pool s)) (blocks s) (next s)) in
  pool_ok s' ∧ (∀ x, ¬ live s b x) ∧ live s' b (mkHeader (str "MP") (Z.of_nat i) (config_size i)) ∧ (∀ b' x, b' ≠ b → live s' b' x ↔ live s b' x).
Proof.
  intros [H1 H2 H3 H4 H5 H6 H7] Hi. assert (Hb := H3 i _ b Hi ltac:(by left)). assert (Hl : (i < length (m_memPool (pool s)))%nat) by (by eapply lookup_lt_Some).
  assert (Hc : ∀ x, (count x (concat (<[i := q]> (m_memPool (pool s)))) + (if decide (b = x) then 1 else 0) = count x (kept s))%nat).
  { intros x. pose proof (count_concat_insert _ i _ q x Hi) as E. rewrite count_cons in E. unfold kept. lia. }
  assert (Hsum := queues_size_insert 0 _ i _ q Hi). cbn [length] in Hsum. rewrite Nat.add_0_l in Hsum.
  split; [|split; [|split]].
  - split; cbn; try done.
    + by rewrite length_insert.
    + intros x. change (kept _) with (concat (<[i := q]> (m_memPool (pool s)))). specialize (Hc x). specialize (H2 x). lia.
    + intros j q' x Hj Hx. destruct (decide (j = i)) as [->|Hne].
      * rewrite list_lookup_insert_eq in Hj by done. injection Hj as <-. apply (H3 i (b :: q)); [done|by right].
      * rewrite list_lookup_insert_ne in Hj by done. by apply (H3 j q').
    + intros j q' Hj. destruct (decide (j = i)) as [->|Hne].
      * rewrite list_lookup_insert_eq in Hj by done. injection Hj as <-. specialize (H4 i _ Hi). cbn in H4. lia.
      * rewrite list_lookup_insert_ne in Hj by done. by apply H4.
    + rewrite Hsum, H7. replace (u64 (queues_size 0 (m_memPool (pool s))) - config_size i) with (u64 (queues_size 0 (m_memPool (pool s))) + (- config_size i)) by lia.
      rewrite u64_add. f_equal. lia.
  - intros x [_ []]. apply kept_queue. exists i, (b :: q). split; [done|by left].
  - split; [done|]. intros Hin%count_in. change (kept _) with (concat (<[i := q]> (m_memPool (pool s)))) in Hin. specialize (Hc b). rewrite decide_True in Hc by done.
    specialize (H2 b). lia.
  - intros b' x Hne. unfold live. cbn. assert (Hk : b' ∈ kept s ↔ b' ∈ concat (<[i := q]> (m_memPool (pool s)))).
    { rewrite <- !count_in. specialize (Hc b'). rewrite decide_False in Hc by done. lia. }
    change (kept (counted_allocation _ _)) with (concat (<[i := q]> (m_memPool (pool s)))). tauto.
Qed.

Definition given (s s' : State) (b : positive) (h : BLOCK_HEADER) : Prop :=
  pool_ok s' ∧ (∀ x, ¬ live s b x) ∧ live s' b h ∧ (∀ b' x, b' ≠ b → live s' b' x ↔ live s b' x).

Lemma Allocate_good n s : pool_ok s → 0 < n < 2 ^ 32 → ∃ b h s', Allocate n s = Some (Some b, s') ∧ given s s' b h ∧
  n <= Size h ∧ Size h = unit_size n ∧ GetAllocatedSize s' = u64 (GetAllocatedSize s + unit_size n).
Proof.
  intros Hs Hn. unfold Allocate, unit_size. destruct (Z.eqb_spec n 0); [lia|]. destruct (GetUnitIndex_spec n) as (Hi & Hfit & Hlarge).
  set (i := GetUnitIndex n) in *. destruct (Nat.leb_spec MAX_INDEX i) as [Hge|Hlt].
  - assert (Hmax : MAX_UNIT_SIZE < n) by (apply Hlarge; lia). destruct (Nat.ltb_spec i MAX_INDEX); [lia|]. unfold AllocateLargeBlock.
    rewrite (u64_small (sizeof_BLOCK_HEADER + n)) by (unfold sizeof_BLOCK_HEADER; lia).
    destruct (Z.ltb_spec (sizeof_BLOCK_HEADER + n) sizeof_BLOCK_HEADER) as [?|_]; [lia|]. assert (Hu : u32 n = n) by (apply u32_small; lia). rewrite Hu.
    set (h := mkHeader (str "MP") (-1) n). assert (Hh : header_ok h) by (split; [done|]; left; cbn; split; [done|lia]).
    pose proof (new_block_ok h s Hs Hh) as Hgiven. cbn in Hgiven |- *. rewrite lookup_insert_eq. cbn. exists (next s), h. by eexists.
  - assert (Hu := config_u32 i Hlt). specialize (Hfit Hlt). destruct (Nat.ltb_spec i MAX_INDEX); [|lia]. set (h := mkHeader (str "MP") (Z.of_nat i) (config_size i)).
    assert (Hh : header_ok h) by (split; [done|]; right; by exists i). unfold take_block.
    destruct (m_memPool (pool s) !! i) as [[|b q]|] eqn:Eq.
    2: { pose proof (taken_ok i b q s Hs Eq) as Hgiven. cbn in Hgiven |- *. rewrite (ok_kept s Hs i _ b Eq) by by left. cbn. exists b, h. by eexists. }
    all: unfold AllocateBlock; rewrite Hu; fold h; pose proof (new_block_ok h s Hs Hh) as Hgiven; cbn in Hgiven |- *; rewrite lookup_insert_eq; cbn.
    all: exists (next s), h; by eexists.
Qed.

(** ** Freeing *)

(** Calls of [Free] counted. *)
Definition counted_free (h : BLOCK_HEADER) (s : State) : State :=
  let p := pool s in
  mkState (mkMemPool (m_memPool p) (u64 (m_allocated_memory_size p - Size h)) (m_pooled_memory_size p) (m_dwAllocateCount p)
    (u64 (m_dwFreeCount p + 1)) (m_dwNewCount p) (m_dwDeleteCount p)) (blocks s) (next s).

Lemma freed_ok b h s : pool_ok s → live s b h →
  let s' := counted_free h (FreeBlock b s) in pool_ok s' ∧ (∀ b' x, live s' b' x ↔ live s b' x ∧ b' ≠ b).
Proof.
  intros [H1 H2 H3 H4 H5 H6 H7] [Hb Hnk].
  cbn. split.
  - split; cbn; try done.
    + intros i q x Hi Hx. rewrite lookup_delete_ne; [by apply (H3 i q)|]. intros <-. apply Hnk, kept_queue. by exists i, q.
    + intros x y [_ Hx%H5]%lookup_delete_Some. done.
    + intros x y [_ Hx]%lookup_delete_Some. by eapply H6.
  - intros b' x. unfold live. cbn. change (kept (counted_free _ _)) with (kept s). rewrite lookup_delete_Some. naive_solver.
Qed.

Lemma returned_ok i b q s : pool_ok s → (i < MAX_INDEX)%nat → let h := mkHeader (str "MP") (Z.of_nat i) (config_size i) in
  live s b h → m_memPool (pool s) !! i = Some q → (length q < cache_count i)%nat →
  let s' := counted_free h (mkState (set_queue i (q ++ [b]) (u64 (m_pooled_memory_size (pool s) + config_size i)) (pool s)) (blocks s) (next s)) in
  pool_ok s' ∧ (∀ b' x, live s' b' x ↔ live s b' x ∧ b' ≠ b).
Proof.
  intros [H1 H2 H3 H4 H5 H6 H7] Hlt h [Hb Hnk] Hi Hroom. assert (Hl : (i < length (m_memPool (pool s)))%nat) by (by eapply lookup_lt_Some).
  assert (Hc : ∀ x, count x (concat (<[i := q ++ [b]]> (m_memPool (pool s)))) = (count x (kept s) + (if decide (b = x) then 1 else 0))%nat).
  { intros x. pose proof (count_concat_insert _ i _ (q ++ [b]) x Hi) as E. rewrite count_app, count_cons in E. rewrite count_nil in E. unfold kept. lia. }
  assert (Hsum := queues_size_insert 0 _ i _ (q ++ [b]) Hi). rewrite length_app in Hsum. cbn [length] in Hsum. rewrite Nat.add_0_l in Hsum.
  split.
  - split; cbn; try done.
    + by rewrite length_insert.
    + intros x. change (kept _) with (concat (<[i := q ++ [b]]> (m_memPool (pool s)))). rewrite Hc. destruct (decide (b = x)) as [<-|]; [|specialize (H2 x); lia].
      rewrite (count_0 b (kept s)) by done. lia.
    + intros j q' x Hj Hx. destruct (decide (j = i)) as [->|Hne].
      * rewrite list_lookup_insert_eq in Hj by done. injection Hj as <-. apply elem_of_app in Hx as [Hx| ->%list_elem_of_singleton]; [by apply (H3 i q)|done].
      * rewrite list_lookup_insert_ne in Hj by done. by apply (H3 j q').
    + intros j q' Hj. destruct (decide (j = i)) as [->|Hne].
      * rewrite list_lookup_insert_eq in Hj by done. injection Hj as <-. rewrite length_app. cbn. lia.
      * rewrite list_lookup_insert_ne in Hj by done. by apply H4.
    + rewrite Hsum, H7, u64_add. f_equal. lia.
  - intros b' x. unfold live. cbn. change (kept (counted_free _ _)) with (concat (<[i := q ++ [b]]> (m_memPool (pool s)))).
    assert (Hk : b' ∈ concat (<[i := q ++ [b]]> (m_memPool (pool s))) ↔ b' ∈ kept s ∨ b' = b).
    { rewrite <- !count_in, Hc. destruct (decide (b = b')); [subst; lia|]. split; [lia|]. intros [?| ->]; [lia|done]. }
    rewrite Hk. tauto.
Qed.

Lemma header_valid h : header_ok h → IsValidMemoryBlock h = true.
Proof.
  intros [Hm Hi]. unfold IsValidMemoryBlock. rewrite bool_decide_true by done. cbn. destruct Hi as [[-> Hs]|(i & Hi & -> & ->)].
  - cbn. apply Z.ltb_lt. lia.
  - destruct (Z.eqb_spec (Z.of_nat i) (-1)); [lia|]. destruct (config_bounds i Hi). apply andb_true_iff. split; [apply Z.ltb_lt; lia|by apply Z.leb_le].
Qed.

Lemma Free_good b h s : pool_ok s → live s b h →
  ∃ s', Free (Some b) s = Some s' ∧ (pool_ok s' ∧ ∀ b' x, live s' b' x ↔ live s b' x ∧ b' ≠ b) ∧ GetAllocatedSize s' = u64 (GetAllocatedSize s - Size h).
Proof.
  intros Hs Hb. assert (Hh : header_ok h) by (eapply (ok_headers s Hs), Hb). assert (E := proj1 Hb). unfold Free. rewrite E. cbn [mbind option_bind].
  rewrite (header_valid h Hh). cbn [negb]. destruct Hh as [Hm [[Ei Hsize]|(i & Hi & Ei & Esize)]]; rewrite Ei.
  - cbn. eexists. split; [done|]. split; [|done]. exact (freed_ok b h s Hs Hb).
  - destruct (Z.eqb_spec (Z.of_nat i) (-1)); [lia|]. rewrite Nat2Z.id. destruct (Z.ltb_spec (Z.of_nat i) 0); [lia|].
    destruct (lookup_lt_is_Some_2 (m_memPool (pool s)) i) as [q Hq]; [by rewrite (ok_length s Hs)|]. rewrite Hq. cbn [mbind option_bind].
    destruct (Nat.ltb_spec (length q) (cache_count i)) as [Hroom|]; cbn [mbind option_bind].
    + assert (Eh : h = mkHeader (str "MP") (Z.of_nat i) (config_size i)) by (destruct h; cbn in *; congruence). subst h.
      eexists. split; [done|]. split; [|done]. exact (returned_ok i b q s Hs Hi Hb Hq Hroom).
    + eexists. split; [done|]. split; [|done]. exact (freed_ok b h s Hs Hb).
Qed.

(** ** A program that uses the pool *)

(** The requests whose blocks are not freed. *)
Inductive uses : State → gmap positive Z → Prop :=
  | uses_new dwMaxMemSize p a : new_MemPool dwMaxMemSize = Some p → uses (mkState p ∅ a) ∅
  | uses_Allocate s m n b s' : uses s m → 0 < n < 2 ^ 32 → Allocate n s = Some (Some b, s') → uses s' (<[b := n]> m)
  | uses_Free s m b s' : uses s m → is_Some (m !! b) → Free (Some b) s = Some s' → uses s' (delete b m).

Definition requested (m : gmap positive Z) : Z := map_fold (λ _ n acc, unit_size n + acc) 0 m.

Lemma requested_insert m b n : m !! b = None → requested (<[b := n]> m) = unit_size n + requested m.
Proof. intros Hb. unfold requested. rewrite map_fold_insert_L; [done|intros; lia|done]. Qed.

Lemma requested_delete m b n : m !! b = Some n → requested (delete b m) = requested m - unit_size n.
Proof. intros Hb. pose proof (requested_insert (delete b m) b n (lookup_delete_eq m b)) as E. rewrite (insert_delete_id m b n Hb) in E. lia. Qed.

Record uses_ok (s : State) (m : gmap positive Z) : Prop := {
  uses_pool : pool_ok s;
  uses_given : ∀ b n, m !! b = Some n → ∃ h, live s b h ∧ n <= Size h ∧ Size h = unit_size n;
  uses_all : ∀ b h, live s b h → is_Some (m !! b);
  uses_size : GetAllocatedSize s = u64 (requested m)
}.

Lemma new_mempool_ok dwMaxMemSize p a : new_MemPool dwMaxMemSize = Some p → uses_ok (mkState p ∅ a) ∅.
Proof.
  unfold new_MemPool. destruct (_ && _)%bool; [|done]. intros [= <-]. split.
  - split; cbn; try done.
    + intros b. vm_compute. lia.
    + intros i q b Hi Hb. apply (lookup_replicate_1 MAX_INDEX []) in Hi as [-> _]. by apply not_elem_of_nil in Hb.
    + intros i q Hi. apply (lookup_replicate_1 MAX_INDEX []) in Hi as [-> _]. cbn. lia.
  - done.
  - by intros b h [? _].
  - done.
Qed.

Lemma uses_good s m : uses s m → uses_ok s m.
Proof.
  induction 1 as [mx p a Hp|s m n b s' _ [H1 H2 H3 H4] Hn Ha|s m b s' _ [H1 H2 H3 H4] [n Hb] Hf].
  - by eapply new_mempool_ok.
  - destruct (Allocate_good n s H1 Hn) as (b' & h & s1 & E & (Hok & Hfresh & Hlive & Hothers) & Hfit & Hsize & Hall). rewrite E in Ha. injection Ha as <- <-.
    assert (Hm : m !! b' = None). { destruct (m !! b') eqn:Em; [|done]. apply H2 in Em as (x & Hx & _). by destruct (Hfresh x). }
    split; [done|..].
    + intros c k. destruct (decide (c = b')) as [->|Hne]; [rewrite lookup_insert_eq; intros [= <-]; by exists h|]. rewrite lookup_insert_ne by done.
      intros (x & Hx & Hrest)%H2. exists x. split; [by apply Hothers|done].
    + intros c x Hx. destruct (decide (c = b')) as [->|Hne]; [by rewrite lookup_insert_eq|]. rewrite lookup_insert_ne by done. apply (H3 c x). by apply Hothers.
    + rewrite Hall, H4, u64_add, requested_insert by done. f_equal. lia.
  - destruct (H2 b n Hb) as (h & Hlive & _ & Hsize). destruct (Free_good b h s H1 Hlive) as (s1 & E & (Hok & Hothers) & Hall). rewrite E in Hf. injection Hf as <-.
    split; [done|..].
    + intros c k [Hne (x & Hx & Hrest)%H2]%lookup_delete_Some. exists x. split; [apply Hothers; done|done].
    + intros c x [Hx Hne]%Hothers. rewrite lookup_delete_ne by done. by eapply H3.
    + rewrite Hall, H4, (requested_delete m b n Hb), Hsize. replace (u64 (requested m) - unit_size n) with (u64 (requested m) + (- unit_size n)) by lia.
      by rewrite u64_add.
Qed.

Lemma blocks_Destroy s l b : blocks (foldr FreeBlock s l) !! b = if decide (b ∈ l) then None else blocks s !! b.
Proof.
  induction l as [|x l IH]; [done|]. cbn. destruct (decide (x = b)) as [->|Hne]; [rewrite lookup_delete_eq, decide_True by set_solver; done|].
  rewrite lookup_delete_ne, IH by done. destruct (decide (b ∈ l)); [by rewrite decide_True by set_solver|by rewrite decide_False by set_solver].
Qed.

Lemma destroyed s : uses_ok s ∅ → blocks (Destroy s) = ∅.
Proof.
  intros [_ _ H3 _]. apply map_eq. intros b. rewrite lookup_empty. unfold Destroy. rewrite blocks_Destroy. destruct (decide _) as [|Hb]; [done|].
  destruct (blocks s !! b) as [h|] eqn:E; [|done]. destruct (H3 b h (conj E Hb)) as [? ?]. done.
Qed.


